(* ===== verification/_CoqProject ===== *)
-Q . S2P
Prelude.v
Interfaces.v
Profiles.v
Storage.v
RoutingDefs.v
RoutingProofs.v
RoutingStore.v
UsageCache.v
UsageProofs.v
Selection.v
SelectionProofs.v
Wire.v
WireProofs.v
Lifecycle.v
LifecycleProofs.v
LifecycleTheorems.v
Receivers.v
ReceiverProofs.v
CoordinatorTerminal.v
TerminalProofs.v
CoordinatorDrive.v
DriveProofs.v
DriveTermination.v
DriveTheorems.v
ConversationData.v
ConversationOps.v
ConversationStore.v
ConversationProofs.v
ConversationSpec.v
ConversationSteps.v
ConversationHandoff.v
ConversationTheorems.v
ConversationDisk.v
ConversationCodec.v
ConversationExamples.v
HandoffTransaction.v
HandoffReconcile.v
HandoffEffects.v
HandoffExamples.v
CodexLines.v
CodexVersions.v
AppServer.v
ThreadSettings.v
FailoverSystem.v
HandoffClient.v
Failover.v
FailoverLoop.v
AppServerProofs.v
AppServerExamples.v
HandoffClientProofs.v
FailoverStored.v
FailoverProofs.v
HandoffBaseline.v
FailoverExamples.v
UniqueJson.v
ReadinessFrames.v
ReadinessChunks.v
ReadinessMessages.v
ReadinessState.v
RelayControl.v
RelaySystem.v
RelayProofs.v
RelayTheorems.v
RelayExamples.v
ProfileDisk.v
RemovalTree.v
ProfileRegistry.v
ManagedHome.v
Reauth.v
ProfileRemoval.v
ProfileLogic.v
RemovalTreeProofs.v
RemovalDeletion.v
RemovalDisk.v
RemovalFresh.v
RemovalSteps.v
RemovalRecovery.v
RemovalCrash.v
RemovalTheorems.v
RemovalExamples.v
