(* ===== verification/Prelude.v ===== *)
(** * Calcifer: a verification library for the guarded failover core

    Calcifer runs the Codex and Claude command line tools under managed
    profiles. When the account of one profile is exhausted, it hands the
    conversation over to another profile of a pool that the user has enabled:
    the exhaustion is revalidated, a target is selected, the thread is forked
    into the target's home, and the target is resumed under supervision. This
    library models the code of that failover core, with the private stores it
    rests on, and proves what makes it safe.

    ** Conventions

    A definition has the name of the function, method or type it models, as far
    as Rocq allows, and follows its branches and early returns. [Result] is
    [result], with [?] as monadic bind; a method on [&mut self] is a
    computation of [stM] over the state, which keeps the state when it fails.
    Integers are [Z] with the checked, saturating or wrapping operation of the
    source written out; texts are [string] and byte buffers [bytes], lists of
    [Z]. Loops over data are structural; a loop that has no such bound takes
    fuel (below). Code outside the sources is a class, with laws where the
    theorems need any; the files of examples have the concrete instances on
    which the witnesses evaluate.

    ** Parts

    - Foundations. [Prelude]: results, options, lists, integers, tactics.
      [Interfaces]: the [uuid] and [serde] crates. [Profiles]: identity of a
      profile and the validation of a list of profiles (src/profiles.rs).
    - Routing (src/routing.rs, src/routing/). [RoutingDefs]: trust domains and
      pools, [validate], the nine mutations behind [apply]. [RoutingStore]: the
      registry on disk and the identity checks of [validation.rs], over the
      directory of [Storage]. [Selection]: one guarded selection over a pool.
      [UsageCache] (src/usage_observations.rs): the evidence a selection uses.
    - Conversation journal (src/conversations.rs). [ConversationData]: the
      document and [validate_document]. [ConversationOps]: the closures run
      under the registry lock. [ConversationStore]: the registry on disk.
      [ConversationSpec]: the abstract journal, which the transactions refine.
    - Handoff (src/providers/codex/handoff_transaction.rs).
      [HandoffTransaction]: the driver of one step of the active handoff.
    - App server client (src/providers/codex.rs). [CodexLines]: its output cut
      into lines. [CodexVersions]: the versions accepted. [AppServer]: the
      conversations with a child. [ThreadSettings] (remote.rs): the settings a
      fork has to keep. [UniqueJson] (json.rs): JSON without duplicate keys.
    - Failover (src/providers/codex/failover.rs, selection_runtime.rs).
      [FailoverSystem]: the interface to the rest of the system.
      [HandoffClient]: the conversations of a handoff. [Failover]: the
      production runtime of the driver. [FailoverLoop]: the production runtime
      of the selection, recovery, and [resume_supervised_with_failover], which
      composes journal, routing, usage cache, selection, driver and client.
    - Supervision (src/providers/codex/supervisor/). [Wire], [Lifecycle],
      [Receivers] (protocol.rs): messages and frames, the transcript validator,
      the two ends of the channel. [CoordinatorTerminal]
      (coordinator_terminal.rs, terminal.rs): the terminal owner.
      [CoordinatorDrive] (coordinator.rs, signals.rs, entry.rs): a production
      coordinator from bootstrap to the exit code of the process.
    - Readiness relay (src/providers/codex/remote.rs), which sits between the
      official client and its app server until the resume is seen.
      [ReadinessFrames]: handshakes and WebSocket frames. [ReadinessMessages],
      [ReadinessState]: the exchange that is waited for. [RelayControl]: the
      shared outcome. [RelaySystem]: worker, two copy pumps and caller as one
      transition system.
    - Profiles on disk (src/profiles.rs, src/profiles/reauth.rs).
      [ProfileDisk]: files, checks and system calls. [ProfileRegistry]:
      registry, barrier, journal, locks. [RemovalTree]: validation and deletion
      of a tree. [ManagedHome]: the policies of a provider's home.
      [ProfileRemoval], [Reauth]: removal and its recovery, reauthentication.

    Routing, usage cache and journal are threaded through the failover as the
    three [Directories]. The client of an abstract runtime is proved for every
    instance of its class, and [Failover] and [FailoverLoop] give the
    production instances: [HandoffRuntime] for the driver, [SelectionRuntime]
    for the selection. [JsonCodec] and [JsonRoundTrip] are what the stores need
    of serialisation.

    ** Theorems

    - Specifications of data: [validate_spec] and [apply_refines] (routing),
      [fresh_view_evidence] (usage), [transactions_valid] (journal),
      [tree_validation_iff] (profile trees), [version_grammar],
      [rollout_lifecycle_spec], [wire_canonical].
    - Stores under failing calls: [commit_atomic], [call_atomic],
      [journal_history].
    - Streams cut anywhere: [message_transport], [stdout_chunking],
      [inspection_chunking], [inspector_bounded].
    - Protocol and supervision: [lifecycle_refines], [input_gate_authority],
      [terminal_exit_proved], [lifecycle_can_finish], [coordinator_transcript],
      [run_sound], [run_orderly], [exhaustion_lost], [terminal_integrity].
    - Handoff and failover: [handoff_effects], [reconcile_equiv],
      [thread_inventory_sound], [handoff_inventory_complete], [fork_exact],
      [unsorted_baseline_blocks_handoff], [failover_once_each],
      [failover_terminates].
    - Relay, over every interleaving: [relay_readiness_sound],
      [relay_transparent], [relay_single_outcome]; [readiness_reached].
    - Removal of a profile, over every crash: [removal_crash_safe],
      [removal_recovery_settles], [remove_returns_removed],
      [deletion_all_or_pruned].

    [exhaustion_lost] and [unsorted_baseline_blocks_handoff] are theorems about
    flaws: a coordinator never reports the exhaustion event that the failover
    waits for, and a target whose threads are listed out of the order of their
    ids cannot be handed to.

    ** Bounds and fuel

    - The coordinator's loops take fuel and answer [OutOfFuel], which no
      theorem counts as a result: they poll descriptors and clocks of the
      environment. [DriveTermination] shows that a wait with a deadline never
      runs out when the fuel exceeds the distance to it and every reading of the
      clock advances; the active loop ends when the environment lets it.
    - [failover_loop] takes a turn for each generation; [failover_terminates]:
      the registered profiles and one more are enough, as each turn puts
      another profile into the cooldown.
    - Pages of an inventory are bounded by the constants of the source.
    - [read_stdout] and [lifecycle_loop] take the length of the stream and one
      more; [lossy], [trim_front], [feed_frames] and its loops that of the bytes
      at hand. Each turn consumes at least a byte or returns.
    - [walk] takes the number of entries and one more, deletion the limit of
      the depth and one more ([RemovalTreeProofs], [RemovalDeletion]).

    ** Parameters

    [UuidCrate]; [JsonCodec] with [JsonRoundTrip] (a document in range is read
    back as it was written); [JsonCrate], [JsonThreads] and [JsonSyntax]
    ([serde_json] values, projections and the events of its parser);
    [Sha256Crate]; [TomlCrate]; [ReauthJson], [ClaudeStatusJson] and
    [RegistryHeader], reads of a few fields of a document; [Faults] and the two
    [Host]s, the answers of the operating system to the calls of a store;
    [Environment], those to the coordinator; [MembershipSource], the provider
    probe behind a membership change; [ClientEnv], the script of an app server;
    [FailoverSystem], what the failover works with that is not modelled at its
    level: clock, leases, rollout proofs, generations. There [others] is what
    other processes do to the directories and [await_answer] what happens in
    the system while the answers to a fork are awaited.

    ** What is not modelled

    - Concurrency on one store: a transaction holds the lock of its directory
      and runs alone. Other processes act through [others] before
      every step of the handoff driver and while a generation that the loop has
      started runs. A generation that the driver promotes runs within one step
      of the driver, without interference.
    - Loss of power: what a call has done stays done. A process may die at any
      call of a removal, which leaves the disk as it is then.
    - The relay's threads do not panic. The end of inspection and the sending
      of the verdict, both under the lock of the selection, are one step.
    - The builds for macOS and Windows, and the three crates for access lists
      and descriptors, whose answers are those of the environment.
    - Registration, adoption and rename of profiles, the key store of provider
      identities, the start of a reauthentication, and the file checks of
      rollouts; they are steps that may fail, or not called by what is modelled.
    - The guardian process, its launch, PTY and process groups: the coordinator
      sees them through the channel and [Environment], whatever they do.
    - The command line, its output, monitoring, updates, fixtures and tests,
      which hold no decisions of the failover core. *)
From Stdlib Require Export ZArith Lia.
From Stdlib Require Import Ascii.
From stdpp Require Export base tactics numbers sorting gmap sets strings list.

Declare Scope calcifer_scope.
Delimit Scope calcifer_scope with calcifer.

(** ** Fallible code: [Result<A, E>] *)

(** Rust's [Result], error type first so that [result E] is a monad. *)
Inductive result (E A : Type) : Type :=
| Ok (a : A)
| Err (e : E).
Arguments Ok {_ _} _.
Arguments Err {_ _} _.

(** The [?] operator is the monadic bind, written [x ← m; k]. *)
#[export] Instance result_ret {E} : MRet (result E) := fun _ => Ok.
#[export] Instance result_bind {E} : MBind (result E) := fun _ _ k m =>
  match m with Ok a => k a | Err e => Err e end.
#[export] Instance result_fmap {E} : FMap (result E) := fun _ _ f m =>
  match m with Ok a => Ok (f a) | Err e => Err e end.

#[export] Instance result_eq_dec {E A} `{EqDecision E, EqDecision A} :
  EqDecision (result E A).
Proof. solve_decision. Defined.

(** [if cond { return Err(e) }]. *)
Definition reject_if {E} (cond : bool) (e : E) : result E () :=
  if cond then Err e else Ok ().

(** [Option::ok_or]. *)
Definition ok_or {E A} (o : option A) (e : E) : result E A :=
  match o with Some a => Ok a | None => Err e end.

(** [Result::map_err]. *)
Definition map_err {E F A} (f : E → F) (r : result E A) : result F A :=
  match r with Ok a => Ok a | Err e => Err (f e) end.

Definition is_ok {E A} (r : result E A) : bool :=
  match r with Ok _ => true | Err _ => false end.

(** A [for] loop whose body only returns early with an error. *)
Fixpoint for_each {E A} (body : A → result E ()) (l : list A) : result E () :=
  match l with
  | [] => Ok ()
  | x :: l => _ ← body x; for_each body l
  end.

(** The same loop with the index of [Iterator::enumerate] and the elements
    already visited ([iter().take(index)]). *)
Fixpoint for_each_prev {E A} (body : list A → A → result E ())
    (prev l : list A) : result E () :=
  match l with
  | [] => Ok ()
  | x :: l => _ ← body prev x; for_each_prev body (prev ++ [x]) l
  end.

(** A loop that also updates local variables ([acc]); [prev] is
    [iter().take(index)]. *)
Fixpoint fold_prev {E A Acc} (body : list A → Acc → A → result E Acc)
    (prev : list A) (acc : Acc) (l : list A) : result E Acc :=
  match l with
  | [] => Ok acc
  | x :: l => acc' ← body prev acc x; fold_prev body (prev ++ [x]) acc' l
  end.

(** A loop that updates local variables and returns early with an error. *)
Fixpoint fold_result {E A Acc} (body : Acc → A → result E Acc)
    (acc : Acc) (l : list A) : result E Acc :=
  match l with
  | [] => Ok acc
  | x :: l => acc' ← body acc x; fold_result body acc' l
  end.

(** [Iterator::map(f).collect::<Result<Vec<_>, _>>()]. *)
Fixpoint collect_results {E A B} (f : A → result E B) (l : list A) : result E (list B) :=
  match l with
  | [] => Ok []
  | x :: l => y ← f x; ys ← collect_results f l; Ok (y :: ys)
  end.

(** ** Methods on [&mut self]: state changes survive an early error return *)

Definition stM (S E A : Type) : Type := S → result E A * S.

#[export] Instance stM_ret {S E} : MRet (stM S E) := fun _ a s => (Ok a, s).
#[export] Instance stM_bind {S E} : MBind (stM S E) := fun _ _ k m s =>
  match m s with
  | (Ok a, s) => k a s
  | (Err e, s) => (Err e, s)
  end.

Definition get_st {S E} : stM S E S := fun s => (Ok s, s).
Definition put_st {S E} (s : S) : stM S E () := fun _ => (Ok (), s).
Definition modify_st {S E} (f : S → S) : stM S E () := fun s => (Ok (), f s).
Definition throw {S E A} (e : E) : stM S E A := fun s => (Err e, s).
Definition lift_result {S E A} (r : result E A) : stM S E A := fun s => (r, s).

(** ** Machine integers: values in [Z], the width written out *)

Definition u8_max : Z := 2 ^ 8 - 1.
Definition u16_max : Z := 2 ^ 16 - 1.
Definition u32_max : Z := 2 ^ 32 - 1.
Definition u64_max : Z := 2 ^ 64 - 1.
Definition i32_max : Z := 2 ^ 31 - 1.
Definition i64_min : Z := - 2 ^ 63.
Definition i64_max : Z := 2 ^ 63 - 1.

(** [checked_add] of the unsigned widths and of [i64]. *)
Definition checked_add_u (max a b : Z) : option Z :=
  if (a + b <=? max)%Z then Some (a + b)%Z else None.
Definition checked_add_i64 (a b : Z) : option Z :=
  if ((i64_min <=? a + b) && (a + b <=? i64_max))%Z then Some (a + b)%Z else None.
Definition saturating_add_u (max a b : Z) : Z := Z.min max (a + b).
Definition saturating_sub_u (a b : Z) : Z := Z.max 0 (a - b).
Definition saturating_mul_i64 (a b : Z) : Z := Z.max i64_min (Z.min i64_max (a * b)).

(** [slice.len()] as a machine integer. *)
Definition len {A} (l : list A) : Z := Z.of_nat (length l).
(** [str.len()]: the number of bytes. *)
Definition str_len (s : string) : Z := Z.of_nat (String.length s).

(** ** Iterator adaptors over lists *)

(** [iter().any(f)] and [iter().all(f)] are [existsb] and [forallb];
    [iter().find(f)] returns the first match. *)
Fixpoint find_first {A} (f : A → bool) (l : list A) : option A :=
  match l with
  | [] => None
  | x :: l => if f x then Some x else find_first f l
  end.

(** [iter().position(f)]. *)
Fixpoint position {A} (f : A → bool) (l : list A) : option nat :=
  match l with
  | [] => None
  | x :: l => if f x then Some 0 else S <$> position f l
  end.

(** [iter_mut().find(f)] followed by an assignment through the reference:
    the first match is replaced. *)
Fixpoint update_first {A} (f : A → bool) (g : A → A) (l : list A) : list A :=
  match l with
  | [] => []
  | x :: l => if f x then g x :: l else x :: update_first f g l
  end.

(** [Vec::remove(index)] for an index in range. *)
Fixpoint remove_at {A} (i : nat) (l : list A) : list A :=
  match l, i with
  | [], _ => []
  | _ :: l, O => l
  | x :: l, S i => x :: remove_at i l
  end.

(** [iter().enumerate().any(f)]. *)
Fixpoint any_indexed {A} (f : nat → A → bool) (i : nat) (l : list A) : bool :=
  match l with
  | [] => false
  | x :: l => f i x || any_indexed f (S i) l
  end.

(** ** String order: [Ord for str] compares bytes lexicographically *)

Definition str_lt (a b : string) : bool := String.ltb a b.
Definition str_le (a b : string) : bool := String.leb a b.

(** [windows(2).all(|pair| pair[0] < pair[1])]. *)
Fixpoint strictly_sorted_strings (l : list string) : bool :=
  match l with
  | [] => true
  | x :: l' =>
      match l' with
      | [] => true
      | y :: _ => str_lt x y && strictly_sorted_strings l'
      end
  end.

(** [slice::sort_by]: a stable sort. *)
Fixpoint insert_by {A} (le : A → A → bool) (x : A) (l : list A) : list A :=
  match l with
  | [] => [x]
  | y :: l' => if le x y then x :: l else y :: insert_by le x l'
  end.
Fixpoint sort_by {A} (le : A → A → bool) (l : list A) : list A :=
  match l with
  | [] => []
  | x :: l => insert_by le x (sort_by le l)
  end.
Definition sort_strings : list string → list string := sort_by str_le.

(** [slice::binary_search_by], the loop of the standard library: [size]
    halves until one candidate is left. [cmp x] is the order of [x] relative
    to the target; the result is whether [Ok] is returned. *)
Fixpoint bsearch_loop {A} (cmp : A → comparison) (l : list A)
    (fuel base size : nat) : nat :=
  match fuel with
  | O => base
  | S fuel =>
      if Nat.leb size 1 then base else
      let half := Nat.div size 2 in
      let mid := (base + half)%nat in
      let base' := match cmp <$> l !! mid with
                   | Some Gt => base
                   | _ => mid
                   end in
      bsearch_loop cmp l fuel base' (size - half)
  end.
Definition binary_search_by {A} (cmp : A → comparison) (l : list A) : bool :=
  match l with
  | [] => false
  | _ =>
      let base := bsearch_loop cmp l (length l) 0 (length l) in
      match cmp <$> l !! base with Some Eq => true | _ => false end
  end.
Definition binary_search (target : string) (l : list string) : bool :=
  binary_search_by (fun x => String.compare x target) l.

(** ** ASCII classes *)

Definition byte_in (lo hi : nat) (c : ascii) : bool :=
  Nat.leb lo (nat_of_ascii c) && Nat.leb (nat_of_ascii c) hi.
Definition is_ascii_digit (c : ascii) : bool := byte_in 48 57 c.
Definition is_ascii_lower_hex (c : ascii) : bool := is_ascii_digit c || byte_in 97 102 c.
Definition is_ascii_alphanumeric (c : ascii) : bool :=
  is_ascii_digit c || byte_in 65 90 c || byte_in 97 122 c.
(** [matches!(byte, b'.' | b'_' | b'-')]. *)
Definition is_name_punct (c : ascii) : bool :=
  let n := nat_of_ascii c in Nat.eqb n 46 || Nat.eqb n 95 || Nat.eqb n 45.
Definition is_ascii (c : ascii) : bool := Nat.leb (nat_of_ascii c) 127.
Definition str_bytes (s : string) : list ascii := String.list_ascii_of_string s.
Definition str_all (f : ascii → bool) (s : string) : bool := forallb f (str_bytes s).

(** * Lemmas *)

Create HintDb calcifer.
Create Rewrite HintDb calcifer_rw.

(** ** Results *)

Section results.
Context {E A B : Type}.

Lemma bind_Ok (m : result E A) (k : A → result E B) b :
  m ≫= k = Ok b ↔ ∃ a, m = Ok a ∧ k a = Ok b.
Proof.
  destruct m as [a|e]; cbn; split; [eauto|..]; naive_solver.
Qed.

Lemma bind_Err (m : result E A) (k : A → result E B) e :
  m ≫= k = Err e ↔ m = Err e ∨ ∃ a, m = Ok a ∧ k a = Err e.
Proof. destruct m; cbn; naive_solver. Qed.

Lemma reject_if_Ok c (e : E) u : reject_if c e = Ok u ↔ c = false.
Proof. destruct c, u; cbn; naive_solver. Qed.

Lemma reject_if_Err c (e e' : E) : reject_if c e = Err e' ↔ c = true ∧ e = e'.
Proof. destruct c; cbn; naive_solver. Qed.

Lemma ok_or_Ok (o : option A) (e : E) a : ok_or o e = Ok a ↔ o = Some a.
Proof. destruct o; cbn; naive_solver. Qed.

Lemma ok_or_Err (o : option A) (e e' : E) : ok_or o e = Err e' ↔ o = None ∧ e = e'.
Proof. destruct o; cbn; naive_solver. Qed.

Lemma is_ok_spec (r : result E A) : is_ok r = true ↔ ∃ a, r = Ok a.
Proof. destruct r; cbn; naive_solver. Qed.

Lemma for_each_Ok (body : A → result E ()) l u :
  for_each body l = Ok u ↔ Forall (fun x => body x = Ok ()) l.
Proof.
  destruct u; induction l as [|x l IH]; cbn; [by split|].
  rewrite Forall_cons, <- IH. destruct (body x) as [[]|]; naive_solver.
Qed.

Lemma for_each_prev_Ok (body : list A → A → result E ()) prev l u :
  for_each_prev body prev l = Ok u ↔
  ∀ l1 x l2, l = l1 ++ x :: l2 → body (prev ++ l1) x = Ok ().
Proof.
  destruct u; revert prev; induction l as [|y l IH]; intros prev; cbn.
  { split; [|done]. intros _ [|??] ?? [=]. }
  destruct (body prev y) as [[]|] eqn:Hy; cbn.
  - rewrite IH. split.
    + intros H [|z l1] x l2 [= <- ->]; [by rewrite app_nil_r|].
      specialize (H _ _ _ eq_refl). by rewrite <- app_assoc in H.
    + intros H l1 x l2 ->. rewrite <- app_assoc. by apply (H (y :: l1) x l2).
  - split; [done|]. intros H. specialize (H [] y l eq_refl).
    rewrite app_nil_r in H. congruence.
Qed.

Lemma collect_results_Ok (f : A → result E B) l bs :
  collect_results f l = Ok bs ↔ Forall2 (fun x y => f x = Ok y) l bs.
Proof.
  revert bs; induction l as [|x l IH]; intros bs; cbn.
  { split; [by intros [= <-]|]. by intros ->%Forall2_nil_inv_l. }
  split.
  - destruct (f x) as [y|] eqn:Hx, (collect_results f l) as [ys|]; cbn; try done.
    intros [= <-].
    constructor; [done|]. by apply IH.
  - intros (y & ys & Hx & Hl & ->)%Forall2_cons_inv_l.
    rewrite Hx. cbn. by rewrite (proj2 (IH ys) Hl).
Qed.
End results.

Lemma map_err_Ok {E F A} (f : E → F) (r : result E A) a : map_err f r = Ok a ↔ r = Ok a.
Proof. destruct r; cbn; naive_solver. Qed.

Lemma map_err_Err {E F A} (f : E → F) (r : result E A) e :
  map_err f r = Err e ↔ ∃ e', r = Err e' ∧ f e' = e.
Proof. destruct r; cbn; naive_solver. Qed.

(** Decomposes every hypothesis that a [result] computation returned [Ok]
    into the successes of its steps. *)
Ltac inv_ok :=
  repeat match goal with
  | H : _ ≫= _ = Ok _ |- _ =>
      let a := fresh "a" in let Ha := fresh "Hok" in
      apply bind_Ok in H; destruct H as [a [Ha H]]
  | H : reject_if _ _ = Ok ?u |- _ => apply reject_if_Ok in H
  | H : ok_or _ _ = Ok _ |- _ => apply ok_or_Ok in H
  | H : map_err _ _ = Ok _ |- _ => apply map_err_Ok in H
  | H : Ok _ = Ok _ |- _ => injection H as H; try subst
  | H : Err _ = Ok _ |- _ => discriminate H
  | H : mret _ = Ok _ |- _ => injection H as H; try subst
  | u : () |- _ => destruct u
  end.

(** Runs the state monad one visible step at a time. *)
Ltac run_st :=
  cbv beta iota delta [mbind stM_bind mret stM_ret get_st put_st modify_st throw
    lift_result result_bind result_ret]; cbn beta iota.
Tactic Notation "run_st" "in" hyp(H) :=
  cbv beta iota delta [mbind stM_bind mret stM_ret get_st put_st modify_st throw
    lift_result result_bind result_ret] in H; cbn beta iota in H.

(** Splits boolean guards that are known. *)
Ltac inv_bool :=
  repeat match goal with
  | H : _ || _ = false |- _ => apply orb_false_iff in H; destruct H
  | H : _ && _ = true |- _ => apply andb_true_iff in H; destruct H
  | H : negb _ = false |- _ => apply negb_false_iff in H
  | H : negb _ = true |- _ => apply negb_true_iff in H
  | H : (_ <? _)%Z = true |- _ => apply Z.ltb_lt in H
  | H : (_ <? _)%Z = false |- _ => apply Z.ltb_ge in H
  | H : (_ <=? _)%Z = true |- _ => apply Z.leb_le in H
  | H : (_ <=? _)%Z = false |- _ => apply Z.leb_gt in H
  | H : (_ =? _)%Z = true |- _ => apply Z.eqb_eq in H
  | H : (_ =? _)%Z = false |- _ => apply Z.eqb_neq in H
  | H : String.eqb _ _ = true |- _ => apply String.eqb_eq in H
  | H : String.eqb _ _ = false |- _ => apply String.eqb_neq in H
  | H : bool_decide _ = true |- _ => apply bool_decide_eq_true in H
  | H : bool_decide _ = false |- _ => apply bool_decide_eq_false in H
  end.

(** ** Searching lists *)

Section searching.
Context {A : Type}.
Implicit Types (f : A → bool) (l : list A).

Lemma find_first_Some f l x :
  find_first f l = Some x → x ∈ l ∧ f x = true.
Proof.
  induction l as [|y l IH]; cbn; [done|].
  destruct (f y) eqn:Hy; [intros [= <-]; split; [by left|done]|].
  intros [? ?]%IH. split; [by right|done].
Qed.

Lemma find_first_None f l :
  find_first f l = None ↔ ∀ x, x ∈ l → f x = false.
Proof.
  induction l as [|y l IH]; cbn; [split; [|done]; by intros _ x ?%elem_of_nil|].
  setoid_rewrite elem_of_cons. destruct (f y) eqn:Hy.
  - split; [done|]. intros H. rewrite H in Hy; [done|by left].
  - rewrite IH. split; intros H x; [intros [->|?]|]; auto.
Qed.

Lemma find_first_is_Some f l :
  is_Some (find_first f l) ↔ ∃ x, x ∈ l ∧ f x = true.
Proof.
  split; [intros [x Hx%find_first_Some]; eauto|].
  intros (x & Hin & Hf). destruct (find_first f l) eqn:Hn; [by eexists|].
  rewrite find_first_None in Hn. specialize (Hn x Hin). congruence.
Qed.

Lemma existsb_true f l : existsb f l = true ↔ ∃ x, x ∈ l ∧ f x = true.
Proof. rewrite existsb_exists. by setoid_rewrite <- list_elem_of_In. Qed.

Lemma existsb_false f l : existsb f l = false ↔ ∀ x, x ∈ l → f x = false.
Proof.
  rewrite <- not_true_iff_false, existsb_true. split.
  - intros H x Hx. apply not_true_iff_false. naive_solver.
  - intros H (x & Hx & Ht). rewrite (H x Hx) in Ht. done.
Qed.

Lemma forallb_true f l : forallb f l = true ↔ ∀ x, x ∈ l → f x = true.
Proof. rewrite forallb_forall. by setoid_rewrite <- list_elem_of_In. Qed.

Lemma position_Some f l i :
  position f l = Some i →
  ∃ x, l !! i = Some x ∧ f x = true ∧
    (∀ j y, j < i → l !! j = Some y → f y = false).
Proof.
  revert i; induction l as [|y l IH]; intros i; cbn; [done|].
  destruct (f y) eqn:Hy.
  - intros [= <-]. exists y. repeat split; [done|lia].
  - destruct (position f l) as [j|]; [|done]. intros [= <-].
    destruct (IH j eq_refl) as (x & ? & ? & Hmin). exists x.
    split; [done|]. split; [done|]. intros [|k] z ?; cbn; [by intros [= <-]|].
    apply Hmin. lia.
Qed.

Lemma position_None f l : position f l = None ↔ ∀ x, x ∈ l → f x = false.
Proof.
  induction l as [|y l IH]; cbn; [split; [|done]; by intros _ x ?%elem_of_nil|].
  setoid_rewrite elem_of_cons. destruct (f y) eqn:Hy.
  { split; [done|]. intros H. rewrite H in Hy; [done|by left]. }
  rewrite fmap_None, IH. split; intros H x; [intros [->|?]|]; auto.
Qed.

Lemma elem_of_update_first f g l x :
  x ∈ update_first f g l → x ∈ l ∨ ∃ y, y ∈ l ∧ f y = true ∧ x = g y.
Proof.
  induction l as [|y l IH]; cbn; [by intros ?%elem_of_nil|].
  setoid_rewrite elem_of_cons. destruct (f y) eqn:Hy; (intros [->|H]%elem_of_cons; [|]).
  - right. exists y. auto.
  - auto.
  - auto.
  - destruct (IH H) as [?|(z & ? & ? & ?)]; [auto|]. right. exists z. auto.
Qed.

Lemma length_update_first f g l : length (update_first f g l) = length l.
Proof. induction l as [|y l IH]; cbn; [done|]. destruct (f y); cbn; lia. Qed.

(** A projection the update does not touch is unchanged. *)
Lemma map_update_first {B} (h : A → B) f g l :
  (∀ x, x ∈ l → f x = true → h (g x) = h x) →
  h <$> update_first f g l = h <$> l.
Proof.
  induction l as [|y l IH]; cbn; [done|]. intros Hg.
  destruct (f y) eqn:Hy; cbn.
  - f_equal. apply Hg; [by left|done].
  - f_equal. apply IH. intros x Hx. apply Hg. by right.
Qed.

Lemma any_indexed_false (h : nat → A → bool) i l :
  any_indexed h i l = false ↔ ∀ j x, l !! j = Some x → h (i + j) x = false.
Proof.
  revert i; induction l as [|y l IH]; intros i; cbn; [by split|].
  rewrite orb_false_iff, IH. split.
  - intros [H0 Hl] [|j] x; cbn; [intros [= <-]; by rewrite Nat.add_0_r|].
    intros Hj. replace (i + S j) with (S i + j) by lia. by apply Hl.
  - intros H. split; [specialize (H 0 y eq_refl); by rewrite Nat.add_0_r in H|].
    intros j x Hj. replace (S i + j) with (i + S j) by lia. by apply H.
Qed.

Lemma elem_of_remove_at i l x : x ∈ remove_at i l → x ∈ l.
Proof.
  revert i; induction l as [|y l IH]; intros [|i]; cbn; try done.
  - by right.
  - rewrite !elem_of_cons. intros [->|?]; eauto.
Qed.

Lemma remove_at_delete i l : remove_at i l = delete i l.
Proof.
  revert i; induction l as [|y l IH]; intros [|i]; cbn; try done.
  f_equal. apply IH.
Qed.
End searching.

(** ** String order *)

Lemma str_lt_compare a b : str_lt a b = true ↔ String.compare a b = Lt.
Proof. unfold str_lt, String.ltb. destruct (String.compare a b); naive_solver. Qed.

Lemma str_le_compare a b : str_le a b = true ↔ String.compare a b ≠ Gt.
Proof. unfold str_le, String.leb. destruct (String.compare a b); naive_solver. Qed.

Lemma str_le_String a b : str_le a b = true ↔ String.le a b.
Proof. unfold String.le, str_le. by rewrite Is_true_true. Qed.

Lemma str_compare_refl a : String.compare a a = Eq.
Proof.
  induction a as [|c a IH]; cbn; [done|].
  unfold Ascii.compare. by rewrite N.compare_refl.
Qed.

Lemma str_lt_le a b : str_lt a b = true ↔ str_le a b = true ∧ a ≠ b.
Proof.
  rewrite str_lt_compare, str_le_compare. split.
  - intros H. split; [congruence|]. intros ->. by rewrite str_compare_refl in H.
  - intros [H1 H2]. destruct (String.compare a b) eqn:E; try done.
    by apply String.compare_eq_iff in E.
Qed.

Lemma str_lt_irrefl a : str_lt a a = false.
Proof. apply not_true_iff_false. rewrite str_lt_le. naive_solver. Qed.

Lemma str_le_trans a b c : str_le a b = true → str_le b c = true → str_le a c = true.
Proof. rewrite !str_le_String. apply transitivity. Qed.

Lemma str_le_antisym a b : str_le a b = true → str_le b a = true → a = b.
Proof. rewrite !str_le_String. apply (anti_symm String.le). Qed.

Lemma str_le_total a b : str_le a b = true ∨ str_le b a = true.
Proof. apply (String.leb_total a b). Qed.

Lemma str_lt_trans a b c : str_lt a b = true → str_lt b c = true → str_lt a c = true.
Proof.
  rewrite !str_lt_le. intros [H1 N1] [H2 N2]. split; [by eapply str_le_trans|].
  intros ->. by apply N1, str_le_antisym.
Qed.

Definition str_lt_rel (a b : string) : Prop := str_lt a b = true.
Definition str_le_rel (a b : string) : Prop := str_le a b = true.

#[export] Instance str_lt_rel_trans : Transitive str_lt_rel.
Proof. intros ???. apply str_lt_trans. Qed.
#[export] Instance str_le_rel_trans : Transitive str_le_rel.
Proof. intros ???. apply str_le_trans. Qed.
#[export] Instance str_le_rel_antisymm : AntiSymm (=) str_le_rel.
Proof. intros ??. apply str_le_antisym. Qed.

Lemma strictly_sorted_strings_spec l :
  strictly_sorted_strings l = true ↔ StronglySorted str_lt_rel l.
Proof.
  transitivity (Sorted str_lt_rel l).
  2:{ split; [|apply StronglySorted_Sorted].
      apply Sorted.Sorted_StronglySorted. exact str_lt_rel_trans. }
  induction l as [|x l IH]; [by split; intros; constructor|].
  cbn [strictly_sorted_strings]. destruct l as [|y l].
  { split; [by intros; repeat constructor|done]. }
  rewrite andb_true_iff, IH. split.
  - intros [? ?]. constructor; [done|by constructor].
  - inversion 1 as [|?? ? Hd]; subst. inversion Hd; subst. done.
Qed.

Lemma StronglySorted_str_lt_NoDup l : StronglySorted str_lt_rel l → NoDup l.
Proof.
  induction 1 as [|x l ? IH Hall]; constructor; [|done].
  rewrite Forall_forall in Hall. intros Hin. specialize (Hall x Hin).
  unfold str_lt_rel in Hall. by rewrite str_lt_irrefl in Hall.
Qed.

(** ** Sorting *)

Lemma insert_by_perm {A} (le : A → A → bool) x l : insert_by le x l ≡ₚ x :: l.
Proof.
  induction l as [|y l IH]; cbn; [done|].
  destruct (le x y); [done|]. rewrite IH. constructor.
Qed.

Lemma sort_by_perm {A} (le : A → A → bool) l : sort_by le l ≡ₚ l.
Proof. induction l as [|x l IH]; cbn; [done|]. by rewrite insert_by_perm, IH. Qed.

(** Sorting is stable: equal elements keep their order, so a sorted list
    is left alone. *)
Lemma sort_by_id {A} (le : A → A → bool) l :
  StronglySorted (fun x y => le x y = true) l → sort_by le l = l.
Proof.
  induction 1 as [|x l Hs IH Hall]; cbn; [done|]. rewrite IH.
  destruct l as [|y l]; cbn; [done|]. inversion Hall as [|?? Hxy]; subst.
  by rewrite Hxy.
Qed.

Section sorting.
Context {A : Type} (le : A → A → bool).
Hypothesis le_trans : ∀ x y z, le x y = true → le y z = true → le x z = true.
Hypothesis le_total : ∀ x y, le x y = true ∨ le y x = true.

Lemma insert_by_sorted x l :
  StronglySorted (fun x y => le x y = true) l →
  StronglySorted (fun x y => le x y = true) (insert_by le x l).
Proof using le_trans le_total.
  induction 1 as [|y l Hs IH Hall]; cbn; [by repeat constructor|].
  destruct (le x y) eqn:Hxy.
  - constructor; [by constructor|]. constructor; [done|].
    eapply Forall_impl; [done|]. intros z Hyz. by eapply le_trans.
  - constructor; [done|]. rewrite insert_by_perm. constructor; [|done].
    destruct (le_total x y) as [H|H]; [congruence|done].
Qed.

Lemma sort_by_sorted l : StronglySorted (fun x y => le x y = true) (sort_by le l).
Proof using le_trans le_total.
  induction l; cbn; [constructor|by apply insert_by_sorted].
Qed.
End sorting.

Lemma length_sort_by {A} (le : A → A → bool) l : length (sort_by le l) = length l.
Proof. apply Permutation_length, sort_by_perm. Qed.

Lemma elem_of_sort_by {A} (le : A → A → bool) l x : x ∈ sort_by le l ↔ x ∈ l.
Proof. by rewrite sort_by_perm. Qed.

Lemma sort_strings_sorted l : StronglySorted str_le_rel (sort_strings l).
Proof.
  apply sort_by_sorted; [intros ???; apply str_le_trans|intros; apply str_le_total].
Qed.

Lemma sort_strings_id l : StronglySorted str_lt_rel l → sort_strings l = l.
Proof.
  intros H. apply sort_by_id. induction H as [|x l H IH Hall]; constructor; [done|].
  eapply Forall_impl; [done|]. by intros y [??]%str_lt_le.
Qed.

(** A sorted list without duplicates is strictly sorted. *)
Lemma sorted_NoDup_strict l :
  StronglySorted str_le_rel l → NoDup l → StronglySorted str_lt_rel l.
Proof.
  induction 1 as [|x l Hs IH Hall]; [constructor|].
  intros [Hni Hnd]%NoDup_cons. constructor; [by apply IH|].
  rewrite Forall_forall in *. intros y Hy. apply str_lt_le.
  split; [by apply Hall|]. by intros ->.
Qed.

Lemma sort_strings_strict l :
  strictly_sorted_strings (sort_strings l) = true ↔ NoDup l.
Proof.
  rewrite strictly_sorted_strings_spec. split.
  - intros H%StronglySorted_str_lt_NoDup. by rewrite <- (sort_by_perm str_le l).
  - intros H. apply sorted_NoDup_strict; [apply sort_strings_sorted|].
    unfold sort_strings. by rewrite sort_by_perm.
Qed.

Lemma StronglySorted_app_rel {A} (R : relation A) l1 l2 x y :
  StronglySorted R (l1 ++ l2) → x ∈ l1 → y ∈ l2 → R x y.
Proof.
  induction l1 as [|z l1 IH]; cbn; intros Hs Hx Hy; [by apply elem_of_nil in Hx|].
  inversion Hs as [|?? Hs' Hall]; subst. apply elem_of_cons in Hx as [->|Hx]; [|by apply IH].
  rewrite Forall_forall in Hall. apply Hall, elem_of_app. by right.
Qed.

(** ** Binary search *)

Lemma StronglySorted_lookup {A} (R : relation A) l i j x y :
  StronglySorted R l → i < j → l !! i = Some x → l !! j = Some y → R x y.
Proof.
  intros Hs; revert i j; induction Hs as [|z l Hs IH Hall]; intros [|i] [|j] ? Hx Hy;
    cbn in *; try (done || lia).
  - injection Hx as ->. rewrite Forall_forall in Hall. apply Hall.
    by eapply list_elem_of_lookup_2.
  - eapply (IH i j); [lia|done..].
Qed.

Lemma str_compare_lookup_le l target k mid x :
  StronglySorted str_lt_rel l → l !! k = Some target → l !! mid = Some x →
  match String.compare x target with Gt => k < mid | _ => mid ≤ k end.
Proof.
  intros Hs Hk Hm. destruct (Nat.lt_trichotomy mid k) as [Hlt|[->|Hgt]].
  - pose proof (StronglySorted_lookup _ _ _ _ _ _ Hs Hlt Hm Hk) as H.
    apply str_lt_compare in H. rewrite H. lia.
  - rewrite Hk in Hm. injection Hm as ->. by rewrite str_compare_refl.
  - pose proof (StronglySorted_lookup _ _ _ _ _ _ Hs Hgt Hk Hm) as H.
    destruct (String.compare x target) eqn:E; [|..|done].
    + apply String.compare_eq_iff in E as ->. unfold str_lt_rel in H.
      by rewrite str_lt_irrefl in H.
    + apply str_lt_compare in E. pose proof (str_lt_trans _ _ _ E H) as H'.
      by rewrite str_lt_irrefl in H'.
Qed.

Lemma bsearch_loop_found l target k fuel base size :
  StronglySorted str_lt_rel l → l !! k = Some target →
  1 ≤ size → size ≤ fuel → base + size ≤ length l → base ≤ k < base + size →
  bsearch_loop (fun x => String.compare x target) l fuel base size = k.
Proof.
  intros Hs Hk. revert base size; induction fuel as [|fuel IH]; intros base size ????; [lia|].
  cbn [bsearch_loop]. destruct (Nat.leb_spec size 1); [lia|].
  assert (1 ≤ size / 2) by (apply Nat.div_le_lower_bound; lia).
  assert (size / 2 * 2 ≤ size) by (pose proof (Nat.div_mod_eq size 2); lia).
  set (half := size / 2) in *.
  destruct (lookup_lt_is_Some_2 l (base + half)) as [x Hx]; [lia|].
  rewrite Hx. cbn [fmap option_fmap option_map].
  pose proof (str_compare_lookup_le _ _ _ _ _ Hs Hk Hx) as Hcmp.
  destruct (String.compare x target); apply IH; lia.
Qed.

(** The standard library's halving loop decides membership in a strictly
    sorted slice. *)
Lemma binary_search_spec l target :
  StronglySorted str_lt_rel l → binary_search target l = true ↔ target ∈ l.
Proof.
  intros Hs. unfold binary_search, binary_search_by. destruct l as [|y l'] eqn:El.
  { split; [done|]. by intros []%elem_of_nil. }
  rewrite <- El in *. clear El. set (cmp := fun x => String.compare x target). split.
  - destruct (l !! bsearch_loop cmp l (length l) 0 (length l)) as [x|] eqn:Hx; [|done].
    cbn. destruct (cmp x) eqn:E; try done. intros _.
    apply String.compare_eq_iff in E as <-. by eapply list_elem_of_lookup_2.
  - intros [k Hk]%list_elem_of_lookup. pose proof (lookup_lt_Some _ _ _ Hk).
    unfold cmp. rewrite (bsearch_loop_found l target k); try lia; [|done..].
    rewrite Hk. cbn. by rewrite str_compare_refl.
Qed.

(** Looking up by a unique string key finds the one entry that has it. *)
Lemma find_first_key {A} (key : A → string) l k x :
  NoDup (key <$> l) →
  find_first (fun y => String.eqb (key y) k) l = Some x ↔ x ∈ l ∧ key x = k.
Proof.
  induction l as [|y l IH]; cbn; [by split; [|intros [[]%elem_of_nil _]]|].
  intros [Hni Hnd]%NoDup_cons. specialize (IH Hnd). rewrite elem_of_cons.
  destruct (String.eqb_spec (key y) k) as [<-|Hne].
  - split; [by intros [= ->]; auto|]. intros [[->|Hx] Hk]; [done|].
    exfalso. apply Hni. rewrite <- Hk. by apply list_elem_of_fmap_2.
  - rewrite IH. naive_solver.
Qed.

(** ** Keyed vectors as finite maps *)

(** A vector of records with unique identifiers, seen as a finite map: the
    vector operations of the sources are the map operations. *)
Section keyed.
Context {A : Type} (key : A → string).
Implicit Types (l : list A) (k : string).

Definition to_map (l : list A) : gmap string A :=
  list_to_map ((fun x => (key x, x)) <$> l).
#[local] Arguments to_map : simpl never.

Lemma to_map_keys l : ((fun x => (key x, x)) <$> l).*1 = key <$> l.
Proof. rewrite <- list_fmap_compose. by apply list_fmap_ext. Qed.

Lemma to_map_Some l k x :
  NoDup (key <$> l) → to_map l !! k = Some x ↔ x ∈ l ∧ key x = k.
Proof.
  intros Hn. unfold to_map. rewrite <- elem_of_list_to_map by by rewrite to_map_keys.
  rewrite list_elem_of_fmap. split.
  - by intros (y & [= -> ->] & ?).
  - intros [? <-]. by exists x.
Qed.

Lemma to_map_None l k : to_map l !! k = None ↔ k ∉ key <$> l.
Proof. unfold to_map. by rewrite <- not_elem_of_list_to_map, to_map_keys. Qed.

Lemma find_first_to_map l k :
  NoDup (key <$> l) → find_first (fun x => String.eqb (key x) k) l = to_map l !! k.
Proof.
  intros Hn. apply option_eq. intros x.
  by rewrite find_first_key, to_map_Some.
Qed.

Lemma to_map_perm l l' : NoDup (key <$> l) → l ≡ₚ l' → to_map l = to_map l'.
Proof.
  intros Hn Hp. unfold to_map. apply list_to_map_proper; [by rewrite to_map_keys|].
  by rewrite Hp.
Qed.

Lemma to_map_cons x l : to_map (x :: l) = <[key x := x]> (to_map l).
Proof. done. Qed.

Lemma to_map_snoc_sorted le x l :
  NoDup (key <$> l) → key x ∉ key <$> l →
  to_map (sort_by le (l ++ [x])) = <[key x := x]> (to_map l).
Proof.
  intros Hn Hx. rewrite <- to_map_cons. symmetry. apply to_map_perm.
  - by constructor.
  - rewrite sort_by_perm. apply Permutation_cons_append.
Qed.

Lemma to_map_alter g i l k :
  NoDup (key <$> l) → (∀ x, key (g x) = key x) →
  position (fun x => String.eqb (key x) k) l = Some i →
  to_map (alter g i l) = alter g k (to_map l).
Proof.
  intros Hn Hg. revert i; induction l as [|x l IH]; intros i; cbn; [done|].
  apply NoDup_cons in Hn as [Hni Hn].
  destruct (String.eqb_spec (key x) k) as [<-|Hne].
  - intros [= <-]. cbn. rewrite !to_map_cons, Hg. by rewrite alter_insert_eq.
  - destruct (position _ l) as [j|]; [|done]. intros [= <-].
    cbn. rewrite !to_map_cons, alter_insert_ne by done. by rewrite IH.
Qed.

Lemma to_map_update_first g l k :
  NoDup (key <$> l) → (∀ x, key (g x) = key x) →
  to_map (update_first (fun x => String.eqb (key x) k) g l) = alter g k (to_map l).
Proof.
  intros Hn Hg. induction l as [|x l IH]; cbn.
  { apply map_eq. intros j. rewrite lookup_alter.
    case_decide; by rewrite ?lookup_empty. }
  apply NoDup_cons in Hn as [Hni Hn].
  destruct (String.eqb_spec (key x) k) as [<-|Hne]; cbn.
  - rewrite !to_map_cons, Hg. by rewrite alter_insert_eq.
  - rewrite !to_map_cons, alter_insert_ne by done. by rewrite IH.
Qed.

Lemma to_map_remove_at i l k :
  NoDup (key <$> l) → position (fun x => String.eqb (key x) k) l = Some i →
  to_map (remove_at i l) = delete k (to_map l).
Proof.
  intros Hn. revert i; induction l as [|x l IH]; intros i; cbn; [done|].
  apply NoDup_cons in Hn as [Hni Hn].
  destruct (String.eqb_spec (key x) k) as [<-|Hne].
  - intros [= <-]. cbn. rewrite to_map_cons, delete_insert_id; [done|]. by apply to_map_None.
  - destruct (position _ l) as [j|]; [|done]. intros [= <-].
    cbn. rewrite !to_map_cons, delete_insert_ne by done. by rewrite IH.
Qed.
End keyed.
Arguments to_map {_} _ _ : simpl never.

(** ** Loops that reject duplicates *)

(** The body of a loop that checks an element, rejects one already in its
    [BTreeSet] and inserts it. *)
Definition insert_body_spec {E} (body : gset string → string → result E (gset string))
    (ok : string → Prop) : Prop :=
  ∀ seen x seen', body seen x = Ok seen' ↔ ok x ∧ x ∉ seen ∧ seen' = ({[x]} ∪ seen).

Section insert_loop.
Context {E : Type} (body : gset string → string → result E (gset string)).
Context (ok : string → Prop).
Hypothesis body_Ok : insert_body_spec body ok.

Lemma insert_loop_Ok l seen seen' :
  fold_result body seen l = Ok seen' ↔
  Forall ok l ∧ NoDup l ∧ (∀ x, x ∈ l → x ∉ seen) ∧ seen' = (list_to_set l ∪ seen).
Proof using body_Ok.
  revert seen; induction l as [|x l IH]; intros seen; cbn [fold_result].
  { split.
    - intros [= <-]. repeat split; [constructor|constructor|set_solver|set_solver].
    - intros (_ & _ & _ & ->). f_equal. set_solver. }
  rewrite bind_Ok. unfold insert_body_spec in body_Ok.
  setoid_rewrite body_Ok. setoid_rewrite IH. clear IH.
  rewrite Forall_cons, NoDup_cons. split.
  - intros (? & (? & ? & ->) & ? & ? & Hs & ->).
    repeat split; try done; [| |set_solver].
    + intros Hx. specialize (Hs x Hx). set_solver.
    + intros y Hy. set_solver.
  - intros ([? ?] & [Hx ?] & Hs & ->). exists ({[x]} ∪ seen).
    repeat split; try done; [| |set_solver].
    + apply Hs. by left.
    + intros y Hy. specialize (Hs y (list_elem_of_further _ _ _ Hy)). set_solver.
Qed.

Lemma insert_loop_intro l seen :
  Forall ok l → NoDup l → (∀ x, x ∈ l → x ∉ seen) →
  fold_result body seen l = Ok (list_to_set l ∪ seen).
Proof using body_Ok. intros. by apply insert_loop_Ok. Qed.
End insert_loop.

(** Comparing every element with the ones before it decides [NoDup]. *)
Lemma NoDup_fmap_prefix {A B} (g : A → B) (clash : A → A → bool) l :
  (∀ x y, x ∈ l → y ∈ l → clash y x = true ↔ g y = g x) →
  (∀ l1 x l2, l = l1 ++ x :: l2 → existsb (fun y => clash y x) l1 = false) ↔
  NoDup (g <$> l).
Proof.
  induction l as [|x l IH] using rev_ind; intros Hc.
  { split; [constructor|]. intros _ [|??] ?? [=]. }
  rewrite fmap_app, NoDup_app. cbn. rewrite <- IH by set_solver. split.
  - intros H. split; [|split; [|apply NoDup_singleton]].
    + intros l1 y l2 ->. apply (H l1 y (l2 ++ [x])). by rewrite <- app_assoc.
    + intros b (y & -> & Hy)%list_elem_of_fmap Hb%list_elem_of_singleton.
      apply (Hc x y) in Hb; [|set_solver..].
      pose proof (proj1 (existsb_false _ _) (H l x [] eq_refl) y Hy) as Hf. cbn in Hf. congruence.
  - intros (H & Hd & _) l1 y l2 Hl.
    destruct l2 as [|z l2 _] using rev_ind.
    + apply app_inj_tail in Hl as [-> ->]. destruct (existsb _ _) eqn:He; [|done].
      apply existsb_true in He as (z & Hz & Hzy).
      apply Hc in Hzy; [|set_solver..]. exfalso. apply (Hd (g z)).
      * by apply list_elem_of_fmap_2.
      * rewrite Hzy. by left.
    + rewrite app_comm_cons, app_assoc in Hl. apply app_inj_tail in Hl as [-> ->].
      by eapply H.
Qed.

(** ** Validators as conjunctions *)

Lemma bind_unit_Ok {E B} (m : result E ()) (k : () → result E B) b :
  m ≫= k = Ok b ↔ m = Ok () ∧ k () = Ok b.
Proof. rewrite bind_Ok. split; [by intros ([] & ? & ?)|]. intros [??]. by exists (). Qed.

Lemma for_each_prev_lookup {E A} (body : list A → A → result E ()) l :
  for_each_prev body [] l = Ok () ↔ ∀ i x, l !! i = Some x → body (take i l) x = Ok ().
Proof.
  rewrite for_each_prev_Ok. cbn. split.
  - intros H i x Hi. apply (H _ x (drop (S i) l)). by rewrite take_drop_middle.
  - intros H l1 x l2 ->. specialize (H (length l1) x).
    rewrite take_app_length in H. apply H. by rewrite list_lookup_middle.
Qed.

Lemma existsb_take_NoDup {A B} (g : A → B) (clash : A → A → bool) l :
  (∀ x y, x ∈ l → y ∈ l → clash y x = true ↔ g y = g x) →
  (∀ i x, l !! i = Some x → existsb (fun y => clash y x) (take i l) = false) ↔ NoDup (g <$> l).
Proof.
  intros Hc. rewrite <- (NoDup_fmap_prefix g clash l Hc). split.
  - intros H l1 x l2 ->. specialize (H (length l1) x).
    rewrite take_app_length in H. apply H. by rewrite list_lookup_middle.
  - intros H i x Hi. apply (H _ x (drop (S i) l)). by rewrite take_drop_middle.
Qed.

(** Flattened lists without duplicates, one element at a time. *)
Lemma NoDup_mbind_lookup {A B} (f : A → list B) l :
  (∀ i x, l !! i = Some x →
     NoDup (f x) ∧ ∀ b y, b ∈ f x → y ∈ take i l → b ∉ f y) ↔
  NoDup (l ≫= f).
Proof.
  induction l as [|x l IH] using rev_ind; [split; [constructor|by intros _ ? ? [=]]|].
  rewrite bind_app, NoDup_app, <- IH. cbn. rewrite app_nil_r. split.
  - intros H. split; [|split].
    + intros i y Hi. pose proof (lookup_lt_Some _ _ _ Hi).
      specialize (H i y). rewrite lookup_app_l, take_app_le in H by lia. auto.
    + intros b (y & Hb & Hy)%list_elem_of_bind Hbx.
      destruct (H (length l) x) as [_ Hx]; [by rewrite list_lookup_middle|].
      rewrite take_app_length in Hx. by eapply Hx.
    + apply (H (length l) x). by rewrite list_lookup_middle.
  - intros (Hl & Hd & Hx) i y [Hi|[Hlen Hi]]%lookup_app_Some.
    + pose proof (lookup_lt_Some _ _ _ Hi). rewrite take_app_le by lia. by apply Hl.
    + apply list_lookup_singleton_Some in Hi as [Hi <-].
      rewrite take_app_length' by lia. split; [done|]. intros b z Hb Hz Hbz.
      apply (Hd b); [|done]. apply list_elem_of_bind. eauto.
Qed.

Lemma negb_bool_decide_false (P : Prop) `{Decision P} :
  negb (bool_decide P) = false ↔ P.
Proof. rewrite negb_false_iff. apply bool_decide_eq_true. Qed.
Lemma negb_eqb_false a b : negb (String.eqb a b) = false ↔ a = b.
Proof. rewrite negb_false_iff. apply String.eqb_eq. Qed.
Lemma negb_Zeqb_false a b : negb (a =? b)%Z = false ↔ a = b.
Proof. rewrite negb_false_iff. apply Z.eqb_eq. Qed.
(** The element before the current one, when there is one. *)
Definition previous {A} (f : A → bool) (prev : list A) : bool :=
  match last prev with Some p => f p | None => false end.

(** ** Loops that look at the previous element *)

Lemma adjacent_Ok {A E} (check : A → result E ()) (R : A → A → bool) (e : E) prev l :
  for_each_prev (fun prev x => _ ← check x; reject_if (previous (fun p => R p x) prev) e) prev l
  = Ok () ↔
  Forall (fun x => check x = Ok ()) l ∧
  Sorted (fun p x => R p x = false) (option_list (last prev) ++ l).
Proof.
  revert prev; induction l as [|x l IH]; intros prev; cbn.
  - rewrite app_nil_r. split; [intros _|done]. split; [done|]. destruct (last prev); repeat constructor.
  - rewrite bind_unit_Ok, bind_unit_Ok, IH, reject_if_Ok, last_snoc, Forall_cons. cbn.
    assert (Sorted (fun p x => R p x = false) (option_list (last prev) ++ x :: l) ↔
      previous (fun p => R p x) prev = false ∧ Sorted (fun p x => R p x = false) (x :: l)) as ->.
    { unfold previous. destruct (last prev) as [p|]; cbn; [|naive_solver]. split.
      - intros H. apply Sorted_inv in H as [? Hp]. apply HdRel_inv in Hp. done.
      - intros [? ?]. constructor; [done|by constructor]. }
    naive_solver.
Qed.

Lemma for_each_prev_same {A E} (body : list A → A → result E ()) (e : E) prev l :
  (∀ prev x, body prev x = Ok () ∨ body prev x = Err e) →
  for_each_prev body prev l = Ok () ∨ for_each_prev body prev l = Err e.
Proof.
  intros Hb. revert prev; induction l as [|x l IH]; intros prev; cbn; [by left|].
  destruct (Hb prev x) as [-> | ->]; cbn; [apply IH|by right].
Qed.

(** ** Runs of [stM] *)

Lemma stM_bind_Ok {S E A B} (m : stM S E A) (k : A → stM S E B) s b s' :
  (m ≫= k) s = (Ok b, s') ↔ ∃ a s1, m s = (Ok a, s1) ∧ k a s1 = (Ok b, s').
Proof.
  run_st. destruct (m s) as [[a|e] s1].
  - split; [naive_solver|]. by intros (? & ? & [= -> ->] & ?).
  - split; [done|]. by intros (? & ? & ? & ?).
Qed.
Lemma stM_bind_inv {S E A B} (m : stM S E A) (k : A → stM S E B) s r s' :
  (m ≫= k) s = (r, s') →
  (∃ a s1, m s = (Ok a, s1) ∧ k a s1 = (r, s')) ∨ (∃ e, m s = (Err e, s') ∧ r = Err e).
Proof.
  run_st. destruct (m s) as [[a|e] s1]; [by left; eauto|]. intros [= <- <-]. right. eauto.
Qed.

(** ** A program logic for [stM] *)

(** From a state with [P], the computation returns a value and a state with
    [Q], or fails in a state with [R]. *)
Definition triple {S E A} (P : S → Prop) (m : stM S E A) (Q : A → S → Prop) (R : S → Prop) : Prop :=
  ∀ s, P s → match m s with (Ok a, s') => Q a s' | (Err _, s') => R s' end.

Section triples.
Context {S E : Type}.
Implicit Types (P R : S → Prop).

Lemma triple_bind {A B} P (m : stM S E A) (k : A → stM S E B) M Q R :
  triple P m M R → (∀ a, triple (M a) (k a) Q R) → triple P (m ≫= k) Q R.
Proof.
  intros Hm Hk s Hs. specialize (Hm s Hs). unfold mbind, stM_bind.
  destruct (m s) as [[a|e] s']; [by apply (Hk a)|done].
Qed.

Lemma triple_ret {A} P (a : A) Q R : (∀ s, P s → Q a s) → triple P (mret a : stM S E A) Q R.
Proof. intros H s Hs. by apply H. Qed.

Lemma triple_throw {A} P (e : E) (Q : A → S → Prop) R :
  (∀ s, P s → R s) → triple P (throw e) Q R.
Proof. intros H s Hs. by apply H. Qed.

Lemma triple_get P (Q : S → S → Prop) R : (∀ s, P s → Q s s) → triple P (get_st : stM S E S) Q R.
Proof. intros H s Hs. by apply H. Qed.

Lemma triple_modify P (f : S → S) (Q : () → S → Prop) R :
  (∀ s, P s → Q () (f s)) → triple P (modify_st f : stM S E ()) Q R.
Proof. intros H s Hs. by apply H. Qed.

Lemma triple_conseq {A} P P' (m : stM S E A) Q Q' R :
  triple P' m Q' R → (∀ s, P s → P' s) → (∀ a s, Q' a s → Q a s) → triple P m Q R.
Proof.
  intros H HP HQ s Hs. specialize (H s (HP s Hs)). destruct (m s) as [[a|e] s']; auto.
Qed.

Lemma triple_pre {A} P P' (m : stM S E A) Q R :
  triple P' m Q R → (∀ s, P s → P' s) → triple P m Q R.
Proof. intros H HP. by eapply triple_conseq. Qed.

Lemma triple_exists {A X} (P : X → S → Prop) (m : stM S E A) Q R :
  (∀ x, triple (P x) m Q R) → triple (fun s => ∃ x, P x s) m Q R.
Proof. intros H s [x Hx]. by apply (H x). Qed.

Lemma triple_pure {A} (F : Prop) P (m : stM S E A) Q R :
  (F → triple P m Q R) → triple (fun s => F ∧ P s) m Q R.
Proof. intros H s [HF Hs]. by apply H. Qed.

Lemma triple_run {A} P (m : stM S E A) Q R s a s' :
  triple P m Q R → P s → m s = (Ok a, s') → Q a s'.
Proof. intros H Hs E'. specialize (H s Hs). by rewrite E' in H. Qed.
End triples.

#[export] Hint Resolve str_lt_trans str_le_trans str_le_antisym sort_strings_sorted
  StronglySorted_str_lt_NoDup : calcifer.
#[export] Hint Rewrite @bind_Ok @reject_if_Ok @ok_or_Ok @map_err_Ok @for_each_Ok
  @length_update_first @length_sort_by : calcifer_rw.
