(* ===== verification/Interfaces.v ===== *)
(** * What the code uses of crates outside the repository

    The [uuid] crate, [serde_json] and the private key of provider identities
    are not part of the sources: what the sources use of them is a class here,
    and every definition that calls them takes the instance as an argument.
    The instances at the end are concrete functions that satisfy the laws;
    the witnesses of the development run on them. *)
From Stdlib Require Import Ascii.
From stdpp Require Import countable.
From S2P Require Import Prelude.

(** File contents and wire payloads: a byte is a [Z] below [256]. *)
Definition bytes : Type := list Z.

(** [uuid::Uuid::parse_str] and [Uuid::to_string]. *)
Class UuidCrate := {
  uuid : Type;
  parse_str : string → option uuid;
  uuid_to_string : uuid → string;
}.

(** The serialiser ([serde_json::to_vec] or [to_vec_pretty], whichever the
    store calls) and [serde_json::from_slice] at one document type with derived
    (de)serialisers. *)
Class JsonCodec (D : Type) := {
  to_vec : D → option bytes;
  from_slice : bytes → option D;
}.

(** Derived serialisers read back what they wrote, for values whose integers
    are within the machine width of their fields, and derived deserialisers
    only return such values. *)
Class JsonRoundTrip (D : Type) `{JsonCodec D} (in_range : D → Prop) : Prop := {
  from_slice_to_vec d b :
    in_range d → to_vec d = Some b → from_slice b = Some d;
  from_slice_in_range b d : from_slice b = Some d → in_range d;
}.

(** ** Concrete instances *)

Module UuidHyphenated.
(** The hyphenated form, in either case; printing is lower case. *)
Definition is_hex (c : ascii) : bool :=
  is_ascii_lower_hex c || byte_in 65 70 c.
Definition lower (c : ascii) : ascii :=
  if byte_in 65 70 c then ascii_of_nat (nat_of_ascii c + 32) else c.
Fixpoint shape (i : nat) (l : list ascii) : bool :=
  match l with
  | [] => Nat.eqb i 36
  | c :: l =>
      (if existsb (Nat.eqb i) [8; 13; 18; 23] then Ascii.eqb c "-" else is_hex c)
      && shape (S i) l
  end.
Definition parse (s : string) : option (list ascii) :=
  if shape 0 (str_bytes s) then Some (map lower (str_bytes s)) else None.
End UuidHyphenated.

Definition uuid_hyphenated : UuidCrate := {|
  uuid := list ascii;
  parse_str := UuidHyphenated.parse;
  uuid_to_string := String.string_of_list_ascii;
|}.

(** A codec for any countable document type: the binary digits of the code of
    the document, least significant first, one byte per digit. *)
Module CountableCodec.
Fixpoint digits (p : positive) : bytes :=
  match p with
  | xH => []
  | xO p => 0%Z :: digits p
  | xI p => 1%Z :: digits p
  end.
Fixpoint number (b : bytes) : positive :=
  match b with
  | [] => xH
  | d :: b => if Z.eqb d 0 then xO (number b) else xI (number b)
  end.

Lemma number_digits p : number (digits p) = p.
Proof. induction p as [p IH|p IH|]; cbn; by rewrite ?IH. Qed.
End CountableCodec.

Definition countable_codec {D} `{Countable D} (in_range : D → Prop)
    `{∀ d, Decision (in_range d)} : JsonCodec D := {|
  to_vec d := Some (CountableCodec.digits (encode d));
  from_slice b :=
    match decode (CountableCodec.number b) with
    | Some d => if decide (in_range d) then Some d else None
    | None => None
    end;
|}.

Lemma countable_codec_round_trip {D} `{Countable D} (in_range : D → Prop)
    `{∀ d, Decision (in_range d)} :
  @JsonRoundTrip D (countable_codec in_range) in_range.
Proof.
  split; cbn [from_slice to_vec countable_codec].
  - intros d b Hd [= <-]. rewrite CountableCodec.number_digits, decode_encode.
    by rewrite decide_True.
  - intros b d. destruct (decode _) as [x|]; [|done]. by destruct (decide _) as [?|?]; intros [= <-].
Qed.
