(* ===== verification/Profiles.v ===== *)
(** * Provider profiles (src/profiles.rs)

    The identity of a managed profile and the validators that the routing,
    usage and conversation components share. The profile registry on disk is
    in [ProfileRegistry]. *)
From Stdlib Require Import Ascii.
From stdpp Require Import countable.
From S2P Require Import Prelude Interfaces.

Open Scope Z_scope.

Inductive Provider := Claude | Codex.

#[export] Instance Provider_eq_dec : EqDecision Provider.
Proof. solve_decision. Defined.

#[export] Program Instance Provider_countable : Countable Provider :=
  inj_countable' (fun p => bool_decide (p = Claude)) (fun b => if b then Claude else Codex) _.
Next Obligation. by intros []. Qed.

Definition provider_eqb (a b : Provider) : bool := bool_decide (a = b).

Definition provider_as_str (p : Provider) : string :=
  match p with Claude => "claude" | Codex => "codex" end.

Record Profile := mkProfile {
  profile_id : string;
  profile_alias : string;
  profile_provider : Provider;
  profile_created_at : Z;
}.

#[export] Instance Profile_eq_dec : EqDecision Profile.
Proof. solve_decision. Defined.

(** [format!("{}@{}", provider, alias)]. *)
Definition reference (p : Profile) : string :=
  provider_as_str (profile_provider p) +:+ "@" +:+ profile_alias p.

(** [HandoffReason] of src/conversations.rs, which the selection, the journal
    and the handoff driver share. *)
Inductive HandoffReason := ConfirmedUsageExhaustion | ExplicitRecovery | UnknownLegacy.

#[export] Instance HandoffReason_eq_dec : EqDecision HandoffReason.
Proof. solve_decision. Defined.

(** [IdentityError] of src/provider_identity.rs; its [io::Error] payload is a
    diagnostic. *)
Inductive IdentityError :=
| IE_Unverified | IE_Unsupported | IE_Invalid | IE_Mismatch | IE_KeyUnavailable
| IE_CommitUncertain | IE_Io.

#[export] Instance IdentityError_eq_dec : EqDecision IdentityError.
Proof. solve_decision. Defined.

(** [ProfileError]; payloads other than an identity error are diagnostics. *)
Inductive ProfileError :=
| PE_AlreadyExists | PE_Busy | PE_DuplicateProviderIdentity
| PE_Identity (e : IdentityError) | PE_Claude
| PE_InvalidAlias | PE_InvalidRegistry | PE_Io | PE_MissingDataRoot | PE_NotFound
| PE_RegistrationRecoveryRequired | PE_ReauthCommitUncertain | PE_ReauthRecoveryRequired
| PE_RemovalCommitUncertain | PE_RemovalRecoveryRequired | PE_RegistryCommitUncertain
| PE_UnsupportedPlatform | PE_UnsafeState.

#[export] Instance ProfileError_eq_dec : EqDecision ProfileError.
Proof. solve_decision. Defined.

Definition alias_byte (c : ascii) : bool := is_ascii_alphanumeric c || is_name_punct c.

Definition validate_alias (alias : string) : result ProfileError () :=
  let bytes := str_bytes alias in
  let starts_valid := match bytes with [] => false | c :: _ => is_ascii_alphanumeric c end in
  let all_valid := forallb alias_byte bytes in
  reject_if ((len bytes =? 0) || (64 <? len bytes) || negb starts_valid || negb all_valid)
    PE_InvalidAlias.

Record RegistryDocument := mkRegistryDocument {
  registry_schema_version : Z;
  registry_profiles : list Profile;
}.

Definition REGISTRY_SCHEMA_VERSION : Z := 1.

Section registry.
Context {UC : UuidCrate}.

Definition validate_profile_id (id : string) : result ProfileError () :=
  parsed ← ok_or (parse_str id) PE_InvalidRegistry;
  reject_if (negb (String.eqb (uuid_to_string parsed) id)) PE_InvalidRegistry.

Definition same_registration (previous profile : Profile) : bool :=
  String.eqb (profile_id previous) (profile_id profile)
  || (provider_eqb (profile_provider previous) (profile_provider profile)
      && String.eqb (profile_alias previous) (profile_alias profile)).

Definition validate_document (document : RegistryDocument) : result ProfileError () :=
  _ ← reject_if (negb (registry_schema_version document =? REGISTRY_SCHEMA_VERSION))
        PE_InvalidRegistry;
  for_each_prev (fun previous profile =>
    _ ← validate_profile_id (profile_id profile);
    _ ← map_err (fun _ => PE_InvalidRegistry) (validate_alias (profile_alias profile));
    reject_if (existsb (fun p => same_registration p profile) previous) PE_InvalidRegistry)
    [] (registry_profiles document).
End registry.

(** ** Lemmas *)

Lemma provider_eqb_true a b : provider_eqb a b = true ↔ a = b.
Proof. apply bool_decide_eq_true. Qed.
Lemma provider_eqb_false a b : provider_eqb a b = false ↔ a ≠ b.
Proof. apply bool_decide_eq_false. Qed.

Section profiles.
Context {UC : UuidCrate}.

(** A stored registry has unique identifiers and unique references. *)
Lemma validate_document_unique document :
  validate_document document = Ok () →
  NoDup (profile_id <$> registry_profiles document) ∧
  NoDup ((fun p => (profile_provider p, profile_alias p)) <$> registry_profiles document).
Proof.
  unfold validate_document. intros H. inv_ok. rewrite for_each_prev_Ok in H.
  assert (Hpair : ∀ l1 x l2, registry_profiles document = l1 ++ x :: l2 →
            existsb (fun p => same_registration p x) l1 = false).
  { intros l1 x l2 Hl. specialize (H _ _ _ Hl). by inv_ok. }
  assert (Hgen : ∀ B (g : Profile → B) (_ : EqDecision B),
    (∀ y x, g y = g x → same_registration y x = true) →
    NoDup (g <$> registry_profiles document)).
  { intros B g ? Hg.
    apply (NoDup_fmap_prefix g (fun y x => bool_decide (g y = g x)));
      [by intros; apply bool_decide_eq_true|].
    intros l1 x l2 Hl. apply existsb_false. intros y Hy. apply bool_decide_eq_false.
    intros Heq. pose proof (proj1 (existsb_false _ _) (Hpair _ _ _ Hl) y Hy) as Hs.
    cbn in Hs. rewrite Hg in Hs; done. }
  split; apply (Hgen _ _ _); intros y x Heq; unfold same_registration.
  - by rewrite Heq, String.eqb_refl.
  - injection Heq as -> ->. rewrite String.eqb_refl, andb_true_r.
    apply orb_true_iff. right. by apply provider_eqb_true.
Qed.
End profiles.
