(* ===== verification/Storage.v ===== *)
(** * Private durable files

    The three registries of the program (routing definitions, usage
    observations, conversations) store one document each: take a lock, read
    the file, and publish a new version through a temporary file, a sync and a
    rename. This file models the directory such a store works on, with a
    fault for every system call it makes; the stores themselves are in
    [RoutingStore] and [UsageCache]; the
    conversation registry has a directory of its own in [ConversationStore].

    A failed call has no effect on the directory, except where the code itself
    has to deal with the effect: a file that was renamed into place before the
    directory could be synced stays visible. *)
From S2P Require Import Prelude Interfaces Profiles.

Open Scope Z_scope.

(** The system calls and private-storage helpers the stores use, in order. *)
Inductive IoStep :=
| EnsureSupported
| StatRoot | CreateRoot | VerifyRoot
| StatLock | OpenLock | SyncLock | SyncRootForLock | LockExclusive
| StatFile | OpenFile | ReadFile
| CreateTemp | WriteTemp | SyncTemp | VerifyTemp | RenameTemp
| SyncRoot | RemoveTemp.

(** Which steps fail, and with which error. *)
Definition Faults : Type := IoStep → option ProfileError.
Definition no_faults : Faults := fun _ => None.

Record Disk := mkDisk {
  root_exists : bool;
  lock_exists : bool;
  published : option bytes;
  temporary : option bytes;
}.

Definition set_published (b : option bytes) (d : Disk) : Disk :=
  mkDisk (root_exists d) (lock_exists d) b (temporary d).
Definition set_temporary (b : option bytes) (d : Disk) : Disk :=
  mkDisk (root_exists d) (lock_exists d) (published d) b.
Definition set_root (d : Disk) : Disk :=
  mkDisk true (lock_exists d) (published d) (temporary d).
Definition set_lock (d : Disk) : Disk :=
  mkDisk (root_exists d) true (published d) (temporary d).
(** [fs::rename(&temporary, &destination)]. *)
Definition rename_temporary (d : Disk) : Disk :=
  mkDisk (root_exists d) (lock_exists d) (temporary d) None.

(** [take((MAX + 1) as u64).read_to_end]. *)
Definition read_limited (max : Z) (b : bytes) : bytes := take (Z.to_nat (max + 1)) b.

Section store.
Context {E : Type} (unavailable : E) (storage_error : ProfileError → E).
Context (faults : Faults).

(** A call whose [io::Error] is mapped to "storage unavailable". *)
Definition io (s : IoStep) : stM Disk E () :=
  match faults s with Some _ => throw unavailable | None => mret () end.

(** A private-storage helper whose [ProfileError] is mapped by
    [storage_error]. *)
Definition private (s : IoStep) : stM Disk E () :=
  match faults s with Some e => throw (storage_error e) | None => mret () end.

(** [open_lock]: a lock file created here is made durable first. *)
Definition open_lock : stM Disk E () :=
  _ ← io StatLock;
  d ← get_st;
  let new_file := negb (lock_exists d) in
  _ ← private OpenLock;
  _ ← modify_st set_lock;
  if new_file then
    _ ← io SyncLock;
    private SyncRootForLock
  else mret ().

(** What reading the destination returns, before decoding. *)
Definition read_file (max : Z) : stM Disk E (option bytes) :=
  _ ← io StatFile;
  d ← get_st;
  match published d with
  | None => mret None
  | Some b =>
      _ ← private OpenFile;
      _ ← io ReadFile;
      mret (Some (read_limited max b))
  end.

(** The closure that writes the temporary file and renames it into place. *)
Definition publish_temporary (b : bytes) : stM Disk E () :=
  _ ← private CreateTemp;
  _ ← modify_st (set_temporary (Some []));
  _ ← io WriteTemp;
  _ ← modify_st (set_temporary (Some b));
  _ ← io SyncTemp;
  _ ← private VerifyTemp;
  _ ← io RenameTemp;
  modify_st rename_temporary.

(** [let _ = fs::remove_file(&temporary)]: best effort. *)
Definition remove_temporary (d : Disk) : Disk :=
  match faults RemoveTemp with Some _ => d | None => set_temporary None d end.

(** [if let Err(error) = publication { remove; return Err(error) }]. *)
Definition or_remove_temporary (publication : stM Disk E ()) : stM Disk E () := fun d =>
  match publication d with
  | (Ok u, d) => (Ok u, d)
  | (Err e, d) => (Err e, remove_temporary d)
  end.
End store.

(** ** Lemmas *)

Section store_lemmas.
Context {E : Type} (unavailable : E) (storage_error : ProfileError → E) (faults : Faults).

(** Steps that never touch the published file. *)
Definition keeps_published {A} (m : stM Disk E A) : Prop :=
  ∀ d r d', m d = (r, d') → published d' = published d.

Lemma keeps_ret {A} (a : A) : keeps_published (mret a).
Proof. by intros d r d' [= <- <-]. Qed.

Lemma keeps_bind {A B} (m : stM Disk E A) (k : A → stM Disk E B) :
  keeps_published m → (∀ a, keeps_published (k a)) → keeps_published (m ≫= k).
Proof.
  intros Hm Hk d r d' H. cbv [mbind stM_bind] in H.
  destruct (m d) as [[a|e] d1] eqn:Hd.
  - rewrite (Hk a _ _ _ H). by eapply Hm.
  - injection H as <- <-. by eapply Hm.
Qed.

Lemma keeps_io s : keeps_published (io unavailable faults s).
Proof. unfold io. destruct (faults s); by intros d r d' [= <- <-]. Qed.
Lemma keeps_private s : keeps_published (private storage_error faults s).
Proof. unfold private. destruct (faults s); by intros d r d' [= <- <-]. Qed.
Lemma keeps_get : keeps_published (@get_st Disk E).
Proof. by intros d r d' [= <- <-]. Qed.
Lemma keeps_modify f : (∀ d, published (f d) = published d) →
  keeps_published (@modify_st Disk E f).
Proof. by intros Hf d r d' [= <- <-]. Qed.
Lemma keeps_lift {A} (x : result E A) : keeps_published (lift_result x).
Proof. by intros d r d' [= <- <-]. Qed.
End store_lemmas.

#[export] Hint Resolve keeps_ret keeps_bind keeps_io keeps_private keeps_get keeps_modify
  keeps_lift : calcifer.

Section store_properties.
Context {E : Type} (unavailable : E) (storage_error : ProfileError → E) (faults : Faults).

Lemma open_lock_keeps : keeps_published (open_lock unavailable storage_error faults).
Proof.
  unfold open_lock. repeat (apply keeps_bind; [eauto with calcifer|intros]).
  destruct (negb _); eauto with calcifer.
Qed.

(** Reading leaves the directory as it is. *)
Lemma read_file_spec max d r d' :
  read_file unavailable storage_error faults max d = (r, d') →
  d' = d ∧ match r with Ok o => o = read_limited max <$> published d | Err _ => True end.
Proof.
  unfold read_file, io, private. run_st.
  destruct (faults StatFile); [by intros [= <- <-]|].
  destruct (published d) as [b|]; [|by intros [= <- <-]].
  destruct (faults OpenFile); [by intros [= <- <-]|].
  destruct (faults ReadFile); by intros [= <- <-].
Qed.

(** Publication is all or nothing: on success the file is the new one, on any
    error it is the old one. *)
Lemma publish_spec b d r d' :
  or_remove_temporary faults (publish_temporary unavailable storage_error faults b) d = (r, d') →
  published d' = (if is_ok r then Some b else published d) ∧
  root_exists d' = root_exists d ∧ lock_exists d' = lock_exists d.
Proof.
  unfold or_remove_temporary, publish_temporary, io, private, remove_temporary. run_st.
  destruct (faults RemoveTemp);
  repeat (case_match; simplify_eq/=; try by intros [= <- <-]).
Qed.
End store_properties.

#[export] Hint Resolve open_lock_keeps : calcifer.

(** Decomposes a program of such steps. *)
Ltac keeps :=
  repeat first
    [ apply keeps_ret | apply keeps_io | apply keeps_private | apply keeps_get
    | apply open_lock_keeps | apply keeps_lift | (apply keeps_modify; done)
    | (apply keeps_bind; [|intros]) ].
