(* ===== verification/RoutingDefs.v ===== *)
(** * Routing definitions (src/routing.rs)

    The private registry of trust domains and pools: its data, its validation,
    the nine mutations, and the two queries a guarded handoff is authorised
    by. [RoutingProofs] has the theorems. *)
From stdpp Require Import countable pretty.
From S2P Require Import Prelude Interfaces Profiles.

Open Scope Z_scope.

Definition SCHEMA_VERSION : Z := 1.
Definition MAX_SERIALIZED_BYTES : Z := 512 * 1024.
Definition MAX_TRUST_DOMAINS : Z := 128.
Definition MAX_POOLS : Z := 256.
Definition MAX_DOMAIN_PROFILE_IDS : Z := 64.
Definition MAX_POOL_PROFILE_IDS : Z := 32.
Definition MAX_MEMBERSHIP_EDGES : Z := 4096.

(** ** Data *)

Inductive Activation := Disabled | Enabled.

#[export] Instance Activation_eq_dec : EqDecision Activation.
Proof. solve_decision. Defined.

Definition activation_eqb (a b : Activation) : bool := bool_decide (a = b).

Definition activation_label (a : Activation) : string :=
  match a with Disabled => "disabled" | Enabled => "enabled" end.

Record TrustDomainDefinition := mkDomain {
  domain_id : string;
  domain_alias : string;
  domain_provider_of : Provider;
  domain_profile_ids : list string;
}.

Record PoolDefinition := mkPool {
  pool_id : string;
  pool_alias : string;
  pool_trust_domain_id : string;
  pool_activation : Activation;
  pool_profile_ids : list string;
}.

(** [Definitions]; its JSON document has the same four fields. *)
Record Definitions := mkDefinitions {
  schema_version : Z;
  revision : Z;
  trust_domains : list TrustDomainDefinition;
  pools : list PoolDefinition;
}.

#[export] Instance TrustDomainDefinition_eq_dec : EqDecision TrustDomainDefinition.
Proof. solve_decision. Defined.
#[export] Instance PoolDefinition_eq_dec : EqDecision PoolDefinition.
Proof. solve_decision. Defined.
#[export] Instance Definitions_eq_dec : EqDecision Definitions.
Proof. solve_decision. Defined.

#[export] Program Instance Activation_countable : Countable Activation :=
  inj_countable' (fun a => bool_decide (a = Enabled)) (fun b => if b then Enabled else Disabled) _.
Next Obligation. by intros []. Qed.
#[export] Program Instance TrustDomainDefinition_countable : Countable TrustDomainDefinition :=
  inj_countable'
    (fun d => (domain_id d, domain_alias d, domain_provider_of d, domain_profile_ids d))
    (fun '(i, a, p, l) => mkDomain i a p l) _.
Next Obligation. by intros []. Qed.
#[export] Program Instance PoolDefinition_countable : Countable PoolDefinition :=
  inj_countable'
    (fun p => (pool_id p, pool_alias p, pool_trust_domain_id p, pool_activation p, pool_profile_ids p))
    (fun '(i, a, t, c, l) => mkPool i a t c l) _.
Next Obligation. by intros []. Qed.
#[export] Program Instance Definitions_countable : Countable Definitions :=
  inj_countable'
    (fun d => (schema_version d, revision d, trust_domains d, pools d))
    (fun '(s, r, t, p) => mkDefinitions s r t p) _.
Next Obligation. by intros []. Qed.

Definition default_definitions : Definitions := mkDefinitions SCHEMA_VERSION 0 [] [].

(** The proof that a handoff between two profiles is authorised. *)
Record HandoffAuthorization := mkHandoffAuthorization {
  authorized_trust_domain_id : string;
}.

Record EnabledPool := mkEnabledPool {
  ep_id : string;
  ep_alias : string;
  ep_trust_domain_id : string;
  ep_trust_domain_alias : string;
  ep_provider : Provider;
  ep_profile_ids : list string;
}.

Inductive DefinitionMutation :=
| CreateDomain (id alias : string) (provider : Provider) (profile_ids : list string)
| RenameDomain (id alias : string)
| ReplaceDomainMembers (id : string) (profile_ids : list string)
| RemoveDomain (id : string)
| CreatePool (id alias trust_domain_id : string) (profile_ids : list string)
| RenamePool (id alias : string)
| ReplacePoolMembers (id : string) (profile_ids : list string)
| SetPoolActivation (id : string) (enabled : bool)
| RemovePool (id : string).

Record MutationOutcome := mkMutationOutcome {
  changed : bool;
  outcome_revision : Z;
}.

Inductive DefinitionError :=
| InvalidSchema | InvalidId | InvalidAlias | InvalidMembership | ExclusiveMembership
| AlreadyExists | NotFound | DomainInUse | PoolDisabled | PoolEnabled
| LimitExceeded | RevisionConflict | RevisionOverflow | SerializationFailed.

#[export] Instance DefinitionError_eq_dec : EqDecision DefinitionError.
Proof. solve_decision. Defined.

Definition definition_error_code (e : DefinitionError) : string :=
  match e with
  | InvalidSchema => "routing_definitions_invalid"
  | InvalidId => "routing_definition_id_invalid"
  | InvalidAlias => "routing_definition_alias_invalid"
  | InvalidMembership => "routing_definition_membership_invalid"
  | ExclusiveMembership => "routing_definition_membership_conflict"
  | AlreadyExists => "routing_definition_already_exists"
  | NotFound => "routing_definition_not_found"
  | DomainInUse => "routing_definition_domain_in_use"
  | PoolDisabled => "routing_pool_disabled"
  | PoolEnabled => "routing_pool_enabled"
  | LimitExceeded => "routing_definition_limit_exceeded"
  | RevisionConflict => "routing_definition_revision_conflict"
  | RevisionOverflow => "routing_definition_revision_overflow"
  | SerializationFailed => "routing_definitions_invalid"
  end.

(** ** Inspection: the registry as it is shown *)

Record MemberInspection := mkMemberInspection {
  mi_profile_id : string;
  mi_profile : option string;
}.

Record TrustDomainInspection := mkTrustDomainInspection {
  tdi_id : string;
  tdi_alias : string;
  tdi_provider : Provider;
  tdi_members : list MemberInspection;
}.

Record PoolInspection := mkPoolInspection {
  pi_id : string;
  pi_alias : string;
  pi_trust_domain_id : string;
  pi_activation : Activation;
  pi_members : list MemberInspection;
}.

Record Inspection := mkInspection {
  inspection_revision : Z;
  inspection_trust_domains : list TrustDomainInspection;
  inspection_pools : list PoolInspection;
}.

Definition inspect_member (profiles : list Profile) (pid : string) : MemberInspection := {|
  mi_profile_id := pid;
  mi_profile := reference <$> find_first (fun p => String.eqb (profile_id p) pid) profiles;
|}.

Definition inspection_new (definitions : Definitions) (profiles : list Profile) : Inspection := {|
  inspection_revision := revision definitions;
  inspection_trust_domains :=
    (fun d => mkTrustDomainInspection (domain_id d) (domain_alias d) (domain_provider_of d)
                (inspect_member profiles <$> domain_profile_ids d))
    <$> trust_domains definitions;
  inspection_pools :=
    (fun p => mkPoolInspection (pool_id p) (pool_alias p) (pool_trust_domain_id p)
                (pool_activation p) (inspect_member profiles <$> pool_profile_ids p))
    <$> pools definitions;
|}.

Definition human_member (m : MemberInspection) : string :=
  match mi_profile m with
  | None => "missing profile (" +:+ mi_profile_id m +:+ ")"
  | Some profile => profile +:+ " (" +:+ mi_profile_id m +:+ ")"
  end.

Definition human_members (members : list MemberInspection) : string :=
  match members with
  | [] => "none"
  | _ => String.concat ", " (human_member <$> members)
  end.

Definition newline : string := String (Ascii.ascii_of_nat 10) "".

Definition domain_lines (d : TrustDomainInspection) : list string :=
  ["- " +:+ provider_as_str (tdi_provider d) +:+ "@" +:+ tdi_alias d +:+ " (" +:+ tdi_id d +:+ ")";
   "  members: " +:+ human_members (tdi_members d)].

Definition pool_lines (p : PoolInspection) : list string :=
  ["- " +:+ pi_alias p +:+ " (" +:+ pi_id p +:+ ", trust domain " +:+ pi_trust_domain_id p
     +:+ ", " +:+ activation_label (pi_activation p) +:+ ")";
   "  members: " +:+ human_members (pi_members p)].

Definition inspection_to_human (i : Inspection) : string :=
  let header := ["Routing registry revision " +:+ pretty (inspection_revision i)] in
  let domains :=
    match inspection_trust_domains i with
    | [] => ["Trust domains: none"]
    | ds => "Trust domains:" :: (ds ≫= domain_lines)
    end in
  let pool_part :=
    match inspection_pools i with
    | [] => ["Pools: none"]
    | ps => "Pools:" :: (ps ≫= pool_lines)
    end in
  let notice :=
    if forallb (fun p => activation_eqb (pi_activation p) Disabled) (inspection_pools i) then
      "Automatic routing is disabled; no pool can select a provider profile."
    else
      "Only explicitly enabled pools may enter guarded selection; an explicit profile pin bypasses every pool." in
  String.concat newline (header ++ domains ++ pool_part ++ [notice]).

(** ** Validators *)

Definition strictly_sorted_by_id {A} (id : A → string) (values : list A) : bool :=
  strictly_sorted_strings (id <$> values).

Definition validate_definition_alias (alias : string) : result DefinitionError () :=
  map_err (fun _ => InvalidAlias) (validate_alias alias).

Section definitions.
Context {UC : UuidCrate}.

Definition validate_uuid (value : string) : result DefinitionError () :=
  parsed ← ok_or (parse_str value) InvalidId;
  reject_if (negb (String.eqb (uuid_to_string parsed) value)) InvalidId.

Definition canonical_member_set (profile_ids : list string) (maximum : Z)
    : result DefinitionError (list string) :=
  _ ← reject_if (maximum <? len profile_ids) LimitExceeded;
  _ ← for_each validate_uuid profile_ids;
  let profile_ids := sort_strings profile_ids in
  _ ← reject_if (negb (strictly_sorted_strings profile_ids)) InvalidMembership;
  Ok profile_ids.

(** The set of identifiers seen so far is the loop's [BTreeSet]. *)
Definition insert_member (seen : gset string) (pid : string)
    : result DefinitionError (gset string) :=
  _ ← validate_uuid pid;
  _ ← reject_if (bool_decide (pid ∈ seen)) InvalidMembership;
  Ok ({[pid]} ∪ seen).

Definition ordered_pool_members (profile_ids : list string)
    : result DefinitionError (list string) :=
  _ ← reject_if (MAX_POOL_PROFILE_IDS <? len profile_ids) LimitExceeded;
  _ ← reject_if (len profile_ids <? 2) InvalidMembership;
  _ ← fold_result insert_member ∅ profile_ids;
  Ok profile_ids.

(** ** Queries *)

Definition domain_by_id (self : Definitions) (id : string) : option TrustDomainDefinition :=
  find_first (fun d => String.eqb (domain_id d) id) (trust_domains self).

Definition pool_by_id (self : Definitions) (id : string) : option PoolDefinition :=
  find_first (fun p => String.eqb (pool_id p) id) (pools self).

Definition domain_provider (self : Definitions) (id : string)
    : result DefinitionError Provider :=
  ok_or (domain_provider_of <$> domain_by_id self id) NotFound.

(** [self.domain_provider(..).is_ok_and(|p| p == provider)]. *)
Definition domain_has_provider (self : Definitions) (id : string) (provider : Provider) : bool :=
  match domain_provider self id with Ok p => provider_eqb p provider | Err _ => false end.

Definition resolve_domain_id (self : Definitions) (provider : option Provider) (value : string)
    : result DefinitionError string :=
  match provider with
  | Some provider =>
      _ ← validate_definition_alias value;
      ok_or (domain_id <$> find_first (fun d =>
               provider_eqb (domain_provider_of d) provider
               && String.eqb (domain_alias d) value) (trust_domains self)) NotFound
  | None =>
      _ ← validate_uuid value;
      ok_or (domain_id <$> domain_by_id self value) NotFound
  end.

Definition resolve_pool_id (self : Definitions) (provider : option Provider) (value : string)
    : result DefinitionError string :=
  match provider with
  | Some provider =>
      _ ← validate_definition_alias value;
      ok_or (pool_id <$> find_first (fun p =>
               String.eqb (pool_alias p) value
               && domain_has_provider self (pool_trust_domain_id p) provider) (pools self))
        NotFound
  | None =>
      _ ← validate_uuid value;
      ok_or (pool_id <$> pool_by_id self value) NotFound
  end.

Definition authorize_handoff (self : Definitions)
    (trust_domain_id source_profile_id target_profile_id : string) (provider : Provider)
    : result DefinitionError HandoffAuthorization :=
  _ ← validate_uuid trust_domain_id;
  _ ← validate_uuid source_profile_id;
  _ ← validate_uuid target_profile_id;
  domain ← ok_or (domain_by_id self trust_domain_id) NotFound;
  _ ← reject_if (String.eqb source_profile_id target_profile_id
                 || negb (provider_eqb (domain_provider_of domain) provider)
                 || negb (binary_search source_profile_id (domain_profile_ids domain))
                 || negb (binary_search target_profile_id (domain_profile_ids domain)))
        InvalidMembership;
  Ok (mkHandoffAuthorization (domain_id domain)).

Definition pool_provider_for_id (self : Definitions) (id : string)
    : result DefinitionError Provider :=
  pool ← ok_or (pool_by_id self id) NotFound;
  domain_provider self (pool_trust_domain_id pool).

Definition enabled_pool_for_source (self : Definitions) (id source_profile_id : string)
    (provider : Provider) : result DefinitionError EnabledPool :=
  _ ← validate_uuid id;
  _ ← validate_uuid source_profile_id;
  pool ← ok_or (pool_by_id self id) NotFound;
  _ ← reject_if (negb (activation_eqb (pool_activation pool) Enabled)) PoolDisabled;
  domain ← ok_or (domain_by_id self (pool_trust_domain_id pool)) InvalidMembership;
  _ ← reject_if (negb (provider_eqb (domain_provider_of domain) provider)
                 || negb (existsb (fun p => String.eqb p source_profile_id)
                            (pool_profile_ids pool)))
        InvalidMembership;
  Ok (mkEnabledPool (pool_id pool) (pool_alias pool) (pool_trust_domain_id pool)
        (domain_alias domain) provider (pool_profile_ids pool)).

(** ** Validation of a whole document *)

Context {JC : JsonCodec Definitions}.

Definition serialize_document (self : Definitions) : result DefinitionError bytes :=
  ok_or (to_vec self) SerializationFailed.

(** The locals of the two loops of [validate]. *)
Record ValidateLocals := mkLocals {
  definition_ids : gset string;
  assigned_profiles : gset string;
  membership_edges : Z;
}.

Definition assign_profile (assigned : gset string) (pid : string)
    : result DefinitionError (gset string) :=
  _ ← validate_uuid pid;
  _ ← reject_if (bool_decide (pid ∈ assigned)) ExclusiveMembership;
  Ok ({[pid]} ∪ assigned).

Definition validate_domain (previous : list TrustDomainDefinition) (st : ValidateLocals)
    (domain : TrustDomainDefinition) : result DefinitionError ValidateLocals :=
  _ ← validate_uuid (domain_id domain);
  _ ← reject_if (bool_decide (domain_id domain ∈ definition_ids st)) AlreadyExists;
  _ ← validate_definition_alias (domain_alias domain);
  _ ← reject_if (MAX_DOMAIN_PROFILE_IDS <? len (domain_profile_ids domain)) LimitExceeded;
  _ ← reject_if (negb (strictly_sorted_strings (domain_profile_ids domain))) InvalidMembership;
  _ ← reject_if (existsb (fun p =>
          provider_eqb (domain_provider_of p) (domain_provider_of domain)
          && String.eqb (domain_alias p) (domain_alias domain)) previous) AlreadyExists;
  assigned ← fold_result assign_profile (assigned_profiles st) (domain_profile_ids domain);
  edges ← ok_or (checked_add_u u64_max (membership_edges st) (len (domain_profile_ids domain)))
            LimitExceeded;
  Ok (mkLocals ({[domain_id domain]} ∪ definition_ids st) assigned edges).

Definition pool_member (domain : TrustDomainDefinition) (seen : gset string) (pid : string)
    : result DefinitionError (gset string) :=
  _ ← validate_uuid pid;
  _ ← reject_if (bool_decide (pid ∈ seen)
                 || negb (binary_search pid (domain_profile_ids domain))) InvalidMembership;
  Ok ({[pid]} ∪ seen).

Definition validate_pool (self : Definitions) (previous : list PoolDefinition)
    (st : ValidateLocals) (pool : PoolDefinition) : result DefinitionError ValidateLocals :=
  _ ← validate_uuid (pool_id pool);
  _ ← reject_if (bool_decide (pool_id pool ∈ definition_ids st)) AlreadyExists;
  _ ← validate_definition_alias (pool_alias pool);
  _ ← validate_uuid (pool_trust_domain_id pool);
  _ ← reject_if (MAX_POOL_PROFILE_IDS <? len (pool_profile_ids pool)) LimitExceeded;
  _ ← reject_if (len (pool_profile_ids pool) <? 2) InvalidMembership;
  domain ← ok_or (domain_by_id self (pool_trust_domain_id pool)) InvalidMembership;
  _ ← reject_if (existsb (fun p =>
          String.eqb (pool_alias p) (pool_alias pool)
          && domain_has_provider self (pool_trust_domain_id p) (domain_provider_of domain))
        previous) AlreadyExists;
  _ ← fold_result (pool_member domain) ∅ (pool_profile_ids pool);
  edges ← ok_or (checked_add_u u64_max (membership_edges st) (len (pool_profile_ids pool)))
            LimitExceeded;
  Ok (mkLocals ({[pool_id pool]} ∪ definition_ids st) (assigned_profiles st) edges).

Definition validate (self : Definitions) : result DefinitionError () :=
  _ ← reject_if (negb (schema_version self =? SCHEMA_VERSION)) InvalidSchema;
  _ ← reject_if ((MAX_TRUST_DOMAINS <? len (trust_domains self))
                 || (MAX_POOLS <? len (pools self))) LimitExceeded;
  _ ← reject_if (negb (strictly_sorted_by_id domain_id (trust_domains self))
                 || negb (strictly_sorted_by_id pool_id (pools self))) InvalidSchema;
  st ← fold_prev validate_domain [] (mkLocals ∅ ∅ 0) (trust_domains self);
  st ← fold_prev (validate_pool self) [] st (pools self);
  _ ← reject_if (MAX_MEMBERSHIP_EDGES <? membership_edges st) LimitExceeded;
  serialized ← serialize_document self;
  reject_if (MAX_SERIALIZED_BYTES <? len serialized) LimitExceeded.

Definition from_json (b : bytes) : result DefinitionError Definitions :=
  _ ← reject_if (MAX_SERIALIZED_BYTES <? len b) LimitExceeded;
  definitions ← ok_or (from_slice b) InvalidSchema;
  _ ← validate definitions;
  Ok definitions.

Definition to_json (self : Definitions) : result DefinitionError bytes :=
  _ ← validate self;
  b ← serialize_document self;
  _ ← reject_if (MAX_SERIALIZED_BYTES <? len b) LimitExceeded;
  Ok b.

(** ** Mutations: each branch returns whether it changed the candidate *)

Definition with_domains (self : Definitions) (ds : list TrustDomainDefinition) : Definitions :=
  mkDefinitions (schema_version self) (revision self) ds (pools self).
Definition with_pools (self : Definitions) (ps : list PoolDefinition) : Definitions :=
  mkDefinitions (schema_version self) (revision self) (trust_domains self) ps.
Definition with_revision (self : Definitions) (r : Z) : Definitions :=
  mkDefinitions (schema_version self) r (trust_domains self) (pools self).

Definition set_domain_alias (alias : string) (d : TrustDomainDefinition) :=
  mkDomain (domain_id d) alias (domain_provider_of d) (domain_profile_ids d).
Definition set_domain_members (pids : list string) (d : TrustDomainDefinition) :=
  mkDomain (domain_id d) (domain_alias d) (domain_provider_of d) pids.
Definition set_pool_alias (alias : string) (p : PoolDefinition) :=
  mkPool (pool_id p) alias (pool_trust_domain_id p) (pool_activation p) (pool_profile_ids p).
Definition set_pool_members (pids : list string) (p : PoolDefinition) :=
  mkPool (pool_id p) (pool_alias p) (pool_trust_domain_id p) (pool_activation p) pids.
Definition set_pool_activation (a : Activation) (p : PoolDefinition) :=
  mkPool (pool_id p) (pool_alias p) (pool_trust_domain_id p) a (pool_profile_ids p).

Definition sort_domains : list TrustDomainDefinition → list TrustDomainDefinition :=
  sort_by (fun l r => str_le (domain_id l) (domain_id r)).
Definition sort_pools : list PoolDefinition → list PoolDefinition :=
  sort_by (fun l r => str_le (pool_id l) (pool_id r)).

Definition has_domain_id (self : Definitions) (id : string) : bool :=
  existsb (fun d => String.eqb (domain_id d) id) (trust_domains self).
Definition has_pool_id (self : Definitions) (id : string) : bool :=
  existsb (fun p => String.eqb (pool_id p) id) (pools self).

Definition create_domain (id alias : string) (provider : Provider) (profile_ids : list string)
    (self : Definitions) : result DefinitionError (bool * Definitions) :=
  _ ← validate_uuid id;
  _ ← validate_definition_alias alias;
  profile_ids ← canonical_member_set profile_ids MAX_DOMAIN_PROFILE_IDS;
  _ ← reject_if (has_domain_id self id || has_pool_id self id
                 || existsb (fun d => provider_eqb (domain_provider_of d) provider
                                      && String.eqb (domain_alias d) alias)
                      (trust_domains self)) AlreadyExists;
  Ok (true, with_domains self
              (sort_domains (trust_domains self ++ [mkDomain id alias provider profile_ids]))).

Definition rename_domain (id alias : string) (self : Definitions)
    : result DefinitionError (bool * Definitions) :=
  _ ← validate_uuid id;
  _ ← validate_definition_alias alias;
  index ← ok_or (position (fun d => String.eqb (domain_id d) id) (trust_domains self)) NotFound;
  current ← ok_or (trust_domains self !! index) NotFound;
  if String.eqb (domain_alias current) alias then Ok (false, self) else
  _ ← reject_if (any_indexed (fun other_index d =>
          negb (Nat.eqb other_index index)
          && provider_eqb (domain_provider_of d) (domain_provider_of current)
          && String.eqb (domain_alias d) alias) 0 (trust_domains self)) AlreadyExists;
  Ok (true, with_domains self (alter (set_domain_alias alias) index (trust_domains self))).

Definition replace_domain_members (id : string) (profile_ids : list string)
    (self : Definitions) : result DefinitionError (bool * Definitions) :=
  _ ← validate_uuid id;
  profile_ids ← canonical_member_set profile_ids MAX_DOMAIN_PROFILE_IDS;
  domain ← ok_or (domain_by_id self id) NotFound;
  if bool_decide (domain_profile_ids domain = profile_ids) then Ok (false, self) else
  Ok (true, with_domains self
              (update_first (fun d => String.eqb (domain_id d) id)
                 (set_domain_members profile_ids) (trust_domains self))).

Definition remove_domain (id : string) (self : Definitions)
    : result DefinitionError (bool * Definitions) :=
  _ ← validate_uuid id;
  index ← ok_or (position (fun d => String.eqb (domain_id d) id) (trust_domains self)) NotFound;
  _ ← reject_if (existsb (fun p => String.eqb (pool_trust_domain_id p) id) (pools self))
        DomainInUse;
  Ok (true, with_domains self (remove_at index (trust_domains self))).

Definition create_pool (id alias trust_domain_id : string) (profile_ids : list string)
    (self : Definitions) : result DefinitionError (bool * Definitions) :=
  _ ← validate_uuid id;
  _ ← validate_uuid trust_domain_id;
  _ ← validate_definition_alias alias;
  profile_ids ← ordered_pool_members profile_ids;
  provider ← domain_provider self trust_domain_id;
  _ ← reject_if (has_pool_id self id || has_domain_id self id
                 || existsb (fun p => String.eqb (pool_alias p) alias
                      && domain_has_provider self (pool_trust_domain_id p) provider)
                      (pools self)) AlreadyExists;
  Ok (true, with_pools self
              (sort_pools (pools self
                 ++ [mkPool id alias trust_domain_id Disabled profile_ids]))).

Definition rename_pool (id alias : string) (self : Definitions)
    : result DefinitionError (bool * Definitions) :=
  _ ← validate_uuid id;
  _ ← validate_definition_alias alias;
  index ← ok_or (position (fun p => String.eqb (pool_id p) id) (pools self)) NotFound;
  current ← ok_or (pools self !! index) NotFound;
  if String.eqb (pool_alias current) alias then Ok (false, self) else
  provider ← domain_provider self (pool_trust_domain_id current);
  _ ← reject_if (any_indexed (fun other_index p =>
          negb (Nat.eqb other_index index)
          && String.eqb (pool_alias p) alias
          && domain_has_provider self (pool_trust_domain_id p) provider) 0 (pools self))
        AlreadyExists;
  Ok (true, with_pools self (alter (set_pool_alias alias) index (pools self))).

Definition replace_pool_members (id : string) (profile_ids : list string)
    (self : Definitions) : result DefinitionError (bool * Definitions) :=
  _ ← validate_uuid id;
  profile_ids ← ordered_pool_members profile_ids;
  pool ← ok_or (pool_by_id self id) NotFound;
  _ ← reject_if (activation_eqb (pool_activation pool) Enabled) PoolEnabled;
  if bool_decide (pool_profile_ids pool = profile_ids) then Ok (false, self) else
  Ok (true, with_pools self
              (update_first (fun p => String.eqb (pool_id p) id)
                 (set_pool_members profile_ids) (pools self))).

Definition change_pool_activation (id : string) (enabled : bool) (self : Definitions)
    : result DefinitionError (bool * Definitions) :=
  _ ← validate_uuid id;
  pool ← ok_or (pool_by_id self id) NotFound;
  let activation := if enabled then Enabled else Disabled in
  if activation_eqb (pool_activation pool) activation then Ok (false, self) else
  Ok (true, with_pools self
              (update_first (fun p => String.eqb (pool_id p) id)
                 (set_pool_activation activation) (pools self))).

Definition remove_pool (id : string) (self : Definitions)
    : result DefinitionError (bool * Definitions) :=
  _ ← validate_uuid id;
  index ← ok_or (position (fun p => String.eqb (pool_id p) id) (pools self)) NotFound;
  current ← ok_or (pools self !! index) NotFound;
  _ ← reject_if (activation_eqb (pool_activation current) Enabled) PoolEnabled;
  Ok (true, with_pools self (remove_at index (pools self))).

Definition apply_mutation (mutation : DefinitionMutation) (self : Definitions)
    : result DefinitionError (bool * Definitions) :=
  match mutation with
  | CreateDomain id alias provider profile_ids =>
      create_domain id alias provider profile_ids self
  | RenameDomain id alias => rename_domain id alias self
  | ReplaceDomainMembers id profile_ids => replace_domain_members id profile_ids self
  | RemoveDomain id => remove_domain id self
  | CreatePool id alias trust_domain_id profile_ids =>
      create_pool id alias trust_domain_id profile_ids self
  | RenamePool id alias => rename_pool id alias self
  | ReplacePoolMembers id profile_ids => replace_pool_members id profile_ids self
  | SetPoolActivation id enabled => change_pool_activation id enabled self
  | RemovePool id => remove_pool id self
  end.

(** [Definitions::apply]: works on a clone and assigns it on success only. *)
Definition apply (expected_revision : Z) (mutation : DefinitionMutation)
    : stM Definitions DefinitionError MutationOutcome :=
  self ← get_st;
  _ ← lift_result (reject_if (negb (revision self =? expected_revision)) RevisionConflict);
  applied ← lift_result (apply_mutation mutation self);
  let candidate := snd applied in
  if negb (fst applied) then
    _ ← lift_result (validate candidate);
    mret (mkMutationOutcome false (revision self))
  else
    next ← lift_result (ok_or (checked_add_u u64_max (revision candidate) 1) RevisionOverflow);
    let candidate := with_revision candidate next in
    _ ← lift_result (validate candidate);
    _ ← put_st candidate;
    mret (mkMutationOutcome true (revision candidate)).
End definitions.
