(* ===== verification/RoutingProofs.v ===== *)
(** * Routing definitions: theorems (src/routing.rs)

    What a stored registry guarantees ([valid_definitions]), that every
    mutation keeps it, the refinement of the mutations to operations on two
    finite maps, and what the queries that authorise a handoff promise. *)
From stdpp Require Import countable.
From S2P Require Import Prelude Interfaces Profiles RoutingDefs.

Open Scope Z_scope.

(** ** The invariant of a stored registry *)

Section invariant.
Context {UC : UuidCrate} {JC : JsonCodec Definitions}.

Definition is_uuid (s : string) : Prop := validate_uuid s = Ok ().
Definition is_alias (s : string) : Prop := validate_definition_alias s = Ok ().

Record valid_domain (d : TrustDomainDefinition) : Prop := {
  vd_id : is_uuid (domain_id d);
  vd_alias : is_alias (domain_alias d);
  vd_len : len (domain_profile_ids d) <= MAX_DOMAIN_PROFILE_IDS;
  vd_sorted : StronglySorted str_lt_rel (domain_profile_ids d);
  vd_members : Forall is_uuid (domain_profile_ids d);
}.

Record valid_pool (d : Definitions) (p : PoolDefinition) : Prop := {
  vp_id : is_uuid (pool_id p);
  vp_alias : is_alias (pool_alias p);
  vp_domain_id : is_uuid (pool_trust_domain_id p);
  vp_len : 2 <= len (pool_profile_ids p) <= MAX_POOL_PROFILE_IDS;
  vp_unique : NoDup (pool_profile_ids p);
  vp_members : Forall is_uuid (pool_profile_ids p);
  vp_domain : ∃ dom, dom ∈ trust_domains d ∧ domain_id dom = pool_trust_domain_id p ∧
                pool_profile_ids p ⊆ domain_profile_ids dom;
}.

(** The provider and alias a definition is known under. *)
Definition domain_key (d : TrustDomainDefinition) : Provider * string :=
  (domain_provider_of d, domain_alias d).
Definition pool_key (d : Definitions) (p : PoolDefinition)
    : result DefinitionError Provider * string :=
  (domain_provider d (pool_trust_domain_id p), pool_alias p).

Record valid_definitions (d : Definitions) : Prop := {
  v_schema : schema_version d = SCHEMA_VERSION;
  v_domains_len : len (trust_domains d) <= MAX_TRUST_DOMAINS;
  v_pools_len : len (pools d) <= MAX_POOLS;
  v_domains_sorted : StronglySorted str_lt_rel (domain_id <$> trust_domains d);
  v_pools_sorted : StronglySorted str_lt_rel (pool_id <$> pools d);
  v_ids : NoDup ((domain_id <$> trust_domains d) ++ (pool_id <$> pools d));
  v_domains : Forall valid_domain (trust_domains d);
  v_pools : Forall (valid_pool d) (pools d);
  v_exclusive : NoDup (trust_domains d ≫= domain_profile_ids);
  v_domain_keys : NoDup (domain_key <$> trust_domains d);
  v_pool_keys : NoDup (pool_key d <$> pools d);
  v_edges : len (trust_domains d ≫= domain_profile_ids)
            + len (pools d ≫= pool_profile_ids) <= MAX_MEMBERSHIP_EDGES;
  v_serialized : ∃ b, to_vec d = Some b ∧ len b <= MAX_SERIALIZED_BYTES;
}.

(** ** The validation loops *)

Lemma assign_profile_Ok seen x seen' :
  assign_profile seen x = Ok seen' ↔ is_uuid x ∧ x ∉ seen ∧ seen' = ({[x]} ∪ seen).
Proof.
  unfold assign_profile. setoid_rewrite bind_Ok. setoid_rewrite bind_Ok.
  setoid_rewrite reject_if_Ok. setoid_rewrite bool_decide_eq_false. split.
  - by intros ([] & ? & [] & ? & [= <-]).
  - intros (? & ? & ->). by exists (); split; [done|exists ()].
Qed.

Lemma insert_member_Ok seen x seen' :
  insert_member seen x = Ok seen' ↔ is_uuid x ∧ x ∉ seen ∧ seen' = ({[x]} ∪ seen).
Proof.
  unfold insert_member. setoid_rewrite bind_Ok. setoid_rewrite bind_Ok.
  setoid_rewrite reject_if_Ok. setoid_rewrite bool_decide_eq_false. split.
  - by intros ([] & ? & [] & ? & [= <-]).
  - intros (? & ? & ->). by exists (); split; [done|exists ()].
Qed.

Lemma pool_member_Ok dom seen x seen' :
  pool_member dom seen x = Ok seen' ↔
  (is_uuid x ∧ binary_search x (domain_profile_ids dom) = true) ∧
  x ∉ seen ∧ seen' = ({[x]} ∪ seen).
Proof.
  unfold pool_member. setoid_rewrite bind_Ok. setoid_rewrite bind_Ok.
  setoid_rewrite reject_if_Ok. setoid_rewrite orb_false_iff.
  setoid_rewrite bool_decide_eq_false. setoid_rewrite negb_false_iff. split.
  - by intros ([] & ? & [] & [? ?] & [= <-]).
  - intros ([? ?] & ? & ->). by exists (); split; [done|exists ()].
Qed.

Definition edges_after (st : ValidateLocals) (l : list string) : Z :=
  membership_edges st + len l.

(** The shape both outer loops share: a local condition, a fresh
    identifier, no clash with an earlier entry, fresh assignments and an
    edge count. *)
Definition outer_body_spec {A} (body : list A → ValidateLocals → A →
      result DefinitionError ValidateLocals)
    (ok : A → Prop) (key : A → string) (clash : A → A → bool)
    (assigned members : A → list string) : Prop :=
  ∀ prev st x st', membership_edges st + 64 <= u64_max →
    body prev st x = Ok st' ↔
    ok x ∧ key x ∉ definition_ids st ∧ existsb (fun y => clash y x) prev = false ∧
    NoDup (assigned x) ∧ (∀ y, y ∈ assigned x → y ∉ assigned_profiles st) ∧
    st' = mkLocals ({[key x]} ∪ definition_ids st)
            (list_to_set (assigned x) ∪ assigned_profiles st) (edges_after st (members x)).
Definition members_bounded {A} (ok : A → Prop) (members : A → list string) : Prop :=
  ∀ x, ok x → len (members x) <= 64.

Section outer_loop.
Context {A : Type} (body : list A → ValidateLocals → A → result DefinitionError ValidateLocals).
Context (ok : A → Prop) (key : A → string) (clash : A → A → bool).
Context (assigned members : A → list string).
Hypothesis members_len : members_bounded ok members.
Hypothesis body_Ok : outer_body_spec body ok key clash assigned members.

Lemma outer_loop_Ok l prev st st' : membership_edges st + 64 * len l <= u64_max →
  fold_prev body prev st l = Ok st' ↔
  Forall ok l ∧ NoDup (key <$> l) ∧ (∀ x, x ∈ l → key x ∉ definition_ids st) ∧
  (∀ l1 x l2, l = l1 ++ x :: l2 → existsb (fun y => clash y x) (prev ++ l1) = false) ∧
  NoDup (l ≫= assigned) ∧ (∀ y, y ∈ l ≫= assigned → y ∉ assigned_profiles st) ∧
  st' = mkLocals (list_to_set (key <$> l) ∪ definition_ids st)
          (list_to_set (l ≫= assigned) ∪ assigned_profiles st)
          (edges_after st (l ≫= members)).
Proof using members_len body_Ok.
  revert prev st; induction l as [|x l IH]; intros prev st Hb; cbn [fold_prev].
  { assert (st = mkLocals (∅ ∪ definition_ids st) (∅ ∪ assigned_profiles st)
                   (edges_after st [])) as Hst.
    { destruct st; unfold edges_after, len; cbn. f_equal; [set_solver+..|lia]. }
    cbn. rewrite <- Hst. split; [|by intros (_ & _ & _ & _ & _ & _ & ->)].
    intros [= <-]. repeat split; try constructor; try (by intros ? []%elem_of_nil).
    by intros [|??] ?? [=]. }
  assert (Hlen : len (x :: l) = 1 + len l) by (unfold len; cbn [length]; lia).
  assert (0 <= len l) by (unfold len; lia).
  rewrite bind_Ok. cbn [fmap list_fmap mbind list_bind]. split.
  - intros (st1 & H1 & H2). apply body_Ok in H1 as (Hok & Hk & Hc & Hn & Ha & ->); [|lia].
    pose proof (members_len _ Hok).
    apply IH in H2 as (Hoks & Hks & Hfresh & Hcs & Hns & Has & ->);
      [|cbn; unfold edges_after; lia]. cbn in *.
    repeat split.
    + by constructor.
    + constructor; [|done]. intros (y & Hy & Hin)%list_elem_of_fmap.
      specialize (Hfresh y Hin). set_solver +Hfresh Hy.
    + intros y [->|Hy]%elem_of_cons; [done|]. specialize (Hfresh y Hy).
      set_solver +Hfresh.
    + intros [|z l1] y l2 [= <- ->]; [by rewrite app_nil_r|].
      specialize (Hcs _ _ _ eq_refl). by rewrite <- app_assoc in Hcs.
    + apply NoDup_app. split; [done|]. split; [|done].
      intros y Hy Hy'. specialize (Has y Hy'). set_solver +Has Hy.
    + intros y [Hy|Hy]%elem_of_app; [by apply Ha|]. specialize (Has y Hy).
      set_solver +Has.
    + rewrite list_to_set_app_L. unfold edges_after, len. cbn. rewrite length_app.
      f_equal; [set_solver+..|lia].
  - intros (Hoks & Hks & Hfresh & Hcs & Hns & Has & ->).
    apply Forall_cons in Hoks as [Hok Hoks]. pose proof (members_len _ Hok).
    apply NoDup_cons in Hks as [Hk Hks]. apply NoDup_app in Hns as (Hn & Hd & Hns).
    eexists; split.
    { apply body_Ok; [lia|]. repeat split; try done.
      - apply Hfresh. by left.
      - specialize (Hcs [] x l eq_refl). by rewrite app_nil_r in Hcs.
      - intros y Hy. apply Has. apply elem_of_app. by left. }
    apply IH; [cbn; unfold edges_after; lia|]. cbn. repeat split; try done.
    + intros y Hy. specialize (Hfresh y (list_elem_of_further _ _ _ Hy)).
      assert (key y ≠ key x) as Hne; [|set_solver +Hne Hfresh]. intros He. apply Hk.
      rewrite <- He. by apply list_elem_of_fmap_2.
    + intros l1 y l2 ->. rewrite <- app_assoc. by apply (Hcs (x :: l1) y l2).
    + intros y Hy. specialize (Has y). specialize (Hd y).
      set_solver +Has Hd Hy.
    + rewrite list_to_set_app_L. unfold edges_after, len. cbn. rewrite length_app.
      f_equal; [set_solver+..|lia].
Qed.
End outer_loop.

(** ** [validate] decides the invariant *)

Definition domain_clash (p d : TrustDomainDefinition) : bool :=
  provider_eqb (domain_provider_of p) (domain_provider_of d)
  && String.eqb (domain_alias p) (domain_alias d).

Definition pool_clash (self : Definitions) (p pool : PoolDefinition) : bool :=
  match domain_by_id self (pool_trust_domain_id pool) with
  | Some dom => String.eqb (pool_alias p) (pool_alias pool)
                && domain_has_provider self (pool_trust_domain_id p) (domain_provider_of dom)
  | None => false
  end.

Lemma domain_by_id_Some d id dom :
  NoDup (domain_id <$> trust_domains d) →
  domain_by_id d id = Some dom ↔ dom ∈ trust_domains d ∧ domain_id dom = id.
Proof. apply find_first_key. Qed.

Lemma pool_by_id_Some d id p :
  NoDup (pool_id <$> pools d) →
  pool_by_id d id = Some p ↔ p ∈ pools d ∧ pool_id p = id.
Proof. apply find_first_key. Qed.

Lemma checked_add_edges a b : 0 <= b <= 64 → a + 64 <= u64_max →
  checked_add_u u64_max a b = Some (a + b).
Proof. intros. unfold checked_add_u. by rewrite (proj2 (Z.leb_le _ _)) by lia. Qed.

Lemma validate_domain_Ok :
  outer_body_spec validate_domain valid_domain domain_id domain_clash
    domain_profile_ids domain_profile_ids.
Proof.
  intros prev st d st' Hb. unfold validate_domain. split.
  - intros H. inv_ok. inv_bool. apply (insert_loop_Ok _ _ assign_profile_Ok) in Hok5
      as (? & ? & ? & ->).
    apply strictly_sorted_strings_spec in Hok3.
    rewrite checked_add_edges in Hok6 by (unfold len, MAX_DOMAIN_PROFILE_IDS in *; lia).
    injection Hok6 as <-. repeat split; done.
  - intros ([? ? ? ? ?] & Hid & Hc & ? & ? & ->).
    rewrite vd_id0, vd_alias0. cbn. rewrite bool_decide_false by done. cbn.
    rewrite (proj2 (Z.ltb_ge _ _)), (proj2 (strictly_sorted_strings_spec _)) by done. cbn.
    unfold domain_clash in Hc. rewrite Hc. cbn.
    rewrite (insert_loop_intro _ _ assign_profile_Ok) by done.
    cbn. rewrite checked_add_edges by (unfold len, MAX_DOMAIN_PROFILE_IDS in *; lia). done.
Qed.

Section pool_loop.
Context (self : Definitions).
Hypothesis domains_ok : Forall valid_domain (trust_domains self).
Hypothesis ids_ok : NoDup (domain_id <$> trust_domains self).

Lemma pool_members_Ok dom l seen' : dom ∈ trust_domains self →
  fold_result (pool_member dom) ∅ l = Ok seen' ↔
  Forall is_uuid l ∧ NoDup l ∧ l ⊆ domain_profile_ids dom ∧ seen' = list_to_set l.
Proof using domains_ok.
  intros Hdom. rewrite (insert_loop_Ok _ _ (pool_member_Ok dom)).
  rewrite Forall_and. assert (Hs : ∀ x, binary_search x (domain_profile_ids dom) = true ↔
    x ∈ domain_profile_ids dom).
  { intros x. apply binary_search_spec. rewrite Forall_forall in domains_ok.
    by apply domains_ok. }
  setoid_rewrite Hs. rewrite (right_id_L ∅ (∪)). rewrite (Forall_forall (fun x => x ∈ _)).
  split; [by intros ([? ?] & ? & _ & ->)|].
  intros (? & ? & ? & ->). by repeat split.
Qed.

Lemma validate_pool_Ok :
  outer_body_spec (validate_pool self) (valid_pool self) pool_id (pool_clash self)
    (fun _ => []) pool_profile_ids.
Proof using domains_ok ids_ok.
  intros prev st p st' Hb. unfold validate_pool. split.
  - intros H. inv_ok.
    apply (domain_by_id_Some _ _ _ ids_ok) in Hok5 as Hd. destruct Hd as [Hd Hid].
    apply pool_members_Ok in Hok7 as (? & ? & ? & ->); [|done]. inv_bool.
    rewrite checked_add_edges in Hok8 by (unfold len, MAX_POOL_PROFILE_IDS in *; lia).
    injection Hok8 as <-. repeat split; try done.
    + by exists a5.
    + unfold pool_clash. rewrite Hok5. done.
    + constructor.
    + by intros ? []%elem_of_nil.
    + f_equal. set_solver +.
  - intros ([? ? ? [? ?] ? ? (dom & Hd & Hid & Hsub)] & Hf & Hc & _ & _ & ->).
    rewrite vp_id0, vp_alias0, vp_domain_id0. cbn.
    rewrite bool_decide_false by done. cbn.
    rewrite !(proj2 (Z.ltb_ge _ _)) by done. cbn.
    pose proof (proj2 (domain_by_id_Some _ _ _ ids_ok) (conj Hd Hid)) as Hdom.
    unfold pool_clash in Hc. rewrite Hdom in *. cbn. rewrite Hc. cbn.
    rewrite (proj2 (pool_members_Ok _ _ (list_to_set (pool_profile_ids p)) Hd));
      [|by repeat split].
    cbn. rewrite checked_add_edges by (unfold len, MAX_POOL_PROFILE_IDS in *; lia).
    cbn. do 2 f_equal. set_solver +.
Qed.
End pool_loop.

Lemma domain_members_bounded : members_bounded valid_domain domain_profile_ids.
Proof. by intros d []. Qed.
Lemma pool_members_bounded d : members_bounded (valid_pool d) pool_profile_ids.
Proof. intros p []. unfold MAX_POOL_PROFILE_IDS in *. lia. Qed.

Lemma domain_clash_key x y : domain_clash y x = true ↔ domain_key y = domain_key x.
Proof.
  unfold domain_clash, domain_key.
  rewrite andb_true_iff, provider_eqb_true, String.eqb_eq.
  split; [by intros [-> ->]|by intros [= -> ->]].
Qed.

Lemma pool_clash_key d x y :
  NoDup (domain_id <$> trust_domains d) → valid_pool d x →
  pool_clash d y x = true ↔ pool_key d y = pool_key d x.
Proof.
  intros Hn [_ _ _ _ _ _ (dom & Hd & Hid & _)]. unfold pool_clash, pool_key.
  pose proof (proj2 (domain_by_id_Some _ _ _ Hn) (conj Hd Hid)) as Hdom.
  unfold domain_has_provider, domain_provider. rewrite Hdom. cbn.
  rewrite andb_true_iff, String.eqb_eq.
  destruct (domain_by_id d (pool_trust_domain_id y)) as [dom'|]; cbn.
  - rewrite provider_eqb_true. split; [by intros [-> ->]|by intros [= -> ->]].
  - split; [by intros [_ ?]|by intros [=]].
Qed.

Lemma bounded_edges {A} (ok : A → Prop) (members : A → list string) l :
  members_bounded ok members → Forall ok l → len (l ≫= members) <= 64 * len l.
Proof.
  intros Hb. unfold len. induction 1 as [|x l Hx _ IH]; cbn; [lia|].
  rewrite length_app. specialize (Hb _ Hx). unfold len in Hb. lia.
Qed.

(** The two loops, started as [validate] starts them. *)
Lemma domain_loop_Ok d st : len (trust_domains d) <= MAX_TRUST_DOMAINS →
  fold_prev validate_domain [] (mkLocals ∅ ∅ 0) (trust_domains d) = Ok st ↔
  Forall valid_domain (trust_domains d) ∧ NoDup (domain_id <$> trust_domains d) ∧
  NoDup (domain_key <$> trust_domains d) ∧
  NoDup (trust_domains d ≫= domain_profile_ids) ∧
  st = mkLocals (list_to_set (domain_id <$> trust_domains d))
         (list_to_set (trust_domains d ≫= domain_profile_ids))
         (len (trust_domains d ≫= domain_profile_ids)).
Proof.
  intros Hlen. unfold MAX_TRUST_DOMAINS in Hlen.
  rewrite (outer_loop_Ok _ _ _ _ _ _ domain_members_bounded validate_domain_Ok)
    by (cbn; unfold u64_max; lia).
  cbn [app definition_ids assigned_profiles]. rewrite !(right_id_L ∅ (∪)).
  setoid_rewrite (NoDup_fmap_prefix domain_key domain_clash);
    [|by intros; apply domain_clash_key].
  unfold edges_after. cbn [membership_edges]. rewrite Z.add_0_l.
  split; [by intros (? & ? & _ & ? & ? & _ & ->)|].
  intros (? & ? & ? & ? & ->). by repeat split.
Qed.

Lemma pool_loop_Ok d st st' : len (pools d) <= MAX_POOLS →
  Forall valid_domain (trust_domains d) → NoDup (domain_id <$> trust_domains d) →
  membership_edges st <= 64 * MAX_TRUST_DOMAINS →
  fold_prev (validate_pool d) [] st (pools d) = Ok st' ↔
  Forall (valid_pool d) (pools d) ∧ NoDup (pool_id <$> pools d) ∧
  (∀ x, x ∈ pools d → pool_id x ∉ definition_ids st) ∧
  NoDup (pool_key d <$> pools d) ∧
  st' = mkLocals (list_to_set (pool_id <$> pools d) ∪ definition_ids st)
          (list_to_set (pools d ≫= fun _ => []) ∪ assigned_profiles st)
          (membership_edges st + len (pools d ≫= pool_profile_ids)).
Proof.
  intros Hlen Hdom Hids Hedges. unfold MAX_POOLS, MAX_TRUST_DOMAINS in *.
  rewrite (outer_loop_Ok _ _ _ _ _ _ (pool_members_bounded d)
             (validate_pool_Ok d Hdom Hids)) by (unfold u64_max; lia).
  cbn [app]. assert (Hnil : ∀ l : list PoolDefinition, l ≫= (fun _ => @nil string) = []).
  { by induction l. } rewrite Hnil. split.
  - intros (Hp & ? & ? & Hc & _ & _ & ->). repeat split; try done.
    apply (NoDup_fmap_prefix _ (pool_clash d)); [|done].
    intros x y Hx _. apply pool_clash_key; [done|]. by eapply Forall_forall in Hp.
  - intros (Hp & ? & ? & Hc & ->). repeat split; try done; [|constructor|set_solver +].
    apply (NoDup_fmap_prefix (pool_key d)); [|done].
    intros x y Hx _. apply pool_clash_key; [done|]. by eapply Forall_forall in Hp.
Qed.

Lemma sorted_by_id_spec {A} (id : A → string) l :
  strictly_sorted_by_id id l = true ↔ StronglySorted str_lt_rel (id <$> l).
Proof. apply strictly_sorted_strings_spec. Qed.

Lemma serialize_fits d :
  (∃ b, serialize_document d = Ok b ∧ (MAX_SERIALIZED_BYTES <? len b) = false) ↔
  ∃ b, to_vec d = Some b ∧ len b <= MAX_SERIALIZED_BYTES.
Proof.
  unfold serialize_document. setoid_rewrite ok_or_Ok. by setoid_rewrite Z.ltb_ge.
Qed.

Lemma validate_valid d : validate d = Ok () → valid_definitions d.
Proof.
  unfold validate. intros H. inv_ok. inv_bool.
  repeat match goal with
  | H : strictly_sorted_by_id _ _ = true |- _ => apply sorted_by_id_spec in H
  end.
  apply domain_loop_Ok in Hok2 as (Hd & Hn & Hk & Ha & ->); [|done].
  pose proof (bounded_edges _ _ _ domain_members_bounded Hd).
  apply pool_loop_Ok in Hok3 as (Hp & Hn' & Hf & Hk' & ->); try done;
    [|cbn; unfold MAX_TRUST_DOMAINS in *; lia].
  cbn in *. split; try done.
  - apply NoDup_app. split; [done|]. split; [|done].
    intros x Hx (p & -> & Hin)%list_elem_of_fmap. apply (Hf p Hin).
    by rewrite elem_of_list_to_set.
  - apply serialize_fits. eexists. by rewrite Z.ltb_ge.
Qed.

Lemma valid_validate d : valid_definitions d → validate d = Ok ().
Proof.
  intros [Hs Hl Hl' Hso Hso' Hids Hd Hp Hex Hk Hk' Hed Hser]. unfold validate.
  apply NoDup_app in Hids as (Hn & Hdisj & Hn').
  pose proof (bounded_edges _ _ _ domain_members_bounded Hd).
  rewrite Hs. cbn. rewrite !(proj2 (Z.ltb_ge _ _)) by done. cbn.
  rewrite !(proj2 (sorted_by_id_spec _ _)) by done. cbn.
  rewrite (proj2 (domain_loop_Ok d _ Hl) (conj Hd (conj Hn (conj Hk (conj Hex eq_refl))))).
  cbn [mbind result_bind]. edestruct (pool_loop_Ok d (mkLocals
    (list_to_set (domain_id <$> trust_domains d))
    (list_to_set (trust_domains d ≫= domain_profile_ids))
    (len (trust_domains d ≫= domain_profile_ids)))) as [_ Hpl]; try done.
  { cbn. unfold MAX_TRUST_DOMAINS in *. lia. }
  rewrite Hpl; [|repeat split; try done].
  2:{ cbn. intros p Hin. rewrite elem_of_list_to_set. intros Hin'. apply (Hdisj _ Hin').
      by apply list_elem_of_fmap_2. }
  cbn [mbind result_bind membership_edges]. rewrite (proj2 (Z.ltb_ge _ _)) by done.
  apply serialize_fits in Hser as (b & -> & Hb). cbn. by rewrite Hb.
Qed.

(** C1: validation accepts a registry document exactly when it satisfies the
    declarative invariant: the supported schema version, all size bounds,
    both lists in strictly increasing identifier order, identifiers unique
    across domains and pools, every profile in at most one trust domain,
    unique names per provider, every pool a repetition-free subset of at
    least two members of an existing domain, and a serialised form within
    the storage bound. *)
Theorem validate_spec d : validate d = Ok () ↔ valid_definitions d.
Proof. split; [apply validate_valid|apply valid_validate]. Qed.
End invariant.

(** ** The abstract registry: two finite maps *)

Record RegistryMaps := mkMaps {
  m_domains : gmap string TrustDomainDefinition;
  m_pools : gmap string PoolDefinition;
}.

Definition registry_maps (d : Definitions) : RegistryMaps :=
  mkMaps (to_map domain_id (trust_domains d)) (to_map pool_id (pools d)).

(** When a mutation is allowed. *)
Definition spec_guard (m : DefinitionMutation) (r : RegistryMaps) : Prop :=
  match m with
  | CreateDomain id _ _ pids =>
      m_domains r !! id = None ∧ m_pools r !! id = None ∧ NoDup pids
  | RenameDomain id _ => is_Some (m_domains r !! id)
  | ReplaceDomainMembers id pids => is_Some (m_domains r !! id) ∧ NoDup pids
  | RemoveDomain id =>
      is_Some (m_domains r !! id) ∧
      ∀ i p, m_pools r !! i = Some p → pool_trust_domain_id p ≠ id
  | CreatePool id _ dom pids =>
      m_pools r !! id = None ∧ m_domains r !! id = None ∧
      is_Some (m_domains r !! dom) ∧ NoDup pids
  | RenamePool id _ => is_Some (m_pools r !! id)
  | ReplacePoolMembers id pids =>
      (∃ p, m_pools r !! id = Some p ∧ pool_activation p = Disabled) ∧ NoDup pids
  | SetPoolActivation id _ => is_Some (m_pools r !! id)
  | RemovePool id => ∃ p, m_pools r !! id = Some p ∧ pool_activation p = Disabled
  end.

(** What it does. *)
Definition spec_effect (m : DefinitionMutation) (r : RegistryMaps) : RegistryMaps :=
  let '(mkMaps ds ps) := r in
  match m with
  | CreateDomain id alias provider pids =>
      mkMaps (<[id := mkDomain id alias provider (sort_strings pids)]> ds) ps
  | RenameDomain id alias => mkMaps (alter (set_domain_alias alias) id ds) ps
  | ReplaceDomainMembers id pids =>
      mkMaps (alter (set_domain_members (sort_strings pids)) id ds) ps
  | RemoveDomain id => mkMaps (delete id ds) ps
  | CreatePool id alias dom pids => mkMaps ds (<[id := mkPool id alias dom Disabled pids]> ps)
  | RenamePool id alias => mkMaps ds (alter (set_pool_alias alias) id ps)
  | ReplacePoolMembers id pids => mkMaps ds (alter (set_pool_members pids) id ps)
  | SetPoolActivation id enabled =>
      mkMaps ds (alter (set_pool_activation (if enabled then Enabled else Disabled)) id ps)
  | RemovePool id => mkMaps ds (delete id ps)
  end.

Section refinement.
Context {UC : UuidCrate} {JC : JsonCodec Definitions}.

Lemma activation_eqb_true a b : activation_eqb a b = true ↔ a = b.
Proof. apply bool_decide_eq_true. Qed.
Lemma activation_eqb_false a b : activation_eqb a b = false ↔ a ≠ b.
Proof. apply bool_decide_eq_false. Qed.

Lemma canonical_member_set_Ok pids max pids' :
  canonical_member_set pids max = Ok pids' →
  NoDup pids ∧ pids' = sort_strings pids ∧ len pids <= max ∧ Forall is_uuid pids.
Proof.
  unfold canonical_member_set. intros H. inv_ok. inv_bool.
  apply sort_strings_strict in Hok1. apply for_each_Ok in Hok0. done.
Qed.

Lemma ordered_pool_members_Ok pids pids' :
  ordered_pool_members pids = Ok pids' →
  NoDup pids ∧ pids' = pids ∧ 2 <= len pids <= MAX_POOL_PROFILE_IDS ∧ Forall is_uuid pids.
Proof.
  unfold ordered_pool_members. intros H. inv_ok. inv_bool.
  by apply (insert_loop_Ok _ _ insert_member_Ok) in Hok1 as (? & ? & _ & _).
Qed.

(** The vectors of a registry are keyed by identifier. *)
Definition keyed_registry (d : Definitions) : Prop :=
  NoDup (domain_id <$> trust_domains d) ∧ NoDup (pool_id <$> pools d).

Lemma valid_keyed d : valid_definitions d → keyed_registry d.
Proof. intros H. by destruct (proj1 (NoDup_app _ _) (v_ids d H)) as (? & _ & ?). Qed.

Lemma domain_lookup d id : keyed_registry d →
  domain_by_id d id = m_domains (registry_maps d) !! id.
Proof. intros [??]. by apply find_first_to_map. Qed.
Lemma pool_lookup d id : keyed_registry d →
  pool_by_id d id = m_pools (registry_maps d) !! id.
Proof. intros [??]. by apply find_first_to_map. Qed.

Lemma has_key_false {A} (key : A → string) l k :
  existsb (fun x => String.eqb (key x) k) l = false → to_map key l !! k = None.
Proof.
  rewrite existsb_false. intros H. apply to_map_None.
  intros (x & -> & Hx)%list_elem_of_fmap. specialize (H x Hx). cbn in H.
  by rewrite String.eqb_refl in H.
Qed.

Lemma position_lookup {A} (key : A → string) l k i :
  NoDup (key <$> l) → position (fun x => String.eqb (key x) k) l = Some i →
  ∃ x, l !! i = Some x ∧ to_map key l !! k = Some x.
Proof.
  intros Hn Hp. apply position_Some in Hp as (x & Hx & Hk & _).
  apply String.eqb_eq in Hk. exists x. split; [done|].
  apply to_map_Some; [done|]. split; [|done]. by eapply list_elem_of_lookup_2.
Qed.

Lemma alter_id_at {A} (f : A → A) (m : gmap string A) k x :
  m !! k = Some x → f x = x → alter f k m = m.
Proof.
  intros Hk Hf. apply map_eq. intros j. rewrite lookup_alter.
  case_decide as Hj; [|done]. subst. by rewrite Hk; cbn; rewrite Hf.
Qed.

(** One lemma per branch: an accepted mutation was allowed and did on the
    maps what it is meant to do; an unchanged registry is returned as is. *)
Definition refines (m : DefinitionMutation) (d : Definitions) (b : bool) (d' : Definitions) :=
  spec_guard m (registry_maps d) ∧
  registry_maps d' = spec_effect m (registry_maps d) ∧
  revision d' = revision d ∧ (b = false → d' = d).

Ltac start_branch := intros [Hnd Hnp] H; inv_ok; inv_bool.

Lemma create_domain_refines id alias pr pids d b d' : keyed_registry d →
  create_domain id alias pr pids d = Ok (b, d') →
  refines (CreateDomain id alias pr pids) d b d'.
Proof.
  unfold create_domain. start_branch.
  apply canonical_member_set_Ok in Hok1 as (? & -> & _ & _).
  match goal with H : has_domain_id _ _ = false |- _ => apply has_key_false in H as Hd end.
  match goal with H : has_pool_id _ _ = false |- _ => apply has_key_false in H as Hp end.
  repeat split; try done. unfold registry_maps. cbn. f_equal.
  unfold sort_domains. by rewrite to_map_snoc_sorted by (done || by apply to_map_None).
Qed.

Lemma rename_domain_refines id alias d b d' : keyed_registry d →
  rename_domain id alias d = Ok (b, d') → refines (RenameDomain id alias) d b d'.
Proof.
  unfold rename_domain. start_branch.
  destruct (position_lookup _ _ _ _ Hnd Hok1) as (x & Hx & Hm).
  rewrite Hx in Hok2. injection Hok2 as ->.
  destruct (String.eqb_spec (domain_alias a2) alias) as [<-|Hne]; inv_ok.
  - repeat split; try (done || by eexists).
    unfold registry_maps; cbn. f_equal. symmetry. eapply alter_id_at; [done|]. by destruct a2.
  - repeat split; try (done || by eexists).
    unfold registry_maps; cbn. f_equal. by apply to_map_alter.
Qed.

Lemma replace_domain_members_refines id pids d b d' : keyed_registry d →
  replace_domain_members id pids d = Ok (b, d') →
  refines (ReplaceDomainMembers id pids) d b d'.
Proof.
  unfold replace_domain_members. start_branch.
  apply canonical_member_set_Ok in Hok0 as (? & -> & _ & _).
  rewrite domain_lookup in Hok1 by done. case_bool_decide as Hb; inv_ok.
  - repeat split; try (done || by eexists).
    unfold registry_maps; cbn. f_equal. symmetry. eapply alter_id_at; [done|].
    destruct a1; cbn in *. by rewrite <- Hb.
  - repeat split; try (done || by eexists).
    unfold registry_maps; cbn. f_equal. by apply to_map_update_first.
Qed.

Lemma remove_domain_refines id d b d' : keyed_registry d →
  remove_domain id d = Ok (b, d') → refines (RemoveDomain id) d b d'.
Proof.
  unfold remove_domain. start_branch.
  destruct (position_lookup _ _ _ _ Hnd Hok0) as (x & Hx & Hm).
  split; [split; [by exists x|]|].
  - intros i p [Hp _]%to_map_Some; [|done]. rewrite existsb_false in Hok1.
    by apply String.eqb_neq, Hok1.
  - repeat split; try done. unfold registry_maps; cbn. f_equal. by apply to_map_remove_at.
Qed.

Lemma create_pool_refines id alias dom pids d b d' : keyed_registry d →
  create_pool id alias dom pids d = Ok (b, d') → refines (CreatePool id alias dom pids) d b d'.
Proof.
  unfold create_pool. start_branch.
  apply ordered_pool_members_Ok in Hok2 as (? & -> & _ & _).
  match goal with H : has_domain_id _ _ = false |- _ => apply has_key_false in H as Hd end.
  match goal with H : has_pool_id _ _ = false |- _ => apply has_key_false in H as Hp end.
  unfold domain_provider in Hok3. inv_ok.
  apply fmap_Some in Hok3 as (x & Hx & ->). rewrite domain_lookup in Hx by done.
  repeat split; try (done || by eexists).
  unfold registry_maps; cbn. f_equal.
  unfold sort_pools. by rewrite to_map_snoc_sorted by (done || by apply to_map_None).
Qed.

Lemma rename_pool_refines id alias d b d' : keyed_registry d →
  rename_pool id alias d = Ok (b, d') → refines (RenamePool id alias) d b d'.
Proof.
  unfold rename_pool. start_branch.
  destruct (position_lookup _ _ _ _ Hnp Hok1) as (x & Hx & Hm).
  rewrite Hx in Hok2. injection Hok2 as ->.
  destruct (String.eqb_spec (pool_alias a2) alias) as [<-|Hne]; inv_ok.
  - repeat split; try (done || by eexists).
    unfold registry_maps; cbn. f_equal. symmetry. eapply alter_id_at; [done|]. by destruct a2.
  - repeat split; try (done || by eexists).
    unfold registry_maps; cbn. f_equal. by apply to_map_alter.
Qed.

Lemma not_enabled a : a ≠ Enabled → a = Disabled.
Proof. by destruct a. Qed.

Lemma replace_pool_members_refines id pids d b d' : keyed_registry d →
  replace_pool_members id pids d = Ok (b, d') → refines (ReplacePoolMembers id pids) d b d'.
Proof.
  unfold replace_pool_members. start_branch.
  apply ordered_pool_members_Ok in Hok0 as (? & -> & _ & _).
  rewrite pool_lookup in Hok1 by done. apply activation_eqb_false, not_enabled in Hok2.
  case_bool_decide as Hb; inv_ok.
  - repeat split; try (done || by eexists).
    unfold registry_maps; cbn. f_equal. symmetry. eapply alter_id_at; [done|].
    by destruct a1.
  - repeat split; try (done || by eexists).
    unfold registry_maps; cbn. f_equal. by apply to_map_update_first.
Qed.

Lemma change_pool_activation_refines id en d b d' : keyed_registry d →
  change_pool_activation id en d = Ok (b, d') → refines (SetPoolActivation id en) d b d'.
Proof.
  unfold change_pool_activation. start_branch.
  rewrite pool_lookup in Hok0 by done.
  destruct (activation_eqb _ _) eqn:Hb; inv_ok.
  - apply activation_eqb_true in Hb.
    repeat split; try (done || by eexists).
    unfold registry_maps; cbn. f_equal. symmetry. eapply alter_id_at; [done|].
    destruct a0; cbn in *. by rewrite <- Hb.
  - repeat split; try (done || by eexists).
    unfold registry_maps; cbn. f_equal. by apply to_map_update_first.
Qed.

Lemma remove_pool_refines id d b d' : keyed_registry d →
  remove_pool id d = Ok (b, d') → refines (RemovePool id) d b d'.
Proof.
  unfold remove_pool. start_branch.
  destruct (position_lookup _ _ _ _ Hnp Hok0) as (x & Hx & Hm).
  rewrite Hx in Hok1. injection Hok1 as ->.
  apply activation_eqb_false, not_enabled in Hok2.
  repeat split; try (done || by eexists).
  unfold registry_maps; cbn. f_equal. by apply to_map_remove_at.
Qed.

Lemma apply_mutation_refines m d b d' : keyed_registry d →
  apply_mutation m d = Ok (b, d') → refines m d b d'.
Proof.
  destruct m; cbn [apply_mutation];
    eauto using create_domain_refines, rename_domain_refines,
      replace_domain_members_refines, remove_domain_refines, create_pool_refines,
      rename_pool_refines, replace_pool_members_refines,
      change_pool_activation_refines, remove_pool_refines.
Qed.
End refinement.

(** ** [Definitions::apply] *)

Section apply.
Context {UC : UuidCrate} {JC : JsonCodec Definitions}.

Lemma apply_Ok e m d o d' : apply e m d = (Ok o, d') →
  revision d = e ∧ ∃ b c, apply_mutation m d = Ok (b, c) ∧
  if b then revision c + 1 <= u64_max ∧ d' = with_revision c (revision c + 1) ∧
            valid_definitions d' ∧ o = mkMutationOutcome true (revision d')
  else d' = d ∧ valid_definitions c ∧ o = mkMutationOutcome false (revision d).
Proof.
  unfold apply. run_st. unfold reject_if, ok_or.
  destruct (Z.eqb_spec (revision d) e) as [He|]; [|done]. cbn.
  destruct (apply_mutation m d) as [[b c]|]; [|done]. cbn.
  destruct b; cbn.
  - unfold checked_add_u. destruct (Z.leb_spec (revision c + 1) u64_max); [|done]. cbn.
    destruct (validate _) as [[]|] eqn:Hv; [|done]. cbn. intros [= <- <-].
    split; [done|]. exists true, c. apply validate_valid in Hv.
    by repeat split_and.
  - destruct (validate c) as [[]|] eqn:Hv; [|done]. cbn. intros [= <- <-].
    split; [done|]. exists false, c. apply validate_valid in Hv.
    by repeat split_and.
Qed.

Lemma apply_Err e m d err d' : apply e m d = (Err err, d') → d' = d.
Proof.
  unfold apply. run_st. unfold reject_if, ok_or.
  repeat case_match; intros; by simplify_eq.
Qed.

(** C2: every mutation of a valid registry refines its specification on two
    finite maps. An accepted mutation saw the expected revision, was
    allowed, did exactly what it is meant to do and nothing else, left the
    registry valid, and advanced the revision by one if and only if it
    changed something; a rejected one changed nothing. *)
Theorem apply_refines e m d r d' :
  valid_definitions d → apply e m d = (r, d') →
  match r with
  | Ok o =>
      revision d = e ∧ valid_definitions d' ∧
      spec_guard m (registry_maps d) ∧
      registry_maps d' = spec_effect m (registry_maps d) ∧
      outcome_revision o = revision d' ∧
      (if changed o then revision d' = revision d + 1 ∧ revision d' <= u64_max else d' = d)
  | Err _ => d' = d
  end.
Proof.
  intros Hv H. destruct r as [o|err]; [|by eapply apply_Err].
  apply apply_Ok in H as (He & b & c & Hm & H).
  apply apply_mutation_refines in Hm as (Hg & Hs & Hr & Hc); [|by apply valid_keyed].
  destruct b.
  - destruct H as (Hmax & -> & Hv' & ->). cbn [changed outcome_revision].
    repeat split_and; try done; cbn; lia.
  - destruct H as (-> & _ & ->). specialize (Hc eq_refl). subst c. by repeat split_and.
Qed.

(** no lost update. Of two writers that read the same revision, the
    second is rejected with a revision conflict as soon as the first has
    changed the registry, whatever its own mutation is. *)
Lemma apply_no_lost_update e m1 m2 d o1 d1 :
  valid_definitions d → apply e m1 d = (Ok o1, d1) → changed o1 = true →
  apply e m2 d1 = (Err RevisionConflict, d1).
Proof.
  intros Hv H Hc. apply apply_Ok in H as (He & b & c & Hm & H).
  apply apply_mutation_refines in Hm as (_ & _ & Hr & _); [|by apply valid_keyed].
  destruct b; [|by destruct H as (_ & _ & ->)].
  destruct H as (_ & -> & _ & _). unfold apply. run_st. cbn.
  rewrite (proj2 (Z.eqb_neq _ _)) by lia. done.
Qed.

Lemma pool_maps_Some d id p : valid_definitions d →
  m_pools (registry_maps d) !! id = Some p ↔ p ∈ pools d ∧ pool_id p = id.
Proof. intros Hv. apply to_map_Some. by apply valid_keyed. Qed.

Lemma domain_maps_Some d id x : valid_definitions d →
  m_domains (registry_maps d) !! id = Some x ↔ x ∈ trust_domains d ∧ domain_id x = id.
Proof. intros Hv. apply to_map_Some. by apply valid_keyed. Qed.

(** The part of an enabled pool that routing relies on. *)
Definition pool_routing (p : PoolDefinition) : string * string * list string :=
  (pool_id p, pool_trust_domain_id p, pool_profile_ids p).

Lemma spec_effect_enabled m r id p :
  spec_guard m r → m_pools r !! id = Some p → pool_activation p = Enabled →
  ∃ p', m_pools (spec_effect m r) !! id = Some p' ∧
    pool_trust_domain_id p' = pool_trust_domain_id p ∧
    pool_profile_ids p' = pool_profile_ids p.
Proof.
  destruct r as [ds ps]. cbn. intros Hg Hp He.
  destruct m as [| | | |i ? ? ?|i|i|i|i]; cbn in *; eauto;
    (destruct (decide (i = id)) as [->|Hne];
     [|rewrite ?lookup_insert_ne, ?lookup_alter_ne, ?lookup_delete_ne by done; by eauto]).
  - destruct Hg as (Hn & _). congruence.
  - rewrite lookup_alter_eq, Hp. cbn. by eauto.
  - destruct Hg as ((p' & ? & ?) & _). congruence.
  - rewrite lookup_alter_eq, Hp. cbn. by eauto.
  - destruct Hg as (p' & ? & ?). congruence.
Qed.

(** an enabled pool is frozen. Whatever mutation is accepted, a pool that
    was enabled still exists, in the same trust domain and with the same
    members in the same order: membership changes only after disabling. *)
Lemma enabled_pool_frozen e m d o d' p :
  valid_definitions d → apply e m d = (Ok o, d') →
  p ∈ pools d → pool_activation p = Enabled →
  ∃ p', p' ∈ pools d' ∧ pool_routing p' = pool_routing p.
Proof.
  intros Hv H Hp He. apply apply_Ok in H as (_ & b & c & Hm & H).
  apply apply_mutation_refines in Hm as (Hg & Hs & _ & Hc); [|by apply valid_keyed].
  destruct (spec_effect_enabled m (registry_maps d) (pool_id p) p) as (p' & Hp' & Ht & Hpi);
    [done|by apply pool_maps_Some|done|].
  rewrite <- Hs in Hp'.
  assert (valid_definitions d' ∧ registry_maps d' = registry_maps c) as [Hv' Hmaps].
  { destruct b.
    - by destruct H as (_ & -> & ? & _).
    - destruct H as (-> & _ & _). by rewrite (Hc eq_refl). }
  rewrite <- Hmaps in Hp'. apply pool_maps_Some in Hp' as [Hin Hid]; [|done].
  exists p'. split; [done|]. unfold pool_routing. by rewrite Hid, Ht, Hpi.
Qed.
End apply.

(** ** Queries of a valid registry *)

Section queries.
Context {UC : UuidCrate} {JC : JsonCodec Definitions}.

Lemma existsb_member x l : existsb (fun p => String.eqb p x) l = true ↔ x ∈ l.
Proof.
  rewrite existsb_true. split.
  - by intros (y & ? & ->%String.eqb_eq).
  - intros. exists x. by rewrite String.eqb_refl.
Qed.

Lemma member_search d dom x : valid_definitions d → dom ∈ trust_domains d →
  binary_search x (domain_profile_ids dom) = true ↔ x ∈ domain_profile_ids dom.
Proof.
  intros Hv Hd. apply binary_search_spec.
  pose proof (proj1 (Forall_forall _ _) (v_domains d Hv) _ Hd). by destruct H.
Qed.

Lemma authorize_handoff_iff d dom src tgt provider auth :
  valid_definitions d →
  authorize_handoff d dom src tgt provider = Ok auth ↔
  auth = mkHandoffAuthorization dom ∧ src ≠ tgt ∧ is_uuid dom ∧ is_uuid src ∧ is_uuid tgt ∧
  ∃ x, x ∈ trust_domains d ∧ domain_id x = dom ∧ domain_provider_of x = provider ∧
    src ∈ domain_profile_ids x ∧ tgt ∈ domain_profile_ids x.
Proof.
  intros Hv. pose proof (valid_keyed d Hv) as [Hn _]. unfold authorize_handoff. split.
  - intros H. inv_ok. inv_bool. apply domain_by_id_Some in Hok2 as [Hin Hid]; [|done].
    rewrite member_search in * by done.
    match goal with H : provider_eqb _ _ = true |- _ => apply provider_eqb_true in H end.
    split; [by rewrite Hid|]. repeat split; try done. by exists a2.
  - intros (-> & Hne & -> & -> & -> & x & Hin & Hid & Hp & Hs & Ht). cbn.
    rewrite (proj2 (domain_by_id_Some _ _ _ Hn) (conj Hin Hid)). cbn.
    rewrite (proj2 (String.eqb_neq _ _) Hne), (proj2 (provider_eqb_true _ _) Hp).
    rewrite !(proj2 (member_search d x _ Hv Hin)) by done. cbn. by rewrite Hid.
Qed.

(** on a valid registry a handoff is authorised exactly between two
    distinct profiles that are members of one existing trust domain of the
    given provider, all three identifiers canonical. *)
Lemma authorize_handoff_spec d dom src tgt provider auth :
  valid_definitions d →
  authorize_handoff d dom src tgt provider = Ok auth ↔
  auth = mkHandoffAuthorization dom ∧ src ≠ tgt ∧ is_uuid dom ∧ is_uuid src ∧ is_uuid tgt ∧
  ∃ x, x ∈ trust_domains d ∧ domain_id x = dom ∧ domain_provider_of x = provider ∧
    src ∈ domain_profile_ids x ∧ tgt ∈ domain_profile_ids x.
Proof. apply authorize_handoff_iff. Qed.

Lemma enabled_pool_for_source_Ok d id src provider ep :
  valid_definitions d → enabled_pool_for_source d id src provider = Ok ep →
  ∃ p x, p ∈ pools d ∧ x ∈ trust_domains d ∧ pool_activation p = Enabled ∧
    pool_id p = id ∧ domain_id x = pool_trust_domain_id p ∧
    domain_provider_of x = provider ∧ src ∈ pool_profile_ids p ∧
    pool_profile_ids p ⊆ domain_profile_ids x ∧
    ep = mkEnabledPool id (pool_alias p) (pool_trust_domain_id p) (domain_alias x) provider
           (pool_profile_ids p).
Proof.
  intros Hv. pose proof (valid_keyed d Hv) as [Hn Hn']. unfold enabled_pool_for_source.
  intros H. inv_ok. inv_bool.
  apply pool_by_id_Some in Hok1 as [Hp Hid]; [|done].
  apply domain_by_id_Some in Hok3 as [Hx Hxid]; [|done].
  match goal with H : activation_eqb _ _ = true |- _ => apply activation_eqb_true in H end.
  match goal with H : provider_eqb _ _ = true |- _ => apply provider_eqb_true in H end.
  match goal with H : existsb _ _ = true |- _ => apply existsb_member in H end.
  exists a1, a3. repeat split; try done; [|by rewrite Hid].
  pose proof (proj1 (Forall_forall _ _) (v_pools d Hv) _ Hp) as [_ _ _ _ _ _ (x & Hx' & Hxid' & ?)].
  assert (x = a3) as <-; [|done].
  pose proof (proj2 (domain_by_id_Some _ _ _ Hn) (conj Hx' Hxid')).
  pose proof (proj2 (domain_by_id_Some _ _ _ Hn) (conj Hx Hxid)). congruence.
Qed.

(** the selector's snapshot is usable. If a valid registry hands out the
    enabled pool of a source profile, the source is a member, the members
    are two to thirty-two distinct profiles of one trust domain of the
    provider, and a handoff from the source to every other member is
    authorised within that domain. *)
Lemma enabled_pool_sound d id src provider ep :
  valid_definitions d → enabled_pool_for_source d id src provider = Ok ep →
  ep_id ep = id ∧ ep_provider ep = provider ∧ src ∈ ep_profile_ids ep ∧
  NoDup (ep_profile_ids ep) ∧ 2 <= len (ep_profile_ids ep) <= MAX_POOL_PROFILE_IDS ∧
  ∀ tgt, tgt ∈ ep_profile_ids ep → tgt ≠ src →
    authorize_handoff d (ep_trust_domain_id ep) src tgt provider
    = Ok (mkHandoffAuthorization (ep_trust_domain_id ep)).
Proof.
  intros Hv H. apply enabled_pool_for_source_Ok in H as
    (p & x & Hp & Hx & He & Hid & Hxid & Hpr & Hs & Hsub & ->); [|done]. cbn.
  pose proof (proj1 (Forall_forall _ _) (v_pools d Hv) _ Hp) as [Hpi _ Hdi Hl Hu Hm _].
  rewrite Forall_forall in Hm.
  repeat split; try done; try lia. intros tgt Ht Hne.
  pose proof (valid_keyed d Hv) as [Hn _]. unfold authorize_handoff.
  rewrite Hdi, (Hm _ Hs), (Hm _ Ht). cbn.
  rewrite (proj2 (domain_by_id_Some _ _ _ Hn) (conj Hx Hxid)). cbn.
  rewrite (proj2 (String.eqb_neq _ _) (not_eq_sym Hne)), (proj2 (provider_eqb_true _ _) Hpr).
  rewrite !(proj2 (member_search d x _ Hv Hx)) by set_solver. cbn. by rewrite Hxid.
Qed.

(** Integers within their Rust fields. *)
Definition definitions_in_range (d : Definitions) : Prop :=
  0 <= schema_version d <= u8_max ∧ 0 <= revision d <= u64_max.

#[export] Instance definitions_in_range_dec d : Decision (definitions_in_range d).
Proof. unfold definitions_in_range. apply _. Defined.

(** what is stored is read back. A registry serialises exactly when it is
    valid, the bytes respect the storage bound, and reading them returns
    the registry; whatever bytes are read, only a valid registry is
    returned. *)
Lemma json_round_trip `{!JsonRoundTrip Definitions definitions_in_range} d :
  definitions_in_range d →
  (valid_definitions d ↔ ∃ b, to_json d = Ok b) ∧
  (∀ b, to_json d = Ok b → len b <= MAX_SERIALIZED_BYTES ∧ from_json b = Ok d) ∧
  (∀ b d', from_json b = Ok d' → valid_definitions d').
Proof.
  intros Hr. assert (Hto : ∀ b, to_json d = Ok b →
    valid_definitions d ∧ to_vec d = Some b ∧ len b <= MAX_SERIALIZED_BYTES).
  { unfold to_json, serialize_document. intros b H. inv_ok. inv_bool.
    by apply validate_valid in Hok as Hv. }
  split; [split|split].
  - intros Hv. pose proof (v_serialized d Hv) as (b & Hb & Hl). exists b.
    unfold to_json, serialize_document. rewrite (valid_validate _ Hv), Hb. cbn.
    by rewrite (proj2 (Z.ltb_ge _ _)).
  - intros (b & Hb). by apply Hto in Hb as [? _].
  - intros b (Hv & Hb & Hl)%Hto. split; [done|]. unfold from_json.
    rewrite (proj2 (Z.ltb_ge _ _)) by done. cbn.
    rewrite (from_slice_to_vec _ _ Hr Hb). cbn. by rewrite (valid_validate _ Hv).
  - unfold from_json. intros b d' H. inv_ok. by apply validate_valid.
Qed.
End queries.

(** ** Concrete registries

    One domain with three members, one enabled pool of all of them; the
    identifiers are real hyphenated UUIDs and the codec is the countable one. *)

Module RoutingExample.
Definition dom_id : string := "10000000-0000-4000-8000-00000000000a".
Definition pool_1 : string := "20000000-0000-4000-8000-00000000000b".
Definition prof (c : string) : string := "30000000-0000-4000-8000-00000000000" +:+ c.

Definition registry (a : Activation) (r : Z) : Definitions := {|
  schema_version := 1;
  revision := r;
  trust_domains := [mkDomain dom_id "team" Codex [prof "1"; prof "2"; prof "3"]];
  pools := [mkPool pool_1 "main" dom_id a [prof "3"; prof "1"; prof "2"]];
|}.

#[export] Instance uuid_instance : UuidCrate := uuid_hyphenated.
#[export] Instance codec_instance : JsonCodec Definitions := countable_codec definitions_in_range.
#[export] Instance codec_laws : JsonRoundTrip Definitions definitions_in_range :=
  countable_codec_round_trip _.

Lemma registry_valid a r : r = 4 \/ r = 5 → valid_definitions (registry a r).
Proof. intros H. apply validate_valid. destruct a, H as [-> | ->]; vm_compute; reflexivity. Qed.

Lemma apply_refines_witness :
  let d1 := snd (apply 4 (RenamePool pool_1 "spare") (registry Enabled 4)) in
  valid_definitions d1 ∧ 5 = revision d1.
Proof.
  intros d1.
  destruct (apply_refines 4 (RenamePool pool_1 "spare") (registry Enabled 4)
              (Ok (mkMutationOutcome true 5)) d1) as (_ & Hv & _ & _ & Ho & _).
  - apply registry_valid. by left.
  - unfold d1. vm_compute. reflexivity.
  - exact (conj Hv Ho).
Defined.

Lemma apply_no_lost_update_witness :
  let d := registry Disabled 4 in
  let d1 := snd (apply 4 (SetPoolActivation pool_1 true) d) in
  apply 4 (RemovePool pool_1) d1 = (Err RevisionConflict, d1).
Proof.
  intros d d1.
  apply (apply_no_lost_update 4 (SetPoolActivation pool_1 true) _ d (mkMutationOutcome true 5)).
  - apply registry_valid. by left.
  - unfold d1. vm_compute. reflexivity.
  - reflexivity.
Defined.

Lemma enabled_pool_frozen_witness :
  let d := registry Enabled 4 in
  let d1 := snd (apply 4 (RenamePool pool_1 "spare") d) in
  ∃ p', p' ∈ pools d1 ∧
    pool_routing p' = (pool_1, dom_id, [prof "3"; prof "1"; prof "2"]).
Proof.
  intros d d1.
  apply (enabled_pool_frozen 4 (RenamePool pool_1 "spare") d (mkMutationOutcome true 5) d1
           (mkPool pool_1 "main" dom_id Enabled [prof "3"; prof "1"; prof "2"])).
  - apply registry_valid. by left.
  - unfold d1. vm_compute. reflexivity.
  - by left.
  - reflexivity.
Defined.

Lemma authorize_handoff_witness :
  authorize_handoff (registry Enabled 4) dom_id (prof "1") (prof "3") Codex
  = Ok (mkHandoffAuthorization dom_id).
Proof.
  apply (authorize_handoff_spec (registry Enabled 4)); [apply registry_valid; by left|].
  repeat split; try (vm_compute; congruence). eexists. split; [by left|].
  repeat split; vm_compute; repeat constructor.
Defined.

Lemma enabled_pool_sound_witness :
  authorize_handoff (registry Enabled 4) dom_id (prof "3") (prof "2") Codex
  = Ok (mkHandoffAuthorization dom_id).
Proof.
  destruct (enabled_pool_sound (registry Enabled 4) pool_1 (prof "3") Codex
    (mkEnabledPool pool_1 "main" dom_id "team" Codex [prof "3"; prof "1"; prof "2"]))
    as (_ & _ & _ & _ & _ & Ht).
  - apply registry_valid. by left.
  - vm_compute. reflexivity.
  - apply (Ht (prof "2")); [by right; right; left|vm_compute; congruence].
Defined.

Lemma json_round_trip_witness :
  ∃ b, to_json (registry Enabled 4) = Ok b ∧ from_json b = Ok (registry Enabled 4).
Proof.
  destruct (json_round_trip (registry Enabled 4)) as ([Hb _] & Hrt & _).
  { vm_compute. repeat split; congruence. }
  destruct Hb as [b Hb]; [apply registry_valid; by left|]. exists b.
  exact (conj Hb (proj2 (Hrt b Hb))).
Defined.
End RoutingExample.
