(* ===== verification/RoutingStore.v ===== *)
(** * The routing registry on disk and its membership checks
    (src/routing/storage.rs, src/routing/validation.rs)

    [Store::read] and [Store::commit] over the directory of [Storage], the
    readback after an uncertain commit, and the identity validation every
    membership change goes through before it is committed. *)
From S2P Require Import Prelude Interfaces Profiles Storage RoutingDefs RoutingProofs.

Open Scope Z_scope.

(** ** Errors *)

Inductive RoutingError :=
| Definition_ (e : DefinitionError)
| StorageInvalid | StorageUnavailable | CommitUncertain | UnsupportedPlatform
| ProfileMissing | ProfileProviderMismatch | ProfileBusy | ProfileInvalid
| ProfileUnavailable | IdentityUnverified | IdentityUnsupported | IdentityInvalid
| IdentityMismatch | IdentityKeyUnavailable | IdentityCommitUncertain
| DuplicateProviderIdentity.

#[export] Instance RoutingError_eq_dec : EqDecision RoutingError.
Proof. solve_decision. Defined.

Definition routing_error_code (e : RoutingError) : string :=
  match e with
  | Definition_ e => definition_error_code e
  | StorageInvalid => "routing_storage_invalid"
  | StorageUnavailable => "routing_storage_unavailable"
  | CommitUncertain => "routing_commit_uncertain"
  | UnsupportedPlatform => "unsupported_platform"
  | ProfileMissing => "routing_profile_missing"
  | ProfileProviderMismatch => "routing_profile_provider_mismatch"
  | ProfileBusy => "routing_profile_busy"
  | ProfileInvalid => "routing_profile_invalid"
  | ProfileUnavailable => "routing_profile_unavailable"
  | IdentityUnverified => "provider_identity_unverified"
  | IdentityUnsupported => "provider_identity_unsupported"
  | IdentityInvalid => "provider_identity_invalid"
  | IdentityMismatch => "provider_identity_mismatch"
  | IdentityKeyUnavailable => "identity_key_unavailable"
  | IdentityCommitUncertain => "identity_commit_uncertain"
  | DuplicateProviderIdentity => "routing_duplicate_provider_identity"
  end.

(** [From<IdentityError> for RoutingError]. *)
Definition routing_of_identity (e : IdentityError) : RoutingError :=
  match e with
  | IE_Unverified => IdentityUnverified
  | IE_Unsupported => IdentityUnsupported
  | IE_Invalid => IdentityInvalid
  | IE_Mismatch => IdentityMismatch
  | IE_KeyUnavailable => IdentityKeyUnavailable
  | IE_CommitUncertain => IdentityCommitUncertain
  | IE_Io => ProfileUnavailable
  end.

(** [From<ProfileError> for RoutingError]. *)
Definition routing_of_profile (e : ProfileError) : RoutingError :=
  match e with
  | PE_NotFound => ProfileMissing
  | PE_Busy => ProfileBusy
  | PE_DuplicateProviderIdentity => DuplicateProviderIdentity
  | PE_Identity e => routing_of_identity e
  | PE_UnsupportedPlatform => UnsupportedPlatform
  | PE_UnsafeState | PE_InvalidRegistry | PE_RegistrationRecoveryRequired
  | PE_RemovalRecoveryRequired => ProfileInvalid
  | _ => ProfileUnavailable
  end.

Definition storage_error (e : ProfileError) : RoutingError :=
  match e with
  | PE_UnsupportedPlatform => UnsupportedPlatform
  | PE_UnsafeState | PE_InvalidRegistry => StorageInvalid
  | _ => StorageUnavailable
  end.

(** ** [Store] *)

Section store.
Context {UC : UuidCrate} {JC : JsonCodec Definitions}.
Context (faults : Faults).

Abbreviation io := (io StorageUnavailable faults).
Abbreviation private := (private storage_error faults).
Abbreviation open_lock := (open_lock StorageUnavailable storage_error faults).

(** [ensure_supported]: fails on platforms without verified private storage. *)
Definition ensure_supported : stM Disk RoutingError () :=
  match faults EnsureSupported with Some _ => throw UnsupportedPlatform | None => mret () end.

(** What the bytes of the registry file mean. *)
Definition decode_registry (file : option bytes) : result RoutingError Definitions :=
  match file with
  | None => Ok default_definitions
  | Some b => map_err Definition_ (from_json b)
  end.

Definition load : stM Disk RoutingError Definitions :=
  file ← read_file StorageUnavailable storage_error faults RoutingDefs.MAX_SERIALIZED_BYTES;
  lift_result (decode_registry file).

Definition read : stM Disk RoutingError Definitions :=
  _ ← ensure_supported;
  _ ← io StatRoot;
  d ← get_st;
  if root_exists d then
    _ ← private VerifyRoot;
    _ ← open_lock;
    _ ← io LockExclusive;
    load
  else mret default_definitions.

(** The readback only confirms what became visible; either way the commit is
    reported as uncertain. *)
Definition confirm_uncertain_commit (intended_revision : Z) : stM Disk RoutingError () :=
  fun d =>
    let '(r, d) := load d in
    let _intended_revision_is_visible :=
      match r with Ok x => revision x =? intended_revision | Err _ => false end in
    (Err CommitUncertain, d).

Definition save (definitions : Definitions) : stM Disk RoutingError () :=
  b ← lift_result (map_err Definition_ (to_json definitions));
  _ ← or_remove_temporary faults
        (publish_temporary StorageUnavailable storage_error faults b);
  match faults SyncRoot with
  | Some _ => confirm_uncertain_commit (revision definitions)
  | None => mret ()
  end.

(** [definitions.apply(..)?] on the loaded document. *)
Definition apply_loaded (definitions : Definitions) (expected_revision : Z)
    (mutation : DefinitionMutation) : result RoutingError (MutationOutcome * Definitions) :=
  match apply expected_revision mutation definitions with
  | (Ok outcome, definitions) => Ok (outcome, definitions)
  | (Err e, _) => Err (Definition_ e)
  end.

Definition transact_locked (expected_revision : option Z) (mutation : DefinitionMutation)
    : stM Disk RoutingError MutationOutcome :=
  _ ← ensure_supported;
  _ ← private CreateRoot;
  _ ← modify_st set_root;
  _ ← private VerifyRoot;
  _ ← open_lock;
  _ ← io LockExclusive;
  definitions ← load;
  let expected_revision := default (revision definitions) expected_revision in
  applied ← lift_result (apply_loaded definitions expected_revision mutation);
  _ ← (if changed (fst applied) then save (snd applied) else mret ());
  mret (fst applied).

Definition commit (expected_revision : Z) (mutation : DefinitionMutation)
    : stM Disk RoutingError MutationOutcome :=
  transact_locked (Some expected_revision) mutation.
End store.

(** ** Membership validation *)

(** [MembershipSource]: resolves a profile and verifies its provider identity
    under a lease, whose proof can be compared with another one. *)
Class MembershipSource := {
  Proof_ : Type;
  same_provider_identity : Proof_ → Proof_ → bool;
  resolve : string → result RoutingError Profile;
  verify : Profile → result RoutingError Proof_;
}.

Record MembershipValidation := mkMembershipValidation {
  mv_provider : Provider;
  mv_profile_ids : list string;
}.

(** The definition whose membership a mutation establishes: [true] for a
    domain. *)
Definition membership_target (m : DefinitionMutation) : option (bool * string) :=
  match m with
  | CreateDomain id _ _ _ | ReplaceDomainMembers id _ => Some (true, id)
  | CreatePool id _ _ _ | ReplacePoolMembers id _ => Some (false, id)
  | SetPoolActivation id true => Some (false, id)
  | RenameDomain _ _ | RemoveDomain _ | RenamePool _ _ | SetPoolActivation _ false
  | RemovePool _ => None
  end.

Section membership.
Context {UC : UuidCrate} {JC : JsonCodec Definitions} {MS : MembershipSource}.

Definition membership_validation (definitions : Definitions) (mutation : DefinitionMutation)
    : result DefinitionError (option MembershipValidation) :=
  match membership_target mutation with
  | None => Ok None
  | Some (is_domain, target_id) =>
      match apply (revision definitions) mutation definitions with
      | (Err e, _) => Err e
      | (Ok _, candidate) =>
          if is_domain then
            domain ← ok_or (domain_by_id candidate target_id) NotFound;
            Ok (Some (mkMembershipValidation (domain_provider_of domain)
                        (domain_profile_ids domain)))
          else
            pool ← ok_or (pool_by_id candidate target_id) NotFound;
            provider ← domain_provider candidate (pool_trust_domain_id pool);
            Ok (Some (mkMembershipValidation provider (pool_profile_ids pool)))
      end
  end.

(** The proofs are collected in order; one identity twice is rejected. *)
Definition verify_member (proofs : list Proof_) (profile : Profile)
    : result RoutingError (list Proof_) :=
  proof ← verify profile;
  _ ← reject_if (existsb (fun existing => same_provider_identity existing proof) proofs)
        DuplicateProviderIdentity;
  Ok (proofs ++ [proof]).

Definition validate_members (validation : MembershipValidation)
    : result RoutingError (list Proof_) :=
  let profile_ids := sort_strings (mv_profile_ids validation) in
  profiles ← collect_results resolve profile_ids;
  _ ← reject_if (existsb (fun p => negb (provider_eqb (profile_provider p)
                                           (mv_provider validation))) profiles)
        ProfileProviderMismatch;
  fold_result verify_member [] profiles.

(** [preflight]: the checks without the identity probes. *)
Definition preflight (snapshot : Definitions) (mutation : DefinitionMutation)
    : result RoutingError () :=
  _ ← map_err Definition_ (membership_validation snapshot mutation);
  Ok ().

Definition mutate_snapshot (faults : Faults) (snapshot : Definitions)
    (mutation : DefinitionMutation) : stM Disk RoutingError MutationOutcome :=
  validation ← lift_result (map_err Definition_ (membership_validation snapshot mutation));
  match validation with
  | Some validation =>
      _ ← lift_result (validate_members validation);
      commit faults (revision snapshot) mutation
  | None => commit faults (revision snapshot) mutation
  end.
End membership.

(** [LiveMembershipSource]: resolution looks the profile up in the list that
    was read with the registry; verification is the identity probe of a live
    Codex profile, whose revalidated profile must still have its alias. *)
Definition live_resolve (profiles : list Profile) (pid : string) : result RoutingError Profile :=
  ok_or (find_first (fun p => String.eqb (profile_id p) pid) profiles) ProfileMissing.

Definition live_resolve_alias (profiles : list Profile) (provider : Provider) (alias : string)
    : result RoutingError Profile :=
  ok_or (find_first (fun p => provider_eqb (profile_provider p) provider
                              && String.eqb (profile_alias p) alias) profiles) ProfileMissing.

Section live_source.
Context {Lease : Type}.
(** [Registry::revalidate_codex_identity]: the lease and the profile it was
    taken for. *)
Context (revalidate_codex_identity : Profile → result ProfileError (Profile * Lease)).

Definition live_verify (executable neutral_working_directory : option string)
    (profile : Profile) : result RoutingError (Profile * Lease) :=
  match executable, neutral_working_directory with
  | Some _, Some _ =>
      verified ← map_err routing_of_profile (revalidate_codex_identity profile);
      if negb (String.eqb (profile_alias (fst verified)) (profile_alias profile))
      then Err ProfileMissing else Ok verified
  | _, _ => Err IdentityUnsupported
  end.
End live_source.

(** * Theorems *)

Section store_theorems.
Context {UC : UuidCrate} {JC : JsonCodec Definitions}.

(** The registry a directory holds. *)
Definition stored (disk : Disk) : result RoutingError Definitions :=
  decode_registry (read_limited RoutingDefs.MAX_SERIALIZED_BYTES <$> published disk).

Lemma load_spec faults disk r disk' :
  load faults disk = (r, disk') →
  disk' = disk ∧ match r with Ok d => stored disk = Ok d | Err _ => True end.
Proof.
  unfold load. run_st. destruct (read_file _ _ _ _ _) as [[o|e] d1] eqn:H; intros [= <- <-];
    apply read_file_spec in H as [-> H]; [|done]. split; [done|].
  unfold stored. rewrite <- H. by destruct (decode_registry o).
Qed.

Lemma save_spec faults d disk r disk' :
  save faults d disk = (r, disk') →
  (published disk' = published disk ∧ is_ok r = false) ∨
  (∃ b, to_json d = Ok b ∧ published disk' = Some b ∧
    (r = Ok () ∨ r = Err CommitUncertain)).
Proof.
  unfold save. run_st. destruct (to_json d) as [b|e] eqn:Hb; cbn [map_err].
  2:{ intros [= <- <-]. by left. }
  destruct (or_remove_temporary _ _ _) as [[u|e] d1] eqn:H; apply publish_spec in H as (Hp & _).
  - destruct (faults SyncRoot) eqn:Hs.
    + unfold confirm_uncertain_commit. destruct (load faults d1) as [x d2] eqn:Hl.
      intros [= <- <-]. apply load_spec in Hl as [-> _]. right. exists b. auto.
    + intros [= <- <-]. right. exists b. auto.
  - intros [= <- <-]. by left.
Qed.

(** Everything before the document is loaded. *)
Definition transact_prefix (faults : Faults) : stM Disk RoutingError () :=
  _ ← ensure_supported faults;
  _ ← private storage_error faults CreateRoot;
  _ ← modify_st set_root;
  _ ← private storage_error faults VerifyRoot;
  _ ← open_lock StorageUnavailable storage_error faults;
  io StorageUnavailable faults LockExclusive.

Lemma transact_prefix_keeps faults : keeps_published (transact_prefix faults).
Proof.
  unfold transact_prefix. keeps. unfold ensure_supported.
  destruct (faults _); by intros d r d' [= <- <-].
Qed.

Lemma commit_unfold faults e m disk :
  commit faults e m disk =
  (_ ← transact_prefix faults;
   definitions ← load faults;
   applied ← lift_result (apply_loaded definitions e m);
   _ ← (if changed (fst applied) then save faults (snd applied) else mret ());
   mret (fst applied)) disk.
Proof.
  unfold commit, transact_locked, transact_prefix. cbv [mbind stM_bind].
  repeat (case_match; simplify_eq/=); done.
Qed.

(** A commit either leaves the published registry alone or replaces it by the
    result of the mutation; only then can it be reported as done with a
    change, or as uncertain. *)
Lemma commit_cases faults e m disk r disk' :
  commit faults e m disk = (r, disk') →
  (published disk' = published disk ∧ (∀ o, r = Ok o → changed o = false)) ∨
  (∃ d o d' b, stored disk = Ok d ∧ apply e m d = (Ok o, d') ∧ changed o = true ∧
    to_json d' = Ok b ∧ published disk' = Some b ∧ (r = Ok o ∨ r = Err CommitUncertain)).
Proof.
  rewrite commit_unfold. run_st. destruct (transact_prefix faults disk) as [[u|er] d1] eqn:Hp.
  2:{ intros [= <- <-]. apply transact_prefix_keeps in Hp as ->. by left. }
  apply transact_prefix_keeps in Hp.
  destruct (load faults d1) as [[d|er] d2] eqn:Hl; apply load_spec in Hl as [-> Hl].
  2:{ intros [= <- <-]. by left. }
  unfold stored in *. rewrite Hp in Hl. unfold apply_loaded.
  destruct (apply e m d) as [[o|er] d'] eqn:Ha; cbn [fst snd].
  2:{ intros [= <- <-]. by left. }
  destruct (changed o) eqn:Hc.
  - destruct (save faults d' d1) as [[u'|er] d3] eqn:Hs;
      apply save_spec in Hs as [[Hs1 Hs2]|(b & Hb & Hpub & Hr)]; cbn [is_ok] in *; try done.
    + intros [= <- <-]. right. exists d, o, d', b. auto 10.
    + intros [= <- <-]. left. split; [congruence|done].
    + intros [= <- <-]. right. exists d, o, d', b. destruct Hr as [|[= ->]]; [done|]. auto 10.
  - intros [= <- <-]. left. split; [done|]. by intros ? [= <-].
Qed.

Context {JL : JsonRoundTrip Definitions definitions_in_range}.

Lemma stored_keyed disk d : stored disk = Ok d → keyed_registry d ∧ definitions_in_range d.
Proof.
  unfold stored, decode_registry. destruct (published disk) as [b|]; cbn.
  - unfold from_json. intros H. inv_ok. apply validate_valid in Hok1. split.
    + by apply valid_keyed.
    + by eapply from_slice_in_range.
  - intros [= <-]. split; [split; constructor|].
    unfold definitions_in_range, u8_max, u64_max. cbn. unfold SCHEMA_VERSION. lia.
Qed.

Lemma apply_in_range e m d o d' : keyed_registry d → definitions_in_range d →
  apply e m d = (Ok o, d') → definitions_in_range d' ∧ revision d <= revision d'.
Proof.
  intros Hk Hr H. apply apply_Ok in H as (_ & b & c & Hm & H).
  apply apply_mutation_refines in Hm as (_ & _ & Hrev & _); [|done].
  destruct Hr as [? ?]. destruct b.
  - destruct H as (? & -> & Hv & _). split; [|cbn; lia]. split; [|cbn; lia].
    rewrite (v_schema _ Hv). unfold SCHEMA_VERSION, u8_max. lia.
  - destruct H as (-> & _ & _). split; [done|lia].
Qed.

Lemma stored_written disk d b :
  definitions_in_range d → to_json d = Ok b → published disk = Some b → stored disk = Ok d.
Proof.
  intros Hr Hb Hp. unfold stored. rewrite Hp. cbn.
  unfold to_json, serialize_document in Hb. inv_ok. inv_bool. apply validate_valid in Hok as Hv.
  unfold read_limited. rewrite take_ge by (unfold len in *; lia).
  unfold from_json. rewrite (proj2 (Z.ltb_ge _ _)) by done. cbn.
  rewrite (from_slice_to_vec _ _ Hr Hok0). cbn. by rewrite (valid_validate _ Hv).
Qed.

(** C3: a commit is atomic under any storage fault. Whatever step fails, the
    registry the directory holds afterwards is the old one or the complete
    result of applying the mutation to it; the caller is told of success only
    with the result in place, and a visible result that could not be made
    durable is reported as an uncertain commit and as nothing else. *)
Theorem commit_atomic faults e m disk r disk' d :
  stored disk = Ok d → commit faults e m disk = (r, disk') →
  ∃ d', stored disk' = Ok d' ∧
    match r with
    | Ok o => changed o = false ∧ d' = d ∨ changed o = true ∧ apply e m d = (Ok o, d')
    | Err CommitUncertain => d' = d ∨ ∃ o, apply e m d = (Ok o, d')
    | Err _ => d' = d
    end.
Proof.
  intros Hd H. apply commit_cases in H as
    [[Hp Ho]|(d0 & o & d' & b & Hd0 & Ha & Hc & Hb & Hp & Hr)].
  - exists d. unfold stored in *. rewrite Hp. split; [done|].
    destruct r as [o|[]]; auto.
  - rewrite Hd in Hd0. injection Hd0 as <-. exists d'.
    destruct (stored_keyed _ _ Hd) as [Hk Hir].
    destruct (apply_in_range _ _ _ _ _ Hk Hir Ha) as [Hir' _].
    split; [by eapply stored_written|]. destruct Hr as [-> | ->]; eauto.
Qed.

(** A history of commits of any writers, each under its own faults. *)
Fixpoint run_commits (l : list (Faults * Z * DefinitionMutation)) (disk : Disk) : Disk :=
  match l with
  | [] => disk
  | (faults, e, m) :: l => run_commits l (snd (commit faults e m disk))
  end.

(** over any history of commits by any number of writers, with any
    faults, a readable registry stays readable and its revision never goes
    back. *)
Lemma commits_keep_registry l disk d :
  stored disk = Ok d →
  ∃ d', stored (run_commits l disk) = Ok d' ∧ revision d <= revision d'.
Proof.
  revert disk d; induction l as [|[[faults e] m] l IH]; intros disk d Hd; cbn [run_commits].
  { exists d. by split. }
  destruct (commit faults e m disk) as [r disk1] eqn:H. cbn [snd].
  apply commit_cases in H as [[Hp _]|(d0 & o & d1 & b & Hd0 & Ha & _ & Hb & Hp & _)].
  - apply IH. unfold stored in *. by rewrite Hp.
  - rewrite Hd in Hd0. injection Hd0 as <-.
    destruct (stored_keyed _ _ Hd) as [Hk Hir].
    destruct (apply_in_range _ _ _ _ _ Hk Hir Ha) as [Hir' Hle].
    destruct (IH disk1 d1) as (d' & Hd' & Hle'); [by eapply stored_written|].
    exists d'. split; [done|]. lia.
Qed.
End store_theorems.

Section membership_theorems.
Context {UC : UuidCrate} {JC : JsonCodec Definitions} {MS : MembershipSource}.

(** Every profile has been verified, and no two of the proofs are of one
    provider identity. *)
Definition distinct_identities (profiles : list Profile) (proofs : list Proof_) : Prop :=
  Forall2 (fun p proof => verify p = Ok proof) profiles proofs ∧
  ForallOrdPairs (fun a b => same_provider_identity a b = false) proofs.

Lemma ordered_pairs_snoc {A} (R : A → A → Prop) l x :
  ForallOrdPairs R l → Forall (fun y => R y x) l → ForallOrdPairs R (l ++ [x]).
Proof.
  induction 1 as [|y l Hy H IH]; cbn; intros Hx; [by repeat constructor|].
  apply Forall_cons in Hx as [Hyx Hx]. constructor; [|by apply IH].
  apply Forall_app. split; [done|]. by constructor.
Qed.

Lemma verify_loop_spec profiles proofs done_ profs :
  distinct_identities done_ proofs →
  fold_result verify_member proofs profiles = Ok profs →
  distinct_identities (done_ ++ profiles) profs.
Proof.
  revert proofs done_; induction profiles as [|p l IH]; intros proofs done_ [Hv Hd] H; cbn in H.
  { injection H as <-. by rewrite app_nil_r. }
  inv_ok. unfold verify_member in Hok. inv_ok.
  replace (done_ ++ p :: l) with ((done_ ++ [p]) ++ l) by by rewrite <- app_assoc.
  eapply IH; [|done]. split.
  - apply Forall2_app; [done|]. by repeat constructor.
  - apply ordered_pairs_snoc; [done|]. rewrite existsb_false in Hok1.
    by apply Forall_forall.
Qed.

Lemma validate_members_spec v proofs :
  validate_members v = Ok proofs →
  ∃ profiles,
    Forall2 (fun pid p => resolve pid = Ok p) (sort_strings (mv_profile_ids v)) profiles ∧
    Forall (fun p => profile_provider p = mv_provider v) profiles ∧
    distinct_identities profiles proofs.
Proof.
  unfold validate_members. intros H. inv_ok. exists a.
  apply collect_results_Ok in Hok. rewrite existsb_false in Hok0.
  repeat split_and; [done|..].
  - apply Forall_forall. intros p Hp. specialize (Hok0 p Hp). cbn in Hok0. inv_bool.
    by apply provider_eqb_true.
  - by apply (verify_loop_spec _ [] []) in H; [|split; constructor].
Qed.

(** The members a definition has after a mutation. *)
Definition established_members (d : Definitions) (is_domain : bool) (id : string)
    (v : MembershipValidation) : Prop :=
  if is_domain then
    ∃ x, domain_by_id d id = Some x ∧ v = mkMembershipValidation (domain_provider_of x) (domain_profile_ids x)
  else
    ∃ p provider, pool_by_id d id = Some p ∧ domain_provider d (pool_trust_domain_id p) = Ok provider ∧
      v = mkMembershipValidation provider (pool_profile_ids p).

Lemma membership_validation_spec d m v :
  membership_validation d m = Ok (Some v) →
  ∃ is_domain id o candidate, membership_target m = Some (is_domain, id) ∧
    apply (revision d) m d = (Ok o, candidate) ∧ established_members candidate is_domain id v.
Proof.
  unfold membership_validation. destruct (membership_target m) as [[is_domain id]|]; [|done].
  destruct (apply _ _ _) as [[o|e] candidate] eqn:Ha; [|done]. intros H.
  exists is_domain, id, o, candidate. split_and!; [done..|].
  destruct is_domain; inv_ok.
  - by exists a.
  - by exists a, a0.
Qed.

(** no unverified membership is committed. When a mutation that sets the
    members of a domain or a pool, or enables a pool, is accepted from a
    snapshot, every member of the resulting definition resolved to a profile
    of its provider and was verified, and no two members share one provider
    identity; and the registry it was applied to has the snapshot's revision. *)
Lemma mutate_snapshot_verified faults snapshot m disk o disk' target :
  membership_target m = Some target →
  mutate_snapshot faults snapshot m disk = (Ok o, disk') →
  (∃ o' candidate v profiles proofs, apply (revision snapshot) m snapshot = (Ok o', candidate) ∧
     established_members candidate target.1 target.2 v ∧
     Forall2 (fun pid p => resolve pid = Ok p) (sort_strings (mv_profile_ids v)) profiles ∧
     Forall (fun p => profile_provider p = mv_provider v) profiles ∧
     distinct_identities profiles proofs) ∧
  (changed o = true → ∃ d, stored disk = Ok d ∧ revision d = revision snapshot).
Proof.
  intros Ht H. unfold mutate_snapshot in H. run_st in H.
  destruct (membership_validation snapshot m) as [[v|]|] eqn:Hv; cbn [map_err] in H; [| |done].
  2:{ unfold membership_validation in Hv. rewrite Ht in Hv. destruct target as [[] ?];
      destruct (apply _ _ _) as [[]]; by inv_ok. }
  destruct (validate_members v) as [proofs|] eqn:Hm; [|done].
  apply membership_validation_spec in Hv as (is_domain & id & o' & c & Ht' & Ha & He).
  apply validate_members_spec in Hm as (profiles & ? & ? & ?).
  rewrite Ht in Ht'. injection Ht' as ->. split; [by exists o', c, v, profiles, proofs|].
  intros Hc. apply commit_cases in H as [[_ Ho]|(d & o1 & d' & b & Hd & Ha' & _)].
  - specialize (Ho o eq_refl). congruence.
  - exists d. split; [done|]. by apply apply_Ok in Ha' as [-> _].
Qed.
End membership_theorems.

(** ** Concrete runs *)

Module StoreExample.
Import RoutingExample.

Definition empty_disk : Disk := mkDisk false false None None.
Definition create_team : DefinitionMutation :=
  CreateDomain dom_id "team" Codex [prof "2"; prof "1"].
(** The directory sync after the rename fails. *)
Definition sync_fails : Faults := fun s => match s with SyncRoot => Some PE_Io | _ => None end.

Definition profile_of (pid : string) : Profile := mkProfile pid ("p" +:+ pid) Codex 0.
#[export] Instance source : MembershipSource := {|
  Proof_ := string;
  same_provider_identity := String.eqb;
  resolve pid := Ok (profile_of pid);
  verify p := Ok (profile_id p);
|}.

Lemma commit_atomic_witness :
  let disk := snd (commit sync_fails 0 create_team empty_disk) in
  ∃ d', stored disk = Ok d'.
Proof.
  intros disk.
  destruct (commit_atomic sync_fails 0 create_team empty_disk (Err CommitUncertain) disk
              default_definitions) as (d' & Hd & _).
  - reflexivity.
  - unfold disk. vm_compute. reflexivity.
  - by exists d'.
Defined.

Lemma commits_keep_registry_witness :
  ∃ d', stored (run_commits [(sync_fails, 0, create_team); (no_faults, 0, create_team)] empty_disk)
        = Ok d' ∧ 0 <= revision d'.
Proof. apply (commits_keep_registry _ empty_disk default_definitions). reflexivity. Defined.

Lemma mutate_snapshot_verified_witness :
  let disk := snd (mutate_snapshot no_faults default_definitions create_team empty_disk) in
  ∃ d, stored empty_disk = Ok d ∧ revision d = revision default_definitions.
Proof.
  intros disk.
  destruct (mutate_snapshot_verified no_faults default_definitions create_team empty_disk
              (mkMutationOutcome true 1) disk (true, dom_id)) as (_ & H).
  - reflexivity.
  - unfold disk. vm_compute. reflexivity.
  - by apply H.
Defined.
End StoreExample.
