(* ===== verification/UsageCache.v ===== *)
(** * Usage observations (src/usage_observations.rs, and the normalised usage
    types of src/providers/codex.rs)

    The bounded cache of provider quota evidence: the policy, the document
    with its entries and audit trail, the three observations that change it,
    the conservative view, the refresh plan, validation, and the store that
    persists it. [UsageProofs] has the theorems. *)
From Stdlib Require Import Ascii.
From S2P Require Import Prelude Interfaces Profiles Storage.

Open Scope Z_scope.

Definition CACHE_SCHEMA_VERSION : Z := 1.
Definition MAX_SERIALIZED_BYTES : Z := 2 * 1024 * 1024.
Definition MAX_ENTRIES : Z := 512.
Definition MAX_AUDIT_EVENTS : Z := 512.
Definition MAX_RATE_LIMIT_BUCKETS : Z := 64.
Definition MAX_RESET_CREDIT_DETAILS : Z := 64.
Definition MAX_TEXT_BYTES : Z := 256.
Definition MAX_DECIMAL_BYTES : Z := 128.
Definition MAX_VERSION_BYTES : Z := 64.
Definition MAX_PROVIDER_TIMESTAMP_SECONDS : Z := 253402300799.

(** [env!("CARGO_PKG_VERSION")]: the package version of Cargo.toml. *)
Definition CARGO_PKG_VERSION : string := "0.1.0-alpha.5".

(** ** Normalised usage *)

Record RateLimitWindow := mkWindow {
  used_percent : Z;
  window_remaining_percent : Z;
  window_duration_mins : option Z;
  window_resets_at : option Z;
}.

Record CreditsSnapshot := mkCredits {
  has_credits : bool;
  unlimited : bool;
  balance : option string;
}.

Record SpendControlLimitSnapshot := mkSpendControl {
  spend_limit : string;
  spend_used : string;
  spend_remaining_percent : Z;
  spend_resets_at : Z;
}.

Record ResetCreditDetail := mkResetDetail {
  granted_at : Z;
  detail_expires_at : option Z;
  reset_type : string;
  detail_status : string;
}.

Record ResetCredits := mkResetCredits {
  available_count : Z;
  details : option (list ResetCreditDetail);
}.

Record RateLimitSnapshot := mkSnapshot {
  limit_id : option string;
  limit_name : option string;
  plan_type : option string;
  rate_limit_reached_type : option string;
  primary : option RateLimitWindow;
  secondary : option RateLimitWindow;
  credits : option CreditsSnapshot;
  individual_limit : option SpendControlLimitSnapshot;
}.

(** [rate_limits_by_limit_id] is a [BTreeMap]: its entries in key order. *)
Record CodexUsage := mkUsage {
  rate_limits : option RateLimitSnapshot;
  rate_limits_by_limit_id : list (string * RateLimitSnapshot);
  reset_credits : option ResetCredits;
}.

Inductive CodexCompatibilityStatus := Compatible | Incompatible | Unverified.

Inductive CodexUsageError :=
| UE_Unsupported | UE_Protocol | UE_Authentication | UE_Timeout | UE_Transport
| UE_Provider | UE_Spawn.

(** ** The cache document *)

Record ObservationPolicy := mkPolicy {
  fresh_ttl_seconds : Z;
  retry_base_seconds : Z;
  retry_max_seconds : Z;
  max_idle_refresh : Z;
}.

Inductive ObservationError :=
| InvalidInput | InvalidDocument | LimitExceeded | StorageUnavailable | UnsupportedPlatform.

Inductive Availability :=
| AvAvailable | AvExhausted | AvStale | AvUnsupported | AvUnknown.
Inductive Freshness := FrFresh | FrStale | FrRevalidationRequired | FrUnknown.
Inductive ObservationSource := ActiveMonitor | IdleRead | UsageLimitSignal.
Inductive StoredAvailability := SAvailable | SExhausted | SUnknown | SUnsupported.
Inductive AuditKind := UsageAccepted | FailureObserved | RevalidationRequired | OutOfOrderIgnored.
Inductive StoredFailure :=
| SF_Unsupported | SF_Protocol | SF_Authentication | SF_Timeout | SF_Transport
| SF_Provider | SF_Spawn.

#[export] Instance Compat_eq_dec : EqDecision CodexCompatibilityStatus.
Proof. solve_decision. Defined.
#[export] Instance ObservationError_eq_dec : EqDecision ObservationError.
Proof. solve_decision. Defined.
#[export] Instance Availability_eq_dec : EqDecision Availability.
Proof. solve_decision. Defined.
#[export] Instance Freshness_eq_dec : EqDecision Freshness.
Proof. solve_decision. Defined.
#[export] Instance Source_eq_dec : EqDecision ObservationSource.
Proof. solve_decision. Defined.
#[export] Instance StoredAvailability_eq_dec : EqDecision StoredAvailability.
Proof. solve_decision. Defined.
#[export] Instance StoredFailure_eq_dec : EqDecision StoredFailure.
Proof. solve_decision. Defined.

Definition availability_label (a : Availability) : string :=
  match a with
  | AvAvailable => "available" | AvExhausted => "exhausted" | AvStale => "stale"
  | AvUnsupported => "unsupported" | AvUnknown => "unknown"
  end.
Definition freshness_label (f : Freshness) : string :=
  match f with
  | FrFresh => "fresh" | FrStale => "stale"
  | FrRevalidationRequired => "revalidation_required" | FrUnknown => "unknown"
  end.
Definition source_label (s : ObservationSource) : string :=
  match s with
  | ActiveMonitor => "codex_active_monitor" | IdleRead => "codex_app_server"
  | UsageLimitSignal => "codex_usage_limit_signal"
  end.
Definition is_authoritative_usage (s : ObservationSource) : bool :=
  match s with ActiveMonitor | IdleRead => true | UsageLimitSignal => false end.

(** [From<CodexUsageError> for StoredFailure]. *)
Definition stored_failure (e : CodexUsageError) : StoredFailure :=
  match e with
  | UE_Unsupported => SF_Unsupported | UE_Protocol => SF_Protocol
  | UE_Authentication => SF_Authentication | UE_Timeout => SF_Timeout
  | UE_Transport => SF_Transport | UE_Provider => SF_Provider | UE_Spawn => SF_Spawn
  end.

Record CacheEntry := mkEntry {
  ce_profile_id : string;
  ce_availability : StoredAvailability;
  ce_observed_at : Z;
  ce_latest_event_at : Z;
  ce_expires_at : option Z;
  ce_source : ObservationSource;
  ce_codex_version : option string;
  ce_adapter_version : string;
  ce_compatibility : CodexCompatibilityStatus;
  ce_usage : option CodexUsage;
  ce_revalidation_required_at : option Z;
  ce_consecutive_failures : Z;
  ce_next_refresh_at : Z;
  ce_last_failure : option StoredFailure;
}.

Record AuditEvent := mkAudit {
  au_revision : Z;
  au_profile_id : string;
  au_observed_at : Z;
  au_source : ObservationSource;
  au_kind : AuditKind;
  au_availability : StoredAvailability;
}.

Record CacheDocument := mkCache {
  cache_schema_version : Z;
  cache_revision : Z;
  entries : list CacheEntry;
  audit : list AuditEvent;
}.

Definition default_cache : CacheDocument := mkCache CACHE_SCHEMA_VERSION 0 [] [].

Record UsageView := mkView {
  uv_availability : Availability;
  uv_freshness : Freshness;
  uv_observed_at : Z;
  uv_source : ObservationSource;
  uv_codex_version : option string;
  uv_adapter_version : string;
  uv_compatibility : CodexCompatibilityStatus;
  uv_usage : option CodexUsage;
  uv_next_refresh_at : Z;
}.

(** ** The policy *)

Definition default_policy : ObservationPolicy := mkPolicy 60 5 300 4.

Definition policy_validate (p : ObservationPolicy) : result ObservationError () :=
  reject_if ((fresh_ttl_seconds p <=? 0) || (retry_base_seconds p <=? 0)
             || (retry_max_seconds p <? retry_base_seconds p)
             || (max_idle_refresh p =? 0) || (MAX_ENTRIES <? max_idle_refresh p)) InvalidInput.

(** [.filter(|value| *value <= MAX_PROVIDER_TIMESTAMP_SECONDS)]. *)
Definition within_provider_time (o : option Z) : option Z :=
  match o with
  | Some v => if v <=? MAX_PROVIDER_TIMESTAMP_SECONDS then Some v else None
  | None => None
  end.

Definition expiry (p : ObservationPolicy) (observed_at : Z) : result ObservationError Z :=
  ok_or (within_provider_time (checked_add_i64 observed_at (fresh_ttl_seconds p))) InvalidInput.

(** [1_i64.checked_shl(shift)]: the shift is at most 30 here. *)
Definition retry_delay (p : ObservationPolicy) (consecutive_failures : Z) : Z :=
  let shift := Z.min (saturating_sub_u consecutive_failures 1) 30 in
  let multiplier := Z.shiftl 1 shift in
  Z.min (saturating_mul_i64 (retry_base_seconds p) multiplier) (retry_max_seconds p).

Definition retry_at (p : ObservationPolicy) (observed_at consecutive_failures : Z)
    : result ObservationError Z :=
  ok_or (within_provider_time
           (checked_add_i64 observed_at (retry_delay p consecutive_failures))) InvalidInput.

(** ** Input validation *)

(** [chars().any(char::is_control)] on UTF-8 bytes: C0, DEL and the C1 range,
    whose two-byte encodings start with [0xC2]. *)
Fixpoint has_control (l : list ascii) : bool :=
  match l with
  | [] => false
  | c :: l' =>
      let n := nat_of_ascii c in
      Nat.ltb n 32 || Nat.eqb n 127
      || (Nat.eqb n 194 && match l' with d :: _ => byte_in 128 159 d | [] => false end)
      || has_control l'
  end.

Definition validate_text (value : string) (max_bytes : Z) : result ObservationError () :=
  reject_if (String.eqb value "" || (max_bytes <? str_len value) || has_control (str_bytes value))
    InvalidInput.

Definition validate_version (value : string) : result ObservationError () :=
  validate_text value MAX_VERSION_BYTES.

Definition validate_timestamp (value : Z) : result ObservationError () :=
  reject_if (negb ((0 <=? value) && (value <=? MAX_PROVIDER_TIMESTAMP_SECONDS))) InvalidInput.

(** [if let Some(x) = o { body(x)? }]. *)
Definition if_some {E A} (o : option A) (body : A → result E ()) : result E () :=
  match o with Some a => body a | None => Ok () end.

Definition windows (s : RateLimitSnapshot) : list RateLimitWindow :=
  omap id [primary s; secondary s].

Definition validate_snapshot (s : RateLimitSnapshot) : result ObservationError () :=
  _ ← for_each (fun v => validate_text v MAX_TEXT_BYTES)
        (omap id [limit_id s; limit_name s; plan_type s; rate_limit_reached_type s]);
  _ ← for_each (fun w =>
        _ ← reject_if (100 <? window_remaining_percent w) InvalidDocument;
        if_some (window_resets_at w) validate_timestamp) (windows s);
  _ ← if_some (credits s) (fun c =>
        if_some (balance c) (fun b => validate_text b MAX_DECIMAL_BYTES));
  if_some (individual_limit s) (fun l =>
    _ ← validate_text (spend_limit l) MAX_DECIMAL_BYTES;
    _ ← validate_text (spend_used l) MAX_DECIMAL_BYTES;
    _ ← reject_if (100 <? spend_remaining_percent l) InvalidDocument;
    validate_timestamp (spend_resets_at l)).

Definition validate_detail (d : ResetCreditDetail) : result ObservationError () :=
  _ ← validate_timestamp (granted_at d);
  _ ← if_some (detail_expires_at d) (fun e =>
        _ ← validate_timestamp e;
        reject_if (e <? granted_at d) InvalidDocument);
  _ ← validate_text (reset_type d) MAX_TEXT_BYTES;
  validate_text (detail_status d) MAX_TEXT_BYTES.

Definition validate_usage (u : CodexUsage) : result ObservationError () :=
  _ ← reject_if (MAX_RATE_LIMIT_BUCKETS <? len (rate_limits_by_limit_id u)) LimitExceeded;
  _ ← if_some (rate_limits u) validate_snapshot;
  _ ← for_each (fun '(key, s) =>
        _ ← validate_text key MAX_TEXT_BYTES;
        validate_snapshot s) (rate_limits_by_limit_id u);
  if_some (reset_credits u) (fun r =>
    if_some (details r) (fun ds =>
      _ ← reject_if (MAX_RESET_CREDIT_DETAILS <? len ds) LimitExceeded;
      for_each validate_detail ds)).

(** ** Classification *)

Definition is_explicit_exhaustion (value : string) : bool :=
  existsb (String.eqb value)
    ["rate_limit_reached"; "workspace_owner_credits_depleted";
     "workspace_member_credits_depleted"; "workspace_owner_usage_limit_reached";
     "workspace_member_usage_limit_reached"].

Definition snapshots (u : CodexUsage) : list RateLimitSnapshot :=
  option_list (rate_limits u) ++ (rate_limits_by_limit_id u).*2.

Definition spend_control_reached (s : RateLimitSnapshot) : bool :=
  match individual_limit s with Some l => spend_remaining_percent l =? 0 | None => false end.

Fixpoint classify_loop (l : list RateLimitSnapshot) (saw_window saw_rounded_full_window : bool)
    : StoredAvailability :=
  match l with
  | [] => if saw_window && negb saw_rounded_full_window then SAvailable else SUnknown
  | s :: l =>
      match rate_limit_reached_type s with
      | Some reached_type => if is_explicit_exhaustion reached_type then SExhausted else SUnknown
      | None =>
          if spend_control_reached s then SUnknown else
          classify_loop l
            (saw_window || negb (bool_decide (windows s = [])))
            (saw_rounded_full_window || existsb (fun w => 100 <=? used_percent w) (windows s))
      end
  end.

Definition classify (u : CodexUsage) : StoredAvailability :=
  classify_loop (snapshots u) false false.

(** ** Operations of the document *)

Section cache.
Context {UC : UuidCrate}.

Definition validate_profile_id (pid : string) : result ObservationError () :=
  parsed ← ok_or (parse_str pid) InvalidInput;
  reject_if (negb (String.eqb (uuid_to_string parsed) pid)) InvalidInput.

Definition entry (self : CacheDocument) (pid : string) : option CacheEntry :=
  find_first (fun e => String.eqb (ce_profile_id e) pid) (entries self).

Definition is_out_of_order (self : CacheDocument) (pid : string) (observed_at : Z) : bool :=
  match entry self pid with Some e => observed_at <? ce_latest_event_at e | None => false end.

Definition set_entries (es : list CacheEntry) (d : CacheDocument) : CacheDocument :=
  mkCache (cache_schema_version d) (cache_revision d) es (audit d).

Definition sort_entries : list CacheEntry → list CacheEntry :=
  sort_by (fun l r => str_le (ce_profile_id l) (ce_profile_id r)).

Definition replace_entry (e : CacheEntry) : stM CacheDocument ObservationError () :=
  self ← get_st;
  match entry self (ce_profile_id e) with
  | Some _ =>
      modify_st (set_entries
        (update_first (fun x => String.eqb (ce_profile_id x) (ce_profile_id e))
           (fun _ => e) (entries self)))
  | None =>
      _ ← lift_result (reject_if (MAX_ENTRIES <=? len (entries self)) LimitExceeded);
      modify_st (set_entries (sort_entries (entries self ++ [e])))
  end.

(** [audit.drain(..len - MAX)]: the oldest events go. *)
Definition bounded_audit (l : list AuditEvent) : list AuditEvent :=
  if MAX_AUDIT_EVENTS <? len l then drop (Z.to_nat (len l - MAX_AUDIT_EVENTS)) l else l.

Definition push_audit (pid : string) (source : ObservationSource) (observed_at : Z)
    (kind : AuditKind) (availability : StoredAvailability)
    : stM CacheDocument ObservationError () :=
  self ← get_st;
  rev ← lift_result (ok_or (checked_add_u u64_max (cache_revision self) 1) LimitExceeded);
  put_st (mkCache (cache_schema_version self) rev (entries self)
            (bounded_audit (audit self ++ [mkAudit rev pid observed_at source kind availability]))).

Definition audit_ignored (pid : string) (source : ObservationSource) (observed_at : Z)
    : stM CacheDocument ObservationError () :=
  self ← get_st;
  let availability :=
    match entry self pid with Some e => ce_availability e | None => SUnknown end in
  push_audit pid source observed_at OutOfOrderIgnored availability.

Definition observe_usage (pid : string) (source : ObservationSource) (codex_version : string)
    (usage : CodexUsage) (observed_at : Z) (policy : ObservationPolicy)
    : stM CacheDocument ObservationError () :=
  _ ← lift_result (validate_profile_id pid);
  _ ← lift_result (validate_timestamp observed_at);
  _ ← lift_result (validate_version codex_version);
  _ ← lift_result (validate_usage usage);
  _ ← lift_result (policy_validate policy);
  self ← get_st;
  if is_out_of_order self pid observed_at then audit_ignored pid source observed_at else
  let availability := classify usage in
  expires_at ← lift_result (expiry policy observed_at);
  _ ← replace_entry {|
        ce_profile_id := pid;
        ce_availability := availability;
        ce_observed_at := observed_at;
        ce_latest_event_at := observed_at;
        ce_expires_at := Some expires_at;
        ce_source := source;
        ce_codex_version := Some codex_version;
        ce_adapter_version := CARGO_PKG_VERSION;
        ce_compatibility := Compatible;
        ce_usage := Some usage;
        ce_revalidation_required_at := None;
        ce_consecutive_failures := 0;
        ce_next_refresh_at := expires_at;
        ce_last_failure := None |};
  push_audit pid source observed_at UsageAccepted availability.

(** The entry after a failure: an older snapshot is kept as stale evidence
    unless the provider is unsupported. *)
Definition failure_entry (pid : string) (source : ObservationSource)
    (codex_version : option string) (compatibility : CodexCompatibilityStatus)
    (failure : StoredFailure) (observed_at failures next_refresh_at : Z)
    (previous : option CacheEntry) : CacheEntry :=
  let fresh := {|
    ce_profile_id := pid;
    ce_availability :=
      if bool_decide (failure = SF_Unsupported) then SUnsupported else SUnknown;
    ce_observed_at := observed_at;
    ce_latest_event_at := observed_at;
    ce_expires_at := None;
    ce_source := source;
    ce_codex_version := codex_version;
    ce_adapter_version := CARGO_PKG_VERSION;
    ce_compatibility := compatibility;
    ce_usage := None;
    ce_revalidation_required_at := None;
    ce_consecutive_failures := failures;
    ce_next_refresh_at := next_refresh_at;
    ce_last_failure := Some failure |} in
  match previous with
  | Some p =>
      match ce_usage p with
      | Some u =>
          if bool_decide (failure = SF_Unsupported) then fresh else {|
            ce_profile_id := ce_profile_id p;
            ce_availability := ce_availability p;
            ce_observed_at := ce_observed_at p;
            ce_latest_event_at := observed_at;
            ce_expires_at := ce_expires_at p;
            ce_source := ce_source p;
            ce_codex_version := ce_codex_version p;
            ce_adapter_version := ce_adapter_version p;
            ce_compatibility := ce_compatibility p;
            ce_usage := Some u;
            ce_revalidation_required_at := None;
            ce_consecutive_failures := failures;
            ce_next_refresh_at := next_refresh_at;
            ce_last_failure := Some failure |}
      | None => fresh
      end
  | None => fresh
  end.

Definition observe_failure (pid : string) (source : ObservationSource)
    (codex_version : option string) (compatibility : CodexCompatibilityStatus)
    (failure : CodexUsageError) (observed_at : Z) (policy : ObservationPolicy)
    : stM CacheDocument ObservationError () :=
  _ ← lift_result (validate_profile_id pid);
  _ ← lift_result (validate_timestamp observed_at);
  _ ← lift_result (if_some codex_version validate_version);
  _ ← lift_result (policy_validate policy);
  self ← get_st;
  if is_out_of_order self pid observed_at then audit_ignored pid source observed_at else
  let previous := entry self pid in
  let failures :=
    match previous with
    | Some e => saturating_add_u u8_max (ce_consecutive_failures e) 1
    | None => 1
    end in
  next_refresh_at ← lift_result (retry_at policy observed_at failures);
  let e := failure_entry pid source codex_version compatibility (stored_failure failure)
             observed_at failures next_refresh_at previous in
  _ ← replace_entry e;
  push_audit pid source observed_at FailureObserved (ce_availability e).

Definition require_revalidation (pid : string) (observed_at : Z) (policy : ObservationPolicy)
    : stM CacheDocument ObservationError () :=
  _ ← lift_result (validate_profile_id pid);
  _ ← lift_result (validate_timestamp observed_at);
  _ ← lift_result (policy_validate policy);
  self ← get_st;
  if is_out_of_order self pid observed_at then audit_ignored pid UsageLimitSignal observed_at else
  let previous := entry self pid in
  _ ← replace_entry {|
        ce_profile_id := pid;
        ce_availability := SUnknown;
        ce_observed_at := observed_at;
        ce_latest_event_at := observed_at;
        ce_expires_at := None;
        ce_source := UsageLimitSignal;
        ce_codex_version := match previous with Some e => ce_codex_version e | None => None end;
        ce_adapter_version := CARGO_PKG_VERSION;
        ce_compatibility :=
          match previous with Some e => ce_compatibility e | None => Unverified end;
        ce_usage := None;
        ce_revalidation_required_at := Some observed_at;
        ce_consecutive_failures := 0;
        ce_next_refresh_at := observed_at;
        ce_last_failure := None |};
  push_audit pid UsageLimitSignal observed_at RevalidationRequired SUnknown.

Definition projected_availability (a : StoredAvailability) : Availability :=
  match a with
  | SAvailable => AvAvailable | SExhausted => AvExhausted
  | SUnknown => AvUnknown | SUnsupported => AvUnsupported
  end.

Definition view_state (e : CacheEntry) (now : Z) : Availability * Freshness :=
  let revalidation_required :=
    match ce_revalidation_required_at e with
    | Some signal => ce_observed_at e <=? signal | None => false end in
  let expired := match ce_expires_at e with Some x => x <=? now | None => false end in
  if revalidation_required then (AvUnknown, FrRevalidationRequired)
  else if bool_decide (ce_availability e = SUnsupported) then (AvUnsupported, FrUnknown)
  else if ce_last_failure e is Some _ then
    (if ce_usage e is Some _ then (AvStale, FrStale) else (AvUnknown, FrUnknown))
  else if expired then (AvStale, FrStale)
  else (projected_availability (ce_availability e), FrFresh).

Definition view_entry (e : CacheEntry) (now : Z) : UsageView :=
  let '(availability, freshness) := view_state e now in
  mkView availability freshness (ce_observed_at e) (ce_source e) (ce_codex_version e)
    (ce_adapter_version e) (ce_compatibility e) (ce_usage e) (ce_next_refresh_at e).

Definition view (self : CacheDocument) (pid : string) (now : Z) : option UsageView :=
  e ← entry self pid; Some (view_entry e now).

(** [i64::MIN] for a profile without an entry. *)
Definition refresh_at (self : CacheDocument) (now : Z) (pid : string) : Z :=
  match entry self pid with
  | None => i64_min
  | Some e =>
      match ce_revalidation_required_at e with Some _ => now | None => ce_next_refresh_at e end
  end.

(** [Ord] of [(i64, String)]. *)
Definition due_le (a b : Z * string) : bool :=
  (fst a <? fst b) || ((fst a =? fst b) && str_le (snd a) (snd b)).

Definition due_candidates (self : CacheDocument) (registered : list string)
    (active : gset string) (now : Z) : list (Z * string) :=
  omap (fun pid =>
    if bool_decide (pid ∈ active) then None else
    let at_ := refresh_at self now pid in
    if at_ <=? now then Some (at_, pid) else None) registered.

Definition due_idle_refresh (self : CacheDocument) (registered : list string)
    (active : gset string) (now : Z) (policy : ObservationPolicy)
    : result ObservationError (list string) :=
  _ ← policy_validate policy;
  let due := sort_by due_le (due_candidates self registered active now) in
  Ok ((take (Z.to_nat (max_idle_refresh policy)) due).*2).

(** ** Validation of a document *)

Definition validate_entry_evidence (e : CacheEntry) : result ObservationError () :=
  _ ← match ce_usage e with
      | Some usage =>
          _ ← validate_usage usage;
          reject_if (bool_decide (ce_expires_at e = None) || bool_decide (ce_codex_version e = None)
                     || negb (bool_decide (ce_compatibility e = Compatible))) InvalidDocument
      | None =>
          reject_if (bool_decide (ce_availability e = SAvailable)
                     || bool_decide (ce_availability e = SExhausted)) InvalidDocument
      end;
  _ ← reject_if (bool_decide (ce_availability e = SUnsupported)
                 && (negb (bool_decide (ce_last_failure e = Some SF_Unsupported))
                     || bool_decide (is_Some (ce_usage e)))) InvalidDocument;
  reject_if (bool_decide (ce_availability e = SExhausted)
             && match ce_usage e with
                | Some u => negb (bool_decide (classify u = SExhausted))
                | None => true
                end) InvalidDocument.

Definition validate_entry_body (e : CacheEntry) : result ObservationError () :=
  _ ← validate_timestamp (ce_observed_at e);
  _ ← validate_timestamp (ce_latest_event_at e);
  _ ← reject_if (ce_latest_event_at e <? ce_observed_at e) InvalidDocument;
  _ ← validate_timestamp (ce_next_refresh_at e);
  _ ← reject_if (ce_next_refresh_at e <? ce_latest_event_at e) InvalidDocument;
  _ ← if_some (ce_expires_at e) (fun expires_at =>
        _ ← validate_timestamp expires_at;
        reject_if (expires_at <? ce_observed_at e) InvalidDocument);
  _ ← if_some (ce_revalidation_required_at e) (fun required_at =>
        _ ← validate_timestamp required_at;
        reject_if ((ce_latest_event_at e <? required_at)
                   || negb (bool_decide (ce_source e = UsageLimitSignal))
                   || bool_decide (is_Some (ce_last_failure e))
                   || negb (ce_next_refresh_at e =? required_at)) InvalidDocument);
  _ ← if_some (ce_codex_version e) validate_version;
  _ ← validate_version (ce_adapter_version e);
  validate_entry_evidence e.

Definition validate_entry (seen : gset string) (e : CacheEntry)
    : result ObservationError (gset string) :=
  _ ← validate_profile_id (ce_profile_id e);
  _ ← reject_if (bool_decide (ce_profile_id e ∈ seen)) InvalidDocument;
  _ ← validate_entry_body e;
  Ok ({[ce_profile_id e]} ∪ seen).

Definition validate_audit_event (revision : Z) (previous : option Z) (a : AuditEvent)
    : result ObservationError (option Z) :=
  _ ← validate_profile_id (au_profile_id a);
  _ ← validate_timestamp (au_observed_at a);
  _ ← reject_if ((au_revision a =? 0) || (revision <? au_revision a)
                 || match previous with Some p => au_revision a <=? p | None => false end)
        InvalidDocument;
  Ok (Some (au_revision a)).

Definition validate (self : CacheDocument) : result ObservationError () :=
  _ ← reject_if (negb (cache_schema_version self =? CACHE_SCHEMA_VERSION)) InvalidDocument;
  _ ← reject_if ((MAX_ENTRIES <? len (entries self)) || (MAX_AUDIT_EVENTS <? len (audit self)))
        LimitExceeded;
  _ ← fold_result validate_entry ∅ (entries self);
  _ ← fold_result (validate_audit_event (cache_revision self)) None (audit self);
  Ok ().
End cache.

(** ** [ObservationStore]: the document on disk *)

Section store.
Context {UC : UuidCrate} {JC : JsonCodec CacheDocument}.
Context (faults : Faults) (policy : ObservationPolicy).

Definition storage_error (_ : ProfileError) : ObservationError := StorageUnavailable.

Definition ensure_supported : stM Disk ObservationError () :=
  match faults EnsureSupported with Some _ => throw UnsupportedPlatform | None => mret () end.

Definition decode_cache (file : option bytes) : result ObservationError CacheDocument :=
  match file with
  | None => Ok default_cache
  | Some b =>
      _ ← reject_if (MAX_SERIALIZED_BYTES <? len b) LimitExceeded;
      document ← ok_or (from_slice b) InvalidDocument;
      _ ← validate document;
      Ok document
  end.

Definition load : stM Disk ObservationError CacheDocument :=
  file ← read_file StorageUnavailable storage_error faults MAX_SERIALIZED_BYTES;
  lift_result (decode_cache file).

(** The directory sync is inside the publication closure here: its failure is
    reported as unavailable storage, with the new document in place. *)
Definition save (document : CacheDocument) : stM Disk ObservationError () :=
  b ← lift_result (ok_or (to_vec document) InvalidDocument);
  _ ← lift_result (reject_if (MAX_SERIALIZED_BYTES <? len b) LimitExceeded);
  or_remove_temporary faults
    (_ ← publish_temporary StorageUnavailable storage_error faults b;
     private storage_error faults SyncRoot).

Definition transact {T} (mutation : stM CacheDocument ObservationError T)
    : stM Disk ObservationError T :=
  _ ← ensure_supported;
  _ ← lift_result (policy_validate policy);
  _ ← private storage_error faults CreateRoot;
  _ ← modify_st set_root;
  _ ← private storage_error faults VerifyRoot;
  _ ← open_lock StorageUnavailable storage_error faults;
  _ ← io StorageUnavailable faults LockExclusive;
  document ← load;
  match mutation document with
  | (Err e, _) => throw e
  | (Ok r, document) =>
      _ ← lift_result (validate document);
      _ ← save document;
      mret r
  end.

Definition read_document : stM Disk ObservationError CacheDocument :=
  _ ← ensure_supported;
  _ ← lift_result (policy_validate policy);
  _ ← io StorageUnavailable faults StatRoot;
  d ← get_st;
  if root_exists d then
    _ ← private storage_error faults VerifyRoot;
    _ ← open_lock StorageUnavailable storage_error faults;
    _ ← io StorageUnavailable faults LockExclusive;
    load
  else mret default_cache.

(** [document.view(profile_id, observed_at).ok_or(InvalidDocument)]. *)
Definition view_after (pid : string) (observed_at : Z)
    : stM CacheDocument ObservationError UsageView :=
  document ← get_st;
  lift_result (ok_or (view document pid observed_at) InvalidDocument).

Definition store_observe_usage (pid : string) (source : ObservationSource)
    (codex_version : string) (usage : CodexUsage) (observed_at : Z)
    : stM Disk ObservationError UsageView :=
  _ ← lift_result (reject_if (negb (is_authoritative_usage source)) InvalidInput);
  transact (_ ← observe_usage pid source codex_version usage observed_at policy;
            view_after pid observed_at).

Definition store_observe_failure (pid : string) (source : ObservationSource)
    (codex_version : option string) (compatibility : CodexCompatibilityStatus)
    (failure : CodexUsageError) (observed_at : Z) : stM Disk ObservationError UsageView :=
  _ ← lift_result (reject_if (negb (is_authoritative_usage source)) InvalidInput);
  transact (_ ← observe_failure pid source codex_version compatibility failure observed_at policy;
            view_after pid observed_at).

Definition store_require_revalidation (pid : string) (observed_at : Z)
    : stM Disk ObservationError UsageView :=
  transact (_ ← require_revalidation pid observed_at policy;
            view_after pid observed_at).

Definition store_view (pid : string) (now : Z) : stM Disk ObservationError (option UsageView) :=
  _ ← lift_result (validate_profile_id pid);
  _ ← lift_result (validate_timestamp now);
  document ← read_document;
  mret (view document pid now).

Definition store_due_idle_refresh (registered : list string) (active : gset string) (now : Z)
    : stM Disk ObservationError (list string) :=
  _ ← lift_result (validate_timestamp now);
  _ ← lift_result (reject_if ((MAX_ENTRIES <? len registered)
                              || (MAX_ENTRIES <? Z.of_nat (size active))) LimitExceeded);
  _ ← lift_result (for_each validate_profile_id registered);
  _ ← lift_result (for_each validate_profile_id (sort_strings (elements active)));
  document ← read_document;
  lift_result (due_idle_refresh document registered active now policy).
End store.
