(* ===== verification/UsageProofs.v ===== *)
(** * Usage observations: theorems (src/usage_observations.rs)

    The invariant of the cache and that every observation keeps it, what a
    fresh view is evidence of, the refresh plan, the retry back-off and the
    classification of a snapshot. *)
From S2P Require Import Prelude Interfaces Profiles Storage UsageCache.

Open Scope Z_scope.

(** ** One observation *)

Inductive Observation :=
| ObUsage (pid : string) (source : ObservationSource) (version : string) (usage : CodexUsage)
    (t : Z)
| ObFailure (pid : string) (source : ObservationSource) (version : option string)
    (compatibility : CodexCompatibilityStatus) (failure : CodexUsageError) (t : Z)
| ObSignal (pid : string) (t : Z).

Definition ob_pid (o : Observation) : string :=
  match o with ObUsage p _ _ _ _ | ObFailure p _ _ _ _ _ | ObSignal p _ => p end.
Definition ob_time (o : Observation) : Z :=
  match o with ObUsage _ _ _ _ t | ObFailure _ _ _ _ _ t | ObSignal _ t => t end.

Section observations.
Context {UC : UuidCrate}.

Definition observe (policy : ObservationPolicy) (o : Observation)
    : stM CacheDocument ObservationError () :=
  match o with
  | ObUsage pid source version usage t => observe_usage pid source version usage t policy
  | ObFailure pid source version compat failure t =>
      observe_failure pid source version compat failure t policy
  | ObSignal pid t => require_revalidation pid t policy
  end.

(** ** The invariant *)

Definition audit_ok (revision : Z) (a : AuditEvent) : Prop :=
  validate_profile_id (au_profile_id a) = Ok () ∧
  validate_timestamp (au_observed_at a) = Ok () ∧
  au_revision a ≠ 0 ∧ au_revision a <= revision.

Definition entry_ok (e : CacheEntry) : Prop :=
  validate_profile_id (ce_profile_id e) = Ok () ∧ validate_entry_body e = Ok ().

Record valid_cache (d : CacheDocument) : Prop := {
  c_schema : cache_schema_version d = CACHE_SCHEMA_VERSION;
  c_entries_len : len (entries d) <= MAX_ENTRIES;
  c_audit_len : len (audit d) <= MAX_AUDIT_EVENTS;
  c_ids : NoDup (ce_profile_id <$> entries d);
  c_entries : Forall entry_ok (entries d);
  c_audit : Forall (audit_ok (cache_revision d)) (audit d);
  c_audit_sorted : StronglySorted Z.lt (au_revision <$> audit d);
}.

Lemma validate_entry_Ok seen e seen' :
  validate_entry seen e = Ok seen' ↔
  entry_ok e ∧ ce_profile_id e ∉ seen ∧ seen' = ({[ce_profile_id e]} ∪ seen).
Proof.
  unfold validate_entry, entry_ok. split.
  - intros H. inv_ok. inv_bool. done.
  - intros ([-> Hb] & Hs & ->). cbn. rewrite bool_decide_false by done. cbn. by rewrite Hb.
Qed.

Lemma entries_loop_Ok l seen seen' :
  fold_result validate_entry seen l = Ok seen' ↔
  Forall entry_ok l ∧ NoDup (ce_profile_id <$> l) ∧
  (∀ e, e ∈ l → ce_profile_id e ∉ seen) ∧ seen' = (list_to_set (ce_profile_id <$> l) ∪ seen).
Proof.
  revert seen; induction l as [|e l IH]; intros seen; cbn [fold_result].
  { split.
    - intros [= <-]. repeat split_and; try constructor; [by intros ? []%elem_of_nil|set_solver].
    - intros (_ & _ & _ & ->). f_equal. set_solver. }
  rewrite bind_Ok. setoid_rewrite validate_entry_Ok. setoid_rewrite IH. clear IH.
  cbn [fmap list_fmap]. rewrite Forall_cons, NoDup_cons. split.
  - intros (? & (? & ? & ->) & ? & ? & Hs & ->). split_and!; try done.
    + intros (y & Hy & Hin)%list_elem_of_fmap. specialize (Hs y Hin). set_solver +Hs Hy.
    + intros y [->|Hy]%elem_of_cons; [done|]. specialize (Hs y Hy). set_solver +Hs.
    + set_solver +.
  - intros ([? ?] & [Hx ?] & Hs & ->). eexists. split_and!; try done.
    + apply Hs. by left.
    + intros y Hy. specialize (Hs y (list_elem_of_further _ _ _ Hy)).
      assert (ce_profile_id y ≠ ce_profile_id e) as Hne; [|set_solver +Hs Hne].
      intros Heq. apply Hx. rewrite <- Heq. by apply list_elem_of_fmap_2.
    + set_solver +.
Qed.

Lemma audit_loop_Ok rev l prev p' :
  fold_result (validate_audit_event rev) prev l = Ok p' →
  Forall (audit_ok rev) l ∧ StronglySorted Z.lt (au_revision <$> l) ∧
  Forall (fun a => ∀ p, prev = Some p → p < au_revision a) l.
Proof.
  revert prev; induction l as [|a l IH]; intros prev H; cbn [fold_result] in H.
  { repeat split; constructor. }
  inv_ok. unfold validate_audit_event in Hok. inv_ok. inv_bool.
  apply IH in H as (Hok & Hs & Hp).
  split_and!.
  - constructor; [by repeat split|done].
  - cbn. constructor; [done|]. rewrite Forall_forall in Hp. apply Forall_forall.
    intros b (x & -> & Hx)%list_elem_of_fmap. by apply (Hp x Hx).
  - constructor.
    + intros p ->. lia.
    + eapply Forall_impl; [exact Hp|]. cbn. intros b Hb p ->. specialize (Hb _ eq_refl). lia.
Qed.

Lemma audit_loop_intro rev l prev :
  Forall (audit_ok rev) l → StronglySorted Z.lt (au_revision <$> l) →
  Forall (fun a => ∀ p, prev = Some p → p < au_revision a) l →
  is_ok (fold_result (validate_audit_event rev) prev l) = true.
Proof.
  revert prev; induction l as [|a l IH]; intros prev Hok Hs Hp; [done|].
  apply Forall_cons in Hok as [(H1 & H2 & H3 & H4) Hok].
  apply Forall_cons in Hp as [Hpa Hp]. cbn in Hs. inversion Hs as [|?? Hs' Hall]; subst.
  assert (validate_audit_event rev prev a = Ok (Some (au_revision a))) as Ha.
  { unfold validate_audit_event. rewrite H1, H2. cbn.
    rewrite (proj2 (Z.eqb_neq _ _)), (proj2 (Z.ltb_ge _ _)) by done.
    destruct prev as [p|]; [|done]. specialize (Hpa p eq_refl).
    by rewrite (proj2 (Z.leb_gt _ _)). }
  cbn [fold_result]. rewrite Ha. cbn. apply IH; [done..|].
  rewrite Forall_forall in Hall. apply Forall_forall. intros b Hb p' [= <-].
  by apply Hall, list_elem_of_fmap_2.
Qed.

Lemma validate_valid_cache d : validate d = Ok () ↔ valid_cache d.
Proof.
  unfold validate. split.
  - intros H. inv_ok. inv_bool. apply entries_loop_Ok in Hok1 as (? & ? & _ & _).
    apply audit_loop_Ok in Hok2 as (? & ? & _). done.
  - intros [-> Hl Hl' Hn He Ha Hs]. cbn. rewrite !(proj2 (Z.ltb_ge _ _)) by done. cbn.
    rewrite (proj2 (entries_loop_Ok (entries d) ∅
      (list_to_set (ce_profile_id <$> entries d) ∪ ∅))); cycle 1.
    { by split_and!. }
    cbn. pose proof (audit_loop_intro (cache_revision d) (audit d) None Ha Hs) as Hf.
    destruct (fold_result _ _ _); [done|]. cbn in Hf.
    assert (false = true); [|done]. apply Hf. by apply Forall_forall.
Qed.

(** ** What an accepted observation does *)

Definition ob_source (o : Observation) : ObservationSource :=
  match o with ObUsage _ s _ _ _ | ObFailure _ s _ _ _ _ => s | ObSignal _ _ => UsageLimitSignal end.
Definition ob_kind (o : Observation) : AuditKind :=
  match o with
  | ObUsage _ _ _ _ _ => UsageAccepted
  | ObFailure _ _ _ _ _ _ => FailureObserved
  | ObSignal _ _ => RevalidationRequired
  end.

(** The checks of the inputs, in the order of the code. *)
Definition input_ok (policy : ObservationPolicy) (o : Observation) : result ObservationError () :=
  _ ← validate_profile_id (ob_pid o);
  _ ← validate_timestamp (ob_time o);
  _ ← match o with
      | ObUsage _ _ version usage _ => _ ← validate_version version; validate_usage usage
      | ObFailure _ _ version _ _ _ => if_some version validate_version
      | ObSignal _ _ => Ok ()
      end;
  policy_validate policy.

(** The entry an accepted observation stores. *)
Definition new_entry (policy : ObservationPolicy) (previous : option CacheEntry)
    (o : Observation) : result ObservationError CacheEntry :=
  match o with
  | ObUsage pid source version usage t =>
      x ← expiry policy t;
      Ok (mkEntry pid (classify usage) t t (Some x) source (Some version) CARGO_PKG_VERSION
            Compatible (Some usage) None 0 x None)
  | ObFailure pid source version compat failure t =>
      let failures := match previous with
        | Some e => saturating_add_u u8_max (ce_consecutive_failures e) 1 | None => 1 end in
      x ← retry_at policy t failures;
      Ok (failure_entry pid source version compat (stored_failure failure) t failures x previous)
  | ObSignal pid t =>
      Ok (mkEntry pid SUnknown t t None UsageLimitSignal
            (match previous with Some e => ce_codex_version e | None => None end)
            CARGO_PKG_VERSION
            (match previous with Some e => ce_compatibility e | None => Unverified end)
            None (Some t) 0 t None)
  end.

Lemma failure_entry_pid pid source version compat f t n x previous :
  (∀ e, previous = Some e → ce_profile_id e = pid) →
  ce_profile_id (failure_entry pid source version compat f t n x previous) = pid.
Proof.
  intros H. unfold failure_entry. destruct previous as [e|]; [|done].
  destruct (ce_usage e); [|done]. case_bool_decide; [done|]. cbn. by apply H.
Qed.

Lemma observe_unfold policy o d :
  observe policy o d =
  (_ ← lift_result (input_ok policy o);
   self ← get_st;
   if is_out_of_order self (ob_pid o) (ob_time o)
   then audit_ignored (ob_pid o) (ob_source o) (ob_time o)
   else
     e ← lift_result (new_entry policy (entry self (ob_pid o)) o);
     _ ← replace_entry e;
     push_audit (ob_pid o) (ob_source o) (ob_time o) (ob_kind o) (ce_availability e)) d.
Proof.
  destruct o; unfold input_ok; cbn [observe new_entry ob_pid ob_source ob_time ob_kind];
    unfold observe_usage, observe_failure, require_revalidation; run_st;
    destruct (validate_profile_id pid) as [[]|]; try done;
    destruct (validate_timestamp t) as [[]|]; try done.
  - destruct (validate_version version) as [[]|]; [|done].
    destruct (validate_usage usage) as [[]|]; [|done].
    destruct (policy_validate policy) as [[]|]; [|done].
    destruct (is_out_of_order d pid t); [done|]. by destruct (expiry policy t).
  - destruct (if_some version validate_version) as [[]|]; [|done].
    destruct (policy_validate policy) as [[]|]; [|done].
    destruct (is_out_of_order d pid t); [done|]. by destruct (retry_at policy t _).
Qed.

Definition keyed (d : CacheDocument) : Prop := NoDup (ce_profile_id <$> entries d).
Definition cache_map (d : CacheDocument) : gmap string CacheEntry :=
  to_map ce_profile_id (entries d).

Lemma entry_map d pid : keyed d → entry d pid = cache_map d !! pid.
Proof. apply find_first_to_map. Qed.

Lemma update_first_perm {A} (f : A → bool) (g : A → A) l x :
  find_first f l = Some x → ∃ l', l ≡ₚ x :: l' ∧ update_first f g l ≡ₚ g x :: l'.
Proof.
  induction l as [|y l IH]; cbn; [done|]. destruct (f y).
  - intros [= ->]. by exists l.
  - intros (l' & Hl & Hu)%IH. exists (y :: l').
    split; [rewrite Hl; constructor|rewrite Hu; constructor].
Qed.

Lemma replace_entry_Ok e d d' u : keyed d → replace_entry e d = (Ok u, d') →
  ∃ es, d' = set_entries es d ∧ keyed d' ∧
    cache_map d' = <[ce_profile_id e := e]> (cache_map d) ∧
    (len (entries d) <= MAX_ENTRIES → len es <= MAX_ENTRIES) ∧
    (∀ P : CacheEntry → Prop, Forall P (entries d) → P e → Forall P es).
Proof.
  intros Hk. unfold replace_entry. run_st.
  destruct (entry d (ce_profile_id e)) as [x|] eqn:He.
  - intros [= _ <-]. eexists. split; [done|].
    destruct (update_first_perm _ (fun _ => e) _ _ He) as (l' & Hl & Hu).
    apply find_first_key in He as Hx; [|done]. destruct Hx as [Hx Hid].
    assert (keyed (set_entries (update_first
      (fun x => String.eqb (ce_profile_id x) (ce_profile_id e)) (fun _ => e) (entries d)) d)) as Hk'.
    { unfold keyed in *. cbn. rewrite Hu. rewrite Hl in Hk. cbn in *. by rewrite <- Hid. }
    split_and!; [done| | |].
    + unfold cache_map. etransitivity; [exact (to_map_perm _ _ _ Hk' Hu)|].
      rewrite to_map_cons.
      rewrite (to_map_perm _ _ _ Hk Hl), to_map_cons, Hid. by rewrite insert_insert_eq.
    + intros Hlen. unfold len. by rewrite length_update_first.
    + intros P HP Hpe. rewrite Hu. rewrite Hl in HP. apply Forall_cons in HP as [_ HP].
      by constructor.
  - unfold reject_if. destruct (Z.leb_spec MAX_ENTRIES (len (entries d))); [done|].
    intros [= _ <-]. eexists. split; [done|].
    assert (ce_profile_id e ∉ ce_profile_id <$> entries d) as Hf.
    { rewrite entry_map in He by done. by apply to_map_None in He. }
    assert (sort_entries (entries d ++ [e]) ≡ₚ e :: entries d) as Hp.
    { unfold sort_entries. rewrite sort_by_perm. symmetry. apply Permutation_cons_append. }
    split_and!.
    + unfold keyed. cbn. rewrite Hp. by constructor.
    + unfold cache_map. cbn. by apply to_map_snoc_sorted.
    + intros _. unfold len in *. unfold MAX_ENTRIES in *. rewrite Hp. cbn [length]. lia.
    + intros P HP Hpe. rewrite Hp. by constructor.
Qed.

Lemma push_audit_Ok pid source t kind a d d' u :
  push_audit pid source t kind a d = (Ok u, d') →
  cache_revision d + 1 <= u64_max ∧
  d' = mkCache (cache_schema_version d) (cache_revision d + 1) (entries d)
         (bounded_audit (audit d ++ [mkAudit (cache_revision d + 1) pid t source kind a])).
Proof.
  unfold push_audit, checked_add_u. run_st. unfold ok_or.
  destruct (Z.leb_spec (cache_revision d + 1) u64_max); [|done]. by intros [= _ <-].
Qed.

(** An accepted observation is either ignored as out of order, leaving every
    entry alone, or stores one new entry under its profile. *)
Lemma observe_Ok policy o d d' u : keyed d → observe policy o d = (Ok u, d') →
  input_ok policy o = Ok () ∧ cache_revision d + 1 <= u64_max ∧ ∃ es a,
  d' = mkCache (cache_schema_version d) (cache_revision d + 1) es
         (bounded_audit (audit d ++ [a])) ∧
  au_revision a = cache_revision d + 1 ∧ au_profile_id a = ob_pid o ∧
  au_observed_at a = ob_time o ∧
  if is_out_of_order d (ob_pid o) (ob_time o) then es = entries d else
  ∃ e, new_entry policy (entry d (ob_pid o)) o = Ok e ∧ ce_profile_id e = ob_pid o ∧
    keyed d' ∧ cache_map d' = <[ob_pid o := e]> (cache_map d) ∧
    (len (entries d) <= MAX_ENTRIES → len es <= MAX_ENTRIES) ∧
    (∀ P : CacheEntry → Prop, Forall P (entries d) → P e → Forall P es).
Proof.
  intros Hk. rewrite observe_unfold. run_st.
  destruct (input_ok policy o) as [[]|]; [|done].
  destruct (is_out_of_order d (ob_pid o) (ob_time o)).
  { unfold audit_ignored. run_st. intros [Hr ->]%push_audit_Ok.
    split_and!; [done..|]. eexists _, _. split_and!; reflexivity. }
  destruct (new_entry policy _ o) as [e|] eqn:Hn; [|done].
  assert (ce_profile_id e = ob_pid o) as Hid.
  { destruct o; cbn in Hn; inv_ok; cbn; try done. apply failure_entry_pid.
    intros e He. apply find_first_key in He as [_ He]; done. }
  destruct (replace_entry e d) as [[u1|] d1] eqn:Hr; [|done].
  apply replace_entry_Ok in Hr as (es & -> & Hk' & Hm & Hl & HP); [|done].
  intros [Hrev ->]%push_audit_Ok. split_and!; [done..|]. eexists _, _.
  split_and!; [reflexivity..|]. exists e. rewrite <- Hid. split_and!; try done.
Qed.

(** ** Every observation keeps the invariant *)

Lemma validate_timestamp_Ok t :
  validate_timestamp t = Ok () ↔ 0 <= t <= MAX_PROVIDER_TIMESTAMP_SECONDS.
Proof.
  unfold validate_timestamp. rewrite reject_if_Ok, negb_false_iff, andb_true_iff.
  by rewrite !Z.leb_le.
Qed.

Lemma if_some_Ok {E A} (o : option A) (body : A → result E ()) :
  if_some o body = Ok () ↔ ∀ a, o = Some a → body a = Ok ().
Proof. destruct o; cbn; split; [by intros ? ? [= <-]|auto|done|done]. Qed.

Record entry_facts (e : CacheEntry) : Prop := {
  ef_observed : 0 <= ce_observed_at e;
  ef_latest : ce_observed_at e <= ce_latest_event_at e;
  ef_next : ce_latest_event_at e <= ce_next_refresh_at e <= MAX_PROVIDER_TIMESTAMP_SECONDS;
  ef_expires : ∀ x, ce_expires_at e = Some x →
    ce_observed_at e <= x <= MAX_PROVIDER_TIMESTAMP_SECONDS;
  ef_revalidation : ∀ r, ce_revalidation_required_at e = Some r →
    0 <= r <= ce_latest_event_at e ∧ ce_source e = UsageLimitSignal ∧ ce_last_failure e = None ∧
    ce_next_refresh_at e = r;
  ef_version : ∀ v, ce_codex_version e = Some v → validate_version v = Ok ();
  ef_adapter : validate_version (ce_adapter_version e) = Ok ();
  ef_usage : ∀ u, ce_usage e = Some u → validate_usage u = Ok () ∧ ce_expires_at e ≠ None ∧
    ce_codex_version e ≠ None ∧ ce_compatibility e = Compatible;
  ef_no_usage : ce_usage e = None → ce_availability e ≠ SAvailable;
  ef_unsupported : ce_availability e = SUnsupported →
    ce_last_failure e = Some SF_Unsupported ∧ ce_usage e = None;
  ef_exhausted : ce_availability e = SExhausted →
    ∃ u, ce_usage e = Some u ∧ classify u = SExhausted;
}.

Lemma evidence_Ok e :
  validate_entry_evidence e = Ok () ↔
  (∀ u, ce_usage e = Some u → validate_usage u = Ok () ∧ ce_expires_at e ≠ None ∧
    ce_codex_version e ≠ None ∧ ce_compatibility e = Compatible) ∧
  (ce_usage e = None → ce_availability e ≠ SAvailable) ∧
  (ce_availability e = SUnsupported →
    ce_last_failure e = Some SF_Unsupported ∧ ce_usage e = None) ∧
  (ce_availability e = SExhausted → ∃ u, ce_usage e = Some u ∧ classify u = SExhausted).
Proof.
  unfold validate_entry_evidence. destruct (ce_usage e) as [u|].
  - split.
    + intros H. inv_ok. inv_bool. split_and!.
      * by intros ? [= <-].
      * done.
      * intros Ha. rewrite Ha in *. rewrite (bool_decide_true (SUnsupported = _)) in Hok0 by done.
        rewrite andb_true_l in Hok0. inv_bool.
        match goal with H : ¬ is_Some (Some u) |- _ => destruct H; eauto end.
      * intros Ha. exists u. split; [done|]. rewrite (bool_decide_true (ce_availability e = _)) in H by done.
        rewrite andb_true_l in H. by inv_bool.
    + intros (Hu & _ & Hs & He). destruct (Hu u eq_refl) as (-> & ? & ? & ?). cbn.
      rewrite (bool_decide_false (ce_expires_at e = None)) by done.
      rewrite (bool_decide_false (ce_codex_version e = None)) by done.
      rewrite (bool_decide_true (ce_compatibility e = Compatible)) by done. cbn.
      assert (ce_availability e ≠ SUnsupported) by (intros Ha; by destruct (Hs Ha)).
      rewrite (bool_decide_false (ce_availability e = SUnsupported)) by done. cbn.
      case_bool_decide as Ha; [|done].
      destruct (He Ha) as (? & [= <-] & Hc). cbn. by rewrite bool_decide_true.
  - split.
    + intros H. inv_ok. inv_bool. split_and!; try done.
      intros Ha. rewrite Ha in *. rewrite (bool_decide_true (SUnsupported = _)) in Hok0 by done.
      rewrite andb_true_l in Hok0. by inv_bool.
    + intros (_ & Hn & Hs & He). specialize (Hn eq_refl).
      assert (ce_availability e ≠ SExhausted) by (intros Ha; by destruct (He Ha) as (? & ? & _)).
      rewrite !(bool_decide_false (ce_availability e = SAvailable)) by done.
      rewrite !(bool_decide_false (ce_availability e = SExhausted)) by done. cbn.
      case_bool_decide as Ha; [|done]. destruct (Hs Ha) as [Hf _].
      rewrite (bool_decide_true (ce_last_failure e = _)) by done. done.
Qed.

Lemma entry_body_Ok e : validate_entry_body e = Ok () ↔ entry_facts e.
Proof.
  unfold validate_entry_body. split.
  - intros H. inv_ok. inv_bool.
    repeat match goal with
    | H : if_some _ _ = Ok () |- _ => rewrite if_some_Ok in H
    | H : validate_timestamp _ = Ok () |- _ => apply validate_timestamp_Ok in H
    end.
    apply evidence_Ok in H as (? & ? & ? & ?).
    split; try done; try lia; eauto.
    + intros x Hx. specialize (Hok4 x Hx). inv_ok. inv_bool.
      match goal with H : validate_timestamp _ = Ok () |- _ => apply validate_timestamp_Ok in H end.
      lia.
    + intros r Hr. specialize (Hok5 r Hr). inv_ok. inv_bool.
      match goal with H : validate_timestamp _ = Ok () |- _ => apply validate_timestamp_Ok in H end.
      split_and!; [lia|lia|done|by apply eq_None_not_Some|done].
  - intros [? ? ? He Hr Hv Ha Hu Hn Hs Hx].
    assert (∀ v, 0 <= v <= MAX_PROVIDER_TIMESTAMP_SECONDS → validate_timestamp v = Ok ()) as Ht
      by (intros; by apply validate_timestamp_Ok).
    rewrite !Ht by lia. cbn. rewrite !(proj2 (Z.ltb_ge _ _)) by lia. cbn.
    rewrite (proj2 (if_some_Ok (ce_expires_at e) _)); cycle 1.
    { intros x Hxe. specialize (He x Hxe). rewrite Ht by lia. cbn.
      by rewrite (proj2 (Z.ltb_ge _ _)) by lia. }
    cbn. rewrite (proj2 (if_some_Ok (ce_revalidation_required_at e) _)); cycle 1.
    { intros r Hre. destruct (Hr r Hre) as (? & ? & Hl & ?). rewrite Ht by lia. cbn.
      rewrite (proj2 (Z.ltb_ge _ _)), (proj2 (Z.eqb_eq _ _)) by lia.
      rewrite bool_decide_true by done. rewrite bool_decide_false; [done|]. rewrite Hl. by intros []. }
    cbn. rewrite (proj2 (if_some_Ok (ce_codex_version e) _)) by done. cbn.
    rewrite Ha. cbn. by apply evidence_Ok.
Qed.

Lemma within_provider_time_Some o t :
  within_provider_time o = Some t ↔ o = Some t ∧ t <= MAX_PROVIDER_TIMESTAMP_SECONDS.
Proof.
  unfold within_provider_time. destruct o as [v|]; [|naive_solver].
  destruct (Z.leb_spec v MAX_PROVIDER_TIMESTAMP_SECONDS); split.
  - by intros [= ->].
  - by intros [[= ->] _].
  - done.
  - intros [[= ->] ?]. lia.
Qed.

Lemma checked_add_i64_Some a b c : checked_add_i64 a b = Some c → c = a + b.
Proof. unfold checked_add_i64. case_match; [by intros [= <-]|done]. Qed.

Lemma policy_ok p : policy_validate p = Ok () ↔
  0 < fresh_ttl_seconds p ∧ 0 < retry_base_seconds p <= retry_max_seconds p ∧
  max_idle_refresh p ≠ 0 ∧ max_idle_refresh p <= MAX_ENTRIES.
Proof.
  unfold policy_validate. rewrite reject_if_Ok, !orb_false_iff, !Z.leb_gt, !Z.ltb_ge, Z.eqb_neq.
  lia.
Qed.

Lemma expiry_Ok p t x : expiry p t = Ok x →
  x = t + fresh_ttl_seconds p ∧ x <= MAX_PROVIDER_TIMESTAMP_SECONDS.
Proof.
  unfold expiry. intros H. inv_ok. apply within_provider_time_Some in H as [H ?].
  by apply checked_add_i64_Some in H.
Qed.

Lemma retry_at_Ok p t n x : retry_at p t n = Ok x →
  x = t + retry_delay p n ∧ x <= MAX_PROVIDER_TIMESTAMP_SECONDS.
Proof.
  unfold retry_at. intros H. inv_ok. apply within_provider_time_Some in H as [H ?].
  by apply checked_add_i64_Some in H.
Qed.

(** The back-off doubles from the base up to the maximum. *)
Lemma retry_delay_bounds p n : policy_validate p = Ok () → retry_max_seconds p <= i64_max →
  retry_base_seconds p <= retry_delay p n <= retry_max_seconds p.
Proof.
  intros Hp Hmax. apply policy_ok in Hp as (_ & [Hb Hbm] & _).
  unfold retry_delay, saturating_sub_u, saturating_mul_i64, i64_min in *.
  assert (0 <= Z.min (Z.max 0 (n - 1)) 30) as Hs by lia.
  rewrite Z.shiftl_mul_pow2 by done. rewrite Z.mul_1_l.
  pose proof (Z.pow_pos_nonneg 2 _ ltac:(lia) Hs). split; [|lia]. nia.
Qed.

Lemma retry_delay_mono p n m : policy_validate p = Ok () → n <= m →
  retry_delay p n <= retry_delay p m.
Proof.
  intros Hp Hnm. apply policy_ok in Hp as (_ & [Hb Hbm] & _).
  unfold retry_delay, saturating_sub_u, saturating_mul_i64 in *.
  rewrite !Z.shiftl_mul_pow2 by lia. rewrite !Z.mul_1_l.
  assert (2 ^ Z.min (Z.max 0 (n - 1)) 30 <= 2 ^ Z.min (Z.max 0 (m - 1)) 30)
    by (apply Z.pow_le_mono_r; lia).
  assert (retry_base_seconds p * 2 ^ Z.min (Z.max 0 (n - 1)) 30
          <= retry_base_seconds p * 2 ^ Z.min (Z.max 0 (m - 1)) 30) by nia.
  lia.
Qed.

(** Policies whose integers fit an [i64] and a [usize]. *)
Definition policy_in_range (p : ObservationPolicy) : Prop :=
  retry_max_seconds p <= i64_max ∧ fresh_ttl_seconds p <= i64_max ∧ 0 <= max_idle_refresh p.

Lemma version_ok : validate_version CARGO_PKG_VERSION = Ok ().
Proof. reflexivity. Qed.

Lemma classify_loop_not_unsupported l a b : classify_loop l a b ≠ SUnsupported.
Proof. revert a b; induction l as [|s l IH]; intros a b; cbn; repeat case_match; done. Qed.

(** The entry an accepted observation stores satisfies the invariant. *)
Lemma new_entry_ok policy o previous e :
  policy_in_range policy → input_ok policy o = Ok () →
  (∀ p, previous = Some p → entry_ok p ∧ ce_latest_event_at p <= ob_time o) →
  new_entry policy previous o = Ok e → ce_profile_id e = ob_pid o → entry_ok e.
Proof.
  intros [Hmax _] Hin Hprev Hn Hid. unfold input_ok in Hin. inv_ok.
  split; [by rewrite Hid|]. apply entry_body_Ok. apply validate_timestamp_Ok in Hok0.
  pose proof version_ok as Hver. pose proof Hin as Hpol. apply policy_ok in Hpol as (Httl & _).
  destruct o as [pid src ver u t|pid src ver compat f t|pid t]; cbn in *.
  - inv_ok. match goal with H : expiry _ _ = Ok _ |- _ => apply expiry_Ok in H as [-> ?] end.
    split; cbn; try done; try lia; intros; simplify_eq; try done; try lia; eauto.
    exfalso. by eapply classify_loop_not_unsupported.
  - inv_ok. rewrite if_some_Ok in Hok1.
    match goal with H : retry_at _ _ _ = Ok _ |- _ => apply retry_at_Ok in H as [-> Hle] end.
    set (n := match previous with Some _ => _ | None => _ end) in *.
    pose proof (retry_delay_bounds policy n Hin Hmax) as Hd.
    apply policy_ok in Hin as (_ & [Hb _] & _).
    assert (∀ a g, (a = SUnsupported → g = SF_Unsupported) → a ≠ SAvailable → a ≠ SExhausted →
      entry_facts (mkEntry pid a t t None src ver CARGO_PKG_VERSION compat None None n
                     (t + retry_delay policy n) (Some g))) as Hfresh.
    { intros a g Ha ? ?. split; cbn; try done; try lia; intros; simplify_eq; try done; try lia.
      by rewrite Ha. }
    unfold failure_entry.
    destruct previous as [p|]; [destruct (ce_usage p) as [u|] eqn:Hu|]; [|apply Hfresh..];
      try (case_bool_decide; by intros).
    case_bool_decide as Hf; [apply Hfresh; by intros|].
    destruct (Hprev p eq_refl) as [[_ [? ? ? ? ? ? ? Hus ? Huns Hex]%entry_body_Ok] ?].
    split; cbn; try done; try lia; eauto.
    + intros u' [= <-]. by apply Hus.
    + intros Ha. destruct (Huns Ha). congruence.
    + intros Ha. destruct (Hex Ha) as (u' & ? & ?). exists u'. split; congruence.
  - inv_ok. split; cbn; try done; try lia; intros; simplify_eq; try done; try lia; try split_and!;
      try done; try lia.
    destruct previous as [p|]; [|done].
    destruct (Hprev p eq_refl) as [[_ [? ? ? ? ? Hv ? ? ? ? ?]%entry_body_Ok] _]. by apply Hv.
Qed.

Lemma len_bounded_audit l : len (bounded_audit l) <= MAX_AUDIT_EVENTS.
Proof.
  unfold bounded_audit. destruct (Z.ltb_spec MAX_AUDIT_EVENTS (len l)); [|done].
  unfold len, MAX_AUDIT_EVENTS in *. rewrite length_drop. lia.
Qed.

Lemma bounded_audit_suffix l : ∃ l', l = l' ++ bounded_audit l.
Proof.
  unfold bounded_audit. case_match; [|by exists []].
  eexists. symmetry. apply take_drop.
Qed.

Lemma StronglySorted_app_r {A} (R : relation A) l1 l2 :
  StronglySorted R (l1 ++ l2) → StronglySorted R l2.
Proof. induction l1; cbn; [done|]. inversion 1; auto. Qed.

Lemma audit_push_ok rev l a :
  Forall (audit_ok rev) l → StronglySorted Z.lt (au_revision <$> l) → 0 <= rev →
  validate_profile_id (au_profile_id a) = Ok () → validate_timestamp (au_observed_at a) = Ok () →
  au_revision a = rev + 1 →
  Forall (audit_ok (rev + 1)) (bounded_audit (l ++ [a])) ∧
  StronglySorted Z.lt (au_revision <$> bounded_audit (l ++ [a])).
Proof.
  intros Hl Hs Hr H1 H2 H3.
  assert (Forall (audit_ok (rev + 1)) (l ++ [a])) as HF.
  { apply Forall_app. split; [|by repeat constructor; [..|lia|lia]].
    eapply Forall_impl; [exact Hl|]. intros b (? & ? & ? & ?). repeat split; try done; lia. }
  assert (StronglySorted Z.lt (au_revision <$> (l ++ [a]))) as HS.
  { rewrite fmap_app. cbn. rewrite H3. clear H1 H2 H3 HF.
    induction l as [|b l IH]; cbn; [by repeat constructor|].
    apply Forall_cons in Hl as [(_ & _ & _ & Hb) Hl]. cbn in Hs. inversion Hs as [|?? Hs' Hall]; subst.
    constructor; [by apply IH|]. apply Forall_app. split; [done|]. constructor; [lia|constructor]. }
  destruct (bounded_audit_suffix (l ++ [a])) as [l' Hl']. split.
  - rewrite Hl' in HF. by apply Forall_app in HF as [_ ?].
  - rewrite Hl', fmap_app in HS. by apply StronglySorted_app_r in HS.
Qed.

(** a valid cache stays valid under every observation. Recording a usage
    snapshot, a failure or a usage-limit signal with any input, in any order,
    either fails or leaves a document that passes the whole validation that
    guards the file, so the store never refuses its own update. *)
Lemma observe_keeps_valid policy o d d' :
  policy_in_range policy → 0 <= cache_revision d →
  validate d = Ok () → observe policy o d = (Ok (), d') → validate d' = Ok ().
Proof.
  intros Hp Hrev [Hs Hl Hl' Hn He Ha Has]%validate_valid_cache H. apply validate_valid_cache.
  apply observe_Ok in H as (Hin & Hr & es & a & -> & Har & Hap & Hat & H); [|done].
  assert (validate_profile_id (ob_pid o) = Ok () ∧ validate_timestamp (ob_time o) = Ok ()) as [Hi1 Hi2].
  { unfold input_ok in Hin. by inv_ok. }
  destruct (audit_push_ok (cache_revision d) (audit d) a) as [Ha' Has']; try congruence.
  destruct (is_out_of_order d (ob_pid o) (ob_time o)) eqn:Ho.
  - subst es. split; cbn; try done. apply len_bounded_audit.
  - destruct H as (e & Hne & Hid & Hk & _ & Hlen & HP). split; cbn; try done.
    + by apply Hlen.
    + apply len_bounded_audit.
    + apply HP; [done|]. eapply new_entry_ok; try done.
      intros p Hpe. unfold is_out_of_order in Ho. rewrite Hpe in Ho. apply Z.ltb_ge in Ho.
      split; [|done]. apply find_first_Some in Hpe as [Hpe _].
      by apply (proj1 (Forall_forall _ _) He).
Qed.

(** ** What a fresh view is evidence of *)

(** The cache after a history of accepted observations, oldest first. *)
Inductive history (policy : ObservationPolicy) : list Observation → CacheDocument → Prop :=
| history_nil : history policy [] default_cache
| history_snoc l d o d' :
    history policy l d → observe policy o d = (Ok (), d') → history policy (l ++ [o]) d'.

(** The snapshot an undisturbed entry was made from: the last observation of
    its profile that was not out of order. *)
Definition backed_by (policy : ObservationPolicy) (l : list Observation) (e : CacheEntry)
    (src : ObservationSource) (ver : string) (u : CodexUsage) : Prop :=
  ∃ l1 l2, l = l1 ++ ObUsage (ce_profile_id e) src ver u (ce_observed_at e) :: l2 ∧
    ce_usage e = Some u ∧ ce_availability e = classify u ∧ ce_source e = src ∧
    ce_expires_at e = Some (ce_observed_at e + fresh_ttl_seconds policy) ∧
    ce_latest_event_at e = ce_observed_at e ∧
    Forall (fun o => ob_pid o = ce_profile_id e → ob_time o < ce_observed_at e) l2.

Definition entry_provenance (policy : ObservationPolicy) (l : list Observation)
    (e : CacheEntry) : Prop :=
  (∀ s, ce_revalidation_required_at e = Some s → ce_observed_at e = s) ∧
  (ce_revalidation_required_at e = None → ce_last_failure e = None →
   ∃ src ver u, backed_by policy l e src ver u).

Lemma provenance_later policy l e o :
  entry_provenance policy l e →
  (ob_pid o = ce_profile_id e → ob_time o < ce_latest_event_at e) →
  entry_provenance policy (l ++ [o]) e.
Proof.
  intros [Hr Hb] Ho. split; [done|]. intros H1 H2.
  destruct (Hb H1 H2) as (src & ver & u & l1 & l2 & -> & ? & ? & ? & ? & Hlat & Hl).
  exists src, ver, u, l1, (l2 ++ [o]). split_and!; try done.
  - by rewrite <- app_assoc.
  - apply Forall_app. split; [done|]. constructor; [|constructor]. rewrite <- Hlat. done.
Qed.

Lemma new_entry_provenance policy l o prev e :
  new_entry policy prev o = Ok e → ce_profile_id e = ob_pid o →
  entry_provenance policy (l ++ [o]) e.
Proof.
  destruct o as [pid src ver u t|pid src ver compat f t|pid t]; cbn; intros H Hid; inv_ok.
  - match goal with H : expiry _ _ = Ok _ |- _ => apply expiry_Ok in H as [-> _] end.
    split; [done|]. intros _ _. exists src, ver, u, l, []. by split_and!.
  - unfold failure_entry in *. split.
    + intros s Hs. by repeat case_match.
    + intros _ Hs. by repeat case_match.
  - split; [by intros s [= ->]|done].
Qed.

Lemma history_provenance policy l d : history policy l d →
  keyed d ∧ ∀ pid e, entry d pid = Some e → entry_provenance policy l e.
Proof.
  induction 1 as [|l d o d' _ [Hk IH] H]; [split; [constructor|done]|].
  apply observe_Ok in H as (_ & _ & es & a & -> & _ & _ & _ & H); [|done].
  destruct (is_out_of_order d (ob_pid o) (ob_time o)) eqn:Ho.
  - subst es. split; [done|]. intros pid e He. apply provenance_later; [by eapply IH|].
    intros Hpid. unfold is_out_of_order in Ho.
    apply find_first_key in He as [Hin Hid]; [|done]. cbn in Hin.
    unfold entry in Ho. rewrite Hpid in Ho.
    rewrite (proj2 (find_first_key ce_profile_id _ _ e Hk) (conj Hin eq_refl)) in Ho.
    by apply Z.ltb_lt in Ho.
  - destruct H as (e & Hne & Hid & Hk' & Hm & _ & _). split; [done|].
    intros pid e' He'. rewrite entry_map in He' by done. rewrite Hm in He'.
    destruct (decide (ob_pid o = pid)) as [<-|Hne'].
    + rewrite lookup_insert_eq in He'. injection He' as <-. by eapply new_entry_provenance.
    + rewrite lookup_insert_ne in He' by done. rewrite <- entry_map in He' by done.
      apply provenance_later; [by eapply IH|].
      apply find_first_key in He' as [_ Hid']; [|done]. congruence.
Qed.

(** C4: a fresh view is backed by evidence. If, after any history of accepted
    observations, the cache shows a profile as freshly available or freshly
    exhausted, then the history contains a usage snapshot of that profile
    taken at the shown time, the shown state is its classification, the
    snapshot is younger than the freshness limit, and every later observation
    of the profile carries an older timestamp: in particular no failure and
    no usage-limit signal at that time or later has been recorded. *)
Theorem fresh_view_evidence policy l d pid now v :
  history policy l d → view d pid now = Some v → uv_freshness v = FrFresh →
  uv_availability v = AvAvailable ∨ uv_availability v = AvExhausted →
  ∃ l1 src ver u l2, l = l1 ++ ObUsage pid src ver u (uv_observed_at v) :: l2 ∧
    uv_availability v = projected_availability (classify u) ∧ uv_usage v = Some u ∧
    uv_source v = src ∧ now < uv_observed_at v + fresh_ttl_seconds policy ∧
    Forall (fun o => ob_pid o = pid → ob_time o < uv_observed_at v) l2.
Proof.
  intros Hh Hv Hf Ha. apply history_provenance in Hh as [Hk Hh].
  unfold view in Hv. destruct (entry d pid) as [e|] eqn:He; [|done]. injection Hv as <-.
  destruct (Hh _ _ He) as [Hr Hb].
  apply find_first_key in He as [_ Hid]; [|done]. subst pid.
  unfold view_entry, view_state in *.
  destruct (ce_revalidation_required_at e) as [s|] eqn:Hrev.
  { rewrite (Hr s eq_refl), Z.leb_refl in *. cbn in *. done. }
  case_bool_decide; [done|].
  destruct (ce_last_failure e) eqn:Hfail; [destruct (ce_usage e); done|].
  destruct (Hb eq_refl eq_refl) as (src & ver & u & l1 & l2 & -> & Hu & Hc & Hs & Hx & _ & Hl2).
  rewrite Hx in *. destruct (Z.leb_spec (ce_observed_at e + fresh_ttl_seconds policy) now); [done|].
  cbn in *. exists l1, src, ver, u, l2. split_and!; try done. by rewrite Hc.
Qed.

(** ** Retry back-off *)

(** failures back off. The next refresh after a failure lies between the
    base and the maximum delay, the first failure waits exactly the base
    delay, and more consecutive failures never wait less. *)
Lemma retry_at_spec policy t n x :
  policy_in_range policy → policy_validate policy = Ok () → retry_at policy t n = Ok x →
  t + retry_base_seconds policy <= x <= t + retry_max_seconds policy ∧
  (n <= 1 → x = t + retry_base_seconds policy) ∧
  (∀ m y, n <= m → retry_at policy t m = Ok y → x <= y).
Proof.
  intros [Hmax _] Hp H. apply retry_at_Ok in H as [-> _].
  pose proof (retry_delay_bounds policy n Hp Hmax). split_and!; [lia|lia| |].
  - intros Hn. apply policy_ok in Hp as (_ & [? ?] & _). f_equal.
    unfold retry_delay, saturating_sub_u, saturating_mul_i64, i64_min.
    replace (Z.min (Z.max 0 (n - 1)) 30) with 0 by lia. change (Z.shiftl 1 0) with 1. lia.
  - intros m y Hm [-> _]%retry_at_Ok. pose proof (retry_delay_mono policy n m Hp Hm). lia.
Qed.

(** ** The idle refresh plan *)

Lemma due_le_trans a b c : due_le a b = true → due_le b c = true → due_le a c = true.
Proof.
  unfold due_le. rewrite !orb_true_iff, !andb_true_iff, !Z.ltb_lt, !Z.eqb_eq.
  intros [?|[? H1]] [?|[? H2]]; [left; lia|left; lia|left; lia|].
  right. split; [lia|]. by eapply str_le_trans.
Qed.

Lemma due_le_total a b : due_le a b = true ∨ due_le b a = true.
Proof.
  unfold due_le. rewrite !orb_true_iff, !andb_true_iff, !Z.ltb_lt, !Z.eqb_eq.
  destruct (str_le_total a.2 b.2); destruct (Z.lt_trichotomy a.1 b.1) as [?|[?|?]]; auto 10.
Qed.

Lemma due_candidates_spec d reg act now x :
  x ∈ due_candidates d reg act now ↔
  x.2 ∈ reg ∧ x.2 ∉ act ∧ x.1 = refresh_at d now x.2 ∧ x.1 <= now.
Proof.
  unfold due_candidates. rewrite list_elem_of_omap. split.
  - intros (pid & Hp & H). case_bool_decide; [done|].
    destruct (Z.leb_spec (refresh_at d now pid) now); [|done]. by injection H as <-.
  - destruct x as [t pid]; cbn. intros (? & ? & -> & ?). exists pid. split; [done|].
    rewrite bool_decide_false by done. by rewrite (proj2 (Z.leb_le _ _)).
Qed.

(** the refresh plan picks idle profiles fairly and boundedly. It is the
    first part of the due candidates in the order of their refresh time and
    then identifier, as long as the policy allows; every picked profile is
    registered, not active and due, and a due profile is only left out when
    the plan is full and everything in it comes first. *)
Lemma due_idle_refresh_spec d reg act now policy plan :
  policy_in_range policy → due_idle_refresh d reg act now policy = Ok plan →
  len plan <= max_idle_refresh policy ∧
  (∀ pid, pid ∈ plan → pid ∈ reg ∧ pid ∉ act ∧ refresh_at d now pid <= now) ∧
  (∀ pid, pid ∈ reg → pid ∉ act → refresh_at d now pid <= now → pid ∉ plan →
    len plan = max_idle_refresh policy ∧
    ∀ q, q ∈ plan → due_le (refresh_at d now q, q) (refresh_at d now pid, pid) = true).
Proof.
  intros (_ & _ & Hpos) H. unfold due_idle_refresh in H. inv_ok.
  set (due := sort_by due_le (due_candidates d reg act now)) in *.
  assert (Hin : ∀ x, x ∈ due ↔ x ∈ due_candidates d reg act now).
  { intros x. apply elem_of_sort_by. }
  assert (Hsort : StronglySorted (fun x y => due_le x y = true) due).
  { apply sort_by_sorted; [apply due_le_trans|apply due_le_total]. }
  split_and!.
  - unfold len. rewrite length_fmap, length_take. lia.
  - intros pid (x & -> & Hx)%list_elem_of_fmap.
    assert (x ∈ due) as Hd by (rewrite <- (take_drop (Z.to_nat (max_idle_refresh policy)) due);
      apply elem_of_app; by left).
    apply Hin, due_candidates_spec in Hd as (? & ? & <- & ?). done.
  - intros pid Hr Ha Hdue Hnot.
    assert ((refresh_at d now pid, pid) ∈ due) as Hd by by apply Hin, due_candidates_spec.
    rewrite <- (take_drop (Z.to_nat (max_idle_refresh policy)) due) in Hd, Hsort.
    apply elem_of_app in Hd as [Hd|Hd].
    { exfalso. exact (Hnot (list_elem_of_fmap_2 snd _ _ Hd)). }
    split.
    + unfold len. rewrite length_fmap, length_take.
      assert (Z.to_nat (max_idle_refresh policy) < length due)%nat; [|lia].
      apply Nat.nle_gt. intros Hge. rewrite drop_ge in Hd by done. by apply elem_of_nil in Hd.
    + intros q (x & -> & Hx)%list_elem_of_fmap.
      assert (x ∈ due) as Hxd by (rewrite <- (take_drop (Z.to_nat (max_idle_refresh policy)) due);
        apply elem_of_app; by left).
      apply Hin, due_candidates_spec in Hxd as (_ & _ & <- & _). destruct x as [t q]; cbn.
      exact (StronglySorted_app_rel _ _ _ _ _ Hsort Hx Hd).
Qed.

(** ** Classification *)

Definition undecided (s : RateLimitSnapshot) : Prop :=
  rate_limit_reached_type s = None ∧ spend_control_reached s = false.

#[local] Arguments is_explicit_exhaustion : simpl never.

Lemma classify_loop_exhausted l a b :
  classify_loop l a b = SExhausted ↔
  ∃ l1 s l2 r, l = l1 ++ s :: l2 ∧ Forall undecided l1 ∧
    rate_limit_reached_type s = Some r ∧ is_explicit_exhaustion r = true.
Proof.
  revert a b; induction l as [|s l IH]; intros a b; cbn.
  { split; [by repeat case_match|]. by intros ([] & ? & ? & ? & ? & _). }
  destruct (rate_limit_reached_type s) as [r|] eqn:Hr.
  - destruct (is_explicit_exhaustion r) eqn:He; split; try done.
    + intros _. exists [], s, l, r. by repeat constructor.
    + intros ([|s' l1] & s'' & l2 & r' & [= -> ->] & Hu & Hr' & He').
      * congruence.
      * apply Forall_cons in Hu as [[? _] _]. congruence.
  - destruct (spend_control_reached s) eqn:Hs.
    + split; [done|]. intros ([|s' l1] & s'' & l2 & r' & [= -> ->] & Hu & Hr' & He'); [congruence|].
      apply Forall_cons in Hu as [[_ ?] _]. congruence.
    + rewrite IH. split.
      * intros (l1 & s' & l2 & r & -> & ? & ? & ?). exists (s :: l1), s', l2, r.
        split_and!; try done. by constructor.
      * intros ([|s' l1] & s'' & l2 & r' & [= -> ->] & Hu & Hr' & He'); [congruence|].
        apply Forall_cons in Hu as [_ Hu]. by exists l1, s'', l2, r'.
Qed.

Lemma classify_loop_available l a b :
  classify_loop l a b = SAvailable ↔
  Forall undecided l ∧ (a = true ∨ ∃ w, w ∈ l ≫= windows) ∧
  b = false ∧ (∀ w, w ∈ l ≫= windows → used_percent w < 100).
Proof.
  revert a b; induction l as [|s l IH]; intros a b; cbn.
  { setoid_rewrite elem_of_nil. destruct a, b; cbn; naive_solver. }
  rewrite Forall_cons. unfold undecided at 1.
  destruct (rate_limit_reached_type s) as [r|] eqn:Hr.
  { split; [by case_match|]. by intros ([[? _] _] & _). }
  destruct (spend_control_reached s) eqn:Hs.
  { split; [done|]. by intros ([[_ ?] _] & _). }
  rewrite IH. setoid_rewrite elem_of_app. rewrite orb_false_iff, orb_true_iff, existsb_false.
  setoid_rewrite Z.leb_gt. rewrite negb_true_iff, bool_decide_eq_false.
  assert (windows s ≠ [] ↔ ∃ w, w ∈ windows s) as Hw.
  { destruct (windows s) as [|w ws]; split; try done.
    - by intros (w & []%elem_of_nil).
    - intros _. exists w. by left. }
  rewrite Hw. split.
  - intros (? & Ha & [? ?] & Hall). split_and!; [done|done|done| |done|].
    + destruct Ha as [[?|(w & ?)]|(w & ?)]; eauto.
    + intros w [?|?]; auto.
  - intros ([_ ?] & Ha & ? & Hall). split_and!; eauto.
    destruct Ha as [?|(w & [?|?])]; eauto.
Qed.

(** Classification is conservative. A snapshot counts as exhausted only
    on an explicit exhaustion code, in the first bucket that carries a
    reached type, with no exhausted spend control before it; it counts as
    available only if no bucket carries a reached type or an exhausted spend
    control, at least one window is reported, and every window is below one
    hundred percent; everything else is unknown. *)
Lemma classify_spec u :
  (classify u = SExhausted ↔ ∃ l1 s l2 r, snapshots u = l1 ++ s :: l2 ∧ Forall undecided l1 ∧
     rate_limit_reached_type s = Some r ∧ is_explicit_exhaustion r = true) ∧
  (classify u = SAvailable ↔ Forall undecided (snapshots u) ∧
     (∃ w, w ∈ snapshots u ≫= windows) ∧
     ∀ w, w ∈ snapshots u ≫= windows → used_percent w < 100) ∧
  classify u ≠ SUnsupported.
Proof.
  unfold classify. split_and!.
  - apply classify_loop_exhausted.
  - rewrite classify_loop_available. split.
    + intros (? & [?|?] & _ & ?); [done|auto].
    + intros (? & ? & ?). auto.
  - apply classify_loop_not_unsupported.
Qed.
End observations.

(** ** Concrete observations *)

Module UsageExample.
#[local] Instance uuid_instance : UuidCrate := uuid_hyphenated.

Definition pid : string := "30000000-0000-4000-8000-000000000001".
Definition window (used : Z) : RateLimitWindow := mkWindow used (100 - used) (Some 300) None.
Definition usage (used : Z) : CodexUsage :=
  mkUsage (Some (mkSnapshot (Some "codex") None None None (Some (window used)) None None None))
    [] None.
Definition snapshot (t : Z) : Observation := ObUsage pid IdleRead "0.144.4" (usage 40) t.
Definition after (o : Observation) (d : CacheDocument) : CacheDocument :=
  snd (observe default_policy o d).
Definition d1 : CacheDocument := after (snapshot 1000) default_cache.
Definition d2 : CacheDocument :=
  after (ObFailure pid IdleRead None Compatible UE_Timeout 1010) d1.

Lemma policy_fits : policy_in_range default_policy.
Proof. repeat split; vm_compute; congruence. Qed.

Lemma observe_keeps_valid_witness : validate d2 = Ok ().
Proof.
  apply (observe_keeps_valid default_policy (ObFailure pid IdleRead None Compatible UE_Timeout 1010) d1).
  - apply policy_fits.
  - vm_compute. congruence.
  - vm_compute. reflexivity.
  - unfold d2, after. vm_compute. reflexivity.
Defined.

Lemma fresh_view_evidence_witness :
  ∃ l1 src ver u l2, [snapshot 1000; ObSignal pid 900]
      = l1 ++ ObUsage pid src ver u 1000 :: l2 ∧ 1059 < 1000 + 60 ∧ src = IdleRead.
Proof.
  destruct (fresh_view_evidence default_policy [snapshot 1000; ObSignal pid 900]
    (after (ObSignal pid 900) d1) pid 1059
    (mkView AvAvailable FrFresh 1000 IdleRead (Some "0.144.4") CARGO_PKG_VERSION Compatible
       (Some (usage 40)) 1060)) as (l1 & src & ver & u & l2 & Hl & _ & _ & Hs & Hn & _).
  - apply (history_snoc default_policy [snapshot 1000] d1).
    + apply (history_snoc default_policy [] default_cache); [constructor|].
      unfold d1, after. vm_compute. reflexivity.
    + unfold after. vm_compute. reflexivity.
  - vm_compute. reflexivity.
  - reflexivity.
  - by left.
  - exists l1, src, ver, u, l2. exact (conj Hl (conj Hn (eq_sym Hs))).
Defined.

Lemma retry_at_spec_witness : 1000 + 5 <= 1020 <= 1000 + 300.
Proof.
  apply (retry_at_spec default_policy 1000 3 1020).
  - apply policy_fits.
  - reflexivity.
  - vm_compute. reflexivity.
Defined.

Lemma due_idle_refresh_spec_witness : len [pid] <= 4.
Proof.
  destruct (due_idle_refresh_spec d2 [pid] ∅ 1015 default_policy [pid]) as [H _].
  - apply policy_fits.
  - vm_compute. reflexivity.
  - exact H.
Defined.
End UsageExample.
