(* ===== verification/Selection.v ===== *)
(** * Guarded selection (src/routing/selection.rs)

    One pass over an enabled pool, starting after the source profile. Provider
    I/O is behind an interface, [SelectionRuntime]; the kernel only sees its
    answers. The runtime's state is threaded explicitly, and every call is
    recorded by the [Logged] runtime the theorems are stated for. *)
From S2P Require Import Prelude Interfaces Profiles RoutingDefs RoutingProofs UsageCache.

Open Scope Z_scope.

Inductive SelectionReason := AuthoritativeExhaustion | RevalidatedUsageLimit.

Definition handoff_reason (r : SelectionReason) : HandoffReason :=
  match r with AuthoritativeExhaustion | RevalidatedUsageLimit => ConfirmedUsageExhaustion end.

Definition selection_reason_label (r : SelectionReason) : string :=
  match r with
  | AuthoritativeExhaustion => "authoritative_exhaustion"
  | RevalidatedUsageLimit => "revalidated_usage_limit"
  end.

Record SelectionTrigger := mkTrigger {
  trigger_source_profile_id : string;
  trigger_reason : SelectionReason;
  trigger_observed_at : Z;
}.

Inductive TriggerError := NotAuthoritativeExhaustion | RevalidationPredatesSignal.

Definition is_fresh_authoritative_available (v : UsageView) : bool :=
  bool_decide (uv_availability v = AvAvailable) && bool_decide (uv_freshness v = FrFresh)
  && is_authoritative_usage (uv_source v).

Definition is_fresh_authoritative_exhaustion (v : UsageView) : bool :=
  bool_decide (uv_availability v = AvExhausted) && bool_decide (uv_freshness v = FrFresh)
  && is_authoritative_usage (uv_source v).

Definition require_authoritative_exhaustion (v : UsageView) : result TriggerError () :=
  reject_if (negb (bool_decide (uv_availability v = AvExhausted))
             || negb (bool_decide (uv_freshness v = FrFresh))
             || negb (is_authoritative_usage (uv_source v))) NotAuthoritativeExhaustion.

Definition authoritative_exhaustion (source_profile_id : string) (v : UsageView)
    : result TriggerError SelectionTrigger :=
  _ ← require_authoritative_exhaustion v;
  Ok (mkTrigger source_profile_id AuthoritativeExhaustion (uv_observed_at v)).

Definition revalidated_usage_limit (source_profile_id : string) (signal_observed_at : Z)
    (revalidated : UsageView) : result TriggerError SelectionTrigger :=
  _ ← require_authoritative_exhaustion revalidated;
  _ ← reject_if (uv_observed_at revalidated <? signal_observed_at) RevalidationPredatesSignal;
  Ok (mkTrigger source_profile_id RevalidatedUsageLimit (uv_observed_at revalidated)).

Record ReservedCandidate (R : Type) := mkCandidate {
  candidate_profile : Profile;
  candidate_usage : UsageView;
  candidate_reservation : R;
}.
Arguments mkCandidate {R}.
Arguments candidate_profile {R}.
Arguments candidate_usage {R}.
Arguments candidate_reservation {R}.

Inductive ReservationResult (R : Type) :=
| Ready (c : ReservedCandidate R)
| Busy
| Unknown.
Arguments Ready {R}.
Arguments Busy {R}.
Arguments Unknown {R}.

Record HandoffSelection (R : Type) := mkSelection {
  hs_source : Profile;
  hs_target : Profile;
  hs_authorization : HandoffAuthorization;
  hs_pool_id : string;
  hs_reason : SelectionReason;
  hs_trigger_observed_at : Z;
  hs_reservation : R;
}.
Arguments mkSelection {R}.
Arguments hs_source {R}.
Arguments hs_target {R}.
Arguments hs_authorization {R}.
Arguments hs_pool_id {R}.
Arguments hs_reason {R}.
Arguments hs_trigger_observed_at {R}.
Arguments hs_reservation {R}.

(** [SelectionRuntime]: its state is [rt]; every call may fail. *)
Class SelectionRuntime := {
  rt : Type;
  Reservation : Type;
  rt_error : Type;
  cached_usage : string → rt → result rt_error (option UsageView) * rt;
  reserve_and_revalidate : string → rt → result rt_error (ReservationResult Reservation) * rt;
  handoff : HandoffSelection Reservation → rt → result rt_error Z * rt;
}.

Record SelectionNotice := mkNotice {
  sn_pool : string;
  sn_trust_domain : string;
  sn_source_profile : string;
  sn_target_profile : string;
  sn_generation : Z;
  sn_reason : SelectionReason;
}.

Record SelectionStop := mkStop {
  st_pool : string;
  st_trust_domain : string;
  st_source_profile : string;
  st_reason : SelectionReason;
  st_candidates : Z;
  st_exhausted : Z;
  st_unknown : Z;
  st_busy : Z;
  st_cooldown : Z;
}.

Inductive SelectionOutcome :=
| Selected (n : SelectionNotice)
| Exhausted (s : SelectionStop)
| AllUnknown (s : SelectionStop)
| AllBusy (s : SelectionStop)
| NoEligible (s : SelectionStop).

Inductive SelectionError (RuntimeError : Type) :=
| Policy (e : DefinitionError)
| Runtime (e : RuntimeError)
| RuntimeInvariant.
Arguments Policy {_}.
Arguments Runtime {_}.
Arguments RuntimeInvariant {_}.

Definition bump_exhausted (s : SelectionStop) : SelectionStop :=
  mkStop (st_pool s) (st_trust_domain s) (st_source_profile s) (st_reason s) (st_candidates s)
    (st_exhausted s + 1) (st_unknown s) (st_busy s) (st_cooldown s).
Definition bump_unknown (s : SelectionStop) : SelectionStop :=
  mkStop (st_pool s) (st_trust_domain s) (st_source_profile s) (st_reason s) (st_candidates s)
    (st_exhausted s) (st_unknown s + 1) (st_busy s) (st_cooldown s).
Definition bump_busy (s : SelectionStop) : SelectionStop :=
  mkStop (st_pool s) (st_trust_domain s) (st_source_profile s) (st_reason s) (st_candidates s)
    (st_exhausted s) (st_unknown s) (st_busy s + 1) (st_cooldown s).
Definition bump_cooldown (s : SelectionStop) : SelectionStop :=
  mkStop (st_pool s) (st_trust_domain s) (st_source_profile s) (st_reason s) (st_candidates s)
    (st_exhausted s) (st_unknown s) (st_busy s) (st_cooldown s + 1).

Section select.
Context {UC : UuidCrate} {SR : SelectionRuntime}.
Context (definitions : Definitions) (pool : EnabledPool) (source : Profile).
Context (trigger : SelectionTrigger) (cooldown_profile_ids : gset string).

Abbreviation selM := (stM rt (SelectionError rt_error)).

(** A runtime call followed by [map_err(SelectionError::Runtime)?]. *)
Definition runtime_call {A} (call : rt → result rt_error A * rt) : selM A :=
  fun s => let '(r, s) := call s in (map_err Runtime r, s).

(** What one turn of the loop leaves: the next turn, or the result. *)
Inductive Turn :=
| Continue (stop : SelectionStop)
| Return (o : SelectionOutcome).

Definition is_fresh_exhaustion_cached (o : option UsageView) : bool :=
  match o with Some v => is_fresh_authoritative_exhaustion v | None => false end.

(** The arm of [ReservationResult::Ready]. *)
Definition consider_candidate (pid : string) (authorization : HandoffAuthorization)
    (candidate : ReservedCandidate Reservation) (stop : SelectionStop) : selM Turn :=
  _ ← lift_result (reject_if
        (negb (String.eqb (profile_id (candidate_profile candidate)) pid)
         || negb (provider_eqb (profile_provider (candidate_profile candidate)) (ep_provider pool)))
        RuntimeInvariant);
  if (trigger_observed_at trigger <=? uv_observed_at (candidate_usage candidate))
     && is_fresh_authoritative_available (candidate_usage candidate)
  then
    let target_reference := reference (candidate_profile candidate) in
    generation ← runtime_call (handoff
      (mkSelection source (candidate_profile candidate) authorization (ep_id pool)
         (trigger_reason trigger) (trigger_observed_at trigger)
         (candidate_reservation candidate)));
    mret (Return (Selected (mkNotice (ep_alias pool) (ep_trust_domain_alias pool)
      (reference source) target_reference generation (trigger_reason trigger))))
  else if is_fresh_authoritative_exhaustion (candidate_usage candidate)
  then mret (Continue (bump_exhausted stop))
  else mret (Continue (bump_unknown stop)).

(** One turn of the loop for a member that is not the source. *)
Definition select_turn (pid : string) (stop : SelectionStop) : selM Turn :=
  if bool_decide (pid ∈ cooldown_profile_ids) then mret (Continue (bump_cooldown stop)) else
  authorization ← lift_result (map_err Policy
    (authorize_handoff definitions (ep_trust_domain_id pool) (profile_id source) pid Codex));
  cached ← runtime_call (cached_usage pid);
  if is_fresh_exhaustion_cached cached then mret (Continue (bump_exhausted stop)) else
  reserved ← runtime_call (reserve_and_revalidate pid);
  match reserved with
  | Busy => mret (Continue (bump_busy stop))
  | Unknown => mret (Continue (bump_unknown stop))
  | Ready candidate => consider_candidate pid authorization candidate stop
  end.

(** How the counters decide the outcome of a pass without a selection. *)
Definition conclude (stop : SelectionStop) : SelectionOutcome :=
  let eligible := saturating_sub_u (st_candidates stop) (st_cooldown stop) in
  if eligible =? 0 then NoEligible stop
  else if st_exhausted stop =? eligible then Exhausted stop
  else if (st_busy stop =? eligible) || (0 <? st_busy stop) then AllBusy stop
  else AllUnknown stop.

(** The loop over [1..members.len()]: the members from the position after the
    source, wrapping around; [visited] is the loop's [BTreeSet]. *)
Fixpoint select_loop (offsets : list nat) (source_index : nat) (visited : gset string)
    (stop : SelectionStop) : selM SelectionOutcome :=
  match offsets with
  | [] => mret (conclude stop)
  | offset :: offsets =>
      let members := ep_profile_ids pool in
      pid ← lift_result (ok_or (members !! ((source_index + offset) mod length members)%nat)
                           RuntimeInvariant);
      _ ← lift_result (reject_if (bool_decide (pid ∈ visited)) RuntimeInvariant);
      turn ← select_turn pid stop;
      match turn with
      | Continue stop => select_loop offsets source_index ({[pid]} ∪ visited) stop
      | Return o => mret o
      end
  end.

#[export] Instance EnabledPool_eq_dec : EqDecision EnabledPool.
Proof. solve_decision. Defined.

Definition select_once : selM SelectionOutcome :=
  current ← lift_result (map_err Policy
    (enabled_pool_for_source definitions (ep_id pool) (profile_id source)
       (profile_provider source)));
  _ ← lift_result (reject_if
        (negb (bool_decide (current = pool))
         || negb (provider_eqb (profile_provider source) (ep_provider pool))
         || negb (String.eqb (trigger_source_profile_id trigger) (profile_id source)))
        RuntimeInvariant);
  let members := ep_profile_ids pool in
  source_index ← lift_result (ok_or (position (fun p => String.eqb p (profile_id source)) members)
                                RuntimeInvariant);
  let stop := {|
    st_pool := ep_alias pool;
    st_trust_domain := ep_trust_domain_alias pool;
    st_source_profile := reference source;
    st_reason := trigger_reason trigger;
    st_candidates := saturating_sub_u (len members) 1;
    st_exhausted := 0; st_unknown := 0; st_busy := 0; st_cooldown := 0 |} in
  select_loop (seq 1 (length members - 1)) source_index {[profile_id source]} stop.
End select.
