(* ===== verification/SelectionProofs.v ===== *)
(** * Guarded selection: theorems (src/routing/selection.rs)

    A selection is one pass over the ring of the other members; it reserves
    every candidate at most once, hands off at most once, only to a candidate
    whose fresh authoritative usage it has just seen, and never continues
    after a handoff. *)
From S2P Require Import Prelude Interfaces Profiles RoutingDefs RoutingProofs UsageCache Selection.

Open Scope Z_scope.

(** ** The recording runtime *)

Section logged.
Context (SR : SelectionRuntime).

Inductive Call :=
| CCached (pid : string) (r : result (@rt_error SR) (option UsageView))
| CReserve (pid : string) (r : result (@rt_error SR) (ReservationResult (@Reservation SR)))
| CHandoff (sel : HandoffSelection (@Reservation SR)) (r : result (@rt_error SR) Z).

(** The runtime [SR] with the list of the calls made so far. *)
Definition logged : SelectionRuntime := {|
  rt := @rt SR * list Call;
  Reservation := @Reservation SR;
  rt_error := @rt_error SR;
  cached_usage pid := fun '(s, log) =>
    let '(r, s) := @cached_usage SR pid s in (r, (s, log ++ [CCached pid r]));
  reserve_and_revalidate pid := fun '(s, log) =>
    let '(r, s) := @reserve_and_revalidate SR pid s in (r, (s, log ++ [CReserve pid r]));
  handoff sel := fun '(s, log) =>
    let '(r, s) := @handoff SR sel s in (r, (s, log ++ [CHandoff sel r]));
|}.

Definition reserved_pid (c : Call) : option string :=
  match c with CReserve pid _ => Some pid | _ => None end.
Definition handed_off (c : Call) : option (HandoffSelection (@Reservation SR)) :=
  match c with CHandoff sel _ => Some sel | _ => None end.
(** The candidates a pass reserved, in order, and the handoffs it made. *)
Definition reserved (log : list Call) : list string := omap reserved_pid log.
Definition handoffs (log : list Call) : list (HandoffSelection (@Reservation SR)) :=
  omap handed_off log.

Lemma reserved_app l1 l2 : reserved (l1 ++ l2) = reserved l1 ++ reserved l2.
Proof. apply omap_app. Qed.
Lemma handoffs_app l1 l2 : handoffs (l1 ++ l2) = handoffs l1 ++ handoffs l2.
Proof. apply omap_app. Qed.
End logged.
Arguments CCached {SR}.
Arguments CReserve {SR}.
Arguments CHandoff {SR}.
Arguments reserved {SR}.
Arguments handoffs {SR}.

(** ** The ring *)

(** The members after position [i], then those before it. *)
Definition ring (members : list string) (i : nat) : list string :=
  drop (S i) members ++ take i members.

Lemma ring_lookup members i k : (i < length members)%nat → (k < length members - 1)%nat →
  members !! ((i + S k) mod length members)%nat = ring members i !! k.
Proof.
  intros Hi Hk. unfold ring. set (n := length members) in *.
  destruct (decide (k < n - S i)%nat) as [Hlt|Hge].
  - rewrite Nat.mod_small by lia. rewrite lookup_app_l by (rewrite length_drop; lia).
    rewrite lookup_drop. f_equal. lia.
  - rewrite lookup_app_r by (rewrite length_drop; lia).
    rewrite length_drop. fold n. rewrite lookup_take_lt by lia.
    f_equal. replace (i + S k)%nat with ((i + S k - n) + 1 * n)%nat by lia.
    rewrite Nat.Div0.mod_add, Nat.mod_small by lia. lia.
Qed.

Lemma length_ring members i : (i < length members)%nat →
  length (ring members i) = (length members - 1)%nat.
Proof. intros. unfold ring. rewrite length_app, length_drop, length_take. lia. Qed.

Lemma ring_perm members i x : members !! i = Some x → x :: ring members i ≡ₚ members.
Proof.
  intros Hx. rewrite <- (take_drop_middle members i x Hx) at 2. unfold ring.
  rewrite (Permutation_app_comm (take i members)). done.
Qed.

Section pass.
Context {UC : UuidCrate} {SR : SelectionRuntime}.
Context (definitions : Definitions) (pool : EnabledPool) (source : Profile).
Context (trigger : SelectionTrigger) (cooldown : gset string).

#[local] Instance pass_runtime : SelectionRuntime := logged SR.

(** The loop over the candidates themselves. *)
Fixpoint pass (pids : list string) (stop : SelectionStop)
    : stM rt (SelectionError rt_error) SelectionOutcome :=
  match pids with
  | [] => mret (conclude stop)
  | pid :: pids =>
      turn ← select_turn definitions pool source trigger cooldown pid stop;
      match turn with
      | Continue stop => pass pids stop
      | Return o => mret o
      end
  end.

Lemma select_loop_pass offsets i pids visited stop s :
  Forall2 (fun k pid => ep_profile_ids pool !! ((i + k) mod length (ep_profile_ids pool))%nat
                        = Some pid) offsets pids →
  NoDup pids → (∀ p, p ∈ pids → p ∉ visited) →
  select_loop definitions pool source trigger cooldown offsets i visited stop s = pass pids stop s.
Proof.
  intros Hf. revert visited stop s.
  induction Hf as [|k pid offsets pids Hk Hf IH]; intros visited stop s Hn Hv; [done|].
  apply NoDup_cons in Hn as [Hni Hn]. cbn [select_loop pass]. run_st. rewrite Hk. cbn [ok_or].
  rewrite bool_decide_false by (apply Hv; by left). cbn [reject_if].
  destruct (select_turn _ _ _ _ _ _ _ _) as [[[stop'|o]|e] s']; [|done..].
  apply IH; [done|]. intros p Hp [->%elem_of_singleton|?]%elem_of_union; [done|].
  apply (Hv p); [by right|done].
Qed.

(** What makes a handoff right: the candidate that was just reserved and
    revalidated, fresh and authoritative, not older than the trigger. *)
Definition justified (sel : HandoffSelection (@Reservation SR))
    (cand : ReservedCandidate (@Reservation SR)) : Prop :=
  hs_source sel = source ∧ hs_target sel = candidate_profile cand ∧
  hs_reservation sel = candidate_reservation cand ∧
  hs_pool_id sel = ep_id pool ∧ hs_reason sel = trigger_reason trigger ∧
  hs_trigger_observed_at sel = trigger_observed_at trigger ∧
  authorize_handoff definitions (ep_trust_domain_id pool) (profile_id source)
    (profile_id (hs_target sel)) Codex = Ok (hs_authorization sel) ∧
  profile_provider (hs_target sel) = ep_provider pool ∧
  is_fresh_authoritative_available (candidate_usage cand) = true ∧
  trigger_observed_at trigger <= uv_observed_at (candidate_usage cand).

Definition notice_for (sel : HandoffSelection (@Reservation SR)) (g : Z) : SelectionNotice :=
  mkNotice (ep_alias pool) (ep_trust_domain_alias pool) (reference source)
    (reference (hs_target sel)) g (trigger_reason trigger).

(** The end of a pass: either no handoff was made and nothing was selected,
    or the last two calls reserved the target and handed off to it. *)
Definition pass_end (log : list (Call SR)) (r : result (SelectionError (@rt_error SR)) SelectionOutcome)
    : Prop :=
  (handoffs log = [] ∧ ∀ n, r ≠ Ok (Selected n)) ∨
  (∃ log0 sel cand res, log = log0 ++ [CReserve (profile_id (hs_target sel)) (Ok (Ready cand));
                                        CHandoff sel res] ∧
     handoffs log0 = [] ∧ justified sel cand ∧
     r = match res with Ok g => Ok (Selected (notice_for sel g)) | Err e => Err (Runtime e) end).

Lemma pass_end_app log0 log r :
  handoffs log0 = [] → pass_end log r → pass_end (log0 ++ log) r.
Proof.
  intros H0 [[H1 H2]|(l & sel & cand & res & -> & H1 & H2 & H3)].
  - left. split; [|done]. by rewrite handoffs_app, H0, H1.
  - right. exists (log0 ++ l), sel, cand, res. split_and!; try done.
    + by rewrite app_assoc.
    + by rewrite handoffs_app, H0, H1.
Qed.

Lemma conclude_not_selected stop n : conclude stop ≠ Selected n.
Proof. unfold conclude. repeat case_match; done. Qed.

(** One turn appends to the log. *)
Lemma select_turn_spec pid stop s log r s' log' :
  select_turn definitions pool source trigger cooldown pid stop (s, log) = (r, (s', log')) →
  ∃ l, log' = log ++ l ∧ (pid ∈ cooldown → l = []) ∧
    (reserved l = [] ∨ reserved l = [pid]) ∧
    match r with
    | Ok (Continue _) => handoffs l = []
    | Ok (Return o) => pass_end l (Ok o)
    | Err e => pass_end l (Err e)
    end.
Proof.
  unfold select_turn, consider_candidate, runtime_call. run_st.
  case_bool_decide as Hcd.
  { intros [= <- <- <-]. exists []. rewrite app_nil_r. split_and!; auto. }
  destruct (authorize_handoff _ _ _ _ _) as [auth|e] eqn:Hauth; cbn [map_err].
  2:{ intros [= <- <- <-]. exists []. rewrite app_nil_r. split_and!; auto. left. done. }
  cbn [cached_usage reserve_and_revalidate handoff logged pass_runtime].
  destruct (@cached_usage SR pid s) as [rc s1] eqn:Hc.
  destruct rc as [cached|e]; cbn [map_err].
  2:{ intros [= <- <- <-]. exists [CCached pid (Err e)]. split_and!; auto; [done|]. left. done. }
  destruct (is_fresh_exhaustion_cached cached).
  { intros [= <- <- <-]. exists [CCached pid (Ok cached)]. split_and!; auto. done. }
  destruct (@reserve_and_revalidate SR pid s1) as [rr s2] eqn:Hr.
  destruct rr as [res|e]; cbn [map_err].
  2:{ intros [= <- <- <-]. rewrite <- app_assoc. eexists. split; [done|].
      split_and!; auto; [done|]. left. done. }
  destruct res as [cand| |].
  2:{ intros [= <- <- <-]. rewrite <- app_assoc. eexists. split; [done|]. split_and!; auto. done. }
  2:{ intros [= <- <- <-]. rewrite <- app_assoc. eexists. split; [done|]. split_and!; auto. done. }
  destruct (reject_if _ _) as [[]|e] eqn:Hrej.
  2:{ intros [= <- <- <-]. rewrite <- app_assoc. eexists. split; [done|].
      split_and!; auto; [done|]. left. done. }
  apply reject_if_Ok, orb_false_iff in Hrej as [Hid Hprov].
  apply negb_false_iff, String.eqb_eq in Hid. subst pid.
  apply negb_false_iff, provider_eqb_true in Hprov.
  destruct (_ && _) eqn:Hav.
  - apply andb_true_iff in Hav as [Hobs Hav]. apply Z.leb_le in Hobs.
    match goal with |- context [@handoff SR ?x s2] => set (sel := x) end.
    destruct (@handoff SR sel s2) as [rh s3] eqn:Hh.
    assert (justified sel cand) as Hj by by split_and!.
    destruct rh as [g|e]; cbn [map_err]; intros [= <- <- <-]; rewrite <- !app_assoc;
      (eexists; split; [done|]; split_and!; auto; [done|]; right).
    + by exists [CCached (profile_id (hs_target sel)) (Ok cached)], sel, cand, (Ok g).
    + by exists [CCached (profile_id (hs_target sel)) (Ok cached)], sel, cand, (Err e).
  - destruct (is_fresh_authoritative_exhaustion _); intros [= <- <- <-];
      rewrite <- app_assoc; eexists; (split; [done|]); split_and!; auto; done.
Qed.

Lemma pass_spec pids stop s log r s' log' :
  pass pids stop (s, log) = (r, (s', log')) →
  ∃ l, log' = log ++ l ∧ reserved l `sublist_of` pids ∧
    Forall (fun p => p ∉ cooldown) (reserved l) ∧ pass_end l r.
Proof.
  revert stop s log; induction pids as [|pid pids IH]; intros stop s log; cbn [pass]; run_st.
  { intros [= <- <- <-]. exists []. rewrite app_nil_r. split_and!; try done; [constructor..|].
    left. split; [done|]. intros n [= Hn]. by apply conclude_not_selected in Hn. }
  destruct (select_turn _ _ _ _ _ _ _ _) as [rt [s1 log1]] eqn:Ht.
  apply select_turn_spec in Ht as (l1 & -> & Hcd & Hres & Ht).
  assert (Hc1 : Forall (fun p => p ∉ cooldown) (reserved l1)).
  { destruct Hres as [Hre|Hre]; rewrite Hre; [constructor|]. constructor; [|constructor].
    intros Hin. rewrite (Hcd Hin) in Hre. done. }
  assert (Hsub : ∀ l2, l2 `sublist_of` pids → reserved l1 ++ l2 `sublist_of` pid :: pids).
  { intros l2 Hl2. destruct Hres as [-> | ->]; by constructor. }
  destruct rt as [[stop'|o]|e].
  - intros (l2 & -> & Hl2 & Hc2 & Hend)%IH. exists (l1 ++ l2).
    rewrite reserved_app. split_and!; auto; [by rewrite app_assoc|by apply Forall_app|].
    by apply pass_end_app.
  - intros [= <- <- <-]. exists l1. split_and!; auto. rewrite <- (app_nil_r (reserved l1)).
    apply Hsub, sublist_nil_l.
  - intros [= <- <- <-]. exists l1. split_and!; auto. rewrite <- (app_nil_r (reserved l1)).
    apply Hsub, sublist_nil_l.
Qed.

(** ** Accounting *)

Definition turns_counted (stop : SelectionStop) : Z :=
  st_exhausted stop + st_unknown stop + st_busy stop + st_cooldown stop.
Definition counters_ok (stop : SelectionStop) : Prop :=
  0 <= st_exhausted stop ∧ 0 <= st_unknown stop ∧ 0 <= st_busy stop ∧ 0 <= st_cooldown stop.
Definition cooled (pids : list string) : Z :=
  len (filter (fun p => p ∈ cooldown) pids).

Lemma select_turn_counts pid stop sl r sl' :
  select_turn definitions pool source trigger cooldown pid stop sl = (Ok (Continue r), sl') →
  counters_ok stop →
  counters_ok r ∧ st_candidates r = st_candidates stop ∧
  turns_counted r = turns_counted stop + 1 ∧
  st_cooldown r = st_cooldown stop + cooled [pid].
Proof.
  intros H (? & ? & ? & ?).
  assert (r = (if bool_decide (pid ∈ cooldown) then bump_cooldown stop else r) ∧
    (pid ∉ cooldown → r = bump_exhausted stop ∨ r = bump_unknown stop ∨ r = bump_busy stop))
    as [Hin Hout].
  { revert H. unfold select_turn, consider_candidate. run_st.
    case_bool_decide as Hcd; [by intros [= ->]|]. intros H. split; [done|]. intros _.
    repeat case_match; simplify_eq; auto. }
  unfold cooled, counters_ok, turns_counted, len. rewrite filter_cons, filter_nil.
  destruct (decide (pid ∈ cooldown)) as [Hc|Hc].
  - rewrite bool_decide_true in Hin by done. subst r. cbn. lia.
  - destruct (Hout Hc) as [-> |[-> | ->]]; cbn; lia.
Qed.

Definition stop_of (o : SelectionOutcome) : option SelectionStop :=
  match o with
  | Selected _ => None
  | Exhausted s | AllUnknown s | AllBusy s | NoEligible s => Some s
  end.

Lemma pass_counts pids stop sl o sl' :
  pass pids stop sl = (Ok o, sl') → counters_ok stop →
  (∃ n, o = Selected n) ∨
  ∃ s, o = conclude s ∧ counters_ok s ∧ st_candidates s = st_candidates stop ∧
    turns_counted s = turns_counted stop + len pids ∧
    st_cooldown s = st_cooldown stop + cooled pids.
Proof.
  revert stop sl; induction pids as [|pid pids IH]; intros stop sl; cbn [pass]; run_st.
  { intros [= <- _] Hc. right. exists stop.
    unfold cooled. rewrite filter_nil. unfold len. cbn. split_and!; auto; lia. }
  destruct (select_turn _ _ _ _ _ _ _ _) as [[[stop'|o']|e] sl1] eqn:Ht; [| |done].
  - intros H Hc. apply select_turn_counts in Ht as (Hc' & Hcand & Hturn & Hcool); [|done].
    destruct (IH _ _ H Hc') as [?|(s & -> & ? & ? & ? & ?)]; [by left|].
    right. exists s. split_and!; try done; [congruence| |].
    + unfold len in *. cbn [length]. lia.
    + rewrite Hcool in *. unfold cooled, len in *.
      change (pid :: pids) with ([pid] ++ pids). rewrite filter_app, length_app. lia.
  - intros [= <- _] _. left. revert Ht. unfold select_turn, consider_candidate. run_st.
    repeat case_match; intros; simplify_eq; eauto.
Qed.

(** ** [select_once] is a pass over the ring *)

Context {JC : JsonCodec Definitions}.

Lemma select_once_pass s r s' :
  valid_definitions definitions →
  select_once definitions pool source trigger cooldown s = (r, s') →
  (∃ e, r = Err (Policy e) ∧ s' = s ∧ ∀ p,
     enabled_pool_for_source definitions (ep_id pool) (profile_id source) (profile_provider source)
     ≠ Ok p) ∨ (r = Err RuntimeInvariant ∧ s' = s) ∨
  (enabled_pool_for_source definitions (ep_id pool) (profile_id source)
     (profile_provider source) = Ok pool ∧
   profile_provider source = ep_provider pool ∧
   trigger_source_profile_id trigger = profile_id source ∧
   ∃ i, ep_profile_ids pool !! i = Some (profile_id source) ∧
     NoDup (ring (ep_profile_ids pool) i) ∧ profile_id source ∉ ring (ep_profile_ids pool) i ∧
     pass (ring (ep_profile_ids pool) i)
       (mkStop (ep_alias pool) (ep_trust_domain_alias pool) (reference source)
          (trigger_reason trigger) (len (ring (ep_profile_ids pool) i)) 0 0 0 0) s = (r, s')).
Proof.
  intros Hv. unfold select_once. run_st.
  destruct (enabled_pool_for_source _ _ _ _) as [p|e] eqn:Hep; cbn [map_err].
  2:{ intros [= <- <-]. left. by exists e. }
  destruct (reject_if _ _) as [[]|e] eqn:Hrej.
  2:{ apply reject_if_Err in Hrej as [_ <-]. intros [= <- <-]. right; left. done. }
  apply reject_if_Ok in Hrej. inv_bool. subst p.
  match goal with H : provider_eqb _ _ = true |- _ => apply provider_eqb_true in H as Hprov end.
  apply enabled_pool_for_source_Ok in Hep as Hp; [|done].
  destruct Hp as (p & x & Hp & _ & _ & _ & _ & _ & _ & _ & Hpool).
  pose proof (proj1 (Forall_forall _ _) (v_pools definitions Hv) _ Hp) as Hvp.
  assert (Hnd : NoDup (ep_profile_ids pool)) by (rewrite Hpool; by destruct Hvp).
  destruct (position _ _) as [i|] eqn:Hpos; cbn [ok_or].
  2:{ intros [= <- <-]. right; left. done. }
  apply position_Some in Hpos as (y & Hi & Hy & _). apply String.eqb_eq in Hy. subst y.
  pose proof (ring_perm _ _ _ Hi) as Hperm. rewrite <- Hperm in Hnd.
  apply NoDup_cons in Hnd as [Hni Hnd].
  pose proof (lookup_lt_Some _ _ _ Hi) as Hlt.
  intros H. right; right. split_and!; try done. exists i. split_and!; try done.
  rewrite select_loop_pass with (pids := ring (ep_profile_ids pool) i) in H.
  - rewrite <- H. do 2 f_equal. unfold saturating_sub_u, len. rewrite length_ring by done. lia.
  - apply Forall2_same_length_lookup_2; [by rewrite length_seq, length_ring|].
    intros k a b Ha Hb. apply lookup_seq in Ha as [-> Hk].
    cbn [Nat.add]. by rewrite ring_lookup.
  - done.
  - intros q Hq ->%elem_of_singleton. done.
Qed.

(** a selection makes at most one handoff, as its very last call, and
    only to a candidate it has just reserved: a distinct member of the pool in
    the order of the ring after the source, not in cooldown, whose usage was
    freshly and authoritatively available at or after the trigger, within the
    authorised trust domain. Every candidate is reserved at most once, the
    source never; the result is a selection exactly when the handoff
    succeeded. *)
Lemma select_once_single_handoff s r s' log :
  valid_definitions definitions →
  select_once definitions pool source trigger cooldown (s, []) = (r, (s', log)) →
  NoDup (reserved log) ∧
  (∀ p, p ∈ reserved log → p ∈ ep_profile_ids pool ∧ p ≠ profile_id source ∧ p ∉ cooldown) ∧
  (∃ i, reserved log `sublist_of` ring (ep_profile_ids pool) i) ∧
  pass_end log r.
Proof.
  intros Hv H. apply select_once_pass in H as [(e & -> & [= -> ->] & _)|[[-> [= -> ->]]|H]];
    [..|done].
  1,2: split; [constructor|]; split; [by intros p []%elem_of_nil|];
    split; [exists 0%nat; apply sublist_nil_l|by left].
  destruct H as (_ & _ & _ & i & Hi & Hnd & Hsrc & H).
  apply pass_spec in H as (l & Hl & Hsub & Hcd & Hend). cbn in Hl. subst l.
  split_and!; [| |by exists i|done].
  - by eapply sublist_NoDup.
  - intros p Hp. rewrite Forall_forall in Hcd.
    assert (p ∈ ring (ep_profile_ids pool) i) as Hr by by eapply elem_of_sublist.
    split_and!; [|by intros ->|by apply Hcd].
    rewrite <- (ring_perm _ _ _ Hi). by right.
Qed.

(** a pass without a handoff accounts for every other member of the pool.
    The counters of the reported stop are the members in cooldown and the
    exhausted, busy and unknown ones, and add up to the pool without the
    source; the outcome follows from them: no eligible member, all eligible
    members exhausted, some member busy, or otherwise unknown. *)
Lemma select_once_accounts sl o sl' :
  valid_definitions definitions →
  select_once definitions pool source trigger cooldown sl = (Ok o, sl') →
  (∃ n, o = Selected n) ∨
  ∃ stop, o = conclude stop ∧ counters_ok stop ∧
    turns_counted stop = st_candidates stop ∧
    st_candidates stop = len (ep_profile_ids pool) - 1 ∧
    ∃ i, st_cooldown stop = cooled (ring (ep_profile_ids pool) i) ∧
      match o with
      | NoEligible _ => st_cooldown stop = st_candidates stop
      | Exhausted _ => st_exhausted stop + st_cooldown stop = st_candidates stop ∧
                       0 < st_exhausted stop
      | AllBusy _ => 0 < st_busy stop
      | AllUnknown _ => st_busy stop = 0 ∧ 0 < st_unknown stop
      | Selected _ => False
      end.
Proof.
  intros Hv H. apply select_once_pass in H as [(e & ? & _)|[[? _]|H]]; [done|done| |done].
  destruct H as (_ & _ & _ & i & Hi & _ & _ & H).
  apply pass_counts in H as [?|(stop & -> & Hc & Hcand & Hturn & Hcool)]; [by left| |unfold counters_ok; cbn; lia].
  right. exists stop. cbn in Hcand, Hcool. unfold turns_counted in *. cbn in Hturn.
  pose proof (lookup_lt_Some _ _ _ Hi) as Hlt.
  assert (len (ring (ep_profile_ids pool) i) = len (ep_profile_ids pool) - 1) as Hlen
    by (unfold len; rewrite length_ring; lia).
  split_and!; try done; [lia|lia|]. exists i. split; [lia|].
  destruct Hc as (? & ? & ? & ?). unfold conclude, saturating_sub_u.
  destruct (Z.eqb_spec (Z.max 0 (st_candidates stop - st_cooldown stop)) 0); [lia|].
  destruct (Z.eqb_spec (st_exhausted stop) (Z.max 0 (st_candidates stop - st_cooldown stop))); [lia|].
  destruct (Z.eqb_spec (st_busy stop) (Z.max 0 (st_candidates stop - st_cooldown stop)));
    destruct (Z.ltb_spec 0 (st_busy stop)); cbn; lia.
Qed.

Lemma select_turn_no_policy pid stop sl e sl' :
  (∀ p, p ∈ ep_profile_ids pool → p ≠ profile_id source →
     ∃ a, authorize_handoff definitions (ep_trust_domain_id pool) (profile_id source) p Codex = Ok a) →
  pid ∈ ep_profile_ids pool → pid ≠ profile_id source →
  select_turn definitions pool source trigger cooldown pid stop sl ≠ (Err (Policy e), sl').
Proof.
  intros Ha Hp Hne. destruct (Ha pid Hp Hne) as [a Hauth].
  unfold select_turn, consider_candidate, runtime_call. run_st. case_bool_decide; [done|].
  rewrite Hauth. cbn [map_err]. unfold reject_if, map_err.
  repeat case_match; intros; by simplify_eq.
Qed.

(** on the registry a pool was taken from, policy never gets in the way
    of a Codex pool: if the pool is what the valid registry hands out for the
    source and the trigger is the source's, selection cannot fail with a
    policy error, whatever the runtime answers. *)
Lemma select_once_no_policy_error sl r sl' :
  valid_definitions definitions → profile_provider source = Codex →
  enabled_pool_for_source definitions (ep_id pool) (profile_id source) Codex = Ok pool →
  select_once definitions pool source trigger cooldown sl = (r, sl') →
  ∀ e, r ≠ Err (Policy e).
Proof.
  intros Hv Hcodex Hep H e ->.
  apply select_once_pass in H as [(e' & _ & _ & Hno)|[[? _]|H]]; [|done| |done].
  { rewrite Hcodex in Hno. by eapply Hno. }
  destruct H as (_ & _ & _ & i & Hi & Hnd & Hsrc & H).
  assert (Hauth : ∀ p, p ∈ ep_profile_ids pool → p ≠ profile_id source → ∃ a,
    authorize_handoff definitions (ep_trust_domain_id pool) (profile_id source) p Codex = Ok a).
  { intros p Hp Hne. apply enabled_pool_for_source_Ok in Hep as
      (q & x & Hq & Hx & He & Hid & Hxid & Hpr & Hs & Hsub & Heq); [|done].
    rewrite Heq in Hp |- *. cbn in *. eexists. apply (authorize_handoff_iff definitions); [done|].
    pose proof (proj1 (Forall_forall _ _) (v_pools definitions Hv) _ Hq) as [_ _ Hdi _ _ Hm _].
    rewrite Forall_forall in Hm. split_and!; auto. exists x. split_and!; auto. }
  assert (Hring : ∀ p, p ∈ ring (ep_profile_ids pool) i →
    p ∈ ep_profile_ids pool ∧ p ≠ profile_id source).
  { intros p Hp. split; [|by intros ->]. rewrite <- (ring_perm _ _ _ Hi). by right. }
  revert H Hring. generalize (ring (ep_profile_ids pool) i). intros pids. clear Hnd Hsrc.
  match goal with |- pass _ ?st _ = _ → _ => generalize st end.
  revert sl. induction pids as [|pid pids IH]; intros sl stop; cbn [pass]; run_st; [done|].
  destruct (select_turn _ _ _ _ _ _ _ _) as [[[stop'|o]|e1] sl1] eqn:Ht; [| |].
  - intros H Hr. apply (IH sl1 stop' H). intros p Hp. apply Hr. by right.
  - done.
  - intros [= -> ->] Hr. destruct (Hr pid) as [? ?]; [by left|].
    by eapply select_turn_no_policy.
Qed.
End pass.

(** ** A concrete pass

    The pool's ring after the source [prof "3"] is [prof "1"], [prof "2"]; the
    first candidate is busy, the second is available. *)
Module SelectionExample.
Import RoutingExample.

Definition me : Profile := mkProfile (prof "3") "work" Codex 0.
Definition team : EnabledPool :=
  mkEnabledPool pool_1 "main" dom_id "team" Codex [prof "3"; prof "1"; prof "2"].
Definition available : UsageView :=
  mkView AvAvailable FrFresh 110 IdleRead None "x" Compatible None 0.
Definition hit : SelectionTrigger := mkTrigger (prof "3") AuthoritativeExhaustion 100.

Definition runtime (busy : list string) : SelectionRuntime := {|
  rt := ();
  Reservation := string;
  rt_error := ();
  cached_usage _ := fun s => (Ok None, s);
  reserve_and_revalidate pid := fun s =>
    (Ok (if bool_decide (pid ∈ busy) then Busy
         else Ready (mkCandidate (mkProfile pid "p" Codex 0) available pid)), s);
  handoff _ := fun s => (Ok 7, s);
|}.

Lemma select_once_single_handoff_witness :
  NoDup (@reserved (runtime [prof "1"]) (snd (snd
    (@select_once uuid_instance (logged (runtime [prof "1"])) (registry Enabled 4) team me hit ∅
       ((), []))))).
Proof.
  destruct (@select_once uuid_instance (logged (runtime [prof "1"])) (registry Enabled 4) team me
              hit ∅ ((), [])) as [r [s' log]] eqn:H.
  apply (select_once_single_handoff (SR := runtime [prof "1"]) (registry Enabled 4) team me hit ∅
           () r s' log); [|exact H].
  apply registry_valid. by left.
Defined.

Lemma select_once_accounts_witness :
  ∃ stop, conclude stop = AllBusy stop ∧ turns_counted stop = 2 ∧ 0 < st_busy stop.
Proof.
  destruct (select_once_accounts (SR := runtime [prof "1"; prof "2"]) (registry Enabled 4) team me
    hit ∅ ((), [])
    (AllBusy (mkStop "main" "team" "codex@work" AuthoritativeExhaustion 2 0 0 2 0))
    ((), [CCached (prof "1") (Ok None); CReserve (prof "1") (Ok Busy);
          CCached (prof "2") (Ok None); CReserve (prof "2") (Ok Busy)]))
    as [[n Hn]|(stop & Ho & _ & Ht & Hc & _ & _ & Hb)].
  - apply registry_valid. by left.
  - vm_compute. reflexivity.
  - discriminate Hn.
  - exists stop. split; [|split].
    + unfold conclude in *. repeat case_match; congruence.
    + rewrite Ht, Hc. reflexivity.
    + unfold conclude in Ho. repeat case_match; try discriminate Ho. injection Ho as <-. exact Hb.
Defined.

Lemma select_once_no_policy_error_witness :
  fst (@select_once uuid_instance (logged (runtime [])) (registry Enabled 4) team me hit ∅ ((), []))
  ≠ Err (Policy NotFound).
Proof.
  destruct (@select_once uuid_instance (logged (runtime [])) (registry Enabled 4) team me hit ∅
              ((), [])) as [r sl] eqn:H.
  apply (select_once_no_policy_error (SR := runtime []) (registry Enabled 4) team me hit ∅ ((), [])
           r sl); [| | |exact H].
  - apply registry_valid. by left.
  - reflexivity.
  - vm_compute. reflexivity.
Defined.
End SelectionExample.
