(* ===== verification/Wire.v ===== *)
(** * The supervisor wire protocol: messages and frames
    (src/providers/codex/supervisor/protocol.rs)

    The typed commands and events that cross the lifecycle channel between
    coordinator and guardian, their binary encoding, and the framed, bounded
    and deadline-checked I/O. [WireProofs] has the theorems, [Lifecycle] the
    transcript validator, [Receivers] the two receiving ends.

    A byte is a [Z] below 256; [u16] and [i32] fields are [Z]s of that range.
    The channel is a script of the outcomes of its [read], [write] and [flush]
    calls and the clock is an arbitrary function of the number of times it has
    been read, so that every interleaving of short reads, interruptions,
    would-block results and expiring deadlines is one value of the model. *)
From S2P Require Import Prelude Interfaces.

Open Scope Z_scope.

Definition MAGIC : bytes := [67; 76; 70; 82].
Definition PROTOCOL_VERSION : Z := 1.
Definition PAYLOAD_VERSION : Z := 1.
Definition HEADER_BYTES : Z := 8.
Definition MAX_FRAME_BYTES : Z := 64.
Definition MAX_BODY_BYTES : Z := MAX_FRAME_BYTES - HEADER_BYTES.
Definition USAGE_EXHAUSTED_EXIT_CODE : Z := 75.
Definition DIRECTION_MASK : Z := 128.
Definition TYPE_MASK : Z := 127.
Definition COORDINATOR_DIRECTION : Z := 0.
Definition GUARDIAN_DIRECTION : Z := 128.

Definition COORDINATOR_START : Z := 1.
Definition COORDINATOR_STOP : Z := 2.
Definition COORDINATOR_OPEN_INPUT_GATE : Z := 3.
Definition COORDINATOR_SIGNAL : Z := 4.
Definition COORDINATOR_RESIZE : Z := 5.
Definition COORDINATOR_SUSPEND : Z := 6.
Definition COORDINATOR_RESUME : Z := 7.
Definition COORDINATOR_TERMINAL_RESTORED : Z := 8.
Definition COORDINATOR_TERMINAL_ARM_ACCEPTED : Z := 9.
Definition COORDINATOR_CHILD_DESCRIPTORS_VERIFIED : Z := 10.

Definition GUARDIAN_LEASE_COMMITTED : Z := 1.
Definition GUARDIAN_CHILD_STARTED : Z := 2.
Definition GUARDIAN_READY : Z := 3.
Definition GUARDIAN_FAILED : Z := 4.
Definition GUARDIAN_CHILDREN_REAPED : Z := 5.
Definition GUARDIAN_TERMINAL_ARMED : Z := 6.
Definition GUARDIAN_INPUT_GATE_OPENED : Z := 7.
Definition GUARDIAN_SIGNAL_FORWARDED : Z := 8.
Definition GUARDIAN_RESIZE_APPLIED : Z := 9.
Definition GUARDIAN_SUSPENDED : Z := 10.
Definition GUARDIAN_RESUMED : Z := 11.
Definition GUARDIAN_TERMINAL_QUIESCED : Z := 12.
Definition GUARDIAN_TERMINAL_RECOVERY_DISARMED : Z := 13.
Definition GUARDIAN_USAGE_EXHAUSTED : Z := 14.

Definition EMPTY_BODY_BYTES : Z := 1.
Definition SNAPSHOT_FINGERPRINT_BYTES : Z := 32.
Definition TERMINAL_ARMED_BODY_BYTES : Z := 1 + SNAPSHOT_FINGERPRINT_BYTES.
Definition SIGNAL_BODY_BYTES : Z := 2.
Definition CHILD_ROLE_BODY_BYTES : Z := 2.
Definition TERMINAL_SIZE_BODY_BYTES : Z := 5.
Definition CHILD_STARTED_BODY_BYTES : Z := 10.
Definition FAILED_BODY_BYTES : Z := 3.
Definition CHILD_DISPOSITION_BYTES : Z := 4.
Definition CHILDREN_REAPED_BODY_BYTES : Z := 14.

(** ** Messages *)

Inductive UnixSignal := Hup | Int | Quit | Term.
Inductive ChildRole := AppServer | Tui.
Inductive Phase :=
| Ph_Lease | Ph_Runtime | Ph_Worker | Ph_AppServer | Ph_Tui | Ph_Readiness | Ph_Shutdown
| Ph_Reap | Ph_Cleanup | Ph_Protocol | Ph_Terminal | Ph_Pump | Ph_Signal | Ph_Restore.
Inductive FailureCode :=
| Fc_Timeout | Fc_Descriptor | Fc_Lease | Fc_Spawn | Fc_EarlyExit | Fc_Worker | Fc_Containment
| Fc_Wait | Fc_CleanupMismatch | Fc_InvalidControl | Fc_Internal | Fc_Terminal | Fc_Pump
| Fc_Signal | Fc_Restore.
Inductive StopAction := Sa_None | Sa_Term | Sa_Kill.
Inductive ChildDisposition :=
| NotStarted
| Exited (code : Z) (stop_action : StopAction)
| Signaled (signal : Z) (core_dumped : bool) (stop_action : StopAction).
Inductive WorkerJoinStatus := Wj_NotStarted | JoinedClean | JoinedFailed | JoinedPanicked.
Inductive CleanupStatus := Complete.
Inductive SessionStatus := Completed | Failed_.
Inductive SessionTerminationCause :=
| NaturalTuiEof | CoordinatorStop | ForwardedHup | ForwardedTerm | UsageExhaustion.
Inductive GuardianExitDisposition :=
| Ge_Code (code : Z) | Ge_Signal (signal : Z) | Ge_UsageExhausted | Ge_InternalFailure.

(** The digest of a terminal snapshot: thirty-two bytes. *)
Definition TerminalSnapshotFingerprint : Type := bytes.

Inductive CoordinatorCommand :=
| Start
| TerminalArmAccepted
| ChildDescriptorsVerified (role : ChildRole)
| Stop
| OpenInputGate
| Signal (signal : UnixSignal)
| Resize (rows cols : Z)
| Suspend
| Resume (rows cols : Z)
| TerminalRestored.

Inductive GuardianEvent :=
| LeaseCommitted
| TerminalArmed (snapshot : TerminalSnapshotFingerprint)
| ChildStarted (role : ChildRole) (pid pgid : Z)
| Ready
| InputGateOpened
| SignalForwarded (signal : UnixSignal)
| ResizeApplied (rows cols : Z)
| Suspended
| Resumed (rows cols : Z)
| UsageExhausted
| TerminalQuiesced
| TerminalRecoveryDisarmed
| Failed (phase : Phase) (code : FailureCode)
| ChildrenReaped (app tui : ChildDisposition) (worker : WorkerJoinStatus)
    (cleanup : CleanupStatus) (session : SessionStatus)
    (guardian_exit : GuardianExitDisposition).

Inductive ProtocolError :=
| Timeout | UnexpectedEof | TruncatedHeader | TruncatedBody | ZeroLength | OversizedBody
| BadMagic | UnsupportedVersion | WrongDirection | UnknownType | InvalidLength
| InvalidValue | TrailingData | UnexpectedState | Io.

#[export] Instance UnixSignal_eq_dec : EqDecision UnixSignal.
Proof. solve_decision. Defined.
#[export] Instance ChildRole_eq_dec : EqDecision ChildRole.
Proof. solve_decision. Defined.
#[export] Instance Phase_eq_dec : EqDecision Phase.
Proof. solve_decision. Defined.
#[export] Instance FailureCode_eq_dec : EqDecision FailureCode.
Proof. solve_decision. Defined.
#[export] Instance StopAction_eq_dec : EqDecision StopAction.
Proof. solve_decision. Defined.
#[export] Instance ChildDisposition_eq_dec : EqDecision ChildDisposition.
Proof. solve_decision. Defined.
#[export] Instance WorkerJoinStatus_eq_dec : EqDecision WorkerJoinStatus.
Proof. solve_decision. Defined.
#[export] Instance SessionStatus_eq_dec : EqDecision SessionStatus.
Proof. solve_decision. Defined.
#[export] Instance Cause_eq_dec : EqDecision SessionTerminationCause.
Proof. solve_decision. Defined.
#[export] Instance GuardianExit_eq_dec : EqDecision GuardianExitDisposition.
Proof. solve_decision. Defined.
#[export] Instance CleanupStatus_eq_dec : EqDecision CleanupStatus.
Proof. solve_decision. Defined.
#[export] Instance Command_eq_dec : EqDecision CoordinatorCommand.
Proof. solve_decision. Defined.
#[export] Instance Event_eq_dec : EqDecision GuardianEvent.
Proof. solve_decision. Defined.
#[export] Instance ProtocolError_eq_dec : EqDecision ProtocolError.
Proof. solve_decision. Defined.

(** ** Field encodings *)

(** [to_be_bytes] and [from_be_bytes] of [u16] and [i32]. *)
Definition u16_to_be (n : Z) : bytes := [n / 256; n mod 256].
Definition u16_from_be (b0 b1 : Z) : Z := b0 * 256 + b1.
Definition i32_to_be (n : Z) : bytes :=
  let u := n mod 2 ^ 32 in [u / 2 ^ 24; (u / 2 ^ 16) mod 256; (u / 2 ^ 8) mod 256; u mod 256].
Definition i32_from_be (b0 b1 b2 b3 : Z) : Z :=
  let u := b0 * 2 ^ 24 + b1 * 2 ^ 16 + b2 * 2 ^ 8 + b3 in
  if u <? 2 ^ 31 then u else u - 2 ^ 32.

Definition validate_process_group (pid pgid : Z) : result ProtocolError () :=
  if (0 <? pid) && (pgid =? pid) then Ok () else Err InvalidValue.

Definition validate_terminal_size (rows cols : Z) : result ProtocolError () :=
  if (rows =? 0) || (cols =? 0) then Err InvalidValue else Ok ().

Definition encode_child_role (r : ChildRole) : Z :=
  match r with AppServer => 1 | Tui => 2 end.
Definition decode_child_role (v : Z) : result ProtocolError ChildRole :=
  if v =? 1 then Ok AppServer else if v =? 2 then Ok Tui else Err InvalidValue.

Definition encode_unix_signal (s : UnixSignal) : Z :=
  match s with Hup => 1 | Int => 2 | Quit => 3 | Term => 4 end.
Definition decode_unix_signal (v : Z) : result ProtocolError UnixSignal :=
  if v =? 1 then Ok Hup else if v =? 2 then Ok Int else if v =? 3 then Ok Quit
  else if v =? 4 then Ok Term else Err InvalidValue.

Definition encode_stop_action (a : StopAction) : Z :=
  match a with Sa_None => 0 | Sa_Term => 1 | Sa_Kill => 2 end.
Definition decode_stop_action (v : Z) : result ProtocolError StopAction :=
  if v =? 0 then Ok Sa_None else if v =? 1 then Ok Sa_Term else if v =? 2 then Ok Sa_Kill
  else Err InvalidValue.

Definition encode_phase (p : Phase) : Z :=
  match p with
  | Ph_Lease => 1 | Ph_Runtime => 2 | Ph_Worker => 3 | Ph_AppServer => 4 | Ph_Tui => 5
  | Ph_Readiness => 6 | Ph_Shutdown => 7 | Ph_Reap => 8 | Ph_Cleanup => 9 | Ph_Protocol => 10
  | Ph_Terminal => 11 | Ph_Pump => 12 | Ph_Signal => 13 | Ph_Restore => 14
  end.
Definition decode_phase (v : Z) : result ProtocolError Phase :=
  match v with
  | 1 => Ok Ph_Lease | 2 => Ok Ph_Runtime | 3 => Ok Ph_Worker | 4 => Ok Ph_AppServer
  | 5 => Ok Ph_Tui | 6 => Ok Ph_Readiness | 7 => Ok Ph_Shutdown | 8 => Ok Ph_Reap
  | 9 => Ok Ph_Cleanup | 10 => Ok Ph_Protocol | 11 => Ok Ph_Terminal | 12 => Ok Ph_Pump
  | 13 => Ok Ph_Signal | 14 => Ok Ph_Restore
  | _ => Err InvalidValue
  end.

Definition encode_failure_code (c : FailureCode) : Z :=
  match c with
  | Fc_Timeout => 1 | Fc_Descriptor => 2 | Fc_Lease => 3 | Fc_Spawn => 4 | Fc_EarlyExit => 5
  | Fc_Worker => 6 | Fc_Containment => 7 | Fc_Wait => 8 | Fc_CleanupMismatch => 9
  | Fc_InvalidControl => 10 | Fc_Internal => 11 | Fc_Terminal => 12 | Fc_Pump => 13
  | Fc_Signal => 14 | Fc_Restore => 15
  end.
Definition decode_failure_code (v : Z) : result ProtocolError FailureCode :=
  match v with
  | 1 => Ok Fc_Timeout | 2 => Ok Fc_Descriptor | 3 => Ok Fc_Lease | 4 => Ok Fc_Spawn
  | 5 => Ok Fc_EarlyExit | 6 => Ok Fc_Worker | 7 => Ok Fc_Containment | 8 => Ok Fc_Wait
  | 9 => Ok Fc_CleanupMismatch | 10 => Ok Fc_InvalidControl | 11 => Ok Fc_Internal
  | 12 => Ok Fc_Terminal | 13 => Ok Fc_Pump | 14 => Ok Fc_Signal | 15 => Ok Fc_Restore
  | _ => Err InvalidValue
  end.

Definition encode_worker_join_status (w : WorkerJoinStatus) : Z :=
  match w with Wj_NotStarted => 0 | JoinedClean => 1 | JoinedFailed => 2 | JoinedPanicked => 3 end.
Definition decode_worker_join_status (v : Z) : result ProtocolError WorkerJoinStatus :=
  match v with
  | 0 => Ok Wj_NotStarted | 1 => Ok JoinedClean | 2 => Ok JoinedFailed | 3 => Ok JoinedPanicked
  | _ => Err InvalidValue
  end.

Definition encode_cleanup_status (c : CleanupStatus) : Z := match c with Complete => 1 end.
Definition decode_cleanup_status (v : Z) : result ProtocolError CleanupStatus :=
  match v with 1 => Ok Complete | _ => Err InvalidValue end.

Definition encode_session_status (s : SessionStatus) : Z :=
  match s with Completed => 1 | Failed_ => 2 end.
Definition decode_session_status (v : Z) : result ProtocolError SessionStatus :=
  match v with 1 => Ok Completed | 2 => Ok Failed_ | _ => Err InvalidValue end.

(** The output slices of the source have the right length at every call; the
    encoders here return what they write. *)
Definition encode_terminal_size (rows cols : Z) : result ProtocolError bytes :=
  _ ← validate_terminal_size rows cols;
  Ok (u16_to_be rows ++ u16_to_be cols).
Definition decode_terminal_size (input : bytes) : result ProtocolError (Z * Z) :=
  match input with
  | [b0; b1; b2; b3] =>
      let rows := u16_from_be b0 b1 in
      let cols := u16_from_be b2 b3 in
      _ ← validate_terminal_size rows cols;
      Ok (rows, cols)
  | _ => Err InvalidLength
  end.

Definition encode_child_disposition (d : ChildDisposition) : result ProtocolError bytes :=
  match d with
  | NotStarted => Ok [0; 0; 0; 0]
  | Exited code a => Ok [1; code; encode_stop_action a; 0]
  | Signaled signal core a =>
      _ ← reject_if ((signal =? 0) || (127 <? signal)) InvalidValue;
      Ok [2; signal; encode_stop_action a; if core then 1 else 0]
  end.
Definition decode_child_disposition (input : bytes) : result ProtocolError ChildDisposition :=
  match input with
  | [b0; b1; b2; b3] =>
      a ← decode_stop_action b2;
      if (b0 =? 0) && (b1 =? 0) && bool_decide (a = Sa_None) && (b3 =? 0) then Ok NotStarted
      else if (b0 =? 1) && (b3 =? 0) then Ok (Exited b1 a)
      else if (b0 =? 2) && ((1 <=? b1) && (b1 <=? 127)) && (b3 <=? 1)
           then Ok (Signaled b1 (b3 =? 1) a)
      else Err InvalidValue
  | _ => Err InvalidLength
  end.

Definition encode_guardian_exit_disposition (d : GuardianExitDisposition)
    : result ProtocolError bytes :=
  match d with
  | Ge_Code code => Ok [1; code]
  | Ge_Signal signal =>
      if (1 <=? signal) && (signal <=? 127) then Ok [2; signal] else Err InvalidValue
  | Ge_InternalFailure => Ok [3; 0]
  | Ge_UsageExhausted => Ok [4; 0]
  end.
Definition decode_guardian_exit_disposition (input : bytes)
    : result ProtocolError GuardianExitDisposition :=
  match input with
  | [b0; b1] =>
      if b0 =? 1 then Ok (Ge_Code b1)
      else if (b0 =? 2) && ((1 <=? b1) && (b1 <=? 127)) then Ok (Ge_Signal b1)
      else if (b0 =? 3) && (b1 =? 0) then Ok Ge_InternalFailure
      else if (b0 =? 4) && (b1 =? 0) then Ok Ge_UsageExhausted
      else Err InvalidValue
  | _ => Err InvalidLength
  end.

(** ** Message encodings: the type and the body *)

Definition encode_coordinator_command (c : CoordinatorCommand)
    : result ProtocolError (Z * bytes) :=
  match c with
  | Start => Ok (COORDINATOR_START, [PAYLOAD_VERSION])
  | TerminalArmAccepted => Ok (COORDINATOR_TERMINAL_ARM_ACCEPTED, [PAYLOAD_VERSION])
  | ChildDescriptorsVerified role =>
      Ok (COORDINATOR_CHILD_DESCRIPTORS_VERIFIED, [PAYLOAD_VERSION; encode_child_role role])
  | Stop => Ok (COORDINATOR_STOP, [PAYLOAD_VERSION])
  | OpenInputGate => Ok (COORDINATOR_OPEN_INPUT_GATE, [PAYLOAD_VERSION])
  | Signal signal => Ok (COORDINATOR_SIGNAL, [PAYLOAD_VERSION; encode_unix_signal signal])
  | Resize rows cols =>
      size ← encode_terminal_size rows cols;
      Ok (COORDINATOR_RESIZE, PAYLOAD_VERSION :: size)
  | Suspend => Ok (COORDINATOR_SUSPEND, [PAYLOAD_VERSION])
  | Resume rows cols =>
      size ← encode_terminal_size rows cols;
      Ok (COORDINATOR_RESUME, PAYLOAD_VERSION :: size)
  | TerminalRestored => Ok (COORDINATOR_TERMINAL_RESTORED, [PAYLOAD_VERSION])
  end.

Definition encode_guardian_event (e : GuardianEvent) : result ProtocolError (Z * bytes) :=
  match e with
  | LeaseCommitted => Ok (GUARDIAN_LEASE_COMMITTED, [PAYLOAD_VERSION])
  | TerminalArmed snapshot => Ok (GUARDIAN_TERMINAL_ARMED, PAYLOAD_VERSION :: snapshot)
  | ChildStarted role pid pgid =>
      _ ← validate_process_group pid pgid;
      Ok (GUARDIAN_CHILD_STARTED,
          PAYLOAD_VERSION :: encode_child_role role :: i32_to_be pid ++ i32_to_be pgid)
  | Ready => Ok (GUARDIAN_READY, [PAYLOAD_VERSION])
  | InputGateOpened => Ok (GUARDIAN_INPUT_GATE_OPENED, [PAYLOAD_VERSION])
  | SignalForwarded signal =>
      Ok (GUARDIAN_SIGNAL_FORWARDED, [PAYLOAD_VERSION; encode_unix_signal signal])
  | ResizeApplied rows cols =>
      size ← encode_terminal_size rows cols;
      Ok (GUARDIAN_RESIZE_APPLIED, PAYLOAD_VERSION :: size)
  | Suspended => Ok (GUARDIAN_SUSPENDED, [PAYLOAD_VERSION])
  | Resumed rows cols =>
      size ← encode_terminal_size rows cols;
      Ok (GUARDIAN_RESUMED, PAYLOAD_VERSION :: size)
  | UsageExhausted => Ok (GUARDIAN_USAGE_EXHAUSTED, [PAYLOAD_VERSION])
  | TerminalQuiesced => Ok (GUARDIAN_TERMINAL_QUIESCED, [PAYLOAD_VERSION])
  | TerminalRecoveryDisarmed => Ok (GUARDIAN_TERMINAL_RECOVERY_DISARMED, [PAYLOAD_VERSION])
  | Failed phase code =>
      Ok (GUARDIAN_FAILED, [PAYLOAD_VERSION; encode_phase phase; encode_failure_code code])
  | ChildrenReaped app tui worker cleanup session guardian_exit =>
      app ← encode_child_disposition app;
      tui ← encode_child_disposition tui;
      exit ← encode_guardian_exit_disposition guardian_exit;
      Ok (GUARDIAN_CHILDREN_REAPED,
          PAYLOAD_VERSION :: app ++ tui
            ++ [encode_worker_join_status worker; encode_cleanup_status cleanup;
                encode_session_status session] ++ exit)
  end.

(** A received frame: the body is the [body_len] bytes of its buffer. *)
Record ReceivedFrame := mkFrame {
  message_type : Z;
  frame_body : bytes;
}.

Definition require_exact_len (f : ReceivedFrame) (expected : Z) : result ProtocolError () :=
  if len (frame_body f) <? expected then Err InvalidLength
  else if expected <? len (frame_body f) then Err TrailingData
  else Ok ().

Definition require_payload_version (f : ReceivedFrame) : result ProtocolError () :=
  match frame_body f with
  | b :: _ => if b =? PAYLOAD_VERSION then Ok () else Err InvalidValue
  | [] => Err InvalidValue
  end.

(** [frame.body[i]] and [frame.body[i..j]], in range after the length check. *)
Definition byte_at (f : ReceivedFrame) (i : nat) : Z := default 0 (frame_body f !! i).
Definition slice (f : ReceivedFrame) (i j : nat) : bytes := take (j - i) (drop i (frame_body f)).

(** The two checks every arm starts with. *)
Definition require_body (f : ReceivedFrame) (expected : Z) : result ProtocolError () :=
  _ ← require_exact_len f expected;
  require_payload_version f.

Definition decode_coordinator_command (f : ReceivedFrame)
    : result ProtocolError CoordinatorCommand :=
  let t := message_type f in
  if t =? COORDINATOR_START then _ ← require_body f EMPTY_BODY_BYTES; Ok Start
  else if t =? COORDINATOR_STOP then _ ← require_body f EMPTY_BODY_BYTES; Ok Stop
  else if t =? COORDINATOR_OPEN_INPUT_GATE then
    _ ← require_body f EMPTY_BODY_BYTES; Ok OpenInputGate
  else if t =? COORDINATOR_SIGNAL then
    _ ← require_body f SIGNAL_BODY_BYTES;
    signal ← decode_unix_signal (byte_at f 1);
    Ok (Signal signal)
  else if t =? COORDINATOR_RESIZE then
    _ ← require_body f TERMINAL_SIZE_BODY_BYTES;
    size ← decode_terminal_size (slice f 1 5);
    Ok (Resize (fst size) (snd size))
  else if t =? COORDINATOR_SUSPEND then _ ← require_body f EMPTY_BODY_BYTES; Ok Suspend
  else if t =? COORDINATOR_RESUME then
    _ ← require_body f TERMINAL_SIZE_BODY_BYTES;
    size ← decode_terminal_size (slice f 1 5);
    Ok (Resume (fst size) (snd size))
  else if t =? COORDINATOR_TERMINAL_RESTORED then
    _ ← require_body f EMPTY_BODY_BYTES; Ok TerminalRestored
  else if t =? COORDINATOR_TERMINAL_ARM_ACCEPTED then
    _ ← require_body f EMPTY_BODY_BYTES; Ok TerminalArmAccepted
  else if t =? COORDINATOR_CHILD_DESCRIPTORS_VERIFIED then
    _ ← require_body f CHILD_ROLE_BODY_BYTES;
    role ← decode_child_role (byte_at f 1);
    Ok (ChildDescriptorsVerified role)
  else Err UnknownType.

Definition read_i32 (b : bytes) : Z :=
  match b with [b0; b1; b2; b3] => i32_from_be b0 b1 b2 b3 | _ => 0 end.

Definition decode_guardian_event (f : ReceivedFrame) : result ProtocolError GuardianEvent :=
  let t := message_type f in
  if t =? GUARDIAN_LEASE_COMMITTED then _ ← require_body f EMPTY_BODY_BYTES; Ok LeaseCommitted
  else if t =? GUARDIAN_TERMINAL_ARMED then
    _ ← require_body f TERMINAL_ARMED_BODY_BYTES; Ok (TerminalArmed (slice f 1 33))
  else if t =? GUARDIAN_CHILD_STARTED then
    _ ← require_body f CHILD_STARTED_BODY_BYTES;
    role ← decode_child_role (byte_at f 1);
    let pid := read_i32 (slice f 2 6) in
    let pgid := read_i32 (slice f 6 10) in
    _ ← validate_process_group pid pgid;
    Ok (ChildStarted role pid pgid)
  else if t =? GUARDIAN_READY then _ ← require_body f EMPTY_BODY_BYTES; Ok Ready
  else if t =? GUARDIAN_INPUT_GATE_OPENED then
    _ ← require_body f EMPTY_BODY_BYTES; Ok InputGateOpened
  else if t =? GUARDIAN_SIGNAL_FORWARDED then
    _ ← require_body f SIGNAL_BODY_BYTES;
    signal ← decode_unix_signal (byte_at f 1);
    Ok (SignalForwarded signal)
  else if t =? GUARDIAN_RESIZE_APPLIED then
    _ ← require_body f TERMINAL_SIZE_BODY_BYTES;
    size ← decode_terminal_size (slice f 1 5);
    Ok (ResizeApplied (fst size) (snd size))
  else if t =? GUARDIAN_SUSPENDED then _ ← require_body f EMPTY_BODY_BYTES; Ok Suspended
  else if t =? GUARDIAN_RESUMED then
    _ ← require_body f TERMINAL_SIZE_BODY_BYTES;
    size ← decode_terminal_size (slice f 1 5);
    Ok (Resumed (fst size) (snd size))
  else if t =? GUARDIAN_USAGE_EXHAUSTED then
    _ ← require_body f EMPTY_BODY_BYTES; Ok UsageExhausted
  else if t =? GUARDIAN_TERMINAL_QUIESCED then
    _ ← require_body f EMPTY_BODY_BYTES; Ok TerminalQuiesced
  else if t =? GUARDIAN_TERMINAL_RECOVERY_DISARMED then
    _ ← require_body f EMPTY_BODY_BYTES; Ok TerminalRecoveryDisarmed
  else if t =? GUARDIAN_FAILED then
    _ ← require_body f FAILED_BODY_BYTES;
    phase ← decode_phase (byte_at f 1);
    code ← decode_failure_code (byte_at f 2);
    Ok (Failed phase code)
  else if t =? GUARDIAN_CHILDREN_REAPED then
    _ ← require_body f CHILDREN_REAPED_BODY_BYTES;
    app ← decode_child_disposition (slice f 1 5);
    tui ← decode_child_disposition (slice f 5 9);
    worker ← decode_worker_join_status (byte_at f 9);
    cleanup ← decode_cleanup_status (byte_at f 10);
    session ← decode_session_status (byte_at f 11);
    guardian_exit ← decode_guardian_exit_disposition (slice f 12 14);
    Ok (ChildrenReaped app tui worker cleanup session guardian_exit)
  else Err UnknownType.

(** ** The channel *)

(** The outcome of one [read]: a chunk of the stream, of which a call takes
    what fits its buffer; a length beyond the buffer; or an error kind. *)
Inductive ReadEvent :=
| RData (chunk : bytes) | ROverrun | RInterrupted | RWouldBlock | RFailed.

(** The outcome of one [write] ([WAccept n]: the call returned [Ok(n)]) or
    [flush]. *)
Inductive WriteEvent := WAccept (n : nat) | WInterrupted | WWouldBlock | WFailed.
Inductive FlushEvent := FDone | FInterrupted | FWouldBlock | FFailed.

Record Channel := mkChannel {
  rx : list ReadEvent;
  wx : list WriteEvent;
  fx : list FlushEvent;
  tx : bytes;
  ticks : nat;
}.

Definition set_rx (l : list ReadEvent) (c : Channel) : Channel :=
  mkChannel l (wx c) (fx c) (tx c) (ticks c).
Definition set_wx (l : list WriteEvent) (c : Channel) : Channel :=
  mkChannel (rx c) l (fx c) (tx c) (ticks c).
Definition set_fx (l : list FlushEvent) (c : Channel) : Channel :=
  mkChannel (rx c) (wx c) l (tx c) (ticks c).
Definition push_tx (b : bytes) (c : Channel) : Channel :=
  mkChannel (rx c) (wx c) (fx c) (tx c ++ b) (ticks c).
Definition tick (c : Channel) : Channel :=
  mkChannel (rx c) (wx c) (fx c) (tx c) (S (ticks c)).

Inductive ReadPart := Header | Body.

Section io.
(** [Instant::now()] at its n-th call, and the absolute deadline. *)
Context (clock : nat → Z) (deadline : Z).

Definition check_deadline : stM Channel ProtocolError () :=
  c ← get_st;
  let now := clock (ticks c) in
  _ ← modify_st tick;
  if deadline <=? now then throw Timeout else mret ().

(** [yield_now] between the two checks has no effect here. *)
Definition wait_for_deadline_retry : stM Channel ProtocolError () :=
  _ ← check_deadline;
  check_deadline.

Definition eof_error (part : ReadPart) (offset : nat) : ProtocolError :=
  match part, offset with
  | Header, O => UnexpectedEof
  | Header, _ => TruncatedHeader
  | Body, _ => TruncatedBody
  end.

(** The loop of [read_exact_before], over the script: [need] bytes are still
    missing, [offset] have been read. *)
Fixpoint read_loop (script : list ReadEvent) (part : ReadPart) (offset need : nat)
    : stM Channel ProtocolError bytes :=
  match need with
  | O => _ ← modify_st (set_rx script); mret []
  | S _ =>
      _ ← modify_st (set_rx script);
      _ ← check_deadline;
      match script with
      | [] => throw (eof_error part offset)
      | RData [] :: rest =>
          _ ← modify_st (set_rx rest);
          throw (eof_error part offset)
      | RData chunk :: rest =>
          if Nat.leb (length chunk) need then
            _ ← modify_st (set_rx rest);
            _ ← check_deadline;
            more ← read_loop rest part (offset + length chunk) (need - length chunk);
            mret (chunk ++ more)
          else
            _ ← modify_st (set_rx (RData (drop need chunk) :: rest));
            _ ← check_deadline;
            mret (take need chunk)
      | RInterrupted :: rest => read_loop rest part offset need
      | RWouldBlock :: rest =>
          _ ← modify_st (set_rx rest);
          _ ← wait_for_deadline_retry;
          read_loop rest part offset need
      | (ROverrun | RFailed) :: rest =>
          _ ← modify_st (set_rx rest);
          throw Io
      end
  end.

Definition read_exact_before (part : ReadPart) (need : nat) : stM Channel ProtocolError bytes :=
  c ← get_st;
  read_loop (rx c) part 0 need.

Definition receive_frame (expected_direction : Z) : stM Channel ProtocolError ReceivedFrame :=
  header ← read_exact_before Header (Z.to_nat HEADER_BYTES);
  match header with
  | [m0; m1; m2; m3; version; direction_and_type; l0; l1] =>
      _ ← lift_result (reject_if (negb (bool_decide ([m0; m1; m2; m3] = MAGIC))) BadMagic);
      _ ← lift_result (reject_if (negb (version =? PROTOCOL_VERSION)) UnsupportedVersion);
      _ ← lift_result (reject_if
            (negb (Z.land direction_and_type DIRECTION_MASK =? expected_direction)) WrongDirection);
      let t := Z.land direction_and_type TYPE_MASK in
      _ ← lift_result (reject_if (t =? 0) UnknownType);
      let body_len := u16_from_be l0 l1 in
      _ ← lift_result (reject_if (body_len =? 0) ZeroLength);
      _ ← lift_result (reject_if (MAX_BODY_BYTES <? body_len) OversizedBody);
      body ← read_exact_before Body (Z.to_nat body_len);
      mret (mkFrame t body)
  | _ => throw TruncatedHeader
  end.

Definition receive_coordinator_command : stM Channel ProtocolError CoordinatorCommand :=
  f ← receive_frame COORDINATOR_DIRECTION;
  lift_result (decode_coordinator_command f).

Definition receive_guardian_event : stM Channel ProtocolError GuardianEvent :=
  f ← receive_frame GUARDIAN_DIRECTION;
  lift_result (decode_guardian_event f).

(** The loop of [write_all_before]; a channel without further events accepts
    everything. *)
Fixpoint write_loop (script : list WriteEvent) (input : bytes) : stM Channel ProtocolError () :=
  match input with
  | [] => modify_st (set_wx script)
  | _ =>
      _ ← modify_st (set_wx script);
      _ ← check_deadline;
      match script with
      | [] =>
          _ ← modify_st (push_tx input);
          check_deadline
      | WAccept O :: rest =>
          _ ← modify_st (set_wx rest);
          throw Io
      | WAccept n :: rest =>
          _ ← modify_st (set_wx rest);
          if Nat.leb n (length input) then
            _ ← modify_st (push_tx (take n input));
            _ ← check_deadline;
            write_loop rest (drop n input)
          else throw Io
      | WInterrupted :: rest => write_loop rest input
      | WWouldBlock :: rest =>
          _ ← modify_st (set_wx rest);
          _ ← wait_for_deadline_retry;
          write_loop rest input
      | WFailed :: rest =>
          _ ← modify_st (set_wx rest);
          throw Io
      end
  end.

Definition write_all_before (input : bytes) : stM Channel ProtocolError () :=
  c ← get_st;
  write_loop (wx c) input.

Fixpoint flush_loop (script : list FlushEvent) : stM Channel ProtocolError () :=
  _ ← modify_st (set_fx script);
  _ ← check_deadline;
  match script with
  | [] => check_deadline
  | FDone :: rest => _ ← modify_st (set_fx rest); check_deadline
  | FInterrupted :: rest => flush_loop rest
  | FWouldBlock :: rest =>
      _ ← modify_st (set_fx rest);
      _ ← wait_for_deadline_retry;
      flush_loop rest
  | FFailed :: rest => _ ← modify_st (set_fx rest); throw Io
  end.

Definition flush_before : stM Channel ProtocolError () :=
  c ← get_st;
  flush_loop (fx c).

(** The bytes of a frame. *)
Definition frame_bytes (direction_and_type : Z) (body : bytes) : bytes :=
  MAGIC ++ [PROTOCOL_VERSION; direction_and_type] ++ u16_to_be (len body) ++ body.

Definition send_frame (direction_and_type : Z) (body : bytes) : stM Channel ProtocolError () :=
  _ ← lift_result (reject_if (len body =? 0) ZeroLength);
  _ ← lift_result (reject_if (MAX_BODY_BYTES <? len body) OversizedBody);
  _ ← write_all_before (frame_bytes direction_and_type body);
  flush_before.

Definition send_coordinator_command (c : CoordinatorCommand) : stM Channel ProtocolError () :=
  encoded ← lift_result (encode_coordinator_command c);
  send_frame (Z.lor COORDINATOR_DIRECTION (fst encoded)) (snd encoded).

Definition send_guardian_event (e : GuardianEvent) : stM Channel ProtocolError () :=
  encoded ← lift_result (encode_guardian_event e);
  send_frame (Z.lor GUARDIAN_DIRECTION (fst encoded)) (snd encoded).
End io.
