(* ===== verification/WireProofs.v ===== *)
(** * Theorems about the wire protocol

    The encodings are exact inverses on the values and frames of the source's
    types; a reader that returns a message has consumed exactly its frame and
    has read every clock before the deadline; a frame arrives whatever way the
    transport cuts it up; a writer never puts anything but a prefix of the one
    frame on the wire. *)
From Stdlib Require Import Zify.
From S2P Require Import Prelude Interfaces Wire.

Open Scope Z_scope.

Definition is_byte (b : Z) : Prop := 0 <= b < 256.
Definition is_u16 (n : Z) : Prop := 0 <= n < 2 ^ 16.
Definition is_i32 (n : Z) : Prop := - 2 ^ 31 <= n < 2 ^ 31.

#[export] Instance is_byte_dec b : Decision (is_byte b).
Proof. unfold is_byte. solve_decision. Defined.

Ltac solve_bytes :=
  repeat first [apply Forall_nil_2 | apply Forall_cons_2]; try done;
  unfold is_byte in *; cbn; first [done | lia].

(** ** Values of the source's types that the protocol admits *)

(** The integer fields are in the range of their Rust types, and the sizes,
    process groups and signals satisfy what the encoder checks. *)
Definition valid_size (rows cols : Z) : Prop :=
  is_u16 rows ∧ is_u16 cols ∧ rows ≠ 0 ∧ cols ≠ 0.
Definition valid_command (c : CoordinatorCommand) : Prop :=
  match c with
  | Resize rows cols | Resume rows cols => valid_size rows cols
  | _ => True
  end.
Definition valid_disposition (d : ChildDisposition) : Prop :=
  match d with
  | NotStarted => True
  | Exited code _ => is_byte code
  | Signaled signal _ _ => 1 <= signal <= 127
  end.
Definition valid_exit (d : GuardianExitDisposition) : Prop :=
  match d with
  | Ge_Code code => is_byte code
  | Ge_Signal signal => 1 <= signal <= 127
  | _ => True
  end.
Definition valid_event (e : GuardianEvent) : Prop :=
  match e with
  | TerminalArmed snapshot => Forall is_byte snapshot ∧ length snapshot = 32%nat
  | ChildStarted _ pid pgid => is_i32 pid ∧ 0 < pid ∧ pgid = pid
  | ResizeApplied rows cols | Resumed rows cols => valid_size rows cols
  | ChildrenReaped app tui _ _ _ exit =>
      valid_disposition app ∧ valid_disposition tui ∧ valid_exit exit
  | _ => True
  end.

(** ** Field round trips *)

Lemma u16_round_trip n : is_u16 n →
  Forall is_byte (u16_to_be n) ∧ u16_from_be (n / 256) (n mod 256) = n.
Proof.
  unfold is_u16, u16_to_be, u16_from_be, is_byte; intros ?.
  repeat constructor; Z.div_mod_to_equations; lia.
Qed.

Lemma u16_canonical b0 b1 : is_byte b0 → is_byte b1 →
  u16_to_be (u16_from_be b0 b1) = [b0; b1] ∧ is_u16 (u16_from_be b0 b1).
Proof.
  unfold is_u16, u16_to_be, u16_from_be, is_byte; intros ??.
  split; [f_equal; [|f_equal]|]; Z.div_mod_to_equations; lia.
Qed.

Lemma i32_round_trip n : is_i32 n →
  Forall is_byte (i32_to_be n) ∧ read_i32 (i32_to_be n) = n.
Proof.
  unfold is_i32, i32_to_be, read_i32, i32_from_be, is_byte; intros ?.
  assert (0 <= n mod 2 ^ 32 < 2 ^ 32) by (apply Z.mod_pos_bound; lia).
  assert (Hu : n mod 2 ^ 32 = if 0 <=? n then n else n + 2 ^ 32).
  { destruct (Z.leb_spec 0 n); [by apply Z.mod_small; lia|].
    symmetry. apply Z.mod_unique with (-1); lia. }
  set (u := n mod 2 ^ 32) in *. clearbody u.
  split; [repeat constructor; Z.div_mod_to_equations; lia|].
  replace (_ + _ + _ + _) with u by (Z.div_mod_to_equations; lia).
  destruct (Z.ltb_spec u (2 ^ 31)), (Z.leb_spec 0 n); lia.
Qed.

Lemma i32_canonical b0 b1 b2 b3 : Forall is_byte [b0; b1; b2; b3] →
  i32_to_be (i32_from_be b0 b1 b2 b3) = [b0; b1; b2; b3] ∧ is_i32 (i32_from_be b0 b1 b2 b3).
Proof.
  rewrite !Forall_cons. unfold is_byte, is_i32, i32_to_be, i32_from_be. intros (?&?&?&?&_).
  set (u := b0 * 2 ^ 24 + b1 * 2 ^ 16 + b2 * 2 ^ 8 + b3).
  assert (0 <= u < 2 ^ 32) by (unfold u; lia).
  assert (Hm : (if u <? 2 ^ 31 then u else u - 2 ^ 32) mod 2 ^ 32 = u).
  { destruct (Z.ltb_spec u (2 ^ 31)); [by apply Z.mod_small; lia|].
    symmetry. apply Z.mod_unique with (-1); lia. }
  rewrite Hm. split; [|destruct (Z.ltb_spec u (2 ^ 31)); lia].
  unfold u. repeat f_equal; Z.div_mod_to_equations; lia.
Qed.

(** The enumerations: the decoder accepts exactly the encoder's bytes. *)
Ltac solve_enum :=
  intros; split;
  [ repeat case_match; intros; inv_ok; try done; inv_bool; by subst
  | intros <-; match goal with x : _ |- _ => by destruct x end ].

Lemma decode_child_role_iff v r : decode_child_role v = Ok r ↔ encode_child_role r = v.
Proof. unfold decode_child_role. solve_enum. Qed.
Lemma decode_unix_signal_iff v s : decode_unix_signal v = Ok s ↔ encode_unix_signal s = v.
Proof. unfold decode_unix_signal. solve_enum. Qed.
Lemma decode_stop_action_iff v a : decode_stop_action v = Ok a ↔ encode_stop_action a = v.
Proof. unfold decode_stop_action. solve_enum. Qed.
Lemma decode_phase_iff v p : decode_phase v = Ok p ↔ encode_phase p = v.
Proof. unfold decode_phase. solve_enum. Qed.
Lemma decode_failure_code_iff v c : decode_failure_code v = Ok c ↔ encode_failure_code c = v.
Proof. unfold decode_failure_code. solve_enum. Qed.
Lemma decode_worker_iff v w :
  decode_worker_join_status v = Ok w ↔ encode_worker_join_status w = v.
Proof. unfold decode_worker_join_status. solve_enum. Qed.
Lemma decode_cleanup_iff v c : decode_cleanup_status v = Ok c ↔ encode_cleanup_status c = v.
Proof. unfold decode_cleanup_status. destruct c. split; [|by intros <-]. by repeat case_match. Qed.
Lemma decode_session_iff v s : decode_session_status v = Ok s ↔ encode_session_status s = v.
Proof. unfold decode_session_status. solve_enum. Qed.

(** ** Composite fields *)

Lemma terminal_size_iff input rows cols :
  Forall is_byte input ∧ decode_terminal_size input = Ok (rows, cols) ↔
  valid_size rows cols ∧ encode_terminal_size rows cols = Ok input.
Proof.
  unfold decode_terminal_size, encode_terminal_size, validate_terminal_size, valid_size. split.
  - intros [Hb Hd]. destruct input as [|b0 [|b1 [|b2 [|b3 [|]]]]]; try done.
    rewrite !Forall_cons in Hb. destruct Hb as (?&?&?&?&_).
    destruct (u16_canonical b0 b1) as [E1 ?]; [done..|].
    destruct (u16_canonical b2 b3) as [E2 ?]; [done..|].
    destruct (_ || _) eqn:Hz; [done|]. cbn [mbind result_bind] in Hd. injection Hd as <- <-.
    inv_bool. rewrite (proj2 (Z.eqb_neq _ _)), (proj2 (Z.eqb_neq _ _)) by done.
    cbn [mbind result_bind orb]. by rewrite E1, E2.
  - intros [(Hr & Hc & Hr0 & Hc0) He].
    rewrite (proj2 (Z.eqb_neq _ _)), (proj2 (Z.eqb_neq _ _)) in He by done.
    cbn [orb mbind result_bind] in He.
    assert (input = u16_to_be rows ++ u16_to_be cols) as -> by congruence.
    destruct (u16_round_trip rows) as [? E1]; [done|].
    destruct (u16_round_trip cols) as [? E2]; [done|].
    split; [by apply Forall_app|]. cbn [u16_to_be app]. rewrite E1, E2.
    by rewrite (proj2 (Z.eqb_neq _ _)), (proj2 (Z.eqb_neq _ _)) by done.
Qed.

Lemma child_disposition_iff input d :
  Forall is_byte input ∧ decode_child_disposition input = Ok d ↔
  valid_disposition d ∧ encode_child_disposition d = Ok input.
Proof.
  unfold decode_child_disposition, encode_child_disposition, valid_disposition. split.
  - intros [Hb Hd]. destruct input as [|b0 [|b1 [|b2 [|b3 [|]]]]]; try done.
    rewrite !Forall_cons in Hb. destruct Hb as (?&?&?&?&_).
    inv_ok. apply decode_stop_action_iff in Hok. subst b2.
    assert (Hs : ∀ s, 1 <= s <= 127 → (s =? 0) || (127 <? s) = false)
      by (intros; rewrite orb_false_iff, Z.eqb_neq, Z.ltb_ge; lia).
    repeat case_match; inv_ok; inv_bool; subst; try done;
      (split; [lia|]); unfold is_byte in *; rewrite Hs by lia; cbn; repeat f_equal; lia.
  - intros [Hv He]. assert (Ha : ∀ a, is_byte (encode_stop_action a) ∧
      decode_stop_action (encode_stop_action a) = Ok a)
      by (unfold is_byte; intros []; cbn; split; [lia|done|lia|done|lia|done]).
    destruct d as [|code a|signal core a]; inv_ok.
    + split; [solve_bytes|done].
    + destruct (Ha a) as [? ->]. split; [solve_bytes|done].
    + destruct (Ha a) as [? ->]. split; [destruct core; solve_bytes|].
      cbn. rewrite (proj2 (Z.leb_le 1 signal)), (proj2 (Z.leb_le signal 127)) by lia.
      by destruct core.
Qed.

Lemma guardian_exit_iff input d :
  Forall is_byte input ∧ decode_guardian_exit_disposition input = Ok d ↔
  valid_exit d ∧ encode_guardian_exit_disposition d = Ok input.
Proof.
  unfold decode_guardian_exit_disposition, encode_guardian_exit_disposition, valid_exit. split.
  - intros [Hb Hd]. destruct input as [|b0 [|b1 [|]]]; try done.
    rewrite !Forall_cons in Hb. destruct Hb as (?&?&_).
    repeat case_match; inv_ok; inv_bool; subst; try done; lia.
  - intros [Hv He]. destruct d as [code|signal| |]; inv_ok.
    + split; [solve_bytes|done].
    + rewrite (proj2 (Z.leb_le 1 signal)), (proj2 (Z.leb_le signal 127)) in He by lia.
      injection He as <-. split; [solve_bytes|].
      cbn. by rewrite (proj2 (Z.leb_le 1 signal)), (proj2 (Z.leb_le signal 127)) by lia.
    + split; [solve_bytes|done].
    + split; [solve_bytes|done].
Qed.

Lemma process_group_iff pid pgid :
  validate_process_group pid pgid = Ok () ↔ 0 < pid ∧ pgid = pid.
Proof.
  unfold validate_process_group.
  destruct (Z.ltb_spec 0 pid), (Z.eqb_spec pgid pid); cbn; split; try done; lia.
Qed.

(** ** Bodies *)

Lemma require_body_Ok f n :
  require_body f n = Ok () ↔ len (frame_body f) = n ∧ head (frame_body f) = Some PAYLOAD_VERSION.
Proof.
  unfold require_body, require_exact_len, require_payload_version.
  destruct (Z.ltb_spec (len (frame_body f)) n); cbn; [split; [done|lia]|].
  destruct (Z.ltb_spec n (len (frame_body f))); cbn; [split; [done|lia]|].
  destruct (frame_body f) as [|b l]; cbn; [naive_solver|].
  destruct (Z.eqb_spec b PAYLOAD_VERSION); split; try done; [|naive_solver].
  intros _. subst. split; [lia|done].
Qed.

Lemma require_body_inv t body n : require_body (mkFrame t body) n = Ok () →
  ∃ l, body = PAYLOAD_VERSION :: l ∧ len l + 1 = n.
Proof.
  intros [H1 H2]%require_body_Ok. cbn in H1, H2. destruct body as [|b l]; [done|].
  injection H2 as ->. unfold len in *. cbn in H1. exists l. split; [done|lia].
Qed.

(** Names the bytes of a body whose length is known. *)
Ltac explode H :=
  unfold len, EMPTY_BODY_BYTES, SIGNAL_BODY_BYTES, CHILD_ROLE_BODY_BYTES,
    TERMINAL_SIZE_BODY_BYTES, CHILD_STARTED_BODY_BYTES, FAILED_BODY_BYTES,
    CHILDREN_REAPED_BODY_BYTES in H;
  cbn [length] in H;
  repeat match type of H with
  | context [length ?l] => is_var l; destruct l as [|? l]; cbn [length] in H; try (exfalso; lia)
  end.

Ltac use_enums :=
  repeat match goal with
  | H : decode_child_role _ = Ok _ |- _ => apply decode_child_role_iff in H
  | H : decode_unix_signal _ = Ok _ |- _ => apply decode_unix_signal_iff in H
  | H : decode_phase _ = Ok _ |- _ => apply decode_phase_iff in H
  | H : decode_failure_code _ = Ok _ |- _ => apply decode_failure_code_iff in H
  | H : decode_worker_join_status _ = Ok _ |- _ => apply decode_worker_iff in H
  | H : decode_cleanup_status _ = Ok _ |- _ => apply decode_cleanup_iff in H
  | H : decode_session_status _ = Ok _ |- _ => apply decode_session_iff in H
  end.

(** The frame arm by arm: type, body shape and fields of a decoded message. *)
Ltac decode_arm :=
  inv_ok; inv_bool; subst;
  match goal with
  | H : require_body (mkFrame _ _) _ = Ok () |- _ =>
      apply require_body_inv in H; destruct H as (? & -> & ?)
  end.

Ltac split_bytes :=
  repeat match goal with
  | H : Forall is_byte (_ :: _) |- _ => apply Forall_cons in H; destruct H
  | H : Forall is_byte [] |- _ => clear H
  end.

Lemma decode_size_sound l sz : Forall is_byte l → decode_terminal_size l = Ok sz →
  valid_size (fst sz) (snd sz) ∧ encode_terminal_size (fst sz) (snd sz) = Ok l.
Proof. destruct sz. intros. by apply terminal_size_iff. Qed.

Lemma encode_size_length rows cols l : encode_terminal_size rows cols = Ok l → length l = 4%nat.
Proof. unfold encode_terminal_size. intros. by inv_ok. Qed.

Lemma encode_size_sound rows cols l :
  valid_size rows cols → encode_terminal_size rows cols = Ok l →
  ∃ z0 z1 z2 z3, l = [z0; z1; z2; z3] ∧ Forall is_byte [z0; z1; z2; z3] ∧
    decode_terminal_size [z0; z1; z2; z3] = Ok (rows, cols).
Proof.
  intros Hv He. destruct (proj2 (terminal_size_iff l rows cols)) as [Hb Hd]; [done|].
  apply encode_size_length in He.
  destruct l as [|z0 [|z1 [|z2 [|z3 [|]]]]]; try done. by exists z0, z1, z2, z3.
Qed.

(** Closes an arm: the fields re-encode to the bytes they were read from. *)
Ltac encode_arm :=
  cbn [byte_at slice frame_body take drop lookup list_lookup default id Nat.sub] in *;
  use_enums; unfold id in *; split_bytes;
  repeat match goal with
  | H : decode_terminal_size ?l = Ok ?sz |- _ =>
      apply (decode_size_sound l sz) in H; [destruct H as [? H]|solve_bytes]
  end;
  match goal with
  | |- _ ∧ ?enc = _ => split; [first [done | assumption]|unfold enc; cbn]
  | |- _ => idtac
  end.

Lemma decode_command_sound t body c :
  Forall is_byte body → decode_coordinator_command (mkFrame t body) = Ok c →
  valid_command c ∧ encode_coordinator_command c = Ok (t, body).
Proof.
  intros Hb Hd. unfold decode_coordinator_command in Hd. cbn [message_type] in Hd.
  repeat case_match; decode_arm; match goal with H : len _ + 1 = _ |- _ => explode H end;
    encode_arm; subst.
  all: cbn [valid_command encode_coordinator_command].
  all: try (split; [exact I|done]).
  all: split; [done|]; match goal with H : encode_terminal_size _ _ = _ |- _ => by rewrite H end.
Qed.

Lemma encode_command_sound t body c :
  valid_command c → encode_coordinator_command c = Ok (t, body) →
  Forall is_byte body ∧ decode_coordinator_command (mkFrame t body) = Ok c ∧
  0 < t < 128 ∧ 0 < len body <= 5.
Proof.
  intros Hv He.
  destruct c as [| |role| | |signal|rows cols| |rows cols|];
    cbn [encode_coordinator_command] in He;
    try (try destruct role; try destruct signal; injection He as <- <-; split_and!; solve_bytes).
  all: apply bind_Ok in He as (size & Hs & [= <- <-]).
  all: apply encode_size_sound in Hs as (? & ? & ? & ? & -> & Hb & Hd); [|done].
  all: split_bytes; split_and!; try solve_bytes.
  all: unfold decode_coordinator_command; cbn -[decode_terminal_size]; by rewrite Hd.
Qed.

Lemma decode_disposition_sound l d : Forall is_byte l → decode_child_disposition l = Ok d →
  valid_disposition d ∧ encode_child_disposition d = Ok l.
Proof. intros. by apply child_disposition_iff. Qed.

Lemma decode_exit_sound l d : Forall is_byte l → decode_guardian_exit_disposition l = Ok d →
  valid_exit d ∧ encode_guardian_exit_disposition d = Ok l.
Proof. intros. by apply guardian_exit_iff. Qed.

Lemma armed_tail (l : bytes) : len l + 1 = TERMINAL_ARMED_BODY_BYTES → length l = 32%nat.
Proof. unfold len, TERMINAL_ARMED_BODY_BYTES, SNAPSHOT_FINGERPRINT_BYTES. lia. Qed.

Lemma slice_armed t (l : bytes) : length l = 32%nat → slice (mkFrame t (PAYLOAD_VERSION :: l)) 1 33 = l.
Proof. intros Hl. cbn. apply take_ge. lia. Qed.

Lemma decode_event_sound t body e :
  Forall is_byte body → decode_guardian_event (mkFrame t body) = Ok e →
  valid_event e ∧ encode_guardian_event e = Ok (t, body).
Proof.
  intros Hb Hd. unfold decode_guardian_event in Hd. cbn [message_type] in Hd.
  repeat case_match; decode_arm; match goal with
    | H : len _ + 1 = TERMINAL_ARMED_BODY_BYTES |- _ => apply armed_tail in H
    | H : len _ + 1 = _ |- _ => explode H end.
  all: try (encode_arm; subst; cbn [valid_event encode_guardian_event];
    first [by split |
    split; [done|]; match goal with H : encode_terminal_size _ _ = _ |- _ => by rewrite H end]).
  - rewrite slice_armed by done. split_bytes. cbn. by split_and!.
  - cbn [byte_at slice frame_body take drop lookup list_lookup default id Nat.sub read_i32] in *.
    use_enums. split_bytes.
    destruct (i32_canonical z0 z1 z2 z3) as [E1 ?]; [solve_bytes|].
    destruct (i32_canonical z4 z5 z6 z7) as [E2 ?]; [solve_bytes|].
    cbn [valid_event encode_guardian_event]. rewrite Hok1.
    apply process_group_iff in Hok1 as [??]. split; [done|].
    cbn [mbind result_bind]. rewrite E1, E2. by subst z.
  - cbn [byte_at slice frame_body take drop lookup list_lookup default id Nat.sub] in *.
    use_enums. split_bytes.
    apply decode_disposition_sound in Hok0 as [? E0]; [|solve_bytes].
    apply decode_disposition_sound in Hok1 as [? E1]; [|solve_bytes].
    apply decode_exit_sound in Hok5 as [? E2]; [|solve_bytes].
    cbn [valid_event encode_guardian_event]. rewrite E0, E1, E2.
    unfold id in *. subst. by split_and!.
Qed.

Lemma encode_disposition_length d l : encode_child_disposition d = Ok l → length l = 4%nat.
Proof. destruct d; cbn; intros; by inv_ok. Qed.

Lemma encode_exit_length d l : encode_guardian_exit_disposition d = Ok l → length l = 2%nat.
Proof. destruct d; cbn; repeat case_match; intros; by inv_ok. Qed.

Lemma encode_phase_byte p : is_byte (encode_phase p).
Proof. destruct p; unfold is_byte; cbn; lia. Qed.

Lemma encode_failure_code_byte c : is_byte (encode_failure_code c).
Proof. destruct c; unfold is_byte; cbn; lia. Qed.

Lemma encode_reaped_sound app tui worker cleanup session guardian_exit t body :
  valid_disposition app → valid_disposition tui → valid_exit guardian_exit →
  encode_guardian_event (ChildrenReaped app tui worker cleanup session guardian_exit)
    = Ok (t, body) →
  Forall is_byte body ∧
  decode_guardian_event (mkFrame t body)
    = Ok (ChildrenReaped app tui worker cleanup session guardian_exit) ∧
  0 < t < 128 ∧ 0 < len body <= 33.
Proof.
  intros Ha Ht Hx He. cbn [encode_guardian_event] in He. inv_ok.
  pose proof (encode_disposition_length _ _ Hok) as L1.
  pose proof (encode_disposition_length _ _ Hok0) as L2.
  pose proof (encode_exit_length _ _ Hok1) as L3.
  destruct (proj2 (child_disposition_iff a app)) as [B1 D1]; [done|].
  destruct (proj2 (child_disposition_iff a0 tui)) as [B2 D2]; [done|].
  destruct (proj2 (guardian_exit_iff a1 guardian_exit)) as [B3 D3]; [done|].
  destruct a as [|? [|? [|? [|? [|]]]]]; try done.
  destruct a0 as [|? [|? [|? [|? [|]]]]]; try done.
  destruct a1 as [|? [|? [|]]]; try done.
  subst. split_bytes. split_and!; [|..|done|done|done|done].
  { destruct worker, cleanup, session; solve_bytes. }
  unfold decode_guardian_event.
  cbn -[decode_child_disposition decode_guardian_exit_disposition].
  rewrite D1. cbn -[decode_child_disposition decode_guardian_exit_disposition].
  rewrite D2. cbn -[decode_child_disposition decode_guardian_exit_disposition].
  rewrite D3. by destruct worker, cleanup, session.
Qed.

Lemma encode_event_sound t body e :
  valid_event e → encode_guardian_event e = Ok (t, body) →
  Forall is_byte body ∧ decode_guardian_event (mkFrame t body) = Ok e ∧
  0 < t < 128 ∧ 0 < len body <= 33.
Proof.
  intros Hv He.
  destruct e as [|snapshot|role pid pgid| | |signal|rows cols| |rows cols| | | |phase code|
                 app tui worker cleanup session guardian_exit];
    cbn [encode_guardian_event valid_event] in He, Hv;
    try (try destruct signal; injection He as <- <-; split_and!; solve_bytes).
  - destruct Hv as [Hb Hl]. assert (Hlen : len (PAYLOAD_VERSION :: snapshot) = 33)
      by (unfold len; cbn; lia).
    injection He as <- <-. split_and!; [solve_bytes| |done|done|by rewrite Hlen..].
    unfold decode_guardian_event. cbn -[require_body slice].
    rewrite (proj2 (require_body_Ok _ _)) by done. cbn -[slice]. by rewrite slice_armed.
  - destruct Hv as (Hr & Hp & ->). rewrite (proj2 (process_group_iff _ _)) in He by done.
    destruct (i32_round_trip pid) as [Hb Hd]; [done|].
    assert (∃ a b c d, i32_to_be pid = [a; b; c; d]) as (b0 & b1 & b2 & b3 & E)
      by (do 4 eexists; reflexivity).
    rewrite E in *. injection He as <- <-. split_bytes.
    split_and!; [destruct role; solve_bytes| |done..].
    unfold decode_guardian_event. cbn -[validate_process_group i32_from_be decode_child_role].
    rewrite (proj2 (decode_child_role_iff _ role)) by done. cbn [mbind result_bind].
    cbn [read_i32] in Hd. rewrite Hd.
    by rewrite (proj2 (process_group_iff _ _)) by done.
  - apply bind_Ok in He as (size & Hs & [= <- <-]).
    apply encode_size_sound in Hs as (? & ? & ? & ? & -> & Hb & Hd); [|done].
    split_bytes; split_and!; try solve_bytes.
    unfold decode_guardian_event; cbn -[decode_terminal_size]; by rewrite Hd.
  - apply bind_Ok in He as (size & Hs & [= <- <-]).
    apply encode_size_sound in Hs as (? & ? & ? & ? & -> & Hb & Hd); [|done].
    split_bytes; split_and!; try solve_bytes.
    unfold decode_guardian_event; cbn -[decode_terminal_size]; by rewrite Hd.
  - injection He as <- <-. pose proof (encode_phase_byte phase).
    pose proof (encode_failure_code_byte code).
    split_and!; [solve_bytes| |done..].
    unfold decode_guardian_event; cbn -[decode_phase decode_failure_code].
    rewrite (proj2 (decode_phase_iff _ phase)) by done.
    cbn -[decode_phase decode_failure_code].
    by rewrite (proj2 (decode_failure_code_iff _ code)).
  - destruct Hv as (Ha & Ht & Hx). by eapply encode_reaped_sound.
Qed.

(** ** Reading *)

(** The bytes a script still delivers. *)
Fixpoint delivered (script : list ReadEvent) : bytes :=
  match script with
  | [] => []
  | RData chunk :: rest => chunk ++ delivered rest
  | _ :: rest => delivered rest
  end.

(** A stream that neither ends early nor fails: data arrives in non-empty
    chunks of any size, between interruptions and would-block results. *)
Definition live_event (e : ReadEvent) : bool :=
  match e with
  | RData [] | ROverrun | RFailed => false
  | RData _ | RInterrupted | RWouldBlock => true
  end.
Definition live (script : list ReadEvent) : bool := forallb live_event script.

Section reading.
Context (clock : nat → Z) (deadline : Z).

(** Every clock read between two states was before the deadline. *)
Definition timely (c c' : Channel) : Prop :=
  (ticks c <= ticks c')%nat ∧ ∀ n, (ticks c <= n < ticks c')%nat → clock n < deadline.

(** Only the receiving half moved. *)
Definition same_tx (c c' : Channel) : Prop := tx c' = tx c ∧ wx c' = wx c ∧ fx c' = fx c.

(** Time passed and only the receiving half moved. *)
Record moved (c c' : Channel) : Prop := {
  moved_timely : timely c c';
  moved_tx : same_tx c c';
}.

#[local] Instance moved_preorder : PreOrder moved.
Proof.
  split; [by repeat split; try lia|].
  intros a b c [[? T1] (?&?&?)] [[? T2] (?&?&?)]. split; [|split_and!; congruence].
  split; [lia|]. intros n ?.
  destruct (decide (n < ticks b)%nat); [apply T1; lia|apply T2; lia].
Qed.

Lemma moved_set_rx l c : moved c (set_rx l c).
Proof. split; [|done]. split; [done|]. cbn. lia. Qed.

Lemma moved_tick c : clock (ticks c) < deadline → moved c (tick c).
Proof. intros ?. split; [|done]. split; cbn; [lia|]. intros n ?. by replace n with (ticks c) by lia. Qed.

Lemma check_deadline_Ok c u c' :
  check_deadline clock deadline c = (Ok u, c') ↔ clock (ticks c) < deadline ∧ c' = tick c.
Proof.
  unfold check_deadline. run_st. destruct u, (Z.leb_spec deadline (clock (ticks c))); cbn.
  - split; [done|lia].
  - split; [intros [= <-]|intros [? ->]]; done.
Qed.

Lemma check_deadline_run c : clock (ticks c) < deadline →
  check_deadline clock deadline c = (Ok (), tick c).
Proof. intros. by apply check_deadline_Ok. Qed.

Lemma bind_run {S E A B} (m : stM S E A) (k : A → stM S E B) s a s1 :
  m s = (Ok a, s1) → (m ≫= k) s = k a s1.
Proof. run_st. by intros ->. Qed.

(** Opens the next bind of a successful run. *)
Ltac next_ok H :=
  apply stM_bind_Ok in H; destruct H as (? & ? & ?Hs & H);
  repeat match goal with
  | Hs : modify_st _ _ = (Ok _, _) |- _ => injection Hs as <- <-
  | Hs : check_deadline _ _ _ = (Ok _, _) |- _ =>
      apply check_deadline_Ok in Hs; destruct Hs as [Hs ->]; apply moved_tick in Hs
  | Hs : lift_result _ _ = (Ok _, _) |- _ => injection Hs as Hs <-
  end.

Lemma modify_run {S E B} (f : S → S) (k : () → stM S E B) s : (modify_st f ≫= k) s = k () (f s).
Proof. done. Qed.

Lemma wait_run c : (∀ n, clock n < deadline) →
  wait_for_deadline_retry clock deadline c = (Ok (), tick (tick c)).
Proof.
  intros Hclock. unfold wait_for_deadline_retry.
  rewrite (bind_run _ _ _ _ _ (check_deadline_run _ (Hclock _))). apply check_deadline_run, Hclock.
Qed.

(** What a successful read has consumed, how much, and when. *)
Lemma read_loop_sound script part off need c bs c' :
  read_loop clock deadline script part off need c = (Ok bs, c') →
  length bs = need ∧ delivered script = bs ++ delivered (rx c') ∧ moved c c'.
Proof.
  revert off need c bs c'. induction script as [|e rest IH]; intros off need c bs c' H;
    (destruct need as [|need]; cbn [read_loop] in H;
     [run_st in H; injection H as <- <-; split_and!; [done|done|apply moved_set_rx]|]).
  { next_ok H. next_ok H. done. }
  next_ok H. next_ok H. pose proof (moved_set_rx (e :: rest) c) as M0.
  destruct e as [chunk| | | |]; try (run_st in H; done).
  - destruct chunk as [|b chunk0]; [run_st in H; done|].
    remember (b :: chunk0) as chunk. clear Heqchunk.
    destruct (Nat.leb_spec (length chunk) (S need)).
    + do 3 next_ok H. injection H as <- <-.
      apply IH in Hs1 as (L & D & M). rewrite length_app, L. cbn [delivered].
      split_and!; [lia|by rewrite D, app_assoc|].
      etrans; [exact M0|etrans; [exact Hs|]]. etrans; [apply moved_set_rx|]. by etrans.
    + do 2 next_ok H. injection H as <- <-. rewrite length_take. cbn [rx tick set_rx delivered].
      split_and!; [lia|by rewrite app_assoc, take_drop|].
      etrans; [exact M0|etrans; [exact Hs|]]. etrans; [apply moved_set_rx|done].
  - apply IH in H as (L & D & M). split_and!; [done|done|]. etrans; [exact M0|]. by etrans.
  - unfold wait_for_deadline_retry in H. next_ok H. next_ok H. next_ok Hs0.
    apply IH in H as (L & D & M). split_and!; [done|done|].
    etrans; [exact M0|etrans; [exact Hs|]]. etrans; [apply moved_set_rx|].
    etrans; [exact Hs1|]. by etrans.
Qed.

Lemma live_cons e rest : live (e :: rest) = true ↔ live_event e = true ∧ live rest = true.
Proof. unfold live. cbn. by rewrite andb_true_iff. Qed.

(** A live stream with enough bytes is read before the deadline. *)
Lemma read_loop_complete script part off need c :
  live script = true → (need <= length (delivered script))%nat → (∀ n, clock n < deadline) →
  ∃ bs c', read_loop clock deadline script part off need c = (Ok bs, c') ∧ live (rx c') = true.
Proof.
  intros Hl Hn Hclock. revert off need c Hl Hn.
  induction script as [|e rest IH]; intros off need c Hl Hn;
    (destruct need as [|need]; [by eexists _, _|]).
  { cbn in Hn. lia. }
  pose proof Hl as [He Hr]%live_cons. cbn [read_loop].
  rewrite modify_run.
  rewrite (bind_run _ _ _ _ _ (check_deadline_run _ (Hclock _))).
  destruct e as [[|b chunk0]| | | |]; try done.
  - remember (b :: chunk0) as chunk. assert (0 < length chunk)%nat by (subst; cbn; lia).
    clear Heqchunk. cbn [delivered] in Hn. rewrite length_app in Hn.
    destruct (Nat.leb_spec (length chunk) (S need)).
    + rewrite modify_run.
      rewrite (bind_run _ _ _ _ _ (check_deadline_run _ (Hclock _))).
      edestruct (IH (off + length chunk)%nat (S need - length chunk)%nat) as (bs & c' & H1 & H2);
        [done|lia|].
      rewrite (bind_run _ _ _ _ _ H1). by eexists _, _.
    + rewrite modify_run.
      rewrite (bind_run _ _ _ _ _ (check_deadline_run _ (Hclock _))).
      eexists _, _. split; [reflexivity|]. apply live_cons. split; [|done].
      cbn [live_event]. destruct (drop (S need) chunk) eqn:E; [|done].
      apply (f_equal length) in E. rewrite length_drop in E. cbn in E. lia.
  - apply IH; done.
  - rewrite modify_run.
    rewrite (bind_run _ _ _ _ _ (wait_run _ Hclock)).
    apply IH; done.
Qed.

Lemma read_exact_sound part need c bs c' :
  read_exact_before clock deadline part need c = (Ok bs, c') →
  length bs = need ∧ delivered (rx c) = bs ++ delivered (rx c') ∧ moved c c'.
Proof. apply read_loop_sound. Qed.

Lemma read_exact_complete part c bs more :
  live (rx c) = true → delivered (rx c) = bs ++ more → (∀ n, clock n < deadline) →
  ∃ c', read_exact_before clock deadline part (length bs) c = (Ok bs, c') ∧
    live (rx c') = true ∧ delivered (rx c') = more.
Proof.
  intros Hl Hd Hclock.
  destruct (read_loop_complete (rx c) part 0 (length bs) c) as (bs' & c' & H & Hl');
    [done|rewrite Hd, length_app; lia|done|].
  pose proof (read_loop_sound _ _ _ _ _ _ _ H) as (Hlen & D & _).
  rewrite Hd in D. apply app_inj_1 in D as [-> ->]; [|done]. by exists c'.
Qed.

(** *** Frames *)

Lemma byte_split d : is_byte d → d = Z.lor (Z.land d DIRECTION_MASK) (Z.land d TYPE_MASK).
Proof.
  intros ?. rewrite <- Z.land_lor_distr_r. change (Z.lor _ _) with (Z.ones 8).
  rewrite Z.land_ones by done. symmetry. by apply Z.mod_small.
Qed.

Definition direction (d : Z) : Prop := d = COORDINATOR_DIRECTION ∨ d = GUARDIAN_DIRECTION.

Lemma byte_join d t : direction d → 0 < t < 128 →
  Z.land (Z.lor d t) DIRECTION_MASK = d ∧ Z.land (Z.lor d t) TYPE_MASK = t.
Proof.
  intros Hd Ht. rewrite !Z.land_lor_distr_l.
  assert (Z.land t TYPE_MASK = t) as ->.
  { change TYPE_MASK with (Z.ones 7). rewrite Z.land_ones by done. by apply Z.mod_small; lia. }
  assert (Z.land t DIRECTION_MASK = 0) as ->.
  { apply Z.bits_inj'. intros n ?. rewrite Z.land_spec, Z.bits_0.
    change DIRECTION_MASK with (2 ^ 7). rewrite Z.pow2_bits_eqb by lia.
    destruct (Z.eqb_spec 7 n); [|apply andb_false_r]. subst n.
    rewrite andb_true_r. apply Z.bits_above_log2; [lia|]. apply Z.log2_lt_pow2; lia. }
  by destruct Hd as [-> | ->].
Qed.

(** The frames the protocol knows. *)
Definition valid_frame (f : ReceivedFrame) : Prop :=
  0 < message_type f < 128 ∧ 0 < len (frame_body f) <= MAX_BODY_BYTES.

Lemma receive_frame_sound d c f c' :
  Forall is_byte (delivered (rx c)) → direction d →
  receive_frame clock deadline d c = (Ok f, c') →
  valid_frame f ∧ moved c c' ∧
  delivered (rx c) = frame_bytes (Z.lor d (message_type f)) (frame_body f) ++ delivered (rx c').
Proof.
  intros Hb Hd H. unfold receive_frame in H. next_ok H.
  apply read_exact_sound in Hs as (Hlen & D1 & M1).
  destruct x as [|m0 [|m1 [|m2 [|m3 [|v [|dt [|l0 [|l1 [|]]]]]]]]]; try done.
  rewrite D1 in Hb. apply Forall_app in Hb as [Hb _].
  do 7 next_ok H. injection H as <- <-. inv_ok. inv_bool. split_bytes.
  apply read_exact_sound in Hs5 as (Hlen' & D2 & M2).
  destruct (u16_canonical l0 l1) as [HU ?]; [done..|]. unfold is_u16 in *.
  rename select bytes into body.
  assert (Hll : len body = u16_from_be l0 l1) by (unfold len; lia).
  split_and!; [|by etrans|].
  - unfold valid_frame; cbn [message_type frame_body]. rewrite Hll.
    assert (0 <= Z.land dt TYPE_MASK < 2 ^ 7); [|split; lia].
    change TYPE_MASK with (Z.ones 7). rewrite Z.land_ones by done. by apply Z.mod_pos_bound.
  - cbn [message_type frame_body]. rewrite D1, D2. unfold frame_bytes. rewrite Hll, HU.
    replace (Z.lor d (Z.land dt TYPE_MASK)) with dt by (subst d; by apply byte_split).
    rewrite <- Hs. by subst v.
Qed.

(** Once the header of a frame is read, the body decides. *)
Lemma receive_after_header d f c c1 : direction d → valid_frame f →
  read_exact_before clock deadline Header 8 c =
    (Ok (MAGIC ++ [PROTOCOL_VERSION; Z.lor d (message_type f)] ++ u16_to_be (len (frame_body f))), c1) →
  receive_frame clock deadline d c =
    (body ← read_exact_before clock deadline Body (length (frame_body f));
     mret (mkFrame (message_type f) body)) c1.
Proof.
  intros Hd [Ht Hlen] R1. unfold receive_frame.
  assert (HU : u16_from_be (len (frame_body f) / 256) (len (frame_body f) mod 256)
    = len (frame_body f)).
  { apply u16_round_trip. unfold is_u16, MAX_BODY_BYTES, MAX_FRAME_BYTES, HEADER_BYTES in *. lia. }
  change (Z.to_nat HEADER_BYTES) with 8%nat. cbn [length app MAGIC u16_to_be] in R1.
  rewrite (bind_run _ _ _ _ _ R1). destruct (byte_join d (message_type f)) as [J1 J2]; [done..|].
  cbn [u16_to_be]. rewrite J1, J2, HU. run_st. cbn [MAGIC]. rewrite bool_decide_eq_true_2 by done.
  rewrite !Z.eqb_refl. cbn [negb reject_if].
  rewrite (proj2 (Z.eqb_neq (message_type f) 0)) by lia.
  rewrite (proj2 (Z.eqb_neq (len (frame_body f)) 0)) by lia.
  rewrite (proj2 (Z.ltb_ge MAX_BODY_BYTES _)) by lia. cbn [reject_if].
  unfold len. by rewrite Nat2Z.id.
Qed.

Lemma receive_frame_complete d c f more :
  direction d → valid_frame f → live (rx c) = true → (∀ n, clock n < deadline) →
  delivered (rx c) = frame_bytes (Z.lor d (message_type f)) (frame_body f) ++ more →
  ∃ c', receive_frame clock deadline d c = (Ok f, c') ∧
    live (rx c') = true ∧ delivered (rx c') = more.
Proof.
  intros Hd [Ht Hlen] Hl Hclock D. unfold frame_bytes in D. rewrite !app_assoc in D.
  rewrite <- (app_assoc _ (frame_body f) more) in D.
  edestruct (read_exact_complete Header c) as (c1 & R1 & Hl1 & D1); [done|exact D|done|].
  edestruct (read_exact_complete Body c1) as (c2 & R2 & Hl2 & D2); [done|exact D1|done|].
  exists c2. split; [|done]. rewrite (receive_after_header d f c c1) by done.
  rewrite (bind_run _ _ _ _ _ R2). by destruct f.
Qed.

Lemma bind_run_Err {S E A B} (m : stM S E A) (k : A → stM S E B) s e s1 :
  m s = (Err e, s1) → (m ≫= k) s = (Err e, s1).
Proof. run_st. by intros ->. Qed.

(** A stream that ends too early, and where it ended. *)
Lemma read_loop_short script part off need c :
  live script = true → (length (delivered script) < need)%nat → (∀ n, clock n < deadline) →
  ∃ c', read_loop clock deadline script part off need c
    = (Err (eof_error part (off + length (delivered script))), c').
Proof.
  intros Hl Hn Hclock. revert off need c Hl Hn.
  induction script as [|e rest IH]; intros off need c Hl Hn;
    (destruct need as [|need]; [cbn in Hn; lia|]); cbn [read_loop];
    rewrite modify_run;
    rewrite (bind_run _ _ _ _ _ (check_deadline_run _ (Hclock _))).
  { cbn. rewrite Nat.add_0_r. eauto. }
  pose proof Hl as [He Hr]%live_cons.
  destruct e as [[|b chunk0]| | | |]; try done.
  - remember (b :: chunk0) as chunk. clear Heqchunk.
    cbn [delivered] in *. rewrite length_app in *.
    rewrite (proj2 (Nat.leb_le _ _)) by lia.
    rewrite modify_run.
    rewrite (bind_run _ _ _ _ _ (check_deadline_run _ (Hclock _))).
    edestruct (IH (off + length chunk)%nat (S need - length chunk)%nat) as (c' & H1); [done|lia|].
    eexists. rewrite (bind_run_Err _ _ _ _ _ H1). by rewrite Nat.add_assoc.
  - apply IH; done.
  - rewrite modify_run.
    rewrite (bind_run _ _ _ _ _ (wait_run _ Hclock)).
    apply IH; done.
Qed.
End reading.

(** ** Writing *)

(** A writer that makes progress: it accepts between one byte and all that is
    left, possibly between interruptions. *)
Fixpoint accepting (script : list WriteEvent) (n : nat) : bool :=
  match n, script with
  | O, _ | _, [] => true
  | _, WAccept k :: rest => Nat.leb 1 k && Nat.leb k n && accepting rest (n - k)
  | _, (WInterrupted | WWouldBlock) :: rest => accepting rest n
  | _, WFailed :: _ => false
  end.
Fixpoint flushing (script : list FlushEvent) : bool :=
  match script with
  | [] | FDone :: _ => true
  | (FInterrupted | FWouldBlock) :: rest => flushing rest
  | FFailed :: _ => false
  end.

Section writing.
Context (clock : nat → Z) (deadline : Z).

(** A step that writes [out]: nothing is read, and the writer goes on only
    while the deadline has not passed. *)
Record sent (out : bytes) (c c' : Channel) : Prop := {
  sent_tx : tx c' = tx c ++ out;
  sent_rx : rx c' = rx c;
}.

Lemma sent_nil c c' : tx c' = tx c → rx c' = rx c → sent [] c c'.
Proof. intros ??. split; [by rewrite app_nil_r|done]. Qed.

Lemma sent_trans o1 o2 a b c : sent o1 a b → sent o2 b c → sent (o1 ++ o2) a c.
Proof. intros [E1 ?] [E2 ?]. split; [by rewrite E2, E1, app_assoc|congruence]. Qed.

Lemma sent_idle c c1 c2 : sent [] c c1 → sent [] c1 c2 → sent [] c c2.
Proof. apply (sent_trans [] []). Qed.

Lemma check_deadline_sent c r c' : check_deadline clock deadline c = (r, c') → sent [] c c'.
Proof.
  unfold check_deadline. run_st. case_match; intros [= <- <-]; by apply sent_nil.
Qed.

Lemma wait_sent c r c' : wait_for_deadline_retry clock deadline c = (r, c') → sent [] c c'.
Proof.
  unfold wait_for_deadline_retry. intros [([] & c1 & H1 & H2)|(e & H1 & ->)]%stM_bind_inv.
  - apply check_deadline_sent in H1, H2. by eapply sent_idle.
  - by eapply check_deadline_sent.
Qed.

(** Opens the next bind of a run: the step succeeded, or the run stopped there. *)
Ltac next_step H :=
  apply stM_bind_inv in H; destruct H as [(? & ? & ?Hs & H)|(? & ?Hs & ->)];
  repeat match goal with
  | Hs : modify_st _ _ = (Ok _, _) |- _ => injection Hs as <- <-
  | Hs : modify_st _ _ = (Err _, _) |- _ => discriminate Hs
  | Hs : lift_result _ _ = (_, _) |- _ => injection Hs as Hs <-
  | Hs : check_deadline _ _ _ = (_, _) |- _ => apply check_deadline_sent in Hs
  | Hs : wait_for_deadline_retry _ _ _ = (_, _) |- _ => apply wait_sent in Hs
  end.

(** After [out], the rest of the run sends a prefix of [more]. *)
Definition sends (more : bytes) (c : Channel) (r : result ProtocolError ()) (c' : Channel) : Prop :=
  ∃ k, sent (take k more) c c' ∧ (r = Ok () → take k more = more).

Lemma sends_stop more c e c' : sent [] c c' → sends more c (Err e) c'.
Proof. by exists O. Qed.

Lemma sends_after n more c c1 r c' : (n <= length more)%nat →
  sent (take n more) c c1 → sends (drop n more) c1 r c' → sends more c r c'.
Proof.
  intros Hn H1 (k & H2 & H3). exists (n + k)%nat. rewrite <- take_take_drop.
  split; [by eapply sent_trans|]. intros E. rewrite H3 by done. apply take_drop.
Qed.

Lemma sends_idle more c c1 r c' : sent [] c c1 → sends more c1 r c' → sends more c r c'.
Proof. intros H. apply (sends_after 0); [lia|done]. Qed.

Lemma sent_set_wx l c : sent [] c (set_wx l c).
Proof. by apply sent_nil. Qed.

Lemma sent_set_fx l c : sent [] c (set_fx l c).
Proof. by apply sent_nil. Qed.

Lemma sent_push out c : sent out c (push_tx out c).
Proof. done. Qed.

(** Whatever the transport does, what is on the wire is a prefix of the input;
    on success it is the whole of it. *)
Lemma write_loop_sends script input c r c' :
  write_loop clock deadline script input c = (r, c') → sends input c r c'.
Proof.
  revert input c. induction script as [|e rest IH]; intros input c H;
    (destruct input as [|b input0]; [injection H as <- <-; exists O; split; [by apply sent_nil|done]|]);
    cbn [write_loop] in H; remember (b :: input0) as input;
    next_step H; (eapply sends_idle; [apply sent_set_wx|]);
    next_step H; try (by apply sends_stop); (eapply sends_idle; [exact Hs|]).
  { next_step H. eapply (sends_after (length input)); [done|rewrite take_ge by done; apply sent_push|].
    rewrite drop_ge by done. by exists O. }
  destruct e as [[|n]| | |].
  - next_step H. injection H as <- <-. apply sends_stop, sent_set_wx.
  - next_step H. eapply sends_idle; [apply sent_set_wx|].
    destruct (Nat.leb_spec (S n) (length input)).
    + next_step H. eapply sends_after; [done|apply sent_push|].
      next_step H; [|by apply sends_stop]. eapply sends_idle; [eassumption|]. by apply IH.
    + injection H as <- <-. by apply sends_stop, sent_nil.
  - by apply IH.
  - next_step H. eapply sends_idle; [apply sent_set_wx|].
    next_step H; [|by apply sends_stop]. eapply sends_idle; [eassumption|]. by apply IH.
  - next_step H. injection H as <- <-. apply sends_stop, sent_set_wx.
Qed.

Lemma flush_loop_sent script c r c' :
  flush_loop clock deadline script c = (r, c') → sent [] c c'.
Proof.
  revert c. induction script as [|e rest IH]; intros c H; cbn [flush_loop] in H;
    next_step H; (eapply sent_idle; [apply sent_set_fx|]);
    next_step H; try done; (eapply sent_idle; [eassumption|]); [exact H|].
  destruct e.
  - next_step H. eapply sent_idle; [apply sent_set_fx|done].
  - by apply IH.
  - next_step H. eapply sent_idle; [apply sent_set_fx|]. next_step H; [|done].
    eapply sent_idle; [eassumption|]. by apply IH.
  - next_step H. injection H as <- <-. apply sent_set_fx.
Qed.

Lemma send_frame_sends dt body c r c' :
  send_frame clock deadline dt body c = (r, c') → sends (frame_bytes dt body) c r c'.
Proof.
  unfold send_frame, write_all_before, flush_before. intros H.
  next_step H; [|by apply sends_stop, sent_nil]. next_step H; [|by apply sends_stop, sent_nil].
  next_step H.
  - run_st in Hs1. apply write_loop_sends in Hs1 as (k & S1 & E).
    run_st in H. apply flush_loop_sent in H. exists k.
    destruct x1. specialize (E eq_refl). rewrite E in *. split; [|done].
    rewrite <- (app_nil_r (frame_bytes dt body)). by eapply sent_trans.
  - run_st in Hs1. apply write_loop_sends in Hs1 as (k & S1 & _). by exists k.
Qed.

(** A writer that makes progress before the deadline succeeds. *)
Lemma write_loop_complete script input c :
  accepting script (length input) = true → (∀ n, clock n < deadline) →
  ∃ c', write_loop clock deadline script input c = (Ok (), c') ∧ fx c' = fx c.
Proof.
  intros Ha Hclock. revert input c Ha.
  induction script as [|e rest IH]; intros input c Ha;
    (destruct input as [|b input0]; [by eexists|]); cbn [write_loop];
    remember (b :: input0) as input;
    (assert (∃ m, length input = S m) as [m Hm] by (subst; by eexists)); clear Heqinput;
    rewrite modify_run;
    rewrite (bind_run _ _ _ _ _ (check_deadline_run _ _ _ (Hclock _))).
  { rewrite modify_run.
    rewrite check_deadline_run by done. by eexists. }
  rewrite Hm in Ha. destruct e as [[|n]| | |]; try done.
  - cbn [accepting] in Ha. inv_bool.
    rewrite modify_run, Hm, H1, modify_run.
    rewrite (bind_run _ _ _ _ _ (check_deadline_run _ _ _ (Hclock _))).
    destruct (IH (drop (S n) input) (tick (push_tx (take (S n) input)
      (set_wx rest (tick (set_wx (WAccept (S n) :: rest) c)))))) as (c' & E & Ef);
      [by rewrite length_drop, Hm|]. by exists c'.
  - destruct (IH input (tick (set_wx (WInterrupted :: rest) c))) as (c' & E & Ef);
      [by rewrite Hm|]. by exists c'.
  - rewrite modify_run. rewrite (bind_run _ _ _ _ _ (wait_run _ _ _ Hclock)).
    match goal with |- context [write_loop _ _ rest input ?c1] =>
      destruct (IH input c1) as (c' & E & Ef); [by rewrite Hm|] end. by exists c'.
Qed.

Lemma flush_loop_complete script c : flushing script = true → (∀ n, clock n < deadline) →
  ∃ c', flush_loop clock deadline script c = (Ok (), c').
Proof.
  intros Hf Hclock. revert c.
  induction script as [|e rest IH]; intros c; cbn [flush_loop]; rewrite modify_run;
    rewrite (bind_run _ _ _ _ _ (check_deadline_run _ _ _ (Hclock _))).
  { rewrite check_deadline_run by done. by eexists. }
  destruct e; try done.
  - rewrite modify_run, check_deadline_run by done. by eexists.
  - by apply IH.
  - rewrite modify_run, (bind_run _ _ _ _ _ (wait_run _ _ _ Hclock)). by apply IH.
Qed.

Lemma send_frame_complete dt body c :
  0 < len body <= MAX_BODY_BYTES → accepting (wx c) (length (frame_bytes dt body)) = true →
  flushing (fx c) = true → (∀ n, clock n < deadline) →
  ∃ c', send_frame clock deadline dt body c = (Ok (), c').
Proof.
  intros Hl Ha Hf Hclock. destruct (write_loop_complete _ _ c Ha Hclock) as (c1 & W & Hfx).
  destruct (flush_loop_complete (fx c1) c1) as (c2 & F); [by rewrite Hfx|done|].
  exists c2. unfold send_frame, write_all_before, flush_before. run_st.
  rewrite (proj2 (Z.eqb_neq (len body) 0)) by lia.
  rewrite (proj2 (Z.ltb_ge MAX_BODY_BYTES _)) by lia. cbn [reject_if]. by rewrite W, F.
Qed.
End writing.

(** The frame of a message on the wire. *)
Definition command_frame (c : CoordinatorCommand) : result ProtocolError bytes :=
  encoded ← encode_coordinator_command c;
  Ok (frame_bytes (Z.lor COORDINATOR_DIRECTION (fst encoded)) (snd encoded)).
Definition event_frame (e : GuardianEvent) : result ProtocolError bytes :=
  encoded ← encode_guardian_event e;
  Ok (frame_bytes (Z.lor GUARDIAN_DIRECTION (fst encoded)) (snd encoded)).

Lemma length_frame_bytes dt body : length (frame_bytes dt body) = (8 + length body)%nat.
Proof. unfold frame_bytes. rewrite !length_app. cbn. lia. Qed.

Lemma encode_command_total c : valid_command c → ∃ p, encode_coordinator_command c = Ok p.
Proof.
  destruct c as [| |role| | |signal|rows cols| |rows cols|]; cbn; eauto;
    intros (? & ? & Hr & Hc); unfold encode_terminal_size, validate_terminal_size;
    rewrite (proj2 (Z.eqb_neq rows 0)), (proj2 (Z.eqb_neq cols 0)) by done; cbn; eauto.
Qed.

Lemma encode_disposition_total d : valid_disposition d → ∃ l, encode_child_disposition d = Ok l.
Proof.
  destruct d as [|code a|signal core a]; cbn; eauto. intros ?.
  rewrite (proj2 (Z.eqb_neq signal 0)), (proj2 (Z.ltb_ge 127 signal)) by lia. cbn. eauto.
Qed.

Lemma encode_event_total e : valid_event e → ∃ p, encode_guardian_event e = Ok p.
Proof.
  destruct e as [|snapshot|role pid pgid| | |signal|rows cols| |rows cols| | | |phase code|
                 app tui worker cleanup session guardian_exit];
    cbn [valid_event encode_guardian_event]; eauto.
  - intros (? & ? & ->). rewrite (proj2 (process_group_iff pid pid)) by done. cbn. eauto.
  - intros (? & ? & Hr & Hc). unfold encode_terminal_size, validate_terminal_size.
    rewrite (proj2 (Z.eqb_neq rows 0)), (proj2 (Z.eqb_neq cols 0)) by done. cbn; eauto.
  - intros (? & ? & Hr & Hc). unfold encode_terminal_size, validate_terminal_size.
    rewrite (proj2 (Z.eqb_neq rows 0)), (proj2 (Z.eqb_neq cols 0)) by done. cbn; eauto.
  - intros ([a ->]%encode_disposition_total & [b ->]%encode_disposition_total & Hx). cbn.
    destruct guardian_exit as [code|signal| |]; cbn in *; eauto.
    rewrite (proj2 (Z.leb_le 1 signal)), (proj2 (Z.leb_le signal 127)) by lia. cbn. eauto.
Qed.

Lemma valid_command_frame t body c :
  valid_command c → encode_coordinator_command c = Ok (t, body) →
  valid_frame (mkFrame t body) ∧ decode_coordinator_command (mkFrame t body) = Ok c.
Proof.
  intros Hv He. destruct (encode_command_sound _ _ _ Hv He) as (? & ? & ? & ?).
  split; [|done]. split; cbn; [done|]. unfold MAX_BODY_BYTES, MAX_FRAME_BYTES, HEADER_BYTES. lia.
Qed.

Lemma valid_event_frame t body e :
  valid_event e → encode_guardian_event e = Ok (t, body) →
  valid_frame (mkFrame t body) ∧ decode_guardian_event (mkFrame t body) = Ok e.
Proof.
  intros Hv He. destruct (encode_event_sound _ _ _ Hv He) as (? & ? & ? & ?).
  split; [|done]. split; cbn; [done|]. unfold MAX_BODY_BYTES, MAX_FRAME_BYTES, HEADER_BYTES. lia.
Qed.

Lemma frame_fits f dt : valid_frame f → (length (frame_bytes dt (frame_body f)) <= 64)%nat.
Proof.
  intros [_ [_ H]]. rewrite length_frame_bytes.
  unfold len, MAX_BODY_BYTES, MAX_FRAME_BYTES, HEADER_BYTES in H. lia.
Qed.

(** Where in a frame the stream ended. *)
Definition truncation_error (k : nat) : ProtocolError :=
  if Nat.eqb k 0 then UnexpectedEof else if Nat.ltb k 8 then TruncatedHeader else TruncatedBody.

Lemma receive_frame_truncated clock deadline d f k s :
  direction d → valid_frame f → live (rx s) = true → (∀ n, clock n < deadline) →
  (k < length (frame_bytes (Z.lor d (message_type f)) (frame_body f)))%nat →
  delivered (rx s) = take k (frame_bytes (Z.lor d (message_type f)) (frame_body f)) →
  ∃ s', receive_frame clock deadline d s = (Err (truncation_error k), s').
Proof.
  intros Hd Hf Hl Hclock Hk D.
  set (w := frame_bytes (Z.lor d (message_type f)) (frame_body f)) in *.
  assert (Hlen : length (delivered (rx s)) = k) by (rewrite D, length_take; lia).
  unfold truncation_error. destruct (Nat.ltb_spec k 8) as [Hk8|Hk8].
  - destruct (read_loop_short clock deadline (rx s) Header 0 8 s) as (s' & R); [done|lia|done|].
    exists s'. unfold receive_frame, read_exact_before. run_st.
    change (Z.to_nat HEADER_BYTES) with 8%nat. rewrite R, Hlen. by destruct k.
  - rewrite (proj2 (Nat.eqb_neq k 0)) by lia.
    (* the completed frame is read by the same run up to the body *)
    assert (Hw : w = (MAGIC ++ [PROTOCOL_VERSION; Z.lor d (message_type f)]
      ++ u16_to_be (len (frame_body f))) ++ frame_body f)
      by (unfold w, frame_bytes; by rewrite <- !app_assoc).
    rewrite Hw, take_app_ge in D by done.
    destruct (read_exact_complete clock deadline Header s _ _ Hl D Hclock) as (s1 & R1 & Hl1 & D1).
    change (length _) with 8%nat in D1, R1.
    rewrite Hw, length_app in Hk. change (length (MAGIC ++ _)) with 8%nat in Hk.
    destruct (read_loop_short clock deadline (rx s1) Body 0 (length (frame_body f)) s1)
      as (s2 & R2); [done|rewrite D1, length_take; lia|done|].
    exists s2. rewrite (receive_after_header clock deadline d f s s1) by done.
    apply bind_run_Err. unfold read_exact_before. run_st. by rewrite R2.
Qed.

(** ** Properties *)

(** C5. The encodings are canonical: a frame body of bytes decodes to a
    message exactly when the message is within the ranges of its fields and
    encodes to that very type and body - for the ten coordinator commands and
    the fourteen guardian events. In particular decoding inverts encoding, and
    no message has two encodings. *)
Theorem wire_canonical :
  (∀ t body c,
    Forall is_byte body ∧ decode_coordinator_command (mkFrame t body) = Ok c ↔
    valid_command c ∧ encode_coordinator_command c = Ok (t, body)) ∧
  (∀ t body e,
    Forall is_byte body ∧ decode_guardian_event (mkFrame t body) = Ok e ↔
    valid_event e ∧ encode_guardian_event e = Ok (t, body)).
Proof.
  split; intros t body m; (split; [intros [Hb Hd]|intros [Hv He]]).
  - by apply decode_command_sound.
  - by destruct (encode_command_sound _ _ _ Hv He) as (? & ? & _).
  - by apply decode_event_sound.
  - by destruct (encode_event_sound _ _ _ Hv He) as (? & ? & _).
Qed.

(** What it means for a message to cross the channel intact: it has one frame
    of at most sixty-four bytes; [send] puts a prefix of it on the wire, the
    whole of it when it succeeds, and it succeeds when the transport makes
    progress before the deadline; [receive] returns the message from any
    delivery of the frame and leaves every byte behind the frame unread. *)
Definition crosses {M} (clock : nat → Z) (deadline : Z) (frame_of : M → result ProtocolError bytes)
    (send : M → stM Channel ProtocolError ()) (receive : stM Channel ProtocolError M) (m : M) : Prop :=
  ∃ frame, frame_of m = Ok frame ∧ (length frame <= 64)%nat ∧
  (∀ s r s', send m s = (r, s') →
     ∃ k, tx s' = tx s ++ take k frame ∧ rx s' = rx s ∧ (r = Ok () → take k frame = frame)) ∧
  (∀ s, accepting (wx s) (length frame) = true → flushing (fx s) = true →
     (∀ n, clock n < deadline) → ∃ s', send m s = (Ok (), s')) ∧
  (∀ s more, live (rx s) = true → (∀ n, clock n < deadline) →
     delivered (rx s) = frame ++ more →
     ∃ s', receive s = (Ok m, s') ∧ live (rx s') = true ∧ delivered (rx s') = more).

Lemma frame_crosses {M} clock deadline d (m : M) t body encode decode :
  direction d → encode m = Ok (t, body) → valid_frame (mkFrame t body) →
  decode (mkFrame t body) = Ok m →
  crosses clock deadline
    (fun m => encoded ← encode m; Ok (frame_bytes (Z.lor d (fst encoded)) (snd encoded)))
    (fun m => encoded ← lift_result (encode m);
              send_frame clock deadline (Z.lor d (fst encoded)) (snd encoded))
    (f ← receive_frame clock deadline d; lift_result (decode f)) m.
Proof.
  intros Hd He Hv Hde. exists (frame_bytes (Z.lor d t) body). rewrite He.
  split_and!; [done|by apply (frame_fits (mkFrame t body))|..].
  - intros s r s' H. run_st in H. cbn [fst snd] in H.
    apply send_frame_sends in H as (k & [Ht Hx] & E). by exists k.
  - intros s ???. run_st. cbn [fst snd]. apply send_frame_complete; try done. apply Hv.
  - intros s more Hl Hclock D.
    destruct (receive_frame_complete clock deadline d s (mkFrame t body) more)
      as (s' & R & ? & ?); [done..|].
    exists s'. rewrite (bind_run _ _ _ _ _ R). unfold lift_result. by rewrite Hde.
Qed.

(** C6. Messages cross the channel intact: every valid command and every valid
    event has one frame of at most sixty-four bytes; whatever a transport does
    to the sender's writes and flushes, only a prefix of that frame reaches the
    wire, the whole of it when the send succeeds, and a transport that makes
    progress before the deadline lets it succeed; and a receiver to which the
    stream delivers that frame, cut into any chunks with any interruptions,
    returns exactly the message and leaves every byte behind the frame unread. *)
Theorem message_transport clock deadline :
  (∀ c, valid_command c →
     crosses clock deadline command_frame (send_coordinator_command clock deadline)
       (receive_coordinator_command clock deadline) c) ∧
  (∀ e, valid_event e →
     crosses clock deadline event_frame (send_guardian_event clock deadline)
       (receive_guardian_event clock deadline) e).
Proof.
  split.
  - intros c Hv. destruct (encode_command_total c Hv) as [[t body] He].
    destruct (valid_command_frame _ _ _ Hv He) as [Hf Hd]. eapply frame_crosses; [by left|done..].
  - intros e Hv. destruct (encode_event_total e Hv) as [[t body] He].
    destruct (valid_event_frame _ _ _ Hv He) as [Hf Hd]. eapply frame_crosses; [by right|done..].
Qed.

(** A receiver never acts on anything but one whole frame read in time:
    when a message is returned, the bytes consumed from the stream are exactly
    the message's frame, the message is valid, every reading of the clock was
    before the deadline, and nothing was sent. *)
Lemma receive_exact clock deadline s s' : Forall is_byte (delivered (rx s)) →
  (∀ c, receive_coordinator_command clock deadline s = (Ok c, s') →
     valid_command c ∧ timely clock deadline s s' ∧ same_tx s s' ∧
     ∃ frame, command_frame c = Ok frame ∧ delivered (rx s) = frame ++ delivered (rx s')) ∧
  (∀ e, receive_guardian_event clock deadline s = (Ok e, s') →
     valid_event e ∧ timely clock deadline s s' ∧ same_tx s s' ∧
     ∃ frame, event_frame e = Ok frame ∧ delivered (rx s) = frame ++ delivered (rx s')).
Proof.
  intros Hb.
  assert (Hframe : ∀ d f s', direction d → receive_frame clock deadline d s = (Ok f, s') →
    Forall is_byte (frame_body f)).
  { intros d f s1 Hd R. apply receive_frame_sound in R as (_ & _ & D); [|done..].
    rewrite D in Hb. apply Forall_app in Hb as [Hb _]. unfold frame_bytes in Hb.
    rewrite !Forall_app in Hb. by destruct_and! Hb. }
  split; intros m H; apply stM_bind_Ok in H as (f & s1 & R & [= Hd <-]).
  - pose proof (Hframe _ _ _ (or_introl eq_refl) R) as Hf.
    apply receive_frame_sound in R as (_ & [Hm Hx] & D); [|done|by left].
    destruct f as [t body]. destruct (decode_command_sound _ _ _ Hf Hd) as [Hv He].
    split_and!; try done; try apply Hx; try apply Hm. unfold command_frame. rewrite He. by eexists.
  - pose proof (Hframe _ _ _ (or_intror eq_refl) R) as Hf.
    apply receive_frame_sound in R as (_ & [Hm Hx] & D); [|done|by right].
    destruct f as [t body]. destruct (decode_event_sound _ _ _ Hf Hd) as [Hv He].
    split_and!; try done; try apply Hx; try apply Hm. unfold event_frame. rewrite He. by eexists.
Qed.

(** A stream that ends inside a frame is reported as what it is: for a
    stream that delivers the first [k] bytes of a frame and then ends, however
    they are cut up, receiving fails with [UnexpectedEof] at a frame boundary
    ([k = 0]), [TruncatedHeader] inside the header and [TruncatedBody] after
    it, for commands and for events. *)
Lemma receive_truncated clock deadline k s :
  live (rx s) = true → (∀ n, clock n < deadline) →
  (∀ c frame, valid_command c → command_frame c = Ok frame → (k < length frame)%nat →
     delivered (rx s) = take k frame →
     ∃ s', receive_coordinator_command clock deadline s = (Err (truncation_error k), s')) ∧
  (∀ e frame, valid_event e → event_frame e = Ok frame → (k < length frame)%nat →
     delivered (rx s) = take k frame →
     ∃ s', receive_guardian_event clock deadline s = (Err (truncation_error k), s')).
Proof.
  intros Hl Hclock. split; intros m frame Hv Hm Hk D.
  - unfold command_frame in Hm. apply bind_Ok in Hm as ([t body] & He & [= <-]).
    destruct (valid_command_frame _ _ _ Hv He) as [Hf _].
    destruct (receive_frame_truncated clock deadline COORDINATOR_DIRECTION (mkFrame t body) k s)
      as (s' & R); [by left|done..|].
    exists s'. by apply bind_run_Err.
  - unfold event_frame in Hm. apply bind_Ok in Hm as ([t body] & He & [= <-]).
    destruct (valid_event_frame _ _ _ Hv He) as [Hf _].
    destruct (receive_frame_truncated clock deadline GUARDIAN_DIRECTION (mkFrame t body) k s)
      as (s' & R); [by right|done..|].
    exists s'. by apply bind_run_Err.
Qed.

(** ** Concrete runs *)

Module WireExample.

(** A clock that stands still before the deadline. *)
Definition stopped : nat → Z := fun _ => 0.

Lemma size_24_80 : valid_size 24 80.
Proof. unfold valid_size, is_u16. split_and!; [lia|lia|lia|lia|done|done]. Qed.

(** The frame [CLFR 1 5 0 5 | 1 0 24 0 80], one byte, then an interruption,
    then the rest with the first byte of the next frame. *)
Definition cut : Channel :=
  mkChannel [RData [67]; RInterrupted; RData [76; 70; 82; 1]; RWouldBlock;
             RData [5; 0; 5; 1; 0; 24; 0; 80; 67]] [] [] [] 0.

Definition short_stream : Channel :=
  mkChannel [RData [67]; RWouldBlock; RData [76; 70; 82; 1; 5; 0; 5; 1]] [] [] [] 0.

Lemma message_transport_witness :
  valid_command (Resize 24 80) ∧
  ∃ s', receive_coordinator_command stopped 1 cut = (Ok (Resize 24 80), s') ∧
    delivered (rx s') = [67].
Proof.
  split; [exact size_24_80|].
  destruct (proj1 (message_transport stopped 1) (Resize 24 80) size_24_80)
    as (frame & Hf & _ & _ & _ & Hr).
  vm_compute in Hf. injection Hf as <-.
  destruct (Hr cut [67]) as (s' & R & _ & D); [reflexivity|intros n; reflexivity|reflexivity|].
  exists s'. split; [exact R|exact D].
Defined.

Lemma cut_bytes : Forall is_byte (delivered (rx cut)).
Proof. apply (bool_decide_unpack _). vm_compute. exact I. Qed.

Lemma receive_exact_witness :
  ∃ s', receive_coordinator_command stopped 1 cut = (Ok (Resize 24 80), s') ∧
    timely stopped 1 cut s'.
Proof.
  destruct (receive_coordinator_command stopped 1 cut) as [r s'] eqn:E.
  assert (Hr : r = Ok (Resize 24 80))
    by (change r with (fst (r, s')); rewrite <- E; vm_compute; reflexivity).
  exists s'. subst r. split; [reflexivity|].
  destruct (receive_exact stopped 1 cut s' cut_bytes) as [Hc _].
  exact (proj1 (proj2 (Hc _ E))).
Defined.

Lemma receive_truncated_witness :
  ∃ s', receive_coordinator_command stopped 1 short_stream = (Err TruncatedBody, s').
Proof.
  destruct (receive_truncated stopped 1 9 short_stream) as [H _];
    [reflexivity|intros n; reflexivity|].
  destruct (command_frame (Resize 24 80)) as [frame|] eqn:Hf; [|discriminate Hf].
  destruct (H (Resize 24 80) frame size_24_80 Hf) as (s' & R).
  - vm_compute in Hf. injection Hf as <-. cbn. lia.
  - vm_compute in Hf. injection Hf as <-. reflexivity.
  - exists s'. exact R.
Defined.
End WireExample.
