(* ===== verification/Lifecycle.v ===== *)
(** * The terminal lifecycle validator
    (src/providers/codex/supervisor/protocol.rs, [TerminalLifecycleValidator])

    Both ends of the lifecycle channel feed the messages they receive and the
    ones they send through the same state machine; it decides which message is
    acceptable now, when terminal input may flow, and which final disposition
    the transcript proves. A method on [&mut self] is a computation of [stM]
    over the record; a rejected message leaves the assignments made before the
    early return. *)
From S2P Require Import Prelude Interfaces Wire.

Open Scope Z_scope.

Inductive TerminalLifecycleState :=
| St_AwaitLeaseBeforeStart | St_AwaitStart | St_AwaitTerminalArmed
| St_AwaitTerminalArmAcceptance | St_AwaitApp | St_AwaitAppDescriptorVerification
| St_AwaitTui | St_AwaitTuiDescriptorVerification | St_AwaitReady | St_ReadyForGate
| St_AwaitGateOpened | St_Active
| St_AwaitSignalForwarded (signal : UnixSignal) (was_suspended : bool)
| St_AwaitResizeApplied (rows cols : Z)
| St_AwaitSuspended | St_Suspended
| St_AwaitResumed (rows cols : Z)
| St_AwaitQuiesced | St_FailedAwaitQuiesced | St_Quiesced | St_AwaitRecoveryDisarmed
| St_RecoveryDisarmed | St_Terminal.

Inductive RecoveryCommandWindow := Wd_ReadyForGate | Wd_Active | Wd_Suspended.
Inductive RecoveryCommandAllowance :=
| Al_Inactive
| Al_AwaitingFailure (window : RecoveryCommandWindow)
| Al_Armed (window : RecoveryCommandWindow)
| Al_Consumed.
Inductive TerminalCommandAcceptance := Applied | RecoverySuperseded.

#[export] Instance State_eq_dec : EqDecision TerminalLifecycleState.
Proof. solve_decision. Defined.
#[export] Instance Window_eq_dec : EqDecision RecoveryCommandWindow.
Proof. solve_decision. Defined.
#[export] Instance Allowance_eq_dec : EqDecision RecoveryCommandAllowance.
Proof. solve_decision. Defined.
#[export] Instance Acceptance_eq_dec : EqDecision TerminalCommandAcceptance.
Proof. solve_decision. Defined.

Record TerminalLifecycleValidator := mkValidator {
  state : TerminalLifecycleState;
  lease_committed : bool;
  app_started : bool;
  tui_started : bool;
  app_process_group : option Z;
  gate_ever_opened : bool;
  superseded_gate_may_be_pending : bool;
  recovery_command_allowance : RecoveryCommandAllowance;
  failure : option (Phase * FailureCode);
  termination_cause : option SessionTerminationCause;
  terminal_exit_disposition : option GuardianExitDisposition;
}.

Definition before_start : TerminalLifecycleValidator :=
  mkValidator St_AwaitLeaseBeforeStart false false false None false false Al_Inactive
    None None None.

(** Field assignments. *)
Definition set_state s v :=
  mkValidator s (lease_committed v) (app_started v) (tui_started v) (app_process_group v)
    (gate_ever_opened v) (superseded_gate_may_be_pending v) (recovery_command_allowance v)
    (failure v) (termination_cause v) (terminal_exit_disposition v).
Definition set_lease_committed b v :=
  mkValidator (state v) b (app_started v) (tui_started v) (app_process_group v)
    (gate_ever_opened v) (superseded_gate_may_be_pending v) (recovery_command_allowance v)
    (failure v) (termination_cause v) (terminal_exit_disposition v).
Definition set_app_started pgid v :=
  mkValidator (state v) (lease_committed v) true (tui_started v) (Some pgid)
    (gate_ever_opened v) (superseded_gate_may_be_pending v) (recovery_command_allowance v)
    (failure v) (termination_cause v) (terminal_exit_disposition v).
Definition set_tui_started b v :=
  mkValidator (state v) (lease_committed v) (app_started v) b (app_process_group v)
    (gate_ever_opened v) (superseded_gate_may_be_pending v) (recovery_command_allowance v)
    (failure v) (termination_cause v) (terminal_exit_disposition v).
Definition set_gate_ever_opened b v :=
  mkValidator (state v) (lease_committed v) (app_started v) (tui_started v) (app_process_group v)
    b (superseded_gate_may_be_pending v) (recovery_command_allowance v)
    (failure v) (termination_cause v) (terminal_exit_disposition v).
Definition set_gate_pending b v :=
  mkValidator (state v) (lease_committed v) (app_started v) (tui_started v) (app_process_group v)
    (gate_ever_opened v) b (recovery_command_allowance v)
    (failure v) (termination_cause v) (terminal_exit_disposition v).
Definition set_allowance a v :=
  mkValidator (state v) (lease_committed v) (app_started v) (tui_started v) (app_process_group v)
    (gate_ever_opened v) (superseded_gate_may_be_pending v) a
    (failure v) (termination_cause v) (terminal_exit_disposition v).
Definition set_failure f v :=
  mkValidator (state v) (lease_committed v) (app_started v) (tui_started v) (app_process_group v)
    (gate_ever_opened v) (superseded_gate_may_be_pending v) (recovery_command_allowance v)
    f (termination_cause v) (terminal_exit_disposition v).
Definition set_cause c v :=
  mkValidator (state v) (lease_committed v) (app_started v) (tui_started v) (app_process_group v)
    (gate_ever_opened v) (superseded_gate_may_be_pending v) (recovery_command_allowance v)
    (failure v) c (terminal_exit_disposition v).
Definition set_exit_disposition d v :=
  mkValidator (state v) (lease_committed v) (app_started v) (tui_started v) (app_process_group v)
    (gate_ever_opened v) (superseded_gate_may_be_pending v) (recovery_command_allowance v)
    (failure v) (termination_cause v) d.

Abbreviation V := (stM TerminalLifecycleValidator ProtocolError).

Definition arm_recovery_command_race : V () :=
  v ← get_st;
  if bool_decide (failure v ≠ None)
     || bool_decide (recovery_command_allowance v ≠ Al_Inactive)
  then throw UnexpectedState
  else match state v with
  | St_ReadyForGate => modify_st (set_allowance (Al_AwaitingFailure Wd_ReadyForGate))
  | St_Active => modify_st (set_allowance (Al_AwaitingFailure Wd_Active))
  | St_Suspended => modify_st (set_allowance (Al_AwaitingFailure Wd_Suspended))
  | _ => throw UnexpectedState
  end.

(** [match (window, command)] of the drain slot. *)
Definition superseded_allowed (window : RecoveryCommandWindow) (command : CoordinatorCommand)
    : result ProtocolError bool :=
  match window, command with
  | Wd_ReadyForGate, (OpenInputGate | Stop) => Ok true
  | Wd_Active, (Signal _ | Suspend | Stop) => Ok true
  | Wd_Suspended, (Signal _ | Stop) => Ok true
  | Wd_Active, Resize rows cols | Wd_Suspended, Resume rows cols =>
      _ ← validate_terminal_size rows cols;
      Ok true
  | _, _ => Ok false
  end.

Definition accept_recovery_superseded_command (command : CoordinatorCommand)
    : V (option TerminalCommandAcceptance) :=
  v ← get_st;
  if negb (bool_decide (state v = St_Quiesced)) then mret None
  else match recovery_command_allowance v with
  | Al_Inactive => mret None
  | Al_AwaitingFailure _ => throw UnexpectedState
  | Al_Consumed =>
      if bool_decide (command = TerminalRestored) then
        _ ← modify_st (set_allowance Al_Inactive);
        mret None
      else throw UnexpectedState
  | Al_Armed window =>
      if bool_decide (command = TerminalRestored) then
        _ ← modify_st (set_allowance Al_Inactive);
        mret None
      else
        allowed ← lift_result (superseded_allowed window command);
        if negb allowed then throw UnexpectedState
        else
          _ ← modify_st (set_allowance Al_Consumed);
          _ ← modify_st (set_gate_pending false);
          mret (Some RecoverySuperseded)
  end.

(** [match (self.state, command)], whose arms also clear the superseded-gate
    bit; the state is assigned by the caller. *)
Definition next_command_state (v : TerminalLifecycleValidator) (command : CoordinatorCommand)
    : V TerminalLifecycleState :=
  match state v, command with
  | St_AwaitStart, Start => mret St_AwaitTerminalArmed
  | St_AwaitTerminalArmAcceptance, TerminalArmAccepted => mret St_AwaitApp
  | St_AwaitAppDescriptorVerification, ChildDescriptorsVerified AppServer => mret St_AwaitTui
  | St_AwaitTuiDescriptorVerification, ChildDescriptorsVerified Tui => mret St_AwaitReady
  | St_ReadyForGate, OpenInputGate => mret St_AwaitGateOpened
  | St_Active, Signal signal => mret (St_AwaitSignalForwarded signal false)
  | St_Suspended, Signal signal => mret (St_AwaitSignalForwarded signal true)
  | St_Active, Resize rows cols =>
      _ ← lift_result (validate_terminal_size rows cols);
      mret (St_AwaitResizeApplied rows cols)
  | St_Active, Suspend => mret St_AwaitSuspended
  | St_Suspended, Resume rows cols =>
      _ ← lift_result (validate_terminal_size rows cols);
      mret (St_AwaitResumed rows cols)
  | (St_ReadyForGate | St_Active | St_Suspended), Stop => mret St_AwaitQuiesced
  | St_Quiesced, Signal (Int | Quit) => mret St_Quiesced
  | St_Quiesced, Resize rows cols =>
      _ ← lift_result (validate_terminal_size rows cols);
      mret St_Quiesced
  | St_Quiesced, OpenInputGate =>
      if superseded_gate_may_be_pending v then
        _ ← modify_st (set_gate_pending false);
        mret St_Quiesced
      else throw UnexpectedState
  | St_Quiesced, TerminalRestored =>
      _ ← modify_st (set_gate_pending false);
      mret St_AwaitRecoveryDisarmed
  | _, _ => throw UnexpectedState
  end.

Definition accept_command (command : CoordinatorCommand) : V TerminalCommandAcceptance :=
  acceptance ← accept_recovery_superseded_command command;
  match acceptance with
  | Some acceptance => mret acceptance
  | None =>
      v ← get_st;
      let coordinator_stop :=
        match state v, command with
        | (St_ReadyForGate | St_Active | St_Suspended), Stop => true
        | _, _ => false
        end in
      next ← next_command_state v command;
      _ ← modify_st (set_state next);
      _ ← (if coordinator_stop then modify_st (set_cause (Some CoordinatorStop)) else mret ());
      mret Applied
  end.

Definition accept_failure (phase : Phase) (code : FailureCode) : V () :=
  v ← get_st;
  let post_recovery_worker_failure :=
    bool_decide (state v = St_RecoveryDisarmed) && bool_decide (phase = Ph_Worker)
      && bool_decide (code = Fc_Worker) in
  if bool_decide (failure v ≠ None)
     || bool_decide (state v ∈ [St_AwaitLeaseBeforeStart; St_AwaitStart; St_Terminal;
                                St_FailedAwaitQuiesced])
     || (bool_decide (state v = St_RecoveryDisarmed) && negb post_recovery_worker_failure)
  then throw UnexpectedState
  else
    recovery_window ←
      match recovery_command_allowance v with
      | Al_AwaitingFailure window =>
          if bool_decide (phase = Ph_Protocol) && bool_decide (code = Fc_Internal)
          then mret (Some window) else throw UnexpectedState
      | Al_Armed _ | Al_Consumed => throw UnexpectedState
      | Al_Inactive => mret None
      end;
    _ ← modify_st (set_gate_pending
          (bool_decide (state v = St_ReadyForGate) && bool_decide (recovery_window = None)));
    _ ← (if recovery_window is Some window then modify_st (set_allowance (Al_Armed window))
         else mret ());
    _ ← modify_st (set_failure (Some (phase, code)));
    modify_st (set_state
      (match state v with
       | St_Quiesced | St_AwaitRecoveryDisarmed | St_RecoveryDisarmed => state v
       | _ => St_FailedAwaitQuiesced
       end)).

(** The guardian's exit as a function of the children, the worker and why the
    session ended. *)
Definition project_terminal_semantics (app tui : ChildDisposition) (worker : WorkerJoinStatus)
    (cause : SessionTerminationCause) : SessionStatus * GuardianExitDisposition :=
  let app_expected :=
    match app with
    | Exited 0 (Sa_None | Sa_Term) | Signaled 15 false Sa_Term => true
    | _ => false
    end in
  if negb (bool_decide (worker = JoinedClean)) || negb app_expected
  then (Failed_, Ge_InternalFailure)
  else match cause, tui with
  | NaturalTuiEof, Exited code Sa_None =>
      (if code =? 0 then Completed else Failed_, Ge_Code code)
  | NaturalTuiEof, Signaled signal _ Sa_None => (Failed_, Ge_Signal signal)
  | CoordinatorStop, Exited code (Sa_None | Sa_Term) =>
      (if code =? 0 then Completed else Failed_, Ge_Code code)
  | CoordinatorStop, Signaled 15 _ Sa_Term => (Completed, Ge_Code 0)
  | CoordinatorStop, Signaled signal _ Sa_None => (Failed_, Ge_Signal signal)
  | UsageExhaustion, (Exited 0 (Sa_None | Sa_Term) | Signaled 15 false Sa_Term) =>
      (Completed, Ge_UsageExhausted)
  | ForwardedHup, Signaled 1 _ Sa_None => (Completed, Ge_Signal 1)
  | ForwardedTerm, Signaled 15 _ Sa_None => (Completed, Ge_Signal 15)
  | (ForwardedHup | ForwardedTerm), Exited code Sa_None =>
      (if code =? 0 then Completed else Failed_, Ge_Code code)
  | (ForwardedHup | ForwardedTerm), Signaled signal _ Sa_None => (Failed_, Ge_Signal signal)
  | _, _ => (Failed_, Ge_InternalFailure)
  end.

Definition validate_terminal (v : TerminalLifecycleValidator) (event : GuardianEvent)
    : result ProtocolError GuardianExitDisposition :=
  match event with
  | ChildrenReaped app tui worker Complete session guardian_exit =>
      let app_up := negb (bool_decide (app = NotStarted)) in
      let tui_up := negb (bool_decide (tui = NotStarted)) in
      _ ← reject_if (negb (Bool.eqb app_up (app_started v))
                     || negb (Bool.eqb tui_up (tui_started v))) InvalidValue;
      _ ← reject_if (bool_decide (worker = Wj_NotStarted)
                     && (tui_up || (app_up && bool_decide (failure v = None)))) InvalidValue;
      match failure v with
      | None =>
          _ ← reject_if (negb (bool_decide (worker = JoinedClean))
                || negb (lease_committed v) || negb (app_started v) || negb (tui_started v)
                || (negb (gate_ever_opened v)
                    && negb (bool_decide (termination_cause v = Some CoordinatorStop))))
                InvalidValue;
          cause ← ok_or (termination_cause v) UnexpectedState;
          let expected := project_terminal_semantics app tui worker cause in
          if bool_decide (guardian_exit = Ge_InternalFailure) then
            _ ← reject_if (negb (bool_decide (session = Failed_))) InvalidValue;
            Ok guardian_exit
          else
            _ ← reject_if (negb (bool_decide (session = fst expected))
                           || negb (bool_decide (guardian_exit = snd expected))) InvalidValue;
            Ok guardian_exit
      | Some (phase, code) =>
          _ ← reject_if (bool_decide (phase ∈ [Ph_Cleanup; Ph_Restore])
                         || bool_decide (code ∈ [Fc_CleanupMismatch; Fc_Restore]))
                UnexpectedState;
          _ ← reject_if (negb (bool_decide (session = Failed_))
                         || negb (bool_decide (guardian_exit = Ge_InternalFailure)))
                InvalidValue;
          Ok guardian_exit
      end
  | _ => Err UnexpectedState
  end.

(** [match (prior_state, event)], with the assignments its arms make. *)
Definition next_event_state (v : TerminalLifecycleValidator) (event : GuardianEvent)
    : V TerminalLifecycleState :=
  match state v, event with
  | St_AwaitLeaseBeforeStart, LeaseCommitted =>
      _ ← modify_st (set_lease_committed true);
      mret St_AwaitStart
  | St_AwaitTerminalArmed, TerminalArmed _ => mret St_AwaitTerminalArmAcceptance
  | St_AwaitApp, ChildStarted AppServer pid pgid =>
      _ ← lift_result (validate_process_group pid pgid);
      _ ← modify_st (set_app_started pgid);
      mret St_AwaitAppDescriptorVerification
  | St_AwaitTui, ChildStarted Tui pid pgid =>
      _ ← lift_result (validate_process_group pid pgid);
      _ ← lift_result (reject_if (bool_decide (app_process_group v = Some pgid)) InvalidValue);
      _ ← modify_st (set_tui_started true);
      mret St_AwaitTuiDescriptorVerification
  | St_AwaitReady, Ready => mret St_ReadyForGate
  | St_AwaitGateOpened, InputGateOpened =>
      _ ← modify_st (set_gate_ever_opened true);
      mret St_Active
  | St_AwaitSignalForwarded expected was_suspended, SignalForwarded signal =>
      if negb (bool_decide (signal = expected)) then throw UnexpectedState
      else match signal with
      | Hup => _ ← modify_st (set_cause (Some ForwardedHup)); mret St_AwaitQuiesced
      | Term => _ ← modify_st (set_cause (Some ForwardedTerm)); mret St_AwaitQuiesced
      | Int | Quit => mret (if was_suspended then St_Suspended else St_Active)
      end
  | St_AwaitResizeApplied expected_rows expected_cols, ResizeApplied rows cols =>
      if (rows =? expected_rows) && (cols =? expected_cols) then mret St_Active
      else throw UnexpectedState
  | St_AwaitSignalForwarded (Int | Quit) false, TerminalQuiesced => mret St_Quiesced
  | St_AwaitResizeApplied _ _, TerminalQuiesced => mret St_Quiesced
  | St_AwaitSuspended, Suspended => mret St_Suspended
  | St_AwaitResumed expected_rows expected_cols, Resumed rows cols =>
      if (rows =? expected_rows) && (cols =? expected_cols) then mret St_ReadyForGate
      else throw UnexpectedState
  | St_Active, UsageExhausted =>
      _ ← modify_st (set_cause (Some UsageExhaustion));
      mret St_AwaitQuiesced
  | St_Active, TerminalQuiesced => mret St_Quiesced
  | (St_AwaitQuiesced | St_FailedAwaitQuiesced), TerminalQuiesced => mret St_Quiesced
  | St_AwaitRecoveryDisarmed, TerminalRecoveryDisarmed => mret St_RecoveryDisarmed
  | St_RecoveryDisarmed, ChildrenReaped _ _ _ _ _ _ =>
      exit ← lift_result (validate_terminal v event);
      _ ← modify_st (set_exit_disposition (Some exit));
      mret St_Terminal
  | _, _ => throw UnexpectedState
  end.

(** The prior states in which quiescence without a cause is a natural exit. *)
Definition natural_exit_state (s : TerminalLifecycleState) : bool :=
  match s with
  | St_Active | St_AwaitResizeApplied _ _ | St_AwaitSignalForwarded (Int | Quit) false => true
  | _ => false
  end.

Definition accept_event (event : GuardianEvent) : V () :=
  match event with
  | Failed phase code => accept_failure phase code
  | _ =>
      prior ← get_st;
      next ← next_event_state prior event;
      _ ← modify_st (set_state next);
      v ← get_st;
      if bool_decide (event = TerminalQuiesced) && bool_decide (termination_cause v = None)
         && natural_exit_state (state prior)
      then modify_st (set_cause (Some NaturalTuiEof))
      else mret ()
  end.

Definition take_terminal_exit_disposition : V (option GuardianExitDisposition) :=
  v ← get_st;
  _ ← modify_st (set_exit_disposition None);
  mret (terminal_exit_disposition v).

Definition validator_terminal_received (v : TerminalLifecycleValidator) : bool :=
  match state v with St_Terminal => true | _ => false end.

Definition validator_input_gate_opened (v : TerminalLifecycleValidator) : bool :=
  match state v with
  | St_Active | St_AwaitSignalForwarded (Int | Quit) false | St_AwaitResizeApplied _ _ => true
  | _ => false
  end.
