(* ===== verification/LifecycleProofs.v ===== *)
(** * Theorems about the terminal lifecycle

    [lifecycle_step] is the protocol as a transition relation; the validator
    accepts exactly its steps. Everything about transcripts is then proved by
    induction over the steps. *)
From S2P Require Import Prelude Interfaces Wire Lifecycle.

Open Scope Z_scope.

(** What the validator is fed: a command with how it was accepted, an event,
    or the arming of the recovery race. *)
Inductive label :=
| Arm
| Cmd (c : CoordinatorCommand) (a : TerminalCommandAcceptance)
| Evt (e : GuardianEvent).

#[export] Instance label_eq_dec : EqDecision label.
Proof. solve_decision. Defined.

Definition accepts (v : TerminalLifecycleValidator) (l : label) (v' : TerminalLifecycleValidator)
    : Prop :=
  match l with
  | Arm => arm_recovery_command_race v = (Ok (), v')
  | Cmd c a => accept_command c v = (Ok a, v')
  | Evt e => accept_event e v = (Ok (), v')
  end.

(** ** The protocol as a relation *)

Definition window_of (s : TerminalLifecycleState) : option RecoveryCommandWindow :=
  match s with
  | St_ReadyForGate => Some Wd_ReadyForGate
  | St_Active => Some Wd_Active
  | St_Suspended => Some Wd_Suspended
  | _ => None
  end.
Definition failed_state (s : TerminalLifecycleState) : TerminalLifecycleState :=
  match s with
  | St_Quiesced | St_AwaitRecoveryDisarmed | St_RecoveryDisarmed => s
  | _ => St_FailedAwaitQuiesced
  end.
Definition may_fail (s : TerminalLifecycleState) (f : Phase * FailureCode) : bool :=
  match s with
  | St_AwaitLeaseBeforeStart | St_AwaitStart | St_Terminal | St_FailedAwaitQuiesced => false
  | St_RecoveryDisarmed => bool_decide (f = (Ph_Worker, Fc_Worker))
  | _ => true
  end.
Definition record_natural_exit (v : TerminalLifecycleValidator) : TerminalLifecycleValidator :=
  if bool_decide (termination_cause v = None) then set_cause (Some NaturalTuiEof) v else v.
Definition sized (rows cols : Z) : Prop := rows ≠ 0 ∧ cols ≠ 0.

Inductive lifecycle_step : TerminalLifecycleValidator → label → TerminalLifecycleValidator → Prop :=
(* startup *)
| ls_lease v : state v = St_AwaitLeaseBeforeStart →
    lifecycle_step v (Evt LeaseCommitted) (set_state St_AwaitStart (set_lease_committed true v))
| ls_start v : state v = St_AwaitStart →
    lifecycle_step v (Cmd Start Applied) (set_state St_AwaitTerminalArmed v)
| ls_armed v f : state v = St_AwaitTerminalArmed →
    lifecycle_step v (Evt (TerminalArmed f)) (set_state St_AwaitTerminalArmAcceptance v)
| ls_arm_accepted v : state v = St_AwaitTerminalArmAcceptance →
    lifecycle_step v (Cmd TerminalArmAccepted Applied) (set_state St_AwaitApp v)
| ls_app v pid : state v = St_AwaitApp → 0 < pid →
    lifecycle_step v (Evt (ChildStarted AppServer pid pid))
      (set_state St_AwaitAppDescriptorVerification (set_app_started pid v))
| ls_app_verified v : state v = St_AwaitAppDescriptorVerification →
    lifecycle_step v (Cmd (ChildDescriptorsVerified AppServer) Applied) (set_state St_AwaitTui v)
| ls_tui v pid : state v = St_AwaitTui → 0 < pid → app_process_group v ≠ Some pid →
    lifecycle_step v (Evt (ChildStarted Tui pid pid))
      (set_state St_AwaitTuiDescriptorVerification (set_tui_started true v))
| ls_tui_verified v : state v = St_AwaitTuiDescriptorVerification →
    lifecycle_step v (Cmd (ChildDescriptorsVerified Tui) Applied) (set_state St_AwaitReady v)
| ls_ready v : state v = St_AwaitReady →
    lifecycle_step v (Evt Ready) (set_state St_ReadyForGate v)
(* the input gate *)
| ls_open_gate v : state v = St_ReadyForGate →
    lifecycle_step v (Cmd OpenInputGate Applied) (set_state St_AwaitGateOpened v)
| ls_gate_opened v : state v = St_AwaitGateOpened →
    lifecycle_step v (Evt InputGateOpened) (set_state St_Active (set_gate_ever_opened true v))
(* foreground controls *)
| ls_signal v s : state v = St_Active →
    lifecycle_step v (Cmd (Signal s) Applied) (set_state (St_AwaitSignalForwarded s false) v)
| ls_signal_suspended v s : state v = St_Suspended →
    lifecycle_step v (Cmd (Signal s) Applied) (set_state (St_AwaitSignalForwarded s true) v)
| ls_forwarded v s b : state v = St_AwaitSignalForwarded s b → s = Int ∨ s = Quit →
    lifecycle_step v (Evt (SignalForwarded s)) (set_state (if b then St_Suspended else St_Active) v)
| ls_forwarded_hup v b : state v = St_AwaitSignalForwarded Hup b →
    lifecycle_step v (Evt (SignalForwarded Hup))
      (set_state St_AwaitQuiesced (set_cause (Some ForwardedHup) v))
| ls_forwarded_term v b : state v = St_AwaitSignalForwarded Term b →
    lifecycle_step v (Evt (SignalForwarded Term))
      (set_state St_AwaitQuiesced (set_cause (Some ForwardedTerm) v))
| ls_resize v rows cols : state v = St_Active → sized rows cols →
    lifecycle_step v (Cmd (Resize rows cols) Applied) (set_state (St_AwaitResizeApplied rows cols) v)
| ls_resize_applied v rows cols : state v = St_AwaitResizeApplied rows cols →
    lifecycle_step v (Evt (ResizeApplied rows cols)) (set_state St_Active v)
| ls_suspend v : state v = St_Active →
    lifecycle_step v (Cmd Suspend Applied) (set_state St_AwaitSuspended v)
| ls_suspended v : state v = St_AwaitSuspended →
    lifecycle_step v (Evt Suspended) (set_state St_Suspended v)
| ls_resume v rows cols : state v = St_Suspended → sized rows cols →
    lifecycle_step v (Cmd (Resume rows cols) Applied) (set_state (St_AwaitResumed rows cols) v)
| ls_resumed v rows cols : state v = St_AwaitResumed rows cols →
    lifecycle_step v (Evt (Resumed rows cols)) (set_state St_ReadyForGate v)
(* shutdown *)
| ls_stop v w : window_of (state v) = Some w →
    lifecycle_step v (Cmd Stop Applied) (set_cause (Some CoordinatorStop) (set_state St_AwaitQuiesced v))
| ls_usage v : state v = St_Active →
    lifecycle_step v (Evt UsageExhausted)
      (set_state St_AwaitQuiesced (set_cause (Some UsageExhaustion) v))
| ls_natural v : natural_exit_state (state v) = true →
    lifecycle_step v (Evt TerminalQuiesced) (record_natural_exit (set_state St_Quiesced v))
| ls_quiesced v : state v = St_AwaitQuiesced ∨ state v = St_FailedAwaitQuiesced →
    lifecycle_step v (Evt TerminalQuiesced) (set_state St_Quiesced v)
(* commands that crossed the quiescence on the wire *)
| ls_drain_signal v s : state v = St_Quiesced → recovery_command_allowance v = Al_Inactive →
    s = Int ∨ s = Quit → lifecycle_step v (Cmd (Signal s) Applied) v
| ls_drain_resize v rows cols : state v = St_Quiesced →
    recovery_command_allowance v = Al_Inactive → sized rows cols →
    lifecycle_step v (Cmd (Resize rows cols) Applied) v
| ls_drain_gate v : state v = St_Quiesced → recovery_command_allowance v = Al_Inactive →
    superseded_gate_may_be_pending v = true →
    lifecycle_step v (Cmd OpenInputGate Applied) (set_gate_pending false v)
| ls_superseded v w c : state v = St_Quiesced → recovery_command_allowance v = Al_Armed w →
    c ≠ TerminalRestored → superseded_allowed w c = Ok true →
    lifecycle_step v (Cmd c RecoverySuperseded)
      (set_gate_pending false (set_allowance Al_Consumed v))
(* restoration and the end *)
| ls_restored v : state v = St_Quiesced →
    (∀ w, recovery_command_allowance v ≠ Al_AwaitingFailure w) →
    lifecycle_step v (Cmd TerminalRestored Applied)
      (set_state St_AwaitRecoveryDisarmed (set_gate_pending false (set_allowance Al_Inactive v)))
| ls_disarmed v : state v = St_AwaitRecoveryDisarmed →
    lifecycle_step v (Evt TerminalRecoveryDisarmed) (set_state St_RecoveryDisarmed v)
| ls_reaped v app tui worker session exit d : state v = St_RecoveryDisarmed →
    validate_terminal v (ChildrenReaped app tui worker Complete session exit) = Ok d →
    lifecycle_step v (Evt (ChildrenReaped app tui worker Complete session exit))
      (set_state St_Terminal (set_exit_disposition (Some d) v))
(* failure *)
| ls_failed v p c : failure v = None → may_fail (state v) (p, c) = true →
    recovery_command_allowance v = Al_Inactive →
    lifecycle_step v (Evt (Failed p c))
      (set_state (failed_state (state v)) (set_failure (Some (p, c))
        (set_gate_pending (bool_decide (state v = St_ReadyForGate)) v)))
| ls_recovery_failed v w : failure v = None → may_fail (state v) (Ph_Protocol, Fc_Internal) = true →
    recovery_command_allowance v = Al_AwaitingFailure w →
    lifecycle_step v (Evt (Failed Ph_Protocol Fc_Internal))
      (set_state (failed_state (state v)) (set_failure (Some (Ph_Protocol, Fc_Internal))
        (set_allowance (Al_Armed w) (set_gate_pending false v))))
| ls_arm v w : failure v = None → recovery_command_allowance v = Al_Inactive →
    window_of (state v) = Some w →
    lifecycle_step v Arm (set_allowance (Al_AwaitingFailure w) v).

Lemma validate_terminal_size_Ok rows cols u :
  validate_terminal_size rows cols = Ok u ↔ sized rows cols.
Proof.
  destruct u.
  unfold validate_terminal_size, sized.
  destruct (Z.eqb_spec rows 0), (Z.eqb_spec cols 0); cbn; naive_solver.
Qed.

Lemma validate_process_group_Ok pid pgid u :
  validate_process_group pid pgid = Ok u ↔ 0 < pid ∧ pgid = pid.
Proof.
  destruct u.
  unfold validate_process_group.
  destruct (Z.ltb_spec 0 pid), (Z.eqb_spec pgid pid); cbn; split; try done; lia.
Qed.

(** The side conditions of a rule on a concrete record, and the rule itself. *)
Ltac side :=
  cbn; first [ reflexivity | eassumption | discriminate | congruence | lia
             | by left | by right | by eapply validate_terminal_size_Ok
             | intros; discriminate
             | by apply dec_stable ].
Lemma step_eq v l v1 v' : lifecycle_step v l v1 → v1 = v' → lifecycle_step v l v'.
Proof. by intros ? <-. Qed.
Ltac some_rule :=
  first [
    eapply ls_lease; side | eapply ls_start; side | eapply ls_armed; side | eapply
    ls_arm_accepted; side | eapply ls_app; side | eapply ls_app_verified; side | eapply
    ls_tui; side | eapply ls_tui_verified; side | eapply ls_ready; side | eapply
    ls_open_gate; side | eapply ls_gate_opened; side | eapply ls_signal; side | eapply
    ls_signal_suspended; side | eapply ls_forwarded; side | eapply ls_forwarded_hup; side |
    eapply ls_forwarded_term; side | eapply ls_resize; side | eapply ls_resize_applied; side
    | eapply ls_suspend; side | eapply ls_suspended; side | eapply ls_resume; side | eapply
    ls_resumed; side | eapply ls_stop; side | eapply ls_usage; side | eapply ls_natural;
    side | eapply ls_quiesced; side | eapply ls_drain_signal; side | eapply ls_drain_resize;
    side | eapply ls_drain_gate; side | eapply ls_superseded; side | eapply ls_restored;
    side | eapply ls_disarmed; side | eapply ls_reaped; side | eapply ls_failed; side |
    eapply ls_recovery_failed; side | eapply ls_arm; side
  ].
Ltac by_rule := solve [eapply step_eq; [some_rule | reflexivity]].

Lemma arm_sound v v' : arm_recovery_command_race v = (Ok (), v') → lifecycle_step v Arm v'.
Proof.
  destruct v; unfold arm_recovery_command_race; run_st; cbn; intros H.
  repeat case_match; inv_bool; simplify_eq/=; by_rule.
Qed.

Lemma superseded_spec c v a v' :
  accept_recovery_superseded_command c v = (Ok a, v') →
  match a with
  | None => v' = (if bool_decide (state v = St_Quiesced)
                  then set_allowance Al_Inactive v else v) ∧
      (state v = St_Quiesced → c = TerminalRestored ∨ recovery_command_allowance v = Al_Inactive) ∧
      (state v = St_Quiesced → ∀ w, recovery_command_allowance v ≠ Al_AwaitingFailure w)
  | Some a => a = RecoverySuperseded ∧ lifecycle_step v (Cmd c a) v'
  end.
Proof.
  destruct v as [s lc ap tu apg geo pend al fl tc ted];
    unfold accept_recovery_superseded_command; run_st; cbn [state recovery_command_allowance].
  destruct (bool_decide_reflect (s = St_Quiesced)) as [->|Hs]; cbn [negb].
  2: { intros [= <- <-]. done. }
  destruct al as [|w|w|].
  - intros [= <- <-]. split_and!; [done|by right|done].
  - done.
  - destruct (bool_decide_reflect (c = TerminalRestored)) as [->|Hc].
    { intros [= <- <-]. split_and!; [done|by left|done]. }
    destruct (superseded_allowed w c) as [[]|] eqn:Ha; cbn; try done.
    intros [= <- <-]. split; [done|]. by_rule.
  - destruct (bool_decide_reflect (c = TerminalRestored)) as [->|Hc]; [|done].
    intros [= <- <-]. split_and!; [done|by left|done].
Qed.

Lemma command_sound c v a v' : accept_command c v = (Ok a, v') → lifecycle_step v (Cmd c a) v'.
Proof.
  unfold accept_command. run_st.
  destruct (accept_recovery_superseded_command c v) as [[[a1|]|e] v1] eqn:Hs; try done.
  { apply superseded_spec in Hs as [-> ?]. by intros [= <- <-]. }
  apply superseded_spec in Hs as (-> & Hfree & Haw).
  destruct v as [s lc ap tu apg geo pend al fl tc ted]. cbn [state recovery_command_allowance] in *.
  destruct (bool_decide_reflect (s = St_Quiesced)) as [->|Hq].
  - specialize (Haw eq_refl). specialize (Hfree eq_refl).
    unfold next_command_state. run_st. cbn.
    destruct (decide (c = TerminalRestored)) as [->|Hc].
    { intros [= <- <-]. by_rule. }
    destruct Hfree as [ | -> ]; [done|].
    destruct c as [ | |role| | |sg|rows cols| |rows cols|]; try done; intros H;
      repeat case_match; simplify_eq/=; by_rule.
  - clear Hfree Haw. unfold next_command_state. run_st. cbn.
    destruct s; try done; destruct c as [ | |role| | |sg|rows cols| |rows cols|]; try done;
      intros H; repeat case_match; simplify_eq/=; by_rule.
Qed.

Lemma worker_failure p c :
  bool_decide (p = Ph_Worker) && bool_decide (c = Fc_Worker)
  = bool_decide ((p, c) = (Ph_Worker, Fc_Worker)).
Proof. by destruct p, c. Qed.

Lemma failure_guard s (fl : option (Phase * FailureCode)) p c :
  bool_decide (fl ≠ None)
  || bool_decide (s ∈ [St_AwaitLeaseBeforeStart; St_AwaitStart; St_Terminal; St_FailedAwaitQuiesced])
  || (bool_decide (s = St_RecoveryDisarmed)
      && negb (bool_decide (s = St_RecoveryDisarmed) && bool_decide (p = Ph_Worker)
               && bool_decide (c = Fc_Worker))) =
  negb (bool_decide (fl = None) && may_fail s (p, c)).
Proof.
  rewrite (negb_andb (bool_decide (fl = None))), <- orb_assoc. apply (f_equal2 orb); [by destruct fl|].
  rewrite <- andb_assoc, worker_failure. by destruct s.
Qed.

Lemma accept_failure_unfold p c v :
  accept_failure p c v =
    if bool_decide (failure v = None) && may_fail (state v) (p, c) then
      match recovery_command_allowance v with
      | Al_Inactive =>
          (Ok (), set_state (failed_state (state v)) (set_failure (Some (p, c))
            (set_gate_pending (bool_decide (state v = St_ReadyForGate)) v)))
      | Al_AwaitingFailure w =>
          if bool_decide (p = Ph_Protocol) && bool_decide (c = Fc_Internal) then
            (Ok (), set_state (failed_state (state v)) (set_failure (Some (p, c))
              (set_allowance (Al_Armed w) (set_gate_pending false v))))
          else (Err UnexpectedState, v)
      | _ => (Err UnexpectedState, v)
      end
    else (Err UnexpectedState, v).
Proof.
  unfold accept_failure. run_st. rewrite failure_guard.
  destruct (bool_decide (failure v = None) && may_fail (state v) (p, c)); cbn [negb].
  - destruct (recovery_command_allowance v) as [|w|w|]; try done.
    + rewrite andb_true_r. by destruct v as [[] ? ? ? ? ? ? ? ? ? ?].
    + destruct (bool_decide (p = Ph_Protocol) && _); [|done].
      rewrite andb_false_r. by destruct v as [[] ? ? ? ? ? ? ? ? ? ?].
  - done.
Qed.

Lemma failure_sound p c v v' : accept_failure p c v = (Ok (), v') →
  lifecycle_step v (Evt (Failed p c)) v'.
Proof.
  rewrite accept_failure_unfold. intros H. repeat case_match; simplify_eq; inv_bool.
  - by apply ls_failed.
  - subst. by apply ls_recovery_failed.
Qed.

Lemma event_sound e v v' : accept_event e v = (Ok (), v') → lifecycle_step v (Evt e) v'.
Proof.
  destruct v as [s lc ap tu apg geo pend al fl tc ted].
  destruct e as [|f|role pid pgid| | |sg|rows cols| |rows cols| | | |p c|
                 app tui worker cleanup session exit];
    [..|apply failure_sound|];
    unfold accept_event; run_st; cbn -[next_event_state];
    destruct (next_event_state _ _ _) as [[s'|] v1] eqn:E; try done;
    unfold next_event_state in E; cbn [state] in E;
    destruct s; try discriminate E;
    try rewrite (bool_decide_eq_false_2 (_ = TerminalQuiesced)) by discriminate;
    cbn [andb]; intros H; run_st in E.
  all: repeat case_match; simplify_eq; inv_ok; inv_bool; subst;
    repeat match goal with
    | H : validate_process_group _ _ = Ok _ |- _ => apply validate_process_group_Ok in H as [? ->]
    end.
  all: try destruct cleanup; destruct tc; simplify_eq/=; by_rule.
Qed.

Lemma command_free c v :
  (state v ≠ St_Quiesced ∨ recovery_command_allowance v = Al_Inactive) →
  accept_recovery_superseded_command c v = (Ok None, v).
Proof.
  unfold accept_recovery_superseded_command. run_st.
  destruct (bool_decide_reflect (state v = St_Quiesced)) as [E|E]; cbn [negb]; [|done].
  by intros [?| ->].
Qed.

Lemma step_accepts v l v' : lifecycle_step v l v' → accepts v l v'.
Proof.
  intros H. destruct H; destruct v as [st lc ap tu apg geo pend al fl tc ted];
    cbn [state recovery_command_allowance superseded_gate_may_be_pending failure
         app_process_group] in *;
    repeat match goal with H : _ ∨ _ |- _ => destruct H end; subst;
    try match goal with b : bool |- _ => by destruct b end; try reflexivity;
    cbn [accepts]; unfold accept_command, accept_event; try rewrite accept_failure_unfold;
    unfold accept_recovery_superseded_command, next_command_state, next_event_state,
      arm_recovery_command_race; run_st; cbn [state recovery_command_allowance failure negb];
    repeat match goal with
    | H : sized _ _ |- _ => apply (validate_terminal_size_Ok _ _ ()) in H; rewrite H; clear H
    | H : 0 < ?p |- context [validate_process_group ?p ?p] =>
        rewrite (proj2 (validate_process_group_Ok p p ())) by done
    | H : may_fail _ _ = true |- _ => rewrite H
    | H : validate_terminal _ _ = Ok _ |- _ => rewrite H
    | H : superseded_allowed _ _ = Ok true |- _ => rewrite H
    | H : ?c ≠ TerminalRestored |- _ => rewrite (bool_decide_eq_false_2 (c = TerminalRestored)) by done
    | H : apg ≠ Some ?p |- _ => rewrite (bool_decide_eq_false_2 (apg = Some p)) by done
    end; try rewrite !Z.eqb_refl; try reflexivity.
  - (* stop *) by destruct st.
  - (* natural exit *) destruct st as [ | | | | | | | | | | | |sg b|r c| | |r c| | | | | |]; try done;
      try destruct sg, b; try done; by destruct tc.
  - (* quiesced *) by destruct tc.
  - (* after failure *) by destruct tc.
  - (* restored *) destruct al as [|w|w|]; try done. by destruct (H0 w).
  - (* armed *) by destruct st; simplify_eq/=.
Qed.

(** A rejected message leaves the validator as it was. *)
Lemma next_command_rejected c v e v' : next_command_state v c v = (Err e, v') → v' = v.
Proof.
  unfold next_command_state. destruct (state v); intros H; try (by injection H as <- <-);
    destruct c; try (by injection H as <- <-); run_st in H; repeat case_match; by simplify_eq/=.
Qed.

Lemma next_event_rejected ev v e v' : next_event_state v ev v = (Err e, v') → v' = v.
Proof.
  unfold next_event_state. destruct (state v); intros H; try (by injection H as <- <-);
    destruct ev; try (by injection H as <- <-); run_st in H; repeat case_match; by simplify_eq/=.
Qed.

Lemma superseded_rejected c v e v' :
  accept_recovery_superseded_command c v = (Err e, v') → v' = v.
Proof.
  unfold accept_recovery_superseded_command. run_st. intros H. repeat case_match; by simplify_eq/=.
Qed.

Lemma command_rejected c v e v' : accept_command c v = (Err e, v') → v' = v.
Proof.
  unfold accept_command. run_st.
  destruct (accept_recovery_superseded_command c v) as [[[a|]|e1] v1] eqn:E; try done.
  - apply superseded_spec in E as (-> & Hf & _).
    destruct (bool_decide_reflect (state v = St_Quiesced)) as [Hq|Hq].
    + destruct (Hf Hq) as [ -> |Hi].
      { unfold next_command_state. destruct v; cbn in *; subst. by run_st. }
      assert (set_allowance Al_Inactive v = v) as -> by (destruct v; cbn in *; by subst).
      destruct (next_command_state v c v) as [[s|e1] v1] eqn:E; run_st.
      * repeat case_match; by simplify_eq/=.
      * apply next_command_rejected in E. intros [= <- <-]. done.
    + destruct (next_command_state v c v) as [[s|e1] v1] eqn:E; run_st.
      * repeat case_match; by simplify_eq/=.
      * apply next_command_rejected in E. intros [= <- <-]. done.
  - apply superseded_rejected in E. intros [= <- <-]. done.
Qed.

Lemma event_rejected ev v e v' : accept_event ev v = (Err e, v') → v' = v.
Proof.
  assert (Hev : (prior ← get_st; next ← next_event_state prior ev; _ ← modify_st (set_state next);
      v ← get_st;
      if bool_decide (ev = TerminalQuiesced) && bool_decide (termination_cause v = None)
         && natural_exit_state (state prior)
      then modify_st (set_cause (Some NaturalTuiEof)) else mret ()) v = (Err e, v') → v' = v).
  { run_st. destruct (next_event_state v ev v) as [[s|e1] v1] eqn:E.
    - intros H. repeat case_match; by simplify_eq/=.
    - apply next_event_rejected in E. intros [= <- <-]. done. }
  unfold accept_event. destruct ev; try exact Hev. clear Hev.
  rewrite accept_failure_unfold. intros H. repeat case_match; by simplify_eq/=.
Qed.

Lemma arm_rejected e v v' : arm_recovery_command_race v = (Err e, v') → v' = v.
Proof.
  unfold arm_recovery_command_race. run_st. intros H. repeat case_match; by simplify_eq/=.
Qed.

(** ** Transcripts *)

(** Runs a transcript; [None] when a message is not accepted that way. *)
Definition replay_label (v : TerminalLifecycleValidator) (l : label)
    : option TerminalLifecycleValidator :=
  match l with
  | Arm => match arm_recovery_command_race v with (Ok _, v') => Some v' | _ => None end
  | Cmd c a => match accept_command c v with
               | (Ok a', v') => if bool_decide (a' = a) then Some v' else None
               | _ => None
               end
  | Evt e => match accept_event e v with (Ok _, v') => Some v' | _ => None end
  end.
Fixpoint replay_from (v : TerminalLifecycleValidator) (tr : list label)
    : option TerminalLifecycleValidator :=
  match tr with
  | [] => Some v
  | l :: tr => v' ← replay_label v l; replay_from v' tr
  end.
Definition replay (tr : list label) : option TerminalLifecycleValidator :=
  replay_from before_start tr.

(** The messages that crossed the wire. *)
Definition is_message (l : label) : bool := match l with Arm => false | _ => true end.
Definition messages (tr : list label) : list label := List.filter is_message tr.

Lemma replay_label_step v l v' : replay_label v l = Some v' ↔ lifecycle_step v l v'.
Proof.
  split.
  - destruct l as [|c a|e]; cbn; intros H; repeat case_match; simplify_eq.
    + apply arm_sound. match goal with u : () |- _ => by destruct u end.
    + inv_bool. subst. by apply command_sound.
    + apply event_sound. match goal with u : () |- _ => by destruct u end.
  - intros H%step_accepts. destruct l as [|c a|e]; cbn in *; rewrite H; [done| |done].
    by rewrite bool_decide_eq_true_2.
Qed.

Lemma replay_from_app v tr1 tr2 :
  replay_from v (tr1 ++ tr2) = (v' ← replay_from v tr1; replay_from v' tr2).
Proof.
  revert v. induction tr1 as [|l tr1 IH]; intros v; cbn; [done|].
  destruct (replay_label v l) as [v'|]; cbn; [apply IH|done].
Qed.

Lemma replay_ind (P : list label → TerminalLifecycleValidator → Prop) :
  P [] before_start →
  (∀ tr v l v', replay tr = Some v → P tr v → lifecycle_step v l v' → P (tr ++ [l]) v') →
  ∀ tr v, replay tr = Some v → P tr v.
Proof.
  intros H0 HS tr. induction tr as [|l tr IH] using rev_ind; intros v H.
  { by injection H as <-. }
  unfold replay in *. rewrite replay_from_app in H.
  destruct (replay_from before_start tr) as [v1|] eqn:E; [|done]. cbn in H.
  destruct (replay_label v1 l) as [v2|] eqn:E2; [|done]. injection H as <-.
  apply replay_label_step in E2. eapply HS; eauto.
Qed.

Lemma messages_snoc tr l : messages (tr ++ [l]) = messages tr ++ (if is_message l then [l] else []).
Proof. unfold messages. by rewrite List.filter_app. Qed.

(** *** What the fields record of the transcript *)

Definition failure_of (l : label) : option (Phase * FailureCode) :=
  match l with Evt (Failed p c) => Some (p, c) | _ => None end.
Inductive milestone := M_Quiesced | M_Restored | M_Disarmed | M_Reaped.
Definition milestone_of (l : label) : option milestone :=
  match l with
  | Evt TerminalQuiesced => Some M_Quiesced
  | Cmd TerminalRestored _ => Some M_Restored
  | Evt TerminalRecoveryDisarmed => Some M_Disarmed
  | Evt (ChildrenReaped _ _ _ _ _ _) => Some M_Reaped
  | _ => None
  end.
Definition milestones (s : TerminalLifecycleState) : list milestone :=
  match s with
  | St_Quiesced => [M_Quiesced]
  | St_AwaitRecoveryDisarmed => [M_Quiesced; M_Restored]
  | St_RecoveryDisarmed => [M_Quiesced; M_Restored; M_Disarmed]
  | St_Terminal => [M_Quiesced; M_Restored; M_Disarmed; M_Reaped]
  | _ => []
  end.
Definition is_lease (l : label) : bool :=
  match l with Evt LeaseCommitted => true | _ => false end.
Definition is_app (l : label) : bool :=
  match l with Evt (ChildStarted AppServer _ _) => true | _ => false end.
Definition is_tui (l : label) : bool :=
  match l with Evt (ChildStarted Tui _ _) => true | _ => false end.
Definition is_gate_opened (l : label) : bool :=
  match l with Evt InputGateOpened => true | _ => false end.

(** The fields are what the transcript says: who was started, whether the gate
    was ever opened, the one failure, and how far the shutdown has come. *)
Record recorded (tr : list label) (v : TerminalLifecycleValidator) : Prop := {
  rec_lease : lease_committed v = existsb is_lease tr;
  rec_app : app_started v = existsb is_app tr;
  rec_tui : tui_started v = existsb is_tui tr;
  rec_gate : gate_ever_opened v = existsb is_gate_opened tr;
  rec_failure : omap failure_of tr = option_list (failure v);
  rec_milestones : omap milestone_of tr = milestones (state v);
}.

Lemma milestones_failed s f : may_fail s f = true → milestones (failed_state s) = milestones s.
Proof. by destruct s. Qed.

Lemma milestones_running s :
  natural_exit_state s = true ∨ window_of s ≠ None → milestones s = [].
Proof. destruct s; cbn; naive_solver. Qed.

Lemma replay_recorded tr v : replay tr = Some v → recorded tr v.
Proof.
  revert tr v. apply replay_ind; [done|]. intros tr v l v' _ [L A T G F M] H.
  destruct H; split; rewrite ?existsb_app, ?omap_app; unfold record_natural_exit;
    try case_bool_decide; cbn;
    rewrite ?orb_false_r, ?orb_true_r, ?app_nil_r; try done; try congruence;
    rewrite ?M, ?F; try (erewrite milestones_failed by done);
    repeat match goal with H : _ ∨ _ |- _ => destruct H end;
    repeat match goal with
    | H : state v = _ |- _ => rewrite H; clear H
    | H : failure v = None |- _ => rewrite H; clear H
    end; try done.
  all: try (rewrite milestones_running; [done|]).
  - by destruct b.
  - by destruct b.
  - right. congruence.
  - by left.
  - by left.
  - by destruct c.
Qed.

(** *** The startup barrier *)

(** The eleven messages that open the input gate for the first time. *)
Definition barrier (snapshot : TerminalSnapshotFingerprint) (app tui : Z) : list label :=
  [Evt LeaseCommitted; Cmd Start Applied; Evt (TerminalArmed snapshot);
   Cmd TerminalArmAccepted Applied; Evt (ChildStarted AppServer app app);
   Cmd (ChildDescriptorsVerified AppServer) Applied; Evt (ChildStarted Tui tui tui);
   Cmd (ChildDescriptorsVerified Tui) Applied; Evt Ready; Cmd OpenInputGate Applied;
   Evt InputGateOpened].

(** How many of them have been exchanged. *)
Definition startup_progress (s : TerminalLifecycleState) : option nat :=
  match s with
  | St_AwaitLeaseBeforeStart => Some 0 | St_AwaitStart => Some 1
  | St_AwaitTerminalArmed => Some 2 | St_AwaitTerminalArmAcceptance => Some 3
  | St_AwaitApp => Some 4 | St_AwaitAppDescriptorVerification => Some 5
  | St_AwaitTui => Some 6 | St_AwaitTuiDescriptorVerification => Some 7
  | St_AwaitReady => Some 8 | St_ReadyForGate => Some 9 | St_AwaitGateOpened => Some 10
  | _ => None
  end%nat.

Definition groups (app tui : Z) : Prop := 0 < app ∧ 0 < tui ∧ app ≠ tui.

(** States in which the session runs; they are reached only through the gate. *)
Definition running (s : TerminalLifecycleState) : bool :=
  match s with
  | St_Active | St_AwaitSignalForwarded _ _ | St_AwaitResizeApplied _ _ | St_AwaitSuspended
  | St_Suspended | St_AwaitResumed _ _ => true
  | _ => false
  end.

Record started (tr : list label) (v : TerminalLifecycleValidator) : Prop := {
  sta_closed : gate_ever_opened v = false → ∀ n, startup_progress (state v) = Some n →
    ∃ f p q, groups p q ∧ messages tr = take n (barrier f p q) ∧
      ((5 <= n)%nat → app_process_group v = Some p);
  sta_opened : gate_ever_opened v = true →
    (∀ n, startup_progress (state v) = Some n → (9 <= n)%nat) ∧
    ∃ f p q rest, groups p q ∧ messages tr = barrier f p q ++ rest;
  sta_running : gate_ever_opened v = false → running (state v) = false;
}.

(** Steps that neither start nor open anything. *)
Lemma started_other tr v l v' :
  started tr v → gate_ever_opened v' = gate_ever_opened v →
  (gate_ever_opened v = true → ∀ n, startup_progress (state v') = Some n → (9 <= n)%nat) →
  (gate_ever_opened v = false → startup_progress (state v') = None ∧ running (state v') = false) →
  started (tr ++ [l]) v'.
Proof.
  intros [C O R] Hg Hn Hc. split; rewrite Hg.
  - intros Hf n Hs. destruct (Hc Hf) as [E _]. congruence.
  - intros Ht. split; [auto|]. destruct (O Ht) as (_ & f & p & q & rest & Hpq & E).
    exists f, p, q, (rest ++ (if is_message l then [l] else [])). split; [done|].
    by rewrite messages_snoc, E, app_assoc.
  - intros Hf. by apply Hc.
Qed.

(** Steps of the startup itself. *)
Lemma started_next tr v l v' n :
  started tr v → is_message l = true → startup_progress (state v) = Some n →
  gate_ever_opened v' = gate_ever_opened v → startup_progress (state v') = Some (S n) →
  (∀ f p q, groups p q → ((5 <= n)%nat → app_process_group v = Some p) →
     ∃ f' p' q', groups p' q' ∧ take n (barrier f p q) ++ [l] = take (S n) (barrier f' p' q') ∧
       ((5 <= S n)%nat → app_process_group v' = Some p')) →
  started (tr ++ [l]) v'.
Proof.
  intros [C O R] Hl Hn Hg Hs Hl'. split; rewrite Hg.
  - intros Hf m Hm. rewrite Hs in Hm. injection Hm as <-.
    destruct (C Hf n Hn) as (f & p & q & Hpq & E & Hp).
    destruct (Hl' f p q Hpq Hp) as (f' & p' & q' & Hpq' & E' & Hp').
    exists f', p', q'. split_and!; [done| |done]. by rewrite messages_snoc, E, Hl.
  - intros Ht. destruct (O Ht) as (Hlow & f & p & q & rest & Hpq & E). split.
    + intros m Hm. rewrite Hs in Hm. injection Hm as <-. specialize (Hlow _ Hn). lia.
    + exists f, p, q, (rest ++ [l]). split; [done|]. by rewrite messages_snoc, E, Hl, app_assoc.
  - intros Hf. by destruct (state v').
Qed.

Lemma groups_fresh p : 0 < p → ∃ q, groups p q.
Proof. exists (p + 1). unfold groups. lia. Qed.

Lemma started_gate tr v :
  started tr v → state v = St_AwaitGateOpened →
  started (tr ++ [Evt InputGateOpened]) (set_state St_Active (set_gate_ever_opened true v)).
Proof.
  intros [C O R] Hs. split; [done| |done]. intros _. split; [done|].
  destruct (gate_ever_opened v) eqn:Hg.
  - destruct (O eq_refl) as (_ & f & p & q & rest & Hpq & E).
    exists f, p, q, (rest ++ [Evt InputGateOpened]). split; [done|].
    by rewrite messages_snoc, E, <- app_assoc.
  - destruct (C eq_refl 10%nat) as (f & p & q & Hpq & E & _); [by rewrite Hs|].
    exists f, p, q, []. split; [done|]. by rewrite messages_snoc, E.
Qed.

Lemma started_arm tr v w : started tr v →
  started (tr ++ [Arm]) (set_allowance (Al_AwaitingFailure w) v).
Proof.
  intros [C O R]. split; [| |done].
  - intros Hf n Hn. destruct (C Hf n Hn) as (f & p & q & Hpq & E & Hp).
    exists f, p, q. by rewrite messages_snoc, app_nil_r.
  - intros Ht. destruct (O Ht) as (Hl & f & p & q & rest & Hpq & E). split; [done|].
    exists f, p, q, rest. by rewrite messages_snoc, app_nil_r.
Qed.

Lemma failed_progress s f : may_fail s f = true →
  startup_progress (failed_state s) = None ∧ running (failed_state s) = false.
Proof. by destruct s. Qed.

Lemma replay_started tr v : replay tr = Some v → started tr v.
Proof.
  revert tr v. apply replay_ind.
  { split; [|done|done]. intros _ n [= <-]. exists [], 1, 2. split_and!; [done|done|lia]. }
  intros tr v l v' _ S H. destruct H.
  1-10: (match goal with H : state ?x = _ |- _ =>
      eapply (started_next _ x); [done|done|by rewrite H|done|done|cbn] end).
  3: { intros _ p q Hpq Hp. exists f, p, q. split_and!; [done|done|lia]. }
  4: { intros f p q _ _. destruct (groups_fresh pid) as [q' ?]; [done|]. by exists f, pid, q'. }
  5: { intros f p q Hpq Hp. exists f, p, pid. specialize (Hp ltac:(lia)).
       split_and!; [|done|done]. unfold groups in *. split_and!; [lia|done|congruence]. }
  1-7: intros f p q Hpq Hp; exists f, p, q; split_and!; [done|done|intros; first [lia|by apply Hp; lia]].
  1: by apply started_gate.
  25: by apply started_arm.
  all: eapply started_other; [exact S|try done|cbn|cbn].
  all: try (unfold record_natural_exit; case_bool_decide; done).
  all: try (intros Hg; pose proof (sta_running _ _ S Hg) as R).
  all: try match goal with
    | H : state ?x = _, R : running (state ?x) = false |- _ => rewrite H in R; try discriminate R
    end.
  all: try match goal with H : state ?x = _ |- context [state ?x] => rewrite H end.
  all: try match goal with
    | H : may_fail _ _ = true |- _ => apply failed_progress in H; destruct H as [E1 E2]; rewrite E1; try rewrite E2
    end.
  all: try destruct b; try done.
  intros _ n [= <-]. lia.
Qed.

(** *** The open gate *)

(** The guardian is ready: after startup, or after a resume. *)
Definition ready_label (l : label) : Prop :=
  l = Evt Ready ∨ ∃ rows cols, l = Evt (Resumed rows cols).
(** The controls that leave the gate open. *)
Definition foreground (l : label) : bool :=
  match l with
  | Cmd (Signal (Int | Quit)) Applied | Evt (SignalForwarded (Int | Quit))
  | Cmd (Resize _ _) Applied | Evt (ResizeApplied _ _) => true
  | _ => false
  end.

Definition handshake (tr : list label) (v : TerminalLifecycleValidator) : Prop :=
  match state v with
  | St_ReadyForGate => ∃ pre r, messages tr = pre ++ [r] ∧ ready_label r
  | St_AwaitGateOpened =>
      ∃ pre r, messages tr = pre ++ [r; Cmd OpenInputGate Applied] ∧ ready_label r
  | s =>
      natural_exit_state s = true →
      ∃ pre r post, messages tr = pre ++ [r; Cmd OpenInputGate Applied; Evt InputGateOpened] ++ post ∧
        ready_label r ∧ Forall (fun l => foreground l = true) post
  end.

Lemma handshake_foreground tr v l v' :
  handshake tr v → natural_exit_state (state v) = true → foreground l = true →
  natural_exit_state (state v') = true → handshake (tr ++ [l]) v'.
Proof.
  unfold handshake. intros Hh Hs Hl Hs'.
  assert (Hm : is_message l = true) by (by destruct l).
  assert (H : ∃ pre r post,
    messages tr = pre ++ [r; Cmd OpenInputGate Applied; Evt InputGateOpened] ++ post ∧
    ready_label r ∧ Forall (fun l => foreground l = true) post)
    by (destruct (state v); try discriminate Hs; auto).
  destruct H as (pre & r & post & Hpre & Hr & Hpost).
  assert (G : ∃ pre r post,
    messages (tr ++ [l]) = pre ++ [r; Cmd OpenInputGate Applied; Evt InputGateOpened] ++ post ∧
    ready_label r ∧ Forall (fun l => foreground l = true) post).
  { exists pre, r, (post ++ [l]). split_and!; [|done|].
    - rewrite messages_snoc, Hm, Hpre, <- !app_assoc. done.
    - apply Forall_app. by split; [|constructor]. }
  destruct (state v'); try discriminate Hs'; auto.
Qed.

Lemma handshake_closed tr v : natural_exit_state (state v) = false →
  state v ≠ St_ReadyForGate → state v ≠ St_AwaitGateOpened → handshake tr v.
Proof. unfold handshake. intros Hs H1 H2. destruct (state v); try done; congruence. Qed.

Lemma handshake_failed tr v f s : may_fail s f = true → state v = failed_state s → handshake tr v.
Proof. intros Hm Hs. apply handshake_closed; rewrite Hs; by destruct s. Qed.

Lemma replay_handshake tr v : replay tr = Some v → handshake tr v.
Proof.
  revert tr v. apply (replay_ind handshake); [done|]. intros tr v l v' Hrep Hh H.
  destruct H.
  all: try (by apply handshake_closed; unfold record_natural_exit;
            repeat case_bool_decide; cbn; try congruence;
            match goal with H : state _ = _ |- _ => rewrite H end).
  all: try (by eapply handshake_failed).
  all: try (apply (handshake_foreground _ _ _ _ Hh);
    [by match goal with H : state _ = _ |- _ => rewrite H end|done|done]).
  - exists (messages tr), (Evt Ready). rewrite messages_snoc. split; [done|by left].
  - unfold handshake in *. rewrite H in Hh. destruct Hh as (pre & r & E & Hr). cbn.
    exists pre, r. by rewrite messages_snoc, E, <- app_assoc.
  - unfold handshake in *. rewrite H in Hh. destruct Hh as (pre & r & E & Hr). cbn. intros _.
    exists pre, r, []. split; [|by split]. by rewrite messages_snoc, E, <- app_assoc.
  - destruct s; try by apply handshake_closed.
    all: apply (handshake_foreground _ _ _ _ Hh); [by rewrite H|done|done].
  - destruct s; by apply handshake_closed.
  - destruct b; [by apply handshake_closed|].
    assert (natural_exit_state (state v) = true) by (rewrite H; by destruct H0 as [-> | ->]).
    apply (handshake_foreground _ _ _ _ Hh); [done|by destruct H0 as [-> | ->]|done].
  - exists (messages tr), (Evt (Resumed rows cols)). rewrite messages_snoc.
    split; [done|right; eauto].
  - unfold handshake in *. cbn [set_allowance state]. by rewrite messages_snoc, app_nil_r.
Qed.
