(* ===== verification/LifecycleTheorems.v ===== *)
(** * What a lifecycle transcript proves

    Refinement of the transition relation by the validator, the startup
    barrier, the input gate, the order of the shutdown, the recovery race, the
    final exit and the absence of dead ends. *)
From S2P Require Import Prelude Interfaces Wire Lifecycle LifecycleProofs.

Open Scope Z_scope.

(** ** Why a session ends *)

Definition cause_of (l : label) : option SessionTerminationCause :=
  match l with
  | Cmd Stop Applied => Some CoordinatorStop
  | Evt UsageExhausted => Some UsageExhaustion
  | Evt (SignalForwarded Hup) => Some ForwardedHup
  | Evt (SignalForwarded Term) => Some ForwardedTerm
  | _ => None
  end.

(** The causes a transcript declares; a natural exit has no message. *)
Definition declared (cause : option SessionTerminationCause) : list SessionTerminationCause :=
  match cause with Some NaturalTuiEof | None => [] | Some c => [c] end.

(** States before the shutdown, and states after a shutdown without failure. *)
Definition early (s : TerminalLifecycleState) : bool :=
  match s with
  | St_AwaitQuiesced | St_FailedAwaitQuiesced | St_Quiesced | St_AwaitRecoveryDisarmed
  | St_RecoveryDisarmed | St_Terminal => false
  | _ => true
  end.
Definition late (s : TerminalLifecycleState) : bool :=
  match s with
  | St_AwaitQuiesced | St_Quiesced | St_AwaitRecoveryDisarmed | St_RecoveryDisarmed
  | St_Terminal => true
  | _ => false
  end.

Record caused (tr : list label) (v : TerminalLifecycleValidator) : Prop := {
  cau_list : omap cause_of tr = declared (termination_cause v);
  cau_early : early (state v) = true → termination_cause v = None ∧ failure v = None;
  cau_late : late (state v) = true → failure v = None → termination_cause v ≠ None;
  cau_failed : state v = St_FailedAwaitQuiesced → failure v ≠ None;
  cau_gate : termination_cause v ≠ None → termination_cause v ≠ Some CoordinatorStop →
    gate_ever_opened v = true;
}.

(** A step that is not about causes. *)
Lemma caused_quiet tr v l v' :
  caused tr v → cause_of l = None → termination_cause v' = termination_cause v →
  failure v' = failure v → gate_ever_opened v' = gate_ever_opened v →
  early (state v') = early (state v) → late (state v') = late (state v) →
  state v' ≠ St_FailedAwaitQuiesced → caused (tr ++ [l]) v'.
Proof.
  intros [L E La F G] Hl Hc Hf Hg He Hla Hn. split; rewrite ?Hc, ?Hf, ?Hg, ?He, ?Hla; try done.
  by rewrite omap_app, L; cbn; rewrite Hl, app_nil_r.
Qed.

(** A step that declares the cause of the shutdown. *)
Lemma caused_declared tr v l v' c :
  caused tr v → early (state v) = true → cause_of l = Some c → declared (Some c) = [c] →
  termination_cause v' = Some c → state v' = St_AwaitQuiesced →
  (c ≠ CoordinatorStop → gate_ever_opened v' = true) → caused (tr ++ [l]) v'.
Proof.
  intros [L E La F G] He Hl Hd Hc Hs Hg. destruct (E He) as [E1 _].
  split; rewrite ?Hc, ?Hs; try done.
  - rewrite omap_app, L, E1, Hd. cbn. by rewrite Hl.
  - intros _ ?. apply Hg. congruence.
Qed.

(** A failure. *)
Lemma caused_failed tr v l v' f :
  caused tr v → cause_of l = None → may_fail (state v) f = true →
  termination_cause v' = termination_cause v → failure v' = Some f →
  gate_ever_opened v' = gate_ever_opened v → state v' = failed_state (state v) →
  caused (tr ++ [l]) v'.
Proof.
  intros [L E La F G] Hl Hm Hc Hf Hg Hs. split; rewrite ?Hc, ?Hf, ?Hg, ?Hs; try done.
  - by rewrite omap_app, L; cbn; rewrite Hl, app_nil_r.
  - by destruct (state v).
Qed.

Lemma running_opened tr v : replay tr = Some v → running (state v) = true →
  gate_ever_opened v = true.
Proof.
  intros Hr Hs. destruct (gate_ever_opened v) eqn:E; [done|].
  pose proof (sta_running _ _ (replay_started _ _ Hr) E). congruence.
Qed.

Lemma natural_running s : natural_exit_state s = true → running s = true ∧ early s = true.
Proof. by destruct s. Qed.

Lemma caused_natural tr v : caused tr v → natural_exit_state (state v) = true →
  gate_ever_opened v = true →
  caused (tr ++ [Evt TerminalQuiesced]) (record_natural_exit (set_state St_Quiesced v)).
Proof.
  intros [L E La F G] Hn Hg. apply natural_running in Hn as [_ He]. destruct (E He) as [E1 E2].
  unfold record_natural_exit. cbn [set_state termination_cause].
  rewrite E1, bool_decide_eq_true_2 by done. split; try done.
  by rewrite omap_app, L, E1.
Qed.

Lemma window_early s w : window_of s = Some w → early s = true.
Proof. by destruct s. Qed.

Lemma replay_caused tr v : replay tr = Some v → caused tr v.
Proof.
  revert tr v. apply replay_ind; [by split|]. intros tr v l v' Hrep C H.
  destruct H.
  all: try (by eapply caused_failed).
  all: try (apply (caused_quiet _ _ _ _ C); cbn; try done;
    match goal with H : state _ = _ |- _ => rewrite H; done end).
  - destruct C as [L E La F G]. split; cbn; try done.
    + by rewrite omap_app, L; cbn; rewrite app_nil_r.
    + intros _. apply E. by rewrite H.
  - apply (caused_quiet _ _ _ _ C); cbn; rewrite ?H; try done; try (by destruct b).
    by destruct H0 as [-> | ->].
  - apply (caused_declared _ _ _ _ ForwardedHup C); try done; [by rewrite H|].
    intros _. apply (running_opened tr v Hrep). by rewrite H.
  - apply (caused_declared _ _ _ _ ForwardedTerm C); try done; [by rewrite H|].
    intros _. apply (running_opened tr v Hrep). by rewrite H.
  - apply (caused_declared _ _ _ _ CoordinatorStop C); try done. by eapply window_early.
  - apply (caused_declared _ _ _ _ UsageExhaustion C); try done; [by rewrite H|].
    intros _. apply (running_opened tr v Hrep). by rewrite H.
  - apply (caused_natural _ _ C H). by apply (running_opened tr v Hrep), natural_running.
  - destruct H as [H|H]; [by apply (caused_quiet _ _ _ _ C); cbn; rewrite ?H|].
    destruct C as [L E La F G]. split; cbn; try done.
    + by rewrite omap_app, L; cbn; rewrite app_nil_r.
    + intros _ Hf. by destruct (F H).
  - apply (caused_quiet _ _ _ _ C); cbn; rewrite ?H; try done. by destruct c.
  - apply (caused_quiet _ _ _ _ C); cbn; try done. intros E. by rewrite E in H1.
Qed.

(** ** The recovery race *)

Definition superseded_of (l : label) : option CoordinatorCommand :=
  match l with Cmd c RecoverySuperseded => Some c | _ => None end.
Definition recovery_failure : Phase * FailureCode := (Ph_Protocol, Fc_Internal).
Definition restored (s : TerminalLifecycleState) : bool :=
  match s with St_AwaitRecoveryDisarmed | St_RecoveryDisarmed | St_Terminal => true | _ => false end.

Record raced (tr : list label) (v : TerminalLifecycleValidator) : Prop := {
  rac_awaiting : ∀ w, recovery_command_allowance v = Al_AwaitingFailure w →
    failure v = None ∧ restored (state v) = false;
  rac_failed : ∀ w, recovery_command_allowance v = Al_Armed w ∨
    recovery_command_allowance v = Al_Consumed →
    failure v = Some recovery_failure ∧ restored (state v) = false;
  rac_armed : recovery_command_allowance v ≠ Al_Inactive → Arm ∈ tr;
  rac_one : omap superseded_of tr = [] ∨
    (∃ c, omap superseded_of tr = [c]) ∧ Arm ∈ tr ∧ failure v = Some recovery_failure ∧
    (recovery_command_allowance v = Al_Consumed ∨ restored (state v) = true);
}.

Lemma raced_quiet tr v l v' :
  raced tr v → superseded_of l = None →
  recovery_command_allowance v' = recovery_command_allowance v → failure v' = failure v →
  restored (state v') = restored (state v) → raced (tr ++ [l]) v'.
Proof.
  intros [A F I O] Hl Ha Hf Hs. split; rewrite ?Ha, ?Hf, ?Hs; try done.
  - intros ?. apply elem_of_app. by left; apply I.
  - rewrite omap_app. cbn. rewrite Hl, app_nil_r.
    destruct O as [O|(O1 & O2 & O3)]; [by left|right]. split_and!; try apply O3; try done.
    apply elem_of_app. by left.
Qed.

Lemma raced_none tr v : raced tr v → failure v = None → omap superseded_of tr = [].
Proof. intros [A F I O] Hf. destruct O as [O|(_ & _ & E & _)]; [done|congruence]. Qed.

Lemma raced_superseded tr v w c : raced tr v → recovery_command_allowance v = Al_Armed w →
  raced (tr ++ [Cmd c RecoverySuperseded]) (set_gate_pending false (set_allowance Al_Consumed v)).
Proof.
  intros [A F I O] Ha. destruct (F w) as [Hf Hs]; [by left|].
  assert (Harm : Arm ∈ tr ++ [Cmd c RecoverySuperseded])
    by (apply elem_of_app; left; apply I; congruence).
  split; cbn; try done. right. split_and!; [|done|done|by left].
  exists c. destruct O as [O|(_ & _ & _ & [E|E])]; [by rewrite omap_app, O|congruence..].
Qed.

Lemma raced_restored tr v : raced tr v →
  raced (tr ++ [Cmd TerminalRestored Applied])
    (set_state St_AwaitRecoveryDisarmed (set_gate_pending false (set_allowance Al_Inactive v))).
Proof.
  intros [A F I O]. split; cbn; try done; [by intros w [?|?]|].
  rewrite omap_app. cbn. rewrite app_nil_r. destruct O as [O|(O1 & O2 & O3 & _)]; [by left|right].
  split_and!; [done|apply elem_of_app; by left|done|by right].
Qed.

Lemma raced_failed tr v l v' : raced tr v → failure v = None → superseded_of l = None →
  (recovery_command_allowance v' = recovery_command_allowance v ∧
   recovery_command_allowance v = Al_Inactive ∨
   ∃ w, recovery_command_allowance v = Al_AwaitingFailure w ∧
     recovery_command_allowance v' = Al_Armed w ∧ failure v' = Some recovery_failure) →
  restored (state v') = restored (state v) → raced (tr ++ [l]) v'.
Proof.
  intros R Hf Hl Ha Hs. pose proof (raced_none _ _ R Hf) as HO. destruct R as [A F I O].
  assert (HO' : omap superseded_of (tr ++ [l]) = []) by (rewrite omap_app, HO; cbn; by rewrite Hl).
  destruct Ha as [[Ha Hi]|(w & Ha & Ha' & Hf')].
  - split; rewrite ?Ha, ?Hi; try done; [by intros w [?|?]|by left].
  - destruct (A w Ha) as [_ Hr]. split; rewrite ?Ha', ?Hs; try done.
    + intros _. apply elem_of_app. left. apply I. congruence.
    + by left.
Qed.

Lemma window_restored s w : window_of s = Some w → restored s = false.
Proof. by destruct s. Qed.

Lemma failed_restored s f : may_fail s f = true → restored (failed_state s) = restored s.
Proof. by destruct s. Qed.

Lemma replay_raced tr v : replay tr = Some v → raced tr v.
Proof.
  revert tr v. apply replay_ind.
  { split; cbn; try done; [by intros w [?|?]|by left]. }
  intros tr v l v' Hrep R H. destruct H.
  all: try (apply (raced_quiet _ _ _ _ R); unfold record_natural_exit;
    repeat case_bool_decide; cbn; try done;
    repeat match goal with H : _ ∨ _ |- _ => destruct H end;
    match goal with H : state _ = _ |- _ => rewrite H; done | b : bool |- _ => by destruct b end).
  - apply (raced_quiet _ _ _ _ R); try done. cbn. rewrite H. by destruct b.
  - apply (raced_quiet _ _ _ _ R); try done. cbn. by erewrite window_restored.
  - apply (raced_quiet _ _ _ _ R); unfold record_natural_exit; try case_bool_decide; try done;
      cbn; apply natural_running in H as [? ?]; by destruct (state v).
  - by eapply raced_superseded.
  - by apply raced_restored.
  - eapply (raced_failed _ _ _ _ R); try done; [by left|cbn; by eapply failed_restored].
  - eapply (raced_failed _ _ _ _ R); try done; [right; by exists w|cbn; by eapply failed_restored].
  - pose proof (raced_none _ _ R H) as HO. split; cbn; try done.
    + intros w' [= <-]. split; [done|]. by eapply window_restored.
    + by intros w' [?|?].
    + intros _. apply elem_of_app. right. by left.
    + left. by rewrite omap_app, HO.
Qed.

(** ** Ways to the end *)

Definition withheld (f : option (Phase * FailureCode)) : bool :=
  match f with
  | Some (p, c) => bool_decide (p ∈ [Ph_Cleanup; Ph_Restore])
                   || bool_decide (c ∈ [Fc_CleanupMismatch; Fc_Restore])
  | None => false
  end.

(** The validator can still be brought to its terminal state. *)
Definition finishes (v : TerminalLifecycleValidator) : Prop :=
  ∃ more v', replay_from v more = Some v' ∧ state v' = St_Terminal.

Lemma finishes_step v l v' : lifecycle_step v l v' → finishes v' → finishes v.
Proof.
  intros H%replay_label_step (more & v2 & Hm & Hs). exists (l :: more), v2.
  split; [|done]. cbn. by rewrite H.
Qed.

Lemma finishes_disarmed_failed v f : state v = St_RecoveryDisarmed → failure v = Some f →
  withheld (failure v) = false → finishes v.
Proof.
  intros Hs Hf Hw. rewrite Hf in Hw. destruct f as [p c]. cbn [withheld] in Hw.
  assert (Hv : ∃ app tui, validate_terminal v
    (ChildrenReaped app tui JoinedFailed Complete Failed_ Ge_InternalFailure) = Ok Ge_InternalFailure).
  { exists (if app_started v then Exited 0 Sa_None else NotStarted),
      (if tui_started v then Exited 0 Sa_None else NotStarted).
    unfold validate_terminal. rewrite Hf, Hw.
    destruct (app_started v), (tui_started v); reflexivity. }
  destruct Hv as (app & tui & Hv).
  eapply finishes_step; [by eapply ls_reaped|]. eexists [], _. split; reflexivity.
Qed.

Lemma finishes_disarmed v : state v = St_RecoveryDisarmed →
  recovery_command_allowance v = Al_Inactive → withheld (failure v) = false → finishes v.
Proof.
  intros Hs Ha Hw. destruct (failure v) as [f|] eqn:Hf.
  - eapply finishes_disarmed_failed; [done|exact Hf|by rewrite Hf].
  - eapply finishes_step; [apply (ls_failed v Ph_Worker Fc_Worker); [done|by rewrite Hs|done]|].
    eapply finishes_disarmed_failed; [cbn; by rewrite Hs|done|done].
Qed.

Lemma finishes_quiesced v : state v = St_Quiesced →
  (∀ w, recovery_command_allowance v ≠ Al_AwaitingFailure w) →
  withheld (failure v) = false → finishes v.
Proof.
  intros Hs Ha Hw. eapply finishes_step; [by apply ls_restored|].
  eapply finishes_step; [by apply ls_disarmed|]. by apply finishes_disarmed.
Qed.

(** A failure may be announced; it leads to the quiesced terminal. *)
Lemma finishes_failing tr v : raced tr v → failure v = None → state v ≠ St_RecoveryDisarmed →
  may_fail (state v) recovery_failure = true → finishes v.
Proof.
  intros R Hf Hn Hm. pose proof R as [A F I O].
  assert (Hfin : ∀ v', failure v' = Some recovery_failure → state v' = failed_state (state v) →
    (∀ w, recovery_command_allowance v' ≠ Al_AwaitingFailure w) →
    (restored (state v) = true → recovery_command_allowance v' = Al_Inactive) → finishes v').
  { intros v' Hf' Hs' Ha' Hr'. destruct (state v) eqn:E; try done; cbn in Hs';
      try (eapply finishes_step; [apply ls_quiesced; by right|]; apply finishes_quiesced;
           cbn; rewrite ?Hf'; done).
    - apply finishes_quiesced; [done|done|by rewrite Hf'].
    - eapply finishes_step; [by apply ls_disarmed|].
      apply finishes_disarmed; [done|by apply Hr'|cbn; by rewrite Hf']. }
  destruct (recovery_command_allowance v) as [|w|w|] eqn:Ha.
  - eapply finishes_step; [by apply ls_failed|]. apply Hfin; cbn; [done|done|by rewrite Ha|done].
  - eapply finishes_step; [by eapply ls_recovery_failed|]. apply Hfin; cbn; try done.
    destruct (A w eq_refl) as [_ E]. by rewrite E.
  - destruct (F w) as [E _]; [by left|]. congruence.
  - destruct (F Wd_Active) as [E _]; [by right|]. congruence.
Qed.

Lemma replay_finishes tr v : replay tr = Some v → state v ≠ St_Terminal →
  withheld (failure v) = false → finishes v.
Proof.
  intros Hr Hs Hw. pose proof (replay_caused _ _ Hr) as C. pose proof (replay_raced _ _ Hr) as R.
  assert (Hal : ∀ w, failure v ≠ None → recovery_command_allowance v ≠ Al_AwaitingFailure w).
  { intros w Hf Ha. by destruct (rac_awaiting _ _ R w Ha) as [? _]. }
  assert (Hin : restored (state v) = true → recovery_command_allowance v = Al_Inactive).
  { intros Hres. destruct (recovery_command_allowance v) as [|w|w|] eqn:Ha; [done|..].
    - destruct (rac_awaiting _ _ R w Ha). congruence.
    - destruct (rac_failed _ _ R w) as [_ ?]; [by left|congruence].
    - destruct (rac_failed _ _ R Wd_Active) as [_ ?]; [by right|congruence]. }
  destruct (decide (failure v = None)) as [Hf|Hf].
  - destruct (decide (state v = St_RecoveryDisarmed)) as [E|E].
    { apply finishes_disarmed; [done|apply Hin; by rewrite E|done]. }
    destruct (may_fail (state v) recovery_failure) eqn:Hm; [by eapply finishes_failing|].
    destruct (state v) eqn:Es; try done; try (by destruct (cau_failed _ _ C Es)).
    + eapply finishes_step; [by apply ls_lease|]. eapply finishes_step; [by apply ls_start|].
      eapply (finishes_failing tr); [|done..].
      destruct R as [RA RF RI RO]. by split; cbn; rewrite ?Es in *.
    + eapply finishes_step; [by apply ls_start|].
      eapply (finishes_failing tr); [|done..].
      destruct R as [RA RF RI RO]. by split; cbn; rewrite ?Es in *.
  - assert (He : early (state v) = false)
      by (destruct (early (state v)) eqn:E; [by destruct (cau_early _ _ C E)|done]).
    destruct (state v) eqn:Es; try done.
    + eapply finishes_step; [apply ls_quiesced; by left|]. apply finishes_quiesced; auto.
    + eapply finishes_step; [apply ls_quiesced; by right|]. apply finishes_quiesced; auto.
    + apply finishes_quiesced; auto.
    + eapply finishes_step; [by apply ls_disarmed|]. apply finishes_disarmed; auto.
    + apply finishes_disarmed; auto.
Qed.

(** ** The end *)

Lemma replay_snoc tr l v : replay (tr ++ [l]) = Some v →
  ∃ v0, replay tr = Some v0 ∧ lifecycle_step v0 l v.
Proof.
  unfold replay. rewrite replay_from_app.
  destruct (replay_from before_start tr) as [v0|]; [|done]. cbn.
  destruct (replay_label v0 l) as [v1|] eqn:E; [|done]. cbn. intros [= <-].
  exists v0. split; [done|]. by apply replay_label_step.
Qed.

(** What [validate_terminal] has checked when it accepts. *)
Lemma validate_terminal_inv v app tui worker session exit d :
  validate_terminal v (ChildrenReaped app tui worker Complete session exit) = Ok d →
  d = exit ∧ (app ≠ NotStarted ↔ app_started v = true) ∧ (tui ≠ NotStarted ↔ tui_started v = true) ∧
  match failure v with
  | Some f => withheld (Some f) = false ∧ session = Failed_ ∧ exit = Ge_InternalFailure
  | None => worker = JoinedClean ∧ lease_committed v = true ∧
      (gate_ever_opened v = true ∨ termination_cause v = Some CoordinatorStop) ∧
      ∃ cause, termination_cause v = Some cause ∧
        (session = Failed_ ∧ exit = Ge_InternalFailure ∨
         (session, exit) = project_terminal_semantics app tui worker cause)
  end.
Proof.
  unfold validate_terminal. intros H. inv_ok. inv_bool.
  apply eqb_prop in H0, H1.
  assert (Hup : ∀ (x : ChildDisposition) b,
    negb (bool_decide (x = NotStarted)) = b → (x ≠ NotStarted ↔ b = true))
    by (intros x b <-; destruct x; cbn; naive_solver).
  apply Hup in H0, H1. clear Hup Hok0.
  assert (d = exit) as -> by (repeat case_match; inv_ok; done).
  split_and!; try done; try apply H0; try apply H1.
  destruct (failure v) as [[p c]|].
  - inv_ok. split; [assumption|]. by inv_bool.
  - inv_ok. inv_bool. split_and!; try done.
    + match goal with H : negb (gate_ever_opened v) && _ = false |- _ =>
        apply andb_false_iff in H; destruct H end; inv_bool; [by left|by right].
    + destruct (termination_cause v) as [cause|]; [|done]. inv_ok. simplify_eq.
      eexists. split; [reflexivity|]. case_bool_decide; inv_ok; inv_bool; [by left|right].
      destruct (project_terminal_semantics _ _ _ _). cbn in *. by subst.
Qed.

Lemma declared_spec cause : cause ≠ NaturalTuiEof → declared (Some cause) = [cause].
Proof. by destruct cause. Qed.

Lemma project_usage app tui worker cause session :
  (session, Ge_UsageExhausted) = project_terminal_semantics app tui worker cause →
  cause = UsageExhaustion ∧ session = Completed ∧ worker = JoinedClean.
Proof.
  unfold project_terminal_semantics.
  destruct (bool_decide_reflect (worker = JoinedClean)) as [->|]; cbn [negb orb]; [|done].
  intros H. repeat case_match; simplify_eq; done.
Qed.

(** ** Properties *)

(** What an accepted report of exhaustion proves of the validator. *)
Lemma usage_exit_cause tr app tui worker session v :
  replay (tr ++ [Evt (ChildrenReaped app tui worker Complete session Ge_UsageExhausted)]) = Some v →
  ∃ v0, replay tr = Some v0 ∧ failure v0 = None ∧ worker = JoinedClean ∧ session = Completed ∧
    termination_cause v0 = Some UsageExhaustion.
Proof.
  intros (v0 & Hr & Hstep)%replay_snoc. inversion Hstep as []; subst.
  apply validate_terminal_inv in H0 as (_ & _ & _ & Hexit).
  exists v0. destruct (failure v0) as [f|]; [by destruct Hexit as (_ & _ & ?)|].
  destruct Hexit as (? & ? & _ & cause & Hcause & [[_ ?]|Hp]); [done|].
  by apply project_usage in Hp as (-> & -> & ->).
Qed.

(** C7. The validator is the protocol: on every state it accepts exactly the
    steps of the transition relation, with their effect, and a message it
    rejects leaves it unchanged. *)
Theorem lifecycle_refines v :
  (∀ l v', accepts v l v' ↔ lifecycle_step v l v') ∧
  (∀ e v', arm_recovery_command_race v = (Err e, v') → v' = v) ∧
  (∀ c e v', accept_command c v = (Err e, v') → v' = v) ∧
  (∀ ev e v', accept_event ev v = (Err e, v') → v' = v).
Proof.
  split_and!.
  - intros [|c a|e] v'; (split; [|apply step_accepts]).
    + apply arm_sound.
    + apply command_sound.
    + apply event_sound.
  - intros. by eapply arm_rejected.
  - intros. by eapply command_rejected.
  - intros. by eapply event_rejected.
Qed.

(** The startup barrier: once the input gate has ever been opened, the
    messages of the transcript begin with the whole startup in its one order -
    lease committed, start, terminal armed and accepted, the app server
    started in its own process group and its descriptors verified, then the
    same for the TUI in another group, ready, gate opened and acknowledged. *)
Lemma startup_barrier tr v : replay tr = Some v → gate_ever_opened v = true →
  ∃ snapshot app tui rest, 0 < app ∧ 0 < tui ∧ app ≠ tui ∧
    messages tr = barrier snapshot app tui ++ rest.
Proof.
  intros Hr Hg. destruct (sta_opened _ _ (replay_started _ _ Hr) Hg)
    as (_ & f & p & q & rest & (? & ? & ?) & E).
  by exists f, p, q, rest.
Qed.

(** C8. Input flows only through an open gate: when the validator says that
    the input gate is open, no failure has been reported and the transcript
    ends in a complete handshake - guardian ready (or resumed), gate commanded,
    gate acknowledged - followed only by interrupts, quits, resizes and their
    acknowledgements. *)
Theorem input_gate_authority tr v :
  replay tr = Some v → validator_input_gate_opened v = true →
  failure v = None ∧ gate_ever_opened v = true ∧
  ∃ pre r post,
    messages tr = pre ++ [r; Cmd OpenInputGate Applied; Evt InputGateOpened] ++ post ∧
    ready_label r ∧ Forall (fun l => foreground l = true) post.
Proof.
  intros Hr Ho. assert (Hn : natural_exit_state (state v) = true) by exact Ho.
  pose proof (natural_running _ Hn) as [Hrun He].
  pose proof (replay_handshake _ _ Hr) as Hh. unfold handshake in Hh.
  split_and!.
  - by apply (cau_early _ _ (replay_caused _ _ Hr)).
  - by eapply running_opened.
  - destruct (state v); try discriminate Hn; auto.
Qed.

(** C9. The final disposition is proved by the transcript: when the final
    report is accepted, the validator holds exactly the reported exit, a child
    has a disposition exactly when its start was announced, and either the one
    failure of the session was announced - not one that withholds the authority
    to end - and the report says failed and internal failure, or there was no
    failure, the worker was joined cleanly, the lease was committed, the gate
    had been opened or the session stopped before, and the exit is the
    projection of the dispositions for the one cause the transcript declares,
    or an internal failure. *)
Theorem terminal_exit_proved tr app tui worker session exit v :
  replay (tr ++ [Evt (ChildrenReaped app tui worker Complete session exit)]) = Some v →
  terminal_exit_disposition v = Some exit ∧
  (app ≠ NotStarted ↔ existsb is_app tr = true) ∧
  (tui ≠ NotStarted ↔ existsb is_tui tr = true) ∧
  ((∃ f, omap failure_of tr = [f] ∧ withheld (Some f) = false ∧
      session = Failed_ ∧ exit = Ge_InternalFailure) ∨
   (omap failure_of tr = [] ∧ worker = JoinedClean ∧ existsb is_lease tr = true ∧
    (existsb is_gate_opened tr = true ∨ omap cause_of tr = [CoordinatorStop]) ∧
    ∃ cause, omap cause_of tr = declared (Some cause) ∧
      (session = Failed_ ∧ exit = Ge_InternalFailure ∨
       (session, exit) = project_terminal_semantics app tui worker cause))).
Proof.
  intros (v0 & Hr & Hstep)%replay_snoc. inversion Hstep as []; subst.
  apply validate_terminal_inv in H0 as (-> & Happ & Htui & Hexit).
  destruct (replay_recorded _ _ Hr) as [L A T G F _].
  pose proof (cau_list _ _ (replay_caused _ _ Hr)) as Hc.
  rewrite F, <- L, <- A, <- T, <- G, Hc. split_and!; try done; try apply Happ; try apply Htui.
  destruct (failure v0) as [f|]; [left; by exists f|right].
  destruct Hexit as (? & ? & Hgate & cause & Hcause & Hp). rewrite Hcause in *.
  split_and!; try done; [|by exists cause].
  destruct Hgate as [?|[= ->]]; [by left|by right].
Qed.

(** The exit that triggers failover is earned: a report of exhaustion is
    accepted only when the transcript holds exactly one cause, the guardian's
    exhaustion event, the gate had been opened, nothing failed, the worker was
    joined cleanly and the session is reported as completed. *)
Lemma usage_exhausted_exit tr app tui worker session v :
  replay (tr ++ [Evt (ChildrenReaped app tui worker Complete session Ge_UsageExhausted)]) = Some v →
  omap cause_of tr = [UsageExhaustion] ∧ existsb is_gate_opened tr = true ∧
  omap failure_of tr = [] ∧ worker = JoinedClean ∧ session = Completed.
Proof.
  intros (v0 & Hr & Hf & -> & -> & Hcause)%usage_exit_cause.
  destruct (replay_recorded _ _ Hr) as [_ _ _ G F _].
  pose proof (replay_caused _ _ Hr) as C. rewrite F, <- G, (cau_list _ _ C), Hf, Hcause.
  split_and!; try done. apply (cau_gate _ _ C); by rewrite Hcause.
Qed.

(** The shutdown has one order: quiesced, restored, recovery disarmed,
    children reaped - a transcript has passed exactly the milestones of the
    state it is in; it holds at most one failure and at most one command
    superseded by the recovery race, which was armed and confirmed by its
    failure; and nothing is accepted after the end. *)
Lemma shutdown_order tr v : replay tr = Some v →
  omap milestone_of tr = milestones (state v) ∧
  (length (omap failure_of tr) <= 1)%nat ∧
  (length (omap superseded_of tr) <= 1)%nat ∧
  (omap superseded_of tr ≠ [] →
     Arm ∈ tr ∧ omap failure_of tr = [recovery_failure]) ∧
  (state v = St_Terminal → ∀ l, replay (tr ++ [l]) = None).
Proof.
  intros Hr. destruct (replay_recorded _ _ Hr) as [_ _ _ _ F M].
  pose proof (rac_one _ _ (replay_raced _ _ Hr)) as O. split_and!.
  - done.
  - rewrite F. destruct (failure v); cbn; lia.
  - destruct O as [->|([c ->] & _)]; cbn; lia.
  - destruct O as [->|(_ & ? & Hf & _)]; [done|]. by rewrite F, Hf.
  - intros Hs l. destruct (replay (tr ++ [l])) as [v'|] eqn:E; [|done]. exfalso.
    apply replay_snoc in E as (v0 & Hr' & Hstep). rewrite Hr in Hr'. injection Hr' as <-.
    destruct Hstep; repeat match goal with H : _ ∨ _ |- _ => destruct H end;
      rewrite Hs in *; discriminate.
Qed.

(** C10. No dead ends: every transcript that has not ended, and whose failure
    is not one that withholds the authority to end, can be continued to the
    final report. *)
Theorem lifecycle_can_finish tr v :
  replay tr = Some v → state v ≠ St_Terminal → withheld (failure v) = false →
  ∃ more v', replay (tr ++ more) = Some v' ∧ state v' = St_Terminal.
Proof.
  intros Hr Hs Hw. destruct (replay_finishes _ _ Hr Hs Hw) as (more & v' & Hm & Hs').
  exists more, v'. split; [|done]. unfold replay in *. by rewrite replay_from_app, Hr.
Qed.

(** ** A concrete session *)

Module LifecycleExample.

(** Startup, one resize, exhaustion, and the ordered end. *)
Definition opened : list label := barrier [] 100 200.
Definition exhausted : list label :=
  opened ++ [Cmd (Resize 24 80) Applied; Evt (ResizeApplied 24 80); Evt UsageExhausted;
             Evt TerminalQuiesced; Cmd TerminalRestored Applied; Evt TerminalRecoveryDisarmed].
Definition report : GuardianEvent :=
  ChildrenReaped (Exited 0 Sa_Term) (Exited 0 Sa_Term) JoinedClean Complete Completed
    Ge_UsageExhausted.

Definition state_after (tr : list label) : TerminalLifecycleValidator :=
  default before_start (replay tr).

Lemma opened_runs : replay opened = Some (state_after opened).
Proof. vm_compute. reflexivity. Qed.
Lemma exhausted_runs :
  replay (exhausted ++ [Evt report]) = Some (state_after (exhausted ++ [Evt report])).
Proof. vm_compute. reflexivity. Qed.

Lemma startup_barrier_witness :
  ∃ snapshot app tui rest, 0 < app ∧ 0 < tui ∧ app ≠ tui ∧
    messages opened = barrier snapshot app tui ++ rest.
Proof. exact (startup_barrier opened (state_after opened) opened_runs eq_refl). Defined.

Lemma input_gate_authority_witness : failure (state_after opened) = None.
Proof. exact (proj1 (input_gate_authority opened (state_after opened) opened_runs eq_refl)). Defined.

Lemma terminal_exit_witness :
  terminal_exit_disposition (state_after (exhausted ++ [Evt report])) = Some Ge_UsageExhausted.
Proof. exact (proj1 (terminal_exit_proved exhausted _ _ _ _ _ _ exhausted_runs)). Defined.

Lemma usage_exhausted_witness : omap cause_of exhausted = [UsageExhaustion].
Proof. exact (proj1 (usage_exhausted_exit exhausted _ _ _ _ _ exhausted_runs)). Defined.

Lemma shutdown_order_witness :
  omap milestone_of (exhausted ++ [Evt report]) = [M_Quiesced; M_Restored; M_Disarmed; M_Reaped].
Proof. exact (proj1 (shutdown_order _ _ exhausted_runs)). Defined.

Lemma can_finish_witness :
  ∃ more v', replay (opened ++ more) = Some v' ∧ state v' = St_Terminal.
Proof.
  refine (lifecycle_can_finish opened (state_after opened) opened_runs _ _).
  - vm_compute. discriminate.
  - vm_compute. reflexivity.
Defined.
End LifecycleExample.
