(* ===== verification/Receivers.v ===== *)
(** * The two ends of the lifecycle channel
    (src/providers/codex/supervisor/protocol.rs, [CoordinatorReceiver] and
    [GuardianCommandReceiver])

    Each end owns its wire, the transcript validator and the bits from which
    the one-shot proofs are minted. A method on [&mut self] is a computation of
    [stM] over the receiver; the reads and writes are those of the wire model. *)
From S2P Require Import Prelude Interfaces Wire Lifecycle.

Open Scope Z_scope.

(** [std::mem::take] of a flag is reading it and clearing it. *)

(** ** The coordinator's end *)

Inductive CoordinatorState :=
| Cs_AwaitLease | Cs_AwaitApp | Cs_AwaitTui | Cs_AwaitReady | Cs_Ready | Cs_Failed | Cs_Terminal.
#[export] Instance CoordinatorState_eq_dec : EqDecision CoordinatorState.
Proof. solve_decision. Defined.

Record CoordinatorReceiver := mkCoordinator {
  cr_reader : Channel;
  cr_terminal : option TerminalLifecycleValidator;
  cr_state : CoordinatorState;
  cr_lease_committed : bool;
  cr_app_started : bool;
  cr_tui_started : bool;
  cr_failure : option (Phase * FailureCode);
  cr_poisoned : bool;
  cr_eof_verified : bool;
  cr_ready_pending : bool;
  cr_open_gate_ack_pending : bool;
}.

(** Field assignments. *)
Definition cr_set_reader ch r :=
  mkCoordinator ch (cr_terminal r) (cr_state r) (cr_lease_committed r) (cr_app_started r)
    (cr_tui_started r) (cr_failure r) (cr_poisoned r) (cr_eof_verified r) (cr_ready_pending r)
    (cr_open_gate_ack_pending r).
Definition cr_set_terminal t r :=
  mkCoordinator (cr_reader r) t (cr_state r) (cr_lease_committed r) (cr_app_started r)
    (cr_tui_started r) (cr_failure r) (cr_poisoned r) (cr_eof_verified r) (cr_ready_pending r)
    (cr_open_gate_ack_pending r).
Definition cr_poison r :=
  mkCoordinator (cr_reader r) (cr_terminal r) (cr_state r) (cr_lease_committed r)
    (cr_app_started r) (cr_tui_started r) (cr_failure r) true (cr_eof_verified r)
    (cr_ready_pending r) (cr_open_gate_ack_pending r).
Definition cr_set_eof_verified r :=
  mkCoordinator (cr_reader r) (cr_terminal r) (cr_state r) (cr_lease_committed r)
    (cr_app_started r) (cr_tui_started r) (cr_failure r) (cr_poisoned r) true
    (cr_ready_pending r) (cr_open_gate_ack_pending r).
Definition cr_set_ready_pending b r :=
  mkCoordinator (cr_reader r) (cr_terminal r) (cr_state r) (cr_lease_committed r)
    (cr_app_started r) (cr_tui_started r) (cr_failure r) (cr_poisoned r) (cr_eof_verified r)
    b (cr_open_gate_ack_pending r).
Definition cr_set_ack_pending b r :=
  mkCoordinator (cr_reader r) (cr_terminal r) (cr_state r) (cr_lease_committed r)
    (cr_app_started r) (cr_tui_started r) (cr_failure r) (cr_poisoned r) (cr_eof_verified r)
    (cr_ready_pending r) b.
(** The fields that the sequence without a terminal assigns. *)
Definition cr_advance s lease app tui failure r :=
  mkCoordinator (cr_reader r) (cr_terminal r) s lease app tui failure (cr_poisoned r)
    (cr_eof_verified r) (cr_ready_pending r) (cr_open_gate_ack_pending r).

Abbreviation CR := (stM CoordinatorReceiver ProtocolError).

(** A method of a field of [self]. *)
Definition on_coordinator_wire {A} (m : stM Channel ProtocolError A) : CR A := fun r =>
  let '(a, ch) := m (cr_reader r) in (a, cr_set_reader ch r).

(** [match m { Ok(a) => a, Err(error) => { self.poisoned = true; return Err(error) } }]. *)
Definition cr_poisoning {A} (m : CR A) : CR A := fun r =>
  match m r with
  | (Ok a, r) => (Ok a, r)
  | (Err e, r) => (Err e, cr_poison r)
  end.

Definition coordinator_new (reader : Channel) : CoordinatorReceiver :=
  mkCoordinator reader None Cs_AwaitLease false false false None false false false false.
Definition coordinator_new_terminal (reader : Channel) : CoordinatorReceiver :=
  mkCoordinator reader (Some before_start) Cs_AwaitLease false false false None false false
    false false.

Definition coordinator_terminal_received (r : CoordinatorReceiver) : bool :=
  negb (cr_poisoned r)
  && match cr_terminal r with
     | Some terminal => validator_terminal_received terminal
     | None => bool_decide (cr_state r = Cs_Terminal)
     end.

Definition coordinator_input_gate_opened (r : CoordinatorReceiver) : bool :=
  negb (cr_poisoned r)
  && match cr_terminal r with
     | Some terminal => validator_input_gate_opened terminal
     | None => false
     end.

(** The final report of a session without a terminal. *)
Definition coordinator_validate_terminal (r : CoordinatorReceiver) (event : GuardianEvent)
    : result ProtocolError () :=
  match event with
  | ChildrenReaped app tui worker Complete session guardian_exit =>
      let app_up := negb (bool_decide (app = NotStarted)) in
      let tui_up := negb (bool_decide (tui = NotStarted)) in
      _ ← reject_if (negb (Bool.eqb app_up (cr_app_started r))
                     || negb (Bool.eqb tui_up (cr_tui_started r))) InvalidValue;
      _ ← reject_if (bool_decide (worker = Wj_NotStarted)
                     && (tui_up || (app_up && bool_decide (cr_failure r = None)))) InvalidValue;
      match cr_failure r with
      | None =>
          reject_if (negb (bool_decide (cr_state r = Cs_Ready))
                     || negb (bool_decide (session = Completed))
                     || negb (bool_decide (worker = JoinedClean))
                     || negb (cr_lease_committed r) || negb (cr_app_started r)
                     || negb (cr_tui_started r)
                     || negb (bool_decide (guardian_exit = Ge_Code 0))) InvalidValue
      | Some (phase, code) =>
          _ ← reject_if (bool_decide (phase = Ph_Cleanup)
                         || bool_decide (code = Fc_CleanupMismatch)) UnexpectedState;
          reject_if (negb (bool_decide (session = Failed_))
                     || negb (bool_decide (guardian_exit = Ge_InternalFailure))) InvalidValue
      end
  | _ => Err UnexpectedState
  end.

(** The event order of a session without a terminal. *)
Definition coordinator_accept (event : GuardianEvent) : CR () :=
  r ← get_st;
  match cr_state r, event with
  | Cs_AwaitLease, LeaseCommitted =>
      modify_st (cr_advance Cs_AwaitApp true (cr_app_started r) (cr_tui_started r) (cr_failure r))
  | Cs_AwaitApp, ChildStarted AppServer pid pgid =>
      _ ← lift_result (validate_process_group pid pgid);
      modify_st (cr_advance Cs_AwaitTui (cr_lease_committed r) true (cr_tui_started r)
                   (cr_failure r))
  | Cs_AwaitTui, ChildStarted Tui pid pgid =>
      _ ← lift_result (validate_process_group pid pgid);
      modify_st (cr_advance Cs_AwaitReady (cr_lease_committed r) (cr_app_started r) true
                   (cr_failure r))
  | Cs_AwaitReady, Ready =>
      modify_st (cr_advance Cs_Ready (cr_lease_committed r) (cr_app_started r)
                   (cr_tui_started r) (cr_failure r))
  | (Cs_AwaitLease | Cs_AwaitApp | Cs_AwaitTui | Cs_AwaitReady | Cs_Ready), Failed phase code =>
      modify_st (cr_advance Cs_Failed (cr_lease_committed r) (cr_app_started r)
                   (cr_tui_started r) (Some (phase, code)))
  | (Cs_Ready | Cs_Failed), ChildrenReaped _ _ _ _ _ _ =>
      _ ← lift_result (coordinator_validate_terminal r event);
      modify_st (cr_advance Cs_Terminal (cr_lease_committed r) (cr_app_started r)
                   (cr_tui_started r) (cr_failure r))
  | _, _ => throw UnexpectedState
  end.

(** [terminal.accept_event(event)] or [self.accept(event)]. *)
Definition coordinator_accept_any (event : GuardianEvent) : CR () := fun r =>
  match cr_terminal r with
  | Some terminal =>
      let '(a, terminal) := accept_event event terminal in
      (a, cr_set_terminal (Some terminal) r)
  | None => coordinator_accept event r
  end.

Section coordinator.
(** The clock at its n-th reading, and the deadline of the call. *)
Context (clock : nat → Z).

Definition coordinator_receive (deadline : Z) : CR GuardianEvent :=
  r ← get_st;
  if cr_poisoned r || coordinator_terminal_received r then throw UnexpectedState
  else
    _ ← modify_st (cr_set_ready_pending false);
    _ ← modify_st (cr_set_ack_pending false);
    event ← cr_poisoning (on_coordinator_wire (receive_guardian_event clock deadline));
    _ ← cr_poisoning (coordinator_accept_any event);
    r ← get_st;
    _ ← (if bool_decide (cr_terminal r = None) then mret ()
         else match event with
         | Ready | Resumed _ _ => modify_st (cr_set_ready_pending true)
         | InputGateOpened => modify_st (cr_set_ack_pending true)
         | _ => mret ()
         end);
    mret event.

Definition take_verified_ready : CR () :=
  r ← get_st;
  if cr_poisoned r then throw UnexpectedState
  else
    _ ← modify_st (cr_set_ready_pending false);
    if cr_ready_pending r then mret () else throw UnexpectedState.

Definition take_verified_open_gate_ack : CR () :=
  r ← get_st;
  if cr_poisoned r then throw UnexpectedState
  else
    _ ← modify_st (cr_set_ack_pending false);
    if cr_open_gate_ack_pending r then mret () else throw UnexpectedState.

Definition coordinator_take_exit : CR GuardianExitDisposition := fun r =>
  if cr_poisoned r then (Err UnexpectedState, r)
  else match cr_terminal r with
  | None => (Err UnexpectedState, r)
  | Some terminal =>
      let '(taken, terminal) := take_terminal_exit_disposition terminal in
      (match taken with
       | Ok (Some disposition) => Ok disposition
       | _ => Err UnexpectedState
       end, cr_set_terminal (Some terminal) r)
  end.

Definition record_command (command : CoordinatorCommand) : CR () := fun r =>
  if cr_poisoned r || coordinator_terminal_received r then (Err UnexpectedState, r)
  else
    let r := cr_set_ack_pending false (cr_set_ready_pending false r) in
    match cr_terminal r with
    | None => (Err UnexpectedState, cr_poison r)
    | Some terminal =>
        match accept_command command terminal with
        | (Ok _, terminal) => (Ok (), cr_set_terminal (Some terminal) r)
        | (Err e, terminal) => (Err e, cr_poison (cr_set_terminal (Some terminal) r))
        end
    end.

Definition coordinator_record_and_send (command : CoordinatorCommand) (deadline : Z) : CR () :=
  _ ← record_command command;
  on_coordinator_wire (send_coordinator_command clock deadline command).

(** The loop of [verify_terminal_eof] with its one-byte buffer. *)
Fixpoint eof_loop (deadline : Z) (script : list ReadEvent) : CR () :=
  _ ← on_coordinator_wire (modify_st (set_rx script));
  _ ← on_coordinator_wire (check_deadline clock deadline);
  match script with
  | [] =>
      _ ← cr_poisoning (on_coordinator_wire (check_deadline clock deadline));
      modify_st cr_set_eof_verified
  | RData [] :: rest =>
      _ ← on_coordinator_wire (modify_st (set_rx rest));
      _ ← cr_poisoning (on_coordinator_wire (check_deadline clock deadline));
      modify_st cr_set_eof_verified
  | RData (_ :: chunk) :: rest =>
      _ ← on_coordinator_wire
            (modify_st (set_rx (match chunk with [] => rest | _ => RData chunk :: rest end)));
      _ ← cr_poisoning (on_coordinator_wire (check_deadline clock deadline));
      cr_poisoning (throw TrailingData)
  | ROverrun :: rest =>
      _ ← on_coordinator_wire (modify_st (set_rx rest));
      _ ← cr_poisoning (on_coordinator_wire (check_deadline clock deadline));
      cr_poisoning (throw TrailingData)
  | RInterrupted :: rest => eof_loop deadline rest
  | RWouldBlock :: rest =>
      _ ← on_coordinator_wire (modify_st (set_rx rest));
      _ ← on_coordinator_wire (wait_for_deadline_retry clock deadline);
      eof_loop deadline rest
  | RFailed :: rest =>
      _ ← on_coordinator_wire (modify_st (set_rx rest));
      cr_poisoning (throw Io)
  end.

Definition verify_terminal_eof (deadline : Z) : CR () :=
  r ← get_st;
  if cr_poisoned r || negb (coordinator_terminal_received r) then throw UnexpectedState
  else if cr_eof_verified r then mret ()
  else eof_loop deadline (rx (cr_reader r)).
End coordinator.

(** ** The guardian's end *)

Inductive OpenGateCommandCycle := Initial | Resume_.
Inductive GuardianCommandState := Gs_AwaitStart | Gs_Started | Gs_Stopped.
#[export] Instance OpenGateCommandCycle_eq_dec : EqDecision OpenGateCommandCycle.
Proof. solve_decision. Defined.
#[export] Instance GuardianCommandState_eq_dec : EqDecision GuardianCommandState.
Proof. solve_decision. Defined.

(** The pending bits of the proofs, which are always assigned together. *)
Record Pending := mkPending {
  open_gate_pending : option OpenGateCommandCycle;
  suspend_pending : bool;
  resume_pending : option (Z * Z);
  resize_pending : option (Z * Z);
  terminal_restored_pending : bool;
}.
Definition nothing_pending : Pending := mkPending None false None None false.

Record GuardianCommandReceiver := mkGuardian {
  gr_reader : Channel;
  gr_terminal : option TerminalLifecycleValidator;
  gr_state : GuardianCommandState;
  gr_poisoned : bool;
  gr_pending : Pending;
}.

Definition gr_set_reader ch g :=
  mkGuardian ch (gr_terminal g) (gr_state g) (gr_poisoned g) (gr_pending g).
Definition gr_set_terminal t g :=
  mkGuardian (gr_reader g) t (gr_state g) (gr_poisoned g) (gr_pending g).
Definition gr_set_state s g :=
  mkGuardian (gr_reader g) (gr_terminal g) s (gr_poisoned g) (gr_pending g).
Definition gr_poison g :=
  mkGuardian (gr_reader g) (gr_terminal g) (gr_state g) true (gr_pending g).
Definition gr_set_pending p g :=
  mkGuardian (gr_reader g) (gr_terminal g) (gr_state g) (gr_poisoned g) p.

Abbreviation GR := (stM GuardianCommandReceiver ProtocolError).

Definition on_guardian_wire {A} (m : stM Channel ProtocolError A) : GR A := fun g =>
  let '(a, ch) := m (gr_reader g) in (a, gr_set_reader ch g).
Definition gr_poisoning {A} (m : GR A) : GR A := fun g =>
  match m g with
  | (Ok a, g) => (Ok a, g)
  | (Err e, g) => (Err e, gr_poison g)
  end.

Definition guardian_new (reader : Channel) : GuardianCommandReceiver :=
  mkGuardian reader None Gs_AwaitStart false nothing_pending.
Definition guardian_new_terminal (reader : Channel) : GuardianCommandReceiver :=
  mkGuardian reader (Some before_start) Gs_AwaitStart false nothing_pending.

Definition guardian_terminal_received (g : GuardianCommandReceiver) : bool :=
  negb (gr_poisoned g)
  && match gr_terminal g with
     | Some terminal => validator_terminal_received terminal
     | None => bool_decide (gr_state g = Gs_Stopped)
     end.

Definition guardian_input_gate_opened (g : GuardianCommandReceiver) : bool :=
  negb (gr_poisoned g)
  && match gr_terminal g with
     | Some terminal => validator_input_gate_opened terminal
     | None => false
     end.

(** The proofs an accepted command makes available. *)
Definition pending_for_command (terminal : TerminalLifecycleValidator)
    (command : CoordinatorCommand) : Pending :=
  mkPending
    (if bool_decide (command = OpenInputGate)
     then Some (if gate_ever_opened terminal then Resume_ else Initial) else None)
    (bool_decide (command = Suspend))
    (match command with Resume rows cols => Some (rows, cols) | _ => None end)
    (match command with Resize rows cols => Some (rows, cols) | _ => None end)
    (bool_decide (command = TerminalRestored)).

(** The guardian's view of the command, after it was read. *)
Definition guardian_accept (command : CoordinatorCommand) : GR () := fun g =>
  match gr_terminal g with
  | Some terminal =>
      match accept_command command terminal with
      | (Err e, terminal') => (Err e, gr_poison (gr_set_terminal (Some terminal') g))
      | (Ok acceptance, terminal') =>
          let g := gr_set_terminal (Some terminal') g in
          (Ok (), if bool_decide (acceptance = Applied)
                  then gr_set_pending (pending_for_command terminal command) g else g)
      end
  | None =>
      match gr_state g, command with
      | Gs_AwaitStart, Start => (Ok (), gr_set_state Gs_Started g)
      | Gs_Started, Stop => (Ok (), gr_set_state Gs_Stopped g)
      | _, _ => (Err UnexpectedState, gr_poison g)
      end
  end.

Section guardian.
Context (clock : nat → Z).

Definition guardian_receive (deadline : Z) : GR CoordinatorCommand :=
  g ← get_st;
  if gr_poisoned g || bool_decide (gr_state g = Gs_Stopped) || guardian_terminal_received g
  then throw UnexpectedState
  else
    _ ← modify_st (gr_set_pending nothing_pending);
    command ← gr_poisoning (on_guardian_wire (receive_coordinator_command clock deadline));
    _ ← guardian_accept command;
    mret command.

Definition record_event (event : GuardianEvent) : GR () := fun g =>
  if gr_poisoned g then (Err UnexpectedState, g)
  else
    let g := gr_set_pending nothing_pending g in
    match gr_terminal g with
    | None => (Err UnexpectedState, gr_poison g)
    | Some terminal =>
        match accept_event event terminal with
        | (Ok _, terminal) => (Ok (), gr_set_terminal (Some terminal) g)
        | (Err e, terminal) => (Err e, gr_poison (gr_set_terminal (Some terminal) g))
        end
    end.

Definition guardian_arm_recovery : GR () := fun g =>
  if gr_poisoned g || bool_decide (gr_state g = Gs_Stopped) || guardian_terminal_received g
  then (Err UnexpectedState, g)
  else
    let g := gr_set_pending nothing_pending g in
    match gr_terminal g with
    | None => (Err UnexpectedState, g)
    | Some terminal =>
        let '(a, terminal) := arm_recovery_command_race terminal in
        (a, gr_set_terminal (Some terminal) g)
    end.

Definition take_verified_open_gate_command (cycle : OpenGateCommandCycle) : GR () :=
  g ← get_st;
  let p := gr_pending g in
  if gr_poisoned g || negb (bool_decide (open_gate_pending p = Some cycle))
  then throw UnexpectedState
  else modify_st (gr_set_pending (mkPending None (suspend_pending p) (resume_pending p)
         (resize_pending p) (terminal_restored_pending p))).

Definition take_verified_suspend_command : GR () :=
  g ← get_st;
  let p := gr_pending g in
  if gr_poisoned g then throw UnexpectedState
  else
    _ ← modify_st (gr_set_pending (mkPending (open_gate_pending p) false (resume_pending p)
          (resize_pending p) (terminal_restored_pending p)));
    if suspend_pending p then mret () else throw UnexpectedState.

Definition take_verified_resume_command : GR (Z * Z) :=
  g ← get_st;
  let p := gr_pending g in
  _ ← modify_st (gr_set_pending (mkPending (open_gate_pending p) (suspend_pending p) None
        (resize_pending p) (terminal_restored_pending p)));
  match resume_pending p with
  | None => throw UnexpectedState
  | Some size => if gr_poisoned g then throw UnexpectedState else mret size
  end.

Definition take_verified_resize_command : GR (Z * Z) :=
  g ← get_st;
  let p := gr_pending g in
  _ ← modify_st (gr_set_pending (mkPending (open_gate_pending p) (suspend_pending p)
        (resume_pending p) None (terminal_restored_pending p)));
  match resize_pending p with
  | None => throw UnexpectedState
  | Some size => if gr_poisoned g then throw UnexpectedState else mret size
  end.

Definition take_verified_terminal_restored_command : GR () :=
  g ← get_st;
  let p := gr_pending g in
  if gr_poisoned g then throw UnexpectedState
  else
    _ ← modify_st (gr_set_pending (mkPending (open_gate_pending p) (suspend_pending p)
          (resume_pending p) (resize_pending p) false));
    if terminal_restored_pending p then mret () else throw UnexpectedState.

Definition guardian_take_exit : GR GuardianExitDisposition := fun g =>
  if gr_poisoned g then (Err UnexpectedState, g)
  else match gr_terminal g with
  | None => (Err UnexpectedState, g)
  | Some terminal =>
      let '(taken, terminal) := take_terminal_exit_disposition terminal in
      (match taken with
       | Ok (Some disposition) => Ok disposition
       | _ => Err UnexpectedState
       end, gr_set_terminal (Some terminal) g)
  end.

Definition guardian_record_and_send (event : GuardianEvent) (deadline : Z) : GR () :=
  _ ← record_event event;
  gr_poisoning (on_guardian_wire (send_guardian_event clock deadline event)).
End guardian.

(** The two cycles of the open-gate proof. *)
Definition take_verified_initial_open_gate_command : GR () := take_verified_open_gate_command Initial.
Definition take_verified_resume_open_gate_command : GR () := take_verified_open_gate_command Resume_.

(** ** Histories: any sequence of method calls on a fresh receiver *)

Inductive coordinator_op :=
| CoReceive (deadline : Z) | CoRecord (c : CoordinatorCommand)
| CoSend (c : CoordinatorCommand) (deadline : Z)
| CoTakeReady | CoTakeAck | CoTakeExit | CoVerifyEof (deadline : Z).
Inductive guardian_op :=
| GuReceive (deadline : Z) | GuRecord (e : GuardianEvent) | GuSend (e : GuardianEvent) (deadline : Z)
| GuArm | GuTakeInitialGate | GuTakeResumeGate | GuTakeSuspend | GuTakeResume | GuTakeResize
| GuTakeRestored | GuTakeExit.

(** The one-shot proofs. *)
Inductive proof_token :=
| Pf_Ready | Pf_OpenGateAck
| Pf_InitialGate | Pf_ResumeGate | Pf_Suspend | Pf_Resume (rows cols : Z)
| Pf_Resize (rows cols : Z) | Pf_Restored
| Pf_Exit (d : GuardianExitDisposition).

Section histories.
Context (clock : nat → Z).

(** A call, with the proof it hands out if it does. *)
Definition coordinator_call (op : coordinator_op) : CR (option proof_token) :=
  match op with
  | CoReceive deadline => _ ← coordinator_receive clock deadline; mret None
  | CoRecord c => _ ← record_command c; mret None
  | CoSend c deadline => _ ← coordinator_record_and_send clock c deadline; mret None
  | CoTakeReady => _ ← take_verified_ready; mret (Some Pf_Ready)
  | CoTakeAck => _ ← take_verified_open_gate_ack; mret (Some Pf_OpenGateAck)
  | CoTakeExit => d ← coordinator_take_exit; mret (Some (Pf_Exit d))
  | CoVerifyEof deadline => _ ← verify_terminal_eof clock deadline; mret None
  end.

Definition guardian_call (op : guardian_op) : GR (option proof_token) :=
  match op with
  | GuReceive deadline => _ ← guardian_receive clock deadline; mret None
  | GuRecord e => _ ← record_event e; mret None
  | GuSend e deadline => _ ← guardian_record_and_send clock e deadline; mret None
  | GuArm => _ ← guardian_arm_recovery; mret None
  | GuTakeInitialGate => _ ← take_verified_initial_open_gate_command; mret (Some Pf_InitialGate)
  | GuTakeResumeGate => _ ← take_verified_resume_open_gate_command; mret (Some Pf_ResumeGate)
  | GuTakeSuspend => _ ← take_verified_suspend_command; mret (Some Pf_Suspend)
  | GuTakeResume =>
      size ← take_verified_resume_command; mret (Some (Pf_Resume (fst size) (snd size)))
  | GuTakeResize =>
      size ← take_verified_resize_command; mret (Some (Pf_Resize (fst size) (snd size)))
  | GuTakeRestored => _ ← take_verified_terminal_restored_command; mret (Some Pf_Restored)
  | GuTakeExit => d ← guardian_take_exit; mret (Some (Pf_Exit d))
  end.
End histories.
