(* ===== verification/ReceiverProofs.v ===== *)
(** * Theorems about the two ends of the lifecycle channel

    Both ends are run through arbitrary sequences of method calls. Along a
    history the messages a receiver's validator accepted are logged; the
    theorems relate the receiver and the proofs it handed out to that log. *)
From S2P Require Import Prelude Interfaces Wire Lifecycle LifecycleProofs Receivers.

Open Scope Z_scope.

(** ** The validator inside a receiver *)

(** It holds what replaying the log gives, except that the exit disposition of
    a finished session may have been taken. *)
Definition validates (log : list label) (t : TerminalLifecycleValidator) : Prop :=
  ∃ v, replay log = Some v ∧ (t = v ∨ state v = St_Terminal ∧ t = set_exit_disposition None v).

Lemma terminal_no_step v l v' : state v = St_Terminal → ¬ lifecycle_step v l v'.
Proof.
  intros Hs H. destruct H; repeat match goal with H : _ ∨ _ |- _ => destruct H end;
    rewrite Hs in *; discriminate.
Qed.

Lemma replay_extend log v l v' : replay log = Some v → lifecycle_step v l v' →
  replay (log ++ [l]) = Some v'.
Proof.
  intros Hr Hl. unfold replay in *. rewrite replay_from_app, Hr. cbn.
  by rewrite (proj2 (replay_label_step _ _ _) Hl).
Qed.

Lemma validates_step log t l t' : validates log t → lifecycle_step t l t' →
  validates (log ++ [l]) t'.
Proof.
  intros (v & Hr & Ht) Hl. exists t'. split; [|by left].
  destruct Ht as [->|[Hs ->]]; [by eapply replay_extend|].
  by destruct (terminal_no_step (set_exit_disposition None v) l t' Hs).
Qed.

Lemma replay_exit log v : replay log = Some v → terminal_exit_disposition v ≠ None →
  state v = St_Terminal.
Proof.
  revert log v. apply (replay_ind (fun _ v => terminal_exit_disposition v ≠ None → _)); [done|].
  intros log v l v' _ IH H. destruct H; unfold record_natural_exit;
    try case_bool_decide; cbn; try done; intros He; specialize (IH He);
    repeat match goal with H : _ ∨ _ |- _ => destruct H end; rewrite IH in *; discriminate.
Qed.

Lemma validates_exit log t d : validates log t → terminal_exit_disposition t = Some d →
  ∃ v, replay log = Some v ∧ state v = St_Terminal ∧ terminal_exit_disposition v = Some d.
Proof.
  intros (v & Hr & [->|[_ ->]]) Hd; [|done].
  exists v. split_and!; try done. eapply replay_exit; [done|by rewrite Hd].
Qed.

Lemma validates_taken log t d : validates log t → terminal_exit_disposition t = Some d →
  validates log (set_exit_disposition None t).
Proof.
  intros Ht Hd. destruct (validates_exit _ _ _ Ht Hd) as (v & Hr & Hs & _).
  destruct Ht as (v' & Hr' & Ht). rewrite Hr in Hr'. injection Hr' as <-.
  exists v. split; [done|]. right. split; [done|]. by destruct Ht as [->|[_ ->]].
Qed.

Lemma validates_gate log t : validates log t → gate_ever_opened t = existsb is_gate_opened log.
Proof.
  intros (v & Hr & Ht). destruct (replay_recorded _ _ Hr) as [_ _ _ G _ _].
  by destruct Ht as [->|[_ ->]].
Qed.

(** ** What the log offers *)

(** The one-shot proof that a message makes available, on an end that had
    seen the gate open before or not. *)
Definition coordinator_offer (l : label) : option proof_token :=
  match l with
  | Evt Ready | Evt (Resumed _ _) => Some Pf_Ready
  | Evt InputGateOpened => Some Pf_OpenGateAck
  | _ => None
  end.
Definition guardian_offer (opened : bool) (l : label) : option proof_token :=
  match l with
  | Cmd OpenInputGate Applied => Some (if opened then Pf_ResumeGate else Pf_InitialGate)
  | Cmd Suspend Applied => Some Pf_Suspend
  | Cmd (Resume rows cols) Applied => Some (Pf_Resume rows cols)
  | Cmd (Resize rows cols) Applied => Some (Pf_Resize rows cols)
  | Cmd TerminalRestored Applied => Some Pf_Restored
  | _ => None
  end.
Fixpoint guardian_offers (opened : bool) (log : list label) : list proof_token :=
  match log with
  | [] => []
  | l :: log => option_list (guardian_offer opened l)
                ++ guardian_offers (opened || is_gate_opened l) log
  end.

Lemma guardian_offers_snoc opened log l :
  guardian_offers opened (log ++ [l]) =
  guardian_offers opened log ++ option_list (guardian_offer (opened || existsb is_gate_opened log) l).
Proof.
  revert opened. induction log as [|x log IH]; intros opened; cbn.
  - by rewrite app_nil_r, orb_false_r.
  - rewrite IH, <- app_assoc. by rewrite orb_assoc.
Qed.

(** The exits among the proofs, and the others. *)
Definition is_exit (p : proof_token) : bool := match p with Pf_Exit _ => true | _ => false end.
Definition exits (l : list proof_token) : list proof_token := List.filter is_exit l.
Definition gates (l : list proof_token) : list proof_token := List.filter (negb ∘ is_exit) l.

Lemma exits_snoc l p : exits (l ++ [p]) = exits l ++ if is_exit p then [p] else [].
Proof. unfold exits. by rewrite List.filter_app. Qed.
Lemma gates_snoc l p : gates (l ++ [p]) = gates l ++ if is_exit p then [] else [p].
Proof. unfold gates. rewrite List.filter_app. cbn. by destruct (is_exit p). Qed.

(** ** One method call, seen from the log *)

Definition token_of (a : result ProtocolError (option proof_token)) : list proof_token :=
  match a with Ok (Some x) => [x] | _ => [] end.

(** A call leaves the validator alone, or makes it accept one message, or
    hands out the pending proof, or hands out the exit disposition. *)
Inductive effect (offer : label → option proof_token) :
    TerminalLifecycleValidator → list proof_token → list label →
    result ProtocolError (option proof_token) →
    TerminalLifecycleValidator → list proof_token → Prop :=
| ef_quiet t p p' a : p' = p ∨ p' = [] → token_of a = [] → effect offer t p [] a t p'
| ef_step t l t' p p' a : lifecycle_step t l t' → p' = [] ∨ p' = option_list (offer l) →
    token_of a = [] → effect offer t p [l] a t' p'
| ef_take t x : is_exit x = false → effect offer t [x] [] (Ok (Some x)) t []
| ef_exit t p d : terminal_exit_disposition t = Some d →
    effect offer t p [] (Ok (Some (Pf_Exit d))) (set_exit_disposition None t) p.

Section history.
Context (offer : list label → label → option proof_token) (offers : list label → list proof_token).
Hypothesis offers_snoc : ∀ log l, offers (log ++ [l]) = offers log ++ option_list (offer log l).

Record tracks (log : list label) (minted : list proof_token) (t : TerminalLifecycleValidator)
    (p : list proof_token) : Prop := {
  tr_validates : validates log t;
  tr_linear : sublist (gates minted ++ p) (offers log);
  tr_fresh : p = [] ∨ ∃ log' l, log = log' ++ [l] ∧ p = option_list (offer log' l);
  tr_exit : exits minted = [] ∨
    ∃ d v, exits minted = [Pf_Exit d] ∧ state t = St_Terminal ∧ terminal_exit_disposition t = None ∧
      replay log = Some v ∧ state v = St_Terminal ∧ terminal_exit_disposition v = Some d;
}.

Lemma tracks_fewer log minted t p : tracks log minted t p → tracks log minted t [].
Proof.
  intros [V L F E]. split; [done| |by left|done].
  rewrite app_nil_r. etrans; [|exact L]. by apply sublist_inserts_r.
Qed.

Lemma tracks_effect log minted t p logged a t' p' :
  tracks log minted t p → effect (offer log) t p logged a t' p' →
  tracks (log ++ logged) (minted ++ token_of a) t' p'.
Proof using offers_snoc.
  intros T H. destruct H as [t p p' a Hp Ha|t l t' p p' a Hl Hp Ha|t x Hx|t p d Hd].
  - rewrite Ha, !app_nil_r. destruct Hp as [-> | ->]; [done|by eapply tracks_fewer].
  - rewrite Ha, app_nil_r. apply tracks_fewer in T as [V L F E]. rewrite app_nil_r in L. split.
    + by eapply validates_step.
    + rewrite offers_snoc. apply sublist_app; [done|].
      destruct Hp as [-> | ->]; [apply sublist_nil_l|done].
    + destruct Hp as [-> | ->]; [by left|right; eauto].
    + destruct E as [E|(d & _ & _ & Hs & _)]; [by left|]. by destruct (terminal_no_step _ _ _ Hs Hl).
  - destruct T as [V L F E]. cbn [token_of]. rewrite app_nil_r. split; [done| |by left|].
    + rewrite gates_snoc, Hx, app_nil_r. done.
    + by rewrite exits_snoc, Hx, app_nil_r.
  - destruct T as [V L F E]. cbn [token_of]. rewrite app_nil_r. split.
    + by eapply validates_taken.
    + rewrite gates_snoc. cbn. by rewrite app_nil_r.
    + done.
    + right. destruct (validates_exit _ _ _ V Hd) as (v & Hr & Hs & Hv).
      exists d, v. rewrite exits_snoc. cbn.
      destruct E as [->|(d' & v' & _ & _ & He & _)]; [|congruence].
      split_and!; try done. destruct V as (v' & Hr' & [-> | [_ ->]]); [congruence|done].
Qed.

(** A proof that is handed out now was offered by the last message. *)
Lemma tracks_take log minted t p logged t' p' x :
  tracks log minted t p → effect (offer log) t p logged (Ok (Some x)) t' p' → is_exit x = false →
  ∃ log' l, log = log' ++ [l] ∧ offer log' l = Some x.
Proof.
  intros [_ _ F _] H Hx. inversion H; subst; try done.
  destruct F as [?|(log' & l & -> & E)]; [done|]. exists log', l. split; [done|].
  destruct (offer log' l); simplify_eq/=; done.
Qed.

(** The exits are those of the session the log proves. *)
Lemma tracks_exits log minted t p v : tracks log minted t p → replay log = Some v →
  (length (exits minted) <= 1)%nat ∧
  (∀ d, Pf_Exit d ∈ minted → state v = St_Terminal ∧ terminal_exit_disposition v = Some d).
Proof.
  intros [_ _ _ E] Hr. assert (∀ d, Pf_Exit d ∈ minted → Pf_Exit d ∈ exits minted) as Hex.
  { intros d Hd. unfold exits. rewrite list_elem_of_In, filter_In. split; [by apply list_elem_of_In|done]. }
  destruct E as [E|(d & v' & E & _ & _ & Hr' & Hs & Hv)]; rewrite E in *; split; cbn; try lia.
  - intros d Hd%Hex. by apply not_elem_of_nil in Hd.
  - intros d' Hd%Hex. apply list_elem_of_singleton in Hd as [= ->]. by simplify_eq.
Qed.
End history.

Lemma validates_replay log t : validates log t → ∃ v, replay log = Some v ∧ state t = state v.
Proof. intros (v & Hr & [-> | [_ ->]]); by exists v. Qed.

Lemma gate_opened_state t v : state t = state v →
  validator_input_gate_opened t = validator_input_gate_opened v.
Proof. unfold validator_input_gate_opened. by intros ->. Qed.

(** ** The coordinator *)

Section coordinator.
Context (clock : nat → Z).

Definition coordinator_pending (r : CoordinatorReceiver) : list proof_token :=
  (if cr_ready_pending r then [Pf_Ready] else [])
  ++ (if cr_open_gate_ack_pending r then [Pf_OpenGateAck] else []).

(** The message a call made the validator accept. *)
Definition coordinator_logged (op : coordinator_op) (r : CoordinatorReceiver) : list label :=
  match op, cr_terminal r with
  | CoReceive deadline, Some _ =>
      match coordinator_receive clock deadline r with (Ok e, _) => [Evt e] | _ => [] end
  | (CoRecord c | CoSend c _), Some t =>
      match record_command c r, accept_command c t with
      | (Ok _, _), (Ok a, _) => [Cmd c a]
      | _, _ => []
      end
  | _, _ => []
  end.

Record CoordinatorHistory := mkCoHistory {
  co_log : list label;
  co_minted : list proof_token;
  co_end : CoordinatorReceiver;
}.
Definition coordinator_step (h : CoordinatorHistory) (op : coordinator_op) : CoordinatorHistory :=
  mkCoHistory (co_log h ++ coordinator_logged op (co_end h))
    (co_minted h ++ token_of (coordinator_call clock op (co_end h)).1)
    (coordinator_call clock op (co_end h)).2.
Definition coordinator_history (reader : Channel) (ops : list coordinator_op) : CoordinatorHistory :=
  fold_left coordinator_step ops (mkCoHistory [] [] (coordinator_new_terminal reader)).

Lemma eof_loop_core deadline script r a r' :
  eof_loop clock deadline script r = (a, r') →
  cr_terminal r' = cr_terminal r ∧ coordinator_pending r' = coordinator_pending r.
Proof.
  revert r. induction script as [|ev script IH]; intros r H; cbn [eof_loop] in H;
    unfold cr_poisoning, on_coordinator_wire in H; run_st in H;
    repeat (case_match; simplify_eq/=; try done).
  all: try (match goal with H : eof_loop _ _ _ _ = _ |- _ => by apply IH in H end).
Qed.

(** The outcome of a call in the terms of [effect]. *)
Definition coordinator_does (r : CoordinatorReceiver) (t : TerminalLifecycleValidator)
    (logged : list label) (a : result ProtocolError (option proof_token)) (r' : CoordinatorReceiver)
    : Prop :=
  ∃ t', cr_terminal r' = Some t' ∧
    effect coordinator_offer t (coordinator_pending r) logged a t' (coordinator_pending r').

Lemma coordinator_quiet r t a r' : cr_terminal r' = Some t →
  coordinator_pending r' = coordinator_pending r ∨ coordinator_pending r' = [] →
  token_of a = [] → coordinator_does r t [] a r'.
Proof. intros. exists t. split; [done|]. by constructor. Qed.

Lemma co_receive_does deadline r t : cr_terminal r = Some t →
  match coordinator_receive clock deadline r with
  | (Ok e, r') => coordinator_does r t [Evt e] (Ok None) r'
  | (Err x, r') => coordinator_does r t [] (Err x) r'
  end.
Proof.
  intros Ht. unfold coordinator_receive, coordinator_accept_any, cr_poisoning, on_coordinator_wire.
  run_st. destruct (cr_poisoned r || coordinator_terminal_received r).
  { by apply coordinator_quiet; auto. }
  cbn [cr_reader cr_set_ack_pending cr_set_ready_pending cr_set_reader cr_terminal].
  destruct (receive_guardian_event _ _ _) as [[e|x] ch]; cbn.
  2: { by apply coordinator_quiet; auto. }
  rewrite Ht. destruct (accept_event e t) as [[[]|x] t'] eqn:E; cbn.
  - apply event_sound in E.
    destruct e; cbn; exists t'; (split; [done|]); constructor; auto.
  - apply event_rejected in E as ->. by apply coordinator_quiet; auto.
Qed.

Lemma co_record_does c r t : cr_terminal r = Some t →
  match record_command c r with
  | (Ok _, r') => ∃ a, (accept_command c t).1 = Ok a ∧ coordinator_does r t [Cmd c a] (Ok None) r'
  | (Err x, r') => coordinator_does r t [] (Err x) r'
  end.
Proof.
  intros Ht. unfold record_command.
  destruct (cr_poisoned r || coordinator_terminal_received r).
  { by apply coordinator_quiet; auto. }
  cbn [cr_terminal cr_set_ack_pending cr_set_ready_pending]. rewrite Ht.
  destruct (accept_command c t) as [[a|x] t'] eqn:E; cbn.
  - exists a. split; [done|]. exists t'. split; [done|].
    constructor; [by apply command_sound|by left|done].
  - apply command_rejected in E as ->. by apply coordinator_quiet; auto.
Qed.

Lemma coordinator_effect op r t :
  cr_terminal r = Some t → (∃ o, coordinator_pending r = option_list o) →
  coordinator_does r t (coordinator_logged op r) (coordinator_call clock op r).1
    (coordinator_call clock op r).2.
Proof.
  intros Ht [o Ho]. unfold coordinator_logged. rewrite Ht.
  destruct op as [deadline|c|c deadline| | | |deadline]; cbn [coordinator_call].
  - pose proof (co_receive_does deadline r t Ht) as H. run_st.
    by destruct (coordinator_receive _ _ _) as [[e|x] r'].
  - pose proof (co_record_does c r t Ht) as H. run_st.
    destruct (record_command c r) as [[[]|x] r']; [|done].
    destruct H as (a & Ha & H). by destruct (accept_command c t) as [[?|?] ?]; simplify_eq/=.
  - pose proof (co_record_does c r t Ht) as H. unfold coordinator_record_and_send. run_st.
    destruct (record_command c r) as [[[]|x] r']; [|done].
    destruct H as (a & Ha & t' & Ht' & H).
    destruct (accept_command c t) as [[?|?] ?]; simplify_eq/=.
    unfold on_coordinator_wire. destruct (send_coordinator_command _ _ _ _) as [[[]|x] ch]; cbn;
      exists t'; (split; [done|]); [done|].
    inversion H; subst. by constructor.
  - unfold take_verified_ready. run_st. destruct (cr_poisoned r).
    { by apply coordinator_quiet; auto. }
    unfold coordinator_pending in *. destruct r as [? ? ? ? ? ? ? ? ? [] []]; cbn in *;
      try (destruct o; discriminate Ho); first [by apply coordinator_quiet; auto|idtac].
    all: exists t; split; [done|by constructor].
  - unfold take_verified_open_gate_ack. run_st. destruct (cr_poisoned r).
    { by apply coordinator_quiet; auto. }
    unfold coordinator_pending in *. destruct r as [? ? ? ? ? ? ? ? ? [] []]; cbn in *;
      try (destruct o; discriminate Ho); first [by apply coordinator_quiet; auto|idtac].
    all: exists t; split; [done|by constructor].
  - unfold coordinator_take_exit. run_st. destruct (cr_poisoned r).
    { by apply coordinator_quiet; auto. }
    rewrite Ht. unfold take_terminal_exit_disposition. run_st.
    destruct (terminal_exit_disposition t) as [d|] eqn:Hd; cbn.
    + eexists. split; [done|]. by constructor.
    + assert (set_exit_disposition None t = t) as -> by (destruct t; cbn in *; by subst).
      by apply coordinator_quiet; auto.
  - unfold verify_terminal_eof. run_st.
    destruct (cr_poisoned r || _); [by apply coordinator_quiet; auto|].
    destruct (cr_eof_verified r); [by apply coordinator_quiet; auto|].
    destruct (eof_loop clock deadline (rx (cr_reader r)) r) as [a r'] eqn:E.
    apply eof_loop_core in E as [E1 E2]. rewrite <- E1 in Ht.
    by destruct a; apply coordinator_quiet; auto.
Qed.

Lemma coordinator_history_snoc reader ops op :
  coordinator_history reader (ops ++ [op]) = coordinator_step (coordinator_history reader ops) op.
Proof. unfold coordinator_history. by rewrite fold_left_app. Qed.

Definition coordinator_offers (log : list label) : list proof_token := omap coordinator_offer log.

Lemma coordinator_tracks reader ops :
  let h := coordinator_history reader ops in
  ∃ t, cr_terminal (co_end h) = Some t ∧
    tracks (fun _ => coordinator_offer) coordinator_offers (co_log h) (co_minted h) t
      (coordinator_pending (co_end h)).
Proof.
  cbn. induction ops as [|op ops IH] using rev_ind.
  - exists before_start. split; [done|]. split; [exists before_start|..]; cbn; auto.
  - rewrite coordinator_history_snoc. destruct IH as (t & Ht & T).
    destruct (coordinator_effect op _ t Ht) as (t' & Ht' & He).
    { destruct (tr_fresh _ _ _ _ _ _ T) as [->|(? & l & _ & ->)]; [by exists None|by eexists]. }
    exists t'. split; [done|]. cbn. eapply tracks_effect; [|done|done].
    intros log l. unfold coordinator_offers. rewrite omap_app. cbn. by destruct (coordinator_offer l).
Qed.
End coordinator.

(** ** The guardian *)

Section guardian.
Context (clock : nat → Z).

Definition guardian_pending (g : GuardianCommandReceiver) : list proof_token :=
  let p := gr_pending g in
  match open_gate_pending p with
  | Some Initial => [Pf_InitialGate] | Some Resume_ => [Pf_ResumeGate] | None => []
  end
  ++ (if suspend_pending p then [Pf_Suspend] else [])
  ++ match resume_pending p with Some (rows, cols) => [Pf_Resume rows cols] | None => [] end
  ++ match resize_pending p with Some (rows, cols) => [Pf_Resize rows cols] | None => [] end
  ++ (if terminal_restored_pending p then [Pf_Restored] else []).

(** The message a call made the validator accept. *)
Definition guardian_logged (op : guardian_op) (g : GuardianCommandReceiver) : list label :=
  match op, gr_terminal g with
  | GuReceive deadline, Some t =>
      match guardian_receive clock deadline g with
      | (Ok c, _) => match accept_command c t with (Ok a, _) => [Cmd c a] | _ => [] end
      | _ => []
      end
  | (GuRecord e | GuSend e _), Some _ =>
      match record_event e g with (Ok _, _) => [Evt e] | _ => [] end
  | GuArm, Some _ => match guardian_arm_recovery g with (Ok _, _) => [Arm] | _ => [] end
  | _, _ => []
  end.

Record GuardianHistory := mkGuHistory {
  gu_log : list label;
  gu_minted : list proof_token;
  gu_end : GuardianCommandReceiver;
}.
Definition guardian_step (h : GuardianHistory) (op : guardian_op) : GuardianHistory :=
  mkGuHistory (gu_log h ++ guardian_logged op (gu_end h))
    (gu_minted h ++ token_of (guardian_call clock op (gu_end h)).1)
    (guardian_call clock op (gu_end h)).2.
Definition guardian_history (reader : Channel) (ops : list guardian_op) : GuardianHistory :=
  fold_left guardian_step ops (mkGuHistory [] [] (guardian_new_terminal reader)).

Definition guardian_does (g : GuardianCommandReceiver) (t : TerminalLifecycleValidator)
    (logged : list label) (a : result ProtocolError (option proof_token))
    (g' : GuardianCommandReceiver) : Prop :=
  ∃ t', gr_terminal g' = Some t' ∧
    effect (guardian_offer (gate_ever_opened t)) t (guardian_pending g) logged a
      t' (guardian_pending g').

Lemma guardian_quiet g t a g' : gr_terminal g' = Some t →
  guardian_pending g' = guardian_pending g ∨ guardian_pending g' = [] →
  token_of a = [] → guardian_does g t [] a g'.
Proof. intros. exists t. split; [done|]. by constructor. Qed.

Lemma pending_for_offer t c g :
  guardian_pending (gr_set_pending (pending_for_command t c) g) =
  option_list (guardian_offer (gate_ever_opened t) (Cmd c Applied)).
Proof. destruct c; try done. cbn. by destruct (gate_ever_opened t). Qed.

Lemma gu_receive_does deadline g t : gr_terminal g = Some t →
  match guardian_receive clock deadline g with
  | (Ok c, g') => ∃ a, (accept_command c t).1 = Ok a ∧ guardian_does g t [Cmd c a] (Ok None) g'
  | (Err x, g') => guardian_does g t [] (Err x) g'
  end.
Proof.
  intros Ht. unfold guardian_receive, guardian_accept, gr_poisoning, on_guardian_wire. run_st.
  destruct (gr_poisoned g || _ || _); [by apply guardian_quiet; auto|].
  cbn [gr_reader gr_set_pending gr_set_reader gr_terminal].
  destruct (receive_coordinator_command _ _ _) as [[c|x] ch]; cbn;
    [|by apply guardian_quiet; auto].
  rewrite Ht. destruct (accept_command c t) as [[a|x] t'] eqn:E; cbn -[guardian_pending].
  - exists a. rewrite E. split; [done|]. exists t'. split; [by case_bool_decide|].
    constructor; [by apply command_sound| |done].
    case_bool_decide; [right; subst a; apply pending_for_offer|by left].
  - apply command_rejected in E as ->. by apply guardian_quiet; auto.
Qed.

Lemma gu_record_does e g t : gr_terminal g = Some t →
  match record_event e g with
  | (Ok _, g') => guardian_does g t [Evt e] (Ok None) g'
  | (Err x, g') => guardian_does g t [] (Err x) g'
  end.
Proof.
  intros Ht. unfold record_event. destruct (gr_poisoned g); [by apply guardian_quiet; auto|].
  cbn [gr_terminal gr_set_pending]. rewrite Ht.
  destruct (accept_event e t) as [[[]|x] t'] eqn:E; cbn.
  - exists t'. split; [done|]. constructor; [by apply event_sound|by left|done].
  - apply event_rejected in E as ->. by apply guardian_quiet; auto.
Qed.

(** The pending bits as one proof at most. *)
Ltac take_pending :=
  unfold guardian_pending in *;
  match goal with g : GuardianCommandReceiver |- _ => destruct g as [? ? ? ? [gate [] resume resize []]] end;
  repeat match goal with
  | x : option OpenGateCommandCycle |- _ => destruct x as [[]|]
  | x : option (Z * Z) |- _ => destruct x as [[? ?]|]
  | x : option proof_token |- _ => destruct x
  end; cbn in *; simplify_eq/=;
  try (by apply guardian_quiet; auto);
  try (eexists; split; [done|by constructor]).

Lemma guardian_effect op g t :
  gr_terminal g = Some t → (∃ o, guardian_pending g = option_list o) →
  guardian_does g t (guardian_logged op g) (guardian_call clock op g).1 (guardian_call clock op g).2.
Proof.
  intros Ht [o Ho]. unfold guardian_logged. rewrite Ht.
  destruct op as [deadline|e|e deadline| | | | | | | |]; cbn [guardian_call].
  - pose proof (gu_receive_does deadline g t Ht) as H. run_st.
    destruct (guardian_receive _ _ _) as [[c|x] g']; [|done].
    destruct H as (a & Ha & H). by destruct (accept_command c t) as [[?|?] ?]; simplify_eq/=.
  - pose proof (gu_record_does e g t Ht) as H. run_st. by destruct (record_event e g) as [[[]|x] g'].
  - pose proof (gu_record_does e g t Ht) as H. unfold guardian_record_and_send. run_st.
    destruct (record_event e g) as [[[]|x] g']; [|done]. destruct H as (t' & Ht' & H).
    unfold gr_poisoning, on_guardian_wire.
    destruct (send_guardian_event _ _ _ _) as [[[]|x] ch]; cbn; exists t'; (split; [done|]); [done|].
    inversion H; subst. by constructor.
  - unfold guardian_arm_recovery. run_st. destruct (gr_poisoned g || _ || _).
    { by apply guardian_quiet; auto. }
    cbn [gr_terminal gr_set_pending]. rewrite Ht.
    destruct (arm_recovery_command_race t) as [[[]|x] t'] eqn:E; cbn.
    + exists t'. split; [done|]. constructor; [by apply arm_sound|by left|done].
    + apply arm_rejected in E as ->. by apply guardian_quiet; auto.
  - unfold take_verified_initial_open_gate_command, take_verified_open_gate_command. run_st.
    destruct (gr_poisoned g); [by apply guardian_quiet; auto|]. take_pending.
  - unfold take_verified_resume_open_gate_command, take_verified_open_gate_command. run_st.
    destruct (gr_poisoned g); [by apply guardian_quiet; auto|]. take_pending.
  - unfold take_verified_suspend_command. run_st.
    destruct (gr_poisoned g); [by apply guardian_quiet; auto|]. take_pending.
  - unfold take_verified_resume_command. run_st. destruct (gr_poisoned g) eqn:Hp; take_pending.
  - unfold take_verified_resize_command. run_st. destruct (gr_poisoned g) eqn:Hp; take_pending.
  - unfold take_verified_terminal_restored_command. run_st.
    destruct (gr_poisoned g); [by apply guardian_quiet; auto|]. take_pending.
  - unfold guardian_take_exit. run_st. destruct (gr_poisoned g); [by apply guardian_quiet; auto|].
    rewrite Ht. unfold take_terminal_exit_disposition. run_st.
    destruct (terminal_exit_disposition t) as [d|] eqn:Hd; cbn.
    + eexists. split; [done|]. by constructor.
    + assert (set_exit_disposition None t = t) as -> by (destruct t; cbn in *; by subst).
      by apply guardian_quiet; auto.
Qed.

Lemma guardian_history_snoc reader ops op :
  guardian_history reader (ops ++ [op]) = guardian_step (guardian_history reader ops) op.
Proof. unfold guardian_history. by rewrite fold_left_app. Qed.

Definition offer_after (log : list label) : label → option proof_token :=
  guardian_offer (existsb is_gate_opened log).

Lemma guardian_tracks reader ops :
  let h := guardian_history reader ops in
  ∃ t, gr_terminal (gu_end h) = Some t ∧
    tracks offer_after (guardian_offers false) (gu_log h) (gu_minted h) t (guardian_pending (gu_end h)).
Proof.
  cbn. induction ops as [|op ops IH] using rev_ind.
  - exists before_start. split; [done|]. split; [exists before_start|..]; cbn; auto.
  - rewrite guardian_history_snoc. destruct IH as (t & Ht & T).
    destruct (guardian_effect op _ t Ht) as (t' & Ht' & He).
    { destruct (tr_fresh _ _ _ _ _ _ T) as [->|(? & l & _ & ->)]; [by exists None|by eexists]. }
    rewrite (validates_gate _ _ (tr_validates _ _ _ _ _ _ T)) in He.
    exists t'. split; [done|]. cbn. eapply tracks_effect; [|done|done].
    intros log l. apply guardian_offers_snoc.
Qed.
End guardian.

(** ** Poisoning *)

Lemma coordinator_poisoned clock r op : cr_poisoned r = true →
  coordinator_call clock op r = (Err UnexpectedState, r).
Proof.
  intros H. destruct op; cbn [coordinator_call];
    unfold coordinator_receive, coordinator_record_and_send, record_command, take_verified_ready,
      take_verified_open_gate_ack, coordinator_take_exit, verify_terminal_eof; run_st;
    by rewrite H.
Qed.

Lemma coordinator_receive_poisons clock deadline r e r' :
  coordinator_receive clock deadline r = (Err e, r') →
  cr_poisoned r' = true ∨ r' = r ∧ coordinator_terminal_received r = true.
Proof.
  unfold coordinator_receive, cr_poisoning. run_st.
  destruct (cr_poisoned r) eqn:Hp; cbn [orb]; [by intros [= <- <-]; left|].
  destruct (coordinator_terminal_received r); [by intros [= <- <-]; right|].
  intros H. left. repeat (case_match; simplify_eq/=; try done).
Qed.

Lemma guardian_poisoned clock g op : gr_poisoned g = true →
  (guardian_call clock op g).1 = Err UnexpectedState ∧
  gr_poisoned (guardian_call clock op g).2 = true ∧
  gr_reader (guardian_call clock op g).2 = gr_reader g ∧
  gr_terminal (guardian_call clock op g).2 = gr_terminal g.
Proof.
  intros H. destruct op; cbn [guardian_call];
    unfold guardian_receive, guardian_record_and_send, record_event, guardian_arm_recovery,
      take_verified_initial_open_gate_command, take_verified_resume_open_gate_command,
      take_verified_open_gate_command, take_verified_suspend_command, take_verified_resume_command,
      take_verified_resize_command, take_verified_terminal_restored_command, guardian_take_exit;
    run_st; rewrite H; cbn; try done; by repeat case_match; simplify_eq/=.
Qed.

Lemma guardian_send_poisons clock e deadline g x g' :
  guardian_record_and_send clock e deadline g = (Err x, g') → gr_poisoned g' = true.
Proof.
  unfold guardian_record_and_send, record_event, gr_poisoning. run_st.
  destruct (gr_poisoned g) eqn:Hp; [by intros [= <- <-]|].
  intros H. by repeat (case_match; simplify_eq/=).
Qed.

(** * The properties *)

(** C11. The coordinator's end, along any sequence of calls: its validator
    holds exactly the transcript of the messages it accepted, so the input gate
    it reports is that transcript's; every readiness proof and every open-gate
    acknowledgement it hands out was offered by the message accepted last, and
    the proofs handed out are a subsequence of the offers, so none is handed out
    twice or out of order; at most one exit disposition is handed out, after the
    end, and it is the one the transcript proves; and after a rejected or failed
    receive the end is poisoned and every later call is refused and changes
    nothing. *)
Theorem coordinator_transcript clock reader ops :
  let h := coordinator_history clock reader ops in
  let r := co_end h in
  ∃ v, replay (co_log h) = Some v ∧
    coordinator_input_gate_opened r = negb (cr_poisoned r) && validator_input_gate_opened v ∧
    sublist (gates (co_minted h)) (coordinator_offers (co_log h)) ∧
    (∀ op x r', coordinator_call clock op r = (Ok (Some x), r') → is_exit x = false →
       ∃ log l, co_log h = log ++ [l] ∧ coordinator_offer l = Some x) ∧
    (length (exits (co_minted h)) <= 1)%nat ∧
    (∀ d, Pf_Exit d ∈ co_minted h →
       state v = St_Terminal ∧ terminal_exit_disposition v = Some d) ∧
    (∀ deadline e r', coordinator_receive clock deadline r = (Err e, r') →
       coordinator_terminal_received r = false →
       ∀ op, coordinator_call clock op r' = (Err UnexpectedState, r')).
Proof.
  cbn. destruct (coordinator_tracks clock reader ops) as (t & Ht & T). cbn in *.
  destruct (validates_replay _ _ (tr_validates _ _ _ _ _ _ T)) as (v & Hr & Hs).
  destruct (tracks_exits _ _ _ _ _ _ _ T Hr) as [Hone Hex].
  exists v. split_and!; try done.
  - unfold coordinator_input_gate_opened. rewrite Ht. by rewrite (gate_opened_state t v).
  - etrans; [|exact (tr_linear _ _ _ _ _ _ T)]. by apply sublist_inserts_r.
  - intros op x r' Hcall Hx.
    destruct (coordinator_effect clock op _ t Ht) as (t' & _ & He).
    { destruct (tr_fresh _ _ _ _ _ _ T) as [->|(? & l & _ & ->)]; [by exists None|by eexists]. }
    rewrite Hcall in He. destruct (tracks_take (fun _ => coordinator_offer) _ _ _ _ _ _ _ _ _ T He Hx)
      as (log & l & -> & Ho). by exists log, l.
  - intros deadline e r' Hrec Hterm op. apply coordinator_poisoned.
    apply coordinator_receive_poisons in Hrec as [?|[_ ?]]; [done|congruence].
Qed.

(** The guardian's end, along any sequence of calls: its validator holds
    exactly the transcript of the messages it accepted; every command proof it
    hands out was offered by the command accepted last, with that command's
    size, and the gate proof is the initial one exactly while no gate had
    opened before; the proofs are a subsequence of the offers, so none is
    handed out twice; a command superseded by the recovery race offers none; at
    most one exit disposition is handed out, the one the transcript proves; a
    failed send poisons the end, and a poisoned end refuses every call and
    changes neither wire nor transcript. *)
Lemma guardian_transcript clock reader ops :
  let h := guardian_history clock reader ops in
  let g := gu_end h in
  ∃ v, replay (gu_log h) = Some v ∧
    guardian_input_gate_opened g = negb (gr_poisoned g) && validator_input_gate_opened v ∧
    sublist (gates (gu_minted h)) (guardian_offers false (gu_log h)) ∧
    (∀ op x g', guardian_call clock op g = (Ok (Some x), g') → is_exit x = false →
       ∃ log l, gu_log h = log ++ [l] ∧ guardian_offer (existsb is_gate_opened log) l = Some x) ∧
    (length (exits (gu_minted h)) <= 1)%nat ∧
    (∀ d, Pf_Exit d ∈ gu_minted h →
       state v = St_Terminal ∧ terminal_exit_disposition v = Some d) ∧
    (∀ e deadline x g', guardian_record_and_send clock e deadline g = (Err x, g') →
       ∀ op, (guardian_call clock op g').1 = Err UnexpectedState ∧
         gr_poisoned (guardian_call clock op g').2 = true ∧
         gr_reader (guardian_call clock op g').2 = gr_reader g' ∧
         gr_terminal (guardian_call clock op g').2 = gr_terminal g').
Proof.
  cbn. destruct (guardian_tracks clock reader ops) as (t & Ht & T). cbn in *.
  destruct (validates_replay _ _ (tr_validates _ _ _ _ _ _ T)) as (v & Hr & Hs).
  destruct (tracks_exits _ _ _ _ _ _ _ T Hr) as [Hone Hex].
  exists v. split_and!; try done.
  - unfold guardian_input_gate_opened. rewrite Ht. by rewrite (gate_opened_state t v).
  - etrans; [|exact (tr_linear _ _ _ _ _ _ T)]. by apply sublist_inserts_r.
  - intros op x g' Hcall Hx.
    destruct (guardian_effect clock op _ t Ht) as (t' & _ & He).
    { destruct (tr_fresh _ _ _ _ _ _ T) as [->|(? & l & _ & ->)]; [by exists None|by eexists]. }
    rewrite Hcall in He. rewrite (validates_gate _ _ (tr_validates _ _ _ _ _ _ T)) in He.
    by apply (tracks_take offer_after _ _ _ _ _ _ _ _ _ T He Hx).
  - intros e deadline x g' Hsend op. by eapply guardian_poisoned, guardian_send_poisons.
Qed.

(** ** A failed send *)

Module SendFailure.

(** The wire of a coordinator whose peer has announced the lease; the first
    write fails. *)
Definition lease_frame : bytes :=
  match encode_guardian_event LeaseCommitted with
  | Ok (t, body) => frame_bytes (Z.lor GUARDIAN_DIRECTION t) body
  | Err _ => []
  end.
Definition failed_frame : bytes :=
  match encode_guardian_event (Failed Ph_AppServer Fc_Spawn) with
  | Ok (t, body) => frame_bytes (Z.lor GUARDIAN_DIRECTION t) body
  | Err _ => []
  end.
Definition wire : Channel := mkChannel [RData lease_frame; RData failed_frame] [WFailed] [] [] 0.
Definition clock : nat → Z := Z.of_nat.
Definition after : CoordinatorReceiver :=
  co_end (coordinator_history clock wire [CoReceive 1000; CoSend Start 1000]).

(** After the failed write of [Start] the coordinator's end is not poisoned:
    it accepts the next event of a peer that never got the command. *)
Lemma coordinator_send_failure_accepted :
  (coordinator_call clock (CoSend Start 1000)
     (co_end (coordinator_history clock wire [CoReceive 1000]))).1 = Err Io ∧
  cr_poisoned after = false ∧
  (coordinator_receive clock 1000 after).1 = Ok (Failed Ph_AppServer Fc_Spawn).
Proof. split_and!; vm_compute; reflexivity. Qed.
End SendFailure.
