(* ===== verification/CoordinatorTerminal.v ===== *)
(** * The coordinator's half of the supervised terminal
    (src/providers/codex/supervisor/coordinator_terminal.rs, the output buffer
    of terminal.rs and [CoordinatorTerminalOwner] of coordinator.rs)

    The type states of [CoordinatorTerminal<State>] are the constructors of
    [TerminalState]; a consuming transition is a computation over the owner.
    What the operating system answers is the class [Environment]: its methods
    give the answer to the n-th question, and every question advances the step
    counter, so the clock is read at increasing steps. A loop takes its bound
    as an argument and reports [OutOfFuel] beyond it. *)
From S2P Require Import Prelude Interfaces Wire.

Open Scope Z_scope.

(** ** The operating system *)

(** One [read] ([Tr_Data []] is end of stream) and one [write]. *)
Inductive TtyRead := Tr_Data (b : bytes) | Tr_WouldBlock | Tr_Interrupted | Tr_Failed.
Inductive TtyWrite := Tw_Accept (n : nat) | Tw_WouldBlock | Tw_Interrupted | Tw_Failed.
(** One [poll] of the lifecycle descriptor: no event; [ERR] or [NVAL]; [IN] or
    [HUP]; other events; [EINTR]; another error. *)
Inductive PollAnswer :=
| Po_None | Po_Error | Po_Readable | Po_Other | Po_Interrupted | Po_Failed.
Inductive ExitStatus := Es_Code (code : Z) | Es_Signal (signal : Z).
#[export] Instance ExitStatus_eq_dec : EqDecision ExitStatus.
Proof. solve_decision. Defined.

Inductive DescriptorIsolationObservationStage :=
| Stage_CoordinatorAuthority | Stage_Lifecycle | Stage_OuterTerminal | Stage_TargetProcessGroup.
Inductive ProcessGroupDescriptorScanError :=
| Scan_InvalidArgument | Scan_ProcessLimit | Scan_MemberLimit | Scan_DescriptorLimit
| Scan_ForbiddenIdentityLimit | Scan_Deadline | Scan_PermissionDenied
| Scan_ProcessUserMismatch | Scan_ProcessChanged | Scan_DescriptorChanged
| Scan_ForbiddenDescriptor | Scan_UnsupportedDescriptor | Scan_ObservationFailed.
Inductive MacosDescriptorObservationReason :=
| Mac_UnsupportedKind | Mac_VnodeIdentityUnavailable | Mac_SocketIdentityUnavailable
| Mac_PipeIdentityUnavailable | Mac_ForbiddenKindIdentityUnavailable.
#[export] Instance Stage_eq_dec : EqDecision DescriptorIsolationObservationStage.
Proof. solve_decision. Defined.
#[export] Instance Scan_eq_dec : EqDecision ProcessGroupDescriptorScanError.
Proof. solve_decision. Defined.

(** One scan of a child's descriptors: absent, a failure to name one of the
    coordinator's own descriptors, or the diagnostic of the scan. *)
Inductive ScanAnswer :=
| Sc_Absent
| Sc_Source (stage : DescriptorIsolationObservationStage) (error : ProcessGroupDescriptorScanError)
| Sc_Target (classification : ProcessGroupDescriptorScanError)
    (macos_reason : option MacosDescriptorObservationReason).

Class Environment := {
  now : nat → Z;
  instant_max : Z;
  channel_read : nat → TtyRead;
  tty_write : nat → TtyWrite;
  tty_read : nat → TtyRead;
  channel_write : nat → TtyWrite;
  enter_raw_after_input_flush : nat → bool;
  restore_with_sigttou_block : nat → bool;
  foreground_process_group_matches : nat → bool;
  shutdown_write : nat → bool;
  window_size : nat → option (Z * Z);
  poll : nat → PollAnswer;
  scan : nat → ScanAnswer;
  try_wait : nat → result () (option ExitStatus);
  signal_arrived : nat → bool;
  block_sigcont : nat → bool;
  kill_stop : nat → bool;
  shutdown_wire : nat → bool;
}.

(** What a loop reports: the error of the code, or that its bound was reached. *)
Inductive looping (E : Type) := Failure (e : E) | OutOfFuel.
Arguments Failure {_} _.
Arguments OutOfFuel {_}.
#[export] Instance looping_eq_dec {E} `{EqDecision E} : EqDecision (looping E).
Proof. solve_decision. Defined.

(** [Instant::checked_add]. *)
Definition instant_add `{Environment} (t d : Z) : option Z := checked_add_u instant_max t d.

(** ** The output buffer *)

Definition TERMINAL_BUFFER_CAPACITY : nat := Z.to_nat (8 * 1024).

Inductive TerminalWrite := Complete_ | Progress (written remaining : nat) | WouldBlock.
Inductive PendingTerminalRead := Pr_Data | Pr_EndOfStream | Pr_WouldBlock.

Record PendingTerminalOutput := mkOutput {
  buffer : bytes;
  po_length : nat;
  po_offset : nat;
}.

Definition zeros (n : nat) : bytes := replicate n 0.
Definition output_new : PendingTerminalOutput := mkOutput (zeros TERMINAL_BUFFER_CAPACITY) 0 0.
Definition is_pending (o : PendingTerminalOutput) : bool := Nat.ltb (po_offset o) (po_length o).
Definition scrub (o : PendingTerminalOutput) : PendingTerminalOutput :=
  mkOutput (zeros (length (buffer o))) 0 0.
Definition remaining_bytes (o : PendingTerminalOutput) : bytes :=
  take (po_length o - po_offset o) (drop (po_offset o) (buffer o)).
(** [bytes[i..j].zeroize()]. *)
Definition zeroize (i j : nat) (b : bytes) : bytes := take i b ++ zeros (j - i) ++ drop j b.

(** [None] is [TerminalError::Write]. *)
Definition record_write (length : nat) (o : PendingTerminalOutput)
    : option TerminalWrite * PendingTerminalOutput :=
  let remaining := (po_length o - po_offset o)%nat in
  if Nat.eqb length 0 || Nat.ltb remaining length then (None, o)
  else
    let offset := (po_offset o + length)%nat in
    let cleared := zeroize (po_offset o) offset (buffer o) in
    if Nat.eqb offset (po_length o) then (Some Complete_, mkOutput cleared 0 0)
    else (Some (Progress length (po_length o - offset)), mkOutput cleared (po_length o) offset).

(** What a [read] into a buffer of that capacity delivers. *)
Definition delivered (answer : TtyRead) : bytes :=
  match answer with Tr_Data b => take TERMINAL_BUFFER_CAPACITY b | _ => [] end.

(** [read_fixed_count_once] into the buffer of a drained output; a read
    returns at most the capacity. [None] is [TerminalError::Read]. *)
Definition read_from (answer : TtyRead) (o : PendingTerminalOutput)
    : option PendingTerminalRead * PendingTerminalOutput :=
  if is_pending o then (None, o)
  else
    let cleared := zeros (length (buffer o)) in
    let keep b := mkOutput b (po_length o) (po_offset o) in
    match answer with
    | Tr_Data b =>
        let b := take (length (buffer o)) b in
        match b with
        | [] => (Some Pr_EndOfStream, keep cleared)
        | _ => (Some Pr_Data, mkOutput (b ++ zeros (length (buffer o) - length b)) (length b) 0)
        end
    | Tr_Interrupted | Tr_WouldBlock => (Some Pr_WouldBlock, keep cleared)
    | Tr_Failed => (None, keep cleared)
    end.

(** [try_write_pending_file]. *)
Definition try_write_to (answer : TtyWrite) (o : PendingTerminalOutput)
    : option TerminalWrite * PendingTerminalOutput :=
  if negb (is_pending o) then (None, o)
  else match answer with
  | Tw_Accept n => record_write n o
  | Tw_Interrupted | Tw_WouldBlock => (Some WouldBlock, o)
  | Tw_Failed => (None, o)
  end.

(** ** The terminal *)

Inductive CoordinatorTerminalError :=
| Te_Setup | Te_Deadline | Te_OuterTerminalEof | Te_TerminalChannelRead | Te_TerminalChannelWrite
| Te_OuterTerminalRead | Te_OuterTerminalWrite | Te_RawTransition | Te_Foreground
| Te_WindowSize | Te_Restore | Te_Shutdown.
Inductive CoordinatorPumpProgress := Cp_Idle | Cp_Output | Cp_OutputPending | Cp_OutputClosed | Cp_Input.
#[export] Instance TerminalError_eq_dec : EqDecision CoordinatorTerminalError.
Proof. solve_decision. Defined.
#[export] Instance PumpProgress_eq_dec : EqDecision CoordinatorPumpProgress.
Proof. solve_decision. Defined.

(** The fields a [CoordinatorTerminal] has in every state. *)
Record Terminal := mkTerminal {
  snapshot : TerminalSnapshotFingerprint;
  output : PendingTerminalOutput;
  output_stall_deadline : option Z;
  output_closed : bool;
}.
Definition set_output o t := mkTerminal (snapshot t) o (output_stall_deadline t) (output_closed t).
Definition set_stall d t := mkTerminal (snapshot t) (output t) d (output_closed t).
Definition set_closed t := mkTerminal (snapshot t) (output t) (output_stall_deadline t) true.

Inductive TerminalState :=
| Tm_OutputOnly | Tm_GateReady | Tm_RawAwaitAck | Tm_Active | Tm_Paused | Tm_SuspendedRestored
| Tm_ResumeRaw | Tm_Quiesced | Tm_Restored.
#[export] Instance TerminalState_eq_dec : EqDecision TerminalState.
Proof. solve_decision. Defined.

(** [CoordinatorTerminalOwner]. *)
Inductive Owner :=
| Live (s : TerminalState) (t : Terminal)
| Finished.

(** What happens at the two ends of the terminal, in order. *)
Inductive tty_act :=
| Ta_Received (b : bytes)      (* what a read delivered from the guardian *)
| Ta_Shown (b : bytes)         (* to the outer terminal *)
| Ta_Typed (b : bytes)         (* what a read delivered from the outer terminal *)
| Ta_Sent (b : bytes)          (* to the guardian *)
| Ta_Raw (ok : bool) | Ta_Restore (ok : bool) | Ta_Shutdown (ok : bool).

(** The state of a terminal operation: [X] is what it works on. *)
Record At (X : Type) := mkAt { here : X; step : nat; acts : list tty_act }.
Arguments mkAt {_} _ _ _.
Arguments here {_} _.
Arguments step {_} _.
Arguments acts {_} _.

Abbreviation TM X := (stM (At X) (looping CoordinatorTerminalError)).
Definition update {X F} (f : X → X) : stM (At X) F () := modify_st (fun s => mkAt (f (here s)) (step s) (acts s)).
Definition did {X F} (a : tty_act) : stM (At X) F () := modify_st (fun s => mkAt (here s) (step s) (acts s ++ [a])).
(** A read: what it delivered, if anything. *)
Definition deliver {X F} (act : bytes → tty_act) (answer : TtyRead) : stM (At X) F () :=
  match delivered answer with [] => mret () | b => did (act b) end.
(** Asks the environment. *)
Definition ask {X F A} (f : nat → A) : stM (At X) F A := fun s => (Ok (f (step s)), mkAt (here s) (S (step s)) (acts s)).
Definition term_fail {X A} (e : CoordinatorTerminalError) : TM X A := throw (Failure e).
Definition ok_or_fail {X A} (o : option A) (e : CoordinatorTerminalError) : TM X A :=
  match o with Some a => mret a | None => term_fail e end.

Section terminal.
Context {E : Environment}.

(** [read(output)?]: the buffer is refilled whatever the outcome. What the
    system call delivered is recorded before the program sees it; while output
    is pending there is no call. *)
Definition read_output : TM Terminal PendingTerminalRead :=
  answer ← ask channel_read;
  s ← get_st;
  _ ← (if is_pending (output (here s)) then mret () else deliver Ta_Received answer);
  let '(r, o) := read_from answer (output (here s)) in
  _ ← update (set_output o);
  ok_or_fail r Te_TerminalChannelRead.

(** [write(output)?]. *)
Definition write_output : TM Terminal TerminalWrite :=
  answer ← ask tty_write;
  s ← get_st;
  let '(r, o) := try_write_to answer (output (here s)) in
  let shown := match r, answer with
               | Some (Complete_ | Progress _ _), Tw_Accept n =>
                   take n (remaining_bytes (output (here s)))
               | _, _ => []
               end in
  _ ← update (set_output o);
  _ ← (match shown with [] => mret () | _ => did (Ta_Shown shown) end);
  ok_or_fail r Te_OuterTerminalWrite.

(** The second half of [pump_output_state_once]: one write of what is pending. *)
Definition flush_output_once (stall_timeout outer_deadline : Z) : TM Terminal CoordinatorPumpProgress :=
  s ← get_st;
  deadline ← ok_or_fail (output_stall_deadline (here s)) Te_Deadline;
  observed ← ask now;
  if (deadline <=? observed) || (outer_deadline <=? observed) then term_fail Te_Deadline
  else
    written ← write_output;
    match written with
    | Complete_ => _ ← update (set_stall None); mret Cp_Output
    | Progress _ _ =>
        observed ← ask now;
        local_deadline ← ok_or_fail (instant_add observed stall_timeout) Te_Deadline;
        let renewed_deadline := Z.min local_deadline outer_deadline in
        _ ← update (set_stall (Some renewed_deadline));
        if renewed_deadline <=? observed then term_fail Te_Deadline else mret Cp_OutputPending
    | WouldBlock => mret Cp_OutputPending
    end.

Definition pump_output_state_once (stall_timeout outer_deadline : Z) : TM Terminal CoordinatorPumpProgress :=
  observed ← ask now;
  s ← get_st;
  let t := here s in
  if is_pending (output t) then
    deadline ← ok_or_fail (output_stall_deadline t) Te_Deadline;
    if (deadline <=? observed) || (outer_deadline <=? observed) then term_fail Te_Deadline
    else flush_output_once stall_timeout outer_deadline
  else if outer_deadline <=? observed then term_fail Te_Deadline
  else if output_closed t then mret Cp_OutputClosed
  else
    r ← read_output;
    match r with
    | Pr_Data =>
        observed ← ask now;
        local_deadline ← ok_or_fail (instant_add observed stall_timeout) Te_Deadline;
        let fixed_deadline := Z.min local_deadline outer_deadline in
        _ ← update (set_stall (Some fixed_deadline));
        if fixed_deadline <=? observed then term_fail Te_Deadline
        else flush_output_once stall_timeout outer_deadline
    | Pr_WouldBlock => mret Cp_Idle
    | Pr_EndOfStream => _ ← update set_closed; mret Cp_OutputClosed
    end.

(** [CoordinatorTerminal::pump_output_once]. *)
Definition terminal_pump_output_once (stall_timeout outer_deadline : Z)
    : TM Terminal CoordinatorPumpProgress :=
  if stall_timeout =? 0 then term_fail Te_Deadline
  else pump_output_state_once stall_timeout outer_deadline.

(** [read_into]: interruption is retried. [None] is end of stream's sibling
    [WouldBlock]; [Some []] is end of stream. *)
Fixpoint tty_read_into (fuel : nat) : TM Terminal (option bytes) :=
  match fuel with
  | O => throw OutOfFuel
  | S fuel =>
      answer ← ask tty_read;
      match answer with
      | Tr_Data b =>
          _ ← deliver Ta_Typed answer;
          mret (Some (take TERMINAL_BUFFER_CAPACITY b))
      | Tr_WouldBlock => mret None
      | Tr_Interrupted => tty_read_into fuel
      | Tr_Failed => term_fail Te_OuterTerminalRead
      end
  end.

(** [try_write] of a chunk, whose remaining bytes are [chunk]; returns what
    then remains, and [None] for [WouldBlock]. *)
Fixpoint channel_try_write (fuel : nat) (chunk : bytes) : TM Terminal (option bytes) :=
  match fuel with
  | O => throw OutOfFuel
  | S fuel =>
      answer ← ask channel_write;
      match answer with
      | Tw_Accept n =>
          if Nat.eqb n 0 || Nat.ltb (length chunk) n then term_fail Te_TerminalChannelWrite
          else
            _ ← did (Ta_Sent (take n chunk));
            mret (Some (drop n chunk))
      | Tw_WouldBlock => mret None
      | Tw_Interrupted => channel_try_write fuel chunk
      | Tw_Failed => term_fail Te_TerminalChannelWrite
      end
  end.

Fixpoint write_fragment_before (fuel : nat) (deadline : Z) (chunk : bytes) : TM Terminal () :=
  match chunk, fuel with
  | [], _ => mret ()
  | _, O => throw OutOfFuel
  | _, S fuel' =>
      observed ← ask now;
      if deadline <=? observed then term_fail Te_Deadline
      else
        written ← channel_try_write fuel chunk;
        match written with
        | Some rest => write_fragment_before fuel' deadline rest
        | None =>
            observed ← ask now;
            if deadline <=? observed then term_fail Te_Deadline
            else write_fragment_before fuel' deadline chunk
        end
  end.

(** [CoordinatorTerminal<Active>::pump_input_once]; the input buffer holds no
    byte between turns. *)
Definition terminal_pump_input_once (fuel : nat) (deadline : Z) : TM Terminal CoordinatorPumpProgress :=
  observed ← ask now;
  if deadline <=? observed then term_fail Te_Deadline
  else
    read ← tty_read_into fuel;
    match read with
    | Some [] => term_fail Te_OuterTerminalEof
    | Some chunk =>
        _ ← write_fragment_before fuel deadline chunk;
        mret Cp_Input
    | None => mret Cp_Idle
    end.

(** [current_size]. *)
Definition terminal_current_size : TM Terminal (Z * Z) :=
  size ← ask window_size;
  match size with
  | Some (rows, cols) =>
      if (rows =? 0) || (cols =? 0) then term_fail Te_WindowSize else mret (rows, cols)
  | None => term_fail Te_WindowSize
  end.
End terminal.
Arguments TERMINAL_BUFFER_CAPACITY : simpl never.

(** ** The owner and its transitions *)

Inductive CoordinatorDriveError :=
| De_Deadline | De_Lifecycle | De_Protocol | De_Snapshot
| De_Terminal (e : CoordinatorTerminalError) | De_Signal | De_Guardian
| De_DescriptorIsolation (e : ProcessGroupDescriptorScanError).
#[export] Instance DriveError_eq_dec : EqDecision CoordinatorDriveError.
Proof. solve_decision. Defined.

Abbreviation OM := (stM (At Owner) (looping CoordinatorDriveError)).
Definition drive_fail {S A} (e : CoordinatorDriveError) : stM S (looping CoordinatorDriveError) A :=
  throw (Failure e).

(** An operation of the terminal inside the owner, its error as it is. *)
Definition on_live {A} (m : TM Terminal A) (absent : A) : TM Owner A := fun s =>
  match here s with
  | Finished => (Ok absent, s)
  | Live st t =>
      let '(a, s') := m (mkAt t (step s) (acts s)) in
      (a, mkAt (Live st (here s')) (step s') (acts s'))
  end.
Definition map_terminal {X A} (m : TM X A) : stM (At X) (looping CoordinatorDriveError) A := fun s =>
  let '(a, s') := m s in
  (map_err (fun e => match e with Failure e => Failure (De_Terminal e) | OutOfFuel => OutOfFuel end) a, s').
Definition become (o : Owner) : OM () := update (fun _ => o).

Definition has_pending_output (o : Owner) : bool :=
  match o with Live _ t => is_pending (output t) | Finished => false end.

Definition quiesce (o : Owner) : Owner :=
  match o with
  | Live (Tm_Quiesced | Tm_Restored) _ | Finished => o
  | Live _ t => Live Tm_Quiesced t
  end.

Definition scrub_pending_output (o : Owner) : Owner :=
  match o with
  | Live st t => Live st (set_stall None (set_output (scrub (output t)) t))
  | Finished => Finished
  end.

Definition snapshot_fingerprint (o : Owner) : option TerminalSnapshotFingerprint :=
  match o with Live Tm_OutputOnly t => Some (snapshot t) | _ => None end.

Section owner.
Context {E : Environment}.

Definition owner_pump_output_once (stall_timeout outer_deadline : Z) : TM Owner CoordinatorPumpProgress :=
  s ← get_st;
  match here s with
  | Live Tm_Restored _ | Finished => mret Cp_Idle
  | _ => on_live (terminal_pump_output_once stall_timeout outer_deadline) Cp_Idle
  end.

Definition pump_output_with_exact_owner (observed outer_deadline stall_timeout : Z)
    : OM CoordinatorPumpProgress := fun s =>
  if (outer_deadline <=? observed) && negb (has_pending_output (here s))
  then (Err (Failure De_Deadline), s)
  else match owner_pump_output_once stall_timeout outer_deadline s with
  | (Ok progress, s) => (Ok progress, s)
  | (Err (Failure e), s) =>
      if bool_decide (e = Te_Deadline) && negb (has_pending_output (here s))
      then (Err (Failure De_Deadline), s)
      else (Err (Failure (De_Terminal e)), s)
  | (Err OutOfFuel, s) => (Err OutOfFuel, s)
  end.

Definition owner_pump_input_once (fuel : nat) (deadline : Z) : TM Owner CoordinatorPumpProgress :=
  s ← get_st;
  match here s with
  | Live Tm_Active _ => on_live (terminal_pump_input_once fuel deadline) Cp_Idle
  | _ => mret Cp_Idle
  end.

Definition current_size : OM (Z * Z) :=
  s ← get_st;
  match here s with
  | Live (Tm_Active | Tm_SuspendedRestored | Tm_ResumeRaw) _ =>
      map_terminal (on_live terminal_current_size (0, 0))
  | _ => drive_fail De_Protocol
  end.

(** A transition from one state by an operation that may fail; [failed] is
    the state the failure leaves. *)
Definition tty_transition (operation : nat → bool) (logged : bool → tty_act)
    (done_ failed : TerminalState) (e : CoordinatorTerminalError) (t : Terminal) : OM () :=
  ok ← ask operation;
  _ ← did (logged ok);
  if ok : bool then become (Live done_ t)
  else
    _ ← become (Live failed t);
    drive_fail (De_Terminal e).

Definition mark_ready : OM () :=
  s ← get_st;
  match here s with
  | Live Tm_OutputOnly t => become (Live Tm_GateReady t)
  | _ => drive_fail De_Protocol
  end.

Definition enter_initial_raw : OM () :=
  s ← get_st;
  match here s with
  | Live Tm_GateReady t =>
      tty_transition enter_raw_after_input_flush Ta_Raw Tm_RawAwaitAck Tm_GateReady Te_RawTransition t
  | _ => drive_fail De_Protocol
  end.

Definition open_after_ack : OM () :=
  s ← get_st;
  match here s with
  | Live Tm_RawAwaitAck t => become (Live Tm_Active t)
  | _ => drive_fail De_Protocol
  end.

Definition pause : OM () :=
  s ← get_st;
  match here s with
  | Live Tm_Active t => become (Live Tm_Paused t)
  | _ => drive_fail De_Protocol
  end.

Definition restore_for_suspend : OM () :=
  s ← get_st;
  match here s with
  | Live Tm_Paused t =>
      tty_transition restore_with_sigttou_block Ta_Restore Tm_SuspendedRestored Tm_Paused Te_Restore t
  | _ => drive_fail De_Protocol
  end.

Definition enter_resume_raw : OM () :=
  s ← get_st;
  match here s with
  | Live Tm_SuspendedRestored t =>
      foreground ← ask foreground_process_group_matches;
      if negb (foreground : bool) then
        _ ← become (Live Tm_Quiesced t);
        drive_fail (De_Terminal Te_Foreground)
      else
        tty_transition enter_raw_after_input_flush Ta_Raw Tm_ResumeRaw Tm_Quiesced Te_RawTransition t
  | _ => drive_fail De_Protocol
  end.

Definition mark_resumed : OM () :=
  s ← get_st;
  match here s with
  | Live Tm_ResumeRaw t => become (Live Tm_RawAwaitAck t)
  | _ => drive_fail De_Protocol
  end.

Definition restore : OM () :=
  s ← get_st;
  match here s with
  | Live Tm_Quiesced t =>
      tty_transition restore_with_sigttou_block Ta_Restore Tm_Restored Tm_Quiesced Te_Restore t
  | Live Tm_Restored _ | Finished => mret ()
  | _ => drive_fail De_Protocol
  end.

Definition finish : OM () :=
  s ← get_st;
  match here s with
  | Live Tm_Restored t =>
      ok ← ask shutdown_write;
      _ ← did (Ta_Shutdown ok);
      if ok : bool then become Finished else drive_fail (De_Terminal Te_Shutdown)
  | Finished => mret ()
  | _ => drive_fail De_Protocol
  end.
End owner.
