(* ===== verification/TerminalProofs.v ===== *)
(** * Theorems about the coordinator's terminal: output integrity

    The pump moves bytes from the guardian's channel to the outer terminal
    through one fixed buffer, across partial writes, stalls and failures. *)
From S2P Require Import Prelude Interfaces Wire CoordinatorTerminal.

Open Scope Z_scope.

(** The bytes received and shown so far. *)
Definition received (l : list tty_act) : bytes :=
  concat (omap (fun a => match a with Ta_Received b => Some b | _ => None end) l).
Definition shown (l : list tty_act) : bytes :=
  concat (omap (fun a => match a with Ta_Shown b => Some b | _ => None end) l).

Lemma received_app l1 l2 : received (l1 ++ l2) = received l1 ++ received l2.
Proof. unfold received. by rewrite omap_app, concat_app. Qed.
Lemma shown_app l1 l2 : shown (l1 ++ l2) = shown l1 ++ shown l2.
Proof. unfold shown. by rewrite omap_app, concat_app. Qed.

(** The buffer holds its pending bytes and zeros, nothing else; a drained
    buffer is empty. *)
Definition erased (o : PendingTerminalOutput) : Prop :=
  buffer o = zeros (po_offset o) ++ remaining_bytes o ++ zeros (TERMINAL_BUFFER_CAPACITY - po_length o)
  ∧ length (buffer o) = TERMINAL_BUFFER_CAPACITY
  ∧ (po_length o <= TERMINAL_BUFFER_CAPACITY)%nat
  ∧ (po_offset o < po_length o ∨ po_offset o = 0 ∧ po_length o = 0)%nat.

(** The state after any history of turns. *)
Record faithful (s : At Terminal) : Prop := {
  fa_bytes : received (acts s) = shown (acts s) ++ remaining_bytes (output (here s));
  fa_buffer : erased (output (here s));
}.

Lemma length_zeros n : length (zeros n) = n.
Proof. apply length_replicate. Qed.

Lemma erased_length o : erased o → length (buffer o) = TERMINAL_BUFFER_CAPACITY ∧
  length (remaining_bytes o) = (po_length o - po_offset o)%nat.
Proof.
  intros (Hb & Hlen & Hc & Ho). split; [done|].
  unfold remaining_bytes. rewrite length_take, length_drop. lia.
Qed.

Lemma take_zeros n m : take n (zeros m) = zeros (n `min` m).
Proof. unfold zeros. by rewrite take_replicate. Qed.
Lemma drop_zeros n m : drop n (zeros m) = zeros (m - n).
Proof. unfold zeros. by rewrite drop_replicate. Qed.
Lemma zeros_app n m : zeros n ++ zeros m = zeros (n + m).
Proof. unfold zeros. by rewrite replicate_add. Qed.

(** A buffer laid out as [erased] says has the remaining bytes it shows. *)
Lemma remaining_layout off data len :
  length data = (len - off)%nat → (len <= TERMINAL_BUFFER_CAPACITY)%nat →
  remaining_bytes (mkOutput (zeros off ++ data ++ zeros (TERMINAL_BUFFER_CAPACITY - len)) len off) = data.
Proof.
  intros Hd Hl. unfold remaining_bytes. cbn.
  rewrite drop_app_length' by by rewrite length_zeros. rewrite <- Hd. apply take_app_length.
Qed.

Lemma erased_layout off data len :
  length data = (len - off)%nat → (len <= TERMINAL_BUFFER_CAPACITY)%nat →
  (off < len ∨ off = 0 ∧ len = 0)%nat →
  erased (mkOutput (zeros off ++ data ++ zeros (TERMINAL_BUFFER_CAPACITY - len)) len off).
Proof.
  intros Hd Hl Ho. split; [cbn [buffer po_offset po_length]; by rewrite remaining_layout|]. split; [|done].
  cbn. rewrite !length_app, !length_zeros. lia.
Qed.

Lemma erased_new : erased output_new.
Proof.
  assert (output_new = mkOutput (zeros 0 ++ [] ++ zeros (TERMINAL_BUFFER_CAPACITY - 0)) 0 0) as ->.
  { unfold output_new. by rewrite Nat.sub_0_r. }
  apply erased_layout; cbn; auto with lia.
Qed.

Lemma drained_remaining o : erased o → is_pending o = false →
  remaining_bytes o = [] ∧ po_length o = 0%nat ∧ po_offset o = 0%nat.
Proof.
  intros (_ & _ & _ & [H|[H1 H2]]) Hp; unfold is_pending in Hp; apply Nat.ltb_ge in Hp; [lia|].
  unfold remaining_bytes. by rewrite H1, H2.
Qed.

Lemma erased_cleared o : erased o → is_pending o = false →
  erased (mkOutput (zeros (length (buffer o))) (po_length o) (po_offset o)) ∧
  remaining_bytes (mkOutput (zeros (length (buffer o))) (po_length o) (po_offset o)) = [].
Proof.
  intros He Hp. destruct (erased_length _ He) as [-> _].
  destruct (drained_remaining _ He Hp) as (_ & -> & ->). split; [apply erased_new|done].
Qed.

(** One read of a drained output: what was delivered is exactly what then
    remains. *)
Lemma read_from_spec answer o r o' : erased o → is_pending o = false → read_from answer o = (r, o') →
  erased o' ∧ remaining_bytes o' = delivered answer ∧ (r = Some Pr_Data ↔ delivered answer ≠ []).
Proof.
  intros He Hp. unfold read_from. rewrite Hp.
  destruct (erased_cleared o He Hp) as [Hc Hr]. destruct (erased_length _ He) as [Hcap _].
  unfold delivered. destruct answer as [b| | |]; try (intros [= <- <-]; by rewrite Hr).
  rewrite <- Hcap.
  destruct (take (length (buffer o)) b) as [|x data] eqn:Hb; intros [= <- <-]; [by rewrite Hr|].
  rewrite Hcap in *.
  assert (length (x :: data) <= TERMINAL_BUFFER_CAPACITY)%nat as Hlen.
  { rewrite <- Hb, length_take. lia. }
  change (mkOutput _ (S (length data)) 0) with (mkOutput (zeros 0 ++ (x :: data)
    ++ zeros (TERMINAL_BUFFER_CAPACITY - length (x :: data))) (length (x :: data)) 0).
  rewrite remaining_layout by (done || by rewrite Nat.sub_0_r).
  split; [|done]. apply erased_layout; [by rewrite Nat.sub_0_r|done|left; cbn; lia].
Qed.

(** One write: the shown bytes are the first of what remained, and are erased. *)
Lemma try_write_spec answer o r o' : erased o → try_write_to answer o = (r, o') →
  erased o' ∧
  match r, answer with
  | Some (Complete_ | Progress _ _), Tw_Accept n =>
      remaining_bytes o = take n (remaining_bytes o) ++ remaining_bytes o' ∧
      take n (remaining_bytes o) ≠ [] ∧
      (r = Some Complete_ → is_pending o' = false) ∧ (r ≠ Some Complete_ → is_pending o' = true)
  | Some (Complete_ | Progress _ _), _ => False
  | _, _ => o' = o
  end.
Proof.
  intros He. unfold try_write_to. destruct (is_pending o) eqn:Hp; cbn [negb]; [|by intros [= <- <-]].
  destruct answer as [n| | |]; try (by intros [= <- <-]).
  unfold record_write. destruct (Nat.eqb_spec n 0) as [|Hn0]; [by intros [= <- <-]|].
  destruct (Nat.ltb_spec (po_length o - po_offset o) n) as [|Hn]; [by intros [= <- <-]|]. cbn [orb].
  destruct (erased_length _ He) as [_ Hlen]. destruct He as (Hb & _ & Hc & Ho).
  unfold is_pending in Hp. apply Nat.ltb_lt in Hp.
  assert (zeroize (po_offset o) (po_offset o + n) (buffer o) =
    zeros (po_offset o + n) ++ drop n (remaining_bytes o) ++ zeros (TERMINAL_BUFFER_CAPACITY - po_length o))
    as Hz.
  { unfold zeroize. rewrite Hb at 1 2.
    rewrite take_app_length' by by rewrite length_zeros.
    rewrite <- drop_drop, drop_app_length' by by rewrite length_zeros.
    rewrite drop_app_le by lia. rewrite app_assoc, zeros_app. do 2 f_equal. lia. }
  rewrite Hz. set (rest := drop n (remaining_bytes o)).
  assert (length rest = (po_length o - (po_offset o + n))%nat) as Hrest.
  { unfold rest. rewrite length_drop. lia. }
  assert (take n (remaining_bytes o) ≠ []) as Hne.
  { intros H0. apply (f_equal length) in H0. rewrite length_take in H0. cbn in H0. lia. }
  destruct (Nat.eqb_spec (po_offset o + n) (po_length o)) as [Heq|Hneq]; intros [= <- <-].
  - assert (rest = []) as Hnil by (apply length_zero_iff_nil; lia).
    rewrite Hnil. cbn [app].
    assert (zeros (po_offset o + n) ++ zeros (TERMINAL_BUFFER_CAPACITY - po_length o)
      = zeros TERMINAL_BUFFER_CAPACITY) as ->.
    { rewrite zeros_app. f_equal. lia. }
    split; [apply erased_new|]. split_and!; try done.
    rewrite <- (take_drop n (remaining_bytes o)) at 1. fold rest. by rewrite Hnil.
  - split; [apply erased_layout; lia|]. split_and!; try done.
    + rewrite remaining_layout by lia. unfold rest. by rewrite take_drop.
    + intros _. unfold is_pending. cbn. apply Nat.ltb_lt. lia.
Qed.

(** ** A turn of the output pump *)

Section pump.
Context {E : Environment}.

Definition settled (p : CoordinatorPumpProgress) (s : At Terminal) : Prop :=
  faithful s ∧ is_pending (output (here s)) = bool_decide (p = Cp_OutputPending).

(** Steps that touch neither the buffer nor the ends. *)
Definition aside {A} (m : TM Terminal A) : Prop :=
  ∀ s, output (here (m s).2) = output (here s) ∧ acts (m s).2 = acts s.

Lemma faithful_aside s s' : output (here s') = output (here s) → acts s' = acts s →
  faithful s → faithful s'.
Proof. intros Ho Ha [B U]. split; by rewrite ?Ho, ?Ha. Qed.

Lemma triple_aside {A} (P : bool → Prop) (m : TM Terminal A) : aside m →
  triple (fun s => faithful s ∧ P (is_pending (output (here s)))) m
    (fun _ s => faithful s ∧ P (is_pending (output (here s)))) faithful.
Proof.
  intros Hm s [Hs Hp]. destruct (Hm s) as [Ho Ha].
  destruct (m s) as [[a|e] s']; cbn in *; [split; [|by rewrite Ho]|];
    by eapply faithful_aside.
Qed.

Lemma aside_ask {A} (f : nat → A) : aside (ask f : TM Terminal A).
Proof. done. Qed.
Lemma aside_ok_or {A} (o : option A) e : aside (ok_or_fail o e : TM Terminal A).
Proof. intros s. by destruct o. Qed.
Lemma aside_stall d : aside (update (set_stall d) : TM Terminal ()).
Proof. done. Qed.
Lemma aside_closed : aside (update set_closed : TM Terminal ()).
Proof. done. Qed.

Lemma pending_remaining o : erased o → is_pending o = negb (bool_decide (remaining_bytes o = [])).
Proof.
  intros He. destruct (erased_length _ He) as [_ Hl]. unfold is_pending.
  case_bool_decide as Hr; cbn.
  - apply Nat.ltb_ge. rewrite Hr in Hl. cbn in Hl. lia.
  - apply Nat.ltb_lt. destruct (Nat.lt_ge_cases (po_offset o) (po_length o)) as [|Hge]; [done|].
    destruct Hr. apply length_zero_iff_nil. lia.
Qed.

Lemma deliver_run {F} act answer (s : At Terminal) :
  @deliver Terminal F act answer s =
  (Ok (), mkAt (here s) (step s) (acts s ++ match delivered answer with [] => [] | b => [act b] end)).
Proof.
  unfold deliver. destruct (delivered answer); [|done]. rewrite app_nil_r. by destruct s.
Qed.
Lemma received_delivered answer :
  received (match delivered answer with [] => [] | b => [Ta_Received b] end) = delivered answer.
Proof. destruct (delivered answer) as [|x b] eqn:H; [done|]. cbn. by rewrite app_nil_r. Qed.
Lemma shown_delivered answer :
  shown (match delivered answer with [] => [] | b => [Ta_Received b] end) = [].
Proof. by destruct (delivered answer). Qed.

Lemma read_output_faithful :
  triple (fun s => faithful s ∧ is_pending (output (here s)) = false) read_output
    (fun r s => faithful s ∧
       is_pending (output (here s)) = match r with Pr_Data => true | _ => false end) faithful.
Proof.
  intros s [[B U] Hp]. unfold read_output, ask, update, ok_or_fail, term_fail. run_st.
  cbn [here step acts]. rewrite Hp, deliver_run. cbn [here step acts].
  destruct (drained_remaining _ U Hp) as (Hrem & _ & _).
  destruct (read_from _ _) as [r o] eqn:Hr.
  pose proof (read_from_spec _ _ _ _ U Hp Hr) as (He & Ho & Hd). rewrite Hrem, app_nil_r in B.
  match goal with |- context [mkAt _ _ ?l] => set (log := l) end.
  assert (faithful (mkAt (set_output o (here s)) (S (step s)) log)) as Hf.
  { unfold log. split; cbn [here acts output set_output]; [|done].
    by rewrite received_app, shown_app, B, received_delivered, shown_delivered, app_nil_r, Ho. }
  pose proof (pending_remaining _ He) as Hpend. rewrite Ho in Hpend.
  destruct r as [[]|]; try done; split; try done; cbn [here output set_output]; rewrite Hpend.
  - rewrite bool_decide_false by (by apply Hd). done.
  - rewrite bool_decide_true; [done|].
    destruct (decide (delivered (channel_read (step s)) = [])) as [|Hne]; [done|]. by apply Hd in Hne.
  - rewrite bool_decide_true; [done|].
    destruct (decide (delivered (channel_read (step s)) = [])) as [|Hne]; [done|]. by apply Hd in Hne.
Qed.

Lemma write_output_faithful :
  triple (fun s => faithful s ∧ is_pending (output (here s)) = true) write_output
    (fun r s => faithful s ∧
       is_pending (output (here s)) = match r with Complete_ => false | _ => true end) faithful.
Proof.
  intros s [[B U] Hp]. unfold write_output, ask, update, did, ok_or_fail, term_fail. run_st.
  cbn [here step acts]. set (answer := tty_write (step s)).
  destruct (try_write_to answer _) as [r o] eqn:Hr.
  pose proof (try_write_spec _ _ _ _ U Hr) as [He H].
  destruct r as [[|w m|]|]; [destruct answer as [n| | |]; try done|destruct answer as [n| | |]; try done|..].
  - destruct H as (Hrem & Hne & Hd & _). destruct (take n _) as [|x shown_] eqn:Ht; [done|].
    cbn [here step acts]. split; [|by apply Hd]. split; cbn [here acts output set_output]; [|done].
    rewrite received_app, shown_app, B, Hrem. cbn. by rewrite !app_nil_r, <- app_assoc.
  - destruct H as (Hrem & Hne & _ & Hd). destruct (take n _) as [|x shown_] eqn:Ht; [done|].
    cbn [here step acts]. split; [|by apply Hd]. split; cbn [here acts output set_output]; [|done].
    rewrite received_app, shown_app, B, Hrem. cbn. by rewrite !app_nil_r, <- app_assoc.
  - subst o. split; [by split|done].
  - subst o. by split.
Qed.

Lemma triple_term_fail {A} P e (Q : A → At Terminal → Prop) :
  (∀ s, P s → faithful s) → triple P (term_fail e) Q faithful.
Proof. intros HP s Hs. by apply HP. Qed.

Lemma flush_settled stall outer :
  triple (fun s => faithful s ∧ is_pending (output (here s)) = true) (flush_output_once stall outer)
    settled faithful.
Proof.
  unfold flush_output_once.
  eapply triple_bind; [apply (triple_aside (fun b => b = true)); intros s'; by split|].
  intros s. eapply triple_bind; [apply (triple_aside (fun b => b = true)), aside_ok_or|].
  intros deadline. eapply triple_bind; [apply (triple_aside (fun b => b = true)), aside_ask|].
  intros observed. case_match; [apply triple_term_fail; by intros ? []|].
  eapply triple_bind; [apply write_output_faithful|]. intros [|w m|].
  - eapply triple_bind; [apply (triple_aside (fun b => b = false)), aside_stall|].
    intros []. apply triple_ret. intros s' [? ?]. by split.
  - eapply triple_bind; [apply (triple_aside (fun b => b = true)), aside_ask|]. intros observed'.
    eapply triple_bind; [apply (triple_aside (fun b => b = true)), aside_ok_or|]. intros local.
    eapply triple_bind; [apply (triple_aside (fun b => b = true)), aside_stall|]. intros [].
    case_match; [apply triple_term_fail; by intros ? []|].
    apply triple_ret. intros s' [? ?]. by split.
  - apply triple_ret. intros s' [? ?]. by split.
Qed.

Lemma pump_settled stall outer :
  triple faithful (terminal_pump_output_once stall outer) settled faithful.
Proof.
  unfold terminal_pump_output_once, pump_output_state_once. case_match; [by apply triple_term_fail|].
  eapply (triple_bind _ _ _ (fun _ => faithful)).
  { intros s Hs. by apply (faithful_aside s). }
  intros observed. eapply (triple_bind _ _ _ (fun s0 s => s0 = s ∧ faithful s)).
  { by apply triple_get. }
  intros s0. destruct (is_pending (output (here s0))) eqn:Hp.
  - apply triple_pre with (P' := fun s => faithful s ∧ is_pending (output (here s)) = true);
      [|by intros s [-> ?]].
    eapply triple_bind; [apply (triple_aside (fun b => b = true)), aside_ok_or|].
    intros deadline. case_match; [apply triple_term_fail; by intros ? []|apply flush_settled].
  - apply triple_pre with (P' := fun s => faithful s ∧ is_pending (output (here s)) = false);
      [|by intros s [-> ?]].
    case_match; [apply triple_term_fail; by intros ? []|]. case_match.
    { apply triple_ret. intros s [? ?]. by split. }
    eapply triple_bind; [apply read_output_faithful|]. intros [].
    + eapply triple_bind; [apply (triple_aside (fun b => b = true)), aside_ask|]. intros observed'.
      eapply triple_bind; [apply (triple_aside (fun b => b = true)), aside_ok_or|]. intros local.
      eapply triple_bind; [apply (triple_aside (fun b => b = true)), aside_stall|]. intros [].
      case_match; [apply triple_term_fail; by intros ? []|apply flush_settled].
    + eapply triple_bind; [apply (triple_aside (fun b => b = false)), aside_closed|]. intros [].
      apply triple_ret. intros s [? ?]. by split.
    + apply triple_ret. intros s [? ?]. by split.
Qed.
End pump.

(** ** A turn of the input pump *)

Definition sent (l : list tty_act) : bytes :=
  concat (omap (fun a => match a with Ta_Sent b => Some b | _ => None end) l).
Definition typed (l : list tty_act) : bytes :=
  concat (omap (fun a => match a with Ta_Typed b => Some b | _ => None end) l).
Lemma sent_app l1 l2 : sent (l1 ++ l2) = sent l1 ++ sent l2.
Proof. unfold sent. by rewrite omap_app, concat_app. Qed.

Section input.
Context {E : Environment}.

Lemma channel_try_write_sent n chunk s :
  let '(r, s') := channel_try_write n chunk s in
  ∃ l, acts s' = acts s ++ l ∧ typed l = [] ∧
    match r with Ok (Some rest) => chunk = sent l ++ rest | _ => sent l = [] end.
Proof.
  revert s. induction n as [|n IH]; intros s; cbn [channel_try_write].
  { exists []. by rewrite app_nil_r. }
  unfold ask, did, term_fail. run_st. cbn [here step acts].
  destruct (channel_write (step s)) as [k| | |]; try (exists []; by rewrite app_nil_r).
  - destruct (_ || _); [exists []; by rewrite app_nil_r|]. cbn [acts].
    exists [Ta_Sent (take k chunk)]. split_and!; try done. cbn. by rewrite app_nil_r, take_drop.
  - apply (IH (mkAt (here s) (S (step s)) (acts s))).
Qed.

Lemma write_fragment_sent n deadline chunk s :
  let '(r, s') := write_fragment_before n deadline chunk s in
  ∃ l rest, acts s' = acts s ++ l ∧ typed l = [] ∧ chunk = sent l ++ rest ∧
    (r = Ok () → rest = []).
Proof.
  revert chunk s. induction n as [|n IH]; intros chunk s.
  { destruct chunk as [|b chunk]; cbn; [by exists [], []; rewrite app_nil_r|].
    exists [], (b :: chunk). by rewrite app_nil_r. }
  destruct chunk as [|b chunk]; cbn [write_fragment_before]; [by exists [], []; rewrite app_nil_r|].
  set (whole := b :: chunk). unfold ask, term_fail. run_st. cbn [here step acts].
  destruct (deadline <=? now (step s)); [exists [], whole; by rewrite app_nil_r|].
  match goal with |- context [channel_try_write ?m ?c ?x] => pose proof (channel_try_write_sent m c x) as Hw;
    destruct (channel_try_write m c x) as [[[rest|]|x'] s1] end; cbn [acts] in Hw; destruct Hw as (l1 & Ha & Ht & Hs).
  - specialize (IH rest s1). destruct (write_fragment_before n deadline rest s1) as [r s2].
    destruct IH as (l2 & rest2 & Ha2 & Ht2 & Hr2 & Hok). exists (l1 ++ l2), rest2.
    rewrite Ha2, Ha, <- app_assoc, sent_app, <- app_assoc, Hs, Hr2. split_and!; try done.
    unfold typed in *. by rewrite omap_app, concat_app, Ht, Ht2.
  - destruct (deadline <=? _); [exists l1, whole; by rewrite Hs|].
    match goal with |- context [write_fragment_before n deadline whole ?x] => specialize (IH whole x);
      destruct (write_fragment_before n deadline whole x) as [r s2] end. cbn [acts] in IH.
    destruct IH as (l2 & rest2 & Ha2 & Ht2 & Hr2 & Hok). exists (l1 ++ l2), rest2.
    rewrite Ha2, Ha, <- app_assoc, sent_app, Hs. split_and!; try done.
    unfold typed in *. by rewrite omap_app, concat_app, Ht, Ht2.
  - exists l1, whole. by rewrite Hs.
Qed.

(** What the terminal delivered is what the turn is given. *)
Lemma tty_read_into_acts n s :
  let '(r, s') := tty_read_into n s in
  ∃ l, acts s' = acts s ++ l ∧ sent l = [] ∧
    match r with Ok (Some b) => typed l = b | _ => typed l = [] end.
Proof.
  revert s. induction n as [|n IH]; intros s; cbn [tty_read_into]; [exists []; by rewrite app_nil_r|].
  unfold ask, term_fail. run_st. destruct (tty_read (step s)) as [b| | |] eqn:Hr;
    try (exists []; by rewrite app_nil_r); [|apply (IH (mkAt (here s) (S (step s)) (acts s)))].
  rewrite deliver_run. cbn [here step acts]. unfold delivered.
  destruct (take TERMINAL_BUFFER_CAPACITY b) as [|x data]; [by exists []|].
  exists [Ta_Typed (x :: data)]. split_and!; try done. cbn. by rewrite app_nil_r.
Qed.

Lemma typed_app l1 l2 : typed (l1 ++ l2) = typed l1 ++ typed l2.
Proof. unfold typed. by rewrite omap_app, concat_app. Qed.

Lemma pump_input_sent n deadline s :
  let '(r, s') := terminal_pump_input_once n deadline s in
  ∃ l rest, acts s' = acts s ++ l ∧ typed l = sent l ++ rest ∧ (is_ok r = true → rest = []).
Proof.
  unfold terminal_pump_input_once, ask, term_fail. run_st. cbn [here step acts].
  destruct (deadline <=? _); [exists [], []; by rewrite app_nil_r|].
  match goal with |- context [tty_read_into n ?x] => pose proof (tty_read_into_acts n x) as Ha;
    destruct (tty_read_into n x) as [[[[|b chunk]|]|e] s1] end; cbn [acts] in Ha;
    destruct Ha as (l1 & Ha & Hs1 & Ht1); try (exists l1, []; by rewrite Ht1, Hs1).
  match goal with |- context [write_fragment_before n deadline ?c ?x] =>
    pose proof (write_fragment_sent n deadline c x) as Hw;
    destruct (write_fragment_before n deadline c x) as [r s2] end.
  destruct Hw as (l & rest & Ha2 & Ht & Hs & Hok).
  destruct r as [[]|e]; exists (l1 ++ l), rest;
    rewrite Ha2, Ha, <- app_assoc, typed_app, sent_app, Ht1, Ht, Hs1, app_nil_r; split_and!; try done.
  intros _. by apply Hok.
Qed.
End input.

(** * The properties *)

(** The output pump run for a sequence of turns, each with its stall timeout
    and outer deadline, whatever each turn returns. *)
Definition run_turns `{Environment} (turns : list (Z * Z)) (s : At Terminal) : At Terminal :=
  fold_left (fun s p => (terminal_pump_output_once p.1 p.2 s).2) turns s.

(** C15. Terminal bytes: along any sequence of output turns - partial writes,
    stalls, interruptions, deadlines and failures included - the bytes received
    from the guardian are the bytes shown followed by the bytes pending, so
    none is lost, duplicated or reordered; the fixed buffer holds nothing but
    the pending bytes; a turn reports pending output exactly when some is
    pending. An input turn sends a prefix of the bytes typed, and all of them
    when it succeeds. *)
Theorem terminal_integrity `{E : Environment} fingerprint turns n :
  let s := run_turns turns (mkAt (mkTerminal fingerprint output_new None false) n []) in
  received (acts s) = shown (acts s) ++ remaining_bytes (output (here s)) ∧
  erased (output (here s)) ∧
  (∀ stall outer p s', terminal_pump_output_once stall outer s = (Ok p, s') →
     is_pending (output (here s')) = bool_decide (p = Cp_OutputPending)) ∧
  (∀ fuel deadline r s', terminal_pump_input_once fuel deadline s = (r, s') →
     ∃ l rest, acts s' = acts s ++ l ∧ typed l = sent l ++ rest ∧ (is_ok r = true → rest = [])).
Proof.
  cbn. set (start := mkAt _ n []). assert (faithful (run_turns turns start)) as Hf.
  { assert (faithful start) as H0 by (split; [done|apply erased_new]). revert H0.
    generalize start. induction turns as [|[stall outer] turns IH]; intros s Hs; [done|].
    cbn. apply IH. pose proof (pump_settled stall outer s Hs) as H.
    destruct (terminal_pump_output_once stall outer s) as [[p|e] s']; [apply H|done]. }
  destruct Hf as [B U]. split_and!; try done.
  - intros stall outer p s' Hp.
    destruct (triple_run _ _ _ _ _ _ _ (pump_settled stall outer) (Build_faithful _ B U) Hp) as [_ Hd].
    done.
  - intros fuel deadline r s' Hp. pose proof (pump_input_sent fuel deadline (run_turns turns start)) as H.
    by rewrite Hp in H.
Qed.
