(* ===== verification/CoordinatorDrive.v ===== *)
(** * The coordinator's drive
    (src/providers/codex/supervisor/coordinator.rs, [ProductionCoordinator],
    the latches of signals.rs and the exit status of entry.rs)

    The drive composes the coordinator's end of the lifecycle channel, the
    outer terminal, the signal latches and the guardian process. The state also
    has the history of what the drive did, which nothing reads. Every loop is
    bounded by [fuel]. *)
From S2P Require Import Prelude Interfaces Wire Lifecycle Receivers CoordinatorTerminal.

Open Scope Z_scope.

(** ** Signal latches *)

Inductive CoordinatorSignalAction :=
| Ac_Forward (signal : UnixSignal) | Ac_Resize | Ac_Suspend | Ac_Continue.

Record CoordinatorSignalLatches := mkLatches {
  hup : bool; interrupt : bool; quit : bool; term : bool;
  winch : bool; tstp : bool; cont : bool;
  frozen : bool;
}.
Inductive Latch := La_hup | La_interrupt | La_quit | La_term | La_winch | La_tstp | La_cont.
Definition latch (l : Latch) (s : CoordinatorSignalLatches) : bool :=
  match l with
  | La_hup => hup s | La_interrupt => interrupt s | La_quit => quit s | La_term => term s
  | La_winch => winch s | La_tstp => tstp s | La_cont => cont s
  end.
(** The bit is cleared. *)
Definition clear (l : Latch) (s : CoordinatorSignalLatches) : CoordinatorSignalLatches :=
  let keep x b := match l, x with
    | La_hup, La_hup | La_interrupt, La_interrupt | La_quit, La_quit | La_term, La_term
    | La_winch, La_winch | La_tstp, La_tstp | La_cont, La_cont => false
    | _, _ => b
    end in
  mkLatches (keep La_hup (hup s)) (keep La_interrupt (interrupt s)) (keep La_quit (quit s))
    (keep La_term (term s)) (keep La_winch (winch s)) (keep La_tstp (tstp s))
    (keep La_cont (cont s)) (frozen s).
Definition freeze_for_shutdown (s : CoordinatorSignalLatches) : CoordinatorSignalLatches :=
  mkLatches (hup s) (interrupt s) (quit s) (term s) (winch s) (tstp s) (cont s) true.
Definition no_signals : CoordinatorSignalLatches :=
  mkLatches false false false false false false false false.

(** The priority of an active and of a suspended session. *)
Definition active_priority : list (Latch * CoordinatorSignalAction) :=
  [(La_hup, Ac_Forward Hup); (La_term, Ac_Forward Term); (La_tstp, Ac_Suspend);
   (La_interrupt, Ac_Forward Int); (La_quit, Ac_Forward Quit); (La_winch, Ac_Resize)].
Definition suspended_priority : list (Latch * CoordinatorSignalAction) :=
  [(La_hup, Ac_Forward Hup); (La_term, Ac_Forward Term); (La_interrupt, Ac_Forward Int);
   (La_quit, Ac_Forward Quit); (La_cont, Ac_Continue)].

(** ** The coordinator *)

Record CoordinatorBounds := mkBounds {
  phase_timeout : Z;
  poll_interval : Z;
  output_stall_timeout : Z;
}.

(** The history: protocol messages, the terminal, and the process stop. *)
Inductive act :=
| Act_Event (e : GuardianEvent)
| Act_Command (c : CoordinatorCommand)
| Act_Tty (a : tty_act)
| Act_Stopped.

Record ProductionCoordinator := mkProduction {
  lifecycle : CoordinatorReceiver;
  terminal : option Owner;
  signals : CoordinatorSignalLatches;
  guardian_status : option ExitStatus;
  session_failed : bool;
  steps : nat;
  history : list act;
}.
Definition set_lifecycle l d :=
  mkProduction l (terminal d) (signals d) (guardian_status d) (session_failed d) (steps d) (history d).
Definition set_terminal t d :=
  mkProduction (lifecycle d) t (signals d) (guardian_status d) (session_failed d) (steps d) (history d).
Definition set_signals s d :=
  mkProduction (lifecycle d) (terminal d) s (guardian_status d) (session_failed d) (steps d) (history d).
Definition set_guardian_status s d :=
  mkProduction (lifecycle d) (terminal d) (signals d) s (session_failed d) (steps d) (history d).
Definition set_session_failed d :=
  mkProduction (lifecycle d) (terminal d) (signals d) (guardian_status d) true (steps d) (history d).
Definition set_steps n d :=
  mkProduction (lifecycle d) (terminal d) (signals d) (guardian_status d) (session_failed d) n (history d).
Definition add_history l d :=
  mkProduction (lifecycle d) (terminal d) (signals d) (guardian_status d) (session_failed d) (steps d)
    (history d ++ l).

(** [assemble_inner], once the wire's timeouts and the handlers are installed. *)
Definition assemble (wire : Channel) (t : Terminal) : ProductionCoordinator :=
  mkProduction (coordinator_new_terminal wire) (Some (Live Tm_OutputOnly t)) no_signals None false 0 [].

Record CoordinatorTerminalReport := mkReport {
  rp_app : ChildDisposition;
  rp_tui : ChildDisposition;
  rp_worker : WorkerJoinStatus;
  rp_cleanup : CleanupStatus;
  rp_session : SessionStatus;
  rp_guardian_exit : GuardianExitDisposition;
}.
Inductive BootstrapOutcome := Bo_Ready | Bo_Failed.
Inductive GateOutcome := Go_Open | Go_Failed.
Inductive ActiveOutcome := Ao_Quiesced | Ao_Failed.
Inductive ControlOutcome := Co_Continue | Co_Shutdown | Co_Quiesced | Co_Failed.

Abbreviation DM := (stM ProductionCoordinator (looping CoordinatorDriveError)).

Definition classify_protocol_error (e : ProtocolError) : CoordinatorDriveError :=
  match e with
  | Timeout => De_Deadline
  | UnexpectedEof | TruncatedHeader | TruncatedBody | Io => De_Lifecycle
  | _ => De_Protocol
  end.

Definition guardian_status_matches (status : ExitStatus) (disposition : GuardianExitDisposition) : bool :=
  match disposition with
  | Ge_Code code => bool_decide (status = Es_Code code)
  | Ge_Signal signal => bool_decide (status = Es_Signal signal)
  | Ge_UsageExhausted => bool_decide (status = Es_Code USAGE_EXHAUSTED_EXIT_CODE)
  | Ge_InternalFailure => bool_decide (status = Es_Code 1)
  end.

(** An operation of the receiver; both sides read the same clock. *)
Definition on_lifecycle {A} (m : CR A) : DM A := fun d =>
  let wire := cr_reader (lifecycle d) in
  let r := cr_set_reader (mkChannel (rx wire) (wx wire) (fx wire) (tx wire) (steps d)) (lifecycle d) in
  let '(a, r) := m r in
  (map_err (Failure ∘ classify_protocol_error) a,
   set_steps (ticks (cr_reader r)) (set_lifecycle r d)).
Definition query {A} (f : nat → A) : DM A := fun d => (Ok (f (steps d)), set_steps (S (steps d)) d).
Definition did_act (a : act) : DM () := modify_st (add_history [a]).

(** [let owner = self.terminal.take().ok_or(Protocol)?], the operation, and
    the owner put back whatever the outcome. *)
Definition with_owner {A} (m : OM A) : DM A := fun d =>
  match terminal d with
  | None => (Err (Failure De_Protocol), d)
  | Some owner =>
      let '(a, s) := m (mkAt owner (steps d) []) in
      (a, add_history (Act_Tty <$> acts s) (set_steps (step s) (set_terminal (Some (here s)) d)))
  end.
Definition transition_terminal (m : OM ()) : DM () := with_owner m.

Section drive.
Context {E : Environment} (bounds : CoordinatorBounds) (fuel : nat).

(** [CoordinatorBounds::new]; [None] is the setup error [Deadline]. *)
Definition bounds_new (phase poll stall : Z) (n : nat) : option CoordinatorBounds :=
  if (phase =? 0) || (poll =? 0) || (stall =? 0) || (phase <? poll) || (stall <=? poll)
     || (phase <=? stall)
     || bool_decide (instant_add (now n) phase = None)
     || bool_decide (instant_add (now (S n)) stall = None)
  then None else Some (mkBounds phase poll stall).

Definition phase_deadline : DM Z :=
  observed ← query now;
  match instant_add observed (phase_timeout bounds) with
  | Some deadline => mret deadline
  | None => drive_fail De_Deadline
  end.
Definition turn_deadline (outer : Z) : DM Z :=
  observed ← query now;
  match instant_add observed (poll_interval bounds) with
  | Some local => mret (Z.min local outer)
  | None => drive_fail De_Deadline
  end.

(** [CoordinatorLifecycle::receive] and [command]. *)
Definition lifecycle_receive (deadline : Z) : DM GuardianEvent :=
  event ← on_lifecycle (coordinator_receive now deadline);
  _ ← did_act (Act_Event event);
  mret event.
Definition command (c : CoordinatorCommand) : DM () :=
  deadline ← phase_deadline;
  _ ← on_lifecycle (coordinator_record_and_send now c deadline);
  did_act (Act_Command c).

(** [lifecycle_descriptor_readable]. *)
Fixpoint lifecycle_descriptor_readable (n : nat) (deadline : Z) : DM bool :=
  match n with
  | O => throw OutOfFuel
  | S n =>
      _ ← query now;
      answer ← query poll;
      match answer with
      | Po_None => mret false
      | Po_Error => drive_fail De_Lifecycle
      | Po_Readable => mret true
      | Po_Other => mret false
      | Po_Interrupted =>
          observed ← query now;
          if observed <? deadline then lifecycle_descriptor_readable n deadline else mret false
      | Po_Failed => drive_fail De_Lifecycle
      end
  end.
Definition lifecycle_readable (deadline : Z) : DM bool := lifecycle_descriptor_readable fuel deadline.

Definition ensure_guardian_live : DM () :=
  d ← get_st;
  if guardian_status d is Some _ then drive_fail De_Guardian
  else
    answer ← query try_wait;
    match answer with
    | Ok (Some status) =>
        _ ← modify_st (set_guardian_status (Some status));
        drive_fail De_Guardian
    | Ok None => mret ()
    | Err _ => drive_fail De_Guardian
    end.

Definition pump_output_before (outer_deadline : Z) : DM () :=
  observed ← query now;
  _ ← with_owner (pump_output_with_exact_owner observed outer_deadline (output_stall_timeout bounds));
  mret ().

Definition pump_input (deadline : Z) : DM () :=
  _ ← with_owner (map_terminal (owner_pump_input_once fuel deadline));
  mret ().

Fixpoint drain_output (n : nat) (deadline : Z) : DM () :=
  match n with
  | O => throw OutOfFuel
  | S n =>
      observed ← query now;
      progress ← with_owner
        (pump_output_with_exact_owner observed deadline (output_stall_timeout bounds));
      match progress with
      | Cp_Idle | Cp_OutputClosed => mret ()
      | _ => drain_output n deadline
      end
  end.

Fixpoint receive_with_output (n : nat) (deadline : Z) : DM GuardianEvent :=
  match n with
  | O => throw OutOfFuel
  | S n =>
      _ ← pump_output_before deadline;
      turn ← turn_deadline deadline;
      readable ← lifecycle_readable turn;
      if readable : bool then lifecycle_receive deadline
      else
        _ ← ensure_guardian_live;
        receive_with_output n deadline
  end.
(** [self.receive_with_output(self.bounds.phase_deadline()?)?]. *)
Definition next_event : DM GuardianEvent :=
  deadline ← phase_deadline;
  receive_with_output fuel deadline.

Definition receive_without_terminal_pump : DM GuardianEvent :=
  deadline ← phase_deadline;
  observed ← query now;
  if deadline <=? observed then drive_fail De_Deadline else lifecycle_receive deadline.

Definition current_terminal_size : DM (Z * Z) := with_owner current_size.

(** A proof taken from the receiver. *)
Definition take_proof {A} (m : CR A) : DM A := on_lifecycle m.

(** *** The bootstrap *)

Record DescriptorIsolationObservationFailure := mkObservationFailure {
  stage : DescriptorIsolationObservationStage;
  scan_error : ProcessGroupDescriptorScanError;
  retryable_target_failure : bool;
}.
Definition retryable_macos_target_identity_observation
    (reason : option MacosDescriptorObservationReason) : bool :=
  match reason with
  | Some (Mac_VnodeIdentityUnavailable | Mac_SocketIdentityUnavailable
          | Mac_PipeIdentityUnavailable) => true
  | _ => false
  end.
Definition target_diagnostic (error : ProcessGroupDescriptorScanError)
    (macos_reason : option MacosDescriptorObservationReason) : DescriptorIsolationObservationFailure :=
  mkObservationFailure Stage_TargetProcessGroup error
    (bool_decide (error ∈ [Scan_DescriptorChanged; Scan_ProcessChanged])
     || retryable_macos_target_identity_observation macos_reason).
Definition observation (answer : ScanAnswer) : result DescriptorIsolationObservationFailure () :=
  match answer with
  | Sc_Absent => Ok ()
  | Sc_Source stage error => Err (mkObservationFailure stage error false)
  | Sc_Target error reason => Err (target_diagnostic error reason)
  end.
Definition retryable_target_observation (f : DescriptorIsolationObservationFailure) : bool :=
  retryable_target_failure f
  || bool_decide (stage f = Stage_TargetProcessGroup) && bool_decide (scan_error f = Scan_Deadline).

(** [Duration::from_millis(250)], in the unit of the clock. *)
Definition DESCRIPTOR_ISOLATION_SCAN_SLICE : Z := 250.

Inductive DescriptorIsolationRetryOutcome := Verified | LifecycleReadable.

(** [retry_descriptor_isolation_observation] with the closures of
    [verify_reported_child_descriptor_isolation]. *)
Fixpoint verify_reported_child_descriptor_isolation (n : nat) (deadline : Z)
    : DM DescriptorIsolationRetryOutcome :=
  match n with
  | O => throw OutOfFuel
  | S n =>
      observed ← query now;
      if deadline <=? observed then
        ready ← lifecycle_readable observed;
        if ready : bool then mret LifecycleReadable
        else drive_fail (De_DescriptorIsolation Scan_Deadline)
      else
        match instant_add observed DESCRIPTOR_ISOLATION_SCAN_SLICE with
        | None => drive_fail De_Deadline
        | Some _ =>
            answer ← query scan;
            _ ← ensure_guardian_live;
            match observation answer with
            | Ok _ => mret Verified
            | Err failure =>
                if negb (retryable_target_observation failure)
                then drive_fail (De_DescriptorIsolation (scan_error failure))
                else
                  observed ← query now;
                  if deadline <=? observed then
                    ready ← lifecycle_readable observed;
                    if ready : bool then mret LifecycleReadable
                    else drive_fail (De_DescriptorIsolation Scan_Deadline)
                  else
                    match instant_add observed (poll_interval bounds) with
                    | None => drive_fail De_Deadline
                    | Some candidate =>
                        _ ← pump_output_before deadline;
                        ready ← lifecycle_readable (Z.min candidate deadline);
                        if ready : bool then mret LifecycleReadable
                        else verify_reported_child_descriptor_isolation n deadline
                    end
            end
        end
  end.

Record PendingDescriptorIsolation := mkIsolation { process_group : Z; isolation_deadline : Z }.
Record BootstrapDescriptorGate := mkGate {
  gate_app : option PendingDescriptorIsolation;
  gate_tui : option PendingDescriptorIsolation;
  gate_ready : bool;
}.
Definition gate_insert (role : ChildRole) (p : PendingDescriptorIsolation) (g : BootstrapDescriptorGate)
    : option BootstrapDescriptorGate :=
  match role with
  | AppServer => if gate_app g is Some _ then None else Some (mkGate (Some p) (gate_tui g) (gate_ready g))
  | Tui => if gate_tui g is Some _ then None else Some (mkGate (gate_app g) (Some p) (gate_ready g))
  end.
Definition first_pending (g : BootstrapDescriptorGate) : option (ChildRole * PendingDescriptorIsolation) :=
  match gate_app g with
  | Some p => Some (AppServer, p)
  | None => (fun p => (Tui, p)) <$> gate_tui g
  end.
Definition gate_clear (role : ChildRole) (g : BootstrapDescriptorGate) : BootstrapDescriptorGate :=
  match role with
  | AppServer => mkGate None (gate_tui g) (gate_ready g)
  | Tui => mkGate (gate_app g) None (gate_ready g)
  end.

(** The loop of [bootstrap]. *)
Fixpoint bootstrap_loop (n : nat) (snapshot : TerminalSnapshotFingerprint) (gate : BootstrapDescriptorGate)
    : DM BootstrapOutcome :=
  match n with
  | O => throw OutOfFuel
  | S n =>
      let receive : DM BootstrapOutcome :=
        event ← next_event;
        match event with
        | TerminalArmed guardian_snapshot =>
            if bool_decide (snapshot = guardian_snapshot) then
              _ ← command TerminalArmAccepted;
              bootstrap_loop n snapshot gate
            else drive_fail De_Snapshot
        | ChildStarted role _ pgid =>
            deadline ← phase_deadline;
            match gate_insert role (mkIsolation pgid deadline) gate with
            | Some gate => bootstrap_loop n snapshot gate
            | None => drive_fail De_Protocol
            end
        | Ready =>
            _ ← take_proof take_verified_ready;
            bootstrap_loop n snapshot (mkGate (gate_app gate) (gate_tui gate) true)
        | Failed _ _ => mret Bo_Failed
        | _ => drive_fail De_Protocol
        end in
      match first_pending gate with
      | Some (role, pending) =>
          outcome ← verify_reported_child_descriptor_isolation fuel (isolation_deadline pending);
          match outcome with
          | Verified =>
              _ ← command (ChildDescriptorsVerified role);
              bootstrap_loop n snapshot (gate_clear role gate)
          | LifecycleReadable => receive
          end
      | None => if gate_ready gate then mret Bo_Ready else receive
      end
  end.

Definition bootstrap : DM BootstrapOutcome :=
  event ← next_event;
  if negb (bool_decide (event = LeaseCommitted)) then drive_fail De_Protocol
  else
    _ ← command Start;
    d ← get_st;
    match terminal d with
    | None => drive_fail De_Protocol
    | Some owner =>
        match snapshot_fingerprint owner with
        | None => drive_fail De_Protocol
        | Some snapshot => bootstrap_loop fuel snapshot (mkGate None None false)
        end
    end.
(** *** The session *)

Definition open_gate_with_output : DM GateOutcome :=
  _ ← command OpenInputGate;
  event ← next_event;
  match event with
  | InputGateOpened => _ ← take_proof take_verified_open_gate_ack; mret Go_Open
  | Failed _ _ => mret Go_Failed
  | _ => drive_fail De_Protocol
  end.

Definition forward_signal (signal : UnixSignal) : DM ControlOutcome :=
  _ ← command (Signal signal);
  event ← next_event;
  match event, signal with
  | SignalForwarded forwarded, _ =>
      if bool_decide (forwarded = signal) then
        match signal with Hup | Term => mret Co_Shutdown | Int | Quit => mret Co_Continue end
      else drive_fail De_Protocol
  | TerminalQuiesced, (Int | Quit) => mret Co_Quiesced
  | Failed _ _, _ => mret Co_Failed
  | _, _ => drive_fail De_Protocol
  end.

Definition resize : DM ControlOutcome :=
  size ← current_terminal_size;
  _ ← command (Resize (fst size) (snd size));
  event ← next_event;
  match event with
  | ResizeApplied rows cols =>
      if (rows =? fst size) && (cols =? snd size) then mret Co_Continue else drive_fail De_Protocol
  | TerminalQuiesced => mret Co_Quiesced
  | Failed _ _ => mret Co_Failed
  | _ => drive_fail De_Protocol
  end.

Definition resume_after_continue : DM ControlOutcome :=
  _ ← transition_terminal enter_resume_raw;
  _ ← modify_st (fun d => set_signals (clear La_winch (signals d)) d);
  size ← current_terminal_size;
  _ ← command (Resume (fst size) (snd size));
  event ← next_event;
  match event with
  | Resumed rows cols =>
      if (rows =? fst size) && (cols =? snd size) then
        _ ← take_proof take_verified_ready;
        _ ← transition_terminal mark_resumed;
        gate ← open_gate_with_output;
        match gate with
        | Go_Open => _ ← transition_terminal open_after_ack; mret Co_Continue
        | Go_Failed => mret Co_Failed
        end
      else drive_fail De_Protocol
  | Failed _ _ => mret Co_Failed
  | _ => drive_fail De_Protocol
  end.

(** The latches, read in order; a signal may arrive before each read. *)
Fixpoint next_signal (priority : list (Latch * CoordinatorSignalAction))
    : DM (option CoordinatorSignalAction) :=
  match priority with
  | [] => mret None
  | (l, action) :: priority =>
      arrived ← query signal_arrived;
      d ← get_st;
      if (arrived : bool) || latch l (signals d) then
        _ ← modify_st (set_signals (clear l (signals d)));
        mret (Some action)
      else next_signal priority
  end.
Definition next_action (priority : list (Latch * CoordinatorSignalAction))
    : DM (option CoordinatorSignalAction) :=
  d ← get_st;
  if frozen (signals d) then mret None else next_signal priority.
Definition next_active : DM (option CoordinatorSignalAction) := next_action active_priority.
Definition next_suspended : DM (option CoordinatorSignalAction) := next_action suspended_priority.

(** [stop_after_suspended_ack]. *)
Definition stop_after_suspended_ack : DM () :=
  blocked ← query block_sigcont;
  if negb (blocked : bool) then drive_fail De_Signal
  else
    _ ← modify_st (fun d => set_signals (clear La_cont (signals d)) d);
    stopped ← query kill_stop;
    if stopped : bool then did_act Act_Stopped else drive_fail De_Signal.

(** The loop of [suspend_and_resume] after the stop. *)
Fixpoint suspended_loop (n : nat) (deadline : Z) : DM ControlOutcome :=
  match n with
  | O => throw OutOfFuel
  | S n =>
      let wait : DM ControlOutcome :=
        turn ← turn_deadline deadline;
        readable ← lifecycle_readable turn;
        if readable : bool then
          event ← lifecycle_receive deadline;
          match event with
          | Failed _ _ => mret Co_Failed
          | _ => drive_fail De_Protocol
          end
        else
          _ ← ensure_guardian_live;
          suspended_loop n deadline in
      _ ← pump_output_before deadline;
      action ← next_suspended;
      match action with
      | Some Ac_Continue => resume_after_continue
      | Some (Ac_Forward signal) =>
          outcome ← forward_signal signal;
          match outcome with
          | Co_Continue => wait
          | outcome => mret outcome
          end
      | Some (Ac_Resize | Ac_Suspend) => drive_fail De_Protocol
      | None => wait
      end
  end.

Definition suspend_and_resume : DM ControlOutcome :=
  _ ← transition_terminal pause;
  _ ← command Suspend;
  event ← next_event;
  match event with
  | Suspended =>
      _ ← transition_terminal restore_for_suspend;
      _ ← stop_after_suspended_ack;
      deadline ← phase_deadline;
      suspended_loop fuel deadline
  | Failed _ _ => mret Co_Failed
  | _ => drive_fail De_Protocol
  end.

Definition handle_control (action : CoordinatorSignalAction) : DM ControlOutcome :=
  match action with
  | Ac_Forward signal => forward_signal signal
  | Ac_Resize => resize
  | Ac_Suspend => suspend_and_resume
  | Ac_Continue => drive_fail De_Protocol
  end.

Definition freeze : DM () := modify_st (fun d => set_signals (freeze_for_shutdown (signals d)) d).

(** The loop of [await_quiescence]. *)
Fixpoint quiescence_loop (n : nat) (deadline : Z) : DM () :=
  match n with
  | O => throw OutOfFuel
  | S n =>
      _ ← pump_output_before deadline;
      turn ← turn_deadline deadline;
      readable ← lifecycle_readable turn;
      if readable : bool then
        event ← lifecycle_receive deadline;
        match event with
        | TerminalQuiesced => mret ()
        | Failed _ _ =>
            d ← get_st;
            if session_failed d then drive_fail De_Protocol
            else
              _ ← modify_st set_session_failed;
              _ ← freeze;
              quiescence_loop n deadline
        | _ => drive_fail De_Protocol
        end
      else
        _ ← ensure_guardian_live;
        quiescence_loop n deadline
  end.
Definition await_quiescence : DM () :=
  deadline ← phase_deadline;
  quiescence_loop fuel deadline.

Fixpoint run_active (n : nat) : DM ActiveOutcome :=
  match n with
  | O => throw OutOfFuel
  | S n =>
      turn_deadline_ ← phase_deadline;
      _ ← pump_output_before turn_deadline_;
      input_deadline ← turn_deadline turn_deadline_;
      _ ← pump_input input_deadline;
      action ← next_active;
      outcome ← (if action is Some action then handle_control action else mret Co_Continue);
      match outcome with
      | Co_Shutdown =>
          _ ← freeze;
          _ ← await_quiescence;
          mret Ao_Quiesced
      | Co_Quiesced => mret Ao_Quiesced
      | Co_Failed => mret Ao_Failed
      | Co_Continue =>
          poll_deadline ← turn_deadline turn_deadline_;
          readable ← lifecycle_readable poll_deadline;
          if readable : bool then
            deadline ← phase_deadline;
            event ← lifecycle_receive deadline;
            match event with
            | TerminalQuiesced => mret Ao_Quiesced
            | Failed _ _ => mret Ao_Failed
            | _ => drive_fail De_Protocol
            end
          else
            _ ← ensure_guardian_live;
            run_active n
      end
  end.

(** *** The end *)

(** The loop of [finish_shutdown] for the final report. *)
Fixpoint final_report (n : nat) : DM (CoordinatorTerminalReport * GuardianExitDisposition) :=
  match n with
  | O => throw OutOfFuel
  | S n =>
      event ← receive_without_terminal_pump;
      match event with
      | Failed Ph_Worker Fc_Worker =>
          d ← get_st;
          if session_failed d then drive_fail De_Protocol
          else
            _ ← modify_st set_session_failed;
            final_report n
      | ChildrenReaped app tui worker cleanup session guardian_exit =>
          verified_exit ← take_proof coordinator_take_exit;
          mret (mkReport app tui worker cleanup session guardian_exit, verified_exit)
      | _ => drive_fail De_Protocol
      end
  end.

(** The loop of [wait_guardian]. *)
Fixpoint wait_loop (n : nat) (deadline : Z) : DM ExitStatus :=
  match n with
  | O => throw OutOfFuel
  | S n =>
      answer ← query try_wait;
      match answer with
      | Ok (Some status) =>
          _ ← modify_st (set_guardian_status (Some status));
          mret status
      | Ok None =>
          observed ← query now;
          if observed <? deadline then wait_loop n deadline else drive_fail De_Deadline
      | Err _ => drive_fail De_Guardian
      end
  end.
Definition wait_guardian : DM ExitStatus :=
  deadline ← phase_deadline;
  d ← get_st;
  match guardian_status d with
  | Some status => mret status
  | None => wait_loop fuel deadline
  end.

Definition finish_shutdown : DM (ExitStatus * CoordinatorTerminalReport) :=
  _ ← freeze;
  d ← get_st;
  match terminal d with
  | None => drive_fail De_Protocol
  | Some owner =>
      _ ← modify_st (set_terminal (Some (quiesce owner)));
      deadline ← phase_deadline;
      _ ← drain_output fuel deadline;
      _ ← transition_terminal restore;
      _ ← transition_terminal finish;
      _ ← command TerminalRestored;
      event ← receive_without_terminal_pump;
      if negb (bool_decide (event = TerminalRecoveryDisarmed)) then drive_fail De_Protocol
      else
        reported ← final_report fuel;
        let '(report, verified_exit) := reported in
        status ← wait_guardian;
        deadline ← phase_deadline;
        _ ← on_lifecycle (verify_terminal_eof now deadline);
        if negb (guardian_status_matches status verified_exit)
           || negb (bool_decide (rp_guardian_exit report = verified_exit))
        then drive_fail De_Protocol
        else mret (status, report)
  end.

(** The three places of [drive] where a failed session is shut down. *)
Definition failed_shutdown : DM () :=
  _ ← modify_st set_session_failed;
  _ ← freeze;
  await_quiescence.

Definition drive : DM (ExitStatus * CoordinatorTerminalReport) :=
  let active : DM (ExitStatus * CoordinatorTerminalReport) :=
    outcome ← run_active fuel;
    match outcome with
    | Ao_Quiesced => finish_shutdown
    | Ao_Failed => _ ← failed_shutdown; finish_shutdown
    end in
  outcome ← bootstrap;
  match outcome with
  | Bo_Ready =>
      _ ← transition_terminal mark_ready;
      deadline ← phase_deadline;
      _ ← drain_output fuel deadline;
      _ ← transition_terminal enter_initial_raw;
      gate ← open_gate_with_output;
      match gate with
      | Go_Open => _ ← transition_terminal open_after_ack; active
      | Go_Failed => _ ← failed_shutdown; finish_shutdown
      end
  | Bo_Failed => _ ← failed_shutdown; finish_shutdown
  end.

(** *** The outcome *)

Inductive RetentionReason :=
| Rr_LifecycleLost | Rr_ProtocolInvalid | Rr_GuardianExited | Rr_ShutdownDeadline
| Rr_ChildrenNotReaped | Rr_WorkerNotJoined | Rr_CleanupUnconfirmed | Rr_InvariantUnconfirmed.

Definition retention_reason (e : CoordinatorDriveError) : RetentionReason :=
  match e with
  | De_Lifecycle => Rr_LifecycleLost
  | De_Protocol | De_Snapshot => Rr_ProtocolInvalid
  | De_Guardian => Rr_GuardianExited
  | De_Deadline => Rr_ShutdownDeadline
  | De_Terminal _ | De_Signal => Rr_InvariantUnconfirmed
  | De_DescriptorIsolation _ => Rr_InvariantUnconfirmed
  end.

(** [prepare_terminal_for_retention]: both steps are attempted, and the
    buffered output is scrubbed on every branch. *)
Definition prepare_terminal_for_retention (reason : RetentionReason) (s : At Owner)
    : RetentionReason * At Owner :=
  let '(restored, s) := restore s in
  let reason := if restored is Err _ then Rr_InvariantUnconfirmed else reason in
  let '(finished, s) := finish s in
  let reason := if finished is Err _ then Rr_InvariantUnconfirmed else reason in
  (reason, mkAt (scrub_pending_output (here s)) (step s) (acts s)).

Inductive CoordinatorRunOutcome :=
| Ro_Terminal (status : ExitStatus) (report : CoordinatorTerminalReport)
| Ro_Retained (reason : RetentionReason) (failure : CoordinatorDriveError)
| Ro_Aborted
| Ro_OutOfFuel.

(** The bounded wait of [retain] for the guardian. *)
Fixpoint retained_wait (n : nat) (deadline : Z) : DM () :=
  match n with
  | O => mret ()
  | S n =>
      observed ← query now;
      if observed <? deadline then
        answer ← query try_wait;
        match answer with
        | Ok (Some status) => modify_st (set_guardian_status (Some status))
        | Ok None => retained_wait n deadline
        | Err _ => mret ()
        end
      else mret ()
  end.

Definition retain (failure : CoordinatorDriveError) (d : ProductionCoordinator)
    : CoordinatorRunOutcome * ProductionCoordinator :=
  let d := set_signals (freeze_for_shutdown (signals d)) d in
  match terminal d with
  | None => (Ro_Aborted, d)
  | Some owner =>
      let ok := shutdown_wire (steps d) in
      let d := set_steps (S (steps d)) d in
      let reason := if ok : bool then retention_reason failure else Rr_InvariantUnconfirmed in
      let '(reason, s) := prepare_terminal_for_retention reason (mkAt (quiesce owner) (steps d) []) in
      let d := add_history (Act_Tty <$> acts s) (set_steps (step s) (set_terminal (Some (here s)) d)) in
      let d := match guardian_status d with
               | Some _ => d
               | None =>
                   let '(deadline, d) := phase_deadline d in
                   match deadline with
                   | Ok deadline => snd (retained_wait fuel deadline d)
                   | Err _ => snd (retained_wait fuel (now (steps d)) (set_steps (S (steps d)) d))
                   end
               end in
      (Ro_Retained reason failure, d)
  end.

(** [run] with [into_terminal_result]. *)
Definition run (d : ProductionCoordinator) : CoordinatorRunOutcome * ProductionCoordinator :=
  match drive d with
  | (Ok (status, report), d) =>
      match terminal d with
      | Some Finished => (Ro_Terminal status report, d)
      | _ => (Ro_Aborted, d)
      end
  | (Err (Failure e), d) => retain e d
  | (Err OutOfFuel, d) => (Ro_OutOfFuel, d)
  end.
End drive.

(** ** The process's own exit (entry.rs) *)

(** An exit code; a signal's default handler and then code 1; parked for good. *)
Inductive process_end := Pe_Exit (code : Z) | Pe_Signal (signal : Z) | Pe_Parked.

Definition apply_guardian_disposition (disposition : GuardianExitDisposition) : process_end :=
  match disposition with
  | Ge_Code code => if code =? USAGE_EXHAUSTED_EXIT_CODE then Pe_Exit 1 else Pe_Exit code
  | Ge_UsageExhausted => Pe_Exit USAGE_EXHAUSTED_EXIT_CODE
  | Ge_InternalFailure => Pe_Exit 1
  | Ge_Signal signal => Pe_Signal signal
  end.

(** [None] when the run does not produce an outcome. *)
Definition apply_coordinator_outcome (outcome : CoordinatorRunOutcome) : option process_end :=
  match outcome with
  | Ro_Terminal _ report => Some (apply_guardian_disposition (rp_guardian_exit report))
  | Ro_Retained _ _ => Some Pe_Parked
  | Ro_Aborted | Ro_OutOfFuel => None
  end.
