(* ===== verification/DriveProofs.v ===== *)
(** * Theorems about the coordinator's drive

    The assertion [at_] relates the state of the terminal owner, the transcript
    and the history; every function of the drive has a triple about it. *)
From S2P Require Import Prelude Interfaces Wire Lifecycle LifecycleProofs LifecycleTheorems.
From S2P Require Import Receivers ReceiverProofs CoordinatorTerminal CoordinatorDrive.

Open Scope Z_scope.

(** ** The history *)

(** The coordinator never arms the recovery race: its commands are applied. *)
Definition label_of (a : act) : option label :=
  match a with
  | Act_Event e => Some (Evt e)
  | Act_Command c => Some (Cmd c Applied)
  | _ => None
  end.
Definition labels (h : list act) : list label := omap label_of h.

(** What is known about the outer terminal. *)
Inductive tty_mode := Cooked | Raw | Unknown.
Definition tty_next (m : tty_mode) (a : act) : tty_mode :=
  match a with
  | Act_Tty (Ta_Raw true) => Raw
  | Act_Tty (Ta_Restore true) => Cooked
  | Act_Tty (Ta_Raw false) | Act_Tty (Ta_Restore false) => Unknown
  | _ => m
  end.
Definition tty_after (h : list act) : tty_mode := fold_left tty_next h Cooked.

Definition transcript_in (h : list act) (l : list TerminalLifecycleState) : Prop :=
  ∃ v, replay (labels h) = Some v ∧ state v ∈ l.

(** What must have happened before an act. *)
Definition due (h : list act) (a : act) : Prop :=
  match a with
  | Act_Tty (Ta_Typed _) | Act_Tty (Ta_Sent _) => transcript_in h [St_Active] ∧ tty_after h = Raw
  | Act_Tty (Ta_Raw _) => transcript_in h [St_ReadyForGate; St_Suspended]
  | Act_Stopped => transcript_in h [St_Suspended] ∧ tty_after h = Cooked
  | Act_Command OpenInputGate => tty_after h = Raw
  | Act_Command TerminalRestored => tty_after h = Cooked
  | Act_Command (Start | TerminalArmAccepted | ChildDescriptorsVerified _) => tty_after h = Cooked
  | _ => True
  end.
Inductive orderly : list act → Prop :=
| ord_nil : orderly []
| ord_snoc h a : orderly h → due h a → orderly (h ++ [a]).

Lemma labels_app h1 h2 : labels (h1 ++ h2) = labels h1 ++ labels h2.
Proof. apply omap_app. Qed.
Lemma tty_after_snoc h a : tty_after (h ++ [a]) = tty_next (tty_after h) a.
Proof. unfold tty_after. by rewrite fold_left_app. Qed.

(** Acts that change neither the transcript nor the mode, allowed at [h]. *)
Definition neutral (h : list act) (a : tty_act) : Prop :=
  match a with
  | Ta_Received _ | Ta_Shown _ | Ta_Shutdown _ => True
  | Ta_Typed _ | Ta_Sent _ => transcript_in h [St_Active] ∧ tty_after h = Raw
  | Ta_Raw _ | Ta_Restore _ => False
  end.

Lemma labels_tty l : labels (Act_Tty <$> l) = [].
Proof. by induction l. Qed.

Lemma neutral_app h l : orderly h → Forall (neutral h) l →
  orderly (h ++ (Act_Tty <$> l)) ∧ tty_after (h ++ (Act_Tty <$> l)) = tty_after h ∧
  labels (h ++ (Act_Tty <$> l)) = labels h.
Proof.
  intros Ho Hl. rewrite labels_app, labels_tty, app_nil_r.
  induction l as [|a l IH] using rev_ind; cbn.
  { by rewrite app_nil_r. }
  rewrite Forall_app, Forall_singleton in Hl. destruct Hl as [Hl Ha].
  destruct (IH Hl) as (Ho' & Ht & _).
  assert (Hlab : labels (h ++ (Act_Tty <$> l)) = labels h)
    by (by rewrite labels_app, labels_tty, app_nil_r).
  rewrite fmap_app, app_assoc. cbn. rewrite tty_after_snoc, Ht. split_and!; [|by destruct a; cbn in Ha|done].
  constructor; [done|]. unfold due, transcript_in. rewrite Hlab, Ht. by destruct a; cbn in Ha.
Qed.

(** ** The assertion *)

(** The mode of the outer terminal in a state of the owner ([None] is
    [Finished]). *)
Definition mode_fits (st : option TerminalState) (m : tty_mode) : Prop :=
  match st with
  | Some (Tm_OutputOnly | Tm_GateReady | Tm_SuspendedRestored | Tm_Restored) | None => m = Cooked
  | Some (Tm_RawAwaitAck | Tm_Active | Tm_Paused | Tm_ResumeRaw) => m = Raw
  | Some Tm_Quiesced => True
  end.
Definition owner_in (st : option TerminalState) (o : option Owner) : Prop :=
  match st with
  | Some st => ∃ t, o = Some (Live st t)
  | None => o = Some Finished
  end.
Definition unexhausted (h : list act) : Prop := Act_Event UsageExhausted ∉ h.

Record at_ (st : option TerminalState) (s : TerminalLifecycleState) (d : ProductionCoordinator) : Prop := {
  at_owner : owner_in st (terminal d);
  at_mode : mode_fits st (tty_after (history d));
  at_replay : ∃ v, cr_terminal (lifecycle d) = Some v ∧ replay (labels (history d)) = Some v ∧
    state v = s ∧ recovery_command_allowance v = Al_Inactive;
  at_orderly : orderly (history d);
  at_usage : unexhausted (history d);
}.

(** After an error only the history and the owner matter. *)
Record stopped (d : ProductionCoordinator) : Prop := {
  st_owner : terminal d ≠ None;
  st_orderly : orderly (history d);
}.

Lemma at_stopped st s d : at_ st s d → stopped d.
Proof.
  intros [O _ _ H _]. split; [|done].
  destruct st as [st|]; cbn in O; [destruct O as [t ->]|rewrite O]; done.
Qed.

(** Computations that change neither the owner, the transcript nor the history. *)
Definition same (d d' : ProductionCoordinator) : Prop :=
  terminal d' = terminal d ∧ history d' = history d ∧
  cr_terminal (lifecycle d') = cr_terminal (lifecycle d).
Definition quiet {A} (m : stM ProductionCoordinator (looping CoordinatorDriveError) A) : Prop :=
  ∀ d, same d (m d).2.

Lemma same_at st s d d' : same d d' → at_ st s d → at_ st s d'.
Proof. intros (Ht & Hh & Hc) [O M R Ho U]. split; rewrite ?Ht, ?Hh, ?Hc; done. Qed.
Lemma same_stopped d d' : same d d' → stopped d → stopped d'.
Proof. intros (Ht & Hh & _) [O H]. split; by rewrite ?Ht, ?Hh. Qed.

(** ** Quiet computations *)

Section quiet.
Context {E : Environment} (bounds : CoordinatorBounds) (fuel : nat).

Lemma same_refl d : same d d.
Proof. done. Qed.
Lemma same_trans d1 d2 d3 : same d1 d2 → same d2 d3 → same d1 d3.
Proof. intros (? & ? & ?) (? & ? & ?). split_and!; congruence. Qed.

Lemma quiet_bind {A B} (m : DM A) (k : A → DM B) : quiet m → (∀ a, quiet (k a)) → quiet (m ≫= k).
Proof.
  intros Hm Hk d. specialize (Hm d). unfold mbind, stM_bind.
  destruct (m d) as [[a|e] d'] eqn:E'; [|done]. cbn in Hm. eapply same_trans; [done|apply Hk].
Qed.
Lemma quiet_ret {A} (a : A) : quiet (mret a).
Proof. done. Qed.
Lemma quiet_fail {A} e : quiet (drive_fail e : DM A).
Proof. done. Qed.
Lemma quiet_loop {A} e : quiet (throw e : DM A).
Proof. done. Qed.
Lemma quiet_get : quiet (get_st : DM _).
Proof. done. Qed.
Lemma quiet_query {A} (f : nat → A) : quiet (query f).
Proof. done. Qed.
Lemma quiet_signals f : quiet (modify_st (fun d => set_signals (f d) d) : DM ()).
Proof. done. Qed.
Lemma quiet_signal_set x : quiet (modify_st (set_signals x) : DM ()).
Proof. done. Qed.
Lemma quiet_status x : quiet (modify_st (set_guardian_status x) : DM ()).
Proof. done. Qed.
Lemma quiet_failed : quiet (modify_st set_session_failed : DM ()).
Proof. done. Qed.

(** One step of a computation made of quiet ones. *)
Ltac quiet_step :=
  first [ apply quiet_ret | apply quiet_fail | apply quiet_loop | apply quiet_get | apply quiet_query
        | apply quiet_signals | apply quiet_signal_set | apply quiet_status | apply quiet_failed
        | assumption | progress intros | apply quiet_bind ].
Ltac quiet_tac := repeat first [quiet_step | case_match].

Lemma phase_deadline_quiet : quiet (phase_deadline bounds).
Proof. unfold phase_deadline. quiet_tac. Qed.
Lemma turn_deadline_quiet outer : quiet (turn_deadline bounds outer).
Proof. unfold turn_deadline. quiet_tac. Qed.
Lemma readable_quiet n deadline : quiet (lifecycle_descriptor_readable n deadline).
Proof. induction n; cbn [lifecycle_descriptor_readable]; quiet_tac. Qed.
Lemma guardian_live_quiet : quiet ensure_guardian_live.
Proof. unfold ensure_guardian_live. quiet_tac. Qed.
Lemma next_signal_quiet l : quiet (next_signal l).
Proof. induction l as [|[x a] l IH]; cbn [next_signal]; quiet_tac. Qed.
Lemma next_action_quiet l : quiet (next_action l).
Proof. unfold next_action. pose proof (next_signal_quiet l). quiet_tac. Qed.
Lemma freeze_quiet : quiet freeze.
Proof. apply quiet_signals. Qed.
Lemma wait_loop_quiet n deadline : quiet (wait_loop n deadline).
Proof. induction n; cbn [wait_loop]; quiet_tac. Qed.
Lemma wait_guardian_quiet : quiet (wait_guardian bounds fuel).
Proof.
  unfold wait_guardian. pose proof phase_deadline_quiet. pose proof (wait_loop_quiet fuel).
  quiet_tac; auto.
Qed.

Lemma on_lifecycle_quiet {A} (m : CR A) :
  (∀ r, cr_terminal (m r).2 = cr_terminal r) → quiet (on_lifecycle m).
Proof.
  intros H d. unfold on_lifecycle.
  match goal with |- context [m ?r] => specialize (H r); destruct (m r) as [a r'] end.
  by split_and!.
Qed.
Lemma ready_proof_quiet : quiet (take_proof take_verified_ready).
Proof.
  apply on_lifecycle_quiet. intros r. unfold take_verified_ready. run_st.
  by repeat case_match; simplify_eq/=.
Qed.
Lemma ack_proof_quiet : quiet (take_proof take_verified_open_gate_ack).
Proof.
  apply on_lifecycle_quiet. intros r. unfold take_verified_open_gate_ack. run_st.
  by repeat case_match; simplify_eq/=.
Qed.
Lemma eof_quiet deadline : quiet (on_lifecycle (verify_terminal_eof now deadline)).
Proof.
  apply on_lifecycle_quiet. intros r. unfold verify_terminal_eof. run_st.
  destruct (cr_poisoned r || _), (cr_eof_verified r); try done.
  destruct (eof_loop now deadline (rx (cr_reader r)) r) as [a r'] eqn:E'.
  by apply eof_loop_core in E' as [? _].
Qed.

Lemma triple_quiet {A} (m : DM A) st s :
  quiet m → triple (at_ st s) m (fun _ => at_ st s) stopped.
Proof.
  intros Hm d Hd. specialize (Hm d). destruct (m d) as [[a|e] d']; cbn in Hm.
  - by eapply same_at.
  - by eapply same_stopped, at_stopped.
Qed.
End quiet.
#[export] Hint Resolve phase_deadline_quiet turn_deadline_quiet readable_quiet guardian_live_quiet
  next_action_quiet freeze_quiet wait_guardian_quiet ready_proof_quiet ack_proof_quiet eof_quiet
  quiet_query quiet_signals quiet_failed : calcifer.

(** A bind whose first part is quiet. *)
Lemma triple_then `{Environment} {A B} st s (m : DM A) (k : A → DM B) Q :
  quiet m → (∀ a, triple (at_ st s) (k a) Q stopped) → triple (at_ st s) (m ≫= k) Q stopped.
Proof. intros Hm Hk. eapply triple_bind; [by apply triple_quiet|done]. Qed.

(** ** Terminal operations *)

(** The acts a terminal operation adds. *)
Definition emits {X F A} (P : tty_act → Prop) (m : stM (At X) F A) : Prop :=
  ∀ s, ∃ l, acts (m s).2 = acts s ++ l ∧ Forall P l.

Section emits.
Context {E : Environment} {X F : Type}.

Lemma emits_bind {A B} P (m : stM (At X) F A) (k : A → stM (At X) F B) :
  emits P m → (∀ a, emits P (k a)) → emits P (m ≫= k).
Proof.
  intros Hm Hk s. destruct (Hm s) as (l1 & H1 & F1). unfold mbind, stM_bind.
  destruct (m s) as [[a|e] s']; cbn in *; [|by exists l1].
  destruct (Hk a s') as (l2 & -> & F2). exists (l1 ++ l2).
  rewrite H1, app_assoc. split; [done|]. by apply Forall_app.
Qed.
Lemma emits_none {A} P (m : stM (At X) F A) : (∀ s, acts (m s).2 = acts s) → emits P m.
Proof. intros H s. exists []. by rewrite app_nil_r. Qed.
Lemma emits_did P a : P a → emits P (did a : stM (At X) F ()).
Proof. intros Ha s. exists [a]. split; [done|by constructor]. Qed.
End emits.

Ltac emits_tac :=
  repeat first
    [ apply emits_none; intros ?; reflexivity
    | apply emits_did; exact I
    | assumption
    | progress intros
    | apply emits_bind
    | case_match ].

Definition is_output (a : tty_act) : Prop :=
  match a with Ta_Received _ | Ta_Shown _ => True | _ => False end.
Definition is_input (a : tty_act) : Prop :=
  match a with Ta_Typed _ | Ta_Sent _ => True | _ => False end.

Section emitted.
Context {E : Environment}.

Lemma read_output_emits : emits is_output read_output.
Proof. unfold read_output, deliver, ok_or_fail, term_fail. emits_tac. Qed.
Lemma write_output_emits : emits is_output write_output.
Proof. unfold write_output, ok_or_fail, term_fail. emits_tac. Qed.
Lemma pump_output_emits stall outer : emits is_output (terminal_pump_output_once stall outer).
Proof.
  pose proof read_output_emits. pose proof write_output_emits.
  unfold terminal_pump_output_once, pump_output_state_once, flush_output_once, ok_or_fail, term_fail.
  emits_tac.
Qed.
Lemma tty_read_emits n : emits is_input (tty_read_into n).
Proof. induction n; cbn [tty_read_into]; unfold deliver, term_fail; emits_tac. Qed.
Lemma channel_write_emits n chunk : emits is_input (channel_try_write n chunk).
Proof. induction n; cbn [channel_try_write]; unfold term_fail; emits_tac. Qed.
Lemma write_fragment_emits n deadline chunk : emits is_input (write_fragment_before n deadline chunk).
Proof.
  revert chunk; induction n as [|n IH]; intros [|b chunk]; try (apply emits_none; done).
  pose proof (channel_write_emits (S n) (b :: chunk)).
  cbn [write_fragment_before]. unfold term_fail. emits_tac; apply IH.
Qed.
Lemma pump_input_emits n deadline : emits is_input (terminal_pump_input_once n deadline).
Proof.
  pose proof (tty_read_emits n). pose proof (write_fragment_emits n deadline).
  unfold terminal_pump_input_once, term_fail. emits_tac; auto.
Qed.
End emitted.

(** ** The owner inside the drive *)

(** An operation that keeps the state of a live owner. *)
Definition keeps {F A} (P : tty_act → Prop) (m : stM (At Owner) F A) : Prop :=
  ∀ st t n, ∃ t' l, here (m (mkAt (Live st t) n [])).2 = Live st t' ∧
    acts (m (mkAt (Live st t) n [])).2 = l ∧ Forall P l.

Lemma neutral_at st s d o n l : at_ st s d → owner_in st (Some o) → Forall (neutral (history d)) l →
  at_ st s (add_history (Act_Tty <$> l) (set_steps n (set_terminal (Some o) d))).
Proof.
  intros [O M R Ho U] Hown Hl. destruct (neutral_app _ _ Ho Hl) as (Ho' & Ht & Hlab).
  split; cbn [terminal lifecycle history add_history set_steps set_terminal];
    [done|by rewrite Ht|by rewrite Hlab|done|].
  intros [?|(? & ? & ?)%list_elem_of_fmap]%elem_of_app; done.
Qed.

Lemma output_neutral h a : is_output a → neutral h a.
Proof. by destruct a. Qed.

Section owner.
Context {E : Environment} (bounds : CoordinatorBounds) (fuel : nat).

Lemma on_live_keeps {A} (P : tty_act → Prop) (m : TM Terminal A) (x : A) :
  emits P m → keeps P (on_live m x).
Proof.
  intros H st t n. destruct (H (mkAt t n [])) as (l & Hl & Hp). unfold on_live. cbn.
  destruct (m (mkAt t n [])) as [a s']. cbn in *. by exists (here s'), l.
Qed.

Lemma owner_pump_keeps stall outer : keeps is_output (owner_pump_output_once stall outer).
Proof.
  intros st t n. unfold owner_pump_output_once. run_st. cbn [here].
  destruct st; try apply on_live_keeps, pump_output_emits. by exists t, [].
Qed.

Lemma pump_output_keeps observed outer stall :
  keeps is_output (pump_output_with_exact_owner observed outer stall).
Proof.
  intros st t n. unfold pump_output_with_exact_owner.
  destruct (_ && _); [by exists t, []|]. pose proof (owner_pump_keeps stall outer st t n) as H.
  destruct (owner_pump_output_once _ _ _) as [[p|[e|]] s']; try done. by destruct (_ && _).
Qed.

Lemma pump_input_keeps deadline : keeps is_input (map_terminal (owner_pump_input_once fuel deadline)).
Proof.
  intros st t n. unfold map_terminal, owner_pump_input_once. run_st. cbn [here].
  destruct st; try (by exists t, []).
  pose proof (on_live_keeps is_input (terminal_pump_input_once fuel deadline) Cp_Idle
    (pump_input_emits fuel deadline) Tm_Active t n) as H.
  by destruct (on_live _ _ _) as [a s'].
Qed.

Lemma size_keeps : keeps (fun _ => False) current_size.
Proof.
  intros st t n. unfold current_size, map_terminal. run_st. cbn [here].
  assert (emits (X:=Terminal) (F:=looping CoordinatorTerminalError) (fun _ => False) terminal_current_size) as H.
  { unfold terminal_current_size, term_fail. emits_tac. }
  pose proof (on_live_keeps _ terminal_current_size (0, 0) H st t n) as Hk.
  destruct st; try (by exists t, []); by destruct (on_live _ _ _) as [a s'].
Qed.

Lemma with_owner_keeps {A} P (m : OM A) st s :
  keeps P m → (∀ d a, at_ (Some st) s d → P a → neutral (history d) a) →
  triple (at_ (Some st) s) (with_owner m) (fun _ => at_ (Some st) s) stopped.
Proof.
  intros Hm HP d Hd. unfold with_owner. destruct (at_owner _ _ _ Hd) as [t Ht]. rewrite Ht.
  destruct (Hm st t (steps d)) as (t' & l & H1 & H2 & H3).
  destruct (m _) as [a s']. cbn in *. subst l.
  assert (at_ (Some st) s (add_history (Act_Tty <$> acts s')
    (set_steps (step s') (set_terminal (Some (here s')) d)))) as Hd'.
  { apply neutral_at; [done|rewrite H1; by exists t'|].
    eapply Forall_impl; [exact H3|]. intros a' ?. by apply HP. }
  destruct a; [done|by eapply at_stopped].
Qed.

Lemma pump_output_at outer st s :
  triple (at_ (Some st) s) (pump_output_before bounds outer) (fun _ => at_ (Some st) s) stopped.
Proof.
  unfold pump_output_before. apply triple_then; [auto with calcifer|]. intros observed.
  eapply triple_bind; [|intros ?; apply triple_ret; intros ? Hd; exact Hd].
  eapply with_owner_keeps; [apply pump_output_keeps|]. intros d a _. apply output_neutral.
Qed.

Lemma drain_output_at n deadline st s :
  triple (at_ (Some st) s) (drain_output bounds n deadline) (fun _ => at_ (Some st) s) stopped.
Proof.
  induction n as [|n IH]; cbn [drain_output]; [apply triple_throw, at_stopped|].
  apply triple_then; [auto with calcifer|]. intros observed.
  eapply triple_bind.
  - eapply with_owner_keeps; [apply pump_output_keeps|]. intros d a _. apply output_neutral.
  - intros []; try exact IH; by apply triple_ret.
Qed.

(** Input is only pumped in an active session, in raw mode. *)
Lemma pump_input_at deadline :
  triple (at_ (Some Tm_Active) St_Active) (pump_input fuel deadline)
    (fun _ => at_ (Some Tm_Active) St_Active) stopped.
Proof.
  unfold pump_input. eapply triple_bind; [|intros ?; apply triple_ret; intros ? Hd; exact Hd].
  eapply with_owner_keeps; [apply pump_input_keeps|].
  intros d a [_ M (v & _ & Hr & Hs & _) _ _] Ha.
  assert (transcript_in (history d) [St_Active]).
  { exists v. split; [done|]. by apply list_elem_of_singleton. }
  by destruct a.
Qed.

Lemma size_at st s :
  triple (at_ (Some st) s) current_terminal_size (fun _ => at_ (Some st) s) stopped.
Proof. eapply with_owner_keeps; [apply size_keeps|]. intros d a _ []. Qed.
End owner.

(** ** Messages *)

(** Without the recovery race commands are applied, and it stays unarmed. *)
Lemma step_inactive v l v' : lifecycle_step v l v' → l ≠ Arm →
  recovery_command_allowance v = Al_Inactive →
  recovery_command_allowance v' = Al_Inactive ∧ ∀ c a, l = Cmd c a → a = Applied.
Proof.
  intros H Hl Hi. destruct H; try done; unfold record_natural_exit in *;
    repeat case_bool_decide; cbn in *; (split; [congruence|]); intros ? ? [= <- <-]; congruence.
Qed.

(** From state [s] the message leads to [s']. *)
Definition leads (s : TerminalLifecycleState) (l : label) (s' : TerminalLifecycleState) : Prop :=
  ∃ v v', state v = s ∧ state v' = s' ∧ recovery_command_allowance v = Al_Inactive ∧
    lifecycle_step v l v'.

Section messages.
Context {E : Environment} (bounds : CoordinatorBounds) (fuel : nat).

Lemma on_lifecycle_frame {A} (m : CR A) d :
  terminal (on_lifecycle m d).2 = terminal d ∧ history (on_lifecycle m d).2 = history d.
Proof. unfold on_lifecycle. by destruct (m _). Qed.

Lemma on_lifecycle_stopped {A} (m : CR A) d st s : at_ st s d → stopped (on_lifecycle m d).2.
Proof.
  intros [O Ho]%at_stopped. destruct (on_lifecycle_frame m d) as [Ht Hh].
  split; by rewrite ?Ht, ?Hh.
Qed.

(** A message that the validator accepted and that is then in the history. *)
Lemma message_at st s d d' a v v' l :
  at_ st s d → label_of a = Some l → l ≠ Arm → a ≠ Act_Event UsageExhausted → due (history d) a →
  cr_terminal (lifecycle d) = Some v → lifecycle_step v l v' →
  cr_terminal (lifecycle d') = Some v' → terminal d' = terminal d → history d' = history d ++ [a] →
  at_ st (state v') d' ∧ leads s l (state v').
Proof.
  intros [O M (v0 & Hv & Hr & Hs & Hi) Ho U] Hl Harm Hu Hdue Hv' Hstep Ht' Hd' Hh'.
  rewrite Hv in Hv'. injection Hv' as ->.
  destruct (step_inactive _ _ _ Hstep Harm Hi) as [Hi' _]. split; [|by exists v, v'].
  assert (Hm : tty_next (tty_after (history d)) a = tty_after (history d)) by (by destruct a).
  split; rewrite ?Hd', ?Hh'.
  - done.
  - by rewrite tty_after_snoc, Hm.
  - exists v'. split_and!; try done. rewrite labels_app. cbn. rewrite Hl. by eapply replay_extend.
  - by constructor.
  - intros [?|?%list_elem_of_singleton]%elem_of_app; [done|congruence].
Qed.

Lemma receive_run deadline st s d e d' : at_ st s d → lifecycle_receive deadline d = (Ok e, d') →
  stopped d' ∧
  ∃ v v', cr_terminal (lifecycle d) = Some v ∧ lifecycle_step v (Evt e) v' ∧
    cr_terminal (lifecycle d') = Some v' ∧ terminal d' = terminal d ∧
    history d' = history d ++ [Act_Event e].
Proof.
  intros Hd. destruct (at_replay _ _ _ Hd) as (v & Hv & _).
  unfold lifecycle_receive, on_lifecycle. run_st. intros H.
  match type of H with context [coordinator_receive now deadline ?r] =>
    pose proof (co_receive_does now deadline r v Hv) as Hr;
    destruct (coordinator_receive now deadline r) as [[e0|x] r'] end; [|done].
  injection H as <- <-. destruct Hr as (v' & Hv' & Heff). inversion Heff; subst.
  split; [|by exists v, v']. destruct (at_stopped _ _ _ Hd) as [O Ho].
  split; [done|]. by constructor.
Qed.

Lemma receive_at deadline st s :
  triple (at_ st s) (lifecycle_receive deadline)
    (fun e d => stopped d ∧ (e ≠ UsageExhausted → ∃ s', leads s (Evt e) s' ∧ at_ st s' d)) stopped.
Proof.
  intros d Hd. destruct (lifecycle_receive deadline d) as [[e|x] d'] eqn:H.
  - destruct (receive_run _ _ _ _ _ _ Hd H) as (Hst & v & v' & Hv & Hstep & Hv' & Ht & Hh).
    split; [done|]. intros Hu. exists (state v').
    assert (Act_Event e ≠ Act_Event UsageExhausted) by congruence.
    destruct (message_at st s d d' (Act_Event e) v v' (Evt e)) as [? ?]; try done.
  - pose proof (on_lifecycle_stopped (coordinator_receive now deadline) d st s Hd) as Hs.
    unfold lifecycle_receive in H. run_st in H.
    destruct (on_lifecycle _ _) as [[e|y] d1]; [done|]. by injection H as _ <-.
Qed.

Lemma send_step c deadline r t r' : cr_terminal r = Some t →
  coordinator_record_and_send now c deadline r = (Ok (), r') →
  ∃ a t', lifecycle_step t (Cmd c a) t' ∧ cr_terminal r' = Some t'.
Proof.
  intros Ht. pose proof (co_record_does c r t Ht) as H.
  unfold coordinator_record_and_send, on_coordinator_wire. run_st.
  destruct (record_command c r) as [[[]|x] r1]; [|done].
  destruct H as (a & _ & t' & Ht' & Heff). inversion Heff; subst.
  destruct (send_coordinator_command _ _ _ _) as [[[]|x] ch]; [|done].
  intros [= <-]. by exists a, t'.
Qed.

Lemma command_at c st s : (∀ d, at_ st s d → due (history d) (Act_Command c)) →
  triple (at_ st s) (command bounds c)
    (fun _ d => ∃ s', leads s (Cmd c Applied) s' ∧ at_ st s' d) stopped.
Proof.
  intros Hdue. unfold command. apply triple_then; [auto with calcifer|]. intros deadline d Hd.
  destruct (at_replay _ _ _ Hd) as (v & Hv & _ & _ & Hi).
  pose proof (on_lifecycle_stopped (coordinator_record_and_send now c deadline) d st s Hd) as Hst.
  unfold did_act. run_st. unfold on_lifecycle in *.
  match goal with |- context [coordinator_record_and_send now c deadline ?r] =>
    destruct (coordinator_record_and_send now c deadline r) as [[[]|x] r'] eqn:Hr end; [|done].
  apply (send_step _ _ _ v) in Hr as (a & v' & Hstep & Hv'); [|done].
  destruct (step_inactive _ _ _ Hstep) as [_ Ha]; [done|done|].
  rewrite (Ha _ _ eq_refl) in Hstep. exists (state v'). apply and_comm.
  eapply (message_at st s d _ (Act_Command c) v v'); try done. by apply Hdue.
Qed.

Lemma receive_with_output_at n deadline st s :
  triple (at_ (Some st) s) (receive_with_output bounds fuel n deadline)
    (fun e d => stopped d ∧ (e ≠ UsageExhausted → ∃ s', leads s (Evt e) s' ∧ at_ (Some st) s' d)) stopped.
Proof.
  induction n as [|n IH]; cbn [receive_with_output]; [apply triple_throw, at_stopped|].
  eapply triple_bind; [apply pump_output_at|]. intros []. cbn beta.
  apply triple_then; [auto with calcifer|]. intros turn.
  apply triple_then; [apply readable_quiet|]. intros [].
  - apply receive_at.
  - apply triple_then; [auto with calcifer|]. by intros _.
Qed.

Lemma next_event_at st s :
  triple (at_ (Some st) s) (next_event bounds fuel)
    (fun e d => stopped d ∧ (e ≠ UsageExhausted → ∃ s', leads s (Evt e) s' ∧ at_ (Some st) s' d)) stopped.
Proof.
  unfold next_event. apply triple_then; [auto with calcifer|]. intros deadline.
  apply receive_with_output_at.
Qed.

Lemma receive_without_pump_at st s :
  triple (at_ st s) (receive_without_terminal_pump bounds)
    (fun e d => stopped d ∧ (e ≠ UsageExhausted → ∃ s', leads s (Evt e) s' ∧ at_ st s' d)) stopped.
Proof.
  unfold receive_without_terminal_pump. apply triple_then; [auto with calcifer|]. intros deadline.
  apply triple_then; [auto with calcifer|]. intros observed.
  destruct (_ <=? _); [apply triple_throw, at_stopped|apply receive_at].
Qed.
End messages.

(** ** Transitions of the owner *)

(** A transition that performs no terminal operation. *)
Lemma silent_at `{Environment} st st' s (m : OM ()) :
  (∀ t n, ∃ t', m (mkAt (Live st t) n []) = (Ok (), mkAt (Live st' t') n [])) →
  (∀ mode, mode_fits (Some st) mode → mode_fits (Some st') mode) →
  triple (at_ (Some st) s) (transition_terminal m) (fun _ => at_ (Some st') s) stopped.
Proof.
  intros Hm Hmode d [[t Ht] M R Ho U]. unfold transition_terminal, with_owner. rewrite Ht.
  destruct (Hm t (steps d)) as [t' ->]. split;
    cbn [terminal lifecycle history add_history set_steps set_terminal here step acts fmap list_fmap];
    rewrite ?app_nil_r; auto. by exists t'.
Qed.

(** One terminal operation, due now. *)
Lemma operation_at st st' s d a o n :
  at_ st s d → due (history d) (Act_Tty a) → owner_in st' (Some o) →
  (∀ mode, mode_fits st mode → mode_fits st' (tty_next mode (Act_Tty a))) →
  at_ st' s (add_history (Act_Tty <$> [a]) (set_steps n (set_terminal (Some o) d))).
Proof.
  intros [O M R Ho U] Hdue Hown Hmode.
  split; cbn [terminal lifecycle history add_history set_steps set_terminal fmap list_fmap].
  - done.
  - rewrite tty_after_snoc. by apply Hmode.
  - rewrite labels_app. cbn. by rewrite app_nil_r.
  - by constructor.
  - intros [?|?%list_elem_of_singleton]%elem_of_app; done.
Qed.

(** A transition that performs one. *)
Lemma operated_at `{Environment} st st' s (m : OM ()) (a : bool → tty_act) :
  (∀ t n, ∃ o n' r ok, m (mkAt (Live st t) n []) = (r, mkAt o n' [a ok]) ∧
     (r = Ok () → owner_in st' (Some o) ∧ ok = true)) →
  (∀ d ok, at_ (Some st) s d → due (history d) (Act_Tty (a ok))) →
  (∀ mode, mode_fits (Some st) mode → mode_fits st' (tty_next mode (Act_Tty (a true)))) →
  triple (at_ (Some st) s) (transition_terminal m) (fun _ => at_ st' s) stopped.
Proof.
  intros Hm Hdue Hmode d Hd. destruct (at_owner _ _ _ Hd) as [t Ht].
  unfold transition_terminal, with_owner. rewrite Ht.
  destruct (Hm t (steps d)) as (o & n' & r & ok & -> & Hr). destruct r as [[]|e].
  - destruct (Hr eq_refl) as [Hown ->]. eapply operation_at; eauto.
  - split; [done|]. apply (ord_snoc (history d)); [by apply (at_orderly _ _ _ Hd)|by apply Hdue].
Qed.

Section transitions.
Context {E : Environment}.

Lemma mark_ready_at s :
  triple (at_ (Some Tm_OutputOnly) s) (transition_terminal mark_ready)
    (fun _ => at_ (Some Tm_GateReady) s) stopped.
Proof. apply silent_at; [|done]. intros t n. by exists t. Qed.

Lemma open_after_ack_at s :
  triple (at_ (Some Tm_RawAwaitAck) s) (transition_terminal open_after_ack)
    (fun _ => at_ (Some Tm_Active) s) stopped.
Proof. apply silent_at; [|done]. intros t n. by exists t. Qed.

Lemma pause_at s :
  triple (at_ (Some Tm_Active) s) (transition_terminal pause) (fun _ => at_ (Some Tm_Paused) s) stopped.
Proof. apply silent_at; [|done]. intros t n. by exists t. Qed.

Lemma mark_resumed_at s :
  triple (at_ (Some Tm_ResumeRaw) s) (transition_terminal mark_resumed)
    (fun _ => at_ (Some Tm_RawAwaitAck) s) stopped.
Proof. apply silent_at; [|done]. intros t n. by exists t. Qed.

Lemma transcript_at st s d l : at_ st s d → s ∈ l → transcript_in (history d) l.
Proof. intros [_ _ (v & _ & Hr & <- & _) _ _] Hl. by exists v. Qed.

Lemma enter_initial_raw_at :
  triple (at_ (Some Tm_GateReady) St_ReadyForGate) (transition_terminal enter_initial_raw)
    (fun _ => at_ (Some Tm_RawAwaitAck) St_ReadyForGate) stopped.
Proof.
  apply (operated_at _ _ _ _ Ta_Raw).
  - intros t n. unfold enter_initial_raw, tty_transition, ask, did, become, update. run_st. cbn.
    destruct (enter_raw_after_input_flush n) eqn:Hok; do 4 eexists; (split; [done|]); [|done].
    intros _. split; [by exists t|done].
  - intros d ok Hd. eapply transcript_at; [done|by left].
  - done.
Qed.

Lemma restore_for_suspend_at s :
  triple (at_ (Some Tm_Paused) s) (transition_terminal restore_for_suspend)
    (fun _ => at_ (Some Tm_SuspendedRestored) s) stopped.
Proof.
  apply (operated_at _ _ _ _ Ta_Restore).
  - intros t n. unfold restore_for_suspend, tty_transition, ask, did, become, update. run_st. cbn.
    destruct (restore_with_sigttou_block n) eqn:Hok; do 4 eexists; (split; [done|]); [|done].
    intros _. split; [by exists t|done].
  - done.
  - done.
Qed.

Lemma enter_resume_raw_at :
  triple (at_ (Some Tm_SuspendedRestored) St_Suspended) (transition_terminal enter_resume_raw)
    (fun _ => at_ (Some Tm_ResumeRaw) St_Suspended) stopped.
Proof.
  intros d Hd. pose proof Hd as [[t Ht] _ _ Ho _].
  unfold transition_terminal, with_owner. rewrite Ht.
  unfold enter_resume_raw, tty_transition, ask, did, become, update. run_st. cbn [here step acts].
  destruct (foreground_process_group_matches (steps d)); cbn [negb].
  2: { split; [done|]. cbn. by rewrite app_nil_r. }
  assert (∀ ok, due (history d) (Act_Tty (Ta_Raw ok))) as Hdue.
  { intros ok. eapply transcript_at; [done|]. right. by left. }
  destruct (enter_raw_after_input_flush _).
  - eapply operation_at; [done|done|by exists t|done].
  - split; [done|]. by apply (ord_snoc (history d)).
Qed.

Lemma restore_at s :
  triple (at_ (Some Tm_Quiesced) s) (transition_terminal restore)
    (fun _ => at_ (Some Tm_Restored) s) stopped.
Proof.
  apply (operated_at _ _ _ _ Ta_Restore).
  - intros t n. unfold restore, tty_transition, ask, did, become, update. run_st. cbn.
    destruct (restore_with_sigttou_block n) eqn:Hok; do 4 eexists; (split; [done|]); [|done].
    intros _. split; [by exists t|done].
  - done.
  - done.
Qed.

Lemma finish_at s :
  triple (at_ (Some Tm_Restored) s) (transition_terminal finish) (fun _ => at_ None s) stopped.
Proof.
  apply (operated_at _ _ _ _ Ta_Shutdown).
  - intros t n. unfold finish, ask, did, become, update. run_st. cbn.
    destruct (shutdown_write n) eqn:Hok; do 4 eexists; (split; [done|]); done.
  - done.
  - done.
Qed.
End transitions.

(** ** The functions of the drive *)

(** Case analysis of a message from a known state. *)
Ltac lead H :=
  let v := fresh "v" in let v' := fresh "v'" in
  let Hs := fresh "Hs" in let Hi := fresh "Hi" in let Hstep := fresh "Hstep" in
  destruct H as (v & v' & Hs & <- & Hi & Hstep); inversion Hstep; subst;
  cbn [set_state state set_allowance set_failure set_gate_pending set_cause set_gate_ever_opened] in *;
  repeat match goal with H : _ ∨ _ |- _ => destruct H end;
  try match goal with
  | H1 : state ?v = _, H2 : state ?v = _ |- _ => rewrite H1 in H2; discriminate H2
  | H1 : state ?v = _, H2 : natural_exit_state (state ?v) = true |- _ => rewrite H1 in H2; discriminate H2
  | H1 : state ?v = _, H2 : window_of (state ?v) = Some _ |- _ => rewrite H1 in H2; discriminate H2
  | H1 : recovery_command_allowance ?v = _, H2 : recovery_command_allowance ?v = _ |- _ =>
      rewrite H1 in H2; discriminate H2
  end.

(** The states of the bootstrap. *)
Definition starting (s : TerminalLifecycleState) : bool :=
  match s with
  | St_AwaitTerminalArmed | St_AwaitTerminalArmAcceptance | St_AwaitApp
  | St_AwaitAppDescriptorVerification | St_AwaitTui | St_AwaitTuiDescriptorVerification
  | St_AwaitReady | St_ReadyForGate => true
  | _ => false
  end.

Lemma failed_starting s : starting s = true → failed_state s = St_FailedAwaitQuiesced.
Proof. by destruct s. Qed.

Lemma start_event s e s' : starting s = true → leads s (Evt e) s' →
  match e with
  | Failed _ _ => s' = St_FailedAwaitQuiesced
  | Ready => s' = St_ReadyForGate
  | TerminalArmed _ | ChildStarted _ _ _ => starting s' = true ∧ s ≠ St_ReadyForGate
  | _ => False
  end.
Proof.
  intros Hst H. destruct H as (v & v' & <- & <- & Hi & Hstep).
  inversion Hstep; subst; cbn; try done;
    try (split; [done|congruence]); try by apply failed_starting.
  all: repeat match goal with H : _ ∨ _ |- _ => destruct H end;
    try match goal with H : state ?v = _ |- _ => by rewrite H in Hst end.
  match goal with H : natural_exit_state (state ?v) = true |- _ => by destruct (state v) end.
Qed.

Lemma start_command s c s' : starting s = true → leads s (Cmd c Applied) s' →
  match c with
  | TerminalArmAccepted | ChildDescriptorsVerified _ => starting s' = true ∧ s ≠ St_ReadyForGate
  | _ => True
  end.
Proof.
  intros Hst H. destruct c; try done; lead H; (split; [done|congruence]).
Qed.

(** The end of a failed branch. *)
Lemma triple_fail `{Environment} {A} P e (Q : A → ProductionCoordinator → Prop) :
  (∀ d, P d → stopped d) → triple P (drive_fail e) Q stopped.
Proof. intros HP d Hd. by apply HP. Qed.

(** After an event: the branch for the exhaustion event, which the drive never
    takes further, and the others. *)
Lemma triple_event `{Environment} {A} st e (P : TerminalLifecycleState → Prop) (k : DM A) Q :
  (e = UsageExhausted → triple stopped k Q stopped) →
  (e ≠ UsageExhausted → ∀ s', P s' → triple (at_ st s') k Q stopped) →
  triple (fun d => stopped d ∧ (e ≠ UsageExhausted → ∃ s', P s' ∧ at_ st s' d)) k Q stopped.
Proof.
  intros H1 H2 d [Hs Hd]. destruct (decide (e = UsageExhausted)) as [->|He]; [by apply H1|].
  destruct (Hd He) as (s' & HP & Hat). by apply (H2 He s' HP).
Qed.

Lemma natural_exit_keeps v : state (record_natural_exit v) = state v.
Proof. unfold record_natural_exit. by case_bool_decide. Qed.

Section functions.
Context {E : Environment} (bounds : CoordinatorBounds) (fuel : nat).

Lemma verify_at n deadline st s :
  triple (at_ (Some st) s) (verify_reported_child_descriptor_isolation bounds fuel n deadline)
    (fun _ => at_ (Some st) s) stopped.
Proof.
  assert (∀ x y, triple (at_ (Some st) s)
    (ready ← lifecycle_readable fuel x; if ready : bool then mret LifecycleReadable else drive_fail y)
    (fun _ => at_ (Some st) s) stopped) as Hlast.
  { intros x y. apply triple_then; [apply readable_quiet|]. intros [].
    - by apply triple_ret.
    - apply triple_fail, at_stopped. }
  induction n as [|n IH]; cbn [verify_reported_child_descriptor_isolation];
    [apply triple_throw, at_stopped|].
  apply triple_then; [auto with calcifer|]. intros observed. case_match; [apply Hlast|].
  case_match; [|apply triple_fail, at_stopped].
  apply triple_then; [auto with calcifer|]. intros answer.
  apply triple_then; [auto with calcifer|]. intros _.
  destruct (observation answer) as [|failure]; [by apply triple_ret|].
  case_match; [apply triple_fail, at_stopped|].
  apply triple_then; [auto with calcifer|]. intros observed'. case_match; [apply Hlast|].
  case_match; [|apply triple_fail, at_stopped].
  eapply triple_bind; [apply pump_output_at|]. intros [].
  apply triple_then; [apply readable_quiet|]. intros []; [by apply triple_ret|apply IH].
Qed.

(** What the bootstrap returns in. *)
Definition bootstrapped (o : BootstrapOutcome) (d : ProductionCoordinator) : Prop :=
  at_ (Some Tm_OutputOnly) (match o with Bo_Ready => St_ReadyForGate | Bo_Failed => St_FailedAwaitQuiesced end) d.

Lemma bootstrap_loop_at n snapshot gate s :
  starting s = true → (gate_ready gate = true → s = St_ReadyForGate) →
  triple (at_ (Some Tm_OutputOnly) s) (bootstrap_loop bounds fuel n snapshot gate) bootstrapped stopped.
Proof.
  revert gate s. induction n as [|n IH]; intros gate s Hs Hg; cbn [bootstrap_loop];
    [apply triple_throw, at_stopped|].
  match goal with |- triple _ (match _ with Some _ => _ | None => if _ then _ else ?receive end) _ _ =>
    assert (triple (at_ (Some Tm_OutputOnly) s) receive bootstrapped stopped) as Hreceive end.
  { eapply triple_bind; [apply next_event_at|]. intros event.
    apply triple_event; [intros ->; by apply triple_fail|].
    intros _ s' Hlead. apply start_event in Hlead; [|done].
    destruct event; try done.
    - destruct Hlead as [Hs' Hne].
      assert (gate_ready gate = false) as Hg' by (apply not_true_iff_false; auto).
      case_bool_decide; [|apply triple_fail, at_stopped].
      eapply triple_bind; [apply command_at; intros d Hd; apply (at_mode _ _ _ Hd)|]. intros [].
      apply triple_exists. intros s''. apply triple_pure. intros Hlead'.
      apply start_command in Hlead' as [? _]; [|done]. apply IH; [done|by rewrite Hg'].
    - destruct Hlead as [Hs' Hne].
      assert (gate_ready gate = false) as Hg' by (apply not_true_iff_false; auto).
      apply triple_then; [auto with calcifer|]. intros deadline.
      destruct (gate_insert _ _ _) as [gate'|] eqn:Hi; [|apply triple_fail, at_stopped].
      apply IH; [done|]. destruct role; cbn in Hi; case_match; by simplify_eq/=; rewrite Hg'.
    - subst s'. apply triple_then; [auto with calcifer|]. intros _. by apply IH.
    - subst s'. by apply triple_ret. }
  destruct (first_pending gate) as [[role p]|].
  - eapply triple_bind; [apply verify_at|]. intros []; [|done].
    eapply triple_bind; [apply command_at; intros d Hd; apply (at_mode _ _ _ Hd)|]. intros [].
    apply triple_exists. intros s'. apply triple_pure. intros Hlead.
    apply start_command in Hlead as [Hs' Hne]; [|done].
    apply IH; [done|]. intros Hgate. destruct Hne, role; by apply Hg.
  - destruct (gate_ready gate) eqn:Hready; [|done]. rewrite (Hg eq_refl). by apply triple_ret.
Qed.

Lemma bootstrap_at :
  triple (at_ (Some Tm_OutputOnly) St_AwaitLeaseBeforeStart) (bootstrap bounds fuel) bootstrapped stopped.
Proof.
  unfold bootstrap. eapply triple_bind; [apply next_event_at|]. intros event.
  apply triple_event; [intros ->; by apply triple_fail|]. intros _ s' Hlead.
  case_bool_decide as He; cbn [negb]; [|apply triple_fail, at_stopped].
  subst event. assert (s' = St_AwaitStart) as -> by (by lead Hlead).
  eapply triple_bind; [apply command_at; intros d Hd; apply (at_mode _ _ _ Hd)|]. intros [].
  apply triple_exists. intros s'. apply triple_pure. intros Hlead'.
  assert (s' = St_AwaitTerminalArmed) as -> by (by lead Hlead').
  apply triple_then; [done|]. intros d0.
  destruct (terminal d0) as [owner|]; [|apply triple_fail, at_stopped].
  destruct (snapshot_fingerprint owner) as [snapshot|]; [|apply triple_fail, at_stopped].
  by apply bootstrap_loop_at.
Qed.

(** Somewhere before the end, in transcript state [s]. *)
Definition live_at (s : TerminalLifecycleState) (d : ProductionCoordinator) : Prop :=
  ∃ st, st ≠ Tm_Restored ∧ at_ (Some st) s d.

Lemma live_stopped s d : live_at s d → stopped d.
Proof. intros (st & _ & Hd). by eapply at_stopped. Qed.

Definition gated (o : GateOutcome) (d : ProductionCoordinator) : Prop :=
  at_ (Some Tm_RawAwaitAck) (match o with Go_Open => St_Active | Go_Failed => St_FailedAwaitQuiesced end) d.

Lemma open_gate_at :
  triple (at_ (Some Tm_RawAwaitAck) St_ReadyForGate) (open_gate_with_output bounds fuel) gated stopped.
Proof.
  unfold open_gate_with_output.
  eapply triple_bind; [apply command_at; intros d Hd; apply (at_mode _ _ _ Hd)|]. intros [].
  apply triple_exists. intros s. apply triple_pure. intros Hlead.
  assert (s = St_AwaitGateOpened) as -> by (by lead Hlead).
  eapply triple_bind; [apply next_event_at|]. intros event.
  apply triple_event; [intros ->; by apply triple_fail|]. intros _ s' Hlead'.
  destruct event; try (apply triple_fail, at_stopped).
  - assert (s' = St_Active) as -> by (by lead Hlead').
    apply triple_then; [auto with calcifer|]. intros []. by apply triple_ret.
  - assert (s' = St_FailedAwaitQuiesced) as -> by (lead Hlead'; by rewrite Hs). by apply triple_ret.
Qed.

(** What a control leaves, from an owner and transcript state that [Continue]
    keeps. *)
Definition controlled (st : TerminalState) (s : TerminalLifecycleState) (o : ControlOutcome)
    (d : ProductionCoordinator) : Prop :=
  match o with
  | Co_Continue => at_ (Some st) s d
  | Co_Shutdown => live_at St_AwaitQuiesced d
  | Co_Quiesced => live_at St_Quiesced d
  | Co_Failed => live_at St_FailedAwaitQuiesced d
  end.

Lemma forward_signal_at st s signal : st ≠ Tm_Restored → s = St_Active ∨ s = St_Suspended →
  triple (at_ (Some st) s) (forward_signal bounds fuel signal) (controlled st s) stopped.
Proof.
  intros Hst Hs. unfold forward_signal. eapply triple_bind; [by apply command_at|]. intros [].
  apply triple_exists. intros s1. apply triple_pure. intros Hlead.
  assert (s1 = St_AwaitSignalForwarded signal (bool_decide (s = St_Suspended))) as ->.
  { destruct Hs as [-> | ->]; by lead Hlead. }
  eapply triple_bind; [apply next_event_at|]. intros event.
  apply triple_event; [intros ->; destruct signal; by apply triple_fail|]. intros _ s' Hlead'.
  destruct event; try (destruct signal; apply triple_fail, at_stopped).
  - destruct (bool_decide_reflect (signal0 = signal)) as [->|];
      [|destruct signal; apply triple_fail, at_stopped].
    assert (s' = match signal with Hup | Term => St_AwaitQuiesced | _ => s end) as ->.
    { destruct Hs as [-> | ->]; lead Hlead'; rewrite Hs in *; simplify_eq; by try destruct signal. }
    destruct signal; apply triple_ret; intros d Hd; try done; by exists st.
  - destruct signal; try (apply triple_fail, at_stopped).
    all: assert (s' = St_Quiesced) as -> by
      (lead Hlead'; by rewrite ?natural_exit_keeps).
    all: apply triple_ret; intros d Hd; by exists st.
  - assert (s' = St_FailedAwaitQuiesced) as -> by (lead Hlead'; by rewrite Hs0).
    destruct signal; apply triple_ret; intros d Hd; by exists st.
Qed.

Lemma resize_at :
  triple (at_ (Some Tm_Active) St_Active) (resize bounds fuel) (controlled Tm_Active St_Active) stopped.
Proof.
  unfold resize. eapply triple_bind; [apply size_at|]. intros size.
  eapply triple_bind; [by apply command_at|]. intros [].
  apply triple_exists. intros s1. apply triple_pure. intros Hlead.
  assert (s1 = St_AwaitResizeApplied size.1 size.2) as -> by (by lead Hlead).
  eapply triple_bind; [apply next_event_at|]. intros event.
  apply triple_event; [intros ->; by apply triple_fail|]. intros _ s' Hlead'.
  destruct event; try (apply triple_fail, at_stopped).
  - assert (s' = St_Active) as -> by (by lead Hlead').
    case_match; [by apply triple_ret|apply triple_fail, at_stopped].
  - assert (s' = St_Quiesced) as -> by (lead Hlead'; by rewrite ?natural_exit_keeps).
    apply triple_ret. intros d Hd. by exists Tm_Active.
  - assert (s' = St_FailedAwaitQuiesced) as -> by (lead Hlead'; by rewrite Hs).
    apply triple_ret. intros d Hd. by exists Tm_Active.
Qed.

Lemma resume_at :
  triple (at_ (Some Tm_SuspendedRestored) St_Suspended) (resume_after_continue bounds fuel)
    (controlled Tm_Active St_Active) stopped.
Proof.
  unfold resume_after_continue. eapply triple_bind; [apply enter_resume_raw_at|]. intros [].
  apply triple_then; [apply quiet_signals|]. intros [].
  eapply triple_bind; [apply size_at|]. intros size.
  eapply triple_bind; [by apply command_at|]. intros [].
  apply triple_exists. intros s1. apply triple_pure. intros Hlead.
  assert (s1 = St_AwaitResumed size.1 size.2) as -> by (by lead Hlead).
  eapply triple_bind; [apply next_event_at|]. intros event.
  apply triple_event; [intros ->; by apply triple_fail|]. intros _ s' Hlead'.
  destruct event; try (apply triple_fail, at_stopped).
  - assert (s' = St_ReadyForGate) as -> by (by lead Hlead').
    case_match; [|apply triple_fail, at_stopped].
    apply triple_then; [auto with calcifer|]. intros [].
    eapply triple_bind; [apply mark_resumed_at|]. intros [].
    eapply triple_bind; [apply open_gate_at|]. intros [].
    + eapply triple_bind; [apply open_after_ack_at|]. intros []. by apply triple_ret.
    + apply triple_ret. intros d Hd. by exists Tm_RawAwaitAck.
  - assert (s' = St_FailedAwaitQuiesced) as -> by (lead Hlead'; by rewrite Hs).
    apply triple_ret. intros d Hd. by exists Tm_ResumeRaw.
Qed.

Lemma stop_at s : s = St_Suspended →
  triple (at_ (Some Tm_SuspendedRestored) s) stop_after_suspended_ack
    (fun _ => at_ (Some Tm_SuspendedRestored) s) stopped.
Proof.
  intros ->. unfold stop_after_suspended_ack. apply triple_then; [auto with calcifer|].
  intros []; cbn [negb]; [|apply triple_fail, at_stopped].
  apply triple_then; [apply quiet_signals|]. intros [].
  apply triple_then; [auto with calcifer|]. intros []; [|apply triple_fail, at_stopped].
  apply triple_modify. intros d Hd. pose proof Hd as [O M R Ho U].
  split; cbn [terminal lifecycle history add_history].
  - done.
  - by rewrite tty_after_snoc.
  - rewrite labels_app. cbn. by rewrite app_nil_r.
  - constructor; [done|]. split; [|done]. eapply transcript_at; [done|by left].
  - intros [?|?%list_elem_of_singleton]%elem_of_app; done.
Qed.

Lemma suspended_loop_at n deadline :
  triple (at_ (Some Tm_SuspendedRestored) St_Suspended) (suspended_loop bounds fuel n deadline)
    (controlled Tm_Active St_Active) stopped.
Proof.
  induction n as [|n IH]; cbn [suspended_loop]; [apply triple_throw, at_stopped|].
  eapply triple_bind; [apply pump_output_at|]. intros [].
  apply triple_then; [unfold next_suspended; auto with calcifer|]. intros action.
  match goal with |- context [match action with None => ?wait | _ => _ end] =>
    assert (triple (at_ (Some Tm_SuspendedRestored) St_Suspended) wait
      (controlled Tm_Active St_Active) stopped) as Hwait end.
  { apply triple_then; [auto with calcifer|]. intros turn.
    apply triple_then; [apply readable_quiet|]. intros [].
    - eapply triple_bind; [apply receive_at|]. intros event.
      apply triple_event; [intros ->; by apply triple_fail|]. intros _ s' Hlead.
      destruct event; try (apply triple_fail, at_stopped).
      assert (s' = St_FailedAwaitQuiesced) as -> by (lead Hlead; by rewrite Hs).
      apply triple_ret. intros d Hd. by exists Tm_SuspendedRestored.
    - apply triple_then; [auto with calcifer|]. by intros []. }
  destruct action as [[signal| | |]|]; try (apply triple_fail, at_stopped);
    [|apply resume_at|apply Hwait].
  eapply triple_bind; [apply forward_signal_at; [done|by right]|].
  intros []; [apply Hwait|by apply triple_ret..].
Qed.

Lemma suspend_at :
  triple (at_ (Some Tm_Active) St_Active) (suspend_and_resume bounds fuel)
    (controlled Tm_Active St_Active) stopped.
Proof.
  unfold suspend_and_resume. eapply triple_bind; [apply pause_at|]. intros [].
  eapply triple_bind; [by apply command_at|]. intros [].
  apply triple_exists. intros s1. apply triple_pure. intros Hlead.
  assert (s1 = St_AwaitSuspended) as -> by (by lead Hlead).
  eapply triple_bind; [apply next_event_at|]. intros event.
  apply triple_event; [intros ->; by apply triple_fail|]. intros _ s' Hlead'.
  destruct event; try (apply triple_fail, at_stopped).
  - assert (s' = St_Suspended) as -> by (by lead Hlead').
    eapply triple_bind; [apply restore_for_suspend_at|]. intros [].
    eapply triple_bind; [by apply stop_at|]. intros [].
    apply triple_then; [auto with calcifer|]. intros deadline. apply suspended_loop_at.
  - assert (s' = St_FailedAwaitQuiesced) as -> by (lead Hlead'; by rewrite Hs).
    apply triple_ret. intros d Hd. by exists Tm_Paused.
Qed.

Lemma handle_control_at action :
  triple (at_ (Some Tm_Active) St_Active) (handle_control bounds fuel action)
    (controlled Tm_Active St_Active) stopped.
Proof.
  destruct action; cbn [handle_control].
  - apply forward_signal_at; [done|by left].
  - apply resize_at.
  - apply suspend_at.
  - apply triple_fail, at_stopped.
Qed.

Lemma quiescence_loop_at n deadline st s :
  st ≠ Tm_Restored → s = St_AwaitQuiesced ∨ s = St_FailedAwaitQuiesced →
  triple (at_ (Some st) s) (quiescence_loop bounds fuel n deadline) (fun _ => live_at St_Quiesced) stopped.
Proof.
  intros Hst. revert s. induction n as [|n IH]; intros s Hs; cbn [quiescence_loop];
    [apply triple_throw, at_stopped|].
  eapply triple_bind; [apply pump_output_at|]. intros [].
  apply triple_then; [auto with calcifer|]. intros turn.
  apply triple_then; [apply readable_quiet|]. intros [].
  - eapply triple_bind; [apply receive_at|]. intros event.
    apply triple_event; [intros ->; by apply triple_fail|]. intros _ s' Hlead.
    destruct event; try (apply triple_fail, at_stopped).
    + assert (s' = St_Quiesced) as -> by (destruct Hs as [-> | ->]; lead Hlead; by rewrite ?natural_exit_keeps).
      apply triple_ret. intros d Hd. by exists st.
    + assert (s' = St_FailedAwaitQuiesced) as -> by (destruct Hs as [-> | ->]; lead Hlead; by rewrite Hs).
      apply triple_then; [done|]. intros d0. destruct (session_failed d0); [apply triple_fail, at_stopped|].
      apply triple_then; [auto with calcifer|]. intros [].
      apply triple_then; [auto with calcifer|]. intros []. apply IH. by right.
  - apply triple_then; [auto with calcifer|]. intros []. by apply IH.
Qed.

Lemma await_quiescence_at s : s = St_AwaitQuiesced ∨ s = St_FailedAwaitQuiesced →
  triple (live_at s) (await_quiescence bounds fuel) (fun _ => live_at St_Quiesced) stopped.
Proof.
  intros Hs. apply triple_exists. intros st. apply triple_pure. intros Hst.
  unfold await_quiescence. apply triple_then; [auto with calcifer|]. intros deadline.
  by eapply quiescence_loop_at.
Qed.

(** Any assertion that quiet computations keep. *)
Lemma triple_still {A} (P : ProductionCoordinator → Prop) (m : DM A) :
  quiet m → (∀ d d', same d d' → P d → P d') → (∀ d, P d → stopped d) →
  triple P m (fun _ => P) stopped.
Proof.
  intros Hm HP Hst d Hd. specialize (Hm d). destruct (m d) as [[a|e] d']; cbn in Hm.
  - by eapply HP.
  - eapply same_stopped; [done|by apply Hst].
Qed.
Lemma live_same s d d' : same d d' → live_at s d → live_at s d'.
Proof. intros H (st & Hst & Hd). exists st. split; [done|by eapply same_at]. Qed.

Lemma failed_shutdown_at :
  triple (live_at St_FailedAwaitQuiesced) (failed_shutdown bounds fuel) (fun _ => live_at St_Quiesced) stopped.
Proof.
  unfold failed_shutdown.
  eapply triple_bind; [apply triple_still; [auto with calcifer|apply live_same|apply live_stopped]|].
  intros []. eapply triple_bind; [apply triple_still; [auto with calcifer|apply live_same|apply live_stopped]|].
  intros []. apply await_quiescence_at. by right.
Qed.

Definition activated (o : ActiveOutcome) : ProductionCoordinator → Prop :=
  live_at (match o with Ao_Quiesced => St_Quiesced | Ao_Failed => St_FailedAwaitQuiesced end).

Lemma run_active_at n :
  triple (at_ (Some Tm_Active) St_Active) (run_active bounds fuel n) activated stopped.
Proof.
  induction n as [|n IH]; cbn [run_active]; [apply triple_throw, at_stopped|].
  apply triple_then; [auto with calcifer|]. intros turn.
  eapply triple_bind; [apply pump_output_at|]. intros [].
  apply triple_then; [auto with calcifer|]. intros input_deadline.
  eapply triple_bind; [apply pump_input_at|]. intros [].
  apply triple_then; [unfold next_active; auto with calcifer|]. intros action.
  eapply (triple_bind _ _ _ (controlled Tm_Active St_Active)).
  { destruct action; [apply handle_control_at|by apply triple_ret]. }
  intros []; cbn [controlled]; [|..|by apply triple_ret|by apply triple_ret].
  - apply triple_then; [auto with calcifer|]. intros poll_deadline.
    apply triple_then; [apply readable_quiet|]. intros [].
    + apply triple_then; [auto with calcifer|]. intros deadline.
      eapply triple_bind; [apply receive_at|]. intros event.
      apply triple_event; [intros ->; by apply triple_fail|]. intros _ s' Hlead.
      destruct event; try (apply triple_fail, at_stopped).
      * assert (s' = St_Quiesced) as -> by (lead Hlead; by rewrite ?natural_exit_keeps).
        apply triple_ret. intros d Hd. by exists Tm_Active.
      * assert (s' = St_FailedAwaitQuiesced) as -> by (lead Hlead; by rewrite Hs).
        apply triple_ret. intros d Hd. by exists Tm_Active.
    + apply triple_then; [auto with calcifer|]. by intros [].
  - eapply triple_bind; [apply triple_still; [auto with calcifer|apply live_same|apply live_stopped]|].
    intros []. eapply triple_bind; [apply await_quiescence_at; by left|].
    intros []. by apply triple_ret.
Qed.

(** *** The end *)

Definition report_event (r : CoordinatorTerminalReport) : GuardianEvent :=
  ChildrenReaped (rp_app r) (rp_tui r) (rp_worker r) (rp_cleanup r) (rp_session r) (rp_guardian_exit r).

(** The final report was accepted, and proves [exit]. *)
Definition reported (r : CoordinatorTerminalReport) (exit : GuardianExitDisposition)
    (d : ProductionCoordinator) : Prop :=
  terminal d = Some Finished ∧ orderly (history d) ∧ unexhausted (history d) ∧
  tty_after (history d) = Cooked ∧
  ∃ tr v, labels (history d) = tr ++ [Evt (report_event r)] ∧
    replay (labels (history d)) = Some v ∧ state v = St_Terminal ∧
    terminal_exit_disposition v = Some exit.

Lemma reported_stopped r x d : reported r x d → stopped d.
Proof. intros (Ht & Ho & _). split; [by rewrite Ht|done]. Qed.
Lemma reported_same r x d d' : same d d' → reported r x d → reported r x d'.
Proof. intros (Ht & Hh & _). unfold reported. by rewrite Ht, Hh. Qed.

Lemma receive_last d e d' : receive_without_terminal_pump bounds d = (Ok e, d') →
  ∃ h, history d' = h ++ [Act_Event e].
Proof.
  unfold receive_without_terminal_pump, lifecycle_receive, did_act, drive_fail. run_st.
  destruct (phase_deadline bounds d) as [[deadline|?] d1]; [|done].
  destruct (query now d1) as [[observed|?] d2]; [|done]. destruct (_ <=? _); [done|].
  destruct (on_lifecycle _ d2) as [[e0|?] d3]; [|done].
  intros [= <- <-]. by exists (history d3).
Qed.

(** The exit disposition is the one the transcript proves. *)
Lemma take_exit_at app tui worker cleanup session guardian_exit :
  triple (fun d => at_ None St_Terminal d ∧
      ∃ h, history d = h ++ [Act_Event (ChildrenReaped app tui worker cleanup session guardian_exit)])
    (take_proof coordinator_take_exit)
    (fun exit => reported (mkReport app tui worker cleanup session guardian_exit) exit) stopped.
Proof.
  intros d [Hd [h Hh]]. pose proof Hd as [O M (v & Hv & Hr & Hs & Hi) Ho U].
  pose proof (on_lifecycle_stopped coordinator_take_exit d _ _ Hd) as Hst.
  unfold take_proof. destruct (on_lifecycle_frame coordinator_take_exit d) as [Ht Hh'].
  unfold on_lifecycle, coordinator_take_exit, take_terminal_exit_disposition in *. cbn in *.
  destruct (cr_poisoned (lifecycle d)); [done|]. rewrite Hv in *. run_st in Ht. run_st in Hh'.
  run_st. run_st in Hst. cbn in *.
  destruct (terminal_exit_disposition v) as [exit|] eqn:He; cbn in *; [|done].
  split_and!; try done. exists (labels h), v. split_and!; try done.
  cbn [history set_steps set_lifecycle]. by rewrite Hh, labels_app.
Qed.

Lemma final_report_at n :
  triple (at_ None St_RecoveryDisarmed) (final_report bounds n)
    (fun x => reported x.1 x.2) stopped.
Proof.
  induction n as [|n IH]; cbn [final_report]; [apply triple_throw, at_stopped|].
  eapply (triple_bind _ _ _ (fun e d => (stopped d ∧ (e ≠ UsageExhausted →
    ∃ s', leads St_RecoveryDisarmed (Evt e) s' ∧ at_ None s' d)) ∧ ∃ h, history d = h ++ [Act_Event e])).
  { intros d Hd. pose proof (receive_without_pump_at bounds None St_RecoveryDisarmed d Hd) as H.
    pose proof (receive_last d) as Hl.
    destruct (receive_without_terminal_pump bounds d) as [[e|x] d']; [|done]. by split; [|apply Hl]. }
  intros event d [[Hst Hd] Hh].
  destruct event as [ | | | | | | | | | | | |p c|app tui worker cleanup session exit]; try done.
  - destruct Hd as (s' & Hlead & Hd); [done|].
    destruct p; try (by apply at_stopped in Hd); destruct c; try (by apply at_stopped in Hd).
    assert (s' = St_RecoveryDisarmed) as -> by (lead Hlead; by rewrite Hs).
    revert d Hst Hh Hd. intros d _ _. revert d.
    change (triple (at_ None St_RecoveryDisarmed) (d ← get_st;
      if session_failed d then drive_fail De_Protocol
      else _ ← modify_st set_session_failed; final_report bounds n)
      (fun x => reported x.1 x.2) stopped).
    apply triple_then; [done|]. intros d0. destruct (session_failed d0); [apply triple_fail, at_stopped|].
    apply triple_then; [auto with calcifer|]. by intros [].
  - destruct Hd as (s' & Hlead & Hd); [done|]. assert (s' = St_Terminal) as -> by (by lead Hlead).
    revert d Hd Hst Hh. intros d Hd _ Hh.
    eapply (triple_bind _ _ _ _ _ _ (take_exit_at app tui worker cleanup session exit)); [|by split].
    intros verified. by apply triple_ret.
Qed.
End functions.
