(* ===== verification/DriveTermination.v ===== *)
(** * The coordinator's bounded waits end

    Against a clock that advances at every reading, a wait with an outer
    deadline returns or fails; its loop never needs more turns than the
    deadline is away. *)
From S2P Require Import Prelude Interfaces Wire Receivers CoordinatorTerminal CoordinatorDrive.

Open Scope Z_scope.

(** Computations that contain no loop. *)
Definition loopless {S F A} (m : stM S (looping F) A) : Prop := ∀ s, (m s).1 ≠ Err OutOfFuel.
(** Terminal operations only move the step counter forward. *)
Definition advances {X F A} (m : stM (At X) F A) : Prop := ∀ s, (step s <= step (m s).2)%nat.

Section loopless.
Context {S F : Type}.

Lemma loopless_bind {A B} (m : stM S (looping F) A) (k : A → stM S (looping F) B) :
  loopless m → (∀ a, loopless (k a)) → loopless (m ≫= k).
Proof.
  intros Hm Hk s. specialize (Hm s). unfold mbind, stM_bind.
  destruct (m s) as [[a|e] s']; cbn in *; [apply Hk|congruence].
Qed.
Lemma loopless_now {A} (m : stM S (looping F) A) :
  (∀ s, ∃ r s', m s = (r, s') ∧ r ≠ Err OutOfFuel) → loopless m.
Proof. intros H s. by destruct (H s) as (r & s' & -> & ?). Qed.
End loopless.

Section advances.
Context {X F : Type}.
Lemma advances_bind {A B} (m : stM (At X) F A) (k : A → stM (At X) F B) :
  advances m → (∀ a, advances (k a)) → advances (m ≫= k).
Proof.
  intros Hm Hk s. specialize (Hm s). unfold mbind, stM_bind.
  destruct (m s) as [[a|e] s']; cbn in *; [|done]. etrans; [done|apply Hk].
Qed.
End advances.

Ltac loopless_tac :=
  repeat first
    [ apply loopless_now; intros ?; do 2 eexists; split; [reflexivity|discriminate]
    | assumption | progress intros | apply loopless_bind | case_match ].
Ltac advances_tac :=
  repeat first
    [ intros ?; cbn; lia | assumption | apply advances_bind | case_match | progress intros ].

Section pump.
Context {E : Environment}.

Lemma read_output_ends : loopless read_output ∧ advances read_output.
Proof. unfold read_output, deliver, ok_or_fail, term_fail. split; [loopless_tac|advances_tac]. Qed.
Lemma write_output_ends : loopless write_output ∧ advances write_output.
Proof. unfold write_output, ok_or_fail, term_fail. split; [loopless_tac|advances_tac]. Qed.
Lemma pump_output_ends stall outer :
  loopless (terminal_pump_output_once stall outer) ∧ advances (terminal_pump_output_once stall outer).
Proof.
  destruct read_output_ends, write_output_ends.
  unfold terminal_pump_output_once, pump_output_state_once, flush_output_once, ok_or_fail, term_fail.
  split; [loopless_tac|advances_tac].
Qed.

(** Past the outer deadline a turn fails. *)
Lemma pump_output_late stall outer s : outer <= now (step s) →
  is_ok (terminal_pump_output_once stall outer s).1 = false.
Proof.
  intros Hlate. unfold terminal_pump_output_once. case_match; [done|].
  unfold pump_output_state_once, ask, term_fail, ok_or_fail. run_st. cbn [here step acts].
  assert (outer <=? now (step s) = true) as Hl by (by apply Z.leb_le).
  destruct (is_pending _); [|by rewrite Hl].
  destruct (output_stall_deadline _); [|done]. run_st. by rewrite Hl, orb_true_r.
Qed.
End pump.

(** ** The waits *)

Section waits.
Context {E : Environment} (bounds : CoordinatorBounds).
Hypothesis clock_advances : ∀ n, now n < now (S n).

Lemma clock_after n m : (n <= m)%nat → now n + (Z.of_nat m - Z.of_nat n) <= now m.
Proof using clock_advances.
  induction 1 as [|m Hm IH]; [lia|]. specialize (clock_advances m). lia.
Qed.

(** A live owner before restoration. *)
Definition live_owner (d : ProductionCoordinator) : Prop :=
  ∃ st t, terminal d = Some (Live st t) ∧ st ≠ Tm_Restored.

Lemma owner_pump_ends observed outer stall st t n : st ≠ Tm_Restored → observed <= now n →
  let '(r, s') := pump_output_with_exact_owner observed outer stall (mkAt (Live st t) n []) in
  r ≠ Err OutOfFuel ∧ (is_ok r = true → now n < outer) ∧ (n <= step s')%nat ∧
  ∃ t', here s' = Live st t'.
Proof using clock_advances.
  intros Hst Hobs. unfold pump_output_with_exact_owner.
  destruct (_ && _); [split_and!; try done; by exists t|].
  assert (owner_pump_output_once stall outer (mkAt (Live st t) n []) =
    on_live (terminal_pump_output_once stall outer) Cp_Idle (mkAt (Live st t) n [])) as ->.
  { unfold owner_pump_output_once. run_st. by destruct st. }
  unfold on_live. cbn [here step acts].
  destruct (pump_output_ends stall outer) as [Hl Ha].
  specialize (Hl (mkAt t n [])). specialize (Ha (mkAt t n [])).
  pose proof (pump_output_late stall outer (mkAt t n [])) as Hlate. cbn in Hlate.
  destruct (terminal_pump_output_once _ _ _) as [[p|[e|]] s']; cbn in *; [|destruct (_ && _)|done].
  - split_and!; try done; [|by exists (here s')].
    intros _. apply Z.nle_gt. intros H. by apply Hlate in H.
  - split_and!; try done. by exists (here s').
  - split_and!; try done. by exists (here s').
Qed.

Lemma with_owner_pump_ends observed outer stall d : live_owner d → observed <= now (steps d) →
  let '(r, d') := with_owner (pump_output_with_exact_owner observed outer stall) d in
  r ≠ Err OutOfFuel ∧ (is_ok r = true → now (steps d) < outer) ∧ (steps d <= steps d')%nat ∧
  live_owner d'.
Proof using clock_advances.
  intros (st & t & Ht & Hst) Hobs. unfold with_owner. rewrite Ht.
  pose proof (owner_pump_ends observed outer stall st t (steps d) Hst Hobs) as H.
  destruct (pump_output_with_exact_owner _ _ _ _) as [r s']. destruct H as (H1 & H2 & H3 & t' & H4).
  split_and!; try done. exists st, t'. cbn. by rewrite H4.
Qed.

(** The pump before each turn fails once the deadline has passed. *)
Lemma pump_before_ends outer d : live_owner d →
  let '(r, d') := pump_output_before bounds outer d in
  r ≠ Err OutOfFuel ∧ (is_ok r = true → now (steps d) < outer) ∧ (steps d < steps d')%nat ∧
  live_owner d'.
Proof using clock_advances.
  intros Hd. unfold pump_output_before, query. run_st.
  pose proof (with_owner_pump_ends (now (steps d)) outer (output_stall_timeout bounds)
    (set_steps (S (steps d)) d)) as H. cbn [steps set_steps] in H.
  specialize (clock_advances (steps d)). specialize (H Hd ltac:(lia)).
  destruct (with_owner _ _) as [[p|e] d']; destruct H as (H1 & H2 & H3 & H4); split_and!; try done.
  - intros _. specialize (H2 eq_refl). lia.
  - congruence.
Qed.

Lemma readable_ends n deadline d : (0 < n)%nat → deadline - now (steps d) < Z.of_nat n →
  let '(r, d') := lifecycle_descriptor_readable n deadline d in
  r ≠ Err OutOfFuel ∧ (steps d < steps d')%nat ∧ terminal d' = terminal d.
Proof using clock_advances.
  revert d. induction n as [|n IH]; intros d Hn Hd; [lia|]. cbn [lifecycle_descriptor_readable].
  unfold query, drive_fail. run_st. cbn [steps set_steps].
  destruct (poll (S (steps d))); try (split_and!; [done|cbn; lia|done]). cbn [steps set_steps].
  destruct (Z.ltb_spec (now (S (S (steps d)))) deadline) as [Hlt|]; [|split_and!; [done|cbn; lia|done]].
  set (d3 := set_steps (S (S (S (steps d)))) (set_steps (S (S (steps d))) (set_steps (S (steps d)) d))).
  pose proof (clock_after (steps d) (S (S (steps d))) ltac:(lia)) as H2.
  pose proof (clock_after (steps d) (steps d3) ltac:(cbn; lia)) as H3. cbn [steps set_steps d3] in H3.
  specialize (IH d3 ltac:(lia) ltac:(cbn [steps set_steps d3]; lia)).
  destruct (lifecycle_descriptor_readable n deadline d3) as [r d']. cbn [steps set_steps d3] in IH.
  destruct IH as (? & ? & ?). split_and!; [done|lia|done].
Qed.

Lemma turn_deadline_ends outer d :
  let '(r, d') := turn_deadline bounds outer d in
  r ≠ Err OutOfFuel ∧ steps d' = S (steps d) ∧ terminal d' = terminal d ∧
  (∀ turn, r = Ok turn → turn <= outer).
Proof.
  unfold turn_deadline, query, drive_fail. run_st. cbn [steps set_steps].
  destruct (instant_add _ _); split_and!; try done. intros turn [= <-]. lia.
Qed.

Lemma guardian_live_ends d :
  let '(r, d') := ensure_guardian_live d in
  r ≠ Err OutOfFuel ∧ (steps d <= steps d')%nat ∧ terminal d' = terminal d.
Proof.
  unfold ensure_guardian_live, query, drive_fail. run_st.
  destruct (guardian_status d); [done|]. destruct (try_wait _) as [[status|]|[]]; cbn; split_and!; (done || lia).
Qed.

Lemma receive_loopless deadline : loopless (lifecycle_receive deadline).
Proof.
  unfold lifecycle_receive. apply loopless_bind; [|intros e; apply loopless_bind]; try done.
  intros d. unfold on_lifecycle. by destruct (coordinator_receive _ _ _) as [[e|x] r].
Qed.

(** With [deadline] less than [fuel] ticks away. *)
Definition within (fuel : nat) (deadline : Z) (d : ProductionCoordinator) : Prop :=
  (0 < fuel)%nat ∧ deadline - now (steps d) < Z.of_nat fuel.

Lemma receive_with_output_ends fuel n deadline d : live_owner d →
  within fuel deadline d → within n deadline d →
  (receive_with_output bounds fuel n deadline d).1 ≠ Err OutOfFuel.
Proof using clock_advances.
  revert d. induction n as [|n IH]; intros d Hd [Hf Hfuel] [Hn Hin]; [lia|].
  cbn [receive_with_output]. unfold mbind at 1, stM_bind at 1.
  pose proof (pump_before_ends deadline d Hd) as Hp.
  destruct (pump_output_before bounds deadline d) as [[[]|e] d1]; destruct Hp as (Hp1 & Hp2 & Hp3 & Hp4);
    [|cbn; congruence].
  specialize (Hp2 eq_refl). unfold mbind at 1, stM_bind at 1.
  pose proof (turn_deadline_ends deadline d1) as Ht.
  destruct (turn_deadline bounds deadline d1) as [[turn|e] d2]; destruct Ht as (Ht1 & Ht2 & Ht3 & Ht4);
    [|cbn; congruence].
  specialize (Ht4 turn eq_refl). unfold mbind at 1, stM_bind at 1.
  pose proof (clock_after (steps d) (steps d2) ltac:(lia)) as Hc2.
  pose proof (readable_ends fuel turn d2 Hf ltac:(lia)) as Hr. unfold lifecycle_readable.
  destruct (lifecycle_descriptor_readable fuel turn d2) as [[readable|e] d3];
    destruct Hr as (Hr1 & Hr2 & Hr3); [|cbn; congruence].
  destruct readable; [apply receive_loopless|]. unfold mbind at 1, stM_bind at 1.
  pose proof (guardian_live_ends d3) as Hg.
  destruct (ensure_guardian_live d3) as [[[]|e] d4]; destruct Hg as (Hg1 & Hg2 & Hg3); [|cbn; congruence].
  pose proof (clock_after (steps d) (steps d4) ltac:(lia)) as Hc4.
  apply IH; [|split; lia..]. unfold live_owner. by rewrite Hg3, Hr3, Ht3.
Qed.

Lemma drain_output_ends n deadline d : live_owner d → within n deadline d →
  (drain_output bounds n deadline d).1 ≠ Err OutOfFuel.
Proof using clock_advances.
  revert d. induction n as [|n IH]; intros d Hd [Hn Hin]; [lia|].
  cbn [drain_output]. unfold query. run_st. cbn [steps set_steps].
  pose proof (with_owner_pump_ends (now (steps d)) deadline (output_stall_timeout bounds)
    (set_steps (S (steps d)) d)) as H. cbn [steps set_steps] in H.
  pose proof (clock_advances (steps d)) as Hc. specialize (H Hd ltac:(lia)).
  destruct (with_owner _ _) as [[p|e] d']; destruct H as (H1 & H2 & H3 & H4); [|cbn; congruence].
  specialize (H2 eq_refl). pose proof (clock_after (steps d) (steps d') ltac:(lia)) as Hc'.
  assert ((drain_output bounds n deadline d').1 ≠ Err OutOfFuel) as Hrec by (apply IH; [done|split; lia]).
  by destruct p.
Qed.

Lemma wait_loop_ends n deadline d : within n deadline d →
  (wait_loop n deadline d).1 ≠ Err OutOfFuel.
Proof using clock_advances.
  revert d. induction n as [|n IH]; intros d [Hn Hin]; [lia|]. cbn [wait_loop].
  unfold query, drive_fail. run_st. destruct (try_wait (steps d)) as [[status|]|[]]; try done.
  cbn [steps set_steps]. destruct (Z.ltb_spec (now (S (steps d))) deadline) as [Hlt|]; [|done].
  pose proof (clock_after (steps d) (S (steps d)) ltac:(lia)) as H1.
  pose proof (clock_after (steps d) (S (S (steps d))) ltac:(lia)) as H2.
  apply IH. split; cbn [steps set_steps]; lia.
Qed.
End waits.
