(* ===== verification/DriveTheorems.v ===== *)
(** * What a run of the coordinator guarantees *)
From S2P Require Import Prelude Interfaces Wire Lifecycle LifecycleProofs LifecycleTheorems.
From S2P Require Import Receivers ReceiverProofs CoordinatorTerminal CoordinatorDrive DriveProofs.
From S2P Require Import DriveTermination.

Open Scope Z_scope.

Section finish.
Context {E : Environment} (bounds : CoordinatorBounds) (fuel : nat).

(** The end of a drive: the report is the last message, the transcript proves
    its exit, the guardian's own status agrees with it, the wire is at its end
    and the terminal was restored and closed. *)
Definition completed (x : ExitStatus * CoordinatorTerminalReport) (d : ProductionCoordinator) : Prop :=
  reported x.2 (rp_guardian_exit x.2) d ∧
  guardian_status_matches x.1 (rp_guardian_exit x.2) = true ∧
  cr_eof_verified (lifecycle d) = true.

Lemma eof_loop_verified deadline script r r' :
  eof_loop now deadline script r = (Ok (), r') → cr_eof_verified r' = true.
Proof.
  revert r. induction script as [|ev script IH]; intros r H; cbn [eof_loop] in H;
    unfold cr_poisoning, on_coordinator_wire in H; run_st in H;
    repeat (case_match; simplify_eq/=; try done).
  all: try (match goal with H : eof_loop _ _ _ _ = _ |- _ => by apply IH in H end).
Qed.

Lemma eof_verified deadline r r' :
  verify_terminal_eof now deadline r = (Ok (), r') → cr_eof_verified r' = true.
Proof.
  unfold verify_terminal_eof. run_st. destruct (cr_poisoned r || _); [done|].
  destruct (cr_eof_verified r) eqn:He; [by intros [= <-]|]. apply eof_loop_verified.
Qed.

Lemma verify_eof_at report exit deadline :
  triple (reported report exit) (on_lifecycle (verify_terminal_eof now deadline))
    (fun _ d => reported report exit d ∧ cr_eof_verified (lifecycle d) = true) stopped.
Proof.
  intros d Hd.
  pose proof (triple_still (reported report exit) _ (eof_quiet deadline) (reported_same _ _)
    (reported_stopped _ _) d Hd) as H.
  destruct (on_lifecycle _ d) as [[[]|x] d'] eqn:He; [|done]. split; [done|].
  unfold on_lifecycle in He.
  match type of He with context [verify_terminal_eof now deadline ?r] =>
    destruct (verify_terminal_eof now deadline r) as [[[]|x] r'] eqn:Hr end; [|done].
  injection He as <-. by apply eof_verified in Hr.
Qed.

Lemma quiesce_at st s d o : st ≠ Tm_Restored → at_ (Some st) s d → terminal d = Some o →
  at_ (Some Tm_Quiesced) s (set_terminal (Some (quiesce o)) d).
Proof.
  intros Hst [[t Ht] M R Ho U] Hto. rewrite Ht in Hto. injection Hto as <-.
  split; cbn [terminal lifecycle history set_terminal]; try done.
  destruct st; cbn; try done; by exists t.
Qed.

Lemma still_reported {A} report exit (m : DM A) : quiet m →
  triple (reported report exit) m (fun _ => reported report exit) stopped.
Proof. intros Hm. apply triple_still; [done|apply reported_same|apply reported_stopped]. Qed.

Lemma finish_shutdown_at :
  triple (live_at St_Quiesced) (finish_shutdown bounds fuel) completed stopped.
Proof.
  unfold finish_shutdown.
  eapply triple_bind; [apply triple_still; [auto with calcifer|apply live_same|apply live_stopped]|].
  intros []. eapply (triple_bind _ _ _ (fun d0 d => d0 = d ∧ live_at St_Quiesced d)).
  { by apply triple_get. }
  intros d0. apply triple_pre with (P' := fun d => (terminal d0 ≠ None) ∧ d0 = d ∧ live_at St_Quiesced d).
  2: { intros d [-> Hd]. split; [|done]. by apply live_stopped in Hd as [? _]. }
  apply triple_pure. intros Hsome. destruct (terminal d0) as [owner|] eqn:Ho; [|done].
  eapply (triple_bind _ _ _ (fun _ => at_ (Some Tm_Quiesced) St_Quiesced)).
  { apply triple_modify. intros d (<- & st & Hst & Hd). by eapply quiesce_at. }
  intros []. apply triple_then; [auto with calcifer|]. intros deadline.
  eapply triple_bind; [apply drain_output_at|]. intros [].
  eapply triple_bind; [apply restore_at|]. intros [].
  eapply triple_bind; [apply finish_at|]. intros [].
  eapply triple_bind; [apply command_at; intros d Hd; apply (at_mode _ _ _ Hd)|]. intros [].
  apply triple_exists. intros s. apply triple_pure. intros Hlead.
  assert (s = St_AwaitRecoveryDisarmed) as -> by (by lead Hlead).
  eapply triple_bind; [apply receive_without_pump_at|]. intros event.
  intros d [Hst Hd]. case_bool_decide as He; cbn [negb]; [|done]. subst event.
  destruct Hd as (s' & Hlead' & Hd); [done|].
  assert (s' = St_RecoveryDisarmed) as -> by (by lead Hlead'). revert d Hst Hd. intros d _. revert d.
  eapply triple_bind; [apply final_report_at|]. intros [report exit]. cbn [fst snd].
  eapply triple_bind; [apply still_reported; auto with calcifer|]. intros status.
  eapply triple_bind; [apply still_reported; auto with calcifer|]. intros deadline'.
  eapply triple_bind; [apply verify_eof_at|]. intros [].
  destruct (guardian_status_matches status exit) eqn:Hm; cbn [negb orb];
    [|apply triple_fail; intros d [Hd _]; by apply reported_stopped in Hd].
  case_bool_decide as Heq; cbn [negb];
    [|apply triple_fail; intros d [Hd _]; by apply reported_stopped in Hd].
  apply triple_ret. intros d [Hd Heof]. unfold completed. cbn. by rewrite Heq.
Qed.

Lemma drive_at :
  triple (at_ (Some Tm_OutputOnly) St_AwaitLeaseBeforeStart) (drive bounds fuel) completed stopped.
Proof.
  assert (triple (live_at St_FailedAwaitQuiesced)
    (_ ← failed_shutdown bounds fuel; finish_shutdown bounds fuel) completed stopped) as Hfailed.
  { eapply triple_bind; [apply failed_shutdown_at|]. intros []. apply finish_shutdown_at. }
  unfold drive. eapply triple_bind; [apply bootstrap_at|]. intros [].
  - eapply triple_bind; [apply mark_ready_at|]. intros [].
    apply triple_then; [auto with calcifer|]. intros deadline.
    eapply triple_bind; [apply drain_output_at|]. intros [].
    eapply triple_bind; [apply enter_initial_raw_at|]. intros [].
    eapply triple_bind; [apply open_gate_at|]. intros [].
    + eapply triple_bind; [apply open_after_ack_at|]. intros [].
      eapply triple_bind; [apply run_active_at|]. intros []; [apply finish_shutdown_at|apply Hfailed].
    + eapply triple_pre; [apply Hfailed|]. intros d Hd. by exists Tm_RawAwaitAck.
  - eapply triple_pre; [apply Hfailed|]. intros d Hd. by exists Tm_OutputOnly.
Qed.

Lemma assemble_at wire t : at_ (Some Tm_OutputOnly) St_AwaitLeaseBeforeStart (assemble wire t).
Proof.
  split; cbn.
  - by exists t.
  - done.
  - by exists before_start.
  - constructor.
  - apply not_elem_of_nil.
Qed.

(** ** Retention *)

(** The owner a retained generation keeps: no input, no buffered byte. *)
Definition retained_owner (o : Owner) : Prop :=
  match o with
  | Live st t => (st = Tm_Quiesced ∨ st = Tm_Restored) ∧ is_pending (output t) = false ∧
      Forall (eq 0) (buffer (output t)) ∧ output_stall_deadline t = None
  | Finished => True
  end.

Lemma scrubbed st t : st = Tm_Quiesced ∨ st = Tm_Restored →
  retained_owner (scrub_pending_output (Live st t)).
Proof.
  intros Hst. cbn. split_and!; try done. unfold zeros. apply Forall_replicate. done.
Qed.

Lemma prepare_retained reason o n :
  o = Finished ∨ (∃ st t, o = Live st t ∧ (st = Tm_Quiesced ∨ st = Tm_Restored)) →
  let s := (prepare_terminal_for_retention reason (mkAt o n [])).2 in
  retained_owner (here s) ∧
  Forall (fun a => match a with Ta_Restore _ | Ta_Shutdown _ => True | _ => False end) (acts s).
Proof.
  intros Ho. unfold prepare_terminal_for_retention, restore, finish, tty_transition, ask, did, become,
    update, drive_fail. run_st.
  destruct Ho as [->|(st & t & -> & [-> | ->])]; cbn [here step acts].
  - done.
  - destruct (restore_with_sigttou_block n); cbn [here step acts app].
    + destruct (shutdown_write (S n)); cbn [here step acts app]; (split; [|by repeat constructor]).
      * done.
      * apply scrubbed. by right.
    + split; [|by repeat constructor]. apply scrubbed. by left.
  - destruct (shutdown_write n); cbn [here step acts app]; (split; [|by repeat constructor]).
    + done.
    + apply scrubbed. by right.
Qed.

Lemma quiesced_owner o : quiesce o = Finished ∨
  (∃ st t, quiesce o = Live st t ∧ (st = Tm_Quiesced ∨ st = Tm_Restored)).
Proof. destruct o as [[] t|]; cbn; eauto 10. Qed.

Lemma retained_wait_quiet n deadline : quiet (retained_wait n deadline).
Proof.
  induction n as [|n IH]; cbn [retained_wait]; [apply quiet_ret|].
  apply quiet_bind; [apply quiet_query|]. intros observed. case_match; [|apply quiet_ret].
  apply quiet_bind; [apply quiet_query|].
  intros [[status|]|]; [apply quiet_status|apply IH|apply quiet_ret].
Qed.

(** Waiting changes no signal latch. *)
Lemma retained_wait_frozen n deadline d :
  signals (retained_wait n deadline d).2 = signals d.
Proof.
  revert d. induction n as [|n IH]; intros d; cbn [retained_wait]; [done|].
  unfold query, mbind, stM_bind. destruct (_ <? _); [|done].
  destruct (try_wait _) as [[status|]|]; try done. by rewrite IH.
Qed.

Lemma settle_outputs d' :
  let d := match guardian_status d' with
           | Some _ => d'
           | None =>
               let '(deadline, d) := phase_deadline bounds d' in
               match deadline with
               | Ok deadline => snd (retained_wait fuel deadline d)
               | Err _ => snd (retained_wait fuel (now (steps d)) (set_steps (S (steps d)) d))
               end
           end in
  same d' d ∧ signals d = signals d'.
Proof.
  cbn. destruct (guardian_status d'); [by split|].
  pose proof (phase_deadline_quiet bounds d') as H.
  assert (signals (phase_deadline bounds d').2 = signals d') as Hsig.
  { unfold phase_deadline, query, drive_fail. run_st. by destruct (instant_add _ _). }
  destruct (phase_deadline bounds d') as [[deadline|x] d1]; cbn in *; rewrite retained_wait_frozen.
  - split; [|done]. eapply same_trans; [done|apply retained_wait_quiet].
  - split; [|done]. eapply same_trans; [done|].
    eapply same_trans; [|apply retained_wait_quiet]. done.
Qed.

Lemma orderly_restoring h l : orderly h →
  Forall (fun a => match a with Ta_Restore _ | Ta_Shutdown _ => True | _ => False end) l →
  orderly (h ++ (Act_Tty <$> l)).
Proof.
  intros Ho. induction l as [|a l IH] using rev_ind; intros Hl; [by rewrite app_nil_r|].
  rewrite Forall_app, Forall_singleton in Hl. destruct Hl as [Hl Ha].
  rewrite fmap_app, app_assoc. constructor; [by apply IH|]. by destruct a.
Qed.

(** A failed drive is retained: never aborted. *)
Lemma retain_at e d : stopped d →
  let '(o, d') := retain bounds fuel e d in
  orderly (history d') ∧ frozen (signals d') = true ∧
  (∃ owner, terminal d' = Some owner ∧ retained_owner owner) ∧
  ∃ reason, o = Ro_Retained reason e.
Proof.
  intros [Ho Hord]. unfold retain. cbn [terminal set_signals].
  destruct (terminal d) as [owner|]; [clear Ho|done]. cbn [steps set_steps set_signals].
  match goal with |- context [prepare_terminal_for_retention ?r ?s] =>
    pose proof (prepare_retained r (quiesce owner) (S (steps d)) (quiesced_owner owner)) as Hp;
    destruct (prepare_terminal_for_retention r s) as [reason s'] end.
  cbn in Hp. destruct Hp as [Hown Hacts].
  match goal with |- context [guardian_status ?x] => pose proof (settle_outputs x) as [(Ht & Hh & _) Hsig] end.
  rewrite Hh, Hsig, Ht. cbn [terminal history signals add_history set_steps set_terminal set_signals].
  split_and!; [by apply orderly_restoring|done|by exists (here s')|by exists reason].
Qed.
End finish.

Lemma orderly_due h : orderly h → ∀ h1 a h2, h = h1 ++ a :: h2 → due h1 a.
Proof.
  induction 1 as [|h a Ho IH Ha]; intros h1 b h2 Heq; [by destruct h1|].
  destruct h2 as [|c h2 _] using rev_ind.
  - by apply app_inj_tail in Heq as [-> ->].
  - rewrite app_comm_cons, app_assoc in Heq. apply app_inj_tail in Heq as [-> _]. by eapply IH.
Qed.

Section run.
Context {E : Environment} (bounds : CoordinatorBounds) (fuel : nat).

(** The drive's result, by outcome of the run. *)
Lemma run_cases wire t :
  let '(o, d) := run bounds fuel (assemble wire t) in
  orderly (history d) ∧
  match o with
  | Ro_Terminal status report => completed (status, report) d
  | Ro_Retained _ _ =>
      frozen (signals d) = true ∧ ∃ owner, terminal d = Some owner ∧ retained_owner owner
  | Ro_Aborted => False
  | Ro_OutOfFuel => True
  end.
Proof.
  unfold run. pose proof (drive_at bounds fuel _ (assemble_at wire t)) as H.
  destruct (drive _ _ _) as [[[status report]|[e|]] d].
  - pose proof H as [(Ht & Ho & _) _]. by rewrite Ht.
  - pose proof (retain_at bounds fuel e d H) as Hr.
    destruct (retain _ _ _ _) as [o d']. by destruct Hr as (? & ? & ? & reason & ->).
  - by destruct H.
Qed.

Lemma completed_exit status report d : completed (status, report) d →
  rp_guardian_exit report ≠ Ge_UsageExhausted.
Proof.
  intros [(_ & _ & Hu & _ & tr & v & Hl & Hr & _) _] Hx. rewrite Hl in Hr. cbn in Hx.
  unfold report_event in Hr. cbn [fst snd] in Hr. rewrite Hx in Hr.
  assert (rp_cleanup report = Complete) as Hc by (by destruct (rp_cleanup report)).
  rewrite Hc in Hr. apply usage_exit_cause in Hr as (v0 & Hr & _ & _ & _ & Hcause).
  pose proof (cau_list _ _ (replay_caused _ _ Hr)) as Hd. rewrite Hcause in Hd.
  assert (UsageExhaustion ∈ omap cause_of tr) as Hin by (rewrite Hd; by left).
  apply list_elem_of_omap in Hin as (l & Hin & Hl').
  assert (l = Evt UsageExhausted) as ->.
  { unfold cause_of in Hl'. by repeat case_match; simplify_eq. }
  apply Hu. assert (Evt UsageExhausted ∈ labels (history d)) as Hin'.
  { rewrite Hl. apply elem_of_app. by left. }
  apply list_elem_of_omap in Hin' as (a & Ha & Hla).
  destruct a; simplify_eq/=; done.
Qed.
End run.

(** * The properties *)

(** C12. The outcomes of a run. It never aborts, that is, a drive that
    succeeds has always closed its terminal, and one that fails has kept it. A
    terminal outcome carries the last message of the transcript as its report;
    the transcript is complete and proves the reported exit, the guardian's own
    exit status is the one that exit demands, the lifecycle wire is at its end
    and the outer terminal was restored. A retained outcome has its signals
    frozen and a terminal without input whose buffered output is erased. *)
Theorem run_sound `{E : Environment} bounds fuel wire t :
  let '(o, d) := run bounds fuel (assemble wire t) in
  match o with
  | Ro_Terminal status report =>
      (∃ tr v, labels (history d) = tr ++ [Evt (report_event report)] ∧
         replay (labels (history d)) = Some v ∧ state v = St_Terminal ∧
         terminal_exit_disposition v = Some (rp_guardian_exit report)) ∧
      guardian_status_matches status (rp_guardian_exit report) = true ∧
      terminal d = Some Finished ∧ tty_after (history d) = Cooked ∧
      cr_eof_verified (lifecycle d) = true
  | Ro_Retained _ _ =>
      frozen (signals d) = true ∧ ∃ owner, terminal d = Some owner ∧ retained_owner owner
  | Ro_Aborted => False
  | Ro_OutOfFuel => True
  end.
Proof.
  pose proof (run_cases bounds fuel wire t) as H. destruct (run _ _ _) as [o d].
  destruct H as [_ H]. destruct o; try done.
  by destruct H as ((Ht & _ & _ & Hc & tr & v & Hl & Hr & Hs & Hx) & Hm & Heof); eauto 10.
Qed.

(** C13. The order of a run's acts, whatever its outcome: the outer terminal
    enters raw mode only with the session ready for its gate or resuming; the
    gate is opened only in raw mode; bytes are read from the outer terminal and
    sent to the guardian only while the transcript is active and the terminal
    raw; the process stops itself only when suspended and restored; and the
    guardian is told of the restoration only after the terminal was restored. *)
Theorem run_orderly `{E : Environment} bounds fuel wire t :
  ∀ before a after,
    history (run bounds fuel (assemble wire t)).2 = before ++ a :: after → due before a.
Proof.
  pose proof (run_cases bounds fuel wire t) as H. destruct (run _ _ _) as [o d].
  destruct H as [H _]. cbn. by apply orderly_due.
Qed.

(** C14. The exhaustion of usage is lost: a run that receives the guardian's
    exhaustion event has no terminal outcome, no terminal outcome reports
    exhaustion, and so the process never exits with the code the failover
    waits for. *)
Theorem exhaustion_lost `{E : Environment} bounds fuel wire t :
  let '(o, d) := run bounds fuel (assemble wire t) in
  (∀ status report, o = Ro_Terminal status report →
     Act_Event UsageExhausted ∉ history d ∧ rp_guardian_exit report ≠ Ge_UsageExhausted) ∧
  apply_coordinator_outcome o ≠ Some (Pe_Exit USAGE_EXHAUSTED_EXIT_CODE).
Proof.
  pose proof (run_cases bounds fuel wire t) as H. destruct (run _ _ _) as [o d].
  destruct H as [_ H]. split.
  - intros status report ->. split; [by destruct H as [(_ & _ & ? & _) _]|by eapply completed_exit].
  - destruct o as [status report| | |]; try done. pose proof (completed_exit _ _ _ H) as Hx.
    cbn. destruct (rp_guardian_exit report) as [code| | |]; try done. cbn.
    destruct (Z.eqb_spec code USAGE_EXHAUSTED_EXIT_CODE); [done|congruence].
Qed.

(** Bounded waits end: against a clock that advances at every reading, a
    wait for a message, the drain of the output and the wait for the guardian
    return or fail within as many turns as their deadline is away. *)
Lemma bounded_waits_end `{E : Environment} bounds fuel deadline d :
  (∀ n, now n < now (S n)) → live_owner d → within fuel deadline d →
  (receive_with_output bounds fuel fuel deadline d).1 ≠ Err OutOfFuel ∧
  (drain_output bounds fuel deadline d).1 ≠ Err OutOfFuel ∧
  (wait_loop fuel deadline d).1 ≠ Err OutOfFuel.
Proof.
  intros Hc Hd Hw. split_and!.
  - by apply receive_with_output_ends.
  - by apply drain_output_ends.
  - by apply wait_loop_ends.
Qed.

(** ** Concrete runs *)

Module DriveExample.

(** A quiet environment: nothing to pump, no signals, every operation
    succeeds; the guardian exits late. *)
#[export] Instance quiet_environment : Environment := {|
  now := Z.of_nat;
  instant_max := u64_max;
  channel_read _ := Tr_WouldBlock;
  tty_write _ := Tw_WouldBlock;
  tty_read _ := Tr_WouldBlock;
  channel_write _ := Tw_WouldBlock;
  enter_raw_after_input_flush _ := true;
  restore_with_sigttou_block _ := true;
  foreground_process_group_matches _ := true;
  shutdown_write _ := true;
  window_size _ := Some (24, 80);
  poll _ := Po_Readable;
  scan _ := Sc_Absent;
  try_wait n := Ok (if Nat.ltb n 150 then None else Some (Es_Code 0));
  signal_arrived _ := false;
  block_sigcont _ := true;
  kill_stop _ := true;
  shutdown_wire _ := true;
|}.

Definition bounds : CoordinatorBounds := mkBounds 100000 10 1000.
Definition frame_of (e : GuardianEvent) : ReadEvent :=
  match encode_guardian_event e with
  | Ok (t, body) => RData (frame_bytes (Z.lor GUARDIAN_DIRECTION t) body)
  | Err _ => RFailed
  end.
Definition wire_of (events : list GuardianEvent) : Channel :=
  mkChannel (frame_of <$> events) [] [] [] 0.
Definition fingerprint : TerminalSnapshotFingerprint := zeros 32.
Definition fresh : Terminal := mkTerminal fingerprint output_new None false.
Definition startup : list GuardianEvent :=
  [LeaseCommitted; TerminalArmed fingerprint; ChildStarted AppServer 100 100;
   ChildStarted Tui 200 200; Ready; InputGateOpened].
Definition natural : list GuardianEvent :=
  startup ++ [TerminalQuiesced; TerminalRecoveryDisarmed;
    ChildrenReaped (Exited 0 Sa_Term) (Exited 0 Sa_None) JoinedClean Complete Completed (Ge_Code 0)].
Definition exhaustion : list GuardianEvent :=
  startup ++ [UsageExhausted; TerminalQuiesced; TerminalRecoveryDisarmed;
    ChildrenReaped (Exited 0 Sa_Term) (Signaled 15 false Sa_Term) JoinedClean Complete Completed
      Ge_UsageExhausted].

(** A session that ends by itself: the whole drive, from the lease to the
    verified end of the wire. *)
Lemma natural_session :
  (run bounds 50 (assemble (wire_of natural) fresh)).1 =
  Ro_Terminal (Es_Code 0) (mkReport (Exited 0 Sa_Term) (Exited 0 Sa_None) JoinedClean Complete
    Completed (Ge_Code 0)).
Proof. vm_compute. reflexivity. Qed.

(** The same session ending by exhaustion is retained as a protocol error. *)
Lemma exhausted_session :
  (run bounds 50 (assemble (wire_of exhaustion) fresh)).1 = Ro_Retained Rr_ProtocolInvalid De_Protocol.
Proof. vm_compute. reflexivity. Qed.

Lemma clock_ticks n : now n < now (S n).
Proof. cbn. lia. Qed.

Lemma fresh_live : live_owner (assemble (wire_of natural) fresh).
Proof. by exists Tm_OutputOnly, fresh. Qed.

Lemma fresh_within : within 200 100 (assemble (wire_of natural) fresh).
Proof. split; cbn; lia. Qed.

Lemma bounded_waits_witness :
  (receive_with_output bounds 200 200 100 (assemble (wire_of natural) fresh)).1 ≠ Err OutOfFuel.
Proof.
  exact (proj1 (bounded_waits_end bounds 200 100 (assemble (wire_of natural) fresh)
    clock_ticks fresh_live fresh_within)).
Defined.

(** The order of a whole run, at the act that opens the gate. *)
Lemma run_sound_witness :
  ∃ tr v, labels (history (run bounds 50 (assemble (wire_of natural) fresh)).2) =
      tr ++ [Evt (ChildrenReaped (Exited 0 Sa_Term) (Exited 0 Sa_None) JoinedClean Complete
        Completed (Ge_Code 0))] ∧
    replay (labels (history (run bounds 50 (assemble (wire_of natural) fresh)).2)) = Some v.
Proof.
  generalize (run_sound bounds 50 (wire_of natural) fresh) natural_session.
  destruct (run bounds 50 (assemble (wire_of natural) fresh)) as [o d]. cbn. intros H ->.
  destruct H as ((tr & v & Hl & Hr & _) & _). exists tr, v. split; [exact Hl|exact Hr].
Defined.

(** Opening the gate is the eleventh act of that session. *)
Definition natural_history : list act := history (run bounds 50 (assemble (wire_of natural) fresh)).2.
Lemma natural_history_split :
  history (run bounds 50 (assemble (wire_of natural) fresh)).2 =
  take 10 natural_history ++ Act_Command OpenInputGate :: drop 11 natural_history.
Proof. vm_compute. reflexivity. Qed.

Lemma run_orderly_witness : due (take 10 natural_history) (Act_Command OpenInputGate).
Proof.
  exact (run_orderly bounds 50 (wire_of natural) fresh _ _ _ natural_history_split).
Defined.
End DriveExample.
