(* ===== verification/ConversationData.v ===== *)
(** * The conversation journal: documents and their validation
    (src/conversations.rs)

    The schema of [conversations.json] - lineages of provider threads,
    workspace heads, pending launches and the one active handoff - and
    [validate_document], which every load and every save runs. The
    transactions on a document are in [ConversationOps], the files in
    [ConversationStore]. *)
From Stdlib Require Import Ascii.
From S2P Require Import Prelude Interfaces Profiles.

Open Scope Z_scope.

(** ** Limits *)

Definition SCHEMA_VERSION_V1 : Z := 1.
Definition SCHEMA_VERSION_V2 : Z := 2.
Definition MAX_REGISTRY_BYTES : Z := 4 * 1024 * 1024.
Definition MAX_INVENTORY_THREADS : Z := 1600.
Definition MAX_LINEAGE_GENERATIONS : Z := 256.
Definition MAX_ROLLOUT_RELATIVE_BYTES : Z := 512.
Definition MAX_ROLLOUT_COMPONENTS : Z := 8.
Definition MAX_ROLLOUT_BYTES : Z := 64 * 1024 * 1024.

(** ** Data *)

Inductive ConversationLifecycle :=
| Lc_Clean | Lc_Interrupted | Lc_UnknownCrash | Lc_Missing | Lc_Archived | Lc_Incompatible
| Lc_Ambiguous.

Inductive LaunchMode := Lm_Run | Lm_ResumeLast | Lm_RunUntracked | Lm_ResumeLastUntracked.

Definition is_untracked (m : LaunchMode) : bool :=
  match m with Lm_RunUntracked | Lm_ResumeLastUntracked => true | _ => false end.

Inductive PendingPhase := Pp_Prepared | Pp_ProviderStarted | Pp_CaptureFailed.

Record InventoryThread := mkInventoryThread {
  it_thread_id : string;
  it_updated_at : Z;
  it_recency_at : option Z;
  it_archived : bool;
  it_rollout_device : Z;
  it_rollout_inode : Z;
  it_rollout_length : Z;
  it_rollout_modified_seconds : Z;
  it_rollout_modified_nanoseconds : Z;
  it_rollout_changed_seconds : Z;
  it_rollout_changed_nanoseconds : Z;
}.

Record PendingLaunch := mkPendingLaunch {
  pl_launch_id : string;
  pl_profile_id : string;
  pl_canonical_cwd : string;
  pl_mode : LaunchMode;
  pl_codex_version : option string;
  pl_adapter_version : string;
  pl_pre_inventory : list InventoryThread;
  pl_phase : PendingPhase;
  pl_started_at : Z;
}.

Record BindingInput := mkBindingInput {
  bi_profile_id : string;
  bi_thread_id : string;
  bi_canonical_cwd : string;
  bi_codex_version : string;
  bi_lifecycle : ConversationLifecycle;
}.

Record HeadBinding := mkHeadBinding {
  hb_conversation_id : string;
  hb_generation : Z;
  hb_profile_id : string;
  hb_thread_id : string;
  hb_canonical_cwd : string;
  hb_codex_version : string;
  hb_lifecycle : ConversationLifecycle;
}.

Inductive RolloutRoot := Sessions | ArchivedSessions.

Record RolloutLocator := mkRolloutLocator {
  rl_root : RolloutRoot;
  rl_relative_path : string;
}.

Record RolloutFingerprint := mkRolloutFingerprint {
  rf_device : Z;
  rf_inode : Z;
  rf_length : Z;
  rf_mode : Z;
  rf_owner : Z;
  rf_link_count : Z;
  rf_modified_seconds : Z;
  rf_modified_nanoseconds : Z;
  rf_changed_seconds : Z;
  rf_changed_nanoseconds : Z;
  rf_sha256 : string;
}.

Record GenerationRollout := mkGenerationRollout {
  rollout_locator : RolloutLocator;
  rollout_fingerprint : RolloutFingerprint;
}.

Inductive HandoffPhase :=
| Hp_Prepared | Hp_SourceStopRequested | Hp_SourceStopped | Hp_ForkRequested | Hp_ForkObserved
| Hp_CommittedUnattached.

Record HandoffPreparation := mkHandoffPreparation {
  hp_expected_source : HeadBinding;
  hp_target_profile_id : string;
  hp_trust_domain_id : string;
  hp_reason : HandoffReason;
  hp_source_rollout : GenerationRollout;
}.

Record HandoffTarget := mkHandoffTarget {
  ht_thread_id : string;
  ht_canonical_cwd : string;
  ht_codex_version : string;
  ht_rollout : GenerationRollout;
}.

Record ObservedHandoffTarget := mkObservedHandoffTarget {
  ot_thread_id : string;
  ot_canonical_cwd : string;
  ot_codex_version : string;
  ot_adapter_version : string;
  ot_rollout : GenerationRollout;
  ot_observed_at : Z;
}.

Record HandoffTransition := mkHandoffTransition {
  tr_transition_id : string;
  tr_conversation_id : string;
  tr_source_generation : Z;
  tr_target_generation : Z;
  tr_source_profile_id : string;
  tr_target_profile_id : string;
  tr_canonical_cwd : string;
  tr_trust_domain_id : string;
  tr_reason : HandoffReason;
  tr_source_rollout : GenerationRollout;
  tr_phase : HandoffPhase;
  tr_target_baseline_thread_ids : list string;
  tr_fork_attempts : Z;
  tr_fork_requested_at : option Z;
  tr_observed_target : option ObservedHandoffTarget;
  tr_prepared_at : Z;
  tr_updated_at : Z;
}.

Inductive LaunchResolution := Bind (binding : BindingInput) | NoThread | AmbiguousThread.

Record PreMigrationBackup := mkPreMigrationBackup {
  pb_schema_version : Z;
  pb_revision : Z;
  pb_sha256 : string;
}.

Record ConversationGeneration := mkConversationGeneration {
  cg_generation : Z;
  cg_profile_id : string;
  cg_thread_id : string;
  cg_canonical_cwd : string;
  cg_codex_version : string;
  cg_adapter_version : string;
  cg_bound_at : Z;
  cg_trust_domain_id : option string;
  cg_rollout : option GenerationRollout;
}.

Record Conversation := mkConversation {
  cv_conversation_id : string;
  cv_provider : Provider;
  cv_generations : list ConversationGeneration;
  cv_active_generation : Z;
  cv_last_safe_lifecycle : ConversationLifecycle;
}.

Inductive HeadState := Hs_Ready | Hs_NeedsSelection.

Record WorkspaceHead := mkWorkspaceHead {
  wh_provider : Provider;
  wh_canonical_cwd : string;
  wh_state : HeadState;
  wh_conversation_id : option string;
  wh_generation : option Z;
}.

Record ConversationDocument := mkConversationDocument {
  cd_schema_version : Z;
  cd_revision : Z;
  cd_conversations : list Conversation;
  cd_workspace_heads : list WorkspaceHead;
  cd_pending_launches : list PendingLaunch;
  cd_pre_migration_backup : option PreMigrationBackup;
  cd_active_transition : option HandoffTransition;
}.

(** [ConversationDocument::default]. *)
Definition default_document : ConversationDocument :=
  mkConversationDocument SCHEMA_VERSION_V1 0 [] [] [] None None.

(** [ConversationError]; the payloads are diagnostics. *)
Inductive ConversationError :=
| CE_NotFound | CE_Ambiguous | CE_ProfileMismatch | CE_CwdMismatch | CE_RolloutMissing
| CE_Archived | CE_RegistryInvalid | CE_CommitUncertain | CE_TransitionBusy
| CE_TransitionPhaseInvalid | CE_CodexVersionUnsupported | CE_SessionSchemaUnsupported
| CE_ThreadProtocolInvalid | CE_ThreadMetadataUnavailable | CE_Io.

Definition conversation_error_code (e : ConversationError) : string :=
  match e with
  | CE_NotFound => "conversation_not_found"
  | CE_Ambiguous => "conversation_ambiguous"
  | CE_ProfileMismatch => "conversation_profile_mismatch"
  | CE_CwdMismatch => "conversation_cwd_mismatch"
  | CE_RolloutMissing => "conversation_rollout_missing"
  | CE_Archived => "conversation_archived"
  | CE_RegistryInvalid => "conversation_registry_invalid"
  | CE_CommitUncertain => "conversation_commit_uncertain"
  | CE_TransitionBusy => "conversation_handoff_in_progress"
  | CE_TransitionPhaseInvalid => "conversation_handoff_phase_invalid"
  | CE_CodexVersionUnsupported => "codex_session_schema_unsupported"
  | CE_SessionSchemaUnsupported => "codex_session_schema_unsupported"
  | CE_ThreadProtocolInvalid => "codex_thread_protocol_invalid"
  | CE_ThreadMetadataUnavailable => "codex_thread_metadata_unavailable"
  | CE_Io => "conversation_registry_invalid"
  end.

#[export] Instance ConversationLifecycle_eq_dec : EqDecision ConversationLifecycle.
Proof. solve_decision. Defined.
#[export] Instance LaunchMode_eq_dec : EqDecision LaunchMode.
Proof. solve_decision. Defined.
#[export] Instance PendingPhase_eq_dec : EqDecision PendingPhase.
Proof. solve_decision. Defined.
#[export] Instance InventoryThread_eq_dec : EqDecision InventoryThread.
Proof. solve_decision. Defined.
#[export] Instance PendingLaunch_eq_dec : EqDecision PendingLaunch.
Proof. solve_decision. Defined.
#[export] Instance BindingInput_eq_dec : EqDecision BindingInput.
Proof. solve_decision. Defined.
#[export] Instance HeadBinding_eq_dec : EqDecision HeadBinding.
Proof. solve_decision. Defined.
#[export] Instance RolloutRoot_eq_dec : EqDecision RolloutRoot.
Proof. solve_decision. Defined.
#[export] Instance RolloutLocator_eq_dec : EqDecision RolloutLocator.
Proof. solve_decision. Defined.
#[export] Instance RolloutFingerprint_eq_dec : EqDecision RolloutFingerprint.
Proof. solve_decision. Defined.
#[export] Instance GenerationRollout_eq_dec : EqDecision GenerationRollout.
Proof. solve_decision. Defined.
#[export] Instance HandoffPhase_eq_dec : EqDecision HandoffPhase.
Proof. solve_decision. Defined.
#[export] Instance ObservedHandoffTarget_eq_dec : EqDecision ObservedHandoffTarget.
Proof. solve_decision. Defined.
#[export] Instance HandoffTransition_eq_dec : EqDecision HandoffTransition.
Proof. solve_decision. Defined.
#[export] Instance PreMigrationBackup_eq_dec : EqDecision PreMigrationBackup.
Proof. solve_decision. Defined.
#[export] Instance ConversationGeneration_eq_dec : EqDecision ConversationGeneration.
Proof. solve_decision. Defined.
#[export] Instance Conversation_eq_dec : EqDecision Conversation.
Proof. solve_decision. Defined.
#[export] Instance HeadState_eq_dec : EqDecision HeadState.
Proof. solve_decision. Defined.
#[export] Instance WorkspaceHead_eq_dec : EqDecision WorkspaceHead.
Proof. solve_decision. Defined.
#[export] Instance ConversationDocument_eq_dec : EqDecision ConversationDocument.
Proof. solve_decision. Defined.
#[export] Instance ConversationError_eq_dec : EqDecision ConversationError.
Proof. solve_decision. Defined.

(** ** [std::path] on Unix *)

Inductive Component := RootDir | CurDir | ParentDir | Normal (name : string).

#[export] Instance Component_eq_dec : EqDecision Component.
Proof. solve_decision. Defined.

(** [str::split('/')]. *)
Fixpoint split_slash_bytes (word : list ascii) (l : list ascii) : list string :=
  match l with
  | [] => [String.string_of_list_ascii (rev word)]
  | c :: l =>
      if Ascii.eqb c "/" then String.string_of_list_ascii (rev word) :: split_slash_bytes [] l
      else split_slash_bytes (c :: word) l
  end.
Definition split_slash (s : string) : list string := split_slash_bytes [] (str_bytes s).

Definition is_absolute (path : string) : bool :=
  match str_bytes path with c :: _ => Ascii.eqb c "/" | [] => false end.

Definition body_component (part : string) : option Component :=
  if String.eqb part "" || String.eqb part "." then None
  else if String.eqb part ".." then Some ParentDir
  else Some (Normal part).

(** [Path::components]: empty parts and inner [.] are skipped, a leading [.]
    of a relative path is a component. *)
Definition components (path : string) : list Component :=
  let parts := split_slash path in
  (if is_absolute path then [RootDir]
   else match parts with p :: _ => if String.eqb p "." then [CurDir] else [] | [] => [] end)
  ++ omap body_component parts.

Definition is_normal (c : Component) : bool := match c with Normal _ => true | _ => false end.

(** ** Field validators *)

Abbreviation invalid := CE_RegistryInvalid.

(** [byte.is_ascii_digit() || (b'a'..=b'f').contains(&byte)] for 64 bytes. *)
Definition is_sha256_hex (s : string) : bool :=
  (str_len s =? 64) && str_all is_ascii_lower_hex s.

Definition nanoseconds_ok (n : Z) : bool := (0 <=? n) && (n <? 1000000000).

Definition validate_codex_version (version : string) : result ConversationError () :=
  reject_if (negb (String.eqb version "0.144.4")) CE_SessionSchemaUnsupported.

Definition validate_adapter_version (version : string) : result ConversationError () :=
  reject_if (String.eqb version "" || (64 <? str_len version) || negb (str_all is_ascii version))
    invalid.

Definition validate_stored_path (path : string) : result ConversationError () :=
  reject_if (negb (is_absolute path)
             || existsb (fun c => bool_decide (c = CurDir) || bool_decide (c = ParentDir))
                  (components path)) invalid.

Definition rollout_path_byte (c : ascii) : bool := is_ascii_alphanumeric c || is_name_punct c.

Definition validate_rollout (rollout : GenerationRollout) : result ConversationError () :=
  let relative := rl_relative_path (rollout_locator rollout) in
  let components := components relative in
  let lexical_components := split_slash relative in
  _ ← reject_if (String.eqb relative ""
                 || (MAX_ROLLOUT_RELATIVE_BYTES <? str_len relative)
                 || is_absolute relative
                 || (MAX_ROLLOUT_COMPONENTS <? len components)
                 || negb (len lexical_components =? len components)
                 || existsb (fun c => String.eqb c "" || negb (str_all rollout_path_byte c))
                      lexical_components
                 || existsb (fun c => negb (is_normal c)) components) invalid;
  let f := rollout_fingerprint rollout in
  reject_if ((rf_inode f =? 0)
             || (MAX_ROLLOUT_BYTES <? rf_length f)
             || negb (rf_link_count f =? 1)
             || (rf_modified_seconds f <? 0)
             || (rf_changed_seconds f <? 0)
             || negb (nanoseconds_ok (rf_modified_nanoseconds f))
             || negb (nanoseconds_ok (rf_changed_nanoseconds f))
             || negb (is_sha256_hex (rf_sha256 f))) invalid.

Definition same_rollout_file (left right : GenerationRollout) : bool :=
  (rf_device (rollout_fingerprint left) =? rf_device (rollout_fingerprint right))
  && (rf_inode (rollout_fingerprint left) =? rf_inode (rollout_fingerprint right)).

(** [iter().any(|p| p.thread_id == id)]. *)
Definition has_thread (thread_id : string) (generations : list ConversationGeneration) : bool :=
  existsb (fun g => String.eqb (cg_thread_id g) thread_id) generations.

Definition find_conversation (id : string) (d : ConversationDocument) : option Conversation :=
  find_first (fun c => String.eqb (cv_conversation_id c) id) (cd_conversations d).
Definition find_generation (n : Z) (c : Conversation) : option ConversationGeneration :=
  find_first (fun g => cg_generation g =? n) (cv_generations c).
Definition head_for (provider : Provider) (cwd : string) (h : WorkspaceHead) : bool :=
  provider_eqb (wh_provider h) provider && String.eqb (wh_canonical_cwd h) cwd.
Definition pending_in (cwd : string) (d : ConversationDocument) : bool :=
  existsb (fun p => String.eqb (pl_canonical_cwd p) cwd) (cd_pending_launches d).

(** ** [validate_document] *)

Section validation.
Context {UC : UuidCrate}.

Definition validate_uuid (value : string) : result ConversationError () :=
  parsed ← ok_or (parse_str value) invalid;
  reject_if (negb (String.eqb (uuid_to_string parsed) value)) invalid.

Definition validate_binding_input (b : BindingInput) : result ConversationError () :=
  _ ← validate_uuid (bi_profile_id b);
  _ ← validate_uuid (bi_thread_id b);
  _ ← validate_stored_path (bi_canonical_cwd b);
  _ ← validate_codex_version (bi_codex_version b);
  reject_if (bool_decide (bi_lifecycle b ∈ [Lc_Missing; Lc_Archived; Lc_Incompatible; Lc_Ambiguous]))
    invalid.

Definition validate_observed_target (t : ObservedHandoffTarget) : result ConversationError () :=
  _ ← validate_uuid (ot_thread_id t);
  _ ← validate_stored_path (ot_canonical_cwd t);
  _ ← validate_codex_version (ot_codex_version t);
  _ ← validate_adapter_version (ot_adapter_version t);
  _ ← validate_rollout (ot_rollout t);
  reject_if (ot_observed_at t <? 0) invalid.

Definition validate_thread_baseline (thread_ids : list string) : result ConversationError () :=
  _ ← reject_if (MAX_INVENTORY_THREADS <? len thread_ids) invalid;
  for_each_prev (fun prev thread_id =>
    _ ← validate_uuid thread_id;
    reject_if (match last prev with Some p => str_le thread_id p | None => false end) invalid)
    [] thread_ids.

Definition thread_order (left right : InventoryThread) : bool :=
  str_le (it_thread_id left) (it_thread_id right).

(** [normalize_inventory] sorts its argument in place; the sorted slice is the
    result here. *)
Definition normalize_inventory (inventory : list InventoryThread)
    : result ConversationError (list InventoryThread) :=
  _ ← reject_if (MAX_INVENTORY_THREADS <? len inventory) invalid;
  let inventory := sort_by thread_order inventory in
  _ ← for_each_prev (fun prev t =>
        _ ← validate_uuid (it_thread_id t);
        _ ← reject_if ((it_updated_at t <? 0)
                       || match it_recency_at t with Some r => r <? 0 | None => false end) invalid;
        _ ← reject_if ((64 * 1024 * 1024 <? it_rollout_length t)
                       || negb (nanoseconds_ok (it_rollout_modified_nanoseconds t))
                       || negb (nanoseconds_ok (it_rollout_changed_nanoseconds t))) invalid;
        reject_if (existsb (fun p => String.eqb (it_thread_id p) (it_thread_id t)) prev) invalid)
        [] inventory;
  Ok inventory.

(** The handoff metadata of one generation. *)
Definition validate_lineage_metadata (schema_v1 : bool) (lineage_trust_domain : option string)
    (g : ConversationGeneration) : result ConversationError () :=
  match cg_trust_domain_id g, cg_rollout g with
  | None, None => Ok ()
  | Some trust_domain_id, Some rollout =>
      if schema_v1 then Err invalid
      else
        _ ← validate_uuid trust_domain_id;
        _ ← validate_rollout rollout;
        reject_if (negb (bool_decide (lineage_trust_domain = Some trust_domain_id))) invalid
  | _, _ => Err invalid
  end.

(** The body of the loop over the generations of [conversation]; [prev] are
    the generations before this one. *)
Definition validate_generation (schema_v1 : bool) (conversation : Conversation)
    (prev : list ConversationGeneration) (g : ConversationGeneration)
    : result ConversationError () :=
  let generations := cv_generations conversation in
  let lineage_trust_domain := head (omap cg_trust_domain_id generations) in
  let generation_index := if len prev <=? u32_max then len prev else u32_max in
  _ ← reject_if (negb (cg_generation g =? generation_index)) invalid;
  _ ← validate_uuid (cg_profile_id g);
  _ ← validate_uuid (cg_thread_id g);
  _ ← validate_stored_path (cg_canonical_cwd g);
  _ ← validate_codex_version (cg_codex_version g);
  _ ← validate_adapter_version (cg_adapter_version g);
  _ ← reject_if (cg_bound_at g <? 0) invalid;
  _ ← reject_if (negb (bool_decide (head (cg_canonical_cwd <$> generations)
                                    = Some (cg_canonical_cwd g)))) invalid;
  _ ← validate_lineage_metadata schema_v1 lineage_trust_domain g;
  _ ← reject_if (negb schema_v1 && (1 <? len generations)
                 && (bool_decide (cg_trust_domain_id g = None)
                     || bool_decide (cg_rollout g = None))) invalid;
  reject_if (schema_v1 && (negb (bool_decide (cg_trust_domain_id g = None))
                           || negb (bool_decide (cg_rollout g = None)))) invalid.

Definition usable_lifecycle (l : ConversationLifecycle) : bool :=
  bool_decide (l ∈ [Lc_Clean; Lc_Interrupted; Lc_UnknownCrash]).

(** The body of the loop over the conversations; [previous] are the ones
    before this one. *)
Definition validate_conversation (schema_v1 : bool) (previous : list Conversation)
    (conversation : Conversation) : result ConversationError () :=
  let generations := cv_generations conversation in
  _ ← validate_uuid (cv_conversation_id conversation);
  _ ← reject_if (negb (provider_eqb (cv_provider conversation) Codex)
                 || (len generations =? 0)
                 || (MAX_LINEAGE_GENERATIONS <? len generations)
                 || (schema_v1 && (negb (len generations =? 1)
                                   || negb (cv_active_generation conversation =? 0)))) invalid;
  _ ← reject_if (negb (usable_lifecycle (cv_last_safe_lifecycle conversation))) invalid;
  _ ← reject_if (negb (bool_decide (cg_generation <$> last generations
                                    = Some (cv_active_generation conversation)))) invalid;
  _ ← for_each_prev (validate_generation schema_v1 conversation) [] generations;
  _ ← reject_if (existsb (fun p => String.eqb (cv_conversation_id p)
                                    (cv_conversation_id conversation)) previous) invalid;
  for_each (fun g =>
    reject_if (existsb (fun p => has_thread (cg_thread_id g) (cv_generations p)) previous
               || has_thread (cg_thread_id g)
                    (take (Z.to_nat (cg_generation g)) generations)) invalid)
    generations.

Definition validate_head (d : ConversationDocument) (previous : list WorkspaceHead)
    (h : WorkspaceHead) : result ConversationError () :=
  _ ← validate_stored_path (wh_canonical_cwd h);
  _ ← reject_if (existsb (head_for (wh_provider h) (wh_canonical_cwd h)) previous) invalid;
  match wh_state h with
  | Hs_Ready =>
      conversation_id ← ok_or (wh_conversation_id h) invalid;
      _ ← validate_uuid conversation_id;
      generation_number ← ok_or (wh_generation h) invalid;
      conversation ← ok_or (find_conversation conversation_id d) invalid;
      generation ← ok_or (find_generation generation_number conversation) invalid;
      reject_if (negb (provider_eqb (cv_provider conversation) (wh_provider h))
                 || negb (String.eqb (cg_canonical_cwd generation) (wh_canonical_cwd h))
                 || negb (cg_generation generation =? cv_active_generation conversation)) invalid
  | Hs_NeedsSelection =>
      reject_if (xorb (if wh_conversation_id h is Some _ then true else false)
                      (if wh_generation h is Some _ then true else false)) invalid
  end.

Definition validate_pending (previous : list PendingLaunch) (p : PendingLaunch)
    : result ConversationError () :=
  _ ← validate_uuid (pl_launch_id p);
  _ ← validate_uuid (pl_profile_id p);
  _ ← validate_stored_path (pl_canonical_cwd p);
  _ ← validate_adapter_version (pl_adapter_version p);
  _ ← reject_if ((pl_started_at p <? 0) || (MAX_INVENTORY_THREADS <? len (pl_pre_inventory p)))
        invalid;
  _ ← (if is_untracked (pl_mode p) then
         reject_if (negb (bool_decide (pl_codex_version p = None))
                    || negb (bool_decide (pl_pre_inventory p = []))) invalid
       else
         version ← ok_or (pl_codex_version p) invalid;
         validate_codex_version version);
  inventory ← normalize_inventory (pl_pre_inventory p);
  _ ← reject_if (negb (bool_decide (inventory = pl_pre_inventory p))) invalid;
  reject_if (existsb (fun q => String.eqb (pl_launch_id q) (pl_launch_id p)
                               || String.eqb (pl_canonical_cwd q) (pl_canonical_cwd p)) previous)
    invalid.

Definition validate_document_contents (d : ConversationDocument) (schema_v1 : bool)
    : result ConversationError () :=
  _ ← for_each_prev (validate_conversation schema_v1) [] (cd_conversations d);
  _ ← for_each_prev (validate_head d) [] (cd_workspace_heads d);
  for_each_prev validate_pending [] (cd_pending_launches d).

Definition fork_started (p : HandoffPhase) : bool :=
  bool_decide (p ∈ [Hp_ForkRequested; Hp_ForkObserved; Hp_CommittedUnattached]).

(** The observation of the target against the transition and its source. *)
Definition validate_target (t : HandoffTransition) (source : ConversationGeneration)
    (target : ObservedHandoffTarget) : result ConversationError () :=
  _ ← validate_observed_target target;
  reject_if (negb (String.eqb (ot_canonical_cwd target) (tr_canonical_cwd t))
             || String.eqb (ot_thread_id target) (cg_thread_id source)
             || same_rollout_file (ot_rollout target) (tr_source_rollout t)
             || (ot_observed_at target <? tr_prepared_at t)
             || match tr_fork_requested_at t with
                | Some requested_at => ot_observed_at target <? requested_at
                | None => false
                end
             || (tr_updated_at t <? ot_observed_at target)) invalid.

(** The lineage of a committed or uncommitted transition. *)
Definition validate_committed (t : HandoffTransition) (conversation : Conversation)
    : result ConversationError () :=
  if bool_decide (tr_phase t = Hp_CommittedUnattached) then
    target ← ok_or (tr_observed_target t) invalid;
    generation ← ok_or (find_generation (tr_target_generation t) conversation) invalid;
    reject_if (negb (String.eqb (cg_profile_id generation) (tr_target_profile_id t))
               || negb (String.eqb (cg_thread_id generation) (ot_thread_id target))
               || negb (String.eqb (cg_canonical_cwd generation) (ot_canonical_cwd target))
               || negb (String.eqb (cg_codex_version generation) (ot_codex_version target))
               || negb (String.eqb (cg_adapter_version generation) (ot_adapter_version target))
               || negb (bool_decide (cg_trust_domain_id generation = Some (tr_trust_domain_id t)))
               || negb (bool_decide (cg_rollout generation = Some (ot_rollout target)))) invalid
  else
    reject_if (existsb (fun g => cg_generation g =? tr_target_generation t)
                 (cv_generations conversation)) invalid.

Definition validate_fork_intent (t : HandoffTransition) : result ConversationError () :=
  if fork_started (tr_phase t) then
    fork_requested_at ← ok_or (tr_fork_requested_at t) invalid;
    reject_if (negb ((1 <=? tr_fork_attempts t) && (tr_fork_attempts t <=? 2))
               || (fork_requested_at <? tr_prepared_at t)
               || (tr_updated_at t <? fork_requested_at)) invalid
  else
    reject_if (negb (tr_fork_attempts t =? 0)
               || negb (bool_decide (tr_fork_requested_at t = None))
               || negb (bool_decide (tr_target_baseline_thread_ids t = []))) invalid.

Definition expected_active (t : HandoffTransition) : Z :=
  if bool_decide (tr_phase t = Hp_CommittedUnattached)
  then tr_target_generation t else tr_source_generation t.

(** [validate_active_transition] for a transition. *)
Definition validate_transition (d : ConversationDocument) (t : HandoffTransition)
    : result ConversationError () :=
  _ ← validate_uuid (tr_transition_id t);
  _ ← validate_uuid (tr_conversation_id t);
  _ ← validate_uuid (tr_source_profile_id t);
  _ ← validate_uuid (tr_target_profile_id t);
  _ ← validate_uuid (tr_trust_domain_id t);
  _ ← validate_stored_path (tr_canonical_cwd t);
  _ ← validate_rollout (tr_source_rollout t);
  _ ← (if String.eqb (tr_source_profile_id t) (tr_target_profile_id t) then Err invalid
       else
         next ← ok_or (checked_add_u u32_max (tr_source_generation t) 1) invalid;
         reject_if (negb (tr_target_generation t =? next)
                    || (tr_prepared_at t <? 0)
                    || (tr_updated_at t <? tr_prepared_at t)) invalid);
  _ ← validate_thread_baseline (tr_target_baseline_thread_ids t);
  _ ← validate_fork_intent t;
  conversation ← ok_or (find_conversation (tr_conversation_id t) d) invalid;
  source ← ok_or (find_generation (tr_source_generation t) conversation) invalid;
  _ ← reject_if (negb (String.eqb (cg_profile_id source) (tr_source_profile_id t))
                 || negb (String.eqb (cg_canonical_cwd source) (tr_canonical_cwd t))
                 || negb (bool_decide (cg_trust_domain_id source = Some (tr_trust_domain_id t)))
                 || negb (bool_decide (cg_rollout source = Some (tr_source_rollout t)))) invalid;
  _ ← reject_if (xorb (if tr_observed_target t is Some _ then true else false)
                   (bool_decide (tr_phase t ∈ [Hp_ForkObserved; Hp_CommittedUnattached]))) invalid;
  _ ← (if tr_observed_target t is Some target then validate_target t source target else Ok ());
  _ ← reject_if (negb (cv_active_generation conversation =? expected_active t)) invalid;
  _ ← validate_committed t conversation;
  head ← ok_or (find_first (head_for (cv_provider conversation) (tr_canonical_cwd t))
                  (cd_workspace_heads d)) invalid;
  _ ← reject_if (negb (bool_decide (wh_state head = Hs_Ready))
                 || negb (bool_decide (wh_conversation_id head = Some (tr_conversation_id t)))
                 || negb (bool_decide (wh_generation head = Some (expected_active t)))) invalid;
  reject_if (pending_in (tr_canonical_cwd t) d) invalid.

Definition validate_active_transition (d : ConversationDocument) : result ConversationError () :=
  match cd_active_transition d with None => Ok () | Some t => validate_transition d t end.

Definition validate_v1_document (d : ConversationDocument) : result ConversationError () :=
  _ ← reject_if (negb (cd_schema_version d =? SCHEMA_VERSION_V1)
                 || negb (bool_decide (cd_pre_migration_backup d = None))
                 || negb (bool_decide (cd_active_transition d = None))) invalid;
  validate_document_contents d true.

Definition validate_v2_document (d : ConversationDocument) : result ConversationError () :=
  _ ← reject_if (negb (cd_schema_version d =? SCHEMA_VERSION_V2)) invalid;
  backup ← ok_or (cd_pre_migration_backup d) invalid;
  _ ← reject_if (negb (pb_schema_version backup =? SCHEMA_VERSION_V1)
                 || (cd_revision d <? pb_revision backup)
                 || negb (is_sha256_hex (pb_sha256 backup))) invalid;
  _ ← validate_document_contents d false;
  validate_active_transition d.

Definition validate_document (d : ConversationDocument) : result ConversationError () :=
  _ ← reject_if (negb ((cd_schema_version d =? SCHEMA_VERSION_V1)
                       || (cd_schema_version d =? SCHEMA_VERSION_V2))) invalid;
  if cd_schema_version d =? SCHEMA_VERSION_V1 then validate_v1_document d
  else validate_v2_document d.
End validation.
