(* ===== verification/ConversationOps.v ===== *)
(** * The conversation journal: the transactions on a document
    (src/conversations.rs)

    The closures that the methods of [ConversationRegistry] run on the loaded
    document. A closure that returns early with an error leaves the document
    changed in memory; the store discards it. *)
From S2P Require Import Prelude Interfaces Profiles ConversationData.

Open Scope Z_scope.

(** What one call takes from the process: the clock (seconds since the epoch,
    [None] before it), a fresh random identifier and the package version. *)
Record CallEnv `{UuidCrate} := mkCallEnv {
  system_time : option Z;
  new_v4 : uuid;
  CARGO_PKG_VERSION : string;
}.

(** ** Assignments to fields *)

Definition set_conversations (f : list Conversation → list Conversation)
    (d : ConversationDocument) : ConversationDocument :=
  mkConversationDocument (cd_schema_version d) (cd_revision d) (f (cd_conversations d))
    (cd_workspace_heads d) (cd_pending_launches d) (cd_pre_migration_backup d)
    (cd_active_transition d).
Definition set_heads (f : list WorkspaceHead → list WorkspaceHead)
    (d : ConversationDocument) : ConversationDocument :=
  mkConversationDocument (cd_schema_version d) (cd_revision d) (cd_conversations d)
    (f (cd_workspace_heads d)) (cd_pending_launches d) (cd_pre_migration_backup d)
    (cd_active_transition d).
Definition set_pendings (f : list PendingLaunch → list PendingLaunch)
    (d : ConversationDocument) : ConversationDocument :=
  mkConversationDocument (cd_schema_version d) (cd_revision d) (cd_conversations d)
    (cd_workspace_heads d) (f (cd_pending_launches d)) (cd_pre_migration_backup d)
    (cd_active_transition d).
Definition set_transition (t : option HandoffTransition)
    (d : ConversationDocument) : ConversationDocument :=
  mkConversationDocument (cd_schema_version d) (cd_revision d) (cd_conversations d)
    (cd_workspace_heads d) (cd_pending_launches d) (cd_pre_migration_backup d) t.
Definition set_revision (r : Z) (d : ConversationDocument) : ConversationDocument :=
  mkConversationDocument (cd_schema_version d) r (cd_conversations d)
    (cd_workspace_heads d) (cd_pending_launches d) (cd_pre_migration_backup d)
    (cd_active_transition d).

Definition set_generations (f : list ConversationGeneration → list ConversationGeneration)
    (c : Conversation) : Conversation :=
  mkConversation (cv_conversation_id c) (cv_provider c) (f (cv_generations c))
    (cv_active_generation c) (cv_last_safe_lifecycle c).
Definition set_active_generation (n : Z) (c : Conversation) : Conversation :=
  mkConversation (cv_conversation_id c) (cv_provider c) (cv_generations c) n
    (cv_last_safe_lifecycle c).
Definition set_lifecycle (l : ConversationLifecycle) (c : Conversation) : Conversation :=
  mkConversation (cv_conversation_id c) (cv_provider c) (cv_generations c)
    (cv_active_generation c) l.
Definition set_handoff_metadata (trust_domain_id : string) (rollout : GenerationRollout)
    (g : ConversationGeneration) : ConversationGeneration :=
  mkConversationGeneration (cg_generation g) (cg_profile_id g) (cg_thread_id g)
    (cg_canonical_cwd g) (cg_codex_version g) (cg_adapter_version g) (cg_bound_at g)
    (Some trust_domain_id) (Some rollout).

Definition set_head_state (s : HeadState) (h : WorkspaceHead) : WorkspaceHead :=
  mkWorkspaceHead (wh_provider h) (wh_canonical_cwd h) s (wh_conversation_id h) (wh_generation h).
Definition set_head_generation (n : Z) (h : WorkspaceHead) : WorkspaceHead :=
  mkWorkspaceHead (wh_provider h) (wh_canonical_cwd h) (wh_state h) (wh_conversation_id h) (Some n).

Definition set_pending_phase (p : PendingPhase) (l : PendingLaunch) : PendingLaunch :=
  mkPendingLaunch (pl_launch_id l) (pl_profile_id l) (pl_canonical_cwd l) (pl_mode l)
    (pl_codex_version l) (pl_adapter_version l) (pl_pre_inventory l) p (pl_started_at l).

(** The assignments of [advance_handoff_phase], [record_fork_intent],
    [record_bounded_fork_retry] and [observe_handoff_target]. *)
Definition at_phase (p : HandoffPhase) (now : Z) (t : HandoffTransition) : HandoffTransition :=
  mkHandoffTransition (tr_transition_id t) (tr_conversation_id t) (tr_source_generation t)
    (tr_target_generation t) (tr_source_profile_id t) (tr_target_profile_id t)
    (tr_canonical_cwd t) (tr_trust_domain_id t) (tr_reason t) (tr_source_rollout t) p
    (tr_target_baseline_thread_ids t) (tr_fork_attempts t) (tr_fork_requested_at t)
    (tr_observed_target t) (tr_prepared_at t) now.
Definition with_fork_attempt (n : Z) (now : Z) (t : HandoffTransition) : HandoffTransition :=
  mkHandoffTransition (tr_transition_id t) (tr_conversation_id t) (tr_source_generation t)
    (tr_target_generation t) (tr_source_profile_id t) (tr_target_profile_id t)
    (tr_canonical_cwd t) (tr_trust_domain_id t) (tr_reason t) (tr_source_rollout t) (tr_phase t)
    (tr_target_baseline_thread_ids t) n (Some now)
    (tr_observed_target t) (tr_prepared_at t) now.
Definition with_baseline (ids : list string) (t : HandoffTransition) : HandoffTransition :=
  mkHandoffTransition (tr_transition_id t) (tr_conversation_id t) (tr_source_generation t)
    (tr_target_generation t) (tr_source_profile_id t) (tr_target_profile_id t)
    (tr_canonical_cwd t) (tr_trust_domain_id t) (tr_reason t) (tr_source_rollout t) (tr_phase t)
    ids (tr_fork_attempts t) (tr_fork_requested_at t)
    (tr_observed_target t) (tr_prepared_at t) (tr_updated_at t).
Definition with_observation (o : ObservedHandoffTarget) (t : HandoffTransition)
    : HandoffTransition :=
  mkHandoffTransition (tr_transition_id t) (tr_conversation_id t) (tr_source_generation t)
    (tr_target_generation t) (tr_source_profile_id t) (tr_target_profile_id t)
    (tr_canonical_cwd t) (tr_trust_domain_id t) (tr_reason t) (tr_source_rollout t) (tr_phase t)
    (tr_target_baseline_thread_ids t) (tr_fork_attempts t) (tr_fork_requested_at t)
    (Some o) (tr_prepared_at t) (tr_updated_at t).

(** ** Closures *)

(** A closure over [&mut ConversationDocument]. *)
Definition tx (A : Type) : Type := stM ConversationDocument ConversationError A.

Section ops.
Context {UC : UuidCrate} (env : CallEnv).

Definition unix_timestamp : result ConversationError Z :=
  seconds ← ok_or (system_time env) invalid;
  if seconds <=? i64_max then Ok seconds else Err invalid.

Definition fresh_id : string := uuid_to_string (new_v4 env).

Definition in_transition (cwd : string) (d : ConversationDocument) : bool :=
  match cd_active_transition d with
  | Some t => String.eqb (tr_canonical_cwd t) cwd
  | None => false
  end.

Definition ensure_workspace_not_transitioning (cwd : string) : tx () :=
  d ← get_st;
  lift_result (reject_if (in_transition cwd d) CE_TransitionBusy).

Definition mark_head_needs_selection (cwd : string) : tx () :=
  d ← get_st;
  if existsb (head_for Codex cwd) (cd_workspace_heads d) then
    modify_st (set_heads (update_first (head_for Codex cwd) (set_head_state Hs_NeedsSelection)))
  else
    modify_st (set_heads (fun heads =>
      heads ++ [mkWorkspaceHead Codex cwd Hs_NeedsSelection None None])).

Definition head_binding (c : Conversation) (g : ConversationGeneration) : HeadBinding :=
  mkHeadBinding (cv_conversation_id c) (cg_generation g) (cg_profile_id g) (cg_thread_id g)
    (cg_canonical_cwd g) (cg_codex_version g) (cv_last_safe_lifecycle c).

Definition resolve_head_document (d : ConversationDocument) (cwd : string)
    : result ConversationError HeadBinding :=
  _ ← reject_if (in_transition cwd d) CE_TransitionBusy;
  _ ← reject_if (pending_in cwd d) CE_Ambiguous;
  head ← ok_or (find_first (head_for Codex cwd) (cd_workspace_heads d)) CE_NotFound;
  _ ← reject_if (negb (bool_decide (wh_state head = Hs_Ready))) CE_Ambiguous;
  conversation_id ← ok_or (wh_conversation_id head) invalid;
  generation_number ← ok_or (wh_generation head) invalid;
  conversation ← ok_or (find_conversation conversation_id d) invalid;
  generation ← ok_or (find_generation generation_number conversation) invalid;
  Ok (head_binding conversation generation).

(** [generation.profile_id == ... && generation.thread_id == ...]. *)
Definition is_binding (b : BindingInput) (g : ConversationGeneration) : bool :=
  String.eqb (cg_profile_id g) (bi_profile_id b) && String.eqb (cg_thread_id g) (bi_thread_id b).
Definition binds_here (b : BindingInput) (c : Conversation) : bool :=
  existsb (is_binding b) (cv_generations c).

(** The conversation a binding belongs to: an existing one whose active
    generation it is, or a new one. *)
Definition bind_conversation (b : BindingInput) : tx (string * Z) :=
  d ← get_st;
  match find_first (binds_here b) (cd_conversations d) with
  | Some conversation =>
      generation ← lift_result (ok_or (find_first (is_binding b) (cv_generations conversation))
                                  invalid);
      _ ← lift_result (reject_if (negb (cg_generation generation
                                        =? cv_active_generation conversation)) CE_Ambiguous);
      _ ← lift_result (reject_if (negb (String.eqb (cg_canonical_cwd generation)
                                          (bi_canonical_cwd b))) CE_CwdMismatch);
      _ ← modify_st (set_conversations (update_first (binds_here b)
                                          (set_lifecycle (bi_lifecycle b))));
      mret (cv_conversation_id conversation, cg_generation generation)
  | None =>
      now ← lift_result unix_timestamp;
      let generation := mkConversationGeneration 0 (bi_profile_id b) (bi_thread_id b)
                          (bi_canonical_cwd b) (bi_codex_version b) (CARGO_PKG_VERSION env) now
                          None None in
      _ ← modify_st (set_conversations (fun l =>
            l ++ [mkConversation fresh_id Codex [generation] 0 (bi_lifecycle b)]));
      mret (fresh_id, 0)
  end.

Definition bind_document (b : BindingInput) : tx HeadBinding :=
  _ ← lift_result (validate_binding_input b);
  _ ← ensure_workspace_not_transitioning (bi_canonical_cwd b);
  d ← get_st;
  _ ← lift_result (reject_if
        (existsb (fun c => existsb (fun g => String.eqb (cg_thread_id g) (bi_thread_id b)
                                    && negb (String.eqb (cg_profile_id g) (bi_profile_id b)))
                             (cv_generations c)) (cd_conversations d)) CE_ProfileMismatch);
  bound ← bind_conversation b;
  _ ← modify_st (set_heads (fun heads =>
        List.filter (fun h => negb (head_for Codex (bi_canonical_cwd b) h)) heads
        ++ [mkWorkspaceHead Codex (bi_canonical_cwd b) Hs_Ready (Some (fst bound))
              (Some (snd bound))]));
  mret (mkHeadBinding (fst bound) (snd bound) (bi_profile_id b) (bi_thread_id b)
          (bi_canonical_cwd b) (bi_codex_version b) (bi_lifecycle b)).

(** *** Launches *)

Definition begin_launch_tx (pending : PendingLaunch) : tx bool :=
  let cwd := pl_canonical_cwd pending in
  _ ← ensure_workspace_not_transitioning cwd;
  d ← get_st;
  let overlapping :=
    existsb (fun existing => String.eqb (pl_canonical_cwd existing) cwd
                             && negb (String.eqb (pl_launch_id existing) (pl_launch_id pending)))
      (cd_pending_launches d) in
  _ ← (if overlapping then mark_head_needs_selection cwd
       else modify_st (set_pendings (fun l => l ++ [pending])));
  mret overlapping.

Definition is_launch (launch_id : string) (p : PendingLaunch) : bool :=
  String.eqb (pl_launch_id p) launch_id.

(** [mark_provider_started] and [mark_capture_failed]. *)
Definition mark_pending_tx (launch_id : string) (phase : PendingPhase) : tx () :=
  d ← get_st;
  if existsb (is_launch launch_id) (cd_pending_launches d) then
    modify_st (set_pendings (update_first (is_launch launch_id) (set_pending_phase phase)))
  else throw CE_NotFound.

Definition finish_launch_tx (launch_id : string) (resolution : LaunchResolution)
    : tx (option HeadBinding) :=
  d ← get_st;
  index ← lift_result (ok_or (position (is_launch launch_id) (cd_pending_launches d)) CE_NotFound);
  pending ← lift_result (ok_or (cd_pending_launches d !! index) CE_NotFound);
  _ ← modify_st (set_pendings (remove_at index));
  let cwd := pl_canonical_cwd pending in
  if is_untracked (pl_mode pending) then
    _ ← mark_head_needs_selection cwd;
    mret None
  else if existsb (fun h => String.eqb (wh_canonical_cwd h) cwd
                            && bool_decide (wh_state h = Hs_NeedsSelection))
            (cd_workspace_heads d) then mret None
  else match resolution with
  | Bind b =>
      if negb (String.eqb (bi_profile_id b) (pl_profile_id pending))
         || negb (String.eqb (bi_canonical_cwd b) cwd)
         || negb (bool_decide (pl_codex_version pending = Some (bi_codex_version b)))
      then
        _ ← mark_head_needs_selection cwd;
        mret None
      else
        bound ← bind_document b;
        mret (Some bound)
  | NoThread => mret None
  | AmbiguousThread =>
      _ ← mark_head_needs_selection cwd;
      mret None
  end.

Definition adopt_tx (b : BindingInput) : tx HeadBinding :=
  _ ← ensure_workspace_not_transitioning (bi_canonical_cwd b);
  d ← get_st;
  _ ← lift_result (reject_if (pending_in (bi_canonical_cwd b) d) CE_Ambiguous);
  bind_document b.

Definition refresh_adopted_tx (expected : HeadBinding) (b : BindingInput) : tx HeadBinding :=
  d ← get_st;
  current ← lift_result (resolve_head_document d (bi_canonical_cwd b));
  _ ← lift_result (reject_if
        (negb (String.eqb (hb_conversation_id current) (hb_conversation_id expected))
         || negb (hb_generation current =? hb_generation expected)
         || negb (String.eqb (hb_profile_id current) (hb_profile_id expected))
         || negb (String.eqb (hb_thread_id current) (hb_thread_id expected))
         || negb (String.eqb (hb_codex_version current) (hb_codex_version expected)))
        CE_Ambiguous);
  bind_document b.

Definition mark_workspace_ambiguous_tx (cwd : string) : tx () :=
  _ ← ensure_workspace_not_transitioning cwd;
  mark_head_needs_selection cwd.

Definition prepare_untracked_tx (pending : PendingLaunch) : tx string :=
  let cwd := pl_canonical_cwd pending in
  _ ← ensure_workspace_not_transitioning cwd;
  d ← get_st;
  _ ← lift_result (reject_if (pending_in cwd d) CE_Ambiguous);
  _ ← mark_head_needs_selection cwd;
  _ ← modify_st (set_pendings (fun l => l ++ [pending]));
  mret (pl_launch_id pending).

(** *** The handoff *)

(** [iter_mut().find(|c| c.conversation_id == id)] and an assignment. *)
Definition update_conversation (id : string) (f : Conversation → Conversation) : tx () :=
  modify_st (set_conversations
    (update_first (fun c => String.eqb (cv_conversation_id c) id) f)).

(** The source generation's trust domain and rollout are filled in once. *)
Definition bind_source_metadata (p : HandoffPreparation) (conversation : Conversation)
    (source : ConversationGeneration) : tx () :=
  match cg_trust_domain_id source, cg_rollout source with
  | None, None =>
      update_conversation (cv_conversation_id conversation)
        (set_generations (update_first
           (fun g => cg_generation g =? cv_active_generation conversation)
           (set_handoff_metadata (hp_trust_domain_id p) (hp_source_rollout p))))
  | Some trust_domain_id, Some rollout =>
      lift_result (reject_if (negb (String.eqb trust_domain_id (hp_trust_domain_id p))
                              || negb (bool_decide (rollout = hp_source_rollout p))) invalid)
  | _, _ => throw invalid
  end.

Definition prepare_handoff_tx (p : HandoffPreparation) : tx HandoffTransition :=
  let expected := hp_expected_source p in
  d ← get_st;
  _ ← lift_result (reject_if (negb (bool_decide (cd_active_transition d = None)))
                     CE_TransitionBusy);
  _ ← lift_result (reject_if (pending_in (hb_canonical_cwd expected) d) CE_Ambiguous);
  current ← lift_result (resolve_head_document d (hb_canonical_cwd expected));
  _ ← lift_result (reject_if (negb (bool_decide (current = expected))) CE_Ambiguous);
  conversation ← lift_result (ok_or (find_conversation (hb_conversation_id expected) d)
                                CE_NotFound);
  _ ← lift_result (reject_if (negb (cv_active_generation conversation =? hb_generation expected))
                     CE_Ambiguous);
  source ← lift_result (ok_or (find_generation (cv_active_generation conversation) conversation)
                          invalid);
  _ ← lift_result (reject_if
        (negb (String.eqb (cg_profile_id source) (hb_profile_id expected))
         || negb (String.eqb (cg_thread_id source) (hb_thread_id expected))
         || negb (String.eqb (cg_canonical_cwd source) (hb_canonical_cwd expected)))
        CE_Ambiguous);
  _ ← bind_source_metadata p conversation source;
  target_generation ← lift_result (ok_or (checked_add_u u32_max (cg_generation source) 1) invalid);
  now ← lift_result unix_timestamp;
  let transition :=
    mkHandoffTransition fresh_id (cv_conversation_id conversation) (cg_generation source)
      target_generation (cg_profile_id source) (hp_target_profile_id p)
      (cg_canonical_cwd source) (hp_trust_domain_id p) (hp_reason p) (hp_source_rollout p)
      Hp_Prepared [] 0 None None now now in
  _ ← modify_st (set_transition (Some transition));
  mret transition.

(** [active_transition.filter(|t| t.transition_id == id)]. *)
Definition exact_transition (transition_id : string) (d : ConversationDocument)
    : result ConversationError HandoffTransition :=
  t ← ok_or (cd_active_transition d) CE_NotFound;
  _ ← reject_if (negb (String.eqb (tr_transition_id t) transition_id)) CE_NotFound;
  Ok t.

(** [exact_transition_mut]. *)
Definition exact_transition_at (transition_id : string) (expected : HandoffPhase)
    (d : ConversationDocument) : result ConversationError HandoffTransition :=
  t ← exact_transition transition_id d;
  _ ← reject_if (negb (bool_decide (tr_phase t = expected))) CE_TransitionPhaseInvalid;
  Ok t.

Definition put_transition (t : HandoffTransition) : tx HandoffTransition :=
  _ ← modify_st (set_transition (Some t));
  mret t.

Definition advance_handoff_phase_tx (transition_id : string) (expected next : HandoffPhase)
    : tx HandoffTransition :=
  d ← get_st;
  t ← lift_result (exact_transition_at transition_id expected d);
  now ← lift_result unix_timestamp;
  put_transition (at_phase next now t).

Definition record_fork_intent_tx (transition_id : string) (baseline : list string)
    : tx HandoffTransition :=
  d ← get_st;
  t ← lift_result (exact_transition_at transition_id Hp_SourceStopped d);
  _ ← lift_result (reject_if (negb (tr_fork_attempts t =? 0)
                              || negb (bool_decide (tr_fork_requested_at t = None))
                              || negb (bool_decide (tr_target_baseline_thread_ids t = [])))
                     CE_TransitionPhaseInvalid);
  now ← lift_result unix_timestamp;
  put_transition (with_fork_attempt 1 now (with_baseline baseline
                    (at_phase Hp_ForkRequested now t))).

Definition record_bounded_fork_retry_tx (transition_id : string) : tx HandoffTransition :=
  d ← get_st;
  t ← lift_result (exact_transition_at transition_id Hp_ForkRequested d);
  _ ← lift_result (reject_if (negb (tr_fork_attempts t =? 1)
                              || bool_decide (tr_fork_requested_at t = None)
                              || negb (bool_decide (tr_observed_target t = None)))
                     CE_TransitionPhaseInvalid);
  now ← lift_result unix_timestamp;
  put_transition (with_fork_attempt 2 now t).

(** [conversations.iter().any(|c| c.generations.iter().any(|g| g.thread_id == id))]. *)
Definition thread_bound (thread_id : string) (d : ConversationDocument) : bool :=
  existsb (fun c => has_thread thread_id (cv_generations c)) (cd_conversations d).

Definition observe_handoff_target_tx (transition_id : string) (target : HandoffTarget)
    : tx HandoffTransition :=
  d ← get_st;
  t ← lift_result (exact_transition transition_id d);
  _ ← lift_result (reject_if (negb (bool_decide (tr_phase t = Hp_ForkRequested)))
                     CE_TransitionPhaseInvalid);
  _ ← lift_result (reject_if (negb (String.eqb (ht_canonical_cwd target) (tr_canonical_cwd t))
                              || same_rollout_file (ht_rollout target) (tr_source_rollout t))
                     invalid);
  source ← lift_result (ok_or (c ← find_conversation (tr_conversation_id t) d;
                               find_generation (tr_source_generation t) c) invalid);
  _ ← lift_result (reject_if (String.eqb (ht_thread_id target) (cg_thread_id source)
                              || thread_bound (ht_thread_id target) d) invalid);
  now ← lift_result unix_timestamp;
  put_transition (at_phase Hp_ForkObserved now (with_observation
    (mkObservedHandoffTarget (ht_thread_id target) (ht_canonical_cwd target)
       (ht_codex_version target) (CARGO_PKG_VERSION env) (ht_rollout target) now) t)).

(** The generation a commit appends. *)
Definition committed_generation (t : HandoffTransition) (target : ObservedHandoffTarget)
    : ConversationGeneration :=
  mkConversationGeneration (tr_target_generation t) (tr_target_profile_id t)
    (ot_thread_id target) (ot_canonical_cwd target) (ot_codex_version target)
    (ot_adapter_version target) (ot_observed_at target) (Some (tr_trust_domain_id t))
    (Some (ot_rollout target)).

Definition commit_conversation (t : HandoffTransition) (target : ObservedHandoffTarget)
    (c : Conversation) : Conversation :=
  set_lifecycle Lc_Interrupted (set_active_generation (tr_target_generation t)
    (set_generations (fun l => l ++ [committed_generation t target]) c)).

Definition commit_handoff_tx (transition_id : string) : tx HeadBinding :=
  d ← get_st;
  t ← lift_result (exact_transition transition_id d);
  _ ← lift_result (reject_if (negb (bool_decide (tr_phase t = Hp_ForkObserved)))
                     CE_TransitionPhaseInvalid);
  target ← lift_result (ok_or (tr_observed_target t) invalid);
  _ ← lift_result (reject_if (thread_bound (ot_thread_id target) d) invalid);
  conversation ← lift_result (ok_or (find_conversation (tr_conversation_id t) d) CE_NotFound);
  _ ← lift_result (reject_if
        (negb (cv_active_generation conversation =? tr_source_generation t)
         || (MAX_LINEAGE_GENERATIONS <=? len (cv_generations conversation)))
        CE_TransitionPhaseInvalid);
  _ ← update_conversation (tr_conversation_id t) (commit_conversation t target);
  let here := head_for (cv_provider conversation) (tr_canonical_cwd t) in
  head ← lift_result (ok_or (find_first here (cd_workspace_heads d)) invalid);
  _ ← lift_result (reject_if
        (negb (bool_decide (wh_state head = Hs_Ready))
         || negb (bool_decide (wh_conversation_id head = Some (tr_conversation_id t)))
         || negb (bool_decide (wh_generation head = Some (tr_source_generation t))))
        CE_TransitionPhaseInvalid);
  _ ← modify_st (set_heads (update_first here (set_head_generation (tr_target_generation t))));
  now ← lift_result unix_timestamp;
  _ ← put_transition (at_phase Hp_CommittedUnattached now t);
  mret (mkHeadBinding (tr_conversation_id t) (tr_target_generation t) (tr_target_profile_id t)
          (ot_thread_id target) (ot_canonical_cwd target) (ot_codex_version target)
          Lc_Interrupted).

Definition finish_handoff_attachment_tx (transition_id : string) : tx HeadBinding :=
  d ← get_st;
  t ← lift_result (exact_transition transition_id d);
  _ ← lift_result (reject_if (negb (bool_decide (tr_phase t = Hp_CommittedUnattached)))
                     CE_TransitionPhaseInvalid);
  _ ← modify_st (set_transition None);
  d ← get_st;
  lift_result (resolve_head_document d (tr_canonical_cwd t)).
End ops.

(** ** What the methods check before they take the lock *)

(** What [fs::canonicalize] returns for a path: whether it is a directory and
    its UTF-8 form. *)
Record CanonicalPath := mkCanonicalPath { cp_is_dir : bool; cp_str : option string }.
Definition canonical_path_string (path : option CanonicalPath) : result ConversationError string :=
  canonical ← ok_or path CE_CwdMismatch;
  _ ← reject_if (negb (cp_is_dir canonical)) CE_CwdMismatch;
  ok_or (cp_str canonical) CE_CwdMismatch.

Section checks.
Context {UC : UuidCrate} (env : CallEnv).

(** The launch [begin_launch] records. *)
Definition new_launch (profile_id : string) (cwd : option CanonicalPath) (mode : LaunchMode)
    (codex_version : string) (pre_inventory : list InventoryThread)
    : result ConversationError PendingLaunch :=
  _ ← validate_uuid profile_id;
  _ ← reject_if (is_untracked mode) invalid;
  cwd ← canonical_path_string cwd;
  _ ← validate_codex_version codex_version;
  pre_inventory ← normalize_inventory pre_inventory;
  let launch_id := fresh_id env in
  started_at ← unix_timestamp env;
  Ok (mkPendingLaunch launch_id profile_id cwd mode (Some codex_version)
        (CARGO_PKG_VERSION env) pre_inventory Pp_Prepared started_at).

(** The owner [prepare_untracked] records. *)
Definition new_untracked (profile_id : string) (cwd : option CanonicalPath) (mode : LaunchMode)
    : result ConversationError PendingLaunch :=
  _ ← validate_uuid profile_id;
  _ ← reject_if (negb (is_untracked mode)) invalid;
  cwd ← canonical_path_string cwd;
  let launch_id := fresh_id env in
  started_at ← unix_timestamp env;
  Ok (mkPendingLaunch launch_id profile_id cwd mode None (CARGO_PKG_VERSION env) []
        Pp_Prepared started_at).

Definition check_refresh (expected : HeadBinding) (binding : BindingInput)
    : result ConversationError () :=
  _ ← validate_binding_input binding;
  reject_if (negb (String.eqb (hb_profile_id expected) (bi_profile_id binding))
             || negb (String.eqb (hb_thread_id expected) (bi_thread_id binding))
             || negb (String.eqb (hb_canonical_cwd expected) (bi_canonical_cwd binding))
             || negb (String.eqb (hb_codex_version expected) (bi_codex_version binding)))
    CE_Ambiguous.

Definition check_preparation (p : HandoffPreparation) : result ConversationError () :=
  let expected := hp_expected_source p in
  _ ← validate_uuid (hb_conversation_id expected);
  _ ← validate_uuid (hb_profile_id expected);
  _ ← validate_uuid (hb_thread_id expected);
  _ ← validate_stored_path (hb_canonical_cwd expected);
  _ ← validate_codex_version (hb_codex_version expected);
  _ ← validate_uuid (hp_target_profile_id p);
  _ ← validate_uuid (hp_trust_domain_id p);
  _ ← validate_rollout (hp_source_rollout p);
  _ ← reject_if (bool_decide (hp_reason p = UnknownLegacy)) invalid;
  reject_if (String.eqb (hb_profile_id expected) (hp_target_profile_id p)) invalid.

Definition check_fork_intent (transition_id : string) (baseline : list string)
    : result ConversationError () :=
  _ ← validate_uuid transition_id;
  validate_thread_baseline baseline.

Definition check_target (transition_id : string) (target : HandoffTarget)
    : result ConversationError () :=
  _ ← validate_uuid transition_id;
  _ ← validate_uuid (ht_thread_id target);
  _ ← validate_stored_path (ht_canonical_cwd target);
  _ ← validate_codex_version (ht_codex_version target);
  validate_rollout (ht_rollout target).
End checks.

(** ** Reads *)

Section reads.
Context {UC : UuidCrate}.

(** [pending_for]: two matches are ambiguous. *)
Definition at_most_one {A} (l : list A) : result ConversationError (option A) :=
  match l with _ :: _ :: _ => Err CE_Ambiguous | _ => Ok (head l) end.

Definition pending_for_read (profile_id cwd : string) (d : ConversationDocument)
    : result ConversationError (option PendingLaunch) :=
  at_most_one (List.filter (fun p => String.eqb (pl_profile_id p) profile_id
                                     && String.eqb (pl_canonical_cwd p) cwd)
                 (cd_pending_launches d)).

Definition pending_profile_for_workspace_read (cwd : string) (d : ConversationDocument)
    : result ConversationError (option string) :=
  at_most_one (pl_profile_id <$> List.filter (fun p => String.eqb (pl_canonical_cwd p) cwd)
                                   (cd_pending_launches d)).

Definition untracked_for_workspace_read (cwd : string) (d : ConversationDocument)
    : result ConversationError (option PendingLaunch) :=
  Ok (find_first (fun p => String.eqb (pl_canonical_cwd p) cwd && is_untracked (pl_mode p))
        (cd_pending_launches d)).

Definition profile_ids_from_generation_read (conversation_id : string) (first_generation : Z)
    (d : ConversationDocument) : result ConversationError (gset string) :=
  c ← ok_or (find_conversation conversation_id d) CE_NotFound;
  _ ← reject_if (negb (existsb (fun g => cg_generation g =? first_generation) (cv_generations c)))
        CE_NotFound;
  Ok (list_to_set (cg_profile_id <$>
        List.filter (fun g => first_generation <=? cg_generation g) (cv_generations c))).

(** [iter().find_map(..)] over the conversations. *)
Definition find_bound_thread_read (profile_id thread_id cwd : string)
    (d : ConversationDocument) : result ConversationError (option HeadBinding) :=
  Ok (head (omap (fun c =>
        g ← find_first (fun g => String.eqb (cg_profile_id g) profile_id
                                 && String.eqb (cg_thread_id g) thread_id
                                 && String.eqb (cg_canonical_cwd g) cwd) (cv_generations c);
        Some (head_binding c g)) (cd_conversations d))).

Definition current_handoff_read (d : ConversationDocument)
    : result ConversationError (option HandoffTransition) := Ok (cd_active_transition d).

Definition current_handoff_context_read (d : ConversationDocument)
    : result ConversationError (option (HandoffTransition * HeadBinding)) :=
  match cd_active_transition d with
  | None => Ok None
  | Some t =>
      c ← ok_or (find_conversation (tr_conversation_id t) d) invalid;
      source ← ok_or (find_generation (tr_source_generation t) c) invalid;
      _ ← reject_if (negb (String.eqb (cg_profile_id source) (tr_source_profile_id t))
                     || negb (String.eqb (cg_canonical_cwd source) (tr_canonical_cwd t))) invalid;
      Ok (Some (t, head_binding c source))
  end.
End reads.

(** ** The transactions of the interface *)

(** A mutating call and its arguments. *)
Inductive transaction :=
| T_BeginLaunch (profile_id : string) (cwd : option CanonicalPath) (mode : LaunchMode)
    (codex_version : string) (pre_inventory : list InventoryThread)
| T_MarkStarted (launch_id : string)
| T_MarkCaptureFailed (launch_id : string)
| T_FinishLaunch (launch_id : string) (resolution : LaunchResolution)
| T_Adopt (binding : BindingInput)
| T_RefreshAdopted (expected : HeadBinding) (binding : BindingInput)
| T_MarkAmbiguous (cwd : option CanonicalPath)
| T_PrepareUntracked (profile_id : string) (cwd : option CanonicalPath) (mode : LaunchMode)
| T_PrepareHandoff (preparation : HandoffPreparation)
| T_StopRequested (transition_id : string)
| T_Stopped (transition_id : string)
| T_ForkIntent (transition_id : string) (baseline : list string)
| T_ForkRetry (transition_id : string)
| T_ObserveTarget (transition_id : string) (target : HandoffTarget)
| T_Commit (transition_id : string)
| T_Finish (transition_id : string).

(** The calls that run under [transact_v2]. *)
Definition is_handoff (t : transaction) : bool :=
  match t with
  | T_PrepareHandoff _ | T_StopRequested _ | T_Stopped _ | T_ForkIntent _ _ | T_ForkRetry _
  | T_ObserveTarget _ _ | T_Commit _ | T_Finish _ => true
  | _ => false
  end.

(** Discards the value of a closure. *)
Definition ignore {A} (f : tx A) : tx () := _ ← f; mret ().

(** The closure a call hands to the store after its checks. *)
Definition plan {UC : UuidCrate} (env : CallEnv) (t : transaction)
    : result ConversationError (tx ()) :=
  match t with
  | T_BeginLaunch profile_id cwd mode version inventory =>
      p ← new_launch env profile_id cwd mode version inventory;
      Ok (ignore (begin_launch_tx p))
  | T_MarkStarted id => _ ← validate_uuid id; Ok (mark_pending_tx id Pp_ProviderStarted)
  | T_MarkCaptureFailed id => _ ← validate_uuid id; Ok (mark_pending_tx id Pp_CaptureFailed)
  | T_FinishLaunch id resolution =>
      _ ← validate_uuid id; Ok (ignore (finish_launch_tx env id resolution))
  | T_Adopt b => _ ← validate_binding_input b; Ok (ignore (adopt_tx env b))
  | T_RefreshAdopted expected b =>
      _ ← check_refresh expected b; Ok (ignore (refresh_adopted_tx env expected b))
  | T_MarkAmbiguous cwd => cwd ← canonical_path_string cwd; Ok (mark_workspace_ambiguous_tx cwd)
  | T_PrepareUntracked profile_id cwd mode =>
      p ← new_untracked env profile_id cwd mode; Ok (ignore (prepare_untracked_tx p))
  | T_PrepareHandoff p => _ ← check_preparation p; Ok (ignore (prepare_handoff_tx env p))
  | T_StopRequested id =>
      _ ← validate_uuid id;
      Ok (ignore (advance_handoff_phase_tx env id Hp_Prepared Hp_SourceStopRequested))
  | T_Stopped id =>
      _ ← validate_uuid id;
      Ok (ignore (advance_handoff_phase_tx env id Hp_SourceStopRequested Hp_SourceStopped))
  | T_ForkIntent id baseline =>
      _ ← check_fork_intent id baseline; Ok (ignore (record_fork_intent_tx env id baseline))
  | T_ForkRetry id => _ ← validate_uuid id; Ok (ignore (record_bounded_fork_retry_tx env id))
  | T_ObserveTarget id target =>
      _ ← check_target id target; Ok (ignore (observe_handoff_target_tx env id target))
  | T_Commit id => _ ← validate_uuid id; Ok (ignore (commit_handoff_tx env id))
  | T_Finish id => _ ← validate_uuid id; Ok (ignore (finish_handoff_attachment_tx id))
  end.
