(* ===== verification/ConversationStore.v ===== *)
(** * The conversation journal on disk (src/conversations.rs)

    [ConversationRegistry] over its private directory: the lock, the
    registry file, the backup of the schema v1 document that the first handoff
    leaves behind, publication through a temporary file, and every method of
    the interface. A host answers every system call; any of them may fail. A
    temporary file that could not be removed is not kept: later calls use
    other names. *)
From Stdlib Require Import Ascii.
From S2P Require Import Prelude Interfaces Profiles Storage ConversationData ConversationOps.

Open Scope Z_scope.

(** [sha2::Sha256::digest]: 32 bytes. *)
Class Sha256Crate := { digest : bytes → bytes }.

(** ** The directory and the host *)

Inductive ConversationFile := Cf_Registry | Cf_Backup.

Record ConvDisk := mkConvDisk {
  conv_root : bool;
  conv_lock : bool;
  registry_file : option bytes;
  backup_file : option bytes;
  temp_file : option bytes;
}.

(** [fs::symlink_metadata] as far as the checks read it. *)
Record Metadata := mkMetadata {
  md_is_dir : bool;
  md_is_file : bool;
  md_is_symlink : bool;
  md_uid : Z;
  md_mode : Z;
  md_nlink : Z;
}.

Inductive StatStep :=
| Vs_Root | Vs_Lock | Vs_LockOpened | Vs_File (f : ConversationFile)
| Vs_Temp (f : ConversationFile) | Vs_Remove (f : ConversationFile).
Inductive CallStep :=
| Cs_StatLock | Cs_OpenLock | Cs_Lock | Cs_StatFile (f : ConversationFile)
| Cs_ReadFile (f : ConversationFile) | Cs_Create (f : ConversationFile)
| Cs_Write (f : ConversationFile) | Cs_Sync (f : ConversationFile)
| Cs_Rename (f : ConversationFile) | Cs_StatTemp (f : ConversationFile)
| Cs_Remove (f : ConversationFile) | Cs_SyncRoot (f : ConversationFile).

(** The answers of the system during one call: metadata ([None] is an I/O
    error) and which calls fail. *)
Record Host := mkHost {
  getuid : Z;
  metadata_of : StatStep → option Metadata;
  io_fails : CallStep → bool;
}.

Definition file_of (f : ConversationFile) (d : ConvDisk) : option bytes :=
  match f with Cf_Registry => registry_file d | Cf_Backup => backup_file d end.
Definition set_conv_lock (d : ConvDisk) : ConvDisk :=
  mkConvDisk (conv_root d) true (registry_file d) (backup_file d) (temp_file d).
Definition set_temp (b : option bytes) (d : ConvDisk) : ConvDisk :=
  mkConvDisk (conv_root d) (conv_lock d) (registry_file d) (backup_file d) b.
(** [fs::rename(&temporary, &destination)]. *)
Definition rename_temp (f : ConversationFile) (d : ConvDisk) : ConvDisk :=
  match f with
  | Cf_Registry => mkConvDisk (conv_root d) (conv_lock d) (temp_file d) (backup_file d) None
  | Cf_Backup => mkConvDisk (conv_root d) (conv_lock d) (registry_file d) (temp_file d) None
  end.

Definition cs (A : Type) : Type := stM ConvDisk ConversationError A.

Section host.
Context (host : Host).

Definition sys (s : CallStep) : cs () := if io_fails host s then throw CE_Io else mret ().

(** [mode & 0o077 != 0]. *)
Definition group_or_other (m : Metadata) : bool := negb (Z.land (md_mode m) 63 =? 0).

Definition check_private_directory (m : option Metadata) : result ConversationError () :=
  m ← ok_or m CE_Io;
  reject_if (negb (md_is_dir m) || md_is_symlink m || negb (md_uid m =? getuid host)
             || group_or_other m || (md_nlink m <? 1)) invalid.

Definition check_private_regular_file (m : option Metadata) : result ConversationError () :=
  m ← ok_or m CE_Io;
  reject_if (negb (md_is_file m) || md_is_symlink m || negb (md_uid m =? getuid host)
             || group_or_other m || negb (md_nlink m =? 1)) invalid.

(** Statting a directory that is not there is an I/O error. *)
Definition verify_private_directory : cs () :=
  d ← get_st;
  lift_result (check_private_directory (if conv_root d then metadata_of host Vs_Root else None)).
Definition verify_private_regular_file (s : StatStep) : cs () :=
  lift_result (check_private_regular_file (metadata_of host s)).

Definition open_lock : cs () :=
  _ ← sys Cs_StatLock;
  d ← get_st;
  _ ← (if conv_lock d then verify_private_regular_file Vs_Lock else mret ());
  _ ← sys Cs_OpenLock;
  _ ← modify_st set_conv_lock;
  verify_private_regular_file Vs_LockOpened.

(** Verifying and reading one of the two files, bounded; [None] when absent. *)
Definition read_private (f : ConversationFile) : cs (option bytes) :=
  _ ← sys (Cs_StatFile f);
  d ← get_st;
  match file_of f d with
  | None => mret None
  | Some b =>
      _ ← verify_private_regular_file (Vs_File f);
      _ ← sys (Cs_ReadFile f);
      mret (Some (read_limited MAX_REGISTRY_BYTES b))
  end.

(** The closure that writes the temporary file and renames it into place. *)
Definition publication (f : ConversationFile) (b : bytes) : cs () :=
  _ ← sys (Cs_Create f);
  _ ← modify_st (set_temp (Some []));
  _ ← sys (Cs_Write f);
  _ ← modify_st (set_temp (Some b));
  _ ← sys (Cs_Sync f);
  _ ← verify_private_regular_file (Vs_Temp f);
  _ ← sys (Cs_Rename f);
  modify_st (rename_temp f).

(** [let _ = remove_exact_temporary(..)] when the temporary file is there. *)
Definition remove_exact_temporary (f : ConversationFile) (d : ConvDisk) : ConvDisk :=
  if io_fails host (Cs_StatTemp f) then d
  else match check_private_regular_file (metadata_of host (Vs_Remove f)) with
  | Ok _ => if io_fails host (Cs_Remove f) then d else set_temp None d
  | Err _ => d
  end.

Definition publish (f : ConversationFile) (b : bytes) : cs () := fun d =>
  match publication f b d with
  | (Ok u, d) => (Ok u, d)
  | (Err e, d) => (Err e, remove_exact_temporary f d)
  end.

Section codec.
Context {UC : UuidCrate} {SC : Sha256Crate} {JC : JsonCodec ConversationDocument}.

(** [HEX[byte >> 4]] and [HEX[byte & 0x0f]]. *)
Definition hex_digit (n : Z) : ascii :=
  default "0"%char (str_bytes "0123456789abcdef" !! Z.to_nat n).
Definition sha256_hex (b : bytes) : string :=
  String.string_of_list_ascii
    (flat_map (fun byte => [hex_digit (Z.shiftr byte 4); hex_digit (Z.land byte 15)]) (digest b)).

Definition serialize_v1_document (d : ConversationDocument) : result ConversationError bytes :=
  _ ← validate_v1_document d;
  b ← ok_or (to_vec d) invalid;
  _ ← reject_if (MAX_REGISTRY_BYTES <? len b) invalid;
  Ok b.

Definition verify_pre_migration_backup (metadata : PreMigrationBackup) : cs () :=
  file ← read_private Cf_Backup;
  b ← lift_result (ok_or file invalid);
  _ ← lift_result (reject_if ((MAX_REGISTRY_BYTES <? len b)
                              || negb (String.eqb (sha256_hex b) (pb_sha256 metadata))) invalid);
  backup ← lift_result (ok_or (from_slice b) invalid);
  _ ← lift_result (validate_v1_document backup);
  lift_result (reject_if (negb (pb_schema_version metadata =? cd_schema_version backup)
                          || negb (pb_revision metadata =? cd_revision backup)) invalid).

Definition load : cs ConversationDocument :=
  file ← read_private Cf_Registry;
  match file with
  | None => mret default_document
  | Some b =>
      _ ← lift_result (reject_if (MAX_REGISTRY_BYTES <? len b) invalid);
      d ← lift_result (ok_or (from_slice b) invalid);
      _ ← lift_result (reject_if (negb ((cd_schema_version d =? SCHEMA_VERSION_V1)
                                        || (cd_schema_version d =? SCHEMA_VERSION_V2))) invalid);
      _ ← lift_result (validate_document d);
      _ ← (match cd_pre_migration_backup d with
           | Some metadata => verify_pre_migration_backup metadata
           | None => mret ()
           end);
      mret d
  end.

(** Syncing the directory after a rename; a failure is a commit of unknown
    durability. *)
Definition sync_backup_directory : cs () :=
  if io_fails host (Cs_SyncRoot Cf_Backup) then throw CE_CommitUncertain else mret ().

(** Whether the backup on disk is already the one to leave. *)
Definition existing_backup (d : ConversationDocument) (metadata : PreMigrationBackup)
    (file : option bytes) : result ConversationError bool :=
  match file with
  | None => Ok false
  | Some existing =>
      _ ← reject_if (MAX_REGISTRY_BYTES <? len existing) invalid;
      existing_document ← ok_or (from_slice existing) invalid;
      _ ← validate_v1_document existing_document;
      Ok (bool_decide (existing_document = d)
          && String.eqb (sha256_hex existing) (pb_sha256 metadata))
  end.

Definition save_pre_migration_backup (d : ConversationDocument) (metadata : PreMigrationBackup)
    : cs () :=
  b ← lift_result (serialize_v1_document d);
  _ ← lift_result (reject_if (negb (pb_schema_version metadata =? SCHEMA_VERSION_V1)
                              || negb (pb_revision metadata =? cd_revision d)
                              || negb (String.eqb (pb_sha256 metadata) (sha256_hex b))) invalid);
  file ← read_private Cf_Backup;
  present ← lift_result (existing_backup d metadata file);
  if present : bool then sync_backup_directory
  else
    _ ← publish Cf_Backup b;
    sync_backup_directory.

(** The readback cannot change what is reported. *)
Definition confirm_uncertain_commit (intended_revision : Z) : cs () := fun k =>
  let '(r, k) := load k in
  let _intended_revision_is_visible :=
    match r with Ok d => cd_revision d =? intended_revision | Err _ => false end in
  (Err CE_CommitUncertain, k).

Definition save (d : ConversationDocument) : cs () :=
  _ ← lift_result (validate_document d);
  b ← lift_result (ok_or (to_vec d) invalid);
  _ ← lift_result (reject_if (MAX_REGISTRY_BYTES <? len b) invalid);
  _ ← publish Cf_Registry b;
  if io_fails host (Cs_SyncRoot Cf_Registry) then confirm_uncertain_commit (cd_revision d)
  else mret ().

(** ** Transactions *)

Definition read {A} (operation : ConversationDocument → result ConversationError A) : cs A :=
  k ← get_st;
  if conv_root k then
    _ ← verify_private_directory;
    _ ← open_lock;
    _ ← sys Cs_Lock;
    d ← load;
    lift_result (operation d)
  else throw CE_NotFound.

(** Runs a closure on a loaded document: its value and the changed document. *)
Definition run_tx {A} (operation : tx A) (d : ConversationDocument)
    : result ConversationError (A * ConversationDocument) :=
  match operation d with (Ok a, d) => Ok (a, d) | (Err e, _) => Err e end.

(** [document.revision.checked_add(1)]. *)
Definition next_revision (d : ConversationDocument) : result ConversationError ConversationDocument :=
  r ← ok_or (checked_add_u u64_max (cd_revision d) 1) invalid;
  Ok (set_revision r d).

Definition locked : cs ConversationDocument :=
  _ ← verify_private_directory;
  _ ← open_lock;
  _ ← sys Cs_Lock;
  load.

Definition transact {A} (operation : tx A) : cs A :=
  d ← locked;
  changed ← lift_result (run_tx operation d);
  d ← lift_result (next_revision (snd changed));
  _ ← save d;
  mret (fst changed).

(** The metadata of the first handoff's migration. *)
Definition migrate (original : ConversationDocument)
    : result ConversationError ConversationDocument :=
  if cd_schema_version original =? SCHEMA_VERSION_V1 then
    b ← serialize_v1_document original;
    Ok (mkConversationDocument SCHEMA_VERSION_V2 (cd_revision original)
          (cd_conversations original) (cd_workspace_heads original)
          (cd_pending_launches original)
          (Some (mkPreMigrationBackup SCHEMA_VERSION_V1 (cd_revision original) (sha256_hex b)))
          (cd_active_transition original))
  else Ok original.

Definition transact_v2 {A} (operation : tx A) : cs A :=
  original ← locked;
  let migrated := cd_schema_version original =? SCHEMA_VERSION_V1 in
  d ← lift_result (migrate original);
  changed ← lift_result (run_tx operation d);
  d ← lift_result (next_revision (snd changed));
  _ ← lift_result (validate_document d);
  _ ← (if migrated then
         metadata ← lift_result (ok_or (cd_pre_migration_backup d) invalid);
         save_pre_migration_backup original metadata
       else mret ());
  _ ← save d;
  mret (fst changed).

(** ** The methods of [ConversationRegistry] *)

Section methods.
Context (env : CallEnv).

Definition begin_launch (profile_id : string) (cwd : option CanonicalPath) (mode : LaunchMode)
    (codex_version : string) (pre_inventory : list InventoryThread) : cs string :=
  pending ← lift_result (new_launch env profile_id cwd mode codex_version pre_inventory);
  overlapping ← transact (begin_launch_tx pending);
  if overlapping : bool then throw CE_Ambiguous else mret (pl_launch_id pending).

Definition mark_pending (launch_id : string) (phase : PendingPhase) : cs () :=
  _ ← lift_result (validate_uuid launch_id);
  transact (mark_pending_tx launch_id phase).
Definition mark_provider_started (launch_id : string) : cs () :=
  mark_pending launch_id Pp_ProviderStarted.
Definition mark_capture_failed (launch_id : string) : cs () :=
  mark_pending launch_id Pp_CaptureFailed.

Definition pending_for (profile_id : string) (cwd : option CanonicalPath)
    : cs (option PendingLaunch) :=
  _ ← lift_result (validate_uuid profile_id);
  cwd ← lift_result (canonical_path_string cwd);
  read (pending_for_read profile_id cwd).
Definition pending_profile_for_workspace (cwd : option CanonicalPath) : cs (option string) :=
  cwd ← lift_result (canonical_path_string cwd);
  read (pending_profile_for_workspace_read cwd).
Definition untracked_for_workspace (cwd : option CanonicalPath) : cs (option PendingLaunch) :=
  cwd ← lift_result (canonical_path_string cwd);
  read (untracked_for_workspace_read cwd).

Definition finish_launch (launch_id : string) (resolution : LaunchResolution)
    : cs (option HeadBinding) :=
  _ ← lift_result (validate_uuid launch_id);
  transact (finish_launch_tx env launch_id resolution).

Definition adopt (binding : BindingInput) : cs HeadBinding :=
  _ ← lift_result (validate_binding_input binding);
  transact (adopt_tx env binding).

Definition refresh_adopted (expected : HeadBinding) (binding : BindingInput) : cs HeadBinding :=
  _ ← lift_result (check_refresh expected binding);
  transact (refresh_adopted_tx env expected binding).

Definition resolve_head (cwd : option CanonicalPath) : cs HeadBinding :=
  cwd ← lift_result (canonical_path_string cwd);
  read (fun d => resolve_head_document d cwd).

Definition conversation_profile_ids_from_generation (conversation_id : string)
    (first_generation : Z) : cs (gset string) :=
  _ ← lift_result (validate_uuid conversation_id);
  read (profile_ids_from_generation_read conversation_id first_generation).

Definition find_bound_thread (profile_id thread_id : string) (cwd : option CanonicalPath)
    : cs (option HeadBinding) :=
  _ ← lift_result (validate_uuid profile_id);
  _ ← lift_result (validate_uuid thread_id);
  cwd ← lift_result (canonical_path_string cwd);
  read (find_bound_thread_read profile_id thread_id cwd).

Definition mark_workspace_ambiguous (cwd : option CanonicalPath) : cs () :=
  cwd ← lift_result (canonical_path_string cwd);
  transact (mark_workspace_ambiguous_tx cwd).

Definition prepare_untracked (profile_id : string) (cwd : option CanonicalPath)
    (mode : LaunchMode) : cs string :=
  pending ← lift_result (new_untracked env profile_id cwd mode);
  transact (prepare_untracked_tx pending).

Definition prepare_handoff (p : HandoffPreparation) : cs HandoffTransition :=
  _ ← lift_result (check_preparation p);
  transact_v2 (prepare_handoff_tx env p).

Definition current_handoff : cs (option HandoffTransition) := read current_handoff_read.
Definition current_handoff_context : cs (option (HandoffTransition * HeadBinding)) :=
  read current_handoff_context_read.

Definition advance_handoff_phase (transition_id : string) (expected next : HandoffPhase)
    : cs HandoffTransition :=
  _ ← lift_result (validate_uuid transition_id);
  transact_v2 (advance_handoff_phase_tx env transition_id expected next).
Definition mark_source_stop_requested (transition_id : string) : cs HandoffTransition :=
  advance_handoff_phase transition_id Hp_Prepared Hp_SourceStopRequested.
Definition mark_source_stopped (transition_id : string) : cs HandoffTransition :=
  advance_handoff_phase transition_id Hp_SourceStopRequested Hp_SourceStopped.

Definition record_fork_intent (transition_id : string) (baseline : list string)
    : cs HandoffTransition :=
  _ ← lift_result (check_fork_intent transition_id baseline);
  transact_v2 (record_fork_intent_tx env transition_id baseline).

Definition record_bounded_fork_retry (transition_id : string) : cs HandoffTransition :=
  _ ← lift_result (validate_uuid transition_id);
  transact_v2 (record_bounded_fork_retry_tx env transition_id).

Definition observe_handoff_target (transition_id : string) (target : HandoffTarget)
    : cs HandoffTransition :=
  _ ← lift_result (check_target transition_id target);
  transact_v2 (observe_handoff_target_tx env transition_id target).

Definition commit_handoff (transition_id : string) : cs HeadBinding :=
  _ ← lift_result (validate_uuid transition_id);
  transact_v2 (commit_handoff_tx env transition_id).

Definition finish_handoff_attachment (transition_id : string) : cs HeadBinding :=
  _ ← lift_result (validate_uuid transition_id);
  transact_v2 (finish_handoff_attachment_tx transition_id).

(** A mutating call, its value discarded. *)
Definition perform (t : transaction) : cs () :=
  match t with
  | T_BeginLaunch profile_id cwd mode version inventory =>
      _ ← begin_launch profile_id cwd mode version inventory; mret ()
  | T_MarkStarted id => mark_provider_started id
  | T_MarkCaptureFailed id => mark_capture_failed id
  | T_FinishLaunch id resolution => _ ← finish_launch id resolution; mret ()
  | T_Adopt b => _ ← adopt b; mret ()
  | T_RefreshAdopted expected b => _ ← refresh_adopted expected b; mret ()
  | T_MarkAmbiguous cwd => mark_workspace_ambiguous cwd
  | T_PrepareUntracked profile_id cwd mode => _ ← prepare_untracked profile_id cwd mode; mret ()
  | T_PrepareHandoff p => _ ← prepare_handoff p; mret ()
  | T_StopRequested id => _ ← mark_source_stop_requested id; mret ()
  | T_Stopped id => _ ← mark_source_stopped id; mret ()
  | T_ForkIntent id baseline => _ ← record_fork_intent id baseline; mret ()
  | T_ForkRetry id => _ ← record_bounded_fork_retry id; mret ()
  | T_ObserveTarget id target => _ ← observe_handoff_target id target; mret ()
  | T_Commit id => _ ← commit_handoff id; mret ()
  | T_Finish id => _ ← finish_handoff_attachment id; mret ()
  end.
End methods.

(** The document a call computes in memory: what it saves when the closure
    accepts. *)
Definition run (env : CallEnv) (t : transaction) (d : ConversationDocument)
    : result ConversationError ConversationDocument :=
  closure ← plan env t;
  d ← (if is_handoff t then migrate d else Ok d);
  changed ← run_tx closure d;
  next_revision (snd changed).
End codec.

(** [try_lock_handoff_coordinator]: the opened lock and the visible file. *)
Record LockMetadata := mkLockMetadata { lk : Metadata; lk_dev : Z; lk_ino : Z }.
Inductive TryLock := Tl_Acquired | Tl_WouldBlock | Tl_Failed.

(** [open_private_handoff_lock]; [cloexec] is the answer of [fcntl_getfd]. *)
Definition check_handoff_lock (opened visible : option LockMetadata) (cloexec : option bool)
    : result ConversationError () :=
  opened ← ok_or opened CE_Io;
  visible ← ok_or visible CE_Io;
  let safe :=
    md_is_file (lk opened) && negb (md_is_symlink (lk visible)) && md_is_file (lk visible)
    && (md_uid (lk opened) =? getuid host) && (md_uid (lk visible) =? md_uid (lk opened))
    && negb (group_or_other (lk opened)) && (md_mode (lk visible) =? md_mode (lk opened))
    && (md_nlink (lk opened) =? 1) && (md_nlink (lk visible) =? 1)
    && (lk_dev visible =? lk_dev opened) && (lk_ino visible =? lk_ino opened) in
  if safe then
    cloexec ← ok_or cloexec CE_Io;
    reject_if (negb cloexec) invalid
  else Err invalid.

Definition try_lock_handoff_coordinator (opened visible : option LockMetadata)
    (cloexec : option bool) (lock : TryLock) : cs () :=
  _ ← verify_private_directory;
  _ ← lift_result (check_handoff_lock opened visible cloexec);
  match lock with
  | Tl_Acquired => mret ()
  | Tl_WouldBlock => throw CE_TransitionBusy
  | Tl_Failed => throw CE_Io
  end.
End host.
