(* ===== verification/ConversationProofs.v ===== *)
(** * The conversation journal: the document invariant

    [valid_spec]: [validate_document] decides a declarative invariant
    ([wf_contents] and, for schema v2, the backup metadata and the active
    transition), from which the lemmas about lookups in a valid document
    follow. *)
From S2P Require Import Prelude Interfaces Profiles ConversationData ConversationOps.

Open Scope Z_scope.

(** ** Validators as conjunctions *)

Lemma negb_provider_false a b : negb (provider_eqb a b) = false ↔ a = b.
Proof. rewrite negb_false_iff. apply provider_eqb_true. Qed.

(** Turns a validator into the conjunction of its checks. *)
Ltac checks :=
  repeat first
    [ setoid_rewrite bind_unit_Ok | setoid_rewrite reject_if_Ok
    | setoid_rewrite orb_false_iff | setoid_rewrite andb_false_iff
    | setoid_rewrite negb_bool_decide_false | setoid_rewrite negb_eqb_false
    | setoid_rewrite negb_Zeqb_false | setoid_rewrite negb_provider_false
    | setoid_rewrite Z.ltb_ge | setoid_rewrite Z.eqb_neq ].

(** ** The invariant *)

Definition lineage_domain (c : Conversation) : option string :=
  head (omap cg_trust_domain_id (cv_generations c)).

Definition head_key (h : WorkspaceHead) : Provider * string :=
  (wh_provider h, wh_canonical_cwd h).

(** All the threads the document binds. *)
Definition threads (d : ConversationDocument) : list string :=
  cd_conversations d ≫= fun c => cg_thread_id <$> cv_generations c.

#[local] Opaque validate_stored_path validate_codex_version validate_adapter_version
  validate_rollout validate_lineage_metadata validate_uuid.

Section wf.
Context {UC : UuidCrate}.

Record wf_generation (v1 : bool) (c : Conversation) (g : ConversationGeneration) : Prop := {
  wg_profile : validate_uuid (cg_profile_id g) = Ok ();
  wg_thread : validate_uuid (cg_thread_id g) = Ok ();
  wg_path : validate_stored_path (cg_canonical_cwd g) = Ok ();
  wg_codex : validate_codex_version (cg_codex_version g) = Ok ();
  wg_adapter : validate_adapter_version (cg_adapter_version g) = Ok ();
  wg_bound : 0 ≤ cg_bound_at g;
  wg_cwd : head (cg_canonical_cwd <$> cv_generations c) = Some (cg_canonical_cwd g);
  wg_metadata : validate_lineage_metadata v1 (lineage_domain c) g = Ok ();
  wg_multi : v1 = false → 1 < len (cv_generations c) →
    cg_trust_domain_id g ≠ None ∧ cg_rollout g ≠ None;
}.

Record wf_conversation (v1 : bool) (c : Conversation) : Prop := {
  wv_id : validate_uuid (cv_conversation_id c) = Ok ();
  wv_provider : cv_provider c = Codex;
  wv_length : 1 ≤ len (cv_generations c) ≤ MAX_LINEAGE_GENERATIONS;
  wv_single : v1 = true → len (cv_generations c) = 1;
  wv_lifecycle : usable_lifecycle (cv_last_safe_lifecycle c) = true;
  wv_numbered : ∀ i g, cv_generations c !! i = Some g → cg_generation g = Z.of_nat i;
  wv_active : cv_active_generation c = len (cv_generations c) - 1;
  wv_generations : ∀ g, g ∈ cv_generations c → wf_generation v1 c g;
}.

(** A workspace head on its own. *)
Definition wf_head (d : ConversationDocument) (h : WorkspaceHead) : Prop :=
  validate_stored_path (wh_canonical_cwd h) = Ok () ∧
  match wh_state h with
  | Hs_Ready => ∃ id c g,
      wh_conversation_id h = Some id ∧ wh_generation h = Some (cg_generation g) ∧
      validate_uuid id = Ok () ∧
      find_conversation id d = Some c ∧ find_generation (cg_generation g) c = Some g ∧
      cv_provider c = wh_provider h ∧ cg_canonical_cwd g = wh_canonical_cwd h ∧
      cg_generation g = cv_active_generation c
  | Hs_NeedsSelection => is_Some (wh_conversation_id h) ↔ is_Some (wh_generation h)
  end.

(** A pending launch on its own: [validate_pending] without predecessors. *)
Definition wf_pending (p : PendingLaunch) : Prop := validate_pending [] p = Ok ().

Record wf_contents (v1 : bool) (d : ConversationDocument) : Prop := {
  wc_conversations : ∀ c, c ∈ cd_conversations d → wf_conversation v1 c;
  wc_ids : NoDup (cv_conversation_id <$> cd_conversations d);
  wc_threads : NoDup (threads d);
  wc_heads : ∀ h, h ∈ cd_workspace_heads d → wf_head d h;
  wc_head_keys : NoDup (head_key <$> cd_workspace_heads d);
  wc_pendings : ∀ p, p ∈ cd_pending_launches d → wf_pending p;
  wc_launches : NoDup (pl_launch_id <$> cd_pending_launches d);
  wc_workspaces : NoDup (pl_canonical_cwd <$> cd_pending_launches d);
}.

Definition wf_backup (d : ConversationDocument) (b : PreMigrationBackup) : Prop :=
  pb_schema_version b = SCHEMA_VERSION_V1 ∧ pb_revision b ≤ cd_revision d ∧
  is_sha256_hex (pb_sha256 b) = true.

(** The whole document. *)
Definition wf_document (d : ConversationDocument) : Prop :=
  (cd_schema_version d = SCHEMA_VERSION_V1 ∧ cd_pre_migration_backup d = None ∧
     cd_active_transition d = None ∧ wf_contents true d) ∨
  (cd_schema_version d = SCHEMA_VERSION_V2 ∧
     (∃ b, cd_pre_migration_backup d = Some b ∧ wf_backup d b) ∧
     wf_contents false d ∧ ∀ t, cd_active_transition d = Some t → validate_transition d t = Ok ()).

#[local] Transparent validate_lineage_metadata.
Lemma lineage_metadata_v1 domain g :
  validate_lineage_metadata true domain g = Ok () →
  cg_trust_domain_id g = None ∧ cg_rollout g = None.
Proof. unfold validate_lineage_metadata. by do 2 case_match. Qed.
#[local] Opaque validate_lineage_metadata.

Lemma validate_generation_Ok v1 c i g :
  cv_generations c !! i = Some g → len (cv_generations c) ≤ MAX_LINEAGE_GENERATIONS →
  validate_generation v1 c (take i (cv_generations c)) g = Ok () ↔
  cg_generation g = Z.of_nat i ∧ wf_generation v1 c g.
Proof.
  intros Hi Hlen. pose proof (lookup_lt_Some _ _ _ Hi).
  assert (len (take i (cv_generations c)) = Z.of_nat i) as Hidx
    by (unfold len; rewrite length_take; lia).
  unfold validate_generation. rewrite Hidx.
  replace (Z.of_nat i <=? u32_max) with true.
  2:{ symmetry. apply Z.leb_le. unfold len, MAX_LINEAGE_GENERATIONS, u32_max in *. lia. }
  checks. split.
  - intros (-> & ? & ? & ? & ? & ? & ? & ? & ? & Hm & _). split; [done|]. split; try done.
    intros ? ?. rewrite !bool_decide_eq_false in Hm. destruct Hm as [[Hm|?]|?]; [by destruct v1|lia|done].
  - intros [-> []]. repeat split; try done.
    + destruct v1; [by left; left|]. destruct (decide (1 < len (cv_generations c))); [|left; right; lia].
      right. rewrite !bool_decide_eq_false. by apply wg_multi0.
    + destruct v1; [right|by left]. by eapply lineage_metadata_v1.
Qed.

Lemma wf_conversation_alt v1 c : 
  (validate_uuid (cv_conversation_id c) = Ok () ∧
   ((((cv_provider c = Codex ∧ len (cv_generations c) ≠ 0) ∧ len (cv_generations c) ≤ MAX_LINEAGE_GENERATIONS)
     ∧ (v1 = false ∨ len (cv_generations c) = 1 ∧ cv_active_generation c = 0)) ∧
   usable_lifecycle (cv_last_safe_lifecycle c) = true ∧
   (cg_generation <$> last (cv_generations c)) = Some (cv_active_generation c) ∧
   for_each_prev (validate_generation v1 c) [] (cv_generations c) = Ok ())) ↔ wf_conversation v1 c.
Proof.
  split.
  - intros (? & (((? & Hne) & Hlen) & H1) & ? & Hlast & Hg).
    rewrite for_each_prev_lookup in Hg.
    assert (Hgs : ∀ i g, cv_generations c !! i = Some g →
              cg_generation g = Z.of_nat i ∧ wf_generation v1 c g)
      by (intros i g Hi; by apply validate_generation_Ok; auto).
    split; try done.
    + unfold len in *. lia.
    + intros ->. by destruct H1 as [?|[??]].
    + intros i g Hi. by apply Hgs.
    + rewrite last_lookup in Hlast. destruct (cv_generations c !! _) as [g|] eqn:Hl; [|done].
      cbn in Hlast. injection Hlast as <-. apply Hgs in Hl as [-> _]. unfold len in *. lia.
    + intros g [i Hi]%list_elem_of_lookup. by eapply Hgs.
  - intros [Hid Hp Hl Hs Hlc Hn Ha Hg]. repeat split; try done; try (unfold len in *; lia).
    + destruct v1; [right|by left]. specialize (Hs eq_refl). lia.
    + rewrite last_lookup, Ha.
      destruct (lookup_lt_is_Some_2 (cv_generations c) (pred (length (cv_generations c)))) as [g Hl'].
      { unfold len in *. lia. }
      rewrite Hl'. cbn. f_equal. rewrite (Hn _ _ Hl'). unfold len in *. lia.
    + apply for_each_prev_lookup. intros i g Hi. apply validate_generation_Ok; [done|lia|].
      split; [by apply Hn|]. apply Hg. by eapply list_elem_of_lookup_2.
Qed.

Definition conversation_threads (c : Conversation) : list string :=
  cg_thread_id <$> cv_generations c.

Lemma has_thread_true id l : has_thread id l = true ↔ id ∈ cg_thread_id <$> l.
Proof.
  unfold has_thread. rewrite existsb_true, list_elem_of_fmap. setoid_rewrite String.eqb_eq.
  naive_solver.
Qed.
Lemma has_thread_false id l : has_thread id l = false ↔ id ∉ cg_thread_id <$> l.
Proof. by rewrite <- not_true_iff_false, has_thread_true. Qed.

(** The duplicate checks over the generations of one conversation. *)
Lemma thread_checks_Ok v1 c previous :
  wf_conversation v1 c →
  Forall (fun g => reject_if
    (existsb (fun p => has_thread (cg_thread_id g) (cv_generations p)) previous
     || has_thread (cg_thread_id g) (take (Z.to_nat (cg_generation g)) (cv_generations c))) invalid
    = Ok ()) (cv_generations c) ↔
  NoDup (conversation_threads c) ∧
  ∀ b y, b ∈ conversation_threads c → y ∈ previous → b ∉ conversation_threads y.
Proof.
  intros Hc. unfold conversation_threads.
  assert (Hdup : NoDup (cg_thread_id <$> cv_generations c) ↔
    ∀ i g, cv_generations c !! i = Some g → has_thread (cg_thread_id g) (take i (cv_generations c)) = false).
  { symmetry. rewrite <- (existsb_take_NoDup cg_thread_id
      (fun y x => String.eqb (cg_thread_id y) (cg_thread_id x))); [done|].
    intros x y _ _. by rewrite String.eqb_eq. }
  rewrite Hdup, Forall_forall. checks. split.
  - intros H. split.
    + intros i g Hi. destruct (H g) as [_ Ht]; [by eapply list_elem_of_lookup_2|].
      rewrite (wv_numbered _ _ Hc _ _ Hi) in Ht. by rewrite Nat2Z.id in Ht.
    + intros b y (g & -> & Hg)%list_elem_of_fmap Hy.
      destruct (H g Hg) as [He _]. rewrite existsb_false in He. specialize (He y Hy).
      by apply has_thread_false.
  - intros [Hd Hp] g [i Hi]%list_elem_of_lookup. split.
    + apply existsb_false. intros y Hy. apply has_thread_false. apply Hp; [|done].
      apply list_elem_of_fmap_2. by eapply list_elem_of_lookup_2.
    + rewrite (wv_numbered _ _ Hc _ _ Hi), Nat2Z.id. by apply Hd.
Qed.

Lemma validate_conversation_Ok v1 previous c :
  validate_conversation v1 previous c = Ok () ↔
  wf_conversation v1 c ∧
  existsb (fun p => String.eqb (cv_conversation_id p) (cv_conversation_id c)) previous = false ∧
  NoDup (conversation_threads c) ∧
  ∀ b y, b ∈ conversation_threads c → y ∈ previous → b ∉ conversation_threads y.
Proof.
  unfold validate_conversation.
  repeat (rewrite bind_unit_Ok). rewrite !reject_if_Ok, for_each_Ok.
  rewrite !orb_false_iff, andb_false_iff, !orb_false_iff, !negb_false_iff, bool_decide_eq_true,
    provider_eqb_true, Z.eqb_neq, Z.ltb_ge, !Z.eqb_eq.
  assert (∀ A B C D E F G H I : Prop, (A ∧ B ∧ C ∧ D ∧ E ↔ F) → (F → (G ↔ H)) →
    (A ∧ B ∧ C ∧ D ∧ E ∧ I ∧ G ↔ F ∧ I ∧ H)) as Hlogic by tauto.
  apply Hlogic; [|apply thread_checks_Ok]. apply wf_conversation_alt.
Qed.

Lemma conversations_spec v1 l :
  for_each_prev (validate_conversation v1) [] l = Ok () ↔
  (∀ c, c ∈ l → wf_conversation v1 c) ∧ NoDup (cv_conversation_id <$> l) ∧
  NoDup (l ≫= conversation_threads).
Proof.
  rewrite for_each_prev_lookup. setoid_rewrite validate_conversation_Ok.
  rewrite <- NoDup_mbind_lookup.
  rewrite <- (existsb_take_NoDup cv_conversation_id
    (fun y x => String.eqb (cv_conversation_id y) (cv_conversation_id x)));
    [|intros; by rewrite String.eqb_eq].
  split.
  - intros H. split_and!; [|by intros i c Hi; apply H in Hi as (_ & ? & _)..|].
    + intros c [i Hi]%list_elem_of_lookup. by eapply H.
    + intros i c Hi. by apply H in Hi as (_ & _ & ?).
  - intros (Hw & Hi & Ht) i c Hl. split_and!; eauto using list_elem_of_lookup_2.
    all: by apply Ht in Hl as [??].
Qed.

Lemma validate_head_Ok d previous h :
  validate_head d previous h = Ok () ↔
  wf_head d h ∧ existsb (fun y => head_for (wh_provider h) (wh_canonical_cwd h) y) previous = false.
Proof.
  unfold validate_head, wf_head. checks. 
  assert (∀ A B C D : Prop, (C ↔ D) → (A ∧ B ∧ C ↔ (A ∧ D) ∧ B)) as Hl by tauto.
  apply Hl. clear Hl. destruct (wh_state h).
  - split.
    + intros H. inv_ok. rewrite !orb_false_iff, negb_provider_false, negb_eqb_false,
        negb_Zeqb_false in H. destruct H as [[? ?] ?].
      pose proof (find_first_Some _ _ _ Hok3) as [_ Hn]. apply Z.eqb_eq in Hn as <-.
      by do 3 eexists.
    + intros (id & c & g & -> & -> & Hid & Hc & Hg & ? & ? & ?). cbn.
      rewrite Hid. cbn. rewrite Hc. cbn. rewrite Hg. cbn. checks. done.
  - rewrite reject_if_Ok.
    unfold is_Some. destruct (wh_conversation_id h), (wh_generation h); cbn; naive_solver.
Qed.

Lemma head_for_key h y : head_for (wh_provider h) (wh_canonical_cwd h) y = true ↔ head_key y = head_key h.
Proof.
  unfold head_for, head_key. rewrite andb_true_iff, provider_eqb_true, String.eqb_eq.
  split; [by intros [-> ->]|by intros [= -> ->]].
Qed.

Lemma heads_spec d l :
  for_each_prev (validate_head d) [] l = Ok () ↔
  (∀ h, h ∈ l → wf_head d h) ∧ NoDup (head_key <$> l).
Proof.
  rewrite for_each_prev_lookup. setoid_rewrite validate_head_Ok.
  rewrite <- (existsb_take_NoDup head_key
    (fun y x => head_for (wh_provider x) (wh_canonical_cwd x) y));
    [|intros; by rewrite head_for_key].
  split.
  - intros H. split; [|by intros i h Hi; apply H in Hi as [_ ?]].
    intros h [i Hi]%list_elem_of_lookup. by eapply H.
  - intros [Hw Hk] i h Hi. eauto using list_elem_of_lookup_2.
Qed.

Lemma validate_pending_Ok previous p :
  validate_pending previous p = Ok () ↔
  wf_pending p ∧
  existsb (fun q => String.eqb (pl_launch_id q) (pl_launch_id p)) previous = false ∧
  existsb (fun q => String.eqb (pl_canonical_cwd q) (pl_canonical_cwd p)) previous = false.
Proof.
  assert (Hor : ∀ l : list PendingLaunch, existsb (fun q => String.eqb (pl_launch_id q) (pl_launch_id p)
    || String.eqb (pl_canonical_cwd q) (pl_canonical_cwd p)) l = false ↔
    existsb (fun q => String.eqb (pl_launch_id q) (pl_launch_id p)) l = false ∧
    existsb (fun q => String.eqb (pl_canonical_cwd q) (pl_canonical_cwd p)) l = false).
  { intros l. rewrite !existsb_false. setoid_rewrite orb_false_iff. naive_solver. }
  unfold wf_pending, validate_pending. repeat (rewrite bind_unit_Ok). rewrite !bind_Ok.
  repeat (setoid_rewrite bind_unit_Ok). repeat (setoid_rewrite reject_if_Ok). rewrite <- Hor.
  cbn [existsb]. split; [intros (?&?&?&?&?&?&a&?&?&?)|intros [(?&?&?&?&?&?&a&?&?&?) ?]]; eauto 20.
  all: split_and!; try done; by exists a.
Qed.

Lemma pendings_spec l :
  for_each_prev validate_pending [] l = Ok () ↔
  (∀ p, p ∈ l → wf_pending p) ∧ NoDup (pl_launch_id <$> l) ∧ NoDup (pl_canonical_cwd <$> l).
Proof.
  rewrite for_each_prev_lookup. setoid_rewrite validate_pending_Ok.
  rewrite <- (existsb_take_NoDup pl_launch_id
    (fun y x => String.eqb (pl_launch_id y) (pl_launch_id x)));
    [|intros; by rewrite String.eqb_eq].
  rewrite <- (existsb_take_NoDup pl_canonical_cwd
    (fun y x => String.eqb (pl_canonical_cwd y) (pl_canonical_cwd x)));
    [|intros; by rewrite String.eqb_eq].
  split.
  - intros H. split_and!; [|by intros i p Hi; apply H in Hi as (_ & ? & ?)..].
    intros p [i Hi]%list_elem_of_lookup. by apply H in Hi as [? _].
  - intros (Hw & Hi & Hc) i p Hl. split_and!; [|by eapply Hi|by eapply Hc].
    apply Hw. by eapply list_elem_of_lookup_2.
Qed.

Lemma contents_spec v1 d :
  validate_document_contents d v1 = Ok () ↔ wf_contents v1 d.
Proof.
  unfold validate_document_contents. rewrite !bind_unit_Ok, conversations_spec, heads_spec,
    pendings_spec. split.
  - by intros ((? & ? & ?) & (? & ?) & ? & ? & ?).
  - by intros [].
Qed.

(** [validate_document] decides the invariant. *)
Lemma document_spec d : validate_document d = Ok () ↔ wf_document d.
Proof.
  unfold validate_document, wf_document. rewrite bind_unit_Ok, reject_if_Ok, negb_false_iff,
    orb_true_iff, !Z.eqb_eq. destruct (Z.eqb_spec (cd_schema_version d) SCHEMA_VERSION_V1) as [Hv|Hv].
  - rewrite Hv. unfold validate_v1_document. rewrite bind_unit_Ok, contents_spec, reject_if_Ok,
      !orb_false_iff, !negb_bool_decide_false, negb_Zeqb_false.
    split; [intros (_ & ((_ & ?) & ?) & ?); by left|].
    intros [(_ & ? & ? & ?)|[[=] _]]. by split_and!; auto.
  - split.
    + intros [_ H]. unfold validate_v2_document in H. inv_ok. right.
      rewrite !orb_false_iff, negb_Zeqb_false, Z.ltb_ge, negb_false_iff in Hok1.
      destruct Hok1 as [[? ?] ?]. apply negb_Zeqb_false in Hok. split_and!; [done|..].
      * eexists. by split_and!.
      * by apply contents_spec.
      * intros t Ht. unfold validate_active_transition in H. by rewrite Ht in H.
    + intros [[? _]|(Hv2 & (b & Hb & ? & ? & Hhex) & Hc%contents_spec & Ht)]; [done|].
      split; [by right|]. unfold validate_v2_document. rewrite Hv2, Hb. cbn.
      rewrite (proj2 (reject_if_Ok _ _ ())).
      2:{ rewrite !orb_false_iff, negb_Zeqb_false, Z.ltb_ge, negb_false_iff. done. }
      cbn. rewrite Hc. cbn. unfold validate_active_transition. case_match; [by apply Ht|done].
Qed.
End wf.

(** ** Updating the first match *)

(** The first match splits the list, and an update replaces it. *)
Lemma find_first_split {A} (P : A → bool) l x :
  find_first P l = Some x →
  ∃ l1 l2, l = l1 ++ x :: l2 ∧ P x = true ∧ (∀ y, y ∈ l1 → P y = false) ∧
    ∀ f, update_first P f l = l1 ++ f x :: l2.
Proof.
  induction l as [|y l IH]; [done|]. cbn. destruct (P y) eqn:Hy.
  - intros [= <-]. exists [], l. split_and!; try done. by intros ? ?%elem_of_nil.
  - intros (l1 & l2 & -> & Hx & Hl & Hu)%IH. exists (y :: l1), l2.
    split_and!; [done|done| |intros f; by rewrite Hu].
    intros z [->|?]%elem_of_cons; auto.
Qed.

Section updates.
Context {A : Type}.
Implicit Types (P Q : A → bool) (l : list A).

Lemma find_update_same P f l :
  (∀ x, P (f x) = P x) → find_first P (update_first P f l) = f <$> find_first P l.
Proof.
  intros Hf. induction l as [|x l IH]; [done|]. cbn. destruct (P x) eqn:Hx; cbn; by rewrite ?Hf, Hx.
Qed.

Lemma find_update_other P Q f l :
  (∀ x, Q x = true → P x = false ∧ P (f x) = false) →
  find_first P (update_first Q f l) = find_first P l.
Proof.
  intros Hf. induction l as [|x l IH]; [done|]. cbn. destruct (Q x) eqn:Hx; cbn.
  - by destruct (Hf x Hx) as [-> ->].
  - by rewrite IH.
Qed.

Lemma find_first_app P l1 l2 :
  find_first P (l1 ++ l2) = match find_first P l1 with Some x => Some x | None => find_first P l2 end.
Proof. induction l1 as [|x l1 IH]; cbn; [done|]. by destruct (P x). Qed.

Lemma find_first_filter P Q l :
  (∀ x, P x = true → Q x = true) → find_first P (List.filter Q l) = find_first P l.
Proof.
  intros H. induction l as [|x l IH]; [done|]. cbn.
  destruct (Q x) eqn:HQ; cbn; [by rewrite IH|].
  destruct (P x) eqn:HP; [|done]. apply H in HP. congruence.
Qed.

Lemma elem_of_list_filter P l x : x ∈ List.filter P l ↔ P x = true ∧ x ∈ l.
Proof. rewrite !list_elem_of_In, filter_In. tauto. Qed.

Lemma existsb_update P Q f l :
  (∀ x, P (f x) = P x) → existsb P (update_first Q f l) = existsb P l.
Proof.
  intros Hf. induction l as [|x l IH]; [done|]. cbn. destruct (Q x); cbn; by rewrite ?Hf, ?IH.
Qed.

Lemma fmap_update {B} (g : A → B) Q f l :
  (∀ x, g (f x) = g x) → g <$> update_first Q f l = g <$> l.
Proof.
  intros Hf. induction l as [|x l IH]; [done|]. cbn. destruct (Q x); cbn; by rewrite ?Hf, ?IH.
Qed.

Lemma fmap_filter_sublist {B} (g : A → B) P l :
  sublist (g <$> List.filter P l) (g <$> l).
Proof.
  induction l as [|x l IH]; [done|]. cbn. destruct (P x); cbn; by constructor.
Qed.

Lemma elem_of_update Q f l x :
  x ∈ update_first Q f l → x ∈ l ∨ ∃ y, find_first Q l = Some y ∧ x = f y.
Proof.
  induction l as [|y l IH]; cbn; [by intros ?%elem_of_nil|]. destruct (Q y).
  - intros [->|?]%elem_of_cons; [right; eauto|left; by right].
  - intros [->|H]%elem_of_cons; [left; by left|]. apply IH in H as [?|?]; [left; by right|by right].
Qed.

Lemma update_first_key {K} (key : A → K) P Q f l x :
  NoDup (key <$> l) → find_first Q l = Some x → (∀ y, P y = true ↔ key y = key x) →
  update_first Q f l = update_first P f l.
Proof.
  intros Hn Hq HP. induction l as [|y l IH]; [done|]. cbn in *. apply NoDup_cons in Hn as [Hy Hn].
  destruct (Q y).
  - injection Hq as ->. by rewrite (proj2 (HP x) eq_refl).
  - destruct (P y) eqn:Hpy; [|by rewrite IH].
    apply HP in Hpy. rewrite Hpy in Hy. exfalso. apply Hy.
    apply list_elem_of_fmap_2. by apply find_first_Some in Hq as [? _].
Qed.

Lemma fmap_remove_at_sublist {B} (g : A → B) i l : sublist (g <$> remove_at i l) (g <$> l).
Proof. revert i; induction l as [|x l IH]; intros [|i]; cbn; by constructor. Qed.

End updates.

Lemma NoDup_fmap_snoc {A B} (g : A → B) l x :
  NoDup (g <$> l) → g x ∉ g <$> l → NoDup (g <$> l ++ [x]).
Proof.
  intros Hn Hx. rewrite fmap_app, NoDup_app. split_and!; [done| |apply NoDup_singleton].
  by intros b Hb ->%list_elem_of_singleton.
Qed.

(** ** Lookups in a valid document *)

Definition by_id (id : string) (c : Conversation) : bool := String.eqb (cv_conversation_id c) id.

Definition lineage_cwd (c : Conversation) : option string :=
  head (cg_canonical_cwd <$> cv_generations c).

Section valid.
Context {UC : UuidCrate} {v1 : bool}.

Lemma find_conversation_Some d id c :
  wf_contents v1 d →
  find_conversation id d = Some c ↔ c ∈ cd_conversations d ∧ cv_conversation_id c = id.
Proof. intros H. unfold find_conversation. apply find_first_key, H. Qed.

Lemma found_wf d id c :
  wf_contents v1 d → find_conversation id d = Some c → wf_conversation v1 c.
Proof. intros H Hf. apply (wc_conversations _ _ H). by apply find_conversation_Some in Hf as [? _]. Qed.

Lemma find_generation_lookup c n :
  wf_conversation v1 c → 0 ≤ n → find_generation n c = cv_generations c !! Z.to_nat n.
Proof.
  intros H Hn. unfold find_generation. destruct (find_first _ _) as [g|] eqn:Hf.
  - apply find_first_Some in Hf as [[i Hi]%list_elem_of_lookup ->%Z.eqb_eq%eq_sym].
    by rewrite (wv_numbered _ _ H _ _ Hi), Nat2Z.id.
  - destruct (cv_generations c !! _) as [g|] eqn:Hg; [|done].
    rewrite find_first_None in Hf. specialize (Hf g (list_elem_of_lookup_2 _ _ _ Hg)).
    rewrite (wv_numbered _ _ H _ _ Hg), Z2Nat.id, Z.eqb_refl in Hf by done. done.
Qed.

Lemma find_generation_Some c n g :
  wf_conversation v1 c →
  find_generation n c = Some g ↔ 0 ≤ n ∧ cv_generations c !! Z.to_nat n = Some g.
Proof.
  intros H. split.
  - intros Hf. pose proof Hf as [[i Hi]%list_elem_of_lookup Hn%Z.eqb_eq]%find_first_Some.
    pose proof (wv_numbered _ _ H _ _ Hi).
    assert (0 ≤ n) by lia. split; [done|]. by rewrite <- find_generation_lookup.
  - intros [Hn Hg]. by rewrite find_generation_lookup.
Qed.

Lemma generation_cwd c g :
  wf_conversation v1 c → g ∈ cv_generations c → lineage_cwd c = Some (cg_canonical_cwd g).
Proof. intros H Hg. by apply (wg_cwd v1 c g), (wv_generations _ _ H). Qed.

(** The active generation is the last one. *)
Lemma active_generation c :
  wf_conversation v1 c →
  ∃ g, find_generation (cv_active_generation c) c = Some g ∧ g ∈ cv_generations c ∧
    cg_generation g = cv_active_generation c ∧ last (cv_generations c) = Some g.
Proof.
  intros H. destruct (wv_length _ _ H) as [Hl _]. pose proof (wv_active _ _ H) as Ha.
  destruct (lookup_lt_is_Some_2 (cv_generations c) (Z.to_nat (cv_active_generation c))) as [g Hg].
  { unfold len in *. lia. }
  exists g. split_and!.
  - apply find_generation_Some; [done|]. split; [unfold len in *; lia|done].
  - by eapply list_elem_of_lookup_2.
  - rewrite (wv_numbered _ _ H _ _ Hg). unfold len in *. lia.
  - rewrite last_lookup, <- Hg. f_equal. unfold len in *. lia.
Qed.

Lemma find_head_Some d p cwd h :
  wf_contents v1 d →
  find_first (head_for p cwd) (cd_workspace_heads d) = Some h ↔
  h ∈ cd_workspace_heads d ∧ head_key h = (p, cwd).
Proof.
  intros H. split.
  - intros [? Hh]%find_first_Some. split; [done|]. unfold head_for, head_key in *.
    apply andb_true_iff in Hh as [->%provider_eqb_true ->%String.eqb_eq]. done.
  - intros [Hin Hk]. destruct (find_first _ _) as [h'|] eqn:Hf.
    + apply find_first_Some in Hf as [Hin' Hh]. f_equal.
      assert (head_key h' = head_key h) as He.
      { unfold head_for, head_key in *.
        apply andb_true_iff in Hh as [->%provider_eqb_true ->%String.eqb_eq]. by rewrite Hk. }
      pose proof (wc_head_keys _ _ H) as Hn.
      apply list_elem_of_lookup in Hin as [i Hi]. apply list_elem_of_lookup in Hin' as [j Hj].
      assert (i = j) as ->.
      { eapply NoDup_lookup; [exact Hn| |]; rewrite list_lookup_fmap; [by rewrite Hi|].
        rewrite Hj. cbn. by rewrite He. }
      congruence.
    + rewrite find_first_None in Hf. specialize (Hf h Hin). unfold head_for, head_key in *.
      injection Hk as <- <-. rewrite String.eqb_refl, andb_true_r in Hf.
      by apply provider_eqb_false in Hf.
Qed.

(** What a ready head refers to. *)
Definition refers (d : ConversationDocument) (h : WorkspaceHead) : Prop :=
  ∃ id c, wh_conversation_id h = Some id ∧ find_conversation id d = Some c ∧
    validate_uuid id = Ok () ∧
    wh_generation h = Some (cv_active_generation c) ∧ cv_provider c = wh_provider h ∧
    lineage_cwd c = Some (wh_canonical_cwd h).

Lemma ready_head_refers d h :
  (∀ c, c ∈ cd_conversations d → wf_conversation v1 c) → wh_state h = Hs_Ready →
  wf_head d h ↔ validate_stored_path (wh_canonical_cwd h) = Ok () ∧ refers d h.
Proof.
  intros Hw Hs. unfold wf_head, refers. rewrite Hs.
  assert (Hf : ∀ id c, find_conversation id d = Some c → wf_conversation v1 c)
    by (intros id c Hc; apply Hw; by apply find_first_Some in Hc as [? _]).
  split; intros [Hp H]; (split; [done|]).
  - destruct H as (id & c & g & -> & -> & Hid & Hc & Hg & Hpr & Hcwd & Ha).
    exists id, c. split_and!; try done; [by rewrite Ha|]. rewrite <- Hcwd.
    apply generation_cwd; [by eapply Hf|]. by apply find_first_Some in Hg as [? _].
  - destruct H as (id & c & Hi & Hc & Hid & Hgen & Hpr & Hcwd).
    destruct (active_generation c) as (g & Hg & Hin & Ha & _); [by eapply Hf|].
    exists id, c, g. rewrite Ha. split_and!; try done.
    pose proof (generation_cwd c g (Hf _ _ Hc) Hin) as E. congruence.
Qed.
End valid.

(** ** The active transition *)

#[local] Opaque validate_target validate_committed validate_fork_intent validate_thread_baseline
  find_conversation find_generation pending_in head_for.

(** One check that passes. *)
Ltac pass :=
  rewrite (proj2 (reject_if_Ok _ _ ()));
  [ cbn [mbind result_bind ok_or]
  | rewrite ?orb_false_iff, ?negb_Zeqb_false, ?negb_eqb_false, ?negb_bool_decide_false,
      ?Z.ltb_ge; split_and?; (done || lia) ].

Section transition.
Context {UC : UuidCrate}.

(** The checks on the fields of a transition alone. *)
Record wf_fields (t : HandoffTransition) : Prop := {
  wt_id : validate_uuid (tr_transition_id t) = Ok ();
  wt_conversation_id : validate_uuid (tr_conversation_id t) = Ok ();
  wt_source_profile : validate_uuid (tr_source_profile_id t) = Ok ();
  wt_target_profile : validate_uuid (tr_target_profile_id t) = Ok ();
  wt_domain : validate_uuid (tr_trust_domain_id t) = Ok ();
  wt_cwd : validate_stored_path (tr_canonical_cwd t) = Ok ();
  wt_rollout : validate_rollout (tr_source_rollout t) = Ok ();
  wt_profiles : tr_source_profile_id t ≠ tr_target_profile_id t;
  wt_target : tr_target_generation t = tr_source_generation t + 1;
  wt_target_range : tr_target_generation t ≤ u32_max;
  wt_times : 0 ≤ tr_prepared_at t ≤ tr_updated_at t;
  wt_baseline : validate_thread_baseline (tr_target_baseline_thread_ids t) = Ok ();
  wt_fork : validate_fork_intent t = Ok ();
  wt_observed : is_Some (tr_observed_target t) ↔
    tr_phase t = Hp_ForkObserved ∨ tr_phase t = Hp_CommittedUnattached;
}.

(** The source generation it names. *)
Record wf_source (t : HandoffTransition) (g : ConversationGeneration) : Prop := {
  ws_profile : cg_profile_id g = tr_source_profile_id t;
  ws_cwd : cg_canonical_cwd g = tr_canonical_cwd t;
  ws_domain : cg_trust_domain_id g = Some (tr_trust_domain_id t);
  ws_rollout : cg_rollout g = Some (tr_source_rollout t);
  ws_target : ∀ o, tr_observed_target t = Some o → validate_target t g o = Ok ();
}.

(** Its place in the document. *)
Record wf_place (d : ConversationDocument) (t : HandoffTransition) (c : Conversation)
    (g : ConversationGeneration) (h : WorkspaceHead) : Prop := {
  wp_conversation : find_conversation (tr_conversation_id t) d = Some c;
  wp_generation : find_generation (tr_source_generation t) c = Some g;
  wp_source : wf_source t g;
  wp_active : cv_active_generation c = expected_active t;
  wp_committed : validate_committed t c = Ok ();
  wp_head : find_first (head_for (cv_provider c) (tr_canonical_cwd t)) (cd_workspace_heads d) = Some h;
  wp_ready : wh_state h = Hs_Ready;
  wp_head_id : wh_conversation_id h = Some (tr_conversation_id t);
  wp_head_generation : wh_generation h = Some (expected_active t);
  wp_pending : pending_in (tr_canonical_cwd t) d = false;
}.

Lemma is_Some_match {A} (o : option A) : (if o is Some _ then true else false) = true ↔ is_Some o.
Proof. destruct o; unfold is_Some; naive_solver. Qed.

Lemma transition_spec d t :
  validate_transition d t = Ok () ↔ wf_fields t ∧ ∃ c g h, wf_place d t c g h.
Proof.
  assert (Hx : ∀ b, xorb (if tr_observed_target t is Some _ then true else false) b = false ↔
            (is_Some (tr_observed_target t) ↔ b = true)).
  { intros b. rewrite <- is_Some_match. destruct (if tr_observed_target t is Some _ then true else false), b;
      cbn; naive_solver. }
  assert (Hph : bool_decide (tr_phase t ∈ [Hp_ForkObserved; Hp_CommittedUnattached]) = true ↔
    tr_phase t = Hp_ForkObserved ∨ tr_phase t = Hp_CommittedUnattached).
  { rewrite bool_decide_eq_true, !elem_of_cons, elem_of_nil. tauto. }
  split.
  - unfold validate_transition. intros H. inv_ok.
    destruct (String.eqb_spec (tr_source_profile_id t) (tr_target_profile_id t)); [done|].
    inv_ok. unfold checked_add_u in Hok18. destruct (Z.leb_spec (tr_source_generation t + 1) u32_max); [|done].
    injection Hok18 as <-.
    rewrite Hx, Hph in Hok12.
    rewrite !orb_false_iff, ?negb_Zeqb_false, ?negb_eqb_false, ?negb_bool_decide_false, ?Z.ltb_ge in *.
    destruct_and?.
    split; [split; try done; lia|].
    do 3 eexists. split; try done. split; try done. intros o Ho. by rewrite Ho in *.
  - intros [[] (c & g & h & [])]. destruct wp_source0.
    unfold validate_transition.
    repeat match goal with E : _ = Ok () |- _ => rewrite E; cbn [mbind result_bind]; clear E end.
    rewrite (proj2 (String.eqb_neq _ _)) by done. unfold checked_add_u.
    rewrite (proj2 (Z.leb_le _ _)) by lia. pass. rewrite wp_conversation0. cbn.
    rewrite wp_generation0. cbn. pass. rewrite (proj2 (reject_if_Ok _ _ ())) by by rewrite Hx, Hph.
    cbn. assert ((if tr_observed_target t is Some target then validate_target t g target else Ok ())
      = Ok ()) as -> by (case_match; [by apply ws_target0|done]). cbn.
    pass. rewrite wp_committed0. cbn. rewrite wp_head0. cbn. do 2 pass. done.
Qed.
End transition.

(** ** How the invariant survives a change *)

Section frame.
Context {UC : UuidCrate}.

Definition is_v1 (d : ConversationDocument) : bool := cd_schema_version d =? SCHEMA_VERSION_V1.

Lemma wf_document_contents d : wf_document d → wf_contents (is_v1 d) d.
Proof. unfold is_v1. intros [(-> & _ & _ & H)|(-> & _ & H & _)]; exact H. Qed.

Lemma wf_document_transition d t :
  wf_document d → cd_active_transition d = Some t →
  is_v1 d = false ∧ wf_fields t ∧ ∃ c g h, wf_place d t c g h.
Proof.
  unfold is_v1. intros [(_ & _ & -> & _)|(-> & _ & _ & H)] Ht; [done|].
  split; [done|]. by apply transition_spec, H.
Qed.

(** A changed document is valid when its contents and transition are. *)
Lemma wf_document_change d d' :
  wf_document d → cd_schema_version d' = cd_schema_version d →
  cd_pre_migration_backup d' = cd_pre_migration_backup d → cd_revision d ≤ cd_revision d' →
  wf_contents (is_v1 d) d' →
  (∀ t, cd_active_transition d' = Some t →
     is_v1 d = false ∧ wf_fields t ∧ ∃ c g h, wf_place d' t c g h) →
  wf_document d'.
Proof.
  unfold is_v1. intros [(Hv & Hb & Hn & _)|(Hv & (b & Hb & ? & ? & ?) & _ & _)] Hv' Hb' Hr Hc Ht;
    rewrite Hv in *.
  - left. split_and!; [done|congruence| |done].
    destruct (cd_active_transition d') as [t|]; [|done]. by destruct (Ht t).
  - right. split_and!; [done| |done|].
    + exists b. split; [congruence|]. split_and!; [done|lia|done].
    + intros t E. apply transition_spec. by apply Ht.
Qed.

Lemma contents_set_heads v1 f d :
  wf_contents v1 d → (∀ h, h ∈ f (cd_workspace_heads d) → wf_head d h) →
  NoDup (head_key <$> f (cd_workspace_heads d)) → wf_contents v1 (set_heads f d).
Proof. by intros []. Qed.

Lemma contents_set_pendings v1 f d :
  wf_contents v1 d → (∀ p, p ∈ f (cd_pending_launches d) → wf_pending p) →
  NoDup (pl_launch_id <$> f (cd_pending_launches d)) →
  NoDup (pl_canonical_cwd <$> f (cd_pending_launches d)) → wf_contents v1 (set_pendings f d).
Proof. by intros []. Qed.

Lemma contents_set_conversations v1 f d :
  wf_contents v1 d →
  (∀ c, c ∈ f (cd_conversations d) → wf_conversation v1 c) →
  NoDup (cv_conversation_id <$> f (cd_conversations d)) →
  NoDup (f (cd_conversations d) ≫= conversation_threads) →
  (∀ h, h ∈ cd_workspace_heads d → wh_state h = Hs_Ready → refers d h →
     refers (set_conversations f d) h) →
  wf_contents v1 (set_conversations f d).
Proof.
  intros [] Hw Hi Ht Hh. split; try done. intros h Hin. cbn in Hin.
  destruct (wh_state h) eqn:Hs.
  - apply (@ready_head_refers _ v1); [done..|]. specialize (wc_heads0 h Hin).
    apply (@ready_head_refers _ v1) in wc_heads0 as [? ?]; [by auto|done|done].
  - specialize (wc_heads0 h Hin). unfold wf_head in *. by rewrite Hs in *.
Qed.

#[local] Transparent find_generation validate_committed.
(** A transition only looks at its conversation, its workspace's head and the
    launches of its workspace. *)
Lemma wf_place_frame d d' t c g h c' :
  wf_place d t c g h →
  find_conversation (tr_conversation_id t) d' = Some c' →
  cv_generations c' = cv_generations c → cv_active_generation c' = cv_active_generation c →
  cv_provider c' = cv_provider c →
  find_first (head_for (cv_provider c) (tr_canonical_cwd t)) (cd_workspace_heads d') =
    find_first (head_for (cv_provider c) (tr_canonical_cwd t)) (cd_workspace_heads d) →
  pending_in (tr_canonical_cwd t) d' = pending_in (tr_canonical_cwd t) d →
  wf_place d' t c' g h.
Proof.
  intros [] Hc Hg Ha Hp Hh Hpe.
  assert (∀ n, find_generation n c' = find_generation n c) as Hfg.
  { intros n. unfold find_generation. by rewrite Hg. }
  assert (validate_committed t c' = validate_committed t c) as Hvc.
  { unfold validate_committed. by rewrite Hg, Hfg. }
  split; try done; rewrite ?Hfg, ?Hvc, ?Ha, ?Hp, ?Hh, ?Hpe; done.
Qed.

#[local] Opaque find_generation validate_committed.

(** *** [mark_head_needs_selection] *)

Definition needs_selection (cwd : string) (heads : list WorkspaceHead) : list WorkspaceHead :=
  if existsb (head_for Codex cwd) heads
  then update_first (head_for Codex cwd) (set_head_state Hs_NeedsSelection) heads
  else heads ++ [mkWorkspaceHead Codex cwd Hs_NeedsSelection None None].

Lemma mark_spec cwd d : mark_head_needs_selection cwd d = (Ok (), set_heads (needs_selection cwd) d).
Proof.
  unfold mark_head_needs_selection. run_st.
  destruct (existsb _ _) eqn:He; unfold set_heads, needs_selection; by rewrite He.
Qed.

#[local] Transparent head_for.
Lemma head_for_iff p cwd h : head_for p cwd h = true ↔ head_key h = (p, cwd).
Proof.
  unfold head_for, head_key. rewrite andb_true_iff, provider_eqb_true, String.eqb_eq.
  split; [by intros [-> ->]|by intros [= -> ->]].
Qed.
#[local] Opaque head_for.
Lemma head_for_false p cwd h : head_for p cwd h = false ↔ head_key h ≠ (p, cwd).
Proof. by rewrite <- not_true_iff_false, head_for_iff. Qed.

Lemma needs_selection_other p cwd cwd' heads :
  cwd' ≠ cwd →
  find_first (head_for p cwd') (needs_selection cwd heads) = find_first (head_for p cwd') heads.
Proof.
  intros Hne. unfold needs_selection. case_match.
  - apply find_update_other. intros h Hh%head_for_iff. rewrite !head_for_false.
    unfold head_key in *. cbn. split; congruence.
  - rewrite find_first_app. destruct (find_first _ heads) eqn:E; [done|].
    cbn. rewrite (proj2 (head_for_false _ _ _)); [done|]. unfold head_key. cbn. congruence.
Qed.

Lemma needs_selection_contents v1 cwd d :
  wf_contents v1 d → validate_stored_path cwd = Ok () →
  wf_contents v1 (set_heads (needs_selection cwd) d).
Proof.
  intros H Hp. apply contents_set_heads; [done|..]; unfold needs_selection; case_match eqn:He.
  - intros h [Hh|(y & Hy & ->)]%elem_of_update; [by apply H|].
    apply find_first_Some in Hy as [Hin _]. pose proof (wc_heads _ _ H y Hin) as [? Hy].
    split; [done|]. cbn. destruct (wh_state y); [|done].
    destruct Hy as (? & ? & ? & -> & -> & _). by split; intros _.
  - intros h [Hh| ->%list_elem_of_singleton]%elem_of_app; [by apply H|]. split; [done|]. cbn.
    by split; intros [? [=]].
  - rewrite fmap_update by done. apply H.
  - apply NoDup_fmap_snoc; [apply H|]. intros (h & Hk & Hh)%list_elem_of_fmap.
    rewrite existsb_false in He. specialize (He h Hh). apply head_for_false in He. by cbn in Hk.
Qed.
End frame.
