(* ===== verification/ConversationSpec.v ===== *)
(** * The conversation journal: the abstract journal

    What a caller may rely on: each conversation is a list of bindings of one
    provider thread to one profile and one workspace, and at most one handoff
    is under way. [journal_step] is every way the journal can change, and
    [journal_of] reads the abstract journal off a document. *)
From S2P Require Import Prelude Interfaces Profiles ConversationData ConversationOps ConversationProofs.

Open Scope Z_scope.

(** The immutable part of a generation. *)
Record Binding := mkBinding {
  b_profile : string;
  b_thread : string;
  b_cwd : string;
}.

Record Handoff := mkHandoff {
  ho_id : string;
  ho_conversation : string;
  ho_target_profile : string;
  ho_cwd : string;
  ho_phase : HandoffPhase;
  ho_attempts : Z;
  ho_thread : option string;
}.

Record Journal := mkJournal {
  lineages : gmap string (list Binding);
  handoff : option Handoff;
}.

(** Some conversation has the thread. *)
Definition bound (thread : string) (j : Journal) : Prop :=
  ∃ id bs b, lineages j !! id = Some bs ∧ b ∈ bs ∧ b_thread b = thread.

(** No handoff is under way in the workspace. *)
Definition idle (cwd : string) (j : Journal) : Prop :=
  ∀ h, handoff j = Some h → ho_cwd h ≠ cwd.

Definition with_handoff (h : option Handoff) (j : Journal) : Journal := mkJournal (lineages j) h.
Definition ho_at (p : HandoffPhase) (h : Handoff) : Handoff :=
  mkHandoff (ho_id h) (ho_conversation h) (ho_target_profile h) (ho_cwd h) p (ho_attempts h)
    (ho_thread h).
Definition ho_forked (n : Z) (h : Handoff) : Handoff :=
  mkHandoff (ho_id h) (ho_conversation h) (ho_target_profile h) (ho_cwd h) Hp_ForkRequested n
    (ho_thread h).
Definition ho_observed (thread : string) (h : Handoff) : Handoff :=
  mkHandoff (ho_id h) (ho_conversation h) (ho_target_profile h) (ho_cwd h) Hp_ForkObserved
    (ho_attempts h) (Some thread).

Inductive journal_step (j : Journal) : Journal → Prop :=
| Js_stay : journal_step j j
| Js_bind id b :
    lineages j !! id = None → ¬ bound (b_thread b) j → idle (b_cwd b) j →
    journal_step j (mkJournal (<[id := [b]]> (lineages j)) (handoff j))
| Js_prepare id conversation bs source target :
    handoff j = None → lineages j !! conversation = Some bs → last bs = Some source →
    b_profile source ≠ target →
    journal_step j (with_handoff (Some
      (mkHandoff id conversation target (b_cwd source) Hp_Prepared 0 None)) j)
| Js_stop_requested h :
    handoff j = Some h → ho_phase h = Hp_Prepared →
    journal_step j (with_handoff (Some (ho_at Hp_SourceStopRequested h)) j)
| Js_stopped h :
    handoff j = Some h → ho_phase h = Hp_SourceStopRequested →
    journal_step j (with_handoff (Some (ho_at Hp_SourceStopped h)) j)
| Js_fork h :
    handoff j = Some h → ho_phase h = Hp_SourceStopped → ho_attempts h = 0 →
    journal_step j (with_handoff (Some (ho_forked 1 h)) j)
| Js_retry h :
    handoff j = Some h → ho_phase h = Hp_ForkRequested → ho_attempts h = 1 →
    journal_step j (with_handoff (Some (ho_forked 2 h)) j)
| Js_observe h thread :
    handoff j = Some h → ho_phase h = Hp_ForkRequested → ¬ bound thread j →
    journal_step j (with_handoff (Some (ho_observed thread h)) j)
| Js_commit h bs source thread :
    handoff j = Some h → ho_phase h = Hp_ForkObserved → ho_thread h = Some thread →
    ¬ bound thread j → lineages j !! ho_conversation h = Some bs → last bs = Some source →
    b_cwd source = ho_cwd h → b_profile source ≠ ho_target_profile h →
    journal_step j (mkJournal
      (<[ho_conversation h := bs ++ [mkBinding (ho_target_profile h) thread (ho_cwd h)]]>
         (lineages j))
      (Some (ho_at Hp_CommittedUnattached h)))
| Js_finish h :
    handoff j = Some h → ho_phase h = Hp_CommittedUnattached →
    journal_step j (with_handoff None j).

(** Lineages only grow, at their end. *)
Definition grows (j j' : Journal) : Prop :=
  ∀ id bs, lineages j !! id = Some bs → ∃ more, lineages j' !! id = Some (bs ++ more).

#[export] Instance grows_preorder : PreOrder grows.
Proof.
  split.
  - intros j id bs H. exists []. by rewrite app_nil_r.
  - intros j1 j2 j3 H12 H23 id bs H. destruct (H12 _ _ H) as [m1 H1].
    destruct (H23 _ _ H1) as [m2 H2]. exists (m1 ++ m2). by rewrite app_assoc.
Qed.

Lemma journal_step_grows j j' : journal_step j j' → grows j j'.
Proof.
  destruct 1; try (intros ? ? ?; exists []; by rewrite app_nil_r).
  - intros id' bs Hb. exists []. rewrite app_nil_r. cbn. rewrite lookup_insert_ne; [done|congruence].
  - intros id' bs' Hb. cbn. destruct (decide (id' = ho_conversation h)) as [->|Hne].
    + rewrite lookup_insert_eq. eexists. by simplify_eq.
    + exists []. by rewrite app_nil_r, lookup_insert_ne.
Qed.

(** A thread belongs to one conversation, and at one place in it. *)
Definition threads_unique (j : Journal) : Prop :=
  ∀ id1 bs1 i1 b1 id2 bs2 i2 b2,
    lineages j !! id1 = Some bs1 → bs1 !! i1 = Some b1 →
    lineages j !! id2 = Some bs2 → bs2 !! i2 = Some b2 →
    b_thread b1 = b_thread b2 → id1 = id2 ∧ i1 = i2.

(** ** The journal of a document *)

Definition binding_of (g : ConversationGeneration) : Binding :=
  mkBinding (cg_profile_id g) (cg_thread_id g) (cg_canonical_cwd g).

Definition handoff_of (t : HandoffTransition) : Handoff :=
  mkHandoff (tr_transition_id t) (tr_conversation_id t) (tr_target_profile_id t)
    (tr_canonical_cwd t) (tr_phase t) (tr_fork_attempts t)
    (ot_thread_id <$> tr_observed_target t).

Definition lineage_of (c : Conversation) : list Binding := binding_of <$> cv_generations c.

Definition lineages_of (l : list Conversation) : gmap string (list Binding) :=
  lineage_of <$> to_map cv_conversation_id l.

Definition journal_of (d : ConversationDocument) : Journal :=
  mkJournal (lineages_of (cd_conversations d)) (handoff_of <$> cd_active_transition d).

Lemma lineages_of_Some l id bs :
  NoDup (cv_conversation_id <$> l) →
  lineages_of l !! id = Some bs ↔ ∃ c, c ∈ l ∧ cv_conversation_id c = id ∧ bs = lineage_of c.
Proof.
  intros Hn. unfold lineages_of. rewrite lookup_fmap, fmap_Some.
  setoid_rewrite (to_map_Some cv_conversation_id l id _ Hn). naive_solver.
Qed.

Lemma bound_threads {UC : UuidCrate} v1 d thread :
  wf_contents v1 d → bound thread (journal_of d) ↔ thread ∈ threads d.
Proof.
  intros H. unfold bound, threads. cbn. rewrite list_elem_of_bind. split.
  - intros (id & bs & b & Hl & Hb & <-).
    apply (lineages_of_Some _ _ _ (wc_ids _ _ H)) in Hl as (c & Hc & _ & ->).
    unfold lineage_of in Hb. apply list_elem_of_fmap in Hb as (g & -> & Hg).
    exists c. split; [|done]. cbn. by apply list_elem_of_fmap_2.
  - intros (c & (g & -> & Hg)%list_elem_of_fmap & Hc).
    exists (cv_conversation_id c), (lineage_of c), (binding_of g). split_and!; [|by apply list_elem_of_fmap_2|done].
    apply lineages_of_Some; [apply H|]. by exists c.
Qed.

Lemma threads_unique_spec {UC : UuidCrate} v1 d :
  wf_contents v1 d → threads_unique (journal_of d).
Proof.
  intros H id1 bs1 i1 b1 id2 bs2 i2 b2 H1 Hi1 H2 Hi2 Ht. cbn in *.
  apply (lineages_of_Some _ _ _ (wc_ids _ _ H)) in H1 as (c1 & Hc1 & <- & ->), H2 as (c2 & Hc2 & <- & ->).
  unfold lineage_of in *. rewrite list_lookup_fmap in Hi1, Hi2.
  destruct (cv_generations c1 !! i1) as [g1|] eqn:Hg1; [|done].
  destruct (cv_generations c2 !! i2) as [g2|] eqn:Hg2; [|done].
  cbn in Hi1, Hi2. injection Hi1 as <-. injection Hi2 as <-. cbn in Ht.
  pose proof (wc_threads _ _ H) as Hn. unfold threads in Hn.
  pose proof (proj2 (NoDup_mbind_lookup _ _) Hn) as Hn'.
  apply list_elem_of_lookup in Hc1 as [j1 Hj1], Hc2 as [j2 Hj2].
  assert (Hin : ∀ c i g, cv_generations c !! i = Some g →
     cg_thread_id g ∈ (cg_thread_id <$> cv_generations c))
    by (intros; apply list_elem_of_fmap_2; by eapply list_elem_of_lookup_2).
  assert (Hdis : ∀ j j' c c' t, cd_conversations d !! j = Some c → cd_conversations d !! j' = Some c' →
     t ∈ cg_thread_id <$> cv_generations c → t ∈ cg_thread_id <$> cv_generations c' → (j < j')%nat → False).
  { intros j j' c c' t Hj Hj' Htc Htc' Hlt. destruct (Hn' j' c' Hj') as [_ Hd].
    apply (Hd t c); [done| |done]. apply list_elem_of_lookup. exists j.
    by rewrite lookup_take_lt. }
  destruct (Nat.lt_trichotomy j1 j2) as [Hlt|[->|Hlt]].
  - exfalso. eapply (Hdis j1 j2); eauto. rewrite Ht. eauto.
  - assert (c1 = c2) as -> by congruence. split; [done|].
    destruct (Hn' _ _ Hj2) as [Hnc _]. eapply NoDup_lookup; [exact Hnc| |];
      rewrite list_lookup_fmap; [by rewrite Hg1|]. rewrite Hg2. cbn. by rewrite Ht.
  - exfalso. eapply (Hdis j2 j1); eauto. rewrite <- Ht. eauto.
Qed.
