(* ===== verification/ConversationSteps.v ===== *)
(** * The conversation journal: what one transaction does

    For each closure of [ConversationOps] that accepts a valid document:
    the document it leaves is valid again (with a clock that does not run
    backwards and fresh identifiers), its integers stay within their widths,
    and the abstract journal takes one [journal_step]. *)
From S2P Require Import Prelude Interfaces Profiles ConversationData ConversationOps ConversationProofs.
From S2P Require Import ConversationSpec.

Open Scope Z_scope.

(** ** Machine widths *)

Definition in_u8 (z : Z) : Prop := 0 ≤ z ≤ u8_max.
Definition in_u32 (z : Z) : Prop := 0 ≤ z ≤ u32_max.
Definition in_u64 (z : Z) : Prop := 0 ≤ z ≤ u64_max.
Definition in_i64 (z : Z) : Prop := i64_min ≤ z ≤ i64_max.

Definition fingerprint_in_range (f : RolloutFingerprint) : Prop :=
  Forall in_u64 [rf_device f; rf_inode f; rf_length f; rf_link_count f] ∧
  Forall in_u32 [rf_mode f; rf_owner f] ∧
  Forall in_i64 [rf_modified_seconds f; rf_modified_nanoseconds f; rf_changed_seconds f;
                 rf_changed_nanoseconds f].
Definition rollout_in_range (r : GenerationRollout) : Prop :=
  fingerprint_in_range (rollout_fingerprint r).

Definition thread_in_range (t : InventoryThread) : Prop :=
  Forall in_u64 [it_rollout_device t; it_rollout_inode t; it_rollout_length t] ∧
  Forall in_i64 ([it_updated_at t; it_rollout_modified_seconds t;
                  it_rollout_modified_nanoseconds t; it_rollout_changed_seconds t;
                  it_rollout_changed_nanoseconds t] ++ option_list (it_recency_at t)).

Definition pending_in_range (p : PendingLaunch) : Prop :=
  in_i64 (pl_started_at p) ∧ Forall thread_in_range (pl_pre_inventory p).

Definition generation_in_range (g : ConversationGeneration) : Prop :=
  in_u32 (cg_generation g) ∧ in_i64 (cg_bound_at g) ∧
  Forall rollout_in_range (option_list (cg_rollout g)).

Definition conversation_in_range (c : Conversation) : Prop :=
  in_u32 (cv_active_generation c) ∧ Forall generation_in_range (cv_generations c).

Definition head_in_range (h : WorkspaceHead) : Prop :=
  Forall in_u32 (option_list (wh_generation h)).

Definition target_in_range (o : ObservedHandoffTarget) : Prop :=
  in_i64 (ot_observed_at o) ∧ rollout_in_range (ot_rollout o).

Definition transition_in_range (t : HandoffTransition) : Prop :=
  Forall in_u32 [tr_source_generation t; tr_target_generation t] ∧
  rollout_in_range (tr_source_rollout t) ∧ in_u8 (tr_fork_attempts t) ∧
  Forall in_i64 ([tr_prepared_at t; tr_updated_at t] ++ option_list (tr_fork_requested_at t)) ∧
  Forall target_in_range (option_list (tr_observed_target t)).

Definition backup_in_range (b : PreMigrationBackup) : Prop :=
  in_u8 (pb_schema_version b) ∧ in_u64 (pb_revision b).

(** Every integer of the document is a value of its Rust type. *)
Record document_in_range (d : ConversationDocument) : Prop := {
  dr_schema : in_u8 (cd_schema_version d);
  dr_revision : in_u64 (cd_revision d);
  dr_conversations : Forall conversation_in_range (cd_conversations d);
  dr_heads : Forall head_in_range (cd_workspace_heads d);
  dr_pendings : Forall pending_in_range (cd_pending_launches d);
  dr_backup : Forall backup_in_range (option_list (cd_pre_migration_backup d));
  dr_transition : Forall transition_in_range (option_list (cd_active_transition d));
}.

(** ** Running a closure *)

(** Decomposes a hypothesis that a closure returned [Ok]. *)
Ltac inv_tx :=
  repeat match goal with
  | H : (_ ≫= _) _ = (Ok _, _) |- _ =>
      let a := fresh "a" in let s := fresh "s" in let Ha := fresh "Htx" in
      apply stM_bind_Ok in H; destruct H as (a & s & Ha & H)
  | H : get_st _ = (Ok _, _) |- _ => injection H as <- <-
  | H : modify_st _ _ = (Ok _, _) |- _ => injection H as H; subst
  | H : mret _ _ = (Ok _, _) |- _ => injection H as H; subst
  | H : throw _ _ = (Ok _, _) |- _ => discriminate H
  | H : lift_result ?r ?s = (Ok _, _) |- _ =>
      let E := fresh "Hok" in
      assert (E : r = Ok _) by (injection H as H; exact H);
      injection H as _ <-
  | u : () |- _ => destruct u
  end.

Section steps.
Context {UC : UuidCrate}.

(** What the process must provide for a transaction on [d] to be valid: a
    clock that has not run behind the active handoff, and identifiers that
    are canonical and new. *)
Record env_ok (env : CallEnv) (d : ConversationDocument) : Prop := {
  eo_time : ∀ s, system_time env = Some s → 0 ≤ s;
  eo_clock : ∀ s t, system_time env = Some s → cd_active_transition d = Some t →
    tr_updated_at t ≤ s;
  eo_version : validate_adapter_version (CARGO_PKG_VERSION env) = Ok ();
  eo_uuid : validate_uuid (fresh_id env) = Ok ();
  eo_conversation : fresh_id env ∉ cv_conversation_id <$> cd_conversations d;
  eo_launch : fresh_id env ∉ pl_launch_id <$> cd_pending_launches d;
}.

Definition transition_ok (d d' : ConversationDocument) : Prop :=
  ∀ t, cd_active_transition d' = Some t →
    is_v1 d = false ∧ wf_fields t ∧ ∃ c g h, wf_place d' t c g h.

(** The change from [d] to [d'], valid under [V] and in range under [R]. *)
Record step_ok (V R : Prop) (d d' : ConversationDocument) : Prop := {
  so_schema : cd_schema_version d' = cd_schema_version d;
  so_revision : cd_revision d' = cd_revision d;
  so_backup : cd_pre_migration_backup d' = cd_pre_migration_backup d;
  so_valid : V → wf_contents (is_v1 d) d' ∧ transition_ok d d';
  so_range : R → document_in_range d → document_in_range d';
  so_journal : NoDup (cv_conversation_id <$> cd_conversations d') →
    journal_step (journal_of d) (journal_of d');
}.

Lemma unix_timestamp_Ok (env : CallEnv) s :
  unix_timestamp env = Ok s → system_time env = Some s ∧ s ≤ i64_max.
Proof.
  unfold unix_timestamp. intros H. inv_ok. destruct (Z.leb_spec a i64_max); [|done].
  by injection H as <-.
Qed.

Lemma in_transition_false d cwd t :
  in_transition cwd d = false → cd_active_transition d = Some t → cwd ≠ tr_canonical_cwd t.
Proof. unfold in_transition. intros H E. rewrite E in H. apply String.eqb_neq in H. congruence. Qed.

Lemma ensure_Ok d cwd u d' :
  ensure_workspace_not_transitioning cwd d = (Ok u, d') → in_transition cwd d = false ∧ d' = d.
Proof. unfold ensure_workspace_not_transitioning. intros H. inv_tx. by inv_ok. Qed.

(** A transition elsewhere is not affected. *)
Lemma transition_elsewhere d d' cwd :
  wf_document d → in_transition cwd d = false →
  cd_active_transition d' = cd_active_transition d →
  (∀ id c, find_conversation id d = Some c → lineage_cwd c ≠ Some cwd →
     ∃ c', find_conversation id d' = Some c' ∧ cv_generations c' = cv_generations c ∧
       cv_active_generation c' = cv_active_generation c ∧ cv_provider c' = cv_provider c) →
  (∀ p cwd', cwd' ≠ cwd → find_first (head_for p cwd') (cd_workspace_heads d') =
     find_first (head_for p cwd') (cd_workspace_heads d)) →
  (∀ cwd', cwd' ≠ cwd → pending_in cwd' d' = pending_in cwd' d) →
  transition_ok d d'.
Proof.
  intros Hd Hn Ht Hc Hh Hp t E. rewrite Ht in E.
  destruct (wf_document_transition _ _ Hd E) as (? & ? & c & g & h & Hpl).
  pose proof (in_transition_false _ _ _ Hn E) as Hne.
  assert (lineage_cwd c = Some (tr_canonical_cwd t)) as Hcwd.
  { rewrite <- (ws_cwd _ _ (wp_source _ _ _ _ _ Hpl)). eapply generation_cwd.
    - eapply found_wf; [by apply wf_document_contents|]. apply Hpl.
    - pose proof (wp_generation _ _ _ _ _ Hpl) as Hg. unfold find_generation in Hg.
      by apply find_first_Some in Hg as [? _]. }
  destruct (Hc _ _ (wp_conversation _ _ _ _ _ Hpl)) as (c' & ? & ? & ? & ?); [congruence|].
  split; [done|]. split; [done|]. exists c', g, h.
  eapply wf_place_frame; [exact Hpl|..]; try done; [apply Hh; congruence|apply Hp; congruence].
Qed.

(** *** Heads and launches *)

Lemma needs_selection_range cwd l :
  Forall head_in_range l → Forall head_in_range (needs_selection cwd l).
Proof.
  rewrite !Forall_forall. intros H h. unfold needs_selection. case_match.
  - intros [?|(y & Hy & ->)]%elem_of_update; [auto|]. apply find_first_Some in Hy as [? _].
    by apply (H y).
  - intros [?| ->%list_elem_of_singleton]%elem_of_app; [auto|]. constructor.
Qed.

Lemma mark_step V R cwd d :
  wf_document d → in_transition cwd d = false → (V → validate_stored_path cwd = Ok ()) →
  step_ok V R d (set_heads (needs_selection cwd) d).
Proof.
  intros Hd Hn Hp. split; try done.
  - intros HV. split; [by apply needs_selection_contents; [apply wf_document_contents|apply Hp]|].
    eapply transition_elsewhere; try done; [by eauto 10|].
    intros. by apply needs_selection_other.
  - intros _ []. split; try done. by apply needs_selection_range.
  - intros _. constructor.
Qed.

(** Steps that leave the journal alone compose with any step. *)
Lemma step_ok_after V R d d1 d' :
  step_ok V R d d1 → journal_of d1 = journal_of d →
  (V → wf_document d1) → step_ok V R d1 d' → step_ok V R d d'.
Proof.
  intros [] Hj Hw []. split; try congruence.
  - intros HV. assert (is_v1 d1 = is_v1 d) as E by (unfold is_v1; congruence).
    destruct (so_valid1 HV) as [? Ht]. rewrite E in *. split; [done|]. unfold transition_ok in *.
    by rewrite E in *.
  - auto.
  - intros Hn. rewrite <- Hj. auto.
Qed.

(** A valid step leaves a valid document. *)
Lemma step_ok_document V R d d' :
  step_ok V R d d' → V → wf_document d → wf_document d'.
Proof.
  intros [] HV Hd. destruct (so_valid0 HV) as [? ?].
  eapply wf_document_change; try done. lia.
Qed.

Lemma pending_in_app cwd d l :
  pending_in cwd (set_pendings (fun q => q ++ l) d) =
  pending_in cwd d || existsb (fun p => String.eqb (pl_canonical_cwd p) cwd) l.
Proof. unfold pending_in. cbn. by rewrite existsb_app. Qed.

(** Adding a launch to a workspace without one. *)
Lemma add_pending_step (V R : Prop) p d :
  (V → wf_document d) → in_transition (pl_canonical_cwd p) d = false →
  (V → wf_pending p ∧ pl_launch_id p ∉ pl_launch_id <$> cd_pending_launches d ∧
     pending_in (pl_canonical_cwd p) d = false) →
  (R → pending_in_range p) →
  step_ok V R d (set_pendings (fun l => l ++ [p]) d).
Proof.
  intros Hd Hn HV HR. split; try done.
  - intros HV'. destruct (HV HV') as (Hp & Hl & Hc). specialize (Hd HV').
    pose proof (wf_document_contents _ Hd) as Hw. split.
    + apply contents_set_pendings; [done|..].
      * intros q [?| ->%list_elem_of_singleton]%elem_of_app; [by apply Hw|done].
      * apply NoDup_fmap_snoc; [apply Hw|done].
      * apply NoDup_fmap_snoc; [apply Hw|]. intros (q & Hq & Hin)%list_elem_of_fmap.
        unfold pending_in in Hc. rewrite existsb_false in Hc. specialize (Hc q Hin). cbn in Hc.
        rewrite Hq, String.eqb_refl in Hc. done.
    + eapply transition_elsewhere; try done; [by eauto 10|]. intros cwd' Hne.
      rewrite pending_in_app. cbn. rewrite (proj2 (String.eqb_neq _ _)) by done.
      by rewrite ?orb_false_r.
  - intros HR' []. split; try done. cbn. apply Forall_app. split; [done|].
    constructor; [auto|constructor].
  - intros _. constructor.
Qed.

Lemma begin_launch_step V R p d b d' :
  wf_document d → begin_launch_tx p d = (Ok b, d') →
  (V → wf_pending p ∧ pl_launch_id p ∉ pl_launch_id <$> cd_pending_launches d) →
  (R → pending_in_range p) →
  step_ok V R d d'.
Proof.
  unfold begin_launch_tx. intros Hd H HV HR. inv_tx.
  apply ensure_Ok in Htx as [Hn ->].
  destruct (existsb _ _) eqn:He.
  - rewrite mark_spec in Htx1. injection Htx1 as <-. apply mark_step; [done..|].
    intros HV'. destruct (HV HV') as [Hp _]. unfold wf_pending, validate_pending in Hp. by inv_ok.
  - inv_tx. apply add_pending_step; [done..| |done]. intros HV'. destruct (HV HV') as [? Hl].
    split_and!; [done..|]. unfold pending_in. rewrite existsb_false in *. intros q Hq.
    specialize (He q Hq). cbn in *. destruct (String.eqb _ _); [|done]. cbn in He.
    apply negb_false_iff, String.eqb_eq in He. exfalso. apply Hl. rewrite <- He.
    by apply list_elem_of_fmap_2.
Qed.

(** A change of the launches that keeps every workspace's occupation, or frees
    workspaces. *)
Lemma pendings_step V R f d :
  wf_document d →
  (∀ p, p ∈ f (cd_pending_launches d) → ∃ q, q ∈ cd_pending_launches d ∧
     (wf_pending q → wf_pending p) ∧ (pending_in_range q → pending_in_range p) ∧
     pl_canonical_cwd p = pl_canonical_cwd q) →
  sublist (pl_launch_id <$> f (cd_pending_launches d)) (pl_launch_id <$> cd_pending_launches d) →
  sublist (pl_canonical_cwd <$> f (cd_pending_launches d))
    (pl_canonical_cwd <$> cd_pending_launches d) →
  step_ok V R d (set_pendings f d).
Proof.
  intros Hd Hf Hl Hc. pose proof (wf_document_contents _ Hd) as Hw. split; try done.
  - intros _. split.
    + apply contents_set_pendings; [done|..].
      * intros p Hp. destruct (Hf p Hp) as (q & Hq & Hqp & _). apply Hqp. by apply Hw.
      * by eapply sublist_NoDup; [apply (wc_launches _ _ Hw)|].
      * by eapply sublist_NoDup; [apply (wc_workspaces _ _ Hw)|].
    + intros t Ht. destruct (wf_document_transition _ _ Hd Ht) as (? & ? & c & g & h & Hpl).
      split; [done|]. split; [done|]. exists c, g, h.
      eapply wf_place_frame; [exact Hpl|apply Hpl|done..|].
      rewrite (wp_pending _ _ _ _ _ Hpl). pose proof (wp_pending _ _ _ _ _ Hpl) as Hp.
      unfold pending_in in *. rewrite existsb_false in *. intros p Hin.
      destruct (Hf p Hin) as (q & Hq & _ & _ & ->). by apply Hp.
  - intros _ []. split; try done. cbn. rewrite Forall_forall in *. intros p Hp.
    destruct (Hf p Hp) as (q & Hq & _ & Hr & _). by auto.
  - intros _. constructor.
Qed.

Lemma mark_pending_step V R id phase d u d' :
  wf_document d → mark_pending_tx id phase d = (Ok u, d') → step_ok V R d d'.
Proof.
  unfold mark_pending_tx. intros Hd H. inv_tx. case_match; [|by inv_tx]. inv_tx.
  apply pendings_step; [done|..].
  - intros p [?|(q & Hq & ->)]%elem_of_update; [by eauto|].
    apply find_first_Some in Hq as [? _]. by exists q.
  - by rewrite fmap_update.
  - by rewrite fmap_update.
Qed.

Lemma remove_pending_step V R i d :
  wf_document d → step_ok V R d (set_pendings (remove_at i) d).
Proof.
  intros Hd. apply pendings_step; [done|..]; [|apply fmap_remove_at_sublist..].
  intros p Hp. exists p. split; [by eapply elem_of_remove_at|done].
Qed.

Lemma mark_ambiguous_step V R cwd d u d' :
  wf_document d → mark_workspace_ambiguous_tx cwd d = (Ok u, d') →
  (V → validate_stored_path cwd = Ok ()) → step_ok V R d d'.
Proof.
  unfold mark_workspace_ambiguous_tx. intros Hd H HV. inv_tx. apply ensure_Ok in Htx as [? ->].
  rewrite mark_spec in H. injection H as <-. by apply mark_step.
Qed.

Lemma prepare_untracked_step V R p d id d' :
  wf_document d → prepare_untracked_tx p d = (Ok id, d') →
  (V → wf_pending p ∧ pl_launch_id p ∉ pl_launch_id <$> cd_pending_launches d) →
  (R → pending_in_range p) → step_ok V R d d'.
Proof.
  unfold prepare_untracked_tx. intros Hd H HV HR. inv_tx. apply ensure_Ok in Htx as [Hn ->].
  inv_ok. rewrite mark_spec in Htx2. injection Htx2 as <-.
  assert (HV0 : V → validate_stored_path (pl_canonical_cwd p) = Ok ()).
  { intros HV'. destruct (HV HV') as [Hp _]. unfold wf_pending, validate_pending in Hp. by inv_ok. }
  pose proof (mark_step V R _ _ Hd Hn HV0) as Hm.
  eapply step_ok_after; [exact Hm|done|intros HV'; by eapply step_ok_document|].
  apply add_pending_step; [intros HV'; by eapply step_ok_document|done| |done].
  intros HV'. destruct (HV HV'). by split_and!.
Qed.

(** *** Binding a thread *)

(** A step followed by one that leaves conversations and transition alone. *)
Lemma step_ok_then V R d d1 d' :
  step_ok V R d d1 → step_ok V R d1 d' →
  cd_conversations d' = cd_conversations d1 → cd_active_transition d' = cd_active_transition d1 →
  step_ok V R d d'.
Proof.
  intros [] [] Hc Ht. split; try congruence; [|by auto|].
  - intros HV. assert (is_v1 d1 = is_v1 d) as E by (unfold is_v1; congruence).
    destruct (so_valid1 HV) as [? Hok]. unfold transition_ok in *. rewrite E in *. by split.
  - intros Hn. rewrite Hc in Hn. replace (journal_of d') with (journal_of d1); [by auto|].
    unfold journal_of. by rewrite Hc, Ht.
Qed.

Lemma lineages_of_alt l :
  lineages_of l = list_to_map ((fun c => (cv_conversation_id c, lineage_of c)) <$> l).
Proof.
  unfold lineages_of, to_map. rewrite <- list_to_map_fmap. f_equal.
  rewrite <- list_fmap_compose. by apply list_fmap_ext.
Qed.

Lemma lineages_of_update P f l :
  (∀ c, cv_conversation_id (f c) = cv_conversation_id c ∧
        binding_of <$> cv_generations (f c) = binding_of <$> cv_generations c) →
  lineages_of (update_first P f l) = lineages_of l.
Proof.
  intros Hf. rewrite !lineages_of_alt. f_equal. apply fmap_update. intros c.
  destruct (Hf c) as [-> Hg]. unfold lineage_of. by rewrite Hg.
Qed.

Lemma lineages_of_snoc l c :
  NoDup (cv_conversation_id <$> l ++ [c]) →
  lineages_of (l ++ [c]) = <[cv_conversation_id c := lineage_of c]> (lineages_of l) ∧
  lineages_of l !! cv_conversation_id c = None.
Proof.
  intros Hn. rewrite fmap_app, NoDup_app in Hn. destruct Hn as (Hn & Hd & _).
  assert (cv_conversation_id c ∉ cv_conversation_id <$> l) as Hni.
  { intros Hin. apply (Hd _ Hin). by left. }
  assert (cv_conversation_id c ∉ ((fun c => (cv_conversation_id c, lineage_of c)) <$> l).*1) as Hni'
    by by rewrite <- list_fmap_compose.
  rewrite !lineages_of_alt, fmap_app. split.
  - by apply list_to_map_snoc.
  - by apply not_elem_of_list_to_map.
Qed.

(** Heads: the workspace's head becomes the bound generation. *)
Definition bind_head (cwd id : string) (n : Z) (heads : list WorkspaceHead) : list WorkspaceHead :=
  List.filter (fun h => negb (head_for Codex cwd h)) heads
  ++ [mkWorkspaceHead Codex cwd Hs_Ready (Some id) (Some n)].

Lemma bind_head_other p cwd id n cwd' heads :
  cwd' ≠ cwd →
  find_first (head_for p cwd') (bind_head cwd id n heads) = find_first (head_for p cwd') heads.
Proof.
  intros Hne. unfold bind_head. rewrite find_first_app, find_first_filter.
  - destruct (find_first _ _); [done|]. cbn. rewrite (proj2 (head_for_false _ _ _)); [done|].
    unfold head_key. cbn. congruence.
  - intros h Hh%head_for_iff. apply negb_true_iff, head_for_false. congruence.
Qed.

Lemma bind_head_step (V R : Prop) cwd id n d :
  (V → wf_document d ∧ validate_stored_path cwd = Ok () ∧
     refers d (mkWorkspaceHead Codex cwd Hs_Ready (Some id) (Some n))) →
  in_transition cwd d = false →
  (R → document_in_range d → in_u32 n) →
  step_ok V R d (set_heads (bind_head cwd id n) d).
Proof.
  intros HV Hn HR. split; try done.
  - intros HV'. destruct (HV HV') as (Hd & Hp & Hr). pose proof (wf_document_contents _ Hd) as Hw.
    split.
    + apply contents_set_heads; [done|..]; unfold bind_head.
      * intros h [[_ Hin]%elem_of_list_filter| ->%list_elem_of_singleton]%elem_of_app; [by apply Hw|].
        apply (@ready_head_refers _ (is_v1 d)); [apply Hw|done|]. by split.
      * rewrite fmap_app, NoDup_app. split_and!; [|cbn|apply NoDup_singleton].
        { eapply sublist_NoDup; [apply (wc_head_keys _ _ Hw)|apply fmap_filter_sublist]. }
        intros k (h & -> & [Hh _]%elem_of_list_filter)%list_elem_of_fmap Hk%list_elem_of_singleton.
        apply negb_true_iff, head_for_false in Hh. by cbn in Hk.
    + eapply transition_elsewhere; try done; [by eauto 10|]. intros. by apply bind_head_other.
  - intros HR' Hdr. pose proof (HR HR' Hdr). destruct Hdr. split; try done. cbn. unfold bind_head.
    apply Forall_app. split; [|by apply Forall_singleton, Forall_singleton].
    rewrite Forall_forall in *. intros h [_ ?]%elem_of_list_filter. auto.
  - intros _. constructor.
Qed.

Lemma find_conversation_update v1 d P f c id :
  wf_contents v1 d → find_first P (cd_conversations d) = Some c →
  (∀ x, cv_conversation_id (f x) = cv_conversation_id x) →
  find_conversation id (set_conversations (update_first P f) d) =
    if String.eqb id (cv_conversation_id c) then Some (f c) else find_conversation id d.
Proof.
  intros H HP Hf. unfold find_conversation. cbn.
  rewrite (update_first_key cv_conversation_id (by_id (cv_conversation_id c)) P f _ c);
    [|apply H|done|intros y; apply String.eqb_eq].
  destruct (String.eqb_spec id (cv_conversation_id c)) as [->|Hne].
  - rewrite find_update_same by (intros x; by rewrite Hf).
    assert (find_first (fun x => String.eqb (cv_conversation_id x) (cv_conversation_id c))
      (cd_conversations d) = Some c) as ->; [|done].
    apply (find_first_key cv_conversation_id); [apply H|]. split; [|done].
    by apply find_first_Some in HP as [? _].
  - apply find_update_other. intros x Hx. unfold by_id in Hx. apply String.eqb_eq in Hx.
    rewrite Hf, Hx. split; apply String.eqb_neq; congruence.
Qed.

Lemma bind_update {A B} (f : A → list B) P (g : A → A) l :
  (∀ x, f (g x) = f x) → update_first P g l ≫= f = l ≫= f.
Proof.
  intros Hf. induction l as [|x l IH]; [done|]. cbn.
  destruct (P x); cbn; [by rewrite Hf|]. f_equal. exact IH.
Qed.

Lemma set_lifecycle_wf v1 l c :
  usable_lifecycle l = true → wf_conversation v1 c → wf_conversation v1 (set_lifecycle l c).
Proof.
  intros Hl []. split; try done. intros g Hg. destruct (wv_generations g Hg). by split.
Qed.

Lemma binding_input_Ok b :
  validate_binding_input b = Ok () →
  validate_uuid (bi_profile_id b) = Ok () ∧ validate_uuid (bi_thread_id b) = Ok () ∧
  validate_stored_path (bi_canonical_cwd b) = Ok () ∧
  validate_codex_version (bi_codex_version b) = Ok () ∧ usable_lifecycle (bi_lifecycle b) = true.
Proof.
  unfold validate_binding_input. intros H. inv_ok. split_and!; try done.
  by destruct (bi_lifecycle b).
Qed.

(** What binding leaves behind for the head. *)
Definition bindable (d : ConversationDocument) (cwd id : string) (n : Z) : Prop :=
  ∃ c, c ∈ cd_conversations d ∧ find_conversation id d = Some c ∧ validate_uuid id = Ok () ∧
    cv_active_generation c = n ∧ cv_provider c = Codex ∧ lineage_cwd c = Some cwd.

Lemma bind_existing_step V R b c g d :
  wf_document d → validate_binding_input b = Ok () →
  in_transition (bi_canonical_cwd b) d = false →
  find_first (binds_here b) (cd_conversations d) = Some c → g ∈ cv_generations c →
  cg_canonical_cwd g = bi_canonical_cwd b →
  let d1 := set_conversations (update_first (binds_here b) (set_lifecycle (bi_lifecycle b))) d in
  step_ok V R d d1 ∧
  bindable d1 (bi_canonical_cwd b) (cv_conversation_id c) (cv_active_generation c).
Proof.
  intros Hd Hb Hn Hc Hg Hcwd d1. pose proof (wf_document_contents _ Hd) as Hw.
  apply binding_input_Ok in Hb as (_ & _ & _ & _ & Hl).
  pose proof (find_first_Some _ _ _ Hc) as [Hin _].
  pose proof (wc_conversations _ _ Hw c Hin) as Hcw.
  assert (Hfind : ∀ id, find_conversation id d1 =
    if String.eqb id (cv_conversation_id c) then Some (set_lifecycle (bi_lifecycle b) c)
    else find_conversation id d) by (intros id; by eapply find_conversation_update).
  assert (Hface : ∀ id c0, find_conversation id d = Some c0 → ∃ c', find_conversation id d1 = Some c' ∧
    cv_generations c' = cv_generations c0 ∧ cv_active_generation c' = cv_active_generation c0 ∧
    cv_provider c' = cv_provider c0).
  { intros id c0 H0. rewrite Hfind. destruct (String.eqb_spec id (cv_conversation_id c)) as [->|]; [|by eauto].
    assert (c0 = c) as ->; [|by eexists].
    assert (find_conversation (cv_conversation_id c) d = Some c)
      by (by apply (find_conversation_Some _ _ _ Hw)). congruence. }
  split; [split; try done|].
  - intros _. split.
    + apply contents_set_conversations; [done|..].
      * intros c' [?|(y & Hy & ->)]%elem_of_update; [by apply Hw|]. apply set_lifecycle_wf; [done|].
        apply Hw. by apply find_first_Some in Hy as [? _].
      * rewrite fmap_update by done. apply Hw.
      * rewrite bind_update by done. apply Hw.
      * intros h _ _ (id & c0 & Hid & Hc0 & Hu & Hgen & Hp & Hlc).
        destruct (Hface _ _ Hc0) as (c' & Hc' & Hg' & Ha' & Hp').
        exists id, c'. unfold lineage_cwd in *. rewrite Ha', Hp', Hg'. by split_and!.
    + eapply transition_elsewhere; [done|exact Hn|done| |done..]. intros id c0 H0 _. by apply Hface.
  - intros _ []. split; try done. cbn. rewrite Forall_forall in *.
    intros c' [?|(y & Hy & ->)]%elem_of_update; [auto|].
    apply find_first_Some in Hy as [Hy _]. apply (dr_conversations0 y Hy).
  - intros _. unfold journal_of. cbn. rewrite lineages_of_update by done. constructor.
  - exists (set_lifecycle (bi_lifecycle b) c). rewrite Hfind, String.eqb_refl. split_and!; try done.
    + assert (find_conversation (cv_conversation_id c) d1 = Some (set_lifecycle (bi_lifecycle b) c))
        as Hf by by rewrite Hfind, String.eqb_refl.
      unfold find_conversation in Hf. by apply find_first_Some in Hf as [? _].
    + apply Hcw.
    + apply Hcw.
    + cbn. rewrite <- Hcwd. by eapply (generation_cwd c g).
Qed.

(** The width of the clock: [as_secs] is a [u64]. *)
Definition clock_in_range (env : CallEnv) : Prop := ∀ s, system_time env = Some s → 0 ≤ s.

Lemma i64_time (env : CallEnv) s :
  clock_in_range env → unix_timestamp env = Ok s → in_i64 s ∧ 0 ≤ s.
Proof.
  intros Hr [Ht Hm]%unix_timestamp_Ok. specialize (Hr s Ht). unfold in_i64, i64_min. lia.
Qed.

Definition new_generation (env : CallEnv) (b : BindingInput) (now : Z) : ConversationGeneration :=
  mkConversationGeneration 0 (bi_profile_id b) (bi_thread_id b) (bi_canonical_cwd b)
    (bi_codex_version b) (CARGO_PKG_VERSION env) now None None.
Definition new_conversation (env : CallEnv) (b : BindingInput) (now : Z) : Conversation :=
  mkConversation (fresh_id env) Codex [new_generation env b now] 0 (bi_lifecycle b).

Lemma new_conversation_wf v1 env d b now :
  env_ok env d → validate_binding_input b = Ok () → 0 ≤ now →
  wf_conversation v1 (new_conversation env b now).
Proof.
  intros [] (? & ? & ? & ? & ?)%binding_input_Ok Hnow. split; try done.
  - intros [|i] g Hg; [|done]. by injection Hg as <-.
  - intros g ->%list_elem_of_singleton. by split.
Qed.

Lemma find_conversation_snoc d c id c0 :
  find_conversation id d = Some c0 →
  find_conversation id (set_conversations (fun l => l ++ [c]) d) = Some c0.
Proof. unfold find_conversation. cbn. intros H. by rewrite find_first_app, H. Qed.

Lemma bind_new_step (V R : Prop) env b now d :
  wf_document d → validate_binding_input b = Ok () →
  in_transition (bi_canonical_cwd b) d = false →
  bi_thread_id b ∉ threads d → unix_timestamp env = Ok now →
  (V → env_ok env d) → (R → clock_in_range env) →
  let d1 := set_conversations (fun l => l ++ [new_conversation env b now]) d in
  step_ok V R d d1 ∧ (V → bindable d1 (bi_canonical_cwd b) (fresh_id env) 0).
Proof.
  intros Hd Hb Hn Hth Hnow HV HR d1. pose proof (wf_document_contents _ Hd) as Hw.
  assert (Hnew : V → ∀ v1, wf_conversation v1 (new_conversation env b now)).
  { intros HV' v1. pose proof (HV HV') as He. eapply new_conversation_wf; [exact He|done|].
    by apply (i64_time env); [intros s; apply He|]. }
  split; [split; try done|].
  - intros HV'. pose proof (HV HV') as He. split.
    + apply contents_set_conversations; [done|..].
      * intros c [?| ->%list_elem_of_singleton]%elem_of_app; [by apply Hw|by apply Hnew].
      * apply NoDup_fmap_snoc; [apply Hw|apply He].
      * rewrite bind_app, NoDup_app. split_and!; [apply Hw| |apply NoDup_singleton].
        by intros t Ht ->%list_elem_of_singleton.
      * intros h _ _ (id & c & ? & ? & ? & ? & ? & ?). exists id, c.
        split_and!; try done. by apply find_conversation_snoc.
    + eapply transition_elsewhere; [done|exact Hn|done| |done..]. intros id c Hc _. exists c.
      split_and!; try done. by apply find_conversation_snoc.
  - intros HR' []. split; try done. cbn. apply Forall_app. split; [done|].
    apply Forall_singleton. destruct (i64_time env now (HR HR') Hnow).
    split; [unfold in_u32, u32_max; cbn; lia|]. apply Forall_singleton.
    split_and!; [unfold in_u32, u32_max; cbn; lia|done|constructor].
  - intros Hids. destruct (lineages_of_snoc _ _ Hids) as [Hl Hnone].
    unfold journal_of. cbn. rewrite Hl. apply (Js_bind (journal_of d) _
      (mkBinding (bi_profile_id b) (bi_thread_id b) (bi_canonical_cwd b))); [done|..].
    + by rewrite (bound_threads _ _ _ Hw).
    + intros h Hh. cbn in Hh. destruct (cd_active_transition d) as [t|] eqn:Ht; [|done].
      injection Hh as <-. cbn. apply (in_transition_false _ _ _ Hn) in Ht. congruence.
  - intros HV'. pose proof (HV HV') as He. exists (new_conversation env b now). split_and!; try done.
    + cbn. apply elem_of_app. right. by left.
    + unfold find_conversation. cbn. rewrite find_first_app.
      destruct (find_first _ (cd_conversations d)) as [c|] eqn:Hf.
      * apply find_first_Some in Hf as [Hin Hid%String.eqb_eq].
        destruct (eo_conversation _ _ He). rewrite <- Hid. by apply list_elem_of_fmap_2.
      * cbn. by rewrite String.eqb_refl.
    + apply He.
Qed.

Lemma bind_conversation_step (V R : Prop) env b d id n d1 :
  wf_document d → validate_binding_input b = Ok () →
  in_transition (bi_canonical_cwd b) d = false →
  existsb (fun c => existsb (fun g => String.eqb (cg_thread_id g) (bi_thread_id b)
                              && negb (String.eqb (cg_profile_id g) (bi_profile_id b)))
                      (cv_generations c)) (cd_conversations d) = false →
  (V → env_ok env d) → (R → clock_in_range env) →
  bind_conversation env b d = (Ok (id, n), d1) →
  step_ok V R d d1 ∧ (V → bindable d1 (bi_canonical_cwd b) id n) ∧
  in_transition (bi_canonical_cwd b) d1 = false ∧
  ∃ c, c ∈ cd_conversations d1 ∧ cv_active_generation c = n.
Proof.
  intros Hd Hb Hn Hth HV HR H. unfold bind_conversation in H. inv_tx.
  destruct (find_first (binds_here b) (cd_conversations d)) as [c|] eqn:Hc.
  - inv_tx. inv_ok. rewrite negb_Zeqb_false, negb_eqb_false in *.
    pose proof (find_first_Some _ _ _ Hok1) as [Hg _].
    pose proof (find_first_Some _ _ _ Hc) as [Hin _].
    destruct (bind_existing_step V R b c _ _ Hd Hb Hn Hc Hg) as [Hs Hbi]; [done|].
    rewrite Hok0. split_and!; [done..|]. destruct Hbi as (c' & ? & _ & _ & ? & _). by exists c'.
  - inv_tx. edestruct (bind_new_step V R env b) as [Hs Hbi]; [exact Hd|done..| |exact Hok|done|done|].
    + intros (c & (g & Ht & Hg)%list_elem_of_fmap & Hin)%list_elem_of_bind.
      rewrite existsb_false in Hth. specialize (Hth c Hin). cbn in Hth.
      rewrite existsb_false in Hth. specialize (Hth g Hg). cbn in Hth.
      rewrite find_first_None in Hc. specialize (Hc c Hin). unfold binds_here in Hc.
      rewrite existsb_false in Hc. specialize (Hc g Hg). unfold is_binding in Hc.
      rewrite <- Ht, String.eqb_refl in *. destruct (String.eqb (cg_profile_id g) _); done.
    + split_and!; [done..|]. eexists. split; [apply elem_of_app; right; by left|done].
Qed.

Lemma bind_document_step (V R : Prop) env b d hb d' :
  wf_document d → (V → env_ok env d) → (R → clock_in_range env) →
  bind_document env b d = (Ok hb, d') → step_ok V R d d'.
Proof.
  intros Hd HV HR H. unfold bind_document in H. inv_tx. apply ensure_Ok in Htx0 as [Hn ->].
  inv_ok. destruct a3 as [id n].
  destruct (bind_conversation_step V R env b _ id n _ Hd Hok0 Hn Hok HV HR Htx3)
    as (Hs & Hbi & Hn' & Hr).
  apply binding_input_Ok in Hok0 as (_ & _ & Hp & _ & _).
  eapply step_ok_then; [exact Hs| |done|done]. cbn [fst snd].
  apply (bind_head_step V R (bi_canonical_cwd b) id n).
  - intros HV'. split_and!; [by eapply step_ok_document|done|].
    destruct (Hbi HV') as (c & _ & Hf & Hu & Ha & Hpr & Hl).
    exists id, c. cbn. by rewrite Ha.
  - done.
  - intros _ [_ _ Hcs]. destruct Hr as (c & Hc & <-). rewrite Forall_forall in Hcs.
    by apply (Hcs c).
Qed.

Lemma adopt_step (V R : Prop) env b d hb d' :
  wf_document d → (V → env_ok env d) → (R → clock_in_range env) →
  adopt_tx env b d = (Ok hb, d') → step_ok V R d d'.
Proof.
  intros Hd HV HR H. unfold adopt_tx in H. inv_tx. apply ensure_Ok in Htx as [_ ->].
  by eapply bind_document_step.
Qed.

Lemma refresh_adopted_step (V R : Prop) env expected b d hb d' :
  wf_document d → (V → env_ok env d) → (R → clock_in_range env) →
  refresh_adopted_tx env expected b d = (Ok hb, d') → step_ok V R d d'.
Proof.
  intros Hd HV HR H. unfold refresh_adopted_tx in H. inv_tx. by eapply bind_document_step.
Qed.

Lemma step_ok_refl V R d : wf_document d → step_ok V R d d.
Proof.
  intros Hd. split; try done; [|by constructor].
  intros _. split; [by apply wf_document_contents|]. intros t. by apply wf_document_transition.
Qed.

(** A workspace with a launch has no handoff. *)
Lemma pending_not_in_transition d p :
  wf_document d → p ∈ cd_pending_launches d → in_transition (pl_canonical_cwd p) d = false.
Proof.
  intros Hd Hp. unfold in_transition. destruct (cd_active_transition d) as [t|] eqn:Ht; [|done].
  destruct (wf_document_transition _ _ Hd Ht) as (_ & _ & c & g & h & Hpl).
  pose proof (wp_pending _ _ _ _ _ Hpl) as Hf. unfold pending_in in Hf.
  rewrite existsb_false in Hf. specialize (Hf p Hp). cbn in Hf.
  apply String.eqb_neq in Hf. apply String.eqb_neq. congruence.
Qed.

Lemma finish_launch_step (V R : Prop) env id resolution d o d' :
  wf_document d → (V → env_ok env d) → (R → clock_in_range env) →
  finish_launch_tx env id resolution d = (Ok o, d') → step_ok V R d d'.
Proof.
  intros Hd HV HR H. unfold finish_launch_tx in H. inv_tx. inv_ok.
  rename a0 into i, a1 into p.
  assert (p ∈ cd_pending_launches d) as Hp by by eapply list_elem_of_lookup_2.
  set (d1 := set_pendings (remove_at i) d) in *.
  pose proof (remove_pending_step V R i d Hd) as Hrm. fold d1 in Hrm.
  assert (wf_document d1) as Hd1.
  { eapply (step_ok_document True True); [by apply remove_pending_step|done..]. }
  assert (in_transition (pl_canonical_cwd p) d1 = false) as Hn
    by by apply (pending_not_in_transition d).
  assert (validate_stored_path (pl_canonical_cwd p) = Ok ()) as Hcwd.
  { pose proof (wc_pendings _ _ (wf_document_contents _ Hd) p Hp) as Hwp.
    unfold wf_pending, validate_pending in Hwp. by inv_ok. }
  assert (step_ok V R d1 d' → step_ok V R d d') as Hcompose
    by (intros; by eapply step_ok_after; [exact Hrm|done|done|]).
  assert (step_ok V R d1 (set_heads (needs_selection (pl_canonical_cwd p)) d1)) as Hmark
    by by apply mark_step.
  assert (V → env_ok env d1) as HV1.
  { intros HV'. destruct (HV HV') as []. split; try done. cbn. intros Hin.
    apply eo_launch0. apply list_elem_of_fmap in Hin as (q & -> & Hq).
    apply list_elem_of_fmap_2. by eapply elem_of_remove_at. }
  apply Hcompose.
  repeat first
    [ progress inv_tx
    | match goal with
      | H : (if ?b then _ else _) _ = (Ok _, _) |- _ => destruct b
      | H : (match ?x with _ => _ end) _ = (Ok _, _) |- _ => destruct x
      end ].
  all: first
    [ by apply step_ok_refl
    | match goal with H : mark_head_needs_selection _ _ = _ |- _ =>
        rewrite mark_spec in H; injection H as <-; exact Hmark end
    | by eapply bind_document_step ].
Qed.
End steps.
