(* ===== verification/ConversationHandoff.v ===== *)
(** * The conversation journal: what the handoff transactions do

    The counterpart of [ConversationSteps] for the closures that drive one
    handoff from its preparation to the attachment of the target. *)
From S2P Require Import Prelude Interfaces Profiles ConversationData ConversationOps ConversationProofs.
From S2P Require Import ConversationSpec ConversationSteps.

Open Scope Z_scope.

Section handoff.
Context {UC : UuidCrate}.

(** *** The phases of a handoff *)

Lemma exact_transition_Ok id d t :
  exact_transition id d = Ok t → cd_active_transition d = Some t.
Proof. unfold exact_transition. intros H. by inv_ok. Qed.
Lemma exact_transition_at_Ok id p d t :
  exact_transition_at id p d = Ok t → cd_active_transition d = Some t ∧ tr_phase t = p.
Proof.
  unfold exact_transition_at. intros H. inv_ok. apply exact_transition_Ok in Hok.
  split; [done|]. by apply negb_bool_decide_false in Hok0.
Qed.
Lemma put_transition_Ok t d r d' :
  put_transition t d = (Ok r, d') → r = t ∧ d' = set_transition (Some t) d.
Proof. unfold put_transition. intros H. inv_tx. by split. Qed.

(** The fields no phase changes. *)
Definition same_handoff (t t' : HandoffTransition) : Prop :=
  tr_conversation_id t' = tr_conversation_id t ∧
  tr_source_generation t' = tr_source_generation t ∧
  tr_target_generation t' = tr_target_generation t ∧
  tr_source_profile_id t' = tr_source_profile_id t ∧
  tr_canonical_cwd t' = tr_canonical_cwd t ∧
  tr_trust_domain_id t' = tr_trust_domain_id t ∧
  tr_source_rollout t' = tr_source_rollout t.

Lemma uncommitted_active t :
  tr_phase t ≠ Hp_CommittedUnattached → expected_active t = tr_source_generation t.
Proof. intros H. unfold expected_active. by rewrite bool_decide_eq_false_2. Qed.

Lemma uncommitted_place d t t' c g h :
  wf_place d t c g h → same_handoff t t' →
  tr_phase t ≠ Hp_CommittedUnattached → tr_phase t' ≠ Hp_CommittedUnattached →
  (∀ o, tr_observed_target t' = Some o → validate_target t' g o = Ok ()) →
  wf_place (set_transition (Some t') d) t' c g h.
Proof.
  intros [] (Ec & Es & Et & Ep & Ew & Ed & Er) Hp Hp' Ho.
  assert (expected_active t' = expected_active t) as Ea
    by (rewrite !uncommitted_active by done; exact Es).
  assert (validate_committed t' c = validate_committed t c) as Ev.
  { unfold validate_committed. rewrite !bool_decide_eq_false_2 by done. by rewrite Et. }
  destruct wp_source. split; rewrite ?Ec, ?Es, ?Ew, ?Ea, ?Ev; try done.
  split; rewrite ?Ep, ?Ew, ?Ed, ?Er; done.
Qed.

Lemma retransition_step (V R : Prop) d t t' :
  wf_document d → cd_active_transition d = Some t → same_handoff t t' →
  tr_phase t ≠ Hp_CommittedUnattached → tr_phase t' ≠ Hp_CommittedUnattached →
  (V → wf_fields t → wf_fields t') →
  (V → ∀ c g o, find_conversation (tr_conversation_id t) d = Some c →
     find_generation (tr_source_generation t) c = Some g →
     tr_observed_target t' = Some o → wf_fields t → validate_target t' g o = Ok ()) →
  (R → transition_in_range t → transition_in_range t') →
  journal_step (journal_of d) (with_handoff (Some (handoff_of t')) (journal_of d)) →
  step_ok V R d (set_transition (Some t') d).
Proof.
  intros Hd Ht Hs Hp Hp' Hf Ho HR Hj. split; try done.
  - intros HV. split; [by destruct (wf_document_contents _ Hd)|]. intros t0 [= <-].
    destruct (wf_document_transition _ _ Hd Ht) as (? & Hft & c & g & h & Hpl).
    split_and!; [done|by apply Hf|]. exists c, g, h. eapply uncommitted_place; try done.
    intros o E. eapply Ho; try done; apply Hpl.
  - intros HR' []. split; try done. cbn. apply Forall_singleton, HR; [done|].
    rewrite Ht in dr_transition. by apply (Forall_singleton transition_in_range) in dr_transition.
Qed.

(** Before the fork is observed there is no target. *)
Lemma unobserved t :
  wf_fields t → tr_phase t ≠ Hp_ForkObserved → tr_phase t ≠ Hp_CommittedUnattached →
  tr_observed_target t = None.
Proof.
  intros Hf H1 H2. destruct (tr_observed_target t) eqn:E; [|done].
  destruct (proj1 (wt_observed _ Hf)) as [?|?]; [by rewrite E|done..].
Qed.

Lemma active_clock env d t now :
  env_ok env d → cd_active_transition d = Some t → unix_timestamp env = Ok now →
  0 ≤ now ∧ tr_updated_at t ≤ now.
Proof.
  intros [] Ht [Hs _]%unix_timestamp_Ok. split; [by apply eo_time|by eapply eo_clock].
Qed.

Lemma advance_step (V R : Prop) env id p d r d' p' :
  wf_document d → (V → env_ok env d) → (R → clock_in_range env) →
  (p, p') = (Hp_Prepared, Hp_SourceStopRequested) ∨
  (p, p') = (Hp_SourceStopRequested, Hp_SourceStopped) →
  advance_handoff_phase_tx env id p p' d = (Ok r, d') → step_ok V R d d'.
Proof.
  intros Hd HV HR Hpp H. unfold advance_handoff_phase_tx in H. inv_tx.
  apply exact_transition_at_Ok in Hok0 as [Ht Hp]. apply put_transition_Ok in H as [-> ->].
  rename a0 into t, a1 into now.
  assert (p ≠ Hp_ForkObserved ∧ p ≠ Hp_CommittedUnattached ∧ p' ≠ Hp_ForkObserved ∧
    p' ≠ Hp_CommittedUnattached ∧ fork_started p = false ∧ fork_started p' = false)
    as (? & ? & ? & ? & Hfp & Hfp') by (destruct Hpp as [[= -> ->]|[= -> ->]]; done).
  destruct (wf_document_transition _ _ Hd Ht) as (_ & Hft & _).
  assert (tr_observed_target t = None) as Hno by (apply unobserved; congruence).
  apply (retransition_step V R _ t); try done; [congruence|..].
  - intros HV' []. destruct (active_clock env _ _ _ (HV HV') Ht Hok) as [? ?]. split; try done; cbn.
    + lia.
    + unfold validate_fork_intent in *. cbn. rewrite Hp, Hfp in wt_fork. by rewrite Hfp'.
    + rewrite Hno. split; [by intros [? [=]]|naive_solver].
  - intros _ c g o _ _ Ho. cbn in Ho. congruence.
  - intros HR' (? & ? & ? & Hi & ?). destruct (i64_time env now (HR HR') Hok).
    split_and!; try done. rewrite Forall_app in *. destruct Hi as [Hi ?]. split; [|done].
    apply Forall_cons in Hi as [? _]. by repeat (constructor; [done|]).
  - destruct Hpp as [[= -> ->]|[= -> ->]];
      [apply (Js_stop_requested _ (handoff_of t))|apply (Js_stopped _ (handoff_of t))]; try done;
      cbn; by rewrite Ht.
Qed.

Lemma fork_intent_step (V R : Prop) env id baseline d r d' :
  wf_document d → (V → env_ok env d) → (R → clock_in_range env) →
  validate_thread_baseline baseline = Ok () →
  record_fork_intent_tx env id baseline d = (Ok r, d') → step_ok V R d d'.
Proof.
  intros Hd HV HR Hb H. unfold record_fork_intent_tx in H. inv_tx.
  apply exact_transition_at_Ok in Hok1 as [Ht Hp]. apply put_transition_Ok in H as [-> ->].
  rename a0 into t, a2 into now.
  destruct (wf_document_transition _ _ Hd Ht) as (_ & Hft & _).
  assert (tr_observed_target t = None) as Hno by (apply unobserved; congruence).
  inv_ok. rewrite !orb_false_iff, negb_Zeqb_false in Hok0. destruct Hok0 as [[Hat _] _].
  apply (retransition_step V R _ t); try done; [congruence|..].
  - intros HV' []. destruct (active_clock env _ _ _ (HV HV') Ht Hok) as [? ?]. split; try done; cbn.
    + lia.
    + unfold validate_fork_intent. cbn. rewrite (proj2 (reject_if_Ok _ _ ())); [done|].
      rewrite !orb_false_iff, !Z.ltb_ge. lia.
    + rewrite Hno. split; [by intros [? [=]]|naive_solver].
  - intros _ c g o _ _ Ho. cbn in Ho. congruence.
  - intros HR' (? & ? & ? & Hi & ?). destruct (i64_time env now (HR HR') Hok).
    split_and!; try done.
    apply Forall_cons in Hi as [? _]. repeat (apply Forall_cons; split; [done|]). constructor.
  - apply (Js_fork _ (handoff_of t)); [by cbn; rewrite Ht|done|done].
Qed.

Lemma fork_retry_step (V R : Prop) env id d r d' :
  wf_document d → (V → env_ok env d) → (R → clock_in_range env) →
  record_bounded_fork_retry_tx env id d = (Ok r, d') → step_ok V R d d'.
Proof.
  intros Hd HV HR H. unfold record_bounded_fork_retry_tx in H. inv_tx.
  apply exact_transition_at_Ok in Hok1 as [Ht Hp]. apply put_transition_Ok in H as [-> ->].
  rename a0 into t, a2 into now.
  destruct (wf_document_transition _ _ Hd Ht) as (_ & Hft & _).
  assert (tr_observed_target t = None) as Hno by (apply unobserved; congruence).
  inv_ok. rewrite !orb_false_iff, negb_Zeqb_false in Hok0. destruct Hok0 as [[Hat _] _].
  apply (retransition_step V R _ t); try done; cbn; try (intros; congruence).
  - intros HV' []. destruct (active_clock env _ _ _ (HV HV') Ht Hok) as [? ?]. split; try done; cbn.
    + lia.
    + unfold validate_fork_intent. cbn. rewrite Hp. cbn.
      rewrite (proj2 (reject_if_Ok _ _ ())); [done|]. rewrite !orb_false_iff, !Z.ltb_ge. lia.
  - intros HR' (? & ? & ? & Hi & ?). destruct (i64_time env now (HR HR') Hok).
    split_and!; try done.
    apply Forall_cons in Hi as [? _]. repeat (apply Forall_cons; split; [done|]). constructor.
  - unfold handoff_of. cbn. rewrite Hp.
    apply (Js_retry _ (handoff_of t)); [by cbn; rewrite Ht|done|done].
Qed.

Lemma thread_bound_false id d : thread_bound id d = false ↔ id ∉ threads d.
Proof.
  unfold thread_bound, threads. rewrite existsb_false. setoid_rewrite has_thread_false.
  rewrite list_elem_of_bind. naive_solver.
Qed.

Lemma observe_step (V R : Prop) env id target d r d' :
  wf_document d → (V → env_ok env d) → (R → clock_in_range env ∧ rollout_in_range (ht_rollout target)) →
  validate_uuid (ht_thread_id target) = Ok () →
  validate_stored_path (ht_canonical_cwd target) = Ok () →
  validate_codex_version (ht_codex_version target) = Ok () →
  validate_rollout (ht_rollout target) = Ok () →
  observe_handoff_target_tx env id target d = (Ok r, d') → step_ok V R d d'.
Proof.
  intros Hd HV HR Hu Hpa Hco Hro H. unfold observe_handoff_target_tx in H. inv_tx.
  apply put_transition_Ok in H as [-> ->]. inv_ok.
  rename a0 into t, a3 into source, a5 into now. apply exact_transition_Ok in Hok4 as Ht.
  apply negb_bool_decide_false in Hok3 as Hp.
  rewrite orb_false_iff, negb_eqb_false in Hok2. destruct Hok2 as [Hcwd Hfile].
  apply orb_false_iff in Hok0 as [Hsrc Hnew].
  destruct (wf_document_transition _ _ Hd Ht) as (_ & Hft & _).
  assert (∃ r, tr_fork_requested_at t = Some r ∧ tr_prepared_at t ≤ r ≤ tr_updated_at t ∧
    1 ≤ tr_fork_attempts t ≤ 2) as (req & Hreq & Hrange & Hatt).
  { pose proof (wt_fork _ Hft) as Hf. unfold validate_fork_intent in Hf. rewrite Hp in Hf.
    change (fork_started Hp_ForkRequested) with true in Hf. cbn iota in Hf.
    inv_ok. inv_bool. eexists. split; [done|]. lia. }
  apply (retransition_step V R _ t); try done; [cbn; congruence|..].
  - intros HV' []. destruct (active_clock env _ _ _ (HV HV') Ht Hok) as [? ?]. split; try done; cbn.
    + lia.
    + unfold validate_fork_intent. cbn. rewrite Hreq. cbn.
      rewrite (proj2 (reject_if_Ok _ _ ())); [done|].
      rewrite !orb_false_iff, !Z.ltb_ge, negb_false_iff, andb_true_iff, !Z.leb_le. lia.
    + split; [by left|by intros _; eexists].
  - intros HV' c g o Hc Hg [= <-] []. rewrite Hc in Hok1. cbn in Hok1. rewrite Hg in Hok1.
    injection Hok1 as ->.
    destruct (active_clock env _ _ _ (HV HV') Ht Hok) as [? ?].
    unfold validate_target, validate_observed_target. cbn.
    rewrite Hu, Hpa, Hco, Hro, (eo_version _ _ (HV HV')). cbn.
    rewrite (proj2 (Z.ltb_ge now 0)) by done. cbn.
    unfold at_phase, with_observation; cbn. rewrite Hsrc, Hfile, Hcwd, String.eqb_refl, Hreq. cbn.
    rewrite !(proj2 (Z.ltb_ge _ _)) by lia. done.
  - intros HR' (? & ? & ? & Hi & ?). destruct (HR HR') as [Hcl Hrr].
    destruct (i64_time env now Hcl Hok). cbn [at_phase with_observation].
    split_and!; try done.
    + cbn in *. apply Forall_cons in Hi as [? [_ Hi]%Forall_cons]. by repeat (apply Forall_cons; split).
    + apply Forall_singleton. by split.
  - apply (Js_observe _ (handoff_of t)); [by cbn; rewrite Ht|done|].
    rewrite (bound_threads _ _ _ (wf_document_contents _ Hd)). by apply thread_bound_false.
Qed.

Lemma finish_attachment_step (V R : Prop) id d hb d' :
  wf_document d → finish_handoff_attachment_tx id d = (Ok hb, d') → step_ok V R d d'.
Proof.
  intros Hd H. unfold finish_handoff_attachment_tx in H. inv_tx.
  apply exact_transition_Ok in Hok1 as Ht. apply reject_if_Ok, negb_bool_decide_false in Hok0 as Hp.
  split; try done.
  - intros _. split; [by destruct (wf_document_contents _ Hd)|]. by intros t [=].
  - intros _ []. by split.
  - intros _. change (journal_of (set_transition None d)) with (with_handoff None (journal_of d)).
    apply (Js_finish _ (handoff_of a0)); [by cbn; rewrite Ht|done].
Qed.

(** Filling in the source's trust domain and rollout. *)
Definition with_metadata (p : HandoffPreparation) (c : Conversation) : Conversation :=
  set_generations (update_first (fun g => cg_generation g =? cv_active_generation c)
    (set_handoff_metadata (hp_trust_domain_id p) (hp_source_rollout p))) c.

(** A lineage without metadata has a single generation. *)
Lemma single_generation c g :
  wf_conversation false c → g ∈ cv_generations c → cg_trust_domain_id g = None →
  cv_generations c = [g].
Proof.
  intros H Hg Hn. pose proof (wv_length _ _ H) as Hl.
  destruct (decide (1 < len (cv_generations c))) as [Hlt|].
  { by destruct (wg_multi _ _ _ (wv_generations _ _ H g Hg) eq_refl Hlt). }
  destruct (cv_generations c) as [|g0 [|g1 l]]; cbn in *; [by apply elem_of_nil in Hg| |].
  - apply list_elem_of_singleton in Hg. by subst.
  - unfold len in *. cbn in *. lia.
Qed.

Lemma with_metadata_wf p c g :
  wf_conversation false c → cv_generations c = [g] →
  validate_uuid (hp_trust_domain_id p) = Ok () → validate_rollout (hp_source_rollout p) = Ok () →
  cv_generations (with_metadata p c) =
    [set_handoff_metadata (hp_trust_domain_id p) (hp_source_rollout p) g] ∧
  wf_conversation false (with_metadata p c).
Proof.
  intros H Hc Hu Hr.
  assert (cg_generation g = 0) as Hg0 by (apply (wv_numbered _ _ H 0 g); by rewrite Hc).
  assert (cv_active_generation c = 0) as Ha by (rewrite (wv_active _ _ H), Hc; done).
  assert (cv_generations (with_metadata p c) =
    [set_handoff_metadata (hp_trust_domain_id p) (hp_source_rollout p) g]) as Hgs
    by (cbn; rewrite Hc; cbn; by rewrite Hg0, Ha).
  split; [done|]. destruct (wv_generations _ _ H g) as []; [rewrite Hc; by left|].
  destruct H. split; rewrite ?Hgs; try done.
  - intros [|i] g' Hi; [|done]. by injection Hi as <-.
  - intros g' ->%list_elem_of_singleton. split; try done.
    + by rewrite Hgs.
    + unfold validate_lineage_metadata. cbn. rewrite Hu, Hr. cbn. unfold lineage_domain.
      rewrite Hgs. cbn. by rewrite bool_decide_eq_true_2.
Qed.

(** The source generation as the transition will record it. *)
Definition bound_source (p : HandoffPreparation) (g g' : ConversationGeneration) : Prop :=
  cg_trust_domain_id g' = Some (hp_trust_domain_id p) ∧
  cg_rollout g' = Some (hp_source_rollout p) ∧ cg_generation g' = cg_generation g ∧
  cg_profile_id g' = cg_profile_id g ∧ cg_thread_id g' = cg_thread_id g ∧
  cg_canonical_cwd g' = cg_canonical_cwd g.

Lemma metadata_step (V R : Prop) p c g d u d1 :
  wf_document d → is_v1 d = false → cd_active_transition d = None →
  validate_uuid (hp_trust_domain_id p) = Ok () → validate_rollout (hp_source_rollout p) = Ok () →
  (R → rollout_in_range (hp_source_rollout p)) →
  c ∈ cd_conversations d → find_generation (cv_active_generation c) c = Some g →
  bind_source_metadata p c g d = (Ok u, d1) →
  step_ok V R d d1 ∧ journal_of d1 = journal_of d ∧
  cd_workspace_heads d1 = cd_workspace_heads d ∧
  cd_pending_launches d1 = cd_pending_launches d ∧ cd_active_transition d1 = None ∧
  ∃ c1 g1, find_conversation (cv_conversation_id c) d1 = Some c1 ∧
    find_generation (cv_active_generation c) c1 = Some g1 ∧ bound_source p g g1 ∧
    cv_active_generation c1 = cv_active_generation c ∧ cv_provider c1 = cv_provider c ∧
    len (cv_generations c1) = len (cv_generations c).
Proof.
  intros Hd Hv Ht Hu Hro HR Hin Hg H.
  pose proof (wf_document_contents _ Hd) as Hw. rewrite Hv in Hw.
  pose proof (wc_conversations _ _ Hw c Hin) as Hcw.
  assert (find_conversation (cv_conversation_id c) d = Some c) as Hfc
    by by apply (find_conversation_Some _ _ _ Hw).
  unfold bind_source_metadata in H.
  destruct (cg_trust_domain_id g) as [dom|] eqn:Hdom, (cg_rollout g) as [ro|] eqn:Hr; inv_tx.
  - apply reject_if_Ok, orb_false_iff in Hok as [->%negb_eqb_false ->%negb_bool_decide_false].
    split; [by apply step_ok_refl|]. split_and!; try done. exists c, g. split_and!; try done.
  - unfold update_conversation in H. inv_tx.
    pose proof (find_first_Some _ _ _ Hg) as [Hgin _].
    pose proof (single_generation c g Hcw Hgin Hdom) as Hsingle.
    destruct (with_metadata_wf p c g Hcw Hsingle Hu Hro) as [Hgs Hcw'].
    set (f := set_generations _) in *. change (f c) with (with_metadata p c) in *.
    set (P := fun c0 => String.eqb (cv_conversation_id c0) (cv_conversation_id c)) in *.
    assert (Hcwds : ∀ x, cg_canonical_cwd <$> cv_generations (f x) = cg_canonical_cwd <$> cv_generations x)
      by (intros x; by apply fmap_update).
    assert (Hths : ∀ x, conversation_threads (f x) = conversation_threads x)
      by (intros x; by apply fmap_update).
    assert (Hbs : ∀ x, binding_of <$> cv_generations (f x) = binding_of <$> cv_generations x)
      by (intros x; by apply fmap_update).
    assert (Hj : journal_of (set_conversations (update_first P f) d) = journal_of d).
    { unfold journal_of. cbn. by rewrite lineages_of_update. }
    assert (Hfind : ∀ id, find_conversation id (set_conversations (update_first P f) d) =
      if String.eqb id (cv_conversation_id c) then Some (f c) else find_conversation id d)
      by (intros id; by eapply find_conversation_update).
    split; [split; try done|split_and!; try done].
    + intros _. rewrite Hv. split; [|by intros t; cbn; rewrite Ht].
      apply contents_set_conversations; [done|..].
      * intros c' [?|(y & Hy & ->)]%elem_of_update; [by apply Hw|].
        unfold find_conversation in Hfc. unfold P in Hy. rewrite Hfc in Hy. by injection Hy as <-.
      * rewrite fmap_update by done. apply Hw.
      * rewrite bind_update by done. apply Hw.
      * intros h _ _ (id & c0 & Hid & Hc0 & ? & Hgen & Hp & Hlc).
        destruct (String.eqb_spec id (cv_conversation_id c)) as [->|Hne].
        { assert (c0 = c) as -> by congruence.
          exists (cv_conversation_id c), (f c). rewrite Hfind, String.eqb_refl.
          split_and!; try done. unfold lineage_cwd. by rewrite Hcwds. }
        exists id, c0. rewrite Hfind, (proj2 (String.eqb_neq _ _)) by done. by split_and!.
    + intros HR' []. split; try done. cbn. rewrite Forall_forall in *.
      intros c' [?|(y & Hy & ->)]%elem_of_update; [auto|].
      apply find_first_Some in Hy as [Hy _]. destruct (dr_conversations y Hy) as [? Hgr].
      split; [done|]. cbn. rewrite Forall_forall in *.
      intros g' [?|(z & Hz & ->)]%elem_of_update; [auto|].
      apply find_first_Some in Hz as [Hz _]. destruct (Hgr z Hz) as (? & ? & _).
      split_and!; try done. apply Forall_singleton. auto.
    + intros _. rewrite Hj. constructor.
    + exists (f c), (set_handoff_metadata (hp_trust_domain_id p) (hp_source_rollout p) g).
      rewrite Hfind, String.eqb_refl. split_and!; try done.
      * apply (@find_generation_Some _ false); [done|]. change (f c) with (with_metadata p c). rewrite Hgs.
        apply (@find_generation_Some _ false) in Hg as [? Hg]; [|done]. split; [done|]. rewrite Hsingle in Hg.
        destruct (Z.to_nat _) as [|i]; [done|]. by destruct i.
      * change (f c) with (with_metadata p c). by rewrite Hgs, Hsingle.
Qed.

Lemma resolve_head_Ok d cwd hb :
  resolve_head_document d cwd = Ok hb →
  in_transition cwd d = false ∧ pending_in cwd d = false ∧
  ∃ h c g, find_first (head_for Codex cwd) (cd_workspace_heads d) = Some h ∧
    wh_state h = Hs_Ready ∧ wh_conversation_id h = Some (cv_conversation_id c) ∧
    wh_generation h = Some (cg_generation g) ∧
    find_conversation (cv_conversation_id c) d = Some c ∧
    find_generation (cg_generation g) c = Some g ∧ hb = head_binding c g.
Proof.
  unfold resolve_head_document. intros H. inv_ok. split_and!; [done..|].
  rewrite negb_bool_decide_false in *.
  match goal with Hc : find_conversation ?id d = Some ?c |- _ =>
    pose proof (find_first_Some _ _ _ Hc) as [_ Hid%String.eqb_eq] end.
  match goal with Hg : find_generation ?n ?c = Some ?g |- _ =>
    pose proof (find_first_Some _ _ _ Hg) as [_ Hn%Z.eqb_eq] end.
  subst. by do 3 eexists.
Qed.

Lemma next_generation c g n :
  wf_conversation false c → find_generation (cv_active_generation c) c = Some g →
  checked_add_u u32_max (cg_generation g) 1 = Some n →
  cg_generation g = cv_active_generation c ∧ n = len (cv_generations c) ∧ n ≤ u32_max ∧
  0 ≤ cg_generation g.
Proof.
  intros H Hg Hn. pose proof (find_first_Some _ _ _ Hg) as [_ Ha%Z.eqb_eq].
  unfold checked_add_u in Hn. destruct (Z.leb_spec (cg_generation g + 1) u32_max); [|done].
  injection Hn as <-. pose proof (wv_active _ _ H). pose proof (wv_length _ _ H). lia.
Qed.

Lemma no_generation_beyond c n :
  wf_conversation false c → len (cv_generations c) ≤ n →
  existsb (fun g => cg_generation g =? n) (cv_generations c) = false.
Proof.
  intros H Hn. apply existsb_false. intros g [i Hi]%list_elem_of_lookup.
  apply Z.eqb_neq. rewrite (wv_numbered _ _ H _ _ Hi). apply lookup_lt_Some in Hi.
  unfold len in Hn. lia.
Qed.

Lemma journal_set_transition t d :
  journal_of (set_transition t d) = with_handoff (handoff_of <$> t) (journal_of d).
Proof. done. Qed.

(** The new transition in its place. *)
Lemma prepared_step (V R : Prop) env p d c g g1 h now :
  wf_document d → is_v1 d = false →
  (V → clock_in_range env ∧ validate_uuid (fresh_id env) = Ok ()) → (R → clock_in_range env) →
  (R → rollout_in_range (hp_source_rollout p)) → cd_active_transition d = None →
  validate_uuid (hp_target_profile_id p) = Ok () → validate_uuid (hp_trust_domain_id p) = Ok () →
  validate_rollout (hp_source_rollout p) = Ok () →
  cg_profile_id g ≠ hp_target_profile_id p → unix_timestamp env = Ok now →
  len (cv_generations c) ≤ u32_max →
  find_conversation (cv_conversation_id c) d = Some c →
  find_generation (cv_active_generation c) c = Some g1 → bound_source p g g1 →
  find_first (head_for Codex (cg_canonical_cwd g)) (cd_workspace_heads d) = Some h →
  wh_state h = Hs_Ready → wh_conversation_id h = Some (cv_conversation_id c) →
  wh_generation h = Some (cg_generation g) → pending_in (cg_canonical_cwd g) d = false →
  step_ok V R d (set_transition (Some
    (mkHandoffTransition (fresh_id env) (cv_conversation_id c) (cg_generation g)
      (len (cv_generations c)) (cg_profile_id g) (hp_target_profile_id p)
      (cg_canonical_cwd g) (hp_trust_domain_id p) (hp_reason p) (hp_source_rollout p)
      Hp_Prepared [] 0 None None now now)) d).
Proof.
  intros Hd Hv HV HR HRr Ht Hut Hud Hro Hne Hnow Hlen Hc Hg1 (Htd & Hr & Hgn & Hgp & Hgt & Hgc)
    Hh Hready Hhid Hhg Hpend.
  pose proof (wf_document_contents _ Hd) as Hw. rewrite Hv in Hw.
  pose proof (found_wf _ _ _ Hw Hc) as Hcw.
  pose proof (find_first_Some _ _ _ Hg1) as [Hg1in Hact%Z.eqb_eq].
  pose proof (wv_active _ _ Hcw) as Ha. pose proof (wv_generations _ _ Hcw _ Hg1in) as Hg1w.
  pose proof (wv_length _ _ Hcw) as Hl1.
  split; try done.
  - intros HV'. split; [rewrite Hv; by destruct Hw|]. intros t [= <-]. split; [done|]. split.
    + destruct (HV HV') as [Hcl Hid]. destruct Hg1w. destruct (i64_time env now Hcl Hnow).
      split; cbn; rewrite <- ?Hgp, <- ?Hgc; try done.
      * apply Hcw.
      * congruence.
      * lia.
      * split; [by intros [? [=]]|naive_solver].
    + exists c, g1, h. split; cbn; rewrite <- ?Hgn, ?Hact; try done.
      * unfold validate_committed. rewrite bool_decide_eq_false_2 by done.
        by apply reject_if_Ok, no_generation_beyond.
      * by rewrite (wv_provider _ _ Hcw).
      * rewrite Hhg, uncommitted_active by done. cbn. congruence.
  - intros HR' []. destruct (i64_time env now (HR HR') Hnow). split; try done. cbn.
    apply Forall_singleton. split_and!; cbn; try done.
    + repeat (apply Forall_cons; split); [unfold in_u32; lia..|constructor].
    + auto.
    + repeat (apply Forall_cons; split); [done..|constructor].
  - intros _. destruct (last (cv_generations c)) as [gl|] eqn:Hlast.
    2:{ apply last_None in Hlast. rewrite Hlast in Hl1. unfold len in Hl1. cbn in Hl1. lia. }
    assert (gl = g1) as ->.
    { destruct (active_generation c Hcw) as (g2 & Hg2 & _ & _ & Hl2). congruence. }
    rewrite journal_set_transition. unfold handoff_of. cbn [fmap option_fmap option_map].
    rewrite <- Hgc. apply (Js_prepare (journal_of d) (fresh_id env) (cv_conversation_id c)
      (lineage_of c) (binding_of g1)).
    + cbn. by rewrite Ht.
    + apply lineages_of_Some; [apply Hw|]. exists c. split_and!; try done.
      by apply find_first_Some in Hc as [? _].
    + unfold lineage_of. by rewrite fmap_last, Hlast.
    + cbn. by rewrite Hgp.
Qed.

Lemma prepare_handoff_step (V R : Prop) env p d t d' :
  wf_document d → is_v1 d = false → (V → env_ok env d) →
  (R → clock_in_range env ∧ rollout_in_range (hp_source_rollout p)) →
  validate_uuid (hp_target_profile_id p) = Ok () → validate_uuid (hp_trust_domain_id p) = Ok () →
  validate_rollout (hp_source_rollout p) = Ok () →
  hb_profile_id (hp_expected_source p) ≠ hp_target_profile_id p →
  prepare_handoff_tx env p d = (Ok t, d') → step_ok V R d d'.
Proof.
  intros Hd Hv HV HR Hut Hud Hro Hne H. unfold prepare_handoff_tx in H. inv_tx. inv_ok.
  rewrite ?orb_false_iff, ?negb_bool_decide_false, ?negb_Zeqb_false, ?negb_eqb_false in *.
  destruct_and?. subst.
  rename a4 into c, a6 into g, a9 into n, a10 into now, s8 into d1.
  apply resolve_head_Ok in Hok6 as (_ & _ & h & c0 & g0 & Hh & Hs & Hhid & Hhg & Hc0 & Hg0 & He).
  assert (Hid : hb_conversation_id (hp_expected_source p) = cv_conversation_id c0) by by rewrite He.
  assert (Hgn0 : hb_generation (hp_expected_source p) = cg_generation g0) by by rewrite He.
  rewrite Hid, Hc0 in Hok4. injection Hok4 as ->.
  pose proof (wf_document_contents _ Hd) as Hw. rewrite Hv in Hw.
  pose proof (found_wf _ _ _ Hw Hc0) as Hcw.
  destruct (next_generation c g n Hcw Hok2 Hok0) as (Hga & -> & Hle & _).
  pose proof (find_first_Some _ _ _ Hc0) as [Hin _].
  edestruct (metadata_step V R p c g d) as (Hstep & Hj & Hheads & Hpend & Ht1 & c1 & g1 & Hc1 & Hg1 &
    Hbs & Ha1 & Hp1 & Hl1); [done..| |exact Hin|exact Hok2|exact Htx8|]; [intros HR'; by apply HR|].
  assert (wf_document d1) as Hd1.
  { edestruct (metadata_step True False p c g d) as (Hst & _); [done..|exact Hin|exact Hok2|exact Htx8|].
    by eapply step_ok_document. }
  assert (cv_conversation_id c1 = cv_conversation_id c) as Hid1
    by (apply find_first_Some in Hc1 as [_ Hc1]; by apply String.eqb_eq in Hc1).
  eapply step_ok_after; [exact Hstep|done|done|].
  rewrite <- Hl1, <- Hid1. apply (prepared_step V R env p d1 c1 g g1 h now); try done.
  - unfold is_v1. by rewrite (so_schema _ _ _ _ Hstep).
  - intros HV'. destruct (HV HV') as []. by split.
  - intros HR'. by apply HR.
  - intros HR'. by apply HR.
  - congruence.
  - by rewrite Hl1.
  - by rewrite Hid1.
  - by rewrite Ha1.
  - rewrite Hheads. congruence.
  - congruence.
  - congruence.
  - unfold pending_in. rewrite Hpend, H0. exact Hok7.
Qed.

(** *** The commit *)

Lemma elem_of_update_key {A K} (key : A → K) (P : A → bool) f l x k :
  NoDup (key <$> l) → (∀ y, P y = true ↔ key y = k) →
  x ∈ update_first P f l → (x ∈ l ∧ P x = false) ∨ ∃ y, find_first P l = Some y ∧ x = f y.
Proof.
  intros Hn HP. induction l as [|z l IH]; cbn; [by intros ?%elem_of_nil|].
  apply NoDup_cons in Hn as [Hz Hn]. destruct (P z) eqn:Hpz.
  - intros [->|Hx]%elem_of_cons; [right; by eauto|left]. split; [by right|].
    destruct (P x) eqn:Hpx; [|done]. apply HP in Hpz, Hpx. destruct Hz. rewrite Hpz, <- Hpx.
    by apply list_elem_of_fmap_2.
  - intros [->|Hx]%elem_of_cons; [left; by split; [left|]|].
    destruct (IH Hn Hx) as [[? ?]|?]; [left; by split; [right|]|by right].
Qed.

(** Appending threads to one conversation. *)
Lemma bind_update_perm {A B} (f : A → list B) P (g : A → A) l x extra :
  find_first P l = Some x → f (g x) = f x ++ extra →
  update_first P g l ≫= f ≡ₚ extra ++ (l ≫= f).
Proof.
  intros (l1 & l2 & -> & _ & _ & ->)%find_first_split Hf.
  rewrite !bind_app. cbn. rewrite Hf. unfold mbind.
  rewrite <- !app_assoc. rewrite (app_assoc (list_bind _ _ f l1) (f x)).
  rewrite !app_assoc. f_equiv. rewrite (Permutation_app_comm _ extra). by rewrite app_assoc.
Qed.

(** The conversation after the commit. *)
Lemma commit_conversation_wf t o c g :
  wf_conversation false c → wf_fields t → wf_source t g →
  find_generation (tr_source_generation t) c = Some g →
  cv_active_generation c = tr_source_generation t →
  len (cv_generations c) < MAX_LINEAGE_GENERATIONS →
  validate_target t g o = Ok () →
  wf_conversation false (commit_conversation t o c) ∧
  tr_target_generation t = len (cv_generations c).
Proof.
  intros Hc Hf Hs Hg Ha Hlen Ho.
  assert (tr_target_generation t = len (cv_generations c)) as Htg
    by (rewrite (wt_target _ Hf), <- Ha, (wv_active _ _ Hc); lia).
  split; [|done]. pose proof (find_first_Some _ _ _ Hg) as [Hgin _].
  unfold validate_target, validate_observed_target in Ho. inv_ok.
  rewrite !orb_false_iff, negb_eqb_false in Ho. destruct Ho as [[[[[Hcwd _] _] _] _] _].
  assert (Hmeta : ∀ x, x ∈ cv_generations c → cg_trust_domain_id x ≠ None ∧ cg_rollout x ≠ None).
  { intros x Hx. destruct (decide (1 < len (cv_generations c))) as [Hlt|Hge].
    - by apply (wg_multi _ _ _ (wv_generations _ _ Hc x Hx)).
    - pose proof (wv_length _ _ Hc). destruct (cv_generations c) as [|y [|z l]];
        [by apply elem_of_nil in Hx| |unfold len in *; cbn in *; lia].
      apply list_elem_of_singleton in Hx as ->, Hgin as ->.
      by rewrite (ws_domain _ _ Hs), (ws_rollout _ _ Hs). }
  assert (lineage_domain c = Some (tr_trust_domain_id t)) as Hdom.
  { pose proof (wg_metadata _ _ _ (wv_generations _ _ Hc g Hgin)) as Hm.
    unfold validate_lineage_metadata in Hm. rewrite (ws_domain _ _ Hs), (ws_rollout _ _ Hs) in Hm.
    inv_ok. by apply negb_bool_decide_false in Hm. }
  set (c' := commit_conversation t o c).
  assert (cv_generations c' = cv_generations c ++ [committed_generation t o]) as Hgs by done.
  assert (lineage_domain c' = Some (tr_trust_domain_id t)) as Hdom'.
  { unfold lineage_domain in *. rewrite Hgs, omap_app. by destruct (omap _ _). }
  assert (lineage_cwd c' = lineage_cwd c) as Hcwd'.
  { unfold lineage_cwd. rewrite Hgs, fmap_app. pose proof (generation_cwd c g Hc Hgin) as Hl.
    unfold lineage_cwd in Hl. by destruct (cg_canonical_cwd <$> cv_generations c). }
  assert (len (cv_generations c') = len (cv_generations c) + 1) as Hlen'
    by (unfold len; rewrite Hgs, length_app; cbn; lia).
  destruct Hc. split; rewrite ?Hlen'; try done; try lia.
  - intros i x. rewrite Hgs. intros [?|[Hi Hx]]%lookup_app_Some; [by apply wv_numbered|].
    apply list_lookup_singleton_Some in Hx as [Hi' <-]. cbn. rewrite Htg. unfold len. lia.
  - cbn. rewrite Htg. lia.
  - intros x. rewrite Hgs. intros [Hx| ->%list_elem_of_singleton]%elem_of_app.
    + destruct (wv_generations x Hx). split; try done.
      * fold (lineage_cwd c'). by rewrite Hcwd'.
      * by rewrite Hdom', <- Hdom.
      * intros _ _. by apply Hmeta.
    + split; try done; cbn.
      * apply Hf.
      * lia.
      * change (lineage_cwd c' = Some (ot_canonical_cwd o)). rewrite Hcwd', Hcwd, <- (ws_cwd _ _ Hs).
        by apply (wg_cwd _ _ _ (wv_generations g Hgin)).
      * rewrite Hdom'. unfold validate_lineage_metadata. cbn.
        rewrite (wt_domain _ Hf), Hok4. cbn. by rewrite bool_decide_eq_true_2.
Qed.

(** The document a commit leaves. *)
Definition committed (d : ConversationDocument) (t : HandoffTransition) (c : Conversation)
    (o : ObservedHandoffTarget) (now : Z) : ConversationDocument :=
  set_transition (Some (at_phase Hp_CommittedUnattached now t))
    (set_heads (update_first (head_for (cv_provider c) (tr_canonical_cwd t))
                  (set_head_generation (tr_target_generation t)))
       (set_conversations (update_first (by_id (tr_conversation_id t)) (commit_conversation t o)) d)).

Lemma commit_handoff_Ok env id d hb d' :
  commit_handoff_tx env id d = (Ok hb, d') →
  ∃ t o c h now, cd_active_transition d = Some t ∧ tr_phase t = Hp_ForkObserved ∧
    tr_observed_target t = Some o ∧ ot_thread_id o ∉ threads d ∧
    find_conversation (tr_conversation_id t) d = Some c ∧
    cv_active_generation c = tr_source_generation t ∧
    len (cv_generations c) < MAX_LINEAGE_GENERATIONS ∧
    find_first (head_for (cv_provider c) (tr_canonical_cwd t)) (cd_workspace_heads d) = Some h ∧
    unix_timestamp env = Ok now ∧ d' = committed d t c o now.
Proof.
  unfold commit_handoff_tx, update_conversation. intros H. inv_tx.
  match goal with H : put_transition _ _ = _ |- _ => apply put_transition_Ok in H as [-> ->] end.
  inv_ok. rewrite ?orb_false_iff, ?negb_bool_decide_false, ?negb_Zeqb_false, ?Z.leb_gt,
    ?thread_bound_false in *. destruct_and?.
  match goal with H : exact_transition _ _ = Ok ?t |- _ => apply exact_transition_Ok in H; exists t end.
  do 4 eexists. by split_and!.
Qed.

(** Contents after the commit. *)
Lemma committed_contents d t c g h o now :
  wf_contents false d → wf_fields t → wf_place d t c g h → tr_phase t = Hp_ForkObserved →
  tr_observed_target t = Some o → ot_thread_id o ∉ threads d →
  len (cv_generations c) < MAX_LINEAGE_GENERATIONS →
  wf_contents false (committed d t c o now).
Proof.
  intros Hw Hf Hpl Hph Ho Hnew Hlen. pose proof Hpl as [].
  pose proof (found_wf _ _ _ Hw wp_conversation) as Hc.
  rewrite uncommitted_active in wp_active by (by rewrite Hph).
  destruct (commit_conversation_wf t o c g Hc Hf wp_source wp_generation wp_active Hlen) as [Hcw' Htg].
  { by apply wp_source. }
  set (d1 := set_conversations (update_first (by_id (tr_conversation_id t)) (commit_conversation t o)) d).
  assert (Hfind : ∀ id, find_conversation id d1 =
    if String.eqb id (cv_conversation_id c) then Some (commit_conversation t o c)
    else find_conversation id d) by (intros id; by eapply find_conversation_update).
  assert (lineage_cwd c = Some (tr_canonical_cwd t)) as Hcwd.
  { rewrite <- (ws_cwd _ _ wp_source). apply (@generation_cwd _ false c g); [done|].
    by apply find_first_Some in wp_generation as [? _]. }
  assert (lineage_cwd (commit_conversation t o c) = Some (tr_canonical_cwd t)) as Hcwd'.
  { rewrite <- Hcwd. unfold lineage_cwd in *. cbn. rewrite fmap_app.
    by destruct (cg_canonical_cwd <$> cv_generations c). }
  assert (cv_conversation_id c = tr_conversation_id t) as Hid
    by (apply find_first_Some in wp_conversation as [_ Hid]; by apply String.eqb_eq in Hid).
  assert (Hcs : ∀ x, x ∈ update_first (by_id (tr_conversation_id t)) (commit_conversation t o)
    (cd_conversations d) → wf_conversation false x).
  { intros x [?|(y & Hy & ->)]%elem_of_update; [by apply Hw|].
    assert (find_conversation (tr_conversation_id t) d = Some y) as Hy' by done.
    congruence. }
  split; try done.
  - cbn. rewrite fmap_update by done. apply Hw.
  - unfold threads. cbn. change (λ c0, cg_thread_id <$> cv_generations c0) with conversation_threads.
    rewrite (bind_update_perm conversation_threads _ _ _ c [ot_thread_id o]); [|done|].
    + cbn. constructor; [done|apply Hw].
    + unfold conversation_threads. cbn. by rewrite fmap_app.
  - cbn. intros x Hx. apply (elem_of_update_key head_key _ _ _ _ (cv_provider c, tr_canonical_cwd t))
      in Hx; [|apply Hw|intros y; apply head_for_iff].
    destruct Hx as [[Hx Hne]|(y & Hy & ->)].
    + pose proof (wc_heads _ _ Hw x Hx) as Hhx. destruct (wh_state x) eqn:Hs.
      2:{ unfold wf_head in *. by rewrite Hs in *. }
      apply (@ready_head_refers _ false); [done..|].
      apply (@ready_head_refers _ false) in Hhx as [Hp (id & c0 & Hi & Hc0 & ? & Hg0 & Hpr & Hl)];
        [|apply Hw|done].
      split; [done|]. exists id, c0. change (find_conversation id _) with (find_conversation id d1).
      rewrite Hfind. destruct (String.eqb_spec id (cv_conversation_id c)) as [->|?]; [|by split_and!].
      exfalso. rewrite Hid, wp_conversation in Hc0. injection Hc0 as <-.
      apply head_for_false in Hne. apply Hne. unfold head_key. congruence.
    + rewrite wp_head in Hy. injection Hy as <-.
      pose proof (find_first_Some _ _ _ wp_head) as [Hin Hkey%head_for_iff].
      pose proof (wc_heads _ _ Hw h Hin) as [Hp _].
      apply (@ready_head_refers _ false); [done|done|]. split; [done|].
      exists (tr_conversation_id t), (commit_conversation t o c).
      change (find_conversation _ _) with (find_conversation (tr_conversation_id t) d1).
      rewrite Hfind, Hid, String.eqb_refl. unfold head_key in Hkey. injection Hkey as Hk1 Hk2.
      split_and!; try done; [apply Hf|cbn; by rewrite Hk2].
  - cbn. rewrite fmap_update by done. apply Hw.
  - apply Hw.
  - apply Hw.
  - apply Hw.
Qed.

Lemma committed_place d t c g h o now :
  wf_contents false d → wf_fields t → wf_place d t c g h → tr_phase t = Hp_ForkObserved →
  tr_observed_target t = Some o → len (cv_generations c) < MAX_LINEAGE_GENERATIONS →
  tr_updated_at t ≤ now →
  wf_place (committed d t c o now) (at_phase Hp_CommittedUnattached now t)
    (commit_conversation t o c) g (set_head_generation (tr_target_generation t) h).
Proof.
  intros Hw Hf Hpl Hph Ho Hlen Hnow. pose proof Hpl as [].
  pose proof (found_wf _ _ _ Hw wp_conversation) as Hc.
  rewrite uncommitted_active in wp_active by (by rewrite Hph).
  pose proof (ws_target _ _ wp_source o Ho) as Hto.
  destruct (commit_conversation_wf t o c g Hc Hf wp_source wp_generation wp_active Hlen Hto) as [Hc' Htg].
  assert (expected_active (at_phase Hp_CommittedUnattached now t) = tr_target_generation t) as Hea
    by done.
  split; rewrite ?Hea; try done.
  - etransitivity; [by eapply (find_conversation_update false d _ _ c)|].
    assert (cv_conversation_id c = tr_conversation_id t) as ->; [|by cbn; rewrite String.eqb_refl].
    by apply find_first_Some in wp_conversation as [_ ?%String.eqb_eq].
  - apply (@find_generation_Some _ false) in wp_generation as [? Hg]; [|done].
    apply (@find_generation_Some _ false); [done|]. split; [done|]. cbn.
    by apply lookup_app_l_Some.
  - destruct wp_source. split; try done. cbn. intros o' Ho'. specialize (ws_target _ Ho').
    unfold validate_target in *. apply bind_unit_Ok in ws_target as [-> Hr]. cbn in *.
    apply reject_if_Ok in Hr. rewrite !orb_false_iff, !Z.ltb_ge in Hr. apply reject_if_Ok.
    rewrite !orb_false_iff, !Z.ltb_ge. cbn. destruct_and?. split_and!; try done. lia.
  - unfold validate_committed. rewrite bool_decide_eq_true_2 by done.
    cbn [at_phase tr_observed_target tr_target_generation]. rewrite Ho.
    cbn [ok_or mbind result_bind].
    rewrite (proj2 (@find_generation_Some _ false _ _ (committed_generation t o) Hc')).
    + cbn. rewrite !String.eqb_refl, !bool_decide_eq_true_2 by done. done.
    + split; [rewrite Htg; unfold len; lia|]. cbn. rewrite Htg. unfold len. rewrite Nat2Z.id.
      by apply list_lookup_middle.
  - cbn. rewrite find_update_same, wp_head; [done|]. intros x. done.
Qed.

Lemma committed_range d t c g h o now :
  wf_fields t → wf_place d t c g h → tr_observed_target t = Some o →
  cd_active_transition d = Some t → 0 ≤ tr_source_generation t → in_i64 now →
  document_in_range d → document_in_range (committed d t c o now).
Proof.
  intros Hf Hpl Ho Ht Hs Hnow []. rewrite Ht in dr_transition.
  apply (Forall_singleton transition_in_range) in dr_transition as (Hg & Hr & Ha & Hi & Hob).
  rewrite Ho in Hob. apply (Forall_singleton target_in_range) in Hob as [Hoi Hor].
  pose proof (wt_target_range _ Hf). pose proof (wt_target _ Hf).
  assert (in_u32 (tr_target_generation t)) as Htg by (unfold in_u32; lia).
  split; try done; cbn.
  - rewrite Forall_forall in *. intros x [?|(y & Hy & ->)]%elem_of_update; [auto|].
    apply find_first_Some in Hy as [Hy _]. destruct (dr_conversations y Hy) as [_ Hgs].
    split; [done|]. cbn. apply Forall_app. split; [done|]. apply Forall_singleton.
    split_and!; try done. by apply Forall_singleton.
  - rewrite Forall_forall in *. intros x [?|(y & Hy & ->)]%elem_of_update; [auto|].
    by apply Forall_singleton.
  - apply Forall_singleton. split_and!; try done.
    + cbn in *. apply Forall_cons in Hi as [? [_ ?]%Forall_cons]. by repeat (apply Forall_cons; split).
    + cbn. rewrite Ho. by apply Forall_singleton.
Qed.

Lemma lineages_of_extend l id f c extra :
  NoDup (cv_conversation_id <$> l) → find_first (by_id id) l = Some c →
  (∀ x, cv_conversation_id (f x) = cv_conversation_id x) →
  lineage_of (f c) = lineage_of c ++ extra →
  lineages_of (update_first (by_id id) f l) = <[id := lineage_of c ++ extra]> (lineages_of l).
Proof.
  intros Hn Hc Hf He. unfold lineages_of.
  unfold by_id in *. rewrite (to_map_update_first cv_conversation_id) by done. apply map_eq. intros i.
  rewrite lookup_fmap, lookup_alter, lookup_insert, lookup_fmap. case_decide as Hi; [|done].
  subst i. rewrite <- (find_first_to_map cv_conversation_id) by done.
  rewrite Hc. cbn. by rewrite He.
Qed.

Lemma committed_journal d t c g h o now :
  wf_contents false d → wf_fields t → wf_place d t c g h → tr_phase t = Hp_ForkObserved →
  tr_observed_target t = Some o → ot_thread_id o ∉ threads d →
  cd_active_transition d = Some t →
  journal_step (journal_of d) (journal_of (committed d t c o now)).
Proof.
  intros Hw Hf Hpl Hph Ho Hnew Ht. pose proof Hpl as [].
  pose proof (found_wf _ _ _ Hw wp_conversation) as Hc.
  assert (ot_canonical_cwd o = tr_canonical_cwd t) as Hcwd.
  { pose proof (ws_target _ _ wp_source o Ho) as Hto. unfold validate_target in Hto.
    apply bind_unit_Ok in Hto as [_ Hto]. apply reject_if_Ok in Hto.
    rewrite !orb_false_iff, negb_eqb_false in Hto. apply Hto. }
  destruct (active_generation c Hc) as (ga & Hga & _ & _ & Hlast).
  rewrite wp_active, uncommitted_active, wp_generation in Hga by (by rewrite Hph).
  injection Hga as <-.
  assert (journal_of (committed d t c o now) = mkJournal
    (<[tr_conversation_id t := lineage_of c ++
        [mkBinding (tr_target_profile_id t) (ot_thread_id o) (tr_canonical_cwd t)]]>
       (lineages (journal_of d)))
    (Some (ho_at Hp_CommittedUnattached (handoff_of t)))) as ->.
  { unfold journal_of. cbn. f_equal. apply lineages_of_extend; [apply Hw|done|done|].
    unfold lineage_of. cbn. rewrite fmap_app. cbn. by rewrite <- Hcwd. }
  apply (Js_commit (journal_of d) (handoff_of t) (lineage_of c) (binding_of g)).
  - cbn. by rewrite Ht.
  - done.
  - cbn. by rewrite Ho.
  - by rewrite (bound_threads _ _ _ Hw).
  - cbn. apply lineages_of_Some; [apply Hw|]. exists c.
    apply find_first_Some in wp_conversation as [? ?%String.eqb_eq]. done.
  - unfold lineage_of. by rewrite fmap_last, Hlast.
  - cbn. apply wp_source.
  - cbn. rewrite (ws_profile _ _ wp_source). apply Hf.
Qed.

Lemma commit_step (V R : Prop) env id d hb d' :
  wf_document d → (V → env_ok env d) → (R → clock_in_range env) →
  commit_handoff_tx env id d = (Ok hb, d') → step_ok V R d d'.
Proof.
  intros Hd HV HR H.
  apply commit_handoff_Ok in H as (t & o & c & h & now & Ht & Hph & Ho & Hnew & Hc & Ha & Hlen & Hh &
    Hnow & ->).
  destruct (wf_document_transition _ _ Hd Ht) as (Hv & Hf & c0 & g & h0 & Hpl).
  assert (c0 = c) as -> by (pose proof (wp_conversation _ _ _ _ _ Hpl); congruence).
  assert (h0 = h) as -> by (pose proof (wp_head _ _ _ _ _ Hpl); congruence).
  pose proof (wf_document_contents _ Hd) as Hw. rewrite Hv in Hw.
  pose proof (committed_contents d t c g h o now Hw Hf Hpl Hph Ho Hnew Hlen) as Hcont.
  split; try done.
  - intros HV'. destruct (active_clock env _ _ _ (HV HV') Ht Hnow) as [? ?]. rewrite Hv.
    split; [done|]. intros t' [= <-]. split; [done|]. split.
    + destruct Hf. split; try done; cbn; try lia; [|split; [by right|by rewrite Ho; eexists]].
      unfold validate_fork_intent in *. rewrite Hph in wt_fork.
      change (fork_started Hp_ForkObserved) with true in wt_fork. cbn in *.
      destruct (tr_fork_requested_at t) as [req|]; [|done]. cbn in *.
      apply reject_if_Ok in wt_fork. rewrite !orb_false_iff, !Z.ltb_ge in wt_fork.
      apply reject_if_Ok. rewrite !orb_false_iff, !Z.ltb_ge. destruct_and?. split_and!; try done. lia.
    + eexists _, _, _. by apply committed_place.
  - intros HR' Hdr. destruct (i64_time env now (HR HR') Hnow) as [? _].
    eapply committed_range; [exact Hf|exact Hpl|done|done| |done|done].
    pose proof (wp_generation _ _ _ _ _ Hpl) as Hg.
    apply (@find_generation_Some _ false) in Hg as [? _]; [done|exact (found_wf _ _ _ Hw Hc)].
  - intros _. by eapply committed_journal.
Qed.
End handoff.
