(* ===== verification/ConversationTheorems.v ===== *)
(** * The conversation journal: theorems about the registry

    [transactions_valid]: no accepted transaction is lost to validation.
    What a call does on the directory is in [ConversationDisk]. *)
From Stdlib Require Import Ascii.
From stdpp Require Import relations.
From S2P Require Import Prelude Interfaces Profiles Storage ConversationData ConversationOps.
From S2P Require Import ConversationStore ConversationProofs ConversationSpec ConversationSteps ConversationHandoff.

Open Scope Z_scope.

(** [sha2]: a digest is 32 bytes. *)
Class Sha256Law {SC : Sha256Crate} : Prop := {
  digest_length b : length (digest b) = 32%nat;
  digest_bytes b : Forall (fun x => 0 ≤ x ≤ 255) (digest b);
}.

Section theorems.
Context {UC : UuidCrate} {SC : Sha256Crate} {SL : Sha256Law} {JC : JsonCodec ConversationDocument}.

(** ** Migration *)

Lemma length_string_of_list l : String.length (String.string_of_list_ascii l) = length l.
Proof. induction l as [|c l IH]; cbn; congruence. Qed.

Lemma hex_digit_ok n : 0 ≤ n ≤ 15 → is_ascii_lower_hex (hex_digit n) = true.
Proof.
  intros H. unfold hex_digit.
  assert (Forall (fun i => is_ascii_lower_hex (default "0"%char (str_bytes "0123456789abcdef" !! i)) = true) (seq 0 16))
    as Hall by (repeat constructor).
  rewrite Forall_forall in Hall. apply Hall. apply elem_of_seq. lia.
Qed.

Lemma sha256_hex_ok b : is_sha256_hex (sha256_hex b) = true.
Proof using SL.
  unfold is_sha256_hex, sha256_hex, str_len, str_all, str_bytes.
  rewrite String.list_ascii_of_string_of_list_ascii.
  pose proof (digest_length b) as Hl. pose proof (digest_bytes b) as Hb.
  assert (∀ l, Forall (fun x => 0 ≤ x ≤ 255) l →
    forallb is_ascii_lower_hex (flat_map (fun byte => [hex_digit (Z.shiftr byte 4); hex_digit (Z.land byte 15)]) l) = true
    ∧ length (flat_map (fun byte => [hex_digit (Z.shiftr byte 4); hex_digit (Z.land byte 15)]) l) = (2 * length l)%nat) as Hg.
  { induction 1 as [|x l Hx _ [IH1 IH2]]; [done|]. cbn [flat_map app forallb length]. 
    rewrite !hex_digit_ok, IH1, IH2; [split; [done|lia]| |].
    - assert (Z.land x 15 = x mod 16) as -> by exact (Z.land_ones x 4 ltac:(lia)).
      pose proof (Z.mod_pos_bound x 16). lia.
    - rewrite Z.shiftr_div_pow2 by lia. split; [apply Z.div_pos; lia|].
      apply Z.lt_succ_r, Z.div_lt_upper_bound; lia. }
  destruct (Hg _ Hb) as [H1 H2]. rewrite H1, andb_true_r. apply Z.eqb_eq.
  rewrite length_string_of_list, H2, Hl. done.
Qed.

(** Schema v1 contents are schema v2 contents. *)
Lemma wf_conversation_v2 c : wf_conversation true c → wf_conversation false c.
Proof.
  intros []. specialize (wv_single eq_refl). split; try done. intros g Hg.
  destruct (wv_generations g Hg). split; try done.
  - destruct (lineage_metadata_v1 _ _ wg_metadata) as [Hd Hr].
    unfold validate_lineage_metadata. by rewrite Hd, Hr.
  - intros _ ?. lia.
Qed.

Lemma wf_contents_v2 d : wf_contents true d → wf_contents false d.
Proof. intros []. split; try done. intros c Hc. by apply wf_conversation_v2, wc_conversations. Qed.

(** What the migration keeps. *)
Definition same_content (d d' : ConversationDocument) : Prop :=
  cd_revision d' = cd_revision d ∧ cd_conversations d' = cd_conversations d ∧
  cd_workspace_heads d' = cd_workspace_heads d ∧
  cd_pending_launches d' = cd_pending_launches d ∧
  cd_active_transition d' = cd_active_transition d.

Lemma migrate_spec d d' :
  migrate d = Ok d' →
  (cd_schema_version d = SCHEMA_VERSION_V1 ∧ cd_schema_version d' = SCHEMA_VERSION_V2 ∧
     ∃ b, serialize_v1_document d = Ok b ∧ cd_pre_migration_backup d' =
       Some (mkPreMigrationBackup SCHEMA_VERSION_V1 (cd_revision d) (sha256_hex b)) ∧
     same_content d d') ∨
  (cd_schema_version d ≠ SCHEMA_VERSION_V1 ∧ d' = d).
Proof.
  unfold migrate. destruct (Z.eqb_spec (cd_schema_version d) SCHEMA_VERSION_V1).
  - intros H. inv_ok. left. repeat split; try done. by exists a.
  - intros H. inv_ok. by right.
Qed.

Lemma migrate_wf d d' :
  wf_document d → migrate d = Ok d' → wf_document d' ∧ is_v1 d' = false.
Proof using SL.
  intros Hd [(Hv & Hv' & b & Hb & Hm & Hr & Hc & Hh & Hp & Ht)|[Hv ->]]%migrate_spec.
  - unfold is_v1. rewrite Hv'. split; [|done]. right. split_and!; [done| | |].
    + exists (mkPreMigrationBackup SCHEMA_VERSION_V1 (cd_revision d) (sha256_hex b)).
      split; [done|]. split_and!; cbn; [done|lia|apply sha256_hex_ok].
    + destruct Hd as [(_ & _ & _ & Hw)|[Hne _]]; [|by rewrite Hv in Hne].
      apply wf_contents_v2 in Hw. destruct Hw. unfold wf_head, find_conversation, threads in *.
      split; unfold wf_head, find_conversation, threads; rewrite ?Hc, ?Hh, ?Hp; done.
    + destruct Hd as [(_ & _ & Hn & _)|[Hne _]]; [|by rewrite Hv in Hne]. intros t. rewrite Ht, Hn. done.
  - split; [done|]. by apply Z.eqb_neq.
Qed.

Lemma migrate_range d d' :
  document_in_range d → migrate d = Ok d' → document_in_range d'.
Proof.
  intros Hr [(Hv & Hv' & b & Hb & Hm & Hre & Hc & Hh & Hp & Ht)|[Hv ->]]%migrate_spec; [|done].
  destruct Hr. split; rewrite ?Hre, ?Hc, ?Hh, ?Hp, ?Ht, ?Hv', ?Hm; try done.
  apply Forall_singleton. by split.
Qed.

Lemma same_content_journal d d' : same_content d d' → journal_of d' = journal_of d.
Proof. intros (_ & Hc & _ & _ & Ht). unfold journal_of. by rewrite Hc, Ht. Qed.

Lemma migrate_same d d' : migrate d = Ok d' → same_content d d'.
Proof. intros [(_ & _ & b & _ & _ & H)|[_ ->]]%migrate_spec; done. Qed.

Lemma env_ok_same env d d' : same_content d d' → env_ok env d → env_ok env d'.
Proof. intros (_ & Hc & _ & Hp & Ht) []. split; rewrite ?Hc, ?Hp, ?Ht; done. Qed.

(** ** Every transaction *)

(** [fs::canonicalize] returns absolute paths without [.] and [..]. *)
Definition canonicalized (path : option CanonicalPath) : Prop :=
  ∀ c s, path = Some c → cp_str c = Some s → validate_stored_path s = Ok ().
Definition paths_ok (t : transaction) : Prop :=
  match t with
  | T_BeginLaunch _ cwd _ _ _ | T_MarkAmbiguous cwd | T_PrepareUntracked _ cwd _ =>
      canonicalized cwd
  | _ => True
  end.

(** The integers of the arguments are values of their types. *)
Definition arguments_in_range (t : transaction) : Prop :=
  match t with
  | T_BeginLaunch _ _ _ _ inventory => Forall thread_in_range inventory
  | T_PrepareHandoff p => rollout_in_range (hp_source_rollout p)
  | T_ObserveTarget _ target => rollout_in_range (ht_rollout target)
  | _ => True
  end.

Lemma canonicalized_Ok path s :
  canonicalized path → canonical_path_string path = Ok s → validate_stored_path s = Ok ().
Proof. unfold canonical_path_string. intros H Hs. inv_ok. by eapply H. Qed.

Lemma normalize_inventory_Ok l l' :
  normalize_inventory l = Ok l' →
  l' = sort_by thread_order l ∧ normalize_inventory l' = Ok l' ∧ len l' ≤ MAX_INVENTORY_THREADS.
Proof.
  unfold normalize_inventory. intros H. inv_ok.
  assert (len (sort_by thread_order l) = len l) as Hlen by (unfold len; by rewrite length_sort_by).
  assert (sort_by thread_order (sort_by thread_order l) = sort_by thread_order l) as Hid.
  { apply sort_by_id, sort_by_sorted.
    - intros x y z. unfold thread_order. apply str_le_trans.
    - intros x y. unfold thread_order. apply str_le_total. }
  rewrite Hlen, Hid, Hok, Hok0. inv_bool. by split_and!.
Qed.

Lemma new_launch_Ok env profile cwd mode version inventory p :
  new_launch env profile cwd mode version inventory = Ok p →
  (validate_adapter_version (CARGO_PKG_VERSION env) = Ok () → validate_uuid (fresh_id env) = Ok () →
   clock_in_range env → canonicalized cwd → wf_pending p) ∧
  (clock_in_range env → Forall thread_in_range inventory → pending_in_range p) ∧
  pl_launch_id p = fresh_id env.
Proof.
  unfold new_launch. intros H. inv_ok.
  match goal with H : normalize_inventory _ = Ok _ |- _ =>
    apply normalize_inventory_Ok in H as (Hs & Hn & Hl) end.
  match goal with H : unix_timestamp _ = Ok _ |- _ => rename H into Hnow end.
  match goal with H : canonical_path_string _ = Ok _ |- _ => rename H into Hcwd end.
  match goal with H : is_untracked _ = _ |- _ => rename H into Hmode end.
  split_and!; [| |done].
  - intros Hv Hu Hcl Hca. destruct (i64_time env _ Hcl Hnow) as [_ ?].
    unfold wf_pending, validate_pending. cbn [pl_launch_id pl_profile_id pl_canonical_cwd
      pl_adapter_version pl_started_at pl_pre_inventory pl_mode pl_codex_version existsb].
    rewrite Hu, (canonicalized_Ok _ _ Hca Hcwd), Hv, Hmode, Hn. cbn [mbind result_bind ok_or].
    match goal with H : validate_uuid profile = _ |- _ => rewrite H end.
    match goal with H : validate_codex_version _ = _ |- _ => rewrite H end.
    rewrite (proj2 (Z.ltb_ge _ 0)), (proj2 (Z.ltb_ge MAX_INVENTORY_THREADS _)) by done.
    cbn. by rewrite bool_decide_eq_true_2.
  - intros Hcl Hr. split; [by eapply i64_time|]. cbn. rewrite Hs, Forall_forall in *.
    intros x Hx. apply Hr. by rewrite elem_of_sort_by in Hx.
Qed.

Lemma new_untracked_Ok env profile cwd mode p :
  new_untracked env profile cwd mode = Ok p →
  (validate_adapter_version (CARGO_PKG_VERSION env) = Ok () → validate_uuid (fresh_id env) = Ok () →
   clock_in_range env → canonicalized cwd → wf_pending p) ∧
  (clock_in_range env → pending_in_range p) ∧ pl_launch_id p = fresh_id env.
Proof.
  unfold new_untracked. intros H. inv_ok.
  match goal with H : unix_timestamp _ = Ok _ |- _ => rename H into Hnow end.
  match goal with H : canonical_path_string _ = Ok _ |- _ => rename H into Hcwd end.
  match goal with H : negb (is_untracked _) = _ |- _ => apply negb_false_iff in H; rename H into Hmode end.
  split_and!; [| |done].
  - intros Hv Hu Hcl Hca. destruct (i64_time env _ Hcl Hnow) as [_ ?].
    unfold wf_pending, validate_pending. cbn [pl_launch_id pl_profile_id pl_canonical_cwd
      pl_adapter_version pl_started_at pl_pre_inventory pl_mode pl_codex_version existsb].
    rewrite Hu, (canonicalized_Ok _ _ Hca Hcwd), Hv, Hmode. cbn [mbind result_bind ok_or].
    match goal with H : validate_uuid profile = _ |- _ => rewrite H end.
    by rewrite (proj2 (Z.ltb_ge _ 0)).
  - intros Hcl. split; [by eapply i64_time|constructor].
Qed.

Lemma check_preparation_Ok p :
  check_preparation p = Ok () →
  validate_uuid (hp_target_profile_id p) = Ok () ∧ validate_uuid (hp_trust_domain_id p) = Ok () ∧
  validate_rollout (hp_source_rollout p) = Ok () ∧
  hb_profile_id (hp_expected_source p) ≠ hp_target_profile_id p.
Proof. unfold check_preparation. intros H. inv_ok. split_and!; try done. by apply String.eqb_neq. Qed.

Lemma ignore_Ok {A} (f : tx A) d u d' :
  ignore f d = (Ok u, d') → ∃ a, f d = (Ok a, d').
Proof. unfold ignore. intros H. inv_tx. by eexists. Qed.

Lemma plan_step (V R : Prop) env t f d u d' :
  plan env t = Ok f → wf_document d → (is_handoff t = true → is_v1 d = false) →
  (V → env_ok env d ∧ paths_ok t) → (R → clock_in_range env ∧ arguments_in_range t) →
  f d = (Ok u, d') → step_ok V R d d'.
Proof.
  intros Hf Hd Hv HV HR H.
  assert (HVe : V → env_ok env d) by (intros HV'; by apply HV).
  assert (HRc : R → clock_in_range env) by (intros HR'; by apply HR).
  destruct t; cbn in Hf; inv_ok; try (apply ignore_Ok in H as [r H]); cbn in Hv;
    try (specialize (Hv eq_refl)).
  - destruct (new_launch_Ok _ _ _ _ _ _ _ Hok) as (Hwf & Hr & Hid).
    eapply begin_launch_step; [done|exact H| |].
    + intros HV'. destruct (HV HV') as [[] Hp]. rewrite Hid. split; [by apply Hwf|done].
    + intros HR'. destruct (HR HR'). by apply Hr.
  - by eapply mark_pending_step.
  - by eapply mark_pending_step.
  - by eapply finish_launch_step.
  - by eapply adopt_step.
  - by eapply refresh_adopted_step.
  - eapply mark_ambiguous_step; [done|exact H|]. intros HV'. destruct (HV HV') as [_ Hp].
    by eapply canonicalized_Ok.
  - destruct (new_untracked_Ok _ _ _ _ _ Hok) as (Hwf & Hr & Hid).
    eapply prepare_untracked_step; [done|exact H| |].
    + intros HV'. destruct (HV HV') as [[] Hp]. rewrite Hid. split; [by apply Hwf|done].
    + intros HR'. destruct (HR HR'). by apply Hr.
  - apply check_preparation_Ok in Hok as (? & ? & ? & ?). by eapply prepare_handoff_step.
  - eapply advance_step; [done|exact HVe|exact HRc|by left|exact H].
  - eapply advance_step; [done|exact HVe|exact HRc|by right|exact H].
  - unfold check_fork_intent in Hok. inv_ok. by eapply fork_intent_step.
  - by eapply fork_retry_step.
  - unfold check_target in Hok. inv_ok. by eapply observe_step.
  - by eapply commit_step.
  - by eapply finish_attachment_step.
Qed.

Lemma next_revision_Ok d d' :
  next_revision d = Ok d' → d' = set_revision (cd_revision d + 1) d ∧ cd_revision d + 1 ≤ u64_max.
Proof.
  unfold next_revision, checked_add_u. intros H. inv_ok.
  destruct (Z.leb_spec (cd_revision d + 1) u64_max); [|done]. by simplify_eq.
Qed.

Lemma run_tx_Ok {A} (f : tx A) d a d' : run_tx f d = Ok (a, d') ↔ f d = (Ok a, d').
Proof. unfold run_tx. destruct (f d) as [[?|?] ?]; naive_solver. Qed.

(** The document the closure starts from. *)
Definition starting (t : transaction) (d : ConversationDocument)
    : result ConversationError ConversationDocument :=
  if is_handoff t then migrate d else Ok d.

Lemma starting_spec t d d0 :
  wf_document d → starting t d = Ok d0 →
  wf_document d0 ∧ (is_handoff t = true → is_v1 d0 = false) ∧ same_content d d0 ∧
  (document_in_range d → document_in_range d0).
Proof using SL.
  unfold starting. intros Hd H. destruct (is_handoff t).
  - destruct (migrate_wf _ _ Hd H). split_and!; [done..|by apply migrate_same|].
    intros. by eapply migrate_range.
  - injection H as <-. by split_and!.
Qed.

(** The document that is saved, from the step of the closure. *)
Lemma finished_spec (V R : Prop) d d0 d1 :
  wf_document d0 → same_content d d0 → step_ok V R d0 d1 → cd_revision d1 + 1 ≤ u64_max →
  let d' := set_revision (cd_revision d1 + 1) d1 in
  cd_revision d' = cd_revision d + 1 ∧
  (V → wf_document d') ∧ (R → document_in_range d0 → document_in_range d') ∧
  (wf_document d' → journal_step (journal_of d) (journal_of d')).
Proof.
  intros Hd0 Hs Hst Hr d'. pose proof Hst as []. split_and!.
  - cbn. destruct Hs as (<- & _). by rewrite so_revision.
  - intros HV. destruct (so_valid HV) as [Hc Ht].
    eapply wf_document_change; [exact Hd0|done|done|cbn; lia|by destruct Hc|].
    intros t E. destruct (Ht t E) as (? & ? & c & g & h & []). split_and!; [done..|].
    by exists c, g, h.
  - intros HR Hd. destruct (so_range HR Hd). split; try done. unfold in_u64 in *. cbn. lia.
  - intros Hd'. rewrite <- (same_content_journal _ _ Hs). apply so_journal.
    exact (wc_ids _ _ (wf_document_contents _ Hd')).
Qed.

Lemma run_Ok env t d d' :
  run env t d = Ok d' →
  ∃ f d0 u d1, plan env t = Ok f ∧ starting t d = Ok d0 ∧ f d0 = (Ok u, d1) ∧
    d' = set_revision (cd_revision d1 + 1) d1 ∧ cd_revision d1 + 1 ≤ u64_max.
Proof.
  unfold run. intros H. inv_ok.
  match goal with H : run_tx _ _ = Ok ?x |- _ => destruct x as [u d1]; apply run_tx_Ok in H end.
  match goal with H : next_revision _ = Ok _ |- _ => apply next_revision_Ok in H as [-> ?] end.
  do 4 eexists. by split_and!.
Qed.

(** C21. Whatever transaction of the interface a valid document accepts, with
    a clock that has not run behind the active handoff, fresh identifiers and
    canonical paths, the document it computes passes the full validation
    again - so [save] never rejects an accepted transaction - its revision is
    the next one, and the abstract journal takes one step. *)
Theorem transactions_valid env t d d' :
  validate_document d = Ok () → env_ok env d → paths_ok t → run env t d = Ok d' →
  validate_document d' = Ok () ∧ cd_revision d' = cd_revision d + 1 ∧
  journal_step (journal_of d) (journal_of d').
Proof using SL.
  rewrite !document_spec. intros Hd He Hp (f & d0 & u & d1 & Hf & H0 & H1 & -> & Hr)%run_Ok.
  destruct (starting_spec _ _ _ Hd H0) as (Hd0 & Hv & Hs & _).
  assert (Hst : step_ok True False d0 d1).
  { eapply plan_step; [exact Hf|done|done| |done|exact H1].
    intros _. split; [by eapply env_ok_same|done]. }
  destruct (finished_spec _ _ _ _ _ Hd0 Hs Hst Hr) as (? & Hw & _ & Hj). split_and!; auto.
Qed.
End theorems.
