(* ===== verification/ConversationDisk.v ===== *)
(** * The conversation journal: calls on the directory

    [call_atomic]: a mutating call, under any failure of any system call, is
    all or nothing; it leaves a registry and a backup that can be read again,
    and what it reports is what happened. [journal_history]: over any history
    of calls the stored document follows the abstract journal. *)
From stdpp Require Import relations.
From S2P Require Import Prelude Interfaces Profiles Storage ConversationData ConversationOps.
From S2P Require Import ConversationStore ConversationProofs ConversationSpec ConversationSteps ConversationHandoff ConversationTheorems.

Open Scope Z_scope.

Section disk.
Context {UC : UuidCrate} {SC : Sha256Crate} {SL : Sha256Law}.
Context {JC : JsonCodec ConversationDocument} {JR : JsonRoundTrip ConversationDocument document_in_range}.

(** A file that holds [d]. *)
Definition holds (b : bytes) (d : ConversationDocument) : Prop :=
  to_vec d = Some b ∧ len b ≤ MAX_REGISTRY_BYTES ∧ document_in_range d.

(** The backup a schema v2 document needs. *)
Definition backed_up (k : ConvDisk) (m : PreMigrationBackup) : Prop :=
  ∃ b d0, backup_file k = Some b ∧ holds b d0 ∧ validate_v1_document d0 = Ok () ∧
    sha256_hex b = pb_sha256 m ∧ pb_schema_version m = cd_schema_version d0 ∧
    pb_revision m = cd_revision d0.

(** The directory holds the valid document [d], with its backup. *)
Record recoverable (k : ConvDisk) (d : ConversationDocument) : Prop := {
  rec_file : match registry_file k with None => d = default_document | Some b => holds b d end;
  rec_valid : wf_document d;
  rec_backup : ∀ b, backup_file k = Some b → ∃ d0, holds b d0 ∧ validate_v1_document d0 = Ok ();
  rec_metadata : ∀ m, cd_pre_migration_backup d = Some m → backed_up k m;
}.

Lemma recoverable_range k d : recoverable k d → document_in_range d.
Proof.
  intros [Hf _ _ _]. destruct (registry_file k); [by destruct Hf as (_ & _ & ?)|]. subst.
  split; cbn; try apply Forall_nil_2; by split.
Qed.

Lemma read_limited_id b : len b ≤ MAX_REGISTRY_BYTES → read_limited MAX_REGISTRY_BYTES b = b.
Proof. unfold read_limited, len, MAX_REGISTRY_BYTES. intros H. apply take_ge. lia. Qed.

(** What a call that only reads or locks leaves alone. *)
Definition same_files (k k' : ConvDisk) : Prop :=
  registry_file k' = registry_file k ∧ backup_file k' = backup_file k.

Lemma same_files_recoverable k k' d : same_files k k' → recoverable k d → recoverable k' d.
Proof.
  intros [Hr Hb] []. split; rewrite ?Hr, ?Hb; try done.
  intros m Hm. unfold backed_up. rewrite Hb. by apply rec_metadata0.
Qed.

#[export] Instance same_files_preorder : PreOrder same_files.
Proof. split; [by intros k|]. intros k1 k2 k3 [??] [??]. split; congruence. Qed.

(** Programs that leave both files alone. *)
Definition harmless {A} (m : cs A) : Prop := ∀ k r k', m k = (r, k') → same_files k k'.

Lemma harmless_ret {A} (a : A) : harmless (mret a).
Proof. by intros k r k' [= <- <-]. Qed.
Lemma harmless_bind {A B} (m : cs A) (f : A → cs B) :
  harmless m → (∀ a, harmless (f a)) → harmless (m ≫= f).
Proof.
  intros Hm Hf k r k' H. unfold mbind, stM_bind in H. destruct (m k) as [[a|e] k1] eqn:E.
  - etrans; [exact (Hm _ _ _ E)|exact (Hf a _ _ _ H)].
  - simplify_eq. exact (Hm _ _ _ E).
Qed.
Lemma harmless_lift {A} (x : result ConversationError A) : harmless (lift_result x).
Proof. by intros k r k' [= <- <-]. Qed.
Lemma harmless_get : harmless get_st.
Proof. by intros k r k' [= <- <-]. Qed.
Lemma harmless_modify f : (∀ k, same_files k (f k)) → harmless (modify_st f).
Proof. by intros Hf k r k' [= <- <-]. Qed.
Lemma harmless_throw {A} e : harmless (throw (A := A) e).
Proof. by intros k r k' [= <- <-]. Qed.
Lemma harmless_sys host s : harmless (sys host s).
Proof. unfold sys. destruct (io_fails host s); [apply harmless_throw|apply harmless_ret]. Qed.

Ltac harmless :=
  repeat first
    [ apply harmless_ret | apply harmless_get | apply harmless_sys | apply harmless_throw
    | apply harmless_lift | (apply harmless_modify; done)
    | (apply harmless_bind; [|intros]) | case_match ].

Lemma verify_backup_harmless host m : harmless (verify_pre_migration_backup host m).
Proof. unfold verify_pre_migration_backup, read_private, verify_private_regular_file. harmless. Qed.
Lemma load_harmless host : harmless (load host).
Proof.
  unfold load, read_private, verify_private_regular_file. harmless.
Qed.
Lemma locked_harmless host : harmless (locked host).
Proof.
  unfold locked, verify_private_directory, open_lock, verify_private_regular_file. harmless.
Qed.

(** What reading a file of a directory returns. *)
Lemma read_private_Ok host f k r k' :
  read_private host f k = (Ok r, k') → k' = k ∧ r = read_limited MAX_REGISTRY_BYTES <$> file_of f k.
Proof.
  unfold read_private, sys, verify_private_regular_file. run_st.
  destruct (io_fails host (Cs_StatFile f)); [done|]. cbn.
  destruct (file_of f k) as [b|]; [|by intros [= <- <-]].
  destruct (check_private_regular_file _ _); [|done].
  destruct (io_fails host (Cs_ReadFile f)); [done|]. by intros [= <- <-].
Qed.

Lemma holds_read b d :
  holds b d → read_limited MAX_REGISTRY_BYTES b = b ∧ from_slice b = Some d.
Proof using JR.
  intros (Hb & Hl & Hr). split; [by apply read_limited_id|].
  by apply (from_slice_to_vec (in_range := document_in_range)).
Qed.

(** A load that succeeds returns the stored document. *)
Lemma load_Ok host k d d' k' :
  recoverable k d → load host k = (Ok d', k') → d' = d ∧ same_files k k'.
Proof using JR.
  intros [Hf _ _ _] H. split; [|exact (load_harmless host k _ _ H)].
  unfold load in H. apply stM_bind_Ok in H as (file & k1 & H1 & H).
  apply read_private_Ok in H1 as [-> ->]. cbn [file_of] in H.
  destruct (registry_file k) as [b|]; cbn [fmap option_fmap option_map] in H.
  - destruct (holds_read _ _ Hf) as [Hlim Hd]. rewrite Hlim, Hd in H.
    inv_tx. cbn [ok_or] in Htx0. by injection Htx0 as <- <-.
  - subst. by injection H as <- <-.
Qed.

Lemma locked_Ok host k d d' k' :
  recoverable k d → locked host k = (Ok d', k') → d' = d ∧ same_files k k'.
Proof using JR.
  intros Hrec H. split; [|exact (locked_harmless host k _ _ H)].
  unfold locked in H. inv_tx.
  assert (∀ A (m : cs A) k1 r k2, harmless m → m k1 = (r, k2) → recoverable k1 d → recoverable k2 d)
    as Hstep by (intros; eapply same_files_recoverable; eauto).
  eapply load_Ok in H as [-> _]; [done|].
  eapply Hstep; [|exact Htx1|].
  { unfold sys. harmless. }
  eapply Hstep; [|exact Htx0|].
  { unfold open_lock, verify_private_regular_file. harmless. }
  eapply Hstep; [|exact Htx|done]. unfold verify_private_directory. harmless.
Qed.

(** What a read that succeeds returns. *)
Lemma read_harmless {A} host (f : ConversationDocument → result ConversationError A) :
  harmless (read host f).
Proof.
  unfold read, verify_private_directory, open_lock, verify_private_regular_file, load, read_private,
    verify_pre_migration_backup. harmless.
Qed.
Lemma read_Ok {A} host (f : ConversationDocument → result ConversationError A) k d a k' :
  recoverable k d → read host f k = (Ok a, k') → f d = Ok a ∧ same_files k k'.
Proof using JR.
  intros Hrec H. split; [|exact (read_harmless host f k _ _ H)].
  unfold read in H. apply stM_bind_Ok in H as (k0 & ? & [= <- <-] & H).
  destruct (conv_root k); [|done].
  apply stM_bind_Ok in H as (u0 & k1 & H0 & H). apply stM_bind_Ok in H as (u1 & k2 & H1 & H).
  apply stM_bind_Ok in H as (u2 & k3 & H2 & H). apply stM_bind_Ok in H as (d' & k4 & Hl & H).
  eapply (load_Ok _ k3 d) in Hl as [-> _]; [by injection H|].
  assert (∀ B (m : cs B) k1 r k2, harmless m → m k1 = (r, k2) → recoverable k1 d → recoverable k2 d)
    as Hstep by (intros; eapply same_files_recoverable; eauto).
  eapply Hstep; [|exact H2|]; [apply harmless_sys|].
  eapply Hstep; [|exact H1|]; [unfold open_lock, verify_private_regular_file; harmless|].
  eapply Hstep; [|exact H0|done]. unfold verify_private_directory. harmless.
Qed.
Lemma try_lock_harmless host opened visible cloexec answer :
  harmless (try_lock_handoff_coordinator host opened visible cloexec answer).
Proof. unfold try_lock_handoff_coordinator, verify_private_directory. harmless. Qed.

(** What publishing a file does. *)
Definition with_file (f : ConversationFile) (b : bytes) (k k' : ConvDisk) : Prop :=
  match f with
  | Cf_Registry => registry_file k' = Some b ∧ backup_file k' = backup_file k
  | Cf_Backup => backup_file k' = Some b ∧ registry_file k' = registry_file k
  end.

Lemma publish_effect host f b k r k' :
  publish host f b k = (r, k') →
  (r = Ok () ∧ with_file f b k k') ∨ (∃ e, r = Err e ∧ same_files k k').
Proof.
  assert (Hremove : ∀ k1, same_files k1 (remove_exact_temporary host f k1)).
  { intros k1. unfold remove_exact_temporary. by repeat case_match. }
  assert (Hpub : ∀ r1 k1, publication host f b k = (r1, k1) →
    (r1 = Ok () ∧ with_file f b k k1) ∨ (∃ e, r1 = Err e ∧ same_files k k1)).
  { intros r1 k1. unfold publication, sys, verify_private_regular_file. run_st.
        destruct (io_fails host (Cs_Create f)); [intros [= <- <-]; right; by eexists|].
    destruct (io_fails host (Cs_Write f)); [intros [= <- <-]; right; by eexists|].
    destruct (io_fails host (Cs_Sync f)); [intros [= <- <-]; right; by eexists|].
    destruct (check_private_regular_file _ _); [|intros [= <- <-]; right; by eexists].
    destruct (io_fails host (Cs_Rename f)); [intros [= <- <-]; right; by eexists|].
    intros [= <- <-].
    left. split; [done|]. by destruct f. }
  unfold publish. destruct (publication host f b k) as [[u|e] k1] eqn:E; intros [= <- <-].
  - by destruct u, (Hpub _ _ eq_refl) as [?|(? & [=] & _)]; left.
  - destruct (Hpub _ _ eq_refl) as [[[=] _]|(e' & [= <-] & Hs)].
    right. exists e. split; [done|]. by etrans.
Qed.

(** What saving does: all, all but unconfirmed, or nothing. *)
Lemma save_effect host d k r k' :
  document_in_range d → (∀ m, cd_pre_migration_backup d = Some m → backed_up k m) →
  (∀ b, backup_file k = Some b → ∃ d0, holds b d0 ∧ validate_v1_document d0 = Ok ()) →
  save host d k = (r, k') →
  (validate_document d = Ok () ∧ recoverable k' d ∧ (r = Ok () ∨ r = Err CE_CommitUncertain))
  ∨ (∃ e, r = Err e ∧ same_files k k').
Proof.
  intros Hr Hm Hb H. unfold save in H. run_st in H.
  destruct (validate_document d) as [[]|e] eqn:Hv; [|injection H as <- <-; right; by eexists].
  destruct (to_vec d) as [b|] eqn:Hto; cbn [ok_or] in H; [|injection H as <- <-; right; by eexists].
  unfold reject_if in H. destruct (Z.ltb_spec MAX_REGISTRY_BYTES (len b)) as [|Hlen]; [injection H as <- <-; right; by eexists|].
  destruct (publish host Cf_Registry b k) as [r1 k1] eqn:E.
  apply publish_effect in E as [[-> [Hreg Hbak]]|(e & -> & Hs)]; [|injection H as <- <-; right; by eexists].
  assert (Hrec : recoverable k1 d).
  { split; rewrite ?Hreg, ?Hbak; [done|by apply document_spec|done|].
    intros m E. destruct (Hm m E) as (b0 & d0 & ?). exists b0, d0. by rewrite Hbak. }
  left. split; [done|]. destruct (io_fails host (Cs_SyncRoot Cf_Registry)).
  - unfold confirm_uncertain_commit in H. destruct (load host k1) as [r2 k2] eqn:El.
    injection H as <- <-. split; [|by right].
    exact (same_files_recoverable _ _ _ (load_harmless _ _ _ _ El) Hrec).
  - injection H as <- <-. by split; [|left].
Qed.
(** The backup file, when present, is a valid schema v1 document. *)
Definition backup_sound (k : ConvDisk) : Prop :=
  ∀ b, backup_file k = Some b → ∃ d0, holds b d0 ∧ validate_v1_document d0 = Ok ().

Lemma serialize_v1_Ok d b :
  serialize_v1_document d = Ok b →
  validate_v1_document d = Ok () ∧ to_vec d = Some b ∧ len b ≤ MAX_REGISTRY_BYTES.
Proof.
  unfold serialize_v1_document. intros H. inv_ok. split_and!; [done..|]. by apply Z.ltb_ge.
Qed.

Lemma validate_v1_schema d :
  validate_v1_document d = Ok () →
  cd_schema_version d = SCHEMA_VERSION_V1 ∧ cd_pre_migration_backup d = None.
Proof.
  unfold validate_v1_document. intros H. inv_ok.
  rewrite !orb_false_iff, !negb_bool_decide_false, negb_Zeqb_false in Hok. tauto.
Qed.

Lemma sync_backup_spec host k r k' :
  sync_backup_directory host k = (r, k') → k' = k.
Proof. unfold sync_backup_directory. by destruct (io_fails _ _); intros [= _ <-]. Qed.

Lemma existing_backup_Ok k d m :
  backup_sound k →
  existing_backup d m (read_limited MAX_REGISTRY_BYTES <$> backup_file k) = Ok true →
  ∃ b, backup_file k = Some b ∧ holds b d.
Proof using JR.
  intros Hb H. destruct (backup_file k) as [b|] eqn:Hk; cbn in H; [|done].
  destruct (Hb _ Hk) as (d0 & Hd0 & _). destruct (holds_read _ _ Hd0) as [Hlim Hd].
  rewrite Hlim, Hd in H. unfold ok_or in H. inv_ok.
  apply andb_true_iff in H as [->%bool_decide_eq_true _]. by exists b.
Qed.

Lemma read_private_harmless host f : harmless (read_private host f).
Proof. unfold read_private, verify_private_regular_file. harmless. Qed.

(** What saving the backup of [d] does: the registry file stays, and the
    backup holds [d] when the call reports success. *)
Lemma save_backup_spec host d m k r k' :
  backup_sound k → document_in_range d →
  save_pre_migration_backup host d m k = (r, k') →
  registry_file k' = registry_file k ∧ backup_sound k' ∧ (r = Ok () → backed_up k' m).
Proof using JR.
  intros Hb Hr H. unfold save_pre_migration_backup in H.
  unfold mbind at 1 in H. unfold stM_bind at 1, lift_result at 1 in H.
  destruct (serialize_v1_document d) as [b|e] eqn:Hser; [|by injection H as <- <-].
  unfold mbind at 1 in H. unfold stM_bind at 1, lift_result at 1 in H.
  destruct (reject_if _ _) as [u|e] eqn:Hmeta; [|by injection H as <- <-].
  apply serialize_v1_Ok in Hser as (Hv & Hto & Hlen).
  assert (Hm : ∀ k1, backup_file k1 = Some b → backed_up k1 m).
  { intros k1 Hk1. inv_ok. rewrite !orb_false_iff, !negb_Zeqb_false, negb_eqb_false in Hmeta.
    destruct (validate_v1_schema _ Hv), Hmeta as [[??] ?]. exists b, d. split_and!; congruence || done. }
  clear Hmeta. unfold mbind at 1 in H. unfold stM_bind at 1 in H.
  destruct (read_private host Cf_Backup k) as [[file|e] k1] eqn:Hread.
  2:{ injection H as <- <-. destruct (read_private_harmless _ _ _ _ _ Hread) as [-> Hb'].
      unfold backup_sound. by rewrite Hb'. }
  apply read_private_Ok in Hread as [-> ->]. cbn [file_of] in H.
  unfold mbind at 1 in H. unfold stM_bind at 1, lift_result at 1 in H.
  destruct (existing_backup d m _) as [[]|e] eqn:Hex; [..|by injection H as <- <-].
  - apply sync_backup_spec in H as ->. split_and!; [done..|]. intros _.
    destruct (existing_backup_Ok _ _ _ Hb Hex) as (b1 & Hk & Hto' & _). apply Hm. congruence.
  - unfold mbind, stM_bind in H. destruct (publish host Cf_Backup b k) as [r1 k1] eqn:Hpub.
    apply publish_effect in Hpub as [[-> [Hk1 Hreg]]|(e & -> & Hreg & Hk1)].
    + apply sync_backup_spec in H as ->. split_and!; [done| |by intros; apply Hm].
      intros b1 Hb1. exists d. rewrite Hk1 in Hb1. by simplify_eq.
    + injection H as <- <-. unfold backup_sound. by rewrite Hk1.
Qed.
(** ** Calls *)

(** A committed change: what the call computes, with the next revision, one
    step of the journal away. *)
Definition advanced (computed : result ConversationError ConversationDocument)
    (d d' : ConversationDocument) : Prop :=
  computed = Ok d' ∧ cd_revision d' = cd_revision d + 1 ∧
  journal_step (journal_of d) (journal_of d').

(** All, nothing, or everything but the confirmation. *)
Definition outcome {A} (computed : result ConversationError ConversationDocument)
    (d : ConversationDocument) (r : result ConversationError A) (k' : ConvDisk) : Prop :=
  ∃ d', recoverable k' d' ∧
    match r with
    | Ok _ => advanced computed d d'
    | Err e => d' = d ∨ (e = CE_CommitUncertain ∧ advanced computed d d')
    end.

Lemma outcome_same {A} c k k' d e :
  recoverable k d → same_files k k' → outcome c d (Err e : result ConversationError A) k'.
Proof. intros Hrec Hs. exists d. split; [by eapply same_files_recoverable|by left]. Qed.

Lemma recoverable_backup k d : recoverable k d → backup_sound k.
Proof. by intros []. Qed.

(** A call that goes through a step, or stops at it. *)
Lemma stM_bind_cases {S E A B} (m : stM S E A) (f : A → stM S E B) k r k' :
  (m ≫= f) k = (r, k') →
  (∃ e, m k = (Err e, k') ∧ r = Err e) ∨ (∃ a k1, m k = (Ok a, k1) ∧ f a k1 = (r, k')).
Proof. intros [H|H]%stM_bind_inv; auto. Qed.
Lemma lift_bind_inv {S E A B} (x : result E A) (f : A → stM S E B) k r k' :
  (lift_result x ≫= f) k = (r, k') →
  (∃ e, x = Err e ∧ r = Err e ∧ k' = k) ∨ (∃ a, x = Ok a ∧ f a k = (r, k')).
Proof. unfold mbind, stM_bind, lift_result. destruct x as [a|e]; [|intros [= <- <-]]; eauto. Qed.

(** Saving the document of a committed change. *)
Lemma save_outcome {A} c host k d d' (a : A) r k' :
  recoverable k d → document_in_range d' → (wf_document d' → advanced c d d') →
  (∀ m, cd_pre_migration_backup d' = Some m → backed_up k m) →
  (_ ← save host d'; mret a) k = (r, k') → outcome c d r k'.
Proof.
  intros Hrec Hr Hadv Hm H. apply stM_bind_cases in H as [(e & H & ->)|([] & k1 & H & [= <- <-])];
    apply save_effect in H as [(Hv & Hrec' & Hc)|(e' & Hc & Hs)];
    try done; try by eapply recoverable_backup.
  - exists d'. split; [done|]. right. destruct Hc as [[=]|[= ->]]. by apply document_spec, Hadv in Hv.
  - by eapply outcome_same.
  - exists d'. split; [done|]. by apply document_spec, Hadv in Hv.
Qed.

Lemma transact_outcome {A} host (f : tx A) k d r k' :
  recoverable k d → (∀ a d1, f d = (Ok a, d1) → step_ok False True d d1) →
  transact host f k = (r, k') →
  outcome (changed ← run_tx f d; next_revision (snd changed)) d r k'.
Proof using JR.
  intros Hrec Hf H. unfold transact in H.
  apply stM_bind_cases in H as [(e & H & ->)|(a & k1 & Hl & H)];
    [eapply outcome_same; [done|by eapply locked_harmless]|].
  destruct (locked_Ok _ _ _ _ _ Hrec Hl) as [-> Hs].
  pose proof (same_files_recoverable _ _ _ Hs Hrec) as Hrec'. clear Hl Hs.
  apply lift_bind_inv in H as [(e & _ & -> & ->)|([v d1] & Hrun & H)]; [by eapply outcome_same|].
  apply lift_bind_inv in H as [(e & _ & -> & ->)|(d' & Hnext & H)]; [by eapply outcome_same|].
  cbn [fst snd] in *. destruct (next_revision_Ok _ _ Hnext) as [Hd' Hmax].
  pose proof (Hf _ _ (proj1 (run_tx_Ok _ _ _ _) Hrun)) as Hst.
  assert (Hd0 : same_content d d) by done.
  destruct (finished_spec _ _ _ _ _ (rec_valid _ _ Hrec) Hd0 Hst Hmax) as (Hrev & _ & Hr & Hj).
  rewrite <- Hd' in *. eapply save_outcome; [exact Hrec'|by apply Hr; [|by eapply recoverable_range]|intros Hw; split; [by rewrite Hrun|]; split; [done|by apply Hj]| |exact H].
  intros m Hm. rewrite Hd' in Hm. cbn in Hm. rewrite (so_backup _ _ _ _ Hst) in Hm. by eapply rec_metadata.
Qed.

(** The backup step of a call that migrates: the registry file stays, and
    success means the backup is there. *)
Lemma backup_step host k d d0 d' r k' :
  recoverable k d → migrate d = Ok d0 →
  cd_pre_migration_backup d' = cd_pre_migration_backup d0 →
  (if cd_schema_version d =? SCHEMA_VERSION_V1 then
     metadata ← lift_result (ok_or (cd_pre_migration_backup d') invalid);
     save_pre_migration_backup host d metadata
   else mret ()) k = (r, k') →
  recoverable k' d ∧
  (r = Ok () → ∀ m, cd_pre_migration_backup d' = Some m → backed_up k' m).
Proof using JR.
  intros Hrec Hmig Hb H. pose proof (recoverable_range _ _ Hrec) as Hr.
  destruct (migrate_spec _ _ Hmig) as [(Hv & _ & b & Hser & Hm & _)|[Hv ->]].
  - rewrite (proj2 (Z.eqb_eq _ _) Hv) in H. rewrite Hb, Hm in *. cbn [ok_or] in H.
    apply lift_bind_inv in H as [(e & [=] & _)|(m & [= <-] & H)].
    apply save_backup_spec in H as (Hreg & Hs & Hok); [|by eapply recoverable_backup|done].
    apply serialize_v1_Ok in Hser as (Hv1 & _). destruct (validate_v1_schema _ Hv1) as [_ Hn].
    split; [|intros -> m [= <-]; by apply Hok].
    destruct Hrec. split; [by rewrite Hreg|done..|]. intros m Hm'. by rewrite Hn in Hm'.
  - rewrite (proj2 (Z.eqb_neq _ _) Hv) in H. injection H as <- <-. split; [done|].
    intros _ m. rewrite Hb. apply Hrec.
Qed.

Lemma transact_v2_outcome {A} host (f : tx A) k d r k' :
  recoverable k d →
  (∀ d0 a d1, migrate d = Ok d0 → f d0 = (Ok a, d1) → step_ok False True d0 d1) →
  transact_v2 host f k = (r, k') →
  outcome (d0 ← migrate d; changed ← run_tx f d0; next_revision (snd changed)) d r k'.
Proof using JR SL.
  intros Hrec Hf H. unfold transact_v2 in H.
  apply stM_bind_cases in H as [(e & H & ->)|(a & k1 & Hl & H)];
    [eapply outcome_same; [done|by eapply locked_harmless]|].
  destruct (locked_Ok _ _ _ _ _ Hrec Hl) as [-> Hs].
  pose proof (same_files_recoverable _ _ _ Hs Hrec) as Hrec'. clear Hl Hs.
  apply lift_bind_inv in H as [(e & _ & -> & ->)|(d0 & Hmig & H)]; [by eapply outcome_same|].
  apply lift_bind_inv in H as [(e & _ & -> & ->)|([v d1] & Hrun & H)]; [by eapply outcome_same|].
  apply lift_bind_inv in H as [(e & _ & -> & ->)|(d' & Hnext & H)]; [by eapply outcome_same|].
  apply lift_bind_inv in H as [(e & _ & -> & ->)|(u & Hv & H)]; [by eapply outcome_same|].
  cbn [fst snd] in *. destruct (next_revision_Ok _ _ Hnext) as [Hd' Hmax].
  pose proof (Hf _ _ _ Hmig (proj1 (run_tx_Ok _ _ _ _) Hrun)) as Hst.
  pose proof (recoverable_range _ _ Hrec) as Hdr.
  assert (Hd0 : wf_document d0) by (eapply migrate_wf; [apply Hrec|done]).
  destruct (finished_spec _ _ _ _ _ Hd0 (migrate_same _ _ Hmig) Hst Hmax) as (Hrev & _ & Hr & Hj).
  rewrite <- Hd' in *.
  assert (Hr' : document_in_range d') by (apply Hr; [done|by eapply migrate_range]).
  assert (Hbk : cd_pre_migration_backup d' = cd_pre_migration_backup d0) by (rewrite Hd'; apply Hst).
  apply stM_bind_cases in H as [(e & Hb & ->)|([] & k2 & Hb & H)];
    destruct (backup_step _ _ _ _ _ _ _ Hrec' Hmig Hbk Hb) as [Hrec2 Hm].
  - exists d. split; [done|by left].
  - eapply save_outcome; [exact Hrec2|done| |by apply Hm|exact H].
    intros Hw. split; [by rewrite Hmig; cbn; rewrite Hrun|]. split; [done|by apply Hj].
Qed.
(** The errors a call may report although it committed: the confirmation
    failed, or [begin_launch] met an overlapping launch, which it records
    before it reports it. *)
Definition reports_change (t : transaction) (e : ConversationError) : Prop :=
  e = CE_CommitUncertain ∨
  (e = CE_Ambiguous ∧ match t with T_BeginLaunch _ _ _ _ _ => True | _ => False end).

Definition settled {A} (t : transaction)
    (computed : result ConversationError ConversationDocument) (d : ConversationDocument)
    (r : result ConversationError A) (k' : ConvDisk) : Prop :=
  ∃ d', recoverable k' d' ∧
    match r with
    | Ok _ => advanced computed d d'
    | Err e => d' = d ∨ (reports_change t e ∧ advanced computed d d')
    end.

Lemma plan_closure {A} env t g (f : tx A) d a d1 :
  plan env t = Ok g → (∀ d, g d = ignore f d) → clock_in_range env → arguments_in_range t →
  wf_document d → (is_handoff t = true → is_v1 d = false) →
  f d = (Ok a, d1) → step_ok False True d d1.
Proof.
  intros Hp Hg Hc Ha Hd Hv H. eapply plan_step; [exact Hp|done..|].
  rewrite Hg. unfold ignore. apply stM_bind_Ok. exists a, d1. by split; [exact H|].
Qed.

Lemma run_ignore {A} env t g (f : tx A) d :
  plan env t = Ok g → (∀ d, g d = ignore f d) →
  run env t d = (d0 ← (if is_handoff t then migrate d else Ok d);
                 changed ← run_tx f d0; next_revision (snd changed)).
Proof.
  intros Hp Hg. unfold run. rewrite Hp. cbn [mbind result_bind].
  destruct (if is_handoff t then migrate d else Ok d) as [d0|]; [|done]. cbn.
  unfold run_tx. rewrite Hg. unfold ignore, mbind, stM_bind. by destruct (f d0) as [[]].
Qed.

(** A call that discards its value, by the closure of its transaction. *)
Lemma call_outcome {A} host env t g (f : tx A) k d r k' :
  recoverable k d → clock_in_range env → arguments_in_range t →
  plan env t = Ok g → (∀ d, g d = ignore f d) →
  (if is_handoff t then transact_v2 host f else transact host f) k = (r, k') →
  outcome (run env t d) d r k'.
Proof using JR SL.
  intros Hrec Hc Ha Hp Hg H. rewrite (run_ignore _ _ _ _ _ Hp Hg).
  pose proof (rec_valid _ _ Hrec) as Hd. destruct (is_handoff t) eqn:Ht.
  - eapply transact_v2_outcome; [done| |done]. intros d0 a d1 Hmig Hf.
    destruct (migrate_wf _ _ Hd Hmig). by eapply plan_closure.
  - eapply transact_outcome; [done| |done]. intros a d1 Hf. eapply plan_closure; [done..| |done].
    by rewrite Ht.
Qed.

(** Discarding the value of a call. *)
Lemma outcome_void {A} c d (m : cs A) k r k' :
  (∀ r k', m k = (r, k') → outcome c d r k') →
  (_ ← m; mret ()) k = (r, k') → outcome c d r k'.
Proof.
  intros Hm H. apply stM_bind_cases in H as [(e & H & ->)|(a & k1 & H & [= <- <-])].
  - by apply Hm in H.
  - by apply Hm in H.
Qed.

Lemma checked_outcome {A B} c d (x : result ConversationError A) (f : A → cs B) k r k' :
  recoverable k d → (∀ a, x = Ok a → ∀ r k', f a k = (r, k') → outcome c d r k') →
  (a ← lift_result x; f a) k = (r, k') → outcome c d r k'.
Proof.
  intros Hrec Hf H. apply lift_bind_inv in H as [(e & _ & -> & ->)|(a & Ha & H)].
  - by eapply outcome_same.
  - by eapply Hf.
Qed.

Lemma ignore_unit (f : tx ()) d : ignore f d = f d.
Proof. unfold ignore, mbind, stM_bind. by destruct (f d) as [[[]|] ?]. Qed.

(** Every call but [begin_launch], which may report [Ambiguous]. *)
Lemma call_plain host env t k d r k' :
  recoverable k d → clock_in_range env → arguments_in_range t →
  (match t with T_BeginLaunch _ _ _ _ _ => False | _ => True end) →
  perform host env t k = (r, k') → outcome (run env t d) d r k'.
Proof using JR SL.
  intros Hrec Hc Ha Hn H. destruct t; cbn [perform] in H; try done;
    try (eapply outcome_void; [clear H; intros ?? H|exact H]);
    (eapply checked_outcome; [exact Hrec| |exact H]; clear H; intros x Hx ?? H).
  all: eapply call_outcome; [done..| | |exact H].
  all: try (cbn [plan]; unfold ok_or; rewrite Hx; reflexivity).
  all: intros d1; first [done|symmetry; apply ignore_unit].
Qed.

(** The first call of a launch. *)
Lemma begin_launch_settled host env profile cwd mode version inventory k d r k' :
  let t := T_BeginLaunch profile cwd mode version inventory in
  recoverable k d → clock_in_range env → arguments_in_range t →
  begin_launch host env profile cwd mode version inventory k = (r, k') →
  settled t (run env t d) d r k'.
Proof using JR SL.
  intros t Hrec Hc Ha H. unfold begin_launch in H.
  apply lift_bind_inv in H as [(e & _ & -> & ->)|(p & Hp & H)]; [exists d; by split; [|left]|].
  assert (Hplan : plan env t = Ok (ignore (begin_launch_tx p))) by (cbn [plan t]; by rewrite Hp).
  apply stM_bind_cases in H as [(e & H & ->)|(o & k1 & H & Ho)];
    eapply (call_outcome host env t _ _ _ _ _ _ Hrec Hc Ha Hplan) in H as (d' & Hrec' & Ho'); try done.
  - exists d'. split; [done|]. destruct Ho' as [-> |[-> Ho']]; [by left|]. right. by split; [left|].
  - exists d'. destruct o; injection Ho as <- <-; split; try done.
    right. by split; [right|].
Qed.

(** Every call. *)
Lemma perform_settled host env t k d r k' :
  recoverable k d → clock_in_range env → arguments_in_range t →
  perform host env t k = (r, k') →
  settled t (run env t d) d r k'.
Proof using JR SL.
  intros Hrec Hc Ha H.
  destruct (match t with T_BeginLaunch _ _ _ _ _ => true | _ => false end) eqn:Ht.
  - destruct t; try done. cbn [perform] in H.
    apply stM_bind_cases in H as [(e & H & ->)|(a & k1 & H & [= <- <-])];
      by apply (begin_launch_settled _ _ _ _ _ _ _ _ d) in H.
  - destruct (call_plain host env t k d r k') as (d' & Hrec' & Ho); [done..|by destruct t|done|].
    exists d'. split; [done|]. destruct r as [u|e]; [done|]. destruct Ho as [-> |[-> Ho]]; [by left|].
    right. by split; [left|].
Qed.

(** ** Histories *)

(** A host on which nothing fails and every file is private. *)
Record healthy (host : Host) : Prop := {
  he_io s : io_fails host s = false;
  he_root : check_private_directory host (metadata_of host Vs_Root) = Ok ();
  he_file s : s ≠ Vs_Root → check_private_regular_file host (metadata_of host s) = Ok ();
}.

Lemma sys_healthy host s k : healthy host → sys host s k = (Ok (), k).
Proof. intros Hh. unfold sys. by rewrite (he_io _ Hh). Qed.
Lemma verify_healthy host s k :
  healthy host → s ≠ Vs_Root → verify_private_regular_file host s k = (Ok (), k).
Proof. intros Hh Hs. unfold verify_private_regular_file. by rewrite (he_file _ Hh). Qed.

Lemma read_private_healthy host f k :
  healthy host → read_private host f k = (Ok (read_limited MAX_REGISTRY_BYTES <$> file_of f k), k).
Proof.
  intros Hh. unfold read_private, mbind, stM_bind. rewrite sys_healthy by done.
  unfold get_st. cbv iota. destruct (file_of f k) as [b|]; [|done].
  by rewrite verify_healthy, sys_healthy.
Qed.

Lemma verify_backup_healthy host k m :
  healthy host → backed_up k m → verify_pre_migration_backup host m k = (Ok (), k).
Proof using JR.
  intros Hh (b & d0 & Hb & Hd0 & Hv & Hsha & Hsch & Hrev). pose proof Hd0 as (_ & Hlen & _).
  destruct (holds_read _ _ Hd0) as [Hlim Hd]. unfold verify_pre_migration_backup, mbind, stM_bind.
  rewrite read_private_healthy by done. cbn [file_of]. rewrite Hb. cbn [fmap option_fmap option_map].
  rewrite Hlim. cbn. rewrite (proj2 (Z.ltb_ge _ _) Hlen), Hsha, String.eqb_refl. cbn.
  rewrite Hd. cbn. rewrite Hv, Hsch, Hrev, !Z.eqb_refl. done.
Qed.

(** The stored document can always be read back. *)
Lemma load_healthy host k d : healthy host → recoverable k d → load host k = (Ok d, k).
Proof using JR.
  intros Hh [Hf Hv _ Hm]. unfold load, mbind, stM_bind.
  rewrite read_private_healthy by done. cbn [file_of].
  destruct (registry_file k) as [b|]; cbn; [|by subst]. pose proof Hf as (_ & Hlen & _).
  destruct (holds_read _ _ Hf) as [-> Hd]. rewrite (proj2 (Z.ltb_ge _ _) Hlen), Hd. cbn.
  apply document_spec in Hv. rewrite Hv.
  assert (reject_if (negb ((cd_schema_version d =? SCHEMA_VERSION_V1)
    || (cd_schema_version d =? SCHEMA_VERSION_V2))) invalid = Ok ()) as ->
    by (unfold validate_document in Hv; apply reject_if_Ok; by inv_ok).
  destruct (cd_pre_migration_backup d) as [m|]; [|done].
  unfold mret, stM_ret. by rewrite (verify_backup_healthy _ _ _ Hh (Hm _ eq_refl)).
Qed.

(** A sequence of calls, each with its host and process. *)
Definition call : Type := (Host * CallEnv * transaction)%type.
Definition run_call (k : ConvDisk) (c : call) : ConvDisk :=
  let '(host, env, t) := c in snd (perform host env t k).
Definition run_calls : ConvDisk → list call → ConvDisk := foldl run_call.

Definition call_in_range (c : call) : Prop :=
  let '(_, env, t) := c in clock_in_range env ∧ arguments_in_range t.

Definition follows (d d' : ConversationDocument) (n : nat) : Prop :=
  rtc journal_step (journal_of d) (journal_of d') ∧ grows (journal_of d) (journal_of d') ∧
  cd_revision d ≤ cd_revision d' ≤ cd_revision d + Z.of_nat n.

Lemma run_call_follows k c d :
  recoverable k d → call_in_range c → ∃ d', recoverable (run_call k c) d' ∧ follows d d' 1.
Proof using JR SL.
  destruct c as [[host env] t]. intros Hrec [Hc Ha]. cbn.
  destruct (perform host env t k) as [r k'] eqn:H.
  destruct (perform_settled _ _ _ _ _ _ _ Hrec Hc Ha H) as (d' & Hrec' & Ho).
  exists d'. split; [done|]. destruct (decide (d' = d)) as [->|Hne].
  - split_and!; [done..|lia].
  - assert (advanced (run env t d) d d') as (_ & Hrev & Hj) by (destruct r; naive_solver).
    split_and!; [by apply rtc_once|by apply journal_step_grows|lia..].
Qed.

Lemma follows_trans d1 d2 d3 n m : follows d1 d2 n → follows d2 d3 m → follows d1 d3 (n + m).
Proof. intros (? & ? & ?) (? & ? & ?). split_and!; [by etrans|by etrans|lia..]. Qed.

Lemma run_calls_follow calls k d :
  recoverable k d → Forall call_in_range calls →
  ∃ d', recoverable (run_calls k calls) d' ∧ follows d d' (length calls).
Proof using JR SL.
  intros Hrec Hcalls. revert k d Hrec. induction Hcalls as [|c calls Hc _ IH]; intros k d Hrec.
  - exists d. split; [done|]. split_and!; [done..|cbn; lia].
  - destruct (run_call_follows _ _ _ Hrec Hc) as (d1 & Hrec1 & H1).
    destruct (IH _ _ Hrec1) as (d2 & Hrec2 & H2). exists d2. split; [exact Hrec2|].
    exact (follows_trans _ _ _ 1 _ H1 H2).
Qed.

(** A directory in which the registry has never been used. *)
Definition unused (k : ConvDisk) : Prop := registry_file k = None ∧ backup_file k = None.

Lemma unused_recoverable k : unused k → recoverable k default_document.
Proof.
  intros [Hf Hb]. split; rewrite ?Hf, ?Hb; try done. apply document_spec.
  vm_compute. reflexivity.
Qed.

(** C22. A mutating call on a directory that holds the valid document [d], when
    any of its system calls may fail at any point: it leaves a directory that
    holds a valid document [d'] again, its backup included, which a healthy
    host reads back; when it succeeds [d'] is what the transaction computes
    from [d], the next revision and one step of the journal; when it fails
    nothing changed, or it reports an unconfirmed commit (or, for
    [begin_launch], the overlap it has recorded) and the whole change is
    stored. *)
Theorem call_atomic host env t k d r k' :
  recoverable k d → clock_in_range env → arguments_in_range t →
  perform host env t k = (r, k') →
  ∃ d', recoverable k' d' ∧
    (∀ host', healthy host' → load host' k' = (Ok d', k')) ∧
    match r with
    | Ok _ => advanced (run env t d) d d'
    | Err e => d' = d ∨ (reports_change t e ∧ advanced (run env t d) d d')
    end.
Proof using JR SL.
  intros Hrec Hc Ha H. destruct (perform_settled _ _ _ _ _ _ _ Hrec Hc Ha H) as (d' & Hrec' & Ho).
  exists d'. split_and!; [done| |done]. intros host' Hh. by apply load_healthy.
Qed.

(** C23. Over every history of calls from an unused directory, under any
    failures: at any two points of it a healthy host reads back documents
    [d1] and then [d2] whose journals are connected by journal steps; each
    lineage of [d1] is a prefix of that lineage in [d2], revisions never go
    back or skip, and no provider thread is ever in two places. *)
Theorem journal_history k earlier later host :
  unused k → Forall call_in_range (earlier ++ later) → healthy host →
  ∃ d1 d2,
    load host (run_calls k earlier) = (Ok d1, run_calls k earlier) ∧
    load host (run_calls k (earlier ++ later)) = (Ok d2, run_calls k (earlier ++ later)) ∧
    rtc journal_step (journal_of d1) (journal_of d2) ∧ grows (journal_of d1) (journal_of d2) ∧
    cd_revision d1 ≤ cd_revision d2 ≤ cd_revision d1 + Z.of_nat (length later) ∧
    threads_unique (journal_of d2).
Proof using JR SL.
  intros Hk [He Hl]%Forall_app Hh.
  destruct (run_calls_follow _ _ _ (unused_recoverable _ Hk) He) as (d1 & Hrec1 & _).
  destruct (run_calls_follow _ _ _ Hrec1 Hl) as (d2 & Hrec2 & Hf).
  unfold run_calls in *. rewrite <- foldl_app in Hrec2. exists d1, d2.
  split_and!; [by apply load_healthy..|apply Hf|apply Hf|apply Hf|apply Hf|].
  exact (threads_unique_spec _ _ (wf_document_contents _ (rec_valid _ _ Hrec2))).
Qed.
End disk.
