(* ===== verification/ConversationCodec.v ===== *)
(** * The conversation journal: a concrete serialiser

    A self-delimiting byte format for [ConversationDocument], a concrete
    instance of the serialiser the store is parameterised by: [to_vec] and
    [from_slice] satisfy [JsonRoundTrip], so the hypotheses of the theorems
    about files can hold. The witnesses at the end of the development run on
    it. *)
From Stdlib Require Import Ascii.
From S2P Require Import Prelude Interfaces Profiles ConversationData ConversationOps ConversationStore.
From S2P Require Import ConversationProofs ConversationSpec ConversationSteps ConversationTheorems.

Open Scope Z_scope.

(** A value is read back from any input it starts. *)
Class Delimited (A : Type) := {
  put : A → bytes;
  get : bytes → option (A * bytes);
  get_put a l : get (put a ++ l) = Some (a, l);
}.

(** ** Basic types *)

(** A positive is its digits after the leading one, then [2]. *)
Fixpoint put_positive (p : positive) : bytes :=
  match p with xH => [2] | xO p => 0 :: put_positive p | xI p => 1 :: put_positive p end.
Fixpoint get_positive (l : bytes) : option (positive * bytes) :=
  match l with
  | [] => None
  | b :: l =>
      if b =? 2 then Some (xH, l)
      else match get_positive l with
           | Some (p, l) => Some (if b =? 0 then xO p else xI p, l)
           | None => None
           end
  end.
#[export] Program Instance positive_delimited : Delimited positive :=
  {| put := put_positive; get := get_positive |}.
Next Obligation. intros p l. induction p as [p IH|p IH|]; cbn; by rewrite ?IH. Qed.

Section combinators.
Context {A B : Type} `{Delimited A} `{Delimited B}.

(** A type represented in another. *)
Program Definition delimited_iso {C} (f : C → A) (g : A → C) (gf : ∀ c, g (f c) = c) : Delimited C :=
  {| put c := put (f c);
     get l := match get l with Some (a, l) => Some (g a, l) | None => None end |}.
Next Obligation. intros C f g gf c l. cbn. by rewrite get_put, gf. Qed.

#[export] Program Instance prod_delimited : Delimited (A * B) :=
  {| put p := put (fst p) ++ put (snd p);
     get l := match get l with
              | Some (a, l) => match get l with Some (b, l) => Some ((a, b), l) | None => None end
              | None => None
              end |}.
Next Obligation. intros [a b] l. cbn. by rewrite <- app_assoc, !get_put. Qed.

#[export] Program Instance option_delimited : Delimited (option A) :=
  {| put o := match o with None => [0] | Some a => 1 :: put a end;
     get l := match l with
              | [] => None
              | b :: l =>
                  if b =? 0 then Some (None, l)
                  else match get l with Some (a, l) => Some (Some a, l) | None => None end
              end |}.
Next Obligation. intros [a|] l; cbn; by rewrite ?get_put. Qed.

Fixpoint get_list (n : nat) (l : bytes) : option (list A * bytes) :=
  match n with
  | O => Some ([], l)
  | S n => match get l with
           | Some (a, l) => match get_list n l with Some (x, l) => Some (a :: x, l) | None => None end
           | None => None
           end
  end.

(** The length, then the elements. *)
#[export] Program Instance list_delimited : Delimited (list A) :=
  {| put x := put (Pos.of_succ_nat (length x)) ++ flat_map put x;
     get l := match get (A := positive) l with
              | Some (n, l) => get_list (pred (Pos.to_nat n)) l
              | None => None
              end |}.
Next Obligation.
  intros x l. cbn. rewrite <- app_assoc.
  pose proof (get_put (Pos.of_succ_nat (length x)) (flat_map put x ++ l)) as E. cbn in E.
  rewrite E, SuccNat2Pos.id_succ. cbn. clear E.
  induction x as [|a x IH]; cbn; [done|]. by rewrite <- app_assoc, get_put, IH.
Qed.
End combinators.

(** An enum is the position of its constructor. *)
Definition position {A} `{EqDecision A} (values : list A) (a : A) : nat :=
  default 0%nat (fst <$> list_find (eq a) values).
Definition enum_delimited {A} `{EqDecision A} (first : A) (values : list A)
    (H : ∀ a, nth (position values a) values first = a) : Delimited A.
Proof.
  refine (delimited_iso (fun a => Pos.of_succ_nat (position values a))
    (fun p => nth (pred (Pos.to_nat p)) values first) _).
  intros a. rewrite SuccNat2Pos.id_succ. apply H.
Defined.

#[export] Instance bool_delimited : Delimited bool.
Proof. refine (enum_delimited false [false; true] _). by intros []. Defined.
#[export] Instance Z_delimited : Delimited Z.
Proof.
  refine (delimited_iso (A := option (bool * positive))
    (fun z => match z with Z0 => None | Zpos p => Some (false, p) | Zneg p => Some (true, p) end)
    (fun o => match o with None => Z0 | Some (false, p) => Zpos p | Some (true, p) => Zneg p end) _).
  by intros [].
Defined.

#[export] Instance string_delimited : Delimited string.
Proof.
  refine (delimited_iso (fun s => (Z.of_nat ∘ nat_of_ascii) <$> String.list_ascii_of_string s)
    (fun l => String.string_of_list_ascii ((ascii_of_nat ∘ Z.to_nat) <$> l)) _).
  intros s. rewrite <- list_fmap_compose.
  rewrite (list_fmap_ext _ id), list_fmap_id; [apply String.string_of_list_ascii_of_string|].
  intros i c _. unfold compose. by rewrite Nat2Z.id, ascii_nat_embedding.
Defined.

(** ** The document *)

#[export] Instance Provider_delimited : Delimited Provider.
Proof. refine (enum_delimited Claude [Claude; Codex] _). by intros []. Defined.
#[export] Instance ConversationLifecycle_delimited : Delimited ConversationLifecycle.
Proof.
  refine (enum_delimited Lc_Clean [Lc_Clean; Lc_Interrupted; Lc_UnknownCrash; Lc_Missing;
    Lc_Archived; Lc_Incompatible; Lc_Ambiguous] _). by intros [].
Defined.
#[export] Instance LaunchMode_delimited : Delimited LaunchMode.
Proof.
  refine (enum_delimited Lm_Run [Lm_Run; Lm_ResumeLast; Lm_RunUntracked; Lm_ResumeLastUntracked] _).
  by intros [].
Defined.
#[export] Instance PendingPhase_delimited : Delimited PendingPhase.
Proof.
  refine (enum_delimited Pp_Prepared [Pp_Prepared; Pp_ProviderStarted; Pp_CaptureFailed] _).
  by intros [].
Defined.
#[export] Instance RolloutRoot_delimited : Delimited RolloutRoot.
Proof. refine (enum_delimited Sessions [Sessions; ArchivedSessions] _). by intros []. Defined.
#[export] Instance HandoffPhase_delimited : Delimited HandoffPhase.
Proof.
  refine (enum_delimited Hp_Prepared [Hp_Prepared; Hp_SourceStopRequested; Hp_SourceStopped;
    Hp_ForkRequested; Hp_ForkObserved; Hp_CommittedUnattached] _). by intros [].
Defined.
#[export] Instance HandoffReason_delimited : Delimited HandoffReason.
Proof.
  refine (enum_delimited UnknownLegacy [ConfirmedUsageExhaustion; ExplicitRecovery; UnknownLegacy] _).
  by intros [].
Defined.
#[export] Instance HeadState_delimited : Delimited HeadState.
Proof. refine (enum_delimited Hs_Ready [Hs_Ready; Hs_NeedsSelection] _). by intros []. Defined.

#[export] Instance InventoryThread_delimited : Delimited InventoryThread.
Proof.
  refine (delimited_iso
    (fun t => (it_thread_id t, it_updated_at t, it_recency_at t, it_archived t,
       (it_rollout_device t, it_rollout_inode t, it_rollout_length t,
        it_rollout_modified_seconds t, it_rollout_modified_nanoseconds t,
        it_rollout_changed_seconds t, it_rollout_changed_nanoseconds t)))
    (fun '(a, b, c, d, (e, f, g, h, i, j, k)) => mkInventoryThread a b c d e f g h i j k) _).
  by intros [].
Defined.
#[export] Instance PendingLaunch_delimited : Delimited PendingLaunch.
Proof.
  refine (delimited_iso
    (fun p => (pl_launch_id p, pl_profile_id p, pl_canonical_cwd p, pl_mode p,
       (pl_codex_version p, pl_adapter_version p, pl_pre_inventory p, pl_phase p,
        pl_started_at p)))
    (fun '(a, b, c, d, (e, f, g, h, i)) => mkPendingLaunch a b c d e f g h i) _).
  by intros [].
Defined.
#[export] Instance RolloutLocator_delimited : Delimited RolloutLocator.
Proof.
  refine (delimited_iso (fun r => (rl_root r, rl_relative_path r))
    (fun '(a, b) => mkRolloutLocator a b) _). by intros [].
Defined.
#[export] Instance RolloutFingerprint_delimited : Delimited RolloutFingerprint.
Proof.
  refine (delimited_iso
    (fun f => ([rf_device f; rf_inode f; rf_length f; rf_mode f; rf_owner f; rf_link_count f;
       rf_modified_seconds f; rf_modified_nanoseconds f; rf_changed_seconds f;
       rf_changed_nanoseconds f], rf_sha256 f))
    (fun '(l, s) => let n i := nth i l 0 in
       mkRolloutFingerprint (n 0%nat) (n 1%nat) (n 2%nat) (n 3%nat) (n 4%nat) (n 5%nat) (n 6%nat)
         (n 7%nat) (n 8%nat) (n 9%nat) s) _).
  by intros [].
Defined.
#[export] Instance GenerationRollout_delimited : Delimited GenerationRollout.
Proof.
  refine (delimited_iso (fun r => (rollout_locator r, rollout_fingerprint r))
    (fun '(a, b) => mkGenerationRollout a b) _). by intros [].
Defined.
#[export] Instance ObservedHandoffTarget_delimited : Delimited ObservedHandoffTarget.
Proof.
  refine (delimited_iso
    (fun o => (ot_thread_id o, ot_canonical_cwd o, ot_codex_version o, ot_adapter_version o,
       ot_rollout o, ot_observed_at o))
    (fun '(a, b, c, d, e, f) => mkObservedHandoffTarget a b c d e f) _). by intros [].
Defined.
#[export] Instance HandoffTransition_delimited : Delimited HandoffTransition.
Proof.
  refine (delimited_iso
    (fun t => (tr_transition_id t, tr_conversation_id t, tr_source_generation t,
       tr_target_generation t, tr_source_profile_id t, tr_target_profile_id t,
       (tr_canonical_cwd t, tr_trust_domain_id t, tr_reason t, tr_source_rollout t, tr_phase t,
        tr_target_baseline_thread_ids t,
        (tr_fork_attempts t, tr_fork_requested_at t, tr_observed_target t, tr_prepared_at t,
         tr_updated_at t))))
    (fun '(a, b, c, d, e, f, (g, h, i, j, k, l, (m, n, o, p, q))) =>
       mkHandoffTransition a b c d e f g h i j k l m n o p q) _). by intros [].
Defined.
#[export] Instance PreMigrationBackup_delimited : Delimited PreMigrationBackup.
Proof.
  refine (delimited_iso (fun m => (pb_schema_version m, pb_revision m, pb_sha256 m))
    (fun '(a, b, c) => mkPreMigrationBackup a b c) _). by intros [].
Defined.
#[export] Instance ConversationGeneration_delimited : Delimited ConversationGeneration.
Proof.
  refine (delimited_iso
    (fun g => (cg_generation g, cg_profile_id g, cg_thread_id g, cg_canonical_cwd g,
       (cg_codex_version g, cg_adapter_version g, cg_bound_at g, cg_trust_domain_id g,
        cg_rollout g)))
    (fun '(a, b, c, d, (e, f, g, h, i)) => mkConversationGeneration a b c d e f g h i) _).
  by intros [].
Defined.
#[export] Instance Conversation_delimited : Delimited Conversation.
Proof.
  refine (delimited_iso
    (fun c => (cv_conversation_id c, cv_provider c, cv_generations c, cv_active_generation c,
       cv_last_safe_lifecycle c))
    (fun '(a, b, c, d, e) => mkConversation a b c d e) _). by intros [].
Defined.
#[export] Instance WorkspaceHead_delimited : Delimited WorkspaceHead.
Proof.
  refine (delimited_iso
    (fun h => (wh_provider h, wh_canonical_cwd h, wh_state h, wh_conversation_id h, wh_generation h))
    (fun '(a, b, c, d, e) => mkWorkspaceHead a b c d e) _). by intros [].
Defined.
#[export] Instance ConversationDocument_delimited : Delimited ConversationDocument.
Proof.
  refine (delimited_iso
    (fun d => (cd_schema_version d, cd_revision d, cd_conversations d, cd_workspace_heads d,
       (cd_pending_launches d, cd_pre_migration_backup d, cd_active_transition d)))
    (fun '(a, b, c, d, (e, f, g)) => mkConversationDocument a b c d e f g) _). by intros [].
Defined.

(** ** Integers in range *)

#[export] Instance thread_in_range_dec t : Decision (thread_in_range t).
Proof. unfold thread_in_range, in_u64, in_i64. apply _. Defined.
#[export] Instance rollout_in_range_dec r : Decision (rollout_in_range r).
Proof. unfold rollout_in_range, fingerprint_in_range, in_u64, in_u32, in_i64. apply _. Defined.
#[export] Instance pending_in_range_dec p : Decision (pending_in_range p).
Proof. unfold pending_in_range, in_i64. apply _. Defined.
#[export] Instance generation_in_range_dec g : Decision (generation_in_range g).
Proof. unfold generation_in_range, in_u32, in_i64. apply _. Defined.
#[export] Instance conversation_in_range_dec c : Decision (conversation_in_range c).
Proof. unfold conversation_in_range, in_u32. apply _. Defined.
#[export] Instance head_in_range_dec h : Decision (head_in_range h).
Proof. unfold head_in_range, in_u32. apply _. Defined.
#[export] Instance target_in_range_dec o : Decision (target_in_range o).
Proof. unfold target_in_range, in_i64. apply _. Defined.
#[export] Instance transition_in_range_dec t : Decision (transition_in_range t).
Proof. unfold transition_in_range, in_u8, in_u32, in_i64. apply _. Defined.
#[export] Instance backup_in_range_dec b : Decision (backup_in_range b).
Proof. unfold backup_in_range, in_u8, in_u64. apply _. Defined.
#[export] Instance document_in_range_dec d : Decision (document_in_range d).
Proof.
  refine (match decide ((in_u8 (cd_schema_version d) ∧ in_u64 (cd_revision d)) ∧
    (Forall conversation_in_range (cd_conversations d) ∧
     Forall head_in_range (cd_workspace_heads d)) ∧
    Forall pending_in_range (cd_pending_launches d) ∧
    Forall backup_in_range (option_list (cd_pre_migration_backup d)) ∧
    Forall transition_in_range (option_list (cd_active_transition d))) with
    left H => left _ | right H => right _ end).
  - by destruct H as ((? & ?) & (? & ?) & ? & ? & ?).
  - intros []. apply H. by split_and!.
Defined.

(** The whole input must be one document whose integers fit their fields. *)
Definition delimited_codec : JsonCodec ConversationDocument := {|
  to_vec d := Some (put d);
  from_slice b :=
    match get b with
    | Some (d, []) => if decide (document_in_range d) then Some d else None
    | _ => None
    end;
|}.

Lemma delimited_round_trip :
  @JsonRoundTrip ConversationDocument delimited_codec document_in_range.
Proof.
  split; cbn [from_slice to_vec delimited_codec].
  - intros d b Hd Hb. assert (b = put d ++ []) as -> by (rewrite app_nil_r; congruence).
    rewrite get_put. by rewrite decide_True.
  - intros b d. destruct (get b) as [[x []]|]; [|done..].
    by destruct (decide _) as [?|?]; intros [= <-].
Qed.
