(* ===== verification/ConversationExamples.v ===== *)
(** * The conversation journal: a handoff on a concrete directory

    The hypotheses of the theorems about the registry hold: a thread is
    adopted, handed over to another profile and attached, on the concrete
    serialiser of [ConversationCodec] and with hyphenated UUIDs; one of the
    calls meets a failing host. *)
From Stdlib Require Import Ascii.
From stdpp Require Import relations.
From S2P Require Import Prelude Interfaces Profiles Storage ConversationData ConversationOps.
From S2P Require Import ConversationStore ConversationProofs ConversationSpec ConversationSteps ConversationHandoff ConversationTheorems.
From S2P Require Import ConversationDisk ConversationCodec.

Open Scope Z_scope.

#[export] Instance ConversationFile_eq_dec : EqDecision ConversationFile.
Proof. solve_decision. Defined.
#[export] Instance CallStep_eq_dec : EqDecision CallStep.
Proof. solve_decision. Defined.
Module ConversationExample.
#[export] Instance uuid_instance : UuidCrate := uuid_hyphenated.
#[export] Instance codec_instance : JsonCodec ConversationDocument := delimited_codec.
#[export] Instance codec_laws : JsonRoundTrip ConversationDocument document_in_range :=
  delimited_round_trip.
(** A 32-byte digest: the sum of the bytes, then zeroes. *)
#[export] Instance sha_instance : Sha256Crate :=
  {| digest b := foldr Z.add 0 b mod 256 :: repeat 0 31 |}.
#[export] Instance sha_laws : Sha256Law.
Proof.
  split; intros b; [done|]. constructor; [|repeat constructor; done].
  pose proof (Z.mod_pos_bound (foldr Z.add 0 b) 256). lia.
Qed.

Definition id (c : string) : string := "30000000-0000-4000-8000-00000000000" +:+ c.
Definition env (c : string) (t : Z) : CallEnv :=
  mkCallEnv _ (Some t) (String.list_ascii_of_string (id c)) "0.1.0".
Definition rollout (inode : Z) (path : string) : GenerationRollout :=
  mkGenerationRollout (mkRolloutLocator Sessions path)
    (mkRolloutFingerprint 1 inode 120 33152 501 1 1700000000 0 1700000000 0
       "0123456789abcdef0123456789abcdef0123456789abcdef0123456789abcdef").

(** A thread is adopted, then handed from profile [1] to profile [2]. *)
Definition script : list (CallEnv * transaction) := [
  (env "a" 100, T_Adopt (mkBindingInput (id "1") (id "7") "/work" "0.144.4" Lc_Clean));
  (env "b" 110, T_PrepareHandoff (mkHandoffPreparation
     (mkHeadBinding (id "a") 0 (id "1") (id "7") "/work" "0.144.4" Lc_Clean)
     (id "2") (id "d") ConfirmedUsageExhaustion (rollout 11 "2026/rollout-7.jsonl")));
  (env "c" 120, T_StopRequested (id "b"));
  (env "c" 130, T_Stopped (id "b"));
  (env "c" 140, T_ForkIntent (id "b") [id "8"]);
  (env "c" 150, T_ObserveTarget (id "b")
     (mkHandoffTarget (id "9") "/work" "0.144.4" (rollout 12 "2026/rollout-9.jsonl")));
  (env "c" 160, T_Commit (id "b"));
  (env "c" 170, T_Finish (id "b"))].

Definition after (n : nat) : result ConversationError ConversationDocument :=
  foldl (fun r '(e, t) => d ← r; run e t d) (Ok default_document) (take n script).

Definition document (n : nat) : ConversationDocument := 
  match after n with Ok d => d | Err _ => default_document end.

(** A host on which only the calls of [fails] fail. *)
Definition host (fails : list CallStep) : Host :=
  mkHost 501
    (fun s => match s with
              | Vs_Root => Some (mkMetadata true false false 501 16832 2)
              | _ => Some (mkMetadata false true false 501 33152 1)
              end)
    (fun s => bool_decide (s ∈ fails)).

Lemma host_healthy : healthy (host []).
Proof. split; [done|done|]. by intros []. Qed.

(** The directory after the first [n] calls. *)
Definition disk (n : nat) : ConvDisk :=
  run_calls (mkConvDisk true true None None None)
    ((fun '(e, t) => (host [], e, t)) <$> take n script).

Lemma script_in_range : Forall call_in_range ((fun '(e, t) => (host [], e, t)) <$> script).
Proof.
  assert (∀ c t, 0 ≤ t → clock_in_range (env c t)) as Hc by (intros c t Ht s [= <-]; done).
  repeat constructor; try (by apply Hc); vm_compute; intuition congruence.
Qed.

Lemma unused_start : unused (mkConvDisk true true None None None).
Proof. done. Qed.

Lemma disk_recoverable n :
  load (host []) (disk n) = (Ok (document n), disk n) → recoverable (disk n) (document n).
Proof.
  intros Hl. destruct (run_calls_follow ((fun '(e, t) => (host [], e, t)) <$> take n script)
    _ _ (unused_recoverable _ unused_start)) as (d & Hd & _).
  - rewrite fmap_take. apply Forall_take, script_in_range.
  - pose proof (load_healthy _ _ _ host_healthy Hd) as E. fold (disk n) in E, Hd. congruence.
Qed.

Lemma env_ok_commit : env_ok (env "c" 160) (document 6).
Proof.
  split.
  - intros s [= <-]. lia.
  - intros s t [= <-]. vm_compute. by intros [= <-].
  - vm_compute. reflexivity.
  - vm_compute. reflexivity.
  - apply (bool_decide_unpack _). vm_compute. exact I.
  - apply (bool_decide_unpack _). vm_compute. exact I.
Qed.

Lemma document_7 : run (env "c" 160) (T_Commit (id "b")) (document 6) = Ok (document 7).
Proof. vm_compute. reflexivity. Qed.
Lemma document_6_valid : validate_document (document 6) = Ok ().
Proof. vm_compute. reflexivity. Qed.
Lemma disk_6 : load (host []) (disk 6) = (Ok (document 6), disk 6).
Proof. vm_compute. reflexivity. Qed.

Lemma transactions_valid_witness :
  journal_step (journal_of (document 6)) (journal_of (document 7)).
Proof.
  exact (proj2 (proj2 (transactions_valid (env "c" 160) (T_Commit (id "b")) (document 6)
    (document 7) document_6_valid env_ok_commit I document_7))).
Defined.

(** A commit whose last sync fails. *)
Definition unsynced : Host := host [Cs_SyncRoot Cf_Registry].
Definition uncertain : result ConversationError () * ConvDisk :=
  perform unsynced (env "c" 160) (T_Commit (id "b")) (disk 6).

Lemma uncertain_reported :
  perform unsynced (env "c" 160) (T_Commit (id "b")) (disk 6)
  = (Err CE_CommitUncertain, snd uncertain).
Proof. vm_compute. reflexivity. Qed.
Lemma clock_160 : clock_in_range (env "c" 160).
Proof. intros s [= <-]. lia. Qed.

Lemma call_atomic_witness :
  ∃ d', load (host []) (snd uncertain) = (Ok d', snd uncertain) ∧
    (d' = document 6 ∨ cd_revision d' = cd_revision (document 6) + 1).
Proof.
  destruct (call_atomic unsynced (env "c" 160) (T_Commit (id "b")) (disk 6) (document 6)
    (Err CE_CommitUncertain) (snd uncertain) (disk_recoverable 6 disk_6) clock_160 I
    uncertain_reported) as (d' & _ & Hl & Hr).
  exists d'. split; [exact (Hl _ host_healthy)|].
  destruct Hr as [Hr|[_ (_ & Hr & _)]]; [left; exact Hr|right; exact Hr].
Defined.

(** Up to the observed target, then the commit and the end of the handoff. *)
Definition calls (script : list (CallEnv * transaction)) : list call :=
  (fun '(e, t) => (host [], e, t)) <$> script.
Definition start : ConvDisk := mkConvDisk true true None None None.
Definition earlier : list call := calls (take 6 script).
Definition later : list call := calls (drop 6 script).

Lemma calls_in_range : Forall call_in_range (earlier ++ later).
Proof. unfold earlier, later, calls. rewrite <- fmap_app, take_drop. exact script_in_range. Qed.

Lemma journal_history_witness :
  ∃ d1 d2, load (host []) (run_calls start earlier) = (Ok d1, run_calls start earlier) ∧
    load (host []) (run_calls start (earlier ++ later))
    = (Ok d2, run_calls start (earlier ++ later)) ∧
    grows (journal_of d1) (journal_of d2).
Proof.
  destruct (journal_history start earlier later (host []) unused_start calls_in_range host_healthy)
    as (d1 & d2 & H1 & H2 & _ & H3 & _).
  exists d1, d2. exact (conj H1 (conj H2 H3)).
Defined.
End ConversationExample.
