(* ===== verification/HandoffTransaction.v ===== *)
(** * The handoff driver (src/providers/codex/handoff_transaction.rs)

    What one call of the driver does with the active handoff: the projection
    of the durable phase to the only legal next action, the reconciliation of
    a target inventory, and the provider operations around the journal call
    that records the step. Provider I/O is behind the interface
    [HandoffRuntime]; its state and the conversation directory are threaded
    explicitly. Of src/providers/codex/rollout_handoff.rs, the proofs a target
    is adopted from. *)
From S2P Require Import Prelude Interfaces Profiles RoutingDefs ConversationData ConversationOps.
From S2P Require Import ConversationStore.

Open Scope Z_scope.

Definition MAX_RECONCILIATION_THREADS : Z := 1600.

(** A [PathBuf]: text, or bytes that are not UTF-8. *)
Inductive Path := Utf8 (s : string) | NotUtf8 (raw : bytes).
#[export] Instance Path_eq_dec : EqDecision Path.
Proof. solve_decision. Defined.
Definition to_str (p : Path) : option string := match p with Utf8 s => Some s | NotUtf8 _ => None end.

(** ** Rollout proofs *)

Inductive CodexRolloutHandoffError :=
| Rh_Profile | Rh_Thread | Rh_Archived | Rh_Missing | Rh_UnsafeSource | Rh_SourceChanged
| Rh_ForkResponse | Rh_UnsafeTarget.

Record CodexHandoffFingerprint := mkCodexHandoffFingerprint {
  fp_device : Z;
  fp_inode : Z;
  fp_length : Z;
  fp_mode : Z;
  fp_uid : Z;
  fp_gid : Z;
  fp_links : Z;
  fp_modified_seconds : Z;
  fp_modified_nanoseconds : Z;
  fp_changed_seconds : Z;
  fp_changed_nanoseconds : Z;
  fp_digest : bytes;
}.

(** [CodexHandoffFingerprint::sha256]. *)
Definition fingerprint_sha256 (f : CodexHandoffFingerprint) : string :=
  String.string_of_list_ascii
    (flat_map (fun byte => [hex_digit (Z.shiftr byte 4); hex_digit (Z.land byte 15)])
       (fp_digest f)).
Definition same_file (left right : CodexHandoffFingerprint) : bool :=
  (fp_device left =? fp_device right) && (fp_inode left =? fp_inode right).

(** The data of [CodexRolloutHandoff], [VerifiedSourceRollout] and
    [ValidatedForkRollout]; the descriptors they hold have no value here. *)
Record CodexRolloutHandoff := mkCodexRolloutHandoff {
  ro_profile_id : string;
  ro_thread_id : string;
  ro_codex_version : string;
  ro_canonical_cwd : Path;
  ro_locator : Path;
  ro_fingerprint : CodexHandoffFingerprint;
}.
Definition VerifiedSourceRollout : Type := CodexRolloutHandoff.
Record ValidatedForkRollout := mkValidatedForkRollout {
  vf_profile_id : string;
  vf_thread_id : string;
  vf_canonical_cwd : Path;
  vf_locator : Path;
  vf_fingerprint : CodexHandoffFingerprint;
}.

Definition project_journal_rollout (locator : Path) (f : CodexHandoffFingerprint)
    : result CodexRolloutHandoffError GenerationRollout :=
  relative_path ← ok_or (to_str locator) Rh_Thread;
  Ok (mkGenerationRollout (mkRolloutLocator Sessions relative_path)
        (mkRolloutFingerprint (fp_device f) (fp_inode f) (fp_length f) (fp_mode f) (fp_uid f)
           (fp_links f) (fp_modified_seconds f) (fp_modified_nanoseconds f)
           (fp_changed_seconds f) (fp_changed_nanoseconds f) (fingerprint_sha256 f))).

Definition journal_rollout (r : CodexRolloutHandoff)
    : result CodexRolloutHandoffError GenerationRollout :=
  project_journal_rollout (ro_locator r) (ro_fingerprint r).

Definition into_handoff_target (self : ValidatedForkRollout) (source : VerifiedSourceRollout)
    : result CodexRolloutHandoffError HandoffTarget :=
  _ ← reject_if (String.eqb (vf_profile_id self) (ro_profile_id source)
                 || String.eqb (vf_thread_id self) (ro_thread_id source)
                 || negb (bool_decide (vf_canonical_cwd self = ro_canonical_cwd source))
                 || same_file (vf_fingerprint self) (ro_fingerprint source)) Rh_UnsafeTarget;
  canonical_cwd ← ok_or (to_str (vf_canonical_cwd self)) Rh_UnsafeTarget;
  rollout ← project_journal_rollout (vf_locator self) (vf_fingerprint self);
  Ok (mkHandoffTarget (vf_thread_id self) canonical_cwd (ro_codex_version source) rollout).

(** ** Decisions *)

Inductive HandoffTransactionError :=
| UnknownReason | InvalidTransition | InvalidInventory | InvalidProfiles.

#[export] Instance HandoffTransactionError_eq_dec : EqDecision HandoffTransactionError.
Proof. solve_decision. Defined.

Definition handoff_transaction_code (e : HandoffTransactionError) : string :=
  match e with
  | UnknownReason => "codex_handoff_reason_unknown"
  | InvalidTransition => "codex_handoff_transition_invalid"
  | InvalidInventory => "codex_handoff_inventory_invalid"
  | InvalidProfiles => "codex_handoff_profiles_invalid"
  end.

Inductive HandoffResumeAction :=
| PersistSourceStopIntent | StopAndReapSource | CaptureTargetBaselineAndFork | ReconcileFork
| CommitObservedTarget | AttachCommittedTarget.

(** [matches!(transition.fork_attempts, 1 | 2)]. *)
Definition one_or_two (n : Z) : bool := (n =? 1) || (n =? 2).

Definition resume_action (t : HandoffTransition)
    : result HandoffTransactionError HandoffResumeAction :=
  _ ← reject_if (bool_decide (tr_reason t = UnknownLegacy)) UnknownReason;
  match tr_phase t with
  | Hp_Prepared => Ok PersistSourceStopIntent
  | Hp_SourceStopRequested => Ok StopAndReapSource
  | Hp_SourceStopped => Ok CaptureTargetBaselineAndFork
  | Hp_ForkRequested =>
      if one_or_two (tr_fork_attempts t) then Ok ReconcileFork else Err InvalidTransition
  | Hp_ForkObserved => Ok CommitObservedTarget
  | Hp_CommittedUnattached => Ok AttachCommittedTarget
  end.

Inductive ForkCandidateProjection (T : Type) := Matching (target : T) | Mismatch.
Arguments Matching {T}.
Arguments Mismatch {T}.

Record ForkCandidate (T : Type) := mkForkCandidate {
  fc_thread_id : string;
  fc_projection : ForkCandidateProjection T;
}.
Arguments mkForkCandidate {T}.
Arguments fc_thread_id {T}.
Arguments fc_projection {T}.

Definition mismatch {T} (thread_id : string) : ForkCandidate T := mkForkCandidate thread_id Mismatch.

Definition from_validated_rollout (thread_id : string) (rollout : ValidatedForkRollout)
    (source : VerifiedSourceRollout) : ForkCandidate HandoffTarget :=
  if negb (String.eqb (vf_thread_id rollout) thread_id) then mismatch thread_id
  else match into_handoff_target rollout source with
       | Ok target => mkForkCandidate thread_id (Matching target)
       | Err _ => mismatch thread_id
       end.

Inductive ExplicitReconciliationReason := MismatchedCandidate | MultipleCandidates | RetryExhausted.

Inductive ForkReconciliation (T : Type) :=
| Adopt (target : T)
| RetryOnce
| Explicit (reason : ExplicitReconciliationReason).
Arguments Adopt {T}.
Arguments RetryOnce {T}.
Arguments Explicit {T}.

Section decisions.
Context {UC : UuidCrate}.

Definition validate_thread_id (thread_id : string) : result HandoffTransactionError () :=
  parsed ← ok_or (parse_str thread_id) InvalidInventory;
  reject_if (negb (String.eqb (uuid_to_string parsed) thread_id)) InvalidInventory.

Definition validate_sorted_thread_ids (thread_ids : list string)
    : result HandoffTransactionError () :=
  _ ← reject_if (MAX_RECONCILIATION_THREADS <? len thread_ids) InvalidTransition;
  for_each_prev (fun prev thread_id =>
    _ ← map_err (fun _ => InvalidTransition) (validate_thread_id thread_id);
    reject_if (previous (str_le thread_id) prev) InvalidTransition) [] thread_ids.

Definition candidate_order {T} (left right : ForkCandidate T) : bool :=
  str_le (fc_thread_id left) (fc_thread_id right).

Definition reconcile_fork_candidates {T} (t : HandoffTransition)
    (inventory : list (ForkCandidate T)) : result HandoffTransactionError (ForkReconciliation T) :=
  _ ← reject_if (bool_decide (tr_reason t = UnknownLegacy)) UnknownReason;
  _ ← reject_if (negb (bool_decide (tr_phase t = Hp_ForkRequested))
                 || negb (one_or_two (tr_fork_attempts t))
                 || negb (bool_decide (is_Some (tr_fork_requested_at t)))
                 || (MAX_RECONCILIATION_THREADS <? len inventory)) InvalidTransition;
  _ ← validate_sorted_thread_ids (tr_target_baseline_thread_ids t);
  let inventory := sort_by candidate_order inventory in
  _ ← for_each_prev (fun prev candidate =>
        _ ← validate_thread_id (fc_thread_id candidate);
        reject_if (previous (fun p => String.eqb (fc_thread_id p) (fc_thread_id candidate)) prev)
          InvalidInventory) [] inventory;
  match List.filter (fun c => negb (binary_search (fc_thread_id c)
                                      (tr_target_baseline_thread_ids t))) inventory with
  | [] => Ok (if tr_fork_attempts t =? 1 then RetryOnce else Explicit RetryExhausted)
  | [first] =>
      Ok (match fc_projection first with
          | Matching target => Adopt target
          | Mismatch => Explicit MismatchedCandidate
          end)
  | _ => Ok (Explicit MultipleCandidates)
  end.
End decisions.

Record HandoffNotice := mkHandoffNotice {
  hn_source_alias : string;
  hn_target_alias : string;
  hn_reason : HandoffReason;
  hn_generation : Z;
}.

Definition project_notice (t : HandoffTransition) (source target : Profile)
    : result HandoffTransactionError HandoffNotice :=
  _ ← reject_if (bool_decide (tr_reason t = UnknownLegacy)) UnknownReason;
  _ ← reject_if (negb (provider_eqb (profile_provider source) Codex)
                 || negb (provider_eqb (profile_provider target) Codex)
                 || negb (String.eqb (profile_id source) (tr_source_profile_id t))
                 || negb (String.eqb (profile_id target) (tr_target_profile_id t))
                 || String.eqb (profile_id source) (profile_id target)
                 || String.eqb (profile_alias source) ""
                 || String.eqb (profile_alias target) "") InvalidProfiles;
  Ok (mkHandoffNotice (profile_alias source) (profile_alias target) (tr_reason t)
        (tr_target_generation t)).

(** ** The driver *)

(** [HandoffRuntime]: its state is [hrt]; every operation may fail. *)
Class HandoffRuntime := {
  hrt : Type;
  hrt_error : Type;
  stop_and_reap_source : HandoffTransition → hrt → result hrt_error () * hrt;
  capture_target_baseline : HandoffTransition → hrt → result hrt_error (list string) * hrt;
  request_fork : HandoffTransition → hrt → result hrt_error () * hrt;
  reconcile_target_inventory :
    HandoffTransition → hrt → result hrt_error (list (ForkCandidate HandoffTarget)) * hrt;
  attach_committed_target : HandoffTransition → hrt → result hrt_error () * hrt;
}.

Inductive HandoffExecutionError (RuntimeError : Type) :=
| He_NoTransition
| He_Journal (e : ConversationError)
| He_Decision (e : HandoffTransactionError)
| He_Runtime (e : RuntimeError).
Arguments He_NoTransition {_}.
Arguments He_Journal {_}.
Arguments He_Decision {_}.
Arguments He_Runtime {_}.

Inductive HandoffStep :=
| Advanced (p : HandoffPhase)
| RequiresExplicitReconciliation (reason : ExplicitReconciliationReason)
| Attached (head : HeadBinding).

(** What the system answers during one call of the driver: the coordinator
    lock, the read of the journal and the journal call that records the step. *)
Record ResumeEnv `{UuidCrate} := mkResumeEnv {
  lock_host : Host;
  lock_opened : option LockMetadata;
  lock_visible : option LockMetadata;
  lock_cloexec : option bool;
  lock_answer : TryLock;
  read_host : Host;
  write_host : Host;
  write_env : CallEnv;
}.

Section driver.
Context {UC : UuidCrate} {SC : Sha256Crate} {JC : JsonCodec ConversationDocument}.
Context {HR : HandoffRuntime}.

(** The conversation directory and the runtime. *)
Definition World : Type := (ConvDisk * hrt)%type.
Abbreviation driverM := (stM World (HandoffExecutionError hrt_error)).

(** A call of the journal, [map_err(HandoffExecutionError::Journal)]. *)
Definition on_journal {A} (call : cs A) : driverM A := fun '(k, s) =>
  let '(r, k) := call k in (map_err He_Journal r, (k, s)).
(** A call of the runtime, [map_err(HandoffExecutionError::Runtime)]. *)
Definition on_runtime {A} (call : hrt → result hrt_error A * hrt) : driverM A := fun '(k, s) =>
  let '(r, s) := call s in (map_err He_Runtime r, (k, s)).
Definition decide_on {A} (r : result HandoffTransactionError A) : driverM A :=
  lift_result (map_err He_Decision r).

Definition advanced_to (t : HandoffTransition) : HandoffStep := Advanced (tr_phase t).

(** The arm of [HandoffResumeAction::ReconcileFork]. *)
Definition reconcile_fork (e : ResumeEnv) (t : HandoffTransition) : driverM HandoffStep :=
  inventory ← on_runtime (reconcile_target_inventory t);
  decision ← decide_on (reconcile_fork_candidates t inventory);
  match decision with
  | Adopt target =>
      next ← on_journal (observe_handoff_target (write_host e) (write_env e) (tr_transition_id t)
                           target);
      mret (advanced_to next)
  | RetryOnce =>
      retry ← on_journal (record_bounded_fork_retry (write_host e) (write_env e)
                            (tr_transition_id t));
      _ ← on_runtime (request_fork retry);
      mret (advanced_to retry)
  | Explicit reason => mret (RequiresExplicitReconciliation reason)
  end.

(** The arms of the [match] on the resume action. *)
Definition resume_with (e : ResumeEnv) (t : HandoffTransition) (action : HandoffResumeAction)
    : driverM HandoffStep :=
  let transition_id := tr_transition_id t in
  match action with
  | PersistSourceStopIntent =>
      next ← on_journal (mark_source_stop_requested (write_host e) (write_env e) transition_id);
      mret (advanced_to next)
  | StopAndReapSource =>
      _ ← on_runtime (stop_and_reap_source t);
      next ← on_journal (mark_source_stopped (write_host e) (write_env e) transition_id);
      mret (advanced_to next)
  | CaptureTargetBaselineAndFork =>
      baseline ← on_runtime (capture_target_baseline t);
      requested ← on_journal (record_fork_intent (write_host e) (write_env e) transition_id
                                baseline);
      _ ← on_runtime (request_fork requested);
      mret (advanced_to requested)
  | ReconcileFork => reconcile_fork e t
  | CommitObservedTarget =>
      _ ← on_journal (commit_handoff (write_host e) (write_env e) transition_id);
      mret (Advanced Hp_CommittedUnattached)
  | AttachCommittedTarget =>
      _ ← on_runtime (attach_committed_target t);
      head ← on_journal (finish_handoff_attachment (write_host e) transition_id);
      mret (Attached head)
  end.

Definition resume_handoff_once (e : ResumeEnv) : driverM HandoffStep :=
  _ ← on_journal (try_lock_handoff_coordinator (lock_host e) (lock_opened e) (lock_visible e)
                    (lock_cloexec e) (lock_answer e));
  current ← on_journal (current_handoff (read_host e));
  t ← lift_result (ok_or current He_NoTransition);
  action ← decide_on (resume_action t);
  resume_with e t action.

(** [prepare_codex_handoff]. *)
Inductive HandoffPreparationError :=
| Pe_SourceBinding
| Pe_Policy (e : DefinitionError)
| Pe_Rollout (e : CodexRolloutHandoffError)
| Pe_Journal (e : ConversationError).

Definition prepare_codex_handoff (e : ResumeEnv) (definitions : Definitions)
    (expected_source : HeadBinding) (target : Profile) (trust_domain_id : string)
    (reason : HandoffReason) (source : CodexRolloutHandoff)
    : stM ConvDisk HandoffPreparationError HandoffTransition := fun k =>
  match try_lock_handoff_coordinator (lock_host e) (lock_opened e) (lock_visible e)
          (lock_cloexec e) (lock_answer e) k with
  | (Err error, k) => (Err (Pe_Journal error), k)
  | (Ok _, k) =>
      match
        (_ ← reject_if (negb (provider_eqb (profile_provider target) Codex)
                        || negb (String.eqb (ro_profile_id source) (hb_profile_id expected_source))
                        || negb (String.eqb (ro_thread_id source) (hb_thread_id expected_source))
                        || negb (String.eqb (ro_codex_version source)
                                   (hb_codex_version expected_source))
                        || negb (bool_decide (to_str (ro_canonical_cwd source)
                                              = Some (hb_canonical_cwd expected_source))))
              Pe_SourceBinding;
         authorization ← map_err Pe_Policy
           (authorize_handoff definitions trust_domain_id (hb_profile_id expected_source)
              (profile_id target) Codex);
         source_rollout ← map_err Pe_Rollout (journal_rollout source);
         Ok (mkHandoffPreparation expected_source (profile_id target)
               (authorized_trust_domain_id authorization) reason source_rollout))
      with
      | Err error => (Err error, k)
      | Ok preparation =>
          let '(r, k) := prepare_handoff (write_host e) (write_env e) preparation k in
          (map_err Pe_Journal r, k)
      end
  end.
End driver.
