(* ===== verification/HandoffReconcile.v ===== *)
(** * The handoff driver: reconciling a target inventory

    [reconcile_equiv]: the reconciliation, with its sort, its binary searches
    and its early returns, decides what the reference [reconcile_reference]
    decides from the set of threads that are not in the baseline. *)
From S2P Require Import Prelude Interfaces Profiles RoutingDefs ConversationData ConversationOps.
From S2P Require Import ConversationStore HandoffTransaction.

Open Scope Z_scope.

Section reconcile.
Context {UC : UuidCrate}.

Definition valid_thread (id : string) : Prop := validate_thread_id id = Ok ().
#[export] Instance valid_thread_dec id : Decision (valid_thread id).
Proof. unfold valid_thread. apply _. Defined.

Lemma validate_thread_id_cases id : valid_thread id ∨ validate_thread_id id = Err InvalidInventory.
Proof.
  unfold valid_thread, validate_thread_id. destruct (parse_str id) as [u|]; cbn; [|by right].
  unfold reject_if. case_match; [by right|by left].
Qed.

(** A baseline in order, without duplicates and within its bound. *)
Definition baseline_ok (ids : list string) : Prop :=
  len ids ≤ MAX_RECONCILIATION_THREADS ∧ Forall valid_thread ids ∧ StronglySorted str_lt_rel ids.

Lemma str_le_false a b : str_le a b = false ↔ str_lt_rel b a.
Proof.
  unfold str_lt_rel. rewrite str_lt_le, <- not_true_iff_false. split.
  - intros H. destruct (str_le_total a b) as [?|?]; [done|]. split; [done|]. intros ->. done.
  - intros [H Hne] H'. apply Hne. by apply str_le_antisym.
Qed.

Lemma validate_sorted_thread_ids_spec ids :
  (validate_sorted_thread_ids ids = Ok () ↔ baseline_ok ids) ∧
  (validate_sorted_thread_ids ids = Ok () ∨ validate_sorted_thread_ids ids = Err InvalidTransition).
Proof.
  unfold validate_sorted_thread_ids, baseline_ok. split.
  - rewrite bind_unit_Ok, reject_if_Ok, Z.ltb_ge, adjacent_Ok. cbn [last option_list app].
    assert (∀ x, map_err (fun _ => InvalidTransition) (validate_thread_id x) = Ok () ↔ valid_thread x)
      as Hv by (intros x; unfold valid_thread; by destruct (validate_thread_id x) as [[]|]).
    rewrite (Forall_iff _ _ _ Hv).
    assert (Sorted (fun p x => str_le x p = false) ids ↔ StronglySorted str_lt_rel ids) as ->; [|done].
    split.
    + intros H. apply Sorted.Sorted_StronglySorted; [exact str_lt_rel_trans|].
      induction H as [|x l Hs IH Hh]; constructor; [done|]. destruct Hh; constructor.
      by apply str_le_false.
    + intros H. apply StronglySorted_Sorted in H.
      induction H as [|x l Hs IH Hh]; constructor; [done|]. destruct Hh; constructor.
      by apply str_le_false.
  - unfold reject_if at 1 3. destruct (_ <? _); [by right|]. apply for_each_prev_same.
    intros prev x. destruct (validate_thread_id_cases x) as [-> | ->]; cbn; [|by right].
    unfold reject_if. case_match; auto.
Qed.

#[export] Instance str_lt_rel_dec : RelDecision str_lt_rel.
Proof. intros a b. unfold str_lt_rel. apply _. Defined.
#[export] Instance baseline_ok_dec ids : Decision (baseline_ok ids).
Proof. unfold baseline_ok. apply _. Defined.

Section equiv.
Context {T : Type}.
Implicit Types (inventory : list (ForkCandidate T)).

(** The reference: what the set of new candidates decides. *)
Definition decide_new (attempts : Z) (new : list (ForkCandidate T)) : ForkReconciliation T :=
  match new with
  | [] => if attempts =? 1 then RetryOnce else Explicit RetryExhausted
  | [c] => match fc_projection c with
           | Matching target => Adopt target
           | Mismatch => Explicit MismatchedCandidate
           end
  | _ => Explicit MultipleCandidates
  end.

Definition retryable (t : HandoffTransition) : Prop :=
  tr_phase t = Hp_ForkRequested ∧ tr_fork_attempts t ∈ [1; 2] ∧ tr_fork_requested_at t ≠ None.

Definition reconcile_reference (t : HandoffTransition) inventory
    : result HandoffTransactionError (ForkReconciliation T) :=
  if decide (tr_reason t = UnknownLegacy) then Err UnknownReason
  else if decide (retryable t ∧ len inventory ≤ MAX_RECONCILIATION_THREADS ∧
                  baseline_ok (tr_target_baseline_thread_ids t)) then
    if decide (Forall valid_thread (fc_thread_id <$> inventory) ∧ NoDup (fc_thread_id <$> inventory))
    then Ok (decide_new (tr_fork_attempts t)
           (filter (fun c => fc_thread_id c ∉ tr_target_baseline_thread_ids t) inventory))
    else Err InvalidInventory
  else Err InvalidTransition.

Lemma decide_new_perm attempts new new' :
  new ≡ₚ new' → decide_new attempts new = decide_new attempts new'.
Proof.
  intros H. pose proof (Permutation_length H) as Hl.
  destruct new as [|c [|c' l]], new' as [|d [|d' l']]; try done.
  by apply Permutation_singleton_l in H as [= ->].
Qed.

Lemma candidate_order_sorted inventory :
  StronglySorted (fun a b => candidate_order a b = true) (sort_by candidate_order inventory).
Proof.
  apply sort_by_sorted; unfold candidate_order.
  - intros ???. apply str_le_trans.
  - intros ??. apply str_le_total.
Qed.

(** Without equal neighbours a sorted inventory has no duplicates. *)
Lemma neighbours_NoDup (l : list (ForkCandidate T)) :
  StronglySorted (fun a b => candidate_order a b = true) l →
  Sorted (fun p x => String.eqb (fc_thread_id p) (fc_thread_id x) = false) l ↔
  NoDup (fc_thread_id <$> l).
Proof.
  unfold candidate_order. induction 1 as [|x l Hs IH Hall]; cbn; [split; constructor|].
  rewrite NoDup_cons, <- IH. split.
  - intros H. apply Sorted_inv in H as [H Hh]. split; [|done].
    intros (y & Hy & Hin)%list_elem_of_fmap. destruct l as [|z l]; [by apply elem_of_nil in Hin|].
    apply HdRel_inv in Hh. rewrite String.eqb_neq in Hh. apply Hh.
    rewrite Forall_forall in Hall. apply str_le_antisym; [apply (Hall z); constructor|].
    rewrite Hy. apply elem_of_cons in Hin as [->|Hin].
    + destruct (str_le_total (fc_thread_id z) (fc_thread_id z)); done.
    + apply StronglySorted_inv in Hs as [_ Hz]. rewrite Forall_forall in Hz. by apply Hz.
  - intros [Hx H]. constructor; [done|]. destruct l as [|z l]; constructor.
    apply String.eqb_neq. intros E. apply Hx. rewrite E. by left.
Qed.

Lemma inventory_checks inventory :
  let body := fun prev (candidate : ForkCandidate T) =>
    _ ← validate_thread_id (fc_thread_id candidate);
    reject_if (previous (fun p => String.eqb (fc_thread_id p) (fc_thread_id candidate)) prev)
      InvalidInventory in
  let l := sort_by candidate_order inventory in
  (for_each_prev body [] l = Ok () ↔
   Forall valid_thread (fc_thread_id <$> inventory) ∧ NoDup (fc_thread_id <$> inventory)) ∧
  (for_each_prev body [] l = Ok () ∨ for_each_prev body [] l = Err InvalidInventory).
Proof.
  intros body l. split.
  - unfold body. rewrite (adjacent_Ok (fun c => validate_thread_id (fc_thread_id c))
      (fun p x => String.eqb (fc_thread_id p) (fc_thread_id x))).
    cbn [last option_list app]. rewrite (neighbours_NoDup l) by apply candidate_order_sorted.
    unfold l. rewrite (sort_by_perm candidate_order inventory) at 1 2.
    by rewrite Forall_fmap.
  - apply for_each_prev_same. intros prev c. unfold body.
    destruct (validate_thread_id_cases (fc_thread_id c)) as [-> | ->]; cbn; [|by right].
    unfold reject_if. case_match; auto.
Qed.

Lemma guard_spec t inventory :
  negb (bool_decide (tr_phase t = Hp_ForkRequested)) || negb (one_or_two (tr_fork_attempts t))
  || negb (bool_decide (is_Some (tr_fork_requested_at t)))
  || (MAX_RECONCILIATION_THREADS <? len inventory) = false ↔
  retryable t ∧ len inventory ≤ MAX_RECONCILIATION_THREADS.
Proof.
  rewrite !orb_false_iff, !negb_bool_decide_false, negb_false_iff, Z.ltb_ge.
  unfold retryable, one_or_two. rewrite orb_true_iff, !Z.eqb_eq, !elem_of_cons, elem_of_nil.
  rewrite <- not_eq_None_Some. tauto.
Qed.

Lemma filter_new t (l : list (ForkCandidate T)) :
  baseline_ok (tr_target_baseline_thread_ids t) →
  List.filter (fun c => negb (binary_search (fc_thread_id c) (tr_target_baseline_thread_ids t)))
    (sort_by candidate_order l)
  = filter (fun c => fc_thread_id c ∉ tr_target_baseline_thread_ids t)
      (sort_by candidate_order l).
Proof.
  intros (_ & _ & Hs). induction (sort_by candidate_order l) as [|c r IH]; [done|].
  cbn [List.filter]. rewrite filter_cons, IH, negb_if.
  destruct (decide (fc_thread_id c ∉ tr_target_baseline_thread_ids t)) as [Hn|Hn].
  - destruct (binary_search _ _) eqn:E; [|done]. by apply binary_search_spec in E.
  - apply dec_stable in Hn. apply (binary_search_spec _ _ Hs) in Hn. by rewrite Hn.
Qed.

Lemma filter_sorted_perm t inventory :
  filter (fun c => fc_thread_id c ∉ tr_target_baseline_thread_ids t) (sort_by candidate_order inventory)
  ≡ₚ filter (fun c => fc_thread_id c ∉ tr_target_baseline_thread_ids t) inventory.
Proof. by rewrite (sort_by_perm candidate_order inventory). Qed.

(** C25. Reconciling an inventory with its sort, its binary searches and its
    early returns is the reference on sets: only a transition that waits for
    a fork is reconciled; an inventory with a bad or repeated thread is
    refused; otherwise the threads outside the baseline decide, whatever the
    order of the inventory - exactly one strict match is adopted, none allows
    the one retry, and everything else needs an explicit decision. *)
Theorem reconcile_equiv t inventory :
  reconcile_fork_candidates t inventory = reconcile_reference t inventory.
Proof.
  unfold reconcile_fork_candidates, reconcile_reference.
  destruct (decide (tr_reason t = UnknownLegacy)) as [Hr|Hr].
  { by rewrite (bool_decide_eq_true_2 _ Hr). }
  rewrite (bool_decide_eq_false_2 _ Hr). cbn [reject_if mbind result_bind].
  destruct (validate_sorted_thread_ids_spec (tr_target_baseline_thread_ids t)) as [Hb Hb'].
  destruct (inventory_checks inventory) as [Hi Hi'].
  match goal with |- reject_if ?b _ ≫= _ = _ => destruct b eqn:Hg end; cbn [reject_if mbind result_bind].
  { rewrite decide_False; [done|]. intros (H1 & H2 & _).
    by rewrite (proj2 (guard_spec t inventory) (conj H1 H2)) in Hg. }
  apply guard_spec in Hg as [Hret Hlen].
  destruct (decide (retryable t ∧ _)) as [(_ & _ & Hok)|Hn].
  - rewrite (proj2 Hb Hok). cbn [mbind result_bind]. destruct (decide (Forall _ _ ∧ _)) as [Hinv|Hn].
    + rewrite (proj2 Hi Hinv). cbn [mbind result_bind]. rewrite (filter_new t inventory Hok).
      rewrite <- (decide_new_perm _ _ _ (filter_sorted_perm t inventory)).
      by destruct (filter _ _) as [|c [|c' l]].
    + destruct Hi' as [E|E]; [by apply Hi in E|]. by rewrite E.
  - destruct Hb' as [E|E]; [|by rewrite E]. destruct Hn. split_and!; [done..|]. by apply Hb.
Qed.
End equiv.
End reconcile.
