(* ===== verification/HandoffEffects.v ===== *)
(** * The handoff driver: what it asks of the providers

    [handoff_effects]: over any history of driver calls, restarts and ordinary
    launches, under any failure of the directory and of the runtime, the
    provider operations come in the order of the phases, each on the durable
    transition, and a fork is requested at most twice, each time after its
    durable intent. *)
From S2P Require Import Prelude Interfaces Profiles Storage RoutingDefs ConversationData.
From S2P Require Import ConversationOps ConversationStore ConversationProofs ConversationSpec.
From S2P Require Import ConversationSteps ConversationHandoff ConversationTheorems ConversationDisk.
From S2P Require Import HandoffTransaction.

Open Scope Z_scope.

(** ** Effects and progress *)

Inductive Effect := Ef_Stop | Ef_Baseline | Ef_Fork | Ef_Inventory | Ef_Attach.

#[export] Instance Effect_eq_dec : EqDecision Effect.
Proof. solve_decision. Defined.

(** The phase in which an operation is asked for. *)
Definition effect_phase (ef : Effect) : HandoffPhase :=
  match ef with
  | Ef_Stop => Hp_SourceStopRequested
  | Ef_Baseline => Hp_SourceStopped
  | Ef_Fork | Ef_Inventory => Hp_ForkRequested
  | Ef_Attach => Hp_CommittedUnattached
  end.

(** What has to succeed before a handoff gets past a rank. *)
Definition level (ef : Effect) : Z :=
  match ef with Ef_Stop => 1 | Ef_Baseline => 2 | Ef_Fork | Ef_Inventory => 4 | Ef_Attach => 6 end.

(** How far a transition has come; the two attempts are told apart. *)
Definition progress (t : HandoffTransition) : Z :=
  match tr_phase t with
  | Hp_Prepared => 0
  | Hp_SourceStopRequested => 1
  | Hp_SourceStopped => 2
  | Hp_ForkRequested => 2 + tr_fork_attempts t
  | Hp_ForkObserved => 5
  | Hp_CommittedUnattached => 6
  end.

Abbreviation active := cd_active_transition.

(** [7]: the handoff is over. *)
Definition rank (o : option HandoffTransition) : Z :=
  match o with Some t => progress t | None => 7 end.

(** An operation that was asked for, and whether it succeeded. *)
Record Asked := mkAsked {
  ak_effect : Effect;
  ak_ok : bool;
  ak_transition : HandoffTransition;
}.
Abbreviation trace := (list Asked).

(** Operations in order between two ranks: none goes back, and a fork is only
    asked for after the rank has moved up to it. *)
Fixpoint ordered (lo : Z) (es : trace) (hi : Z) : Prop :=
  match es with
  | [] => lo ≤ hi
  | mkAsked ef _ t :: es =>
      lo ≤ progress t ∧ tr_phase t = effect_phase ef ∧ (ef = Ef_Fork → lo < progress t) ∧
      ordered (progress t) es hi
  end.

Lemma ordered_le lo es hi : ordered lo es hi → lo ≤ hi.
Proof. revert lo. induction es as [|[ef ok t] es IH]; cbn; [done|]. intros lo (? & _ & _ & ?%IH). lia. Qed.

Lemma ordered_app lo es1 mid es2 hi :
  ordered lo es1 mid → ordered mid es2 hi → ordered lo (es1 ++ es2) hi.
Proof.
  revert lo. induction es1 as [|[ef t] es1 IH]; cbn; intros lo.
  - intros Hlo H. destruct es2 as [|[ef ok t] es2]; cbn in *; [lia|]. destruct H as (? & ? & Hf & ?).
    split_and!; [lia|done| |done]. intros E. specialize (Hf E). lia.
  - intros (? & ? & ? & ?) ?. split_and!; auto.
Qed.

Lemma ordered_hi lo es hi : ordered lo es hi → Forall (fun e => progress (ak_transition e) ≤ hi) es.
Proof.
  revert lo. induction es as [|[ef ok t] es IH]; cbn; intros lo; [constructor|].
  intros (_ & _ & _ & H). constructor; [by eapply ordered_le|by eapply IH].
Qed.

Definition forks (es : trace) : trace := filter (fun e => ak_effect e = Ef_Fork) es.

(** What the order means for a whole trace. *)
Lemma ordered_ge lo es hi : ordered lo es hi → Forall (fun e => lo ≤ progress (ak_transition e)) es.
Proof.
  revert lo. induction es as [|[ef ok t] es IH]; cbn; intros lo; [constructor|].
  intros (? & _ & _ & H). constructor; [done|].
  eapply Forall_impl; [by apply IH|]. cbn. intros; lia.
Qed.
Lemma ordered_sorted lo es hi :
  ordered lo es hi → StronglySorted (fun x y => progress (ak_transition x) ≤ progress (ak_transition y)) es.
Proof.
  revert lo. induction es as [|[ef ok t] es IH]; cbn; intros lo; [constructor|].
  intros (_ & _ & _ & H). constructor; [by eapply IH|]. by eapply ordered_ge.
Qed.
Lemma ordered_phases lo es hi :
  ordered lo es hi → Forall (fun e => tr_phase (ak_transition e) = effect_phase (ak_effect e)) es.
Proof.
  revert lo. induction es as [|[ef ok t] es IH]; cbn; intros lo; [constructor|].
  intros (_ & ? & _ & H). constructor; [done|by eapply IH].
Qed.

(** Every fork of an ordered trace has a higher rank than what precedes it. *)
Lemma ordered_forks lo es hi :
  ordered lo es hi → Forall (fun e => ak_effect e = Ef_Fork → lo < progress (ak_transition e)) es.
Proof.
  revert lo. induction es as [|[ef ok t] es IH]; cbn; intros lo; [constructor|].
  intros (? & _ & ? & H). constructor.
  - done.
  - eapply Forall_impl; [by apply IH|]. cbn. intros e He E. specialize (He E). lia.
Qed.
Lemma forks_progress lo es hi :
  ordered lo es hi → StronglySorted (fun x y => progress (ak_transition x) < progress (ak_transition y)) (forks es).
Proof.
  unfold forks. revert lo. induction es as [|[ef ok t] es IH]; intros lo H; [constructor|].
  destruct H as (? & _ & _ & H). rewrite filter_cons. case_decide as Hf; [|by eapply IH].
  constructor; [by eapply IH|]. apply ordered_forks in H. rewrite Forall_forall in *.
  intros e [He Hin]%list_elem_of_filter. by apply H.
Qed.

(** Nothing is skipped: what has to be done before the rank moves from [lo] to
    [hi] has succeeded. *)
Definition succeeded (ef : Effect) (es : trace) : Prop := ∃ t, mkAsked ef true t ∈ es.
Definition earned (lo : Z) (es : trace) (hi : Z) : Prop :=
  ∀ ef, ef ≠ Ef_Fork → lo ≤ level ef → level ef < hi → succeeded ef es.

Lemma earned_same lo es : earned lo es lo.
Proof. intros ef _ ??. lia. Qed.
Lemma earned_app lo es1 mid es2 hi :
  earned lo es1 mid → earned mid es2 hi → earned lo (es1 ++ es2) hi.
Proof.
  intros H1 H2 ef Hf Hlo Hhi. destruct (Z_lt_le_dec (level ef) mid) as [Hm|Hm].
  - destruct (H1 ef Hf Hlo Hm) as [t Ht]. exists t. apply elem_of_app. by left.
  - destruct (H2 ef Hf Hm Hhi) as [t Ht]. exists t. apply elem_of_app. by right.
Qed.

(** ** A runtime that records what it is asked *)

Section logged.
Context (HR : HandoffRuntime).

Definition recording {A} (ef : Effect)
    (call : HandoffTransition → @hrt HR → result (@hrt_error HR) A * @hrt HR)
    (t : HandoffTransition) : @hrt HR * trace → result (@hrt_error HR) A * (@hrt HR * trace) :=
  fun '(s, log) => let '(r, s) := call t s in (r, (s, log ++ [mkAsked ef (is_ok r) t])).

Definition logged : HandoffRuntime := {|
  hrt := @hrt HR * trace;
  hrt_error := @hrt_error HR;
  stop_and_reap_source := recording Ef_Stop stop_and_reap_source;
  capture_target_baseline := recording Ef_Baseline capture_target_baseline;
  request_fork := recording Ef_Fork request_fork;
  reconcile_target_inventory := recording Ef_Inventory reconcile_target_inventory;
  attach_committed_target := recording Ef_Attach attach_committed_target;
|}.
End logged.

(** ** What one journal call of the driver does *)

Section journal.
Context {UC : UuidCrate} {SC : Sha256Crate} {SL : Sha256Law}.
Context {JC : JsonCodec ConversationDocument} {JR : JsonRoundTrip ConversationDocument document_in_range}.

(** A directory holds one document. *)
Lemma recoverable_unique k d d' : recoverable k d → recoverable k d' → d = d'.
Proof using JR.
  intros [Hf _ _ _] [Hf' _ _ _]. destruct (registry_file k) as [b|]; [|by subst].
  destruct (holds_read _ _ Hf) as [_ H], (holds_read _ _ Hf') as [_ H']. congruence.
Qed.

Lemma transact_v2_value {A} host (f : tx A) k d a k' :
  recoverable k d → transact_v2 host f k = (Ok a, k') →
  ∃ d0 d1, migrate d = Ok d0 ∧ f d0 = (Ok a, d1) ∧
    (d0 ← migrate d; changed ← run_tx f d0; next_revision (snd changed))
    = Ok (set_revision (cd_revision d1 + 1) d1).
Proof using JR.
  intros Hrec H. unfold transact_v2 in H.
  apply stM_bind_Ok in H as (d' & k1 & Hl & H). destruct (locked_Ok _ _ _ _ _ Hrec Hl) as [-> _].
  clear Hl. apply stM_bind_Ok in H as (d0 & ? & [= Hm <-] & H).
  apply stM_bind_Ok in H as ([v d1] & ? & [= Hf <-] & H).
  apply stM_bind_Ok in H as (d2 & ? & [= Hn <-] & H). cbn [fst snd] in *.
  pose proof (proj1 (run_tx_Ok _ _ _ _) Hf) as Hf'.
  assert (v = a) as -> by (inv_tx; done). exists d0, d1. split_and!; [done..|].
  rewrite Hm. cbn. rewrite Hf. cbn. rewrite Hn. by apply next_revision_Ok in Hn as [-> _].
Qed.

(** A call under [transact_v2]: it changed nothing, or the closure's document
    is stored and the value, if any, is the closure's. *)
Lemma transact_v2_cases {A} host (f : tx A) k d r k' :
  recoverable k d →
  (∀ d0 a d1, migrate d = Ok d0 → f d0 = (Ok a, d1) → step_ok False True d0 d1) →
  transact_v2 host f k = (r, k') →
  ∃ d', recoverable k' d' ∧
    ((d' = d ∧ ∃ e, r = Err e) ∨
     ∃ d0 a d1, migrate d = Ok d0 ∧ f d0 = (Ok a, d1) ∧ d' = set_revision (cd_revision d1 + 1) d1 ∧
       (r = Ok a ∨ ∃ e, r = Err e)).
Proof using JR SL.
  intros Hrec Hf H. destruct (transact_v2_outcome _ _ _ _ _ _ Hrec Hf H) as (d' & Hrec' & Ho).
  exists d'. split; [done|]. destruct r as [a|e].
  - right. destruct (transact_v2_value _ _ _ _ _ _ Hrec H) as (d0 & d1 & Hm & Hfa & Hc).
    destruct Ho as [Ho _]. exists d0, a, d1. split_and!; [done..| |by left]. congruence.
  - destruct Ho as [->|[_ [Ho _]]]; [left; by eauto|right].
    apply bind_Ok in Ho as (d0 & Hm & Ho). apply bind_Ok in Ho as ([a d1] & Hfa%run_tx_Ok & Ho).
    apply next_revision_Ok in Ho as [-> _]. exists d0, a, d1. split_and!; eauto.
Qed.

(** The active transition has moved on to [t], under its identifier. *)
Definition moved (o o' : option HandoffTransition) (t : HandoffTransition) : Prop :=
  o' = Some t ∧ tr_transition_id <$> o = Some (tr_transition_id t) ∧ rank o < progress t.

(** What a journal call of the driver does: nothing, or the change [P] of the
    active transition; the value it returns is the closure's. *)
Definition journal_call {A} (P : option HandoffTransition → option HandoffTransition → A → Prop)
    (d : ConversationDocument) (r : result ConversationError A) (k' : ConvDisk) : Prop :=
  ∃ d', recoverable k' d' ∧
    ((d' = d ∧ ∃ e, r = Err e) ∨
     ∃ a, P (cd_active_transition d) (cd_active_transition d') a ∧ (r = Ok a ∨ ∃ e, r = Err e)).

Lemma handoff_call {A B} env T (x : result ConversationError B) (f : tx A) P host k d r k' :
  recoverable k d → clock_in_range env → arguments_in_range T → is_handoff T = true →
  (∀ b, x = Ok b → plan env T = Ok (ignore f)) →
  (∀ d0 a d1, wf_document d0 → f d0 = (Ok a, d1) →
     P (cd_active_transition d0) (cd_active_transition d1) a) →
  (_ ← lift_result x; transact_v2 host f) k = (r, k') → journal_call P d r k'.
Proof using JR SL.
  intros Hrec Hc Ha HT Hp Hf H.
  apply lift_bind_inv in H as [(e & _ & -> & ->)|(u & Hu & H)].
  { exists d. split; [done|left]. by eauto. }
  pose proof (rec_valid _ _ Hrec) as Hd.
  eapply transact_v2_cases in H as (d' & Hrec' & Ho); [|done|].
  - exists d'. split; [done|]. destruct Ho as [Ho|(d0 & a & d1 & Hm & Hfa & -> & Ho)]; [by left|right].
    destruct (migrate_wf _ _ Hd Hm) as [Hd0 _]. pose proof (Hf _ _ _ Hd0 Hfa) as HP.
    destruct (migrate_same _ _ Hm) as (_ & _ & _ & _ & Hact). rewrite Hact in HP.
    by exists a.
  - intros d0 a d1 Hm Hfa. destruct (migrate_wf _ _ Hd Hm). by eapply plan_closure; eauto.
Qed.

Lemma moved_put d t t' r d' :
  cd_active_transition d = Some t → tr_transition_id t' = tr_transition_id t →
  progress t < progress t' → put_transition t' d = (Ok r, d') →
  moved (cd_active_transition d) (cd_active_transition d') r.
Proof.
  intros Ht Hid Hp H. apply put_transition_Ok in H as [-> ->].
  unfold moved. rewrite Ht. cbn. by rewrite Hid.
Qed.

(** Moving on to a phase; the highest rank of the phase. *)
Definition top (p : HandoffPhase) : Z :=
  match p with
  | Hp_Prepared => 0
  | Hp_SourceStopRequested => 1
  | Hp_SourceStopped => 2
  | Hp_ForkRequested => 4
  | Hp_ForkObserved => 5
  | Hp_CommittedUnattached => 6
  end.
Definition moved_to (p : HandoffPhase) (o o' : option HandoffTransition) (t : HandoffTransition)
    : Prop := moved o o' t ∧ tr_phase t = p ∧ progress t ≤ top p.


Lemma advance_moves env id p p' d r d' :
  (p, p') = (Hp_Prepared, Hp_SourceStopRequested) ∨
  (p, p') = (Hp_SourceStopRequested, Hp_SourceStopped) →
  advance_handoff_phase_tx env id p p' d = (Ok r, d') → moved_to p' (active d) (active d') r.
Proof.
  intros Hpp H. unfold advance_handoff_phase_tx in H. inv_tx.
  apply exact_transition_at_Ok in Hok0 as [Ht Hp].
  pose proof (proj1 (put_transition_Ok _ _ _ _ H)) as Er.
  split; [|rewrite Er; split; [done|destruct Hpp as [[= -> ->]|[= -> ->]]; unfold progress; cbn; lia]].
  eapply moved_put; [exact Ht| | |exact H]; [done|]. unfold progress. cbn. rewrite Hp.
  destruct Hpp as [[= -> ->]|[= -> ->]]; lia.
Qed.

Lemma fork_attempts_range d t :
  wf_document d → cd_active_transition d = Some t → tr_phase t = Hp_ForkRequested →
  1 ≤ tr_fork_attempts t ≤ 2.
Proof.
  intros Hd Ht Hp. destruct (wf_document_transition _ _ Hd Ht) as (_ & Hf & _).
  pose proof (wt_fork _ Hf) as H. unfold validate_fork_intent in H. rewrite Hp in H.
  assert (fork_started Hp_ForkRequested = true) as E by reflexivity. rewrite E in H.
  inv_ok. rewrite !orb_false_iff, negb_false_iff, andb_true_iff, !Z.leb_le in H. tauto.
Qed.

Lemma fork_intent_moves env id baseline d r d' :
  record_fork_intent_tx env id baseline d = (Ok r, d') →
  moved_to Hp_ForkRequested (active d) (active d') r.
Proof.
  intros H. unfold record_fork_intent_tx in H. inv_tx.
  apply exact_transition_at_Ok in Hok1 as [Ht Hp].
  pose proof (proj1 (put_transition_Ok _ _ _ _ H)) as Er.
  split; [|rewrite Er; split; [done|unfold progress; cbn; lia]].
  eapply moved_put; [exact Ht| | |exact H]; [done|]. unfold progress. cbn. rewrite Hp. lia.
Qed.

Lemma fork_retry_moves env id d r d' :
  record_bounded_fork_retry_tx env id d = (Ok r, d') →
  moved_to Hp_ForkRequested (active d) (active d') r.
Proof.
  intros H. unfold record_bounded_fork_retry_tx in H. inv_tx.
  apply exact_transition_at_Ok in Hok1 as [Ht Hp]. inv_ok.
  rewrite !orb_false_iff, negb_Zeqb_false in Hok0. destruct Hok0 as [[Hat _] _].
  pose proof (proj1 (put_transition_Ok _ _ _ _ H)) as Er.
  split; [|rewrite Er; split; [done|unfold progress; cbn; rewrite Hp; lia]].
  eapply moved_put; [exact Ht| | |exact H]; [done|]. unfold progress. cbn. rewrite Hp, Hat. lia.
Qed.

Lemma observe_moves env id target d r d' :
  wf_document d → observe_handoff_target_tx env id target d = (Ok r, d') →
  moved_to Hp_ForkObserved (active d) (active d') r.
Proof.
  intros Hd H. unfold observe_handoff_target_tx in H. inv_tx. inv_ok.
  match goal with E : exact_transition _ _ = Ok _ |- _ => apply exact_transition_Ok in E as Ht end.
  match goal with E : negb (bool_decide (tr_phase _ = _)) = false |- _ =>
    apply negb_bool_decide_false in E as Hp end.
  pose proof (proj1 (put_transition_Ok _ _ _ _ H)) as Er.
  split; [|rewrite Er; split; [done|unfold progress; cbn; lia]].
  eapply moved_put; [exact Ht| | |exact H]; [done|]. unfold progress. cbn. rewrite Hp.
  pose proof (fork_attempts_range _ _ Hd Ht Hp). lia.
Qed.

Lemma commit_moves env id d hb d' :
  commit_handoff_tx env id d = (Ok hb, d') →
  ∃ t, moved_to Hp_CommittedUnattached (active d) (active d') t.
Proof.
  intros (t & o & c & h & now & Ht & Hp & _ & _ & _ & _ & _ & _ & _ & ->)%commit_handoff_Ok.
  exists (at_phase Hp_CommittedUnattached now t).
  split; [|split; [done|unfold progress; cbn; lia]]. unfold moved. rewrite Ht.
  split_and!; [done..|]. cbn. unfold progress. cbn. rewrite Hp. lia.
Qed.

Lemma finish_moves id d hb d' :
  finish_handoff_attachment_tx id d = (Ok hb, d') → active d' = None.
Proof. intros H. unfold finish_handoff_attachment_tx in H. by inv_tx. Qed.

Section calls.
Context (host : Host) (env : CallEnv) (id : string) (k : ConvDisk) (d : ConversationDocument).
Context (Hrec : recoverable k d) (Hclock : clock_in_range env).

Lemma stop_requested_call r k' :
  mark_source_stop_requested host env id k = (r, k') →
  journal_call (moved_to Hp_SourceStopRequested) d r k'.
Proof using JR SL Hrec Hclock.
  apply (handoff_call env (T_StopRequested id)); try done; [by intros [] E; cbn; rewrite E|].
  intros d0 a d1 _. apply advance_moves. by left.
Qed.
Lemma stopped_call r k' :
  mark_source_stopped host env id k = (r, k') →
  journal_call (moved_to Hp_SourceStopped) d r k'.
Proof using JR SL Hrec Hclock.
  apply (handoff_call env (T_Stopped id)); try done; [by intros [] E; cbn; rewrite E|].
  intros d0 a d1 _. apply advance_moves. by right.
Qed.
Lemma fork_intent_call baseline r k' :
  record_fork_intent host env id baseline k = (r, k') →
  journal_call (moved_to Hp_ForkRequested) d r k'.
Proof using JR SL Hrec Hclock.
  apply (handoff_call env (T_ForkIntent id baseline)); try done; [by intros [] E; cbn; rewrite E|].
  intros d0 a d1 _. apply fork_intent_moves.
Qed.
Lemma fork_retry_call r k' :
  record_bounded_fork_retry host env id k = (r, k') →
  journal_call (moved_to Hp_ForkRequested) d r k'.
Proof using JR SL Hrec Hclock.
  apply (handoff_call env (T_ForkRetry id)); try done; [by intros [] E; cbn; rewrite E|].
  intros d0 a d1 _. apply fork_retry_moves.
Qed.
Lemma observe_call target r k' :
  rollout_in_range (ht_rollout target) →
  observe_handoff_target host env id target k = (r, k') →
  journal_call (moved_to Hp_ForkObserved) d r k'.
Proof using JR SL Hrec Hclock.
  intros Hr. apply (handoff_call env (T_ObserveTarget id target)); try done;
    [by intros [] E; cbn; rewrite E|]. intros d0 a d1. apply observe_moves.
Qed.
Lemma commit_call r k' :
  commit_handoff host env id k = (r, k') →
  journal_call (fun o o' _ => ∃ t, moved_to Hp_CommittedUnattached o o' t) d r k'.
Proof using JR SL Hrec Hclock.
  apply (handoff_call env (T_Commit id)); try done; [by intros [] E; cbn; rewrite E|].
  intros d0 a d1 _. apply commit_moves.
Qed.
Lemma finish_call r k' :
  finish_handoff_attachment host id k = (r, k') →
  journal_call (fun _ o' _ => o' = None) d r k'.
Proof using JR SL Hrec Hclock.
  apply (handoff_call env (T_Finish id)); try done; [by intros [] E; cbn; rewrite E|].
  intros d0 a d1 _. apply finish_moves.
Qed.
End calls.
End journal.

(** ** One call of the driver *)

Section driver.
Context {UC : UuidCrate} {SC : Sha256Crate} {SL : Sha256Law}.
Context {JC : JsonCodec ConversationDocument} {JR : JsonRoundTrip ConversationDocument document_in_range}.
Context (HR : HandoffRuntime).

(** The integers a runtime returns are values of their types. *)
Definition candidate_in_range (c : ForkCandidate HandoffTarget) : Prop :=
  match fc_projection c with Matching target => rollout_in_range (ht_rollout target) | Mismatch => True end.
Definition runtime_in_range : Prop := ∀ t s cs s',
  reconcile_target_inventory t s = (Ok cs, s') → Forall candidate_in_range cs.
Context (Hrange : runtime_in_range).

(** The handoff is the same, or over. *)
Definition same_handoff (o o' : option HandoffTransition) : Prop :=
  match o' with Some t' => tr_transition_id <$> o = Some (tr_transition_id t') | None => True end.

(** The transitions of an operation: it is recorded before a fork, and the
    others are asked for before the next one is recorded. *)
Definition durable (d d' : ConversationDocument) (e : Asked) : Prop :=
  Some (ak_transition e) = active (if decide (ak_effect e = Ef_Fork) then d' else d).

(** What a part of a call does to the directory and asks of the runtime. *)
Definition traced (d : ConversationDocument) (k' : ConvDisk) (log log' : trace) : Prop :=
  ∃ d' es, recoverable k' d' ∧ log' = log ++ es ∧
    ordered (rank (active d)) es (rank (active d')) ∧ earned (rank (active d)) es (rank (active d')) ∧
    same_handoff (active d) (active d') ∧ Forall (durable d d') es.

(** Operations on the active transition, before the next one is recorded. *)
Definition asks (t : HandoffTransition) (es : trace) : Prop :=
  Forall (fun e => ak_transition e = t ∧ tr_phase t = effect_phase (ak_effect e) ∧ ak_effect e ≠ Ef_Fork) es.

Lemma asks_ordered t es hi : asks t es → progress t ≤ hi → ordered (progress t) es hi.
Proof.
  intros H Hhi. induction H as [|[ef ok t'] es (Ht & Hp & Hf) _ IH]; [done|]. cbn in *. subst t'.
  by split_and!.
Qed.
Lemma asks_durable d d' t es : active d = Some t → asks t es → Forall (durable d d') es.
Proof.
  intros Ht H. eapply Forall_impl; [exact H|]. intros e (He & _ & Hf). unfold durable.
  by rewrite decide_False, He.
Qed.
Lemma asks_one t ef ok : tr_phase t = effect_phase ef → ef ≠ Ef_Fork → asks t [mkAsked ef ok t].
Proof. intros. by apply Forall_singleton. Qed.

Lemma traced_same d k log es :
  recoverable k d → ordered (rank (active d)) es (rank (active d)) → Forall (durable d d) es →
  traced d k log (log ++ es).
Proof.
  intros. exists d, es. split_and!; [done..|apply earned_same| |done]. by destruct (active d).
Qed.
Lemma traced_asks d k t es log :
  recoverable k d → active d = Some t → asks t es → traced d k log (log ++ es).
Proof.
  intros Hrec Ht H. apply traced_same; [done| |by eapply asks_durable].
  rewrite Ht. by apply asks_ordered.
Qed.
Lemma traced_nothing d k log : recoverable k d → traced d k log log.
Proof.
  intros Hrec. rewrite <- (app_nil_r log) at 2. apply traced_same; [done|by cbn|by constructor].
Qed.

(** A journal call after such operations. *)
Lemma traced_call {A} (P : option HandoffTransition → option HandoffTransition → A → Prop)
    d t es (r : result ConversationError A) k' log :
  active d = Some t → asks t es →
  (∀ o' a, P (Some t) o' a →
     progress t ≤ rank o' ∧ earned (progress t) es (rank o') ∧ same_handoff (Some t) o') →
  journal_call P d r k' → traced d k' log (log ++ es).
Proof.
  intros Ht H HP (d' & Hrec & [[-> _]|(a & Ha & _)]); [by eapply traced_asks|].
  rewrite Ht in Ha. apply HP in Ha as (Hp & He & Hs). exists d', es. rewrite Ht.
  split_and!; [done|done|by apply asks_ordered|done|done|by eapply asks_durable].
Qed.

(** Moving on to [p] asks for the operations below it. *)
Lemma earned_le lo es hi hi' : hi ≤ hi' → earned lo es hi' → earned lo es hi.
Proof. intros Hle H ef Hf Hlo Hhi. apply H; [done..|lia]. Qed.
Lemma moved_to_forward p es t o' a :
  earned (progress t) es (top p) → moved_to p (Some t) o' a →
  progress t ≤ rank o' ∧ earned (progress t) es (rank o') ∧ same_handoff (Some t) o'.
Proof.
  intros He [(-> & Hid & Hp) [_ Htop]]. cbn in *. split_and!; [lia| |done]. by eapply earned_le.
Qed.

(** The fork after its intent. *)
Lemma traced_fork d t es k' log t' ok :
  active d = Some t → asks t es → earned (progress t) es (top Hp_ForkRequested) →
  journal_call (moved_to Hp_ForkRequested) d (Ok t') k' →
  traced d k' log (log ++ es ++ [mkAsked Ef_Fork ok t']).
Proof.
  intros Ht H He (d' & Hrec & [[_ [e [=]]]|(a & Ha & [[= <-]|[e [=]]])]).
  rewrite Ht in Ha. destruct Ha as [(Ha & Hid & Hp) [Hph Htop]]. cbn in *.
  exists d', (es ++ [mkAsked Ef_Fork ok t']). rewrite Ht, Ha. split_and!; [done..| | |done|].
  - eapply ordered_app; [by apply asks_ordered|]. cbn. split_and!; lia || done.
  - eapply earned_app; [eapply earned_le; [exact Htop|exact He]|apply earned_same].
  - apply Forall_app. split; [by eapply asks_durable|]. apply Forall_singleton. done.
Qed.

(** Inverting the calls of the driver. *)
Lemma on_journal_inv {A B} (call : cs A) (f : A → stM (@World (logged HR)) _ B) k s r w :
  (on_journal (HR := logged HR) call ≫= f) (k, s) = (r, w) →
  (∃ e k', call k = (Err e, k') ∧ w = (k', s)) ∨
  (∃ a k', call k = (Ok a, k') ∧ f a (k', s) = (r, w)).
Proof.
  intros [(e & H & ->)|(a & w1 & H & Hf)]%stM_bind_cases; unfold on_journal in H;
    destruct (call k) as [[x|x] k'] eqn:E; injection H as ? <-; simplify_eq; eauto 10.
Qed.
Lemma on_runtime_inv {A B} ef (op : HandoffTransition → @hrt HR → result (@hrt_error HR) A * @hrt HR)
    t (f : A → stM (@World (logged HR)) _ B) k s log r w :
  (on_runtime (HR := logged HR) (recording HR ef op t) ≫= f) (k, (s, log)) = (r, w) →
  (∃ s', w = (k, (s', log ++ [mkAsked ef false t]))) ∨
  (∃ a s', op t s = (Ok a, s') ∧ f a (k, (s', log ++ [mkAsked ef true t])) = (r, w)).
Proof.
  intros [(e & H & ->)|(a & w1 & H & Hf)]%stM_bind_cases; unfold on_runtime, recording in H;
    destruct (op t s) as [[x|x] s'] eqn:E; injection H as ? <-; simplify_eq; eauto 10.
Qed.
Lemma current_handoff_active host k d o k' :
  recoverable k d → current_handoff host k = (Ok o, k') → recoverable k' d ∧ o = active d.
Proof using JR.
  intros Hrec H. eapply read_Ok in H as [[= <-] Hs]; [|done].
  split; [by eapply same_files_recoverable|done].
Qed.

(** An adopted target comes from the inventory. *)
Lemma reconcile_adopted {T} t (inv : list (ForkCandidate T)) target :
  reconcile_fork_candidates t inv = Ok (Adopt target) →
  ∃ c, c ∈ inv ∧ fc_projection c = Matching target.
Proof.
  unfold reconcile_fork_candidates. intros H. inv_ok.
  match type of H with context [List.filter ?f ?l] => destruct (List.filter f l) as [|c []] eqn:E end;
    try done; [by destruct (_ =? _)|].
  injection H as H. destruct (fc_projection c) eqn:Hc; simplify_eq. exists c. split; [|done].
  assert (c ∈ List.filter _ _) as Hin by (rewrite E; by apply list_elem_of_singleton).
  rewrite list_elem_of_In in Hin. apply filter_In in Hin as [Hin _].
  by rewrite <- list_elem_of_In, elem_of_sort_by in Hin.
Qed.

(** Every call of the driver. *)
Ltac pay := intros []; unfold progress; cbn; try done; try lia;
  intros; (by eexists; left) || (eexists; apply elem_of_app; by left).
Ltac settle_call := by eapply traced_call; [..|intros ??; apply moved_to_forward|].

Lemma reconcile_traced e t k d s log r k' s' log' :
  recoverable k d → clock_in_range (write_env e) → active d = Some t →
  tr_phase t = Hp_ForkRequested →
  reconcile_fork (HR := logged HR) e t (k, (s, log)) = (r, (k', (s', log'))) →
  traced d k' log log'.
Proof using JR SL Hrange.
  intros Hrec Hc Ht Hph H.
  pose proof (fork_attempts_range _ _ (rec_valid _ _ Hrec) Ht Hph) as Hat.
  assert (Hrank : progress t = 2 + tr_fork_attempts t) by (unfold progress; by rewrite Hph).
  assert (Ha : ∀ ok, asks t [mkAsked Ef_Inventory ok t]) by (intros; by apply asks_one).
  assert (He : earned (progress t) [mkAsked Ef_Inventory true t] (top Hp_ForkObserved)).
  { intros [] ? Hlo Hhi; rewrite Hrank in Hlo; cbn in *; try lia; try done. eexists. by left. }
  unfold reconcile_fork in H.
  apply (on_runtime_inv Ef_Inventory reconcile_target_inventory) in H
    as [(s1 & [= -> -> ->])|(inv & s1 & Hinv & H)]; [by eapply traced_asks|].
  apply Hrange in Hinv.
  apply stM_bind_cases in H as [(x & H & ->)|(dec & w & H & Hf)].
  { injection H as _ <- <- <-. by eapply traced_asks. }
  assert (w = (k, (s1, log ++ [mkAsked Ef_Inventory true t])) ∧
    reconcile_fork_candidates t inv = Ok dec) as [-> Hdec].
  { unfold decide_on, lift_result in H. injection H as H <-. split; [done|].
    unfold map_err in H. by destruct (reconcile_fork_candidates t inv); simplify_eq. }
  destruct dec as [target| |reason].
  - apply reconcile_adopted in Hdec as (c & Hin & Hm).
    rewrite Forall_forall in Hinv. specialize (Hinv c Hin). unfold candidate_in_range in Hinv.
    rewrite Hm in Hinv.
    apply on_journal_inv in Hf as [(x & k1 & H1 & [= -> -> ->])|(t' & k1 & H1 & [= _ <- <- <-])];
      apply (observe_call _ _ _ _ d) in H1; try done; settle_call.
  - assert (He' : earned (progress t) [mkAsked Ef_Inventory true t] (top Hp_ForkRequested))
      by (by eapply earned_le; [|exact He]).
    apply on_journal_inv in Hf as [(x & k1 & H1 & [= -> -> ->])|(t' & k1 & H1 & Hf)];
      apply (fork_retry_call _ _ _ _ d) in H1; try done; [settle_call|].
    apply (on_runtime_inv Ef_Fork request_fork) in Hf
      as [(s2 & [= -> -> ->])|(u & s2 & _ & [= _ <- <- <-])];
      rewrite <- app_assoc; by eapply traced_fork.
  - injection Hf as _ <- <- <-. by eapply traced_asks.
Qed.

Lemma resume_action_phase t a :
  resume_action t = Ok a →
  tr_phase t = match a with
               | PersistSourceStopIntent => Hp_Prepared
               | StopAndReapSource => Hp_SourceStopRequested
               | CaptureTargetBaselineAndFork => Hp_SourceStopped
               | ReconcileFork => Hp_ForkRequested
               | CommitObservedTarget => Hp_ForkObserved
               | AttachCommittedTarget => Hp_CommittedUnattached
               end.
Proof.
  unfold resume_action. intros H. inv_ok. destruct (tr_phase t); simplify_eq; try done.
  destruct (one_or_two _); by simplify_eq.
Qed.

Lemma resume_with_traced e t a d k s log r k' s' log' :
  recoverable k d → clock_in_range (write_env e) → active d = Some t → resume_action t = Ok a →
  resume_with (HR := logged HR) e t a (k, (s, log)) = (r, (k', (s', log'))) →
  traced d k' log log'.
Proof using JR SL Hrange.
  intros Hrec Hc Ht Hph%resume_action_phase H.
  assert (Hnil : asks t []) by constructor.
  assert (Ha : ∀ ef ok, effect_phase ef = tr_phase t → ef ≠ Ef_Fork → asks t [mkAsked ef ok t])
    by (intros; by apply asks_one).
  rewrite Hph in Ha. destruct a; cbn [resume_with] in H.
  - assert (earned (progress t) [] (top Hp_SourceStopRequested)) by (unfold progress; rewrite Hph; pay).
    apply on_journal_inv in H as [(x & k1 & H1 & [= -> -> ->])|(t' & k1 & H1 & [= _ <- <- <-])];
      apply (stop_requested_call _ _ _ _ d) in H1; try done;
      rewrite <- (app_nil_r log) at 2; settle_call.
  - assert (earned (progress t) [mkAsked Ef_Stop true t] (top Hp_SourceStopped))
      by (unfold progress; rewrite Hph; pay).
    apply (on_runtime_inv Ef_Stop stop_and_reap_source) in H
      as [(s1 & [= -> -> ->])|(u & s1 & _ & H)]; [by eapply traced_asks; [..|apply Ha]|].
    apply on_journal_inv in H as [(x & k1 & H1 & [= -> -> ->])|(t' & k1 & H1 & [= _ <- <- <-])];
      apply (stopped_call _ _ _ _ d) in H1; try done;
      by eapply traced_call; [..|apply Ha|intros ??; apply moved_to_forward|].
  - assert (earned (progress t) [mkAsked Ef_Baseline true t] (top Hp_ForkRequested))
      by (unfold progress; rewrite Hph; pay).
    apply (on_runtime_inv Ef_Baseline capture_target_baseline) in H
      as [(s1 & [= -> -> ->])|(ids & s1 & _ & H)]; [by eapply traced_asks; [..|apply Ha]|].
    apply on_journal_inv in H as [(x & k1 & H1 & [= -> -> ->])|(t' & k1 & H1 & H)];
      apply (fork_intent_call _ _ _ _ d) in H1; try done;
      [by eapply traced_call; [..|apply Ha|intros ??; apply moved_to_forward|]|].
    apply (on_runtime_inv Ef_Fork request_fork) in H
      as [(s2 & [= -> -> ->])|(u & s2 & _ & [= _ <- <- <-])];
      rewrite <- app_assoc; by eapply traced_fork; [..|apply Ha| |].
  - by eapply reconcile_traced.
  - assert (earned (progress t) [] (top Hp_CommittedUnattached)) by (unfold progress; rewrite Hph; pay).
    apply on_journal_inv in H as [(x & k1 & H1 & [= -> -> ->])|(t' & k1 & H1 & [= _ <- <- <-])];
      apply (commit_call _ _ _ _ d) in H1; try done;
      (rewrite <- (app_nil_r log) at 2; eapply traced_call; [done..| |done];
       intros o' a (t1 & Hm); by eapply moved_to_forward).
  - assert (earned (progress t) [mkAsked Ef_Attach true t] 7) by (unfold progress; rewrite Hph; pay).
    apply (on_runtime_inv Ef_Attach attach_committed_target) in H
      as [(s1 & [= -> -> ->])|(u & s1 & _ & H)]; [by eapply traced_asks; [..|apply Ha]|].
    apply on_journal_inv in H as [(x & k1 & H1 & [= -> -> ->])|(t' & k1 & H1 & [= _ <- <- <-])];
      apply (finish_call _ (write_env e) _ _ d) in H1; try done;
      (eapply traced_call; [done|by apply Ha| |done]; intros o' b ->; split_and!; [|done..];
       unfold progress; rewrite Hph; cbn; lia).
Qed.

Lemma resume_traced e d k s log r k' s' log' :
  recoverable k d → clock_in_range (write_env e) →
  resume_handoff_once (HR := logged HR) e (k, (s, log)) = (r, (k', (s', log'))) →
  traced d k' log log'.
Proof using JR SL Hrange.
  intros Hrec Hc H. unfold resume_handoff_once in H.
  apply on_journal_inv in H as [(x & k1 & H1 & [= -> -> ->])|(u & k1 & H1 & H)];
    apply try_lock_harmless in H1; pose proof (same_files_recoverable _ _ _ H1 Hrec) as Hrec1;
    [by apply traced_nothing|].
  apply on_journal_inv in H as [(x & k2 & H2 & [= -> -> ->])|(o & k2 & H2 & H)].
  { apply read_harmless in H2. apply traced_nothing. by eapply same_files_recoverable. }
  apply (current_handoff_active _ _ d) in H2 as [Hrec2 ->]; [|done].
  apply lift_bind_inv in H as [(x & _ & _ & [= -> -> ->])|(t & Ht & H)]; [by apply traced_nothing|].
  apply lift_bind_inv in H as [(x & _ & _ & [= -> -> ->])|(a & Ha & H)]; [by apply traced_nothing|].
  eapply resume_with_traced; [exact Hrec2|done| | |exact H].
  - unfold ok_or in Ht. by destruct (active d); simplify_eq.
  - unfold map_err in Ha. by destruct (resume_action t); simplify_eq.
Qed.
End driver.

(** ** Other calls of the journal *)

Section keeping.
Context {UC : UuidCrate}.

(** Closures that leave the handoff alone. *)
Definition keeping {A} (m : tx A) : Prop := ∀ d r d', m d = (r, d') → active d' = active d.

Lemma keeping_ret {A} (a : A) : keeping (mret a).
Proof. by intros d r d' [= _ <-]. Qed.
Lemma keeping_bind {A B} (m : tx A) (f : A → tx B) :
  keeping m → (∀ a, keeping (f a)) → keeping (m ≫= f).
Proof.
  intros Hm Hf d r d' H. apply stM_bind_cases in H as [(e & H & _)|(a & d1 & H & H')].
  - exact (Hm _ _ _ H).
  - rewrite (Hf _ _ _ _ H'). exact (Hm _ _ _ H).
Qed.
Lemma keeping_lift {A} (x : result ConversationError A) : keeping (lift_result x).
Proof. by intros d r d' [= _ <-]. Qed.
Lemma keeping_get : keeping get_st.
Proof. by intros d r d' [= _ <-]. Qed.
Lemma keeping_modify f : (∀ d, active (f d) = active d) → keeping (modify_st f).
Proof. by intros Hf d r d' [= _ <-]. Qed.
Lemma keeping_throw {A} e : keeping (throw (A := A) e).
Proof. by intros d r d' [= _ <-]. Qed.

Ltac keeping :=
  repeat first
    [ apply keeping_ret | apply keeping_get | apply keeping_throw | apply keeping_lift
    | (apply keeping_modify; done) | (apply keeping_bind; [|intros]) | case_match ].

Lemma mark_head_keeping cwd : keeping (mark_head_needs_selection cwd).
Proof. unfold mark_head_needs_selection. keeping. Qed.
Lemma not_transitioning_keeping cwd : keeping (ensure_workspace_not_transitioning cwd).
Proof. unfold ensure_workspace_not_transitioning. keeping. Qed.
Lemma bind_document_keeping env b : keeping (bind_document env b).
Proof. unfold bind_document, bind_conversation. keeping. Qed.

Lemma plan_keeping env t f :
  plan env t = Ok f → is_handoff t = false → keeping f.
Proof.
  pose proof mark_head_keeping as Hm. pose proof not_transitioning_keeping as Hn.
  pose proof (bind_document_keeping env) as Hb.
  intros Hf Ht. destruct t; try done; cbn in Hf; inv_ok;
    unfold ignore, begin_launch_tx, mark_pending_tx, finish_launch_tx, adopt_tx, refresh_adopted_tx,
      mark_workspace_ambiguous_tx, prepare_untracked_tx; keeping; auto.
Qed.

Lemma run_keeping {SC : Sha256Crate} {JC : JsonCodec ConversationDocument} env t d d' :
  is_handoff t = false → run env t d = Ok d' → active d' = active d.
Proof.
  intros Ht (f & d0 & u & d1 & Hf & H0 & H1 & -> & _)%run_Ok. unfold starting in H0. rewrite Ht in H0.
  injection H0 as <-. exact (plan_keeping _ _ _ Hf Ht _ _ _ H1).
Qed.
End keeping.

(** ** Histories *)

Section histories.
Context {UC : UuidCrate} {SC : Sha256Crate} {SL : Sha256Law}.
Context {JC : JsonCodec ConversationDocument} {JR : JsonRoundTrip ConversationDocument document_in_range}.
Context (HR : HandoffRuntime) (Hrange : runtime_in_range HR).

(** What may happen while a handoff is under way: a call of the driver, a
    crash after which the runtime is in any state, a call of the registry. *)
Inductive item :=
| It_Resume (e : ResumeEnv)
| It_Restart (s : @hrt HR)
| It_Call (host : Host) (env : CallEnv) (t : transaction).

Definition run_item (w : @World (logged HR)) (i : item) : @World (logged HR) :=
  match i, w with
  | It_Resume e, _ => snd (resume_handoff_once (HR := logged HR) e w)
  | It_Restart s, (k, (_, log)) => (k, (s, log))
  | It_Call host env t, (k, s) => (snd (perform host env t k), s)
  end.
Definition run_items : @World (logged HR) → list item → @World (logged HR) := foldl run_item.

(** The clocks answer in range, and the calls of the registry are those of
    ordinary launches. *)
Definition item_ok (i : item) : Prop :=
  match i with
  | It_Resume e => clock_in_range (write_env e)
  | It_Restart _ => True
  | It_Call _ env t => clock_in_range env ∧ arguments_in_range t ∧ is_handoff t = false
  end.

Lemma run_item_traced w i d :
  recoverable (fst w) d → item_ok i →
  traced d (fst (run_item w i)) (snd (snd w)) (snd (snd (run_item w i))).
Proof using JR SL Hrange.
  destruct w as [k [s log]], i as [e|s'|host env t]; cbn [fst snd run_item item_ok]; intros Hrec Hi.
  - destruct (resume_handoff_once _ _) as [r [k' [s' log']]] eqn:H. cbn.
    by eapply resume_traced.
  - by apply traced_nothing.
  - destruct Hi as (Hc & Ha & Ht). destruct (perform host env t k) as [r k'] eqn:H. cbn.
    destruct (perform_settled _ _ _ _ _ _ _ Hrec Hc Ha H) as (d' & Hrec' & Ho).
    assert (active d' = active d) as Hact.
    { destruct r; [by eapply run_keeping; [|apply Ho]|].
      destruct Ho as [->|[_ (Ho & _)]]; [done|by eapply run_keeping]. }
    exists d', []. rewrite app_nil_r, Hact.
    split_and!; [done|done|by cbn|apply earned_same| |by constructor]. by destruct (active d).
Qed.

(** What a history leaves behind: a directory, and a trace in order. *)
Definition recorded (d : ConversationDocument) (e : Asked) : Prop :=
  ∃ d', wf_document d' ∧ active d' = Some (ak_transition e) ∧ same_handoff (active d) (active d').
Definition history (d : ConversationDocument) (w : @World (logged HR)) (log : trace) : Prop :=
  ∃ d' es, recoverable (fst w) d' ∧ snd (snd w) = log ++ es ∧
    ordered (rank (active d)) es (rank (active d')) ∧ earned (rank (active d)) es (rank (active d')) ∧
    same_handoff (active d) (active d') ∧ Forall (recorded d) es.

Lemma same_handoff_refl o : same_handoff o o.
Proof. by destruct o. Qed.
Lemma same_handoff_trans o1 o2 o3 : same_handoff o1 o2 → same_handoff o2 o3 → same_handoff o1 o3.
Proof. destruct o3; [|done]. cbn. destruct o2; cbn; [congruence|done]. Qed.

Lemma run_items_history items w d :
  recoverable (fst w) d → Forall item_ok items → history d (run_items w items) (snd (snd w)).
Proof using JR SL Hrange.
  intros Hrec Hi. revert w d Hrec. induction Hi as [|i items Hi _ IH]; intros w d Hrec.
  - exists d, []. rewrite app_nil_r.
    split_and!; [done|done|by cbn|apply earned_same|apply same_handoff_refl|by constructor].
  - destruct (run_item_traced w i d Hrec Hi) as (d1 & es1 & Hrec1 & Hlog1 & Ho1 & He1 & Hs1 & Hd1).
    destruct (IH _ _ Hrec1) as (d2 & es2 & Hrec2 & Hlog2 & Ho2 & He2 & Hs2 & Hd2).
    change (run_items w (i :: items)) with (run_items (run_item w i) items).
    exists d2, (es1 ++ es2). split_and!; [done| |by eapply ordered_app|by eapply earned_app| |].
    + by rewrite Hlog2, Hlog1, app_assoc.
    + by eapply same_handoff_trans.
    + apply Forall_app. split.
      * eapply Forall_impl; [exact Hd1|]. intros e He. unfold durable in He.
        case_decide; [exists d1|exists d];
          (split_and!; [by eapply rec_valid|done|done || apply same_handoff_refl]).
      * eapply Forall_impl; [exact Hd2|]. intros e (d' & ? & ? & ?). exists d'.
        split_and!; [done..|by eapply same_handoff_trans].
Qed.

(** The attempts of the forks. *)
Lemma forks_bounded d lo es hi :
  ordered lo es hi → Forall (recorded d) es →
  (fun e => tr_fork_attempts (ak_transition e)) <$> forks es `sublist_of` [1; 2].
Proof.
  intros Ho Hr. pose proof (forks_progress _ _ _ Ho) as Hs. pose proof (ordered_phases _ _ _ Ho) as Hp.
  assert (Forall (fun e => progress (ak_transition e) = 2 + tr_fork_attempts (ak_transition e) ∧
    1 ≤ tr_fork_attempts (ak_transition e) ≤ 2) (forks es)) as Hf.
  { rewrite Forall_forall in *. intros e [He Hin]%list_elem_of_filter.
    specialize (Hp e Hin). rewrite He in Hp. cbn in Hp. split; [by unfold progress; rewrite Hp|].
    destruct (Hr e Hin) as (d' & Hd' & Ht & _). by eapply fork_attempts_range. }
  clear Ho Hr Hp. destruct (forks es) as [|a [|b [|c l]]]; cbn.
  all: repeat match goal with
    | H : StronglySorted _ (_ :: _) |- _ => apply StronglySorted_inv in H as [? ?]
    | H : Forall _ (_ :: _) |- _ => apply Forall_cons in H as [? ?]
    end.
  - apply sublist_nil_l.
  - assert (tr_fork_attempts (ak_transition a) = 1 ∨ tr_fork_attempts (ak_transition a) = 2)
      as [-> | ->] by lia; repeat constructor.
  - assert (tr_fork_attempts (ak_transition a) = 1 ∧ tr_fork_attempts (ak_transition b) = 2)
      as [-> ->] by lia. repeat constructor.
  - lia.
Qed.

Lemma recorded_id d t es :
  active d = Some t → Forall (recorded d) es →
  Forall (fun e => tr_transition_id (ak_transition e) = tr_transition_id t) es.
Proof.
  intros Ht H. eapply Forall_impl; [exact H|]. intros e (d' & _ & He & Hs).
  rewrite Ht, He in Hs. cbn in Hs. congruence.
Qed.

(** C24. The life of a handoff. A directory holds a document whose active
    handoff is [t]; any sequence follows of calls of the driver, restarts that
    leave the runtime in any state and calls of ordinary launches, and any
    system call and any provider operation may fail. Then every provider
    operation was asked for in its phase of this handoff, in the order of the
    phases; at most two forks were requested, the first and the one retry,
    each after the intent with its number was stored; what the stored journal
    says is at or past every operation asked for; and the journal got past a
    phase only when the operation of the phase has succeeded: no fork before
    the source was stopped and reaped and the baseline taken, no adoption
    without an inventory, no end without the attachment. *)
Theorem handoff_effects k d t s items k' s' log :
  recoverable k d → active d = Some t → Forall item_ok items →
  run_items (k, (s, [])) items = (k', (s', log)) →
  Forall (fun e => tr_phase (ak_transition e) = effect_phase (ak_effect e) ∧
                   tr_transition_id (ak_transition e) = tr_transition_id t) log ∧
  StronglySorted (fun e1 e2 => progress (ak_transition e1) ≤ progress (ak_transition e2)) log ∧
  (fun e => tr_fork_attempts (ak_transition e)) <$> forks log `sublist_of` [1; 2] ∧
  ∃ d', (∀ host, healthy host → load host k' = (Ok d', k')) ∧ same_handoff (Some t) (active d') ∧
    Forall (fun e => progress (ak_transition e) ≤ rank (active d')) log ∧
    (∀ ef, ef ≠ Ef_Fork → progress t ≤ level ef → level ef < rank (active d') → succeeded ef log).
Proof using JR SL Hrange.
  intros Hrec Ht Hi H. pose proof (run_items_history _ (k, (s, [])) _ Hrec Hi) as Hh.
  rewrite H in Hh. destruct Hh as (d' & es & Hrec' & E & Ho & He & Hs & Hr). cbn in Hrec', E. subst es.
  split_and!.
  - apply Forall_and. split; [by eapply ordered_phases|by eapply recorded_id].
  - by eapply ordered_sorted.
  - by eapply forks_bounded.
  - exists d'. rewrite Ht in Ho, He, Hs. split_and!; [|done|by eapply ordered_hi|done].
    intros host Hh. by apply load_healthy.
Qed.
End histories.
