(* ===== verification/HandoffExamples.v ===== *)
(** * The handoff driver: a handoff on a concrete directory

    [handoff_effects] on the directory of [ConversationExamples]: the source is
    stopped, the first fork request is lost, the retry is found in the
    inventory, adopted, committed and attached. *)
From Stdlib Require Import Ascii.
From S2P Require Import Prelude Interfaces Profiles Storage RoutingDefs ConversationData.
From S2P Require Import ConversationOps ConversationStore ConversationProofs ConversationSpec.
From S2P Require Import ConversationSteps ConversationHandoff ConversationTheorems ConversationDisk.
From S2P Require Import ConversationCodec ConversationExamples HandoffTransaction HandoffEffects.

Open Scope Z_scope.

Module HandoffExample.
Import ConversationExample.

(** The provider of the target: what it has forked. The first request is
    lost. *)
Definition target : HandoffTarget :=
  mkHandoffTarget (id "9") "/work" "0.144.4" (rollout 12 "2026/rollout-9.jsonl").
#[export] Instance provider : HandoffRuntime := {|
  hrt := bool;
  hrt_error := ();
  stop_and_reap_source _ s := (Ok (), s);
  capture_target_baseline _ s := (Ok [id "8"], s);
  request_fork t s :=
    if tr_fork_attempts t =? 1 then (Err (), s) else (Ok (), true);
  reconcile_target_inventory _ s :=
    (Ok (mkForkCandidate (id "8") Mismatch
         :: if s : bool then [mkForkCandidate (id "9") (Matching target)] else []), s);
  attach_committed_target _ s := (Ok (), s);
|}.

Lemma provider_in_range : runtime_in_range provider.
Proof.
  intros t s cs s' [= <- _]. constructor; [done|]. destruct s; repeat constructor;
  vm_compute; intuition congruence.
Qed.

Definition lock : option LockMetadata :=
  Some (mkLockMetadata (mkMetadata false true false 501 33152 1) 1 40).
Definition resume (fails : list CallStep) (now : Z) : item provider :=
  It_Resume _ (mkResumeEnv _ (host []) lock lock (Some true) Tl_Acquired (host []) (host fails)
                 (env "c" now)).

(** One of the calls fails before it is stored; the driver is restarted. *)
Definition items : list (item provider) := [
  resume [] 120; resume [Cs_Write Cf_Registry] 125; It_Restart _ false; resume [] 130; resume [] 140;
  It_Restart _ false; resume [] 150; resume [] 160; resume [] 170; resume [] 180].

Abbreviation final := (run_items provider (disk 2, (false, [])) items).
(** Used to evaluate facts before they are taken apart. *)
Definition is_Some_b {A} (o : option A) : bool := match o with Some _ => true | None => false end.
Lemma is_Some_b_spec {A} (o : option A) : is_Some_b o = true → ∃ a, o = Some a.
Proof. destruct o as [a|]; [|done]. by exists a. Qed.

Abbreviation started := (cd_active_transition (document 2)).

Lemma disk_2 : load (host []) (disk 2) = (Ok (document 2), disk 2).
Proof. vm_compute. reflexivity. Qed.
Lemma is_started : is_Some_b started = true.
Proof. vm_compute. reflexivity. Qed.
Lemma started_some : ∃ t, started = Some t.
Proof. exact (is_Some_b_spec _ is_started). Qed.
Lemma items_ok : Forall (item_ok provider) items.
Proof.
  assert (∀ c t, 0 ≤ t → clock_in_range (env c t)) as Hc by (intros c t Ht s [= <-]; done).
  repeat constructor; by apply Hc.
Qed.
Lemma final_parts : final = (fst final, (fst (snd final), snd (snd final))).
Proof. by destruct final as [k' [s' log]]. Qed.

Lemma not_empty {A} (l : list A) n : length l = S n → l ≠ [].
Proof. by destruct l. Qed.
Lemma two_forks : length (forks (snd (snd final))) = 2%nat.
Proof. vm_compute. reflexivity. Qed.
Lemma final_forks : forks (snd (snd final)) ≠ [].
Proof. exact (not_empty _ 1 two_forks). Qed.

Lemma handoff_effects_witness :
  (fun e => tr_fork_attempts (ak_transition e)) <$> forks (snd (snd final)) `sublist_of` [1; 2] ∧
  forks (snd (snd final)) ≠ [].
Proof.
  destruct started_some as [t E].
  split; [|exact final_forks].
  exact (proj1 (proj2 (proj2 (handoff_effects provider provider_in_range (disk 2) (document 2) t
    false items (fst final) (fst (snd final)) (snd (snd final)) (disk_recoverable 2 disk_2) E items_ok
    final_parts)))).
Defined.
End HandoffExample.
