(* ===== verification/CodexLines.v ===== *)
(** * Codex app server: its output, line by line (src/providers/codex.rs)

    [read_bounded_line] and [read_stdout]: the JSONL stream a provider writes
    is cut into lines of a bounded length as it arrives, in whatever pieces
    the pipe delivers it. [stdout_chunking]: the pieces do not matter. *)
From Stdlib Require Import Ascii.
From S2P Require Import Prelude Interfaces.

Open Scope Z_scope.

Definition MAX_JSONL_LINE_BYTES : Z := 1024 * 1024.

(** ** [String::from_utf8] *)

Definition in_byte_range (lo hi b : Z) : bool := (lo <=? b) && (b <=? hi).
Definition continuation (b : Z) : bool := in_byte_range 128 191 b.

(** The well-formed byte sequences of Unicode. *)
Fixpoint utf8_valid (l : bytes) : bool :=
  match l with
  | [] => true
  | b1 :: l1 =>
      if b1 <=? 127 then (0 <=? b1) && utf8_valid l1
      else match l1 with
      | [] => false
      | b2 :: l2 =>
          if in_byte_range 194 223 b1 then continuation b2 && utf8_valid l2
          else match l2 with
          | [] => false
          | b3 :: l3 =>
              if (b1 =? 224) && in_byte_range 160 191 b2
                 || (b1 =? 237) && in_byte_range 128 159 b2
                 || (in_byte_range 225 236 b1 || in_byte_range 238 239 b1) && continuation b2
              then continuation b3 && utf8_valid l3
              else match l3 with
              | [] => false
              | b4 :: l4 =>
                  if (b1 =? 240) && in_byte_range 144 191 b2
                     || in_byte_range 241 243 b1 && continuation b2
                     || (b1 =? 244) && in_byte_range 128 143 b2
                  then continuation b3 && continuation b4 && utf8_valid l4
                  else false
              end
          end
      end
  end.

Definition string_of_bytes (l : bytes) : string :=
  String.string_of_list_ascii ((fun b => ascii_of_N (Z.to_N b)) <$> l).

Definition from_utf8 (l : bytes) : option string :=
  if utf8_valid l then Some (string_of_bytes l) else None.

(** ** Lines *)

(** What [fill_buf] returns: the bytes of one read, or an error. A reader is
    what its reads will return; at the end every read is empty. *)
Inductive Fill := Fb_Data (b : bytes) | Fb_Error.
Abbreviation Reader := (list Fill).

(** The two kinds of [io::Error] that are told apart. *)
Inductive LineError := Le_InvalidData | Le_Io.

Definition is_newline (b : Z) : bool := b =? 10.

(** [consume] of a part of the buffer. *)
Definition unread (rest : bytes) (r : Reader) : Reader :=
  match rest with [] => r | _ => Fb_Data rest :: r end.

(** One carriage return at the end of a terminated line is dropped. *)
Definition strip_cr (l : bytes) : bytes :=
  match last l with Some 13 => removelast l | _ => l end.

Definition decode_line (l : bytes) : result LineError (option string) :=
  s ← ok_or (from_utf8 l) Le_InvalidData;
  Ok (Some s).

Definition end_of_input (acc : bytes) : result LineError (option string) :=
  match acc with [] => Ok None | _ => decode_line acc end.

Fixpoint read_bounded_line (acc : bytes) (r : Reader)
    : result LineError (option string) * Reader :=
  match r with
  | [] => (end_of_input acc, [])
  | Fb_Error :: r => (Err Le_Io, r)
  | Fb_Data [] :: _ => (end_of_input acc, r)
  | Fb_Data buffer :: r' =>
      match position is_newline buffer with
      | Some newline =>
          if MAX_JSONL_LINE_BYTES <? len acc + Z.of_nat newline then (Err Le_InvalidData, r)
          else (decode_line (strip_cr (acc ++ take newline buffer)),
                unread (drop (S newline) buffer) r')
      | None =>
          if MAX_JSONL_LINE_BYTES <? len acc + len buffer then (Err Le_InvalidData, r)
          else read_bounded_line (acc ++ buffer) r'
      end
  end.

(** ** The reader thread *)

Inductive StdoutEvent := Line (s : string) | ProtocolError | TransportError | Eof.

(** The loop of [read_stdout] while its receiver listens; [fuel] bounds the
    number of lines. *)
Fixpoint read_stdout (fuel : nat) (r : Reader) : list StdoutEvent :=
  match fuel with
  | O => []
  | S fuel =>
      match read_bounded_line [] r with
      | (Ok (Some line), r) => Line line :: read_stdout fuel r
      | (Ok None, _) => [Eof]
      | (Err Le_InvalidData, _) => [ProtocolError]
      | (Err Le_Io, _) => [TransportError]
      end
  end.

(** ** The stream behind the reads *)

(** The bytes of a stream and how it ends. *)
Inductive Ending := En_Eof | En_Error.
Fixpoint stream (r : Reader) : bytes * Ending :=
  match r with
  | [] | Fb_Data [] :: _ => ([], En_Eof)
  | Fb_Error :: _ => ([], En_Error)
  | Fb_Data b :: r => let '(s, e) := stream r in (b ++ s, e)
  end.

(** The same, on the stream as a whole: the next line and what follows. *)
Definition reference_line (s : bytes) (e : Ending) : result LineError (option string) * bytes :=
  match position is_newline s with
  | Some newline =>
      if MAX_JSONL_LINE_BYTES <? Z.of_nat newline then (Err Le_InvalidData, s)
      else (decode_line (strip_cr (take newline s)), drop (S newline) s)
  | None =>
      if MAX_JSONL_LINE_BYTES <? len s then (Err Le_InvalidData, s)
      else (match e with En_Eof => end_of_input s | En_Error => Err Le_Io end, [])
  end.

Fixpoint reference_events (fuel : nat) (s : bytes) (e : Ending) : list StdoutEvent :=
  match fuel with
  | O => []
  | S fuel =>
      match reference_line s e with
      | (Ok (Some line), s) => Line line :: reference_events fuel s e
      | (Ok None, _) => [Eof]
      | (Err Le_InvalidData, _) => [ProtocolError]
      | (Err Le_Io, _) => [TransportError]
      end
  end.

(** ** The pieces do not matter *)

Lemma position_app {A} (f : A → bool) a b :
  position f (a ++ b)
  = match position f a with Some i => Some i | None => Nat.add (length a) <$> position f b end.
Proof.
  induction a as [|x a IH]; cbn; [by destruct (position f b)|].
  destruct (f x); [done|]. rewrite IH. destruct (position f a); [done|]. by destruct (position f b).
Qed.
Lemma position_lt {A} (f : A → bool) l i : position f l = Some i → (i < length l)%nat.
Proof. intros (x & Hx & _)%position_Some. by apply lookup_lt_Some in Hx. Qed.

Lemma stream_unread rest r :
  stream (unread rest r) = let '(s, e) := stream r in (rest ++ s, e).
Proof. destruct rest as [|b rest]; cbn; by destruct (stream r). Qed.

Lemma read_bounded_line_stream acc r s e :
  position is_newline acc = None → len acc ≤ MAX_JSONL_LINE_BYTES → stream r = (s, e) →
  fst (read_bounded_line acc r) = fst (reference_line (acc ++ s) e) ∧
  (∀ line, fst (read_bounded_line acc r) = Ok (Some line) →
     stream (snd (read_bounded_line acc r)) = (snd (reference_line (acc ++ s) e), e)).
Proof.
  revert acc s e. induction r as [|[[|b0 b]|] r IH]; intros acc s e Hacc Hlen Hs; cbn in Hs.
  - injection Hs as <- <-. unfold reference_line. rewrite app_nil_r, Hacc.
    by rewrite (proj2 (Z.ltb_ge _ _)).
  - injection Hs as <- <-. unfold reference_line. rewrite app_nil_r, Hacc.
    by rewrite (proj2 (Z.ltb_ge _ _)).
  - destruct (stream r) as [s0 e0] eqn:Hr. injection Hs as <- <-.
    change (b0 :: b ++ s0) with ((b0 :: b) ++ s0).
    cbn [read_bounded_line]. set (buffer := b0 :: b) in *. clearbody buffer.
    unfold reference_line. rewrite (position_app _ acc), Hacc, (position_app _ buffer).
    destruct (position is_newline buffer) as [i|] eqn:Hi; cbn [fmap option_fmap option_map].
    + pose proof (position_lt _ _ _ Hi) as Hlt.
      assert (len acc + Z.of_nat i = Z.of_nat (length acc + i)) as -> by (unfold len; lia).
      destruct (Z.ltb_spec MAX_JSONL_LINE_BYTES (Z.of_nat (length acc + i))) as [|Hle]; [done|].
      cbn [fst snd]. rewrite take_app_add, (take_app_le _ _ i) by lia. split; [done|].
      intros line _. rewrite stream_unread, Hr. f_equal.
      replace (S (length acc + i))%nat with (length acc + S i)%nat by lia.
      by rewrite drop_app_add, drop_app_le by lia.
    + destruct (Z.ltb_spec MAX_JSONL_LINE_BYTES (len acc + len buffer)) as [Hgt|Hle].
      * destruct (position is_newline s0) as [i|]; cbn [fmap option_fmap option_map fst].
        -- rewrite (proj2 (Z.ltb_lt _ _)); [done|]. unfold len in Hgt. lia.
        -- rewrite (proj2 (Z.ltb_lt _ _)); [done|]. unfold len in *. rewrite !length_app. lia.
      * assert (Hacc' : position is_newline (acc ++ buffer) = None).
        { by rewrite position_app, Hacc, Hi. }
        assert (Hlen' : len (acc ++ buffer) ≤ MAX_JSONL_LINE_BYTES)
          by (unfold len in *; rewrite length_app; lia).
        destruct (IH _ _ _ Hacc' Hlen' eq_refl) as [IH1 IH2]. unfold reference_line in IH1, IH2.
        rewrite (position_app _ (acc ++ buffer)), Hacc', length_app, <- app_assoc in IH1, IH2.
        destruct (position is_newline s0) as [i|]; cbn [fmap option_fmap option_map] in *;
          rewrite ?Nat.add_assoc; done.
  - injection Hs as <- <-. unfold reference_line. rewrite app_nil_r, Hacc.
    by rewrite (proj2 (Z.ltb_ge _ _)).
Qed.

Lemma read_line_stream r s e :
  stream r = (s, e) →
  fst (read_bounded_line [] r) = fst (reference_line s e) ∧
  (∀ line, fst (read_bounded_line [] r) = Ok (Some line) →
     stream (snd (read_bounded_line [] r)) = (snd (reference_line s e), e)).
Proof. intros Hs. by apply (read_bounded_line_stream []). Qed.

(** The next line takes at least one byte of the stream. *)
Lemma reference_line_shrinks s e line s' :
  reference_line s e = (Ok (Some line), s') → (length s' < length s)%nat.
Proof.
  unfold reference_line. destruct (position is_newline s) as [i|] eqn:Hi.
  - pose proof (position_lt _ _ _ Hi). destruct (_ <? _); intros [= _ <-].
    rewrite length_drop. lia.
  - destruct (_ <? _); [done|]. destruct e; [|done]. destruct s as [|b s]; [done|].
    intros [= _ <-]. cbn. lia.
Qed.

(** What the end of the output says of the end of the stream. *)
Lemma reference_line_end s e res s' :
  reference_line s e = (res, s') →
  (res = Ok None → e = En_Eof) ∧ (res = Err Le_Io → e = En_Error).
Proof.
  assert (∀ l, decode_line l ≠ Ok None ∧ decode_line l ≠ Err Le_Io) as Hd.
  { intros l. unfold decode_line, ok_or. by destruct (from_utf8 l). }
  unfold reference_line. intros H. destruct (position is_newline s).
  - destruct (_ <? _); injection H as <- _; [done|]. by destruct (Hd (strip_cr (take n s))).
  - destruct (_ <? _); injection H as <- _; [done|]. destruct e; [|done].
    unfold end_of_input. destruct s as [|b s]; [done|]. by destruct (Hd (b :: s)).
Qed.

(** The events are those of the stream as a whole. *)
Lemma read_stdout_stream fuel r s e :
  stream r = (s, e) → (length s < fuel)%nat → read_stdout fuel r = reference_events fuel s e.
Proof.
  revert r s. induction fuel as [|fuel IH]; intros r s Hs Hf; [lia|]. cbn [read_stdout reference_events].
  destruct (read_line_stream r s e Hs) as [H1 H2].
  destruct (read_bounded_line [] r) as [res r'] eqn:Hr, (reference_line s e) as [res' s'] eqn:Href.
  cbn [fst snd] in *. subst res'. destruct res as [[line|]|[]]; [|done..]. f_equal.
  apply IH; [by apply (H2 line)|]. apply reference_line_shrinks in Href. lia.
Qed.

(** Fuel beyond the length of the stream changes nothing. *)
Lemma reference_events_fuel fuel fuel' s e :
  (length s < fuel)%nat → (length s < fuel')%nat →
  reference_events fuel s e = reference_events fuel' s e.
Proof.
  revert fuel' s. induction fuel as [|fuel IH]; intros [|fuel'] s ??; try lia. cbn.
  destruct (reference_line s e) as [[[line|]|[]] s'] eqn:Hl; [|done..]. f_equal.
  apply reference_line_shrinks in Hl. apply IH; lia.
Qed.

(** There are no more lines than bytes, and one final event. *)
Lemma reference_events_ends fuel s e :
  (length s < fuel)%nat →
  ∃ lines final, reference_events fuel s e = (Line <$> lines) ++ [final] ∧
    (length lines ≤ length s)%nat ∧ (∀ line, final ≠ Line line) ∧
    (final = Eof → e = En_Eof) ∧ (final = TransportError → e = En_Error).
Proof.
  revert s. induction fuel as [|fuel IH]; intros s Hf; [lia|]. cbn.
  destruct (reference_line s e) as [[[line|]|[]] s'] eqn:H.
  - apply reference_line_shrinks in H. destruct (IH s' ltac:(lia)) as (lines & final & -> & Hl & Hr).
    exists (line :: lines), final. split_and!; [done|cbn; lia|apply Hr..].
  - exists [], Eof. apply reference_line_end in H as [He _].
    split_and!; [done|cbn; lia|done|by intros _; apply He|done].
  - exists [], ProtocolError. by split_and!; [|cbn; lia| | |].
  - exists [], TransportError. apply reference_line_end in H as [_ He].
    split_and!; [done|cbn; lia|done|done|by intros _; apply He].
Qed.

(** C28. The events of the reader thread are those of the stream as a whole: how
    its bytes were cut into reads changes nothing, a line ends at its first
    line feed, a line of more than [MAX_JSONL_LINE_BYTES] is a protocol error
    however much of it has arrived, and the thread always ends, after no more
    lines than the stream has bytes, with one final event. *)
Theorem stdout_chunking r :
  let '(s, e) := stream r in
  ∀ more, let fuel := S (length s + more) in
    read_stdout fuel r = reference_events fuel s e ∧
    ∃ lines final, read_stdout fuel r = (Line <$> lines) ++ [final] ∧
      (length lines ≤ length s)%nat ∧ (∀ line, final ≠ Line line) ∧
      (final = Eof → e = En_Eof) ∧ (final = TransportError → e = En_Error).
Proof.
  destruct (stream r) as [s e] eqn:Hs. intros more fuel. assert (length s < fuel)%nat by lia.
  split; [by apply read_stdout_stream|].
  rewrite (read_stdout_stream _ _ _ _ Hs) by done. by apply reference_events_ends.
Qed.
