(* ===== verification/CodexVersions.v ===== *)
(** * Codex versions (src/providers/codex.rs)

    What a provider says its version is: the user agent of the app server and
    the output of [codex --version]. [version_grammar]: the accepted versions
    are exactly the semantic versions of at most 64 characters, and where in
    the two texts they are read. *)
From Stdlib Require Import Ascii.
From S2P Require Import Prelude Interfaces Profiles UsageCache CodexLines.

Open Scope Z_scope.

Definition APP_SERVER_CLIENT_NAME : string := "calcifer".
Definition SUPPORTED_CODEX_STATUS_VERSIONS : list string := ["0.144.4"].
Definition MAX_VERSION_OUTPUT_BYTES : Z := 256.

Abbreviation word := (list ascii).

(** ** [std::str] on ASCII text *)

(** [split(sep)]. *)
Fixpoint split_all (sep : ascii) (l : word) : list word :=
  match l with
  | [] => [[]]
  | c :: l =>
      if Ascii.eqb c sep then [] :: split_all sep l
      else match split_all sep l with [] => [[c]] | w :: ws => (c :: w) :: ws end
  end.

(** [split_once(sep)]. *)
Fixpoint split_once (sep : ascii) (l : word) : option (word * word) :=
  match l with
  | [] => None
  | c :: l =>
      if Ascii.eqb c sep then Some ([], l)
      else '(before, after) ← split_once sep l; Some (c :: before, after)
  end.

Definition is_ascii_whitespace (c : ascii) : bool :=
  existsb (Nat.eqb (nat_of_ascii c)) [9; 10; 12; 13; 32]%nat.

(** [split_ascii_whitespace]: the words between white space; [current] is the
    word being read, reversed. *)
Definition finished (current : word) : list word :=
  match current with [] => [] | _ => [rev current] end.
Fixpoint split_words (current l : word) : list word :=
  match l with
  | [] => finished current
  | c :: l =>
      if is_ascii_whitespace c then finished current ++ split_words [] l
      else split_words (c :: current) l
  end.
Definition split_whitespace (l : word) : list word := split_words [] l.

Fixpoint strip_prefix (prefix l : word) : option word :=
  match prefix, l with
  | [], _ => Some l
  | p :: prefix, c :: l => if Ascii.eqb p c then strip_prefix prefix l else None
  | _ :: _, [] => None
  end.

(** The value of decimal digits, and the digits of a value ([format!]). *)
Definition digit_value (c : ascii) : Z := Z.of_nat (nat_of_ascii c) - 48.
Definition decimal_value (l : word) : Z := foldl (fun n c => 10 * n + digit_value c) 0 l.
Definition digit (n : Z) : ascii := ascii_of_nat (Z.to_nat n + 48).
Fixpoint show_digits (fuel : nat) (n : Z) : word :=
  match fuel with
  | O => []
  | S fuel => if n <? 10 then [digit n] else show_digits fuel (n / 10) ++ [digit (n mod 10)]
  end.
(** Twenty digits are enough for any [u64]. *)
Definition show_decimal (n : Z) : word := show_digits 20 n.

(** ** Versions *)

Definition all_digits (l : word) : bool := forallb is_ascii_digit l.

Definition starts_with_zero (l : word) : bool :=
  match l with c :: _ => Ascii.eqb c "0" | [] => false end.

Definition parse_version_component (component : word) : option Z :=
  if bool_decide (component = []) || (10 <? len component) || negb (all_digits component)
     || (1 <? len component) && starts_with_zero component
  then None
  else let n := decimal_value component in if n <=? u32_max then Some n else None.

Definition identifier_byte (c : ascii) : bool := is_ascii_alphanumeric c || Ascii.eqb c "-".

Definition valid_semver_identifiers (value : word) (reject_numeric_leading_zero : bool) : bool :=
  negb (bool_decide (value = []))
  && forallb (fun identifier =>
       negb (bool_decide (identifier = [])) && forallb identifier_byte identifier
       && negb (reject_numeric_leading_zero && (1 <? len identifier)
                && starts_with_zero identifier && all_digits identifier))
     (split_all "." value).

(** The three components of the core, checked against their printed form. *)
Definition parse_core (version core : word) : option word :=
  match split_all "." core with
  | [c1; c2; c3] =>
      major ← parse_version_component c1;
      minor ← parse_version_component c2;
      patch ← parse_version_component c3;
      let normalized_core :=
        show_decimal major ++ ["."%char] ++ show_decimal minor ++ ["."%char] ++ show_decimal patch in
      if bool_decide (normalized_core = core) then Some version else None
  | _ => None
  end.

Definition normalize_codex_version (version : word) : option word :=
  if bool_decide (version = []) || (64 <? len version) || negb (forallb is_ascii version) then None
  else
    without_build ←
      match split_once "+" version with
      | Some (without_build, build) =>
          if existsb (Ascii.eqb "+") build || negb (valid_semver_identifiers build false) then None
          else Some without_build
      | None => Some version
      end;
    core ←
      match split_once "-" without_build with
      | Some (core, prerelease) =>
          if negb (valid_semver_identifiers prerelease true) then None else Some core
      | None => Some without_build
      end;
    parse_core version core.

(** The version in the user agent of the app server. *)
Definition parse_codex_version (user_agent : string) : option string :=
  match split_whitespace (str_bytes user_agent) with
  | [] => None
  | token :: _ =>
      token ← strip_prefix (str_bytes APP_SERVER_CLIENT_NAME) token;
      version ← strip_prefix ["/"%char] token;
      String.string_of_list_ascii <$> normalize_codex_version version
  end.

(** The version in the output of [codex --version]; [None] stands for
    [CodexThreadError::Protocol]. *)
Definition parse_codex_version_output (output : bytes) : option string :=
  if MAX_VERSION_OUTPUT_BYTES <? len output then None
  else
    output ← from_utf8 output;
    match split_whitespace (str_bytes output) with
    | [name; version] =>
        if bool_decide (name = str_bytes "codex-cli")
        then String.string_of_list_ascii <$> normalize_codex_version version
        else None
    | _ => None
    end.

(** ** The grammar *)

Fixpoint join (sep : ascii) (ws : list word) : word :=
  match ws with
  | [] => []
  | [w] => w
  | w :: ws => w ++ sep :: join sep ws
  end.

(** An identifier of a prerelease or a build; numbers of a prerelease have no
    leading zero. *)
Definition identifier (numeric_rule : bool) (w : word) : Prop :=
  w ≠ [] ∧ Forall (fun c => identifier_byte c = true) w ∧
  (numeric_rule = true → Forall (fun c => is_ascii_digit c = true) w → (1 < length w)%nat →
   head w ≠ Some "0"%char).

Definition identifiers (numeric_rule : bool) (l : word) : Prop :=
  ∃ ws, ws ≠ [] ∧ l = join "." ws ∧ Forall (identifier numeric_rule) ws.

(** [major.minor.patch], then [-prerelease] and [+build], both optional. *)
Inductive semantic_version (v : word) : Prop :=
| sv_intro major minor patch pre build :
    0 ≤ major ≤ u32_max → 0 ≤ minor ≤ u32_max → 0 ≤ patch ≤ u32_max →
    (∀ p, pre = Some p → identifiers true p) → (∀ b, build = Some b → identifiers false b) →
    v = join "." [show_decimal major; show_decimal minor; show_decimal patch]
        ++ (match pre with Some p => "-"%char :: p | None => [] end)
        ++ (match build with Some b => "+"%char :: b | None => [] end) →
    semantic_version v.

(** ** Splitting and joining *)

Definition without (sep : ascii) (w : word) : Prop := Forall (fun c => c ≠ sep) w.

Lemma join_cons sep w ws : ws ≠ [] → join sep (w :: ws) = w ++ sep :: join sep ws.
Proof. by destruct ws. Qed.

Lemma split_all_not_nil sep l : split_all sep l ≠ [].
Proof. destruct l as [|c l]; cbn; [done|]. destruct (Ascii.eqb c sep), (split_all sep l); done. Qed.

Lemma join_split_all sep l : join sep (split_all sep l) = l.
Proof.
  induction l as [|c l IH]; [done|]. cbn [split_all].
  destruct (Ascii.eqb_spec c sep) as [->|Hc].
  - rewrite join_cons, IH; [done|apply split_all_not_nil].
  - destruct (split_all sep l) as [|w [|w' ws]] eqn:E; [by apply split_all_not_nil in E|by rewrite <- IH|].
    rewrite <- IH. done.
Qed.

Lemma split_all_without sep l : Forall (without sep) (split_all sep l).
Proof.
  induction l as [|c l IH]; cbn; [by repeat constructor|].
  destruct (Ascii.eqb_spec c sep) as [->|Hc]; [by repeat constructor|].
  destruct (split_all sep l) as [|w ws]; [by repeat constructor|].
  apply Forall_cons in IH as [? ?]. by repeat constructor.
Qed.

Lemma split_all_word sep w : without sep w → split_all sep w = [w].
Proof.
  induction 1 as [|c w Hc _ IH]; [done|]. cbn. rewrite IH. by rewrite (proj2 (Ascii.eqb_neq _ _)).
Qed.
Lemma split_all_app sep w l : without sep w → split_all sep (w ++ sep :: l) = w :: split_all sep l.
Proof.
  induction 1 as [|c w Hc _ IH]; cbn; [by rewrite Ascii.eqb_refl|].
  rewrite IH. by rewrite (proj2 (Ascii.eqb_neq _ _)).
Qed.
Lemma split_all_join sep ws : ws ≠ [] → Forall (without sep) ws → split_all sep (join sep ws) = ws.
Proof.
  intros Hne H. induction H as [|w ws Hw H IH]; [done|].
  destruct ws as [|w' ws]; [by apply split_all_word|].
  rewrite join_cons, split_all_app by done. by rewrite IH.
Qed.

Lemma split_once_spec sep l :
  match split_once sep l with
  | Some (before, after) => l = before ++ sep :: after ∧ without sep before
  | None => without sep l
  end.
Proof.
  induction l as [|c l IH]; cbn; [constructor|].
  destruct (Ascii.eqb_spec c sep) as [->|Hc]; [by split; [|constructor]|].
  destruct (split_once sep l) as [[before after]|]; cbn.
  - destruct IH as [-> IH]. by split; [|constructor].
  - by constructor.
Qed.
Lemma split_once_app sep w l : without sep w → split_once sep (w ++ sep :: l) = Some (w, l).
Proof.
  induction 1 as [|c w Hc _ IH]; cbn; [by rewrite Ascii.eqb_refl|].
  by rewrite (proj2 (Ascii.eqb_neq _ _)), IH.
Qed.
Lemma split_once_none sep l : without sep l → split_once sep l = None.
Proof.
  induction 1 as [|c w Hc _ IH]; cbn; [done|]. by rewrite (proj2 (Ascii.eqb_neq _ _)), IH.
Qed.

(** ** Decimal numbers *)

Lemma decimal_value_snoc l c : decimal_value (l ++ [c]) = 10 * decimal_value l + digit_value c.
Proof. unfold decimal_value. by rewrite foldl_app. Qed.

Lemma digit_byte n : 0 ≤ n ≤ 9 → is_ascii_digit (digit n) = true ∧ digit_value (digit n) = n ∧
  (n ≠ 0 → digit n ≠ "0"%char).
Proof.
  intros Hn. assert (n ∈ [0; 1; 2; 3; 4; 5; 6; 7; 8; 9]) as H.
  { rewrite !elem_of_cons. lia. }
  assert (Forall (fun n => is_ascii_digit (digit n) = true ∧ digit_value (digit n) = n ∧
    (n ≠ 0 → digit n ≠ "0"%char)) [0; 1; 2; 3; 4; 5; 6; 7; 8; 9]) as Hall.
  { repeat constructor; done. }
  rewrite Forall_forall in Hall. by apply Hall.
Qed.

Lemma show_digits_spec fuel n :
  0 ≤ n → n < 10 ^ Z.of_nat fuel →
  let l := show_digits fuel n in
  Forall (fun c => is_ascii_digit c = true) l ∧ decimal_value l = n ∧
  ((0 < fuel)%nat → l ≠ [] ∧ ((1 < length l)%nat → head l ≠ Some "0"%char) ∧
   10 ^ (len l - 1) ≤ Z.max 1 n).
Proof.
  revert n. induction fuel as [|fuel IH]; intros n Hn Hlt; cbn [show_digits].
  - cbn in Hlt. split_and!; [constructor|cbn; lia|lia].
  - destruct (Z.ltb_spec n 10) as [Hs|Hs].
    + destruct (digit_byte n) as (Hd & Hv & _); [lia|]. split_and!.
      * by repeat constructor.
      * unfold decimal_value. cbn. lia.
      * intros _. split_and!; [done|cbn; lia|change (1 ≤ Z.max 1 n); lia].
    + pose proof (Z.mod_pos_bound n 10 ltac:(lia)). pose proof (Z.div_mod n 10 ltac:(lia)).
      assert (1 ≤ n / 10) by (apply Z.div_le_lower_bound; lia).
      assert (n / 10 < 10 ^ Z.of_nat fuel) as Hq.
      { apply Z.div_lt_upper_bound; [lia|]. rewrite Nat2Z.inj_succ, Z.pow_succ_r in Hlt; lia. }
      assert (0 < fuel)%nat as Hf by (destruct fuel; [cbn in Hq; lia|lia]).
      destruct (IH (n / 10)) as (Hd & Hv & Hh); [lia|lia|]. destruct (Hh Hf) as (Hne & Hz & Hlen).
      destruct (digit_byte (n mod 10)) as (Hd' & Hv' & _); [lia|]. split_and!.
      * apply Forall_app. split; [done|by repeat constructor].
      * rewrite decimal_value_snoc, Hv, Hv'. lia.
      * intros _. split_and!; [by destruct (show_digits fuel (n / 10))|intros _|].
        -- destruct (show_digits fuel (n / 10)) as [|c [|c' l]] eqn:E; [done| |by apply Hz; cbn; lia].
           cbn. intros [= ->]. assert (decimal_value ["0"%char] = 0) by reflexivity. lia.
        -- unfold len in *. rewrite length_app. cbn [length].
           replace (Z.of_nat (length (show_digits fuel (n / 10)) + 1) - 1)
             with (Z.succ (Z.of_nat (length (show_digits fuel (n / 10))) - 1)) by lia.
           rewrite Z.pow_succ_r; [lia|]. destruct (show_digits fuel (n / 10)); [done|cbn; lia].
Qed.

Lemma all_digits_spec l : all_digits l = true ↔ Forall (fun c => is_ascii_digit c = true) l.
Proof. unfold all_digits. by rewrite forallb_true, Forall_forall. Qed.

Lemma parse_version_component_range l n :
  parse_version_component l = Some n → 0 ≤ n ≤ u32_max ∧ all_digits l = true.
Proof.
  unfold parse_version_component. destruct (_ || _) eqn:E; [done|].
  rewrite !orb_false_iff, negb_false_iff in E. destruct E as [[_ E] _].
  destruct (Z.leb_spec (decimal_value l) u32_max); [|done]. intros [= <-]. split; [|done]. split; [|done].
  apply all_digits_spec in E. clear H. unfold decimal_value.
  assert (∀ a, 0 ≤ a → 0 ≤ foldl (fun n c => 10 * n + digit_value c) a l) as Hg; [|by apply Hg].
  induction E as [|c l Hc _ IH]; intros a Ha; cbn; [done|]. apply IH.
  unfold is_ascii_digit, byte_in in Hc. rewrite andb_true_iff, !Nat.leb_le in Hc. unfold digit_value. lia.
Qed.

Lemma parse_show n : 0 ≤ n ≤ u32_max → parse_version_component (show_decimal n) = Some n.
Proof.
  intros Hn. unfold u32_max in Hn. destruct (show_digits_spec 20 n) as (Hd & Hv & Hh); [lia|lia|].
  destruct (Hh ltac:(lia)) as (Hne & Hz & Hlen). fold (show_decimal n) in *.
  assert (len (show_decimal n) ≤ 10) as Hl.
  { apply Z.nlt_ge. intros H. assert (10 ^ 10 ≤ 10 ^ (len (show_decimal n) - 1)); [|lia].
    apply Z.pow_le_mono_r; lia. }
  unfold parse_version_component. rewrite (bool_decide_eq_false_2 _ Hne), (proj2 (Z.ltb_ge _ _) Hl).
  rewrite (proj2 (all_digits_spec _) Hd), Hv, (proj2 (Z.leb_le n u32_max)) by (unfold u32_max; lia).
  cbn [orb negb]. destruct (Z.ltb_spec 1 (len (show_decimal n))) as [Hlt|]; [|done].
  unfold starts_with_zero. destruct (show_decimal n) as [|c l]; [done|].
  destruct (Ascii.eqb_spec c "0") as [->|]; [|done]. exfalso. apply Hz; [unfold len in Hlt; lia|done].
Qed.

(** ** What is accepted *)

Lemma without_class (f : ascii → bool) sep l :
  f sep = false → Forall (fun c => f c = true) l → without sep l.
Proof. intros Hf H. eapply Forall_impl; [exact H|]. intros c Hc ->. congruence. Qed.

Lemma identifier_spec b w :
  negb (bool_decide (w = [])) && forallb identifier_byte w
  && negb (b && (1 <? len w) && starts_with_zero w && all_digits w) = true ↔ identifier b w.
Proof.
  rewrite !andb_true_iff, !negb_true_iff, bool_decide_eq_false, forallb_true, <- Forall_forall.
  unfold identifier. assert (starts_with_zero w = true ↔ head w = Some "0"%char) as Hz.
  { unfold starts_with_zero. destruct w as [|c w]; [done|]. rewrite Ascii.eqb_eq. cbn. split; congruence. }
  assert (1 <? len w = true ↔ (1 < length w)%nat) as Hl by (rewrite Z.ltb_lt; unfold len; lia).
  pose proof (all_digits_spec w) as Hd. split.
  - intros [[Hne Hb] Hn]. split_and!; [done..|]. intros -> Hdig%Hd Hlen%Hl Hhd%Hz.
    by rewrite Hlen, Hhd, Hdig in Hn.
  - intros (Hne & Hb & Hn). split_and!; [done..|].
    destruct b, (1 <? len w) eqn:E1, (starts_with_zero w) eqn:E2, (all_digits w) eqn:E3; try done.
    exfalso. by apply Hn; [|apply Hd|apply Hl|apply Hz].
Qed.

Lemma identifier_without sep b w : identifier_byte sep = false → identifier b w → without sep w.
Proof. intros Hs (_ & H & _). by eapply without_class. Qed.

Lemma valid_semver_identifiers_spec b l : valid_semver_identifiers l b = true ↔ identifiers b l.
Proof.
  unfold valid_semver_identifiers, identifiers.
  rewrite andb_true_iff, negb_true_iff, bool_decide_eq_false, forallb_true. split.
  - intros [Hne H]. exists (split_all "." l).
    split_and!; [apply split_all_not_nil|by rewrite join_split_all|].
    rewrite Forall_forall. intros w Hw. by apply identifier_spec, H.
  - intros (ws & Hne & -> & H). rewrite split_all_join; [|done|].
    + split; [|intros w Hw; rewrite Forall_forall in H; by apply identifier_spec, H].
      destruct ws as [|w ws]; [done|]. apply Forall_cons in H as [(Hw & _) _].
      destruct ws, w; done.
    + eapply Forall_impl; [exact H|]. intros w Hw. by eapply identifier_without.
Qed.

Lemma Forall_join (P : ascii → Prop) sep ws : P sep → Forall (Forall P) ws → Forall P (join sep ws).
Proof.
  intros Hs. induction 1 as [|w ws Hw H IH]; [constructor|]. destruct ws; [done|].
  rewrite join_cons by done. apply Forall_app. split; [done|]. by constructor.
Qed.

Lemma show_decimal_digits n : 0 ≤ n ≤ u32_max → Forall (fun c => is_ascii_digit c = true) (show_decimal n).
Proof. intros Hn. unfold u32_max in Hn. apply (show_digits_spec 20 n); lia. Qed.

Lemma join_three a b c : join "." [a; b; c] = a ++ "."%char :: b ++ "."%char :: c.
Proof. done. Qed.

(** The core of a version: three numbers. *)
Lemma core_spec v core :
  parse_core v core = Some v ↔
  ∃ major minor patch, 0 ≤ major ≤ u32_max ∧ 0 ≤ minor ≤ u32_max ∧ 0 ≤ patch ≤ u32_max ∧
    core = join "." [show_decimal major; show_decimal minor; show_decimal patch].
Proof.
  unfold parse_core. split.
  - destruct (split_all "." core) as [|c1 [|c2 [|c3 []]]]; try done. intros H.
    destruct (parse_version_component c1) as [a|] eqn:Ha; [|done].
    destruct (parse_version_component c2) as [b|] eqn:Hb; [|done].
    destruct (parse_version_component c3) as [c|] eqn:Hc; [|done]. cbn in H.
    apply parse_version_component_range in Ha as [Ha _], Hb as [Hb _], Hc as [Hc _].
    case_bool_decide as E; [|done]. exists a, b, c. by rewrite join_three, <- E.
  - intros (a & b & c & Ha & Hb & Hc & ->). rewrite split_all_join; [|done|].
    + rewrite !parse_show by done. cbn [mbind option_bind]. by rewrite bool_decide_eq_true_2.
    + repeat constructor; apply (without_class is_ascii_digit); try done; by apply show_decimal_digits.
Qed.

Lemma core_without sep a b c :
  is_ascii_digit sep = false → sep ≠ "."%char →
  0 ≤ a ≤ u32_max → 0 ≤ b ≤ u32_max → 0 ≤ c ≤ u32_max →
  without sep (join "." [show_decimal a; show_decimal b; show_decimal c]).
Proof.
  intros Hs Hd Ha Hb Hc. apply Forall_join; [done|].
  repeat constructor; apply (without_class is_ascii_digit); try done; by apply show_decimal_digits.
Qed.
Lemma identifiers_without sep b l :
  identifier_byte sep = false → sep ≠ "."%char → identifiers b l → without sep l.
Proof.
  intros Hs Hd (ws & _ & -> & H). apply Forall_join; [done|]. eapply Forall_impl; [exact H|].
  intros w Hw. by eapply identifier_without.
Qed.

Lemma class_ascii (f : ascii → bool) l :
  (∀ c, f c = true → is_ascii c = true) → Forall (fun c => f c = true) l →
  Forall (fun c => is_ascii c = true) l.
Proof. intros Hf H. eapply Forall_impl; [exact H|]. cbn. intros c. apply Hf. Qed.
Lemma byte_in_ascii lo hi c : (hi <= 127)%nat → byte_in lo hi c = true → is_ascii c = true.
Proof. unfold byte_in, is_ascii. rewrite andb_true_iff, !Nat.leb_le. lia. Qed.
Lemma identifier_byte_ascii c : identifier_byte c = true → is_ascii c = true.
Proof.
  unfold identifier_byte, is_ascii_alphanumeric, is_ascii_digit. rewrite !orb_true_iff, Ascii.eqb_eq.
  intros H. repeat destruct H as [H|H]; try (apply byte_in_ascii in H; [done|lia]). by subst.
Qed.

Lemma semantic_version_ascii v : semantic_version v → Forall (fun c => is_ascii c = true) v.
Proof.
  intros [a b c pre build Ha Hb Hc Hp Hbu ->].
  assert (∀ n, 0 ≤ n ≤ u32_max → Forall (fun c => is_ascii c = true) (show_decimal n)) as Hd.
  { intros n Hn. eapply class_ascii; [|by apply show_decimal_digits]. intros x. by apply byte_in_ascii; lia. }
  assert (∀ r l, identifiers r l → Forall (fun c => is_ascii c = true) l) as Hi.
  { intros r l (ws & _ & -> & H). apply Forall_join; [done|]. eapply Forall_impl; [exact H|].
    intros w (_ & Hw & _). eapply class_ascii; [apply identifier_byte_ascii|done]. }
  rewrite !Forall_app. split_and!; [apply Forall_join; [done|]; repeat constructor; by apply Hd| |].
  - destruct pre as [p|]; constructor; [done|by eapply Hi, Hp].
  - destruct build as [p|]; constructor; [done|by eapply Hi, Hbu].
Qed.

(** A part behind a separator. *)
Definition behind (sep : ascii) (part : option word) : word :=
  match part with Some p => sep :: p | None => [] end.

Lemma optional_part sep (reject : word → bool) v base :
  match split_once sep v with
  | Some (before, part) => if reject part then None else Some before
  | None => Some v
  end = Some base ↔
  ∃ part, v = base ++ behind sep part ∧ without sep base ∧ ∀ p, part = Some p → reject p = false.
Proof.
  split.
  - pose proof (split_once_spec sep v) as Hs. destruct (split_once sep v) as [[before part]|].
    + destruct (reject part) eqn:Hr; [done|]. intros [= ->]. exists (Some part).
      split_and!; [apply Hs..|by intros p [= <-]].
    + intros [= ->]. exists None. by rewrite app_nil_r.
  - intros (part & -> & Hb & Hr). destruct part as [p|]; cbn [behind].
    + rewrite split_once_app by done. by rewrite (Hr p eq_refl).
    + rewrite app_nil_r. by rewrite split_once_none.
Qed.

Lemma build_accepted p :
  existsb (Ascii.eqb "+") p || negb (valid_semver_identifiers p false) = false ↔ identifiers false p.
Proof.
  rewrite orb_false_iff, negb_false_iff, valid_semver_identifiers_spec. split; [tauto|].
  intros H. split; [|done]. apply existsb_false. intros x Hx. apply Ascii.eqb_neq.
  assert (without "+" p) as Hw by (by eapply identifiers_without).
  unfold without in Hw. rewrite Forall_forall in Hw. symmetry. by apply Hw.
Qed.
Lemma prerelease_accepted p : negb (valid_semver_identifiers p true) = false ↔ identifiers true p.
Proof. by rewrite negb_false_iff, valid_semver_identifiers_spec. Qed.

Lemma parse_core_same v core w : parse_core v core = Some w → w = v.
Proof.
  unfold parse_core. destruct (split_all "." core) as [|c1 [|c2 [|c3 []]]]; try done.
  destruct (parse_version_component c1), (parse_version_component c2), (parse_version_component c3);
    try done. cbn. case_bool_decide; congruence.
Qed.

(** ** Words between white space *)

(** The words of a text, in order: maximal runs of characters that are not
    white space. *)
Inductive words : word → list word → Prop :=
| words_end blanks : Forall (fun c => is_ascii_whitespace c = true) blanks → words blanks []
| words_next blanks w l ws :
    Forall (fun c => is_ascii_whitespace c = true) blanks →
    w ≠ [] → Forall (fun c => is_ascii_whitespace c = false) w →
    (∀ c, head l = Some c → is_ascii_whitespace c = true) →
    words l ws → words (blanks ++ w ++ l) (w :: ws).

Lemma words_blank c l ws : is_ascii_whitespace c = true → words l ws → words (c :: l) ws.
Proof.
  intros Hc [blanks Hb|blanks w rest ws' Hb Hw Hn Hr H].
  - by repeat constructor.
  - apply (words_next (c :: blanks)); [by constructor|done..].
Qed.
(** A word that was begun: what is left of it, and the rest. *)
Lemma split_words_sound current l :
  Forall (fun c => is_ascii_whitespace c = false) current → words (rev current ++ l) (split_words current l).
Proof.
  revert current. induction l as [|c l IH]; intros current Hcur; cbn [split_words].
  - rewrite app_nil_r. destruct current as [|x current]; [by apply words_end|].
    pose proof (words_next [] (rev (x :: current)) [] []) as Hn. rewrite app_nil_r in Hn.
    apply Hn; [done| | |done|by apply words_end].
    + intros H. apply (f_equal length) in H. rewrite length_rev in H. done.
    + by apply Forall_rev.
  - destruct (is_ascii_whitespace c) eqn:Hc.
    + specialize (IH [] ltac:(done)). cbn [rev app] in IH. destruct current as [|x current]; cbn [finished app].
      { by apply words_blank. }
      apply (words_next [] _ (c :: l)); [done| |by apply Forall_rev|by intros ? [= <-]|by apply words_blank].
      intros H. apply (f_equal length) in H. rewrite length_rev in H. done.
    + specialize (IH (c :: current) ltac:(by constructor)). cbn [rev] in IH. by rewrite <- app_assoc in IH.
Qed.
Lemma split_words_blanks blanks l :
  Forall (fun c => is_ascii_whitespace c = true) blanks → split_words [] (blanks ++ l) = split_words [] l.
Proof. induction 1 as [|c blanks Hc _ IH]; [done|]. cbn [app split_words]. by rewrite Hc. Qed.
Lemma split_words_word w current l :
  Forall (fun c => is_ascii_whitespace c = false) w →
  (∀ c, head l = Some c → is_ascii_whitespace c = true) → rev w ++ current ≠ [] →
  split_words current (w ++ l) = rev (rev w ++ current) :: split_words [] l.
Proof.
  intros Hw Hl. revert current. induction Hw as [|c w Hc _ IH]; intros current Hne; cbn [app].
  - destruct current as [|x current]; [done|]. destruct l as [|c l]; [done|].
    cbn [split_words]. by rewrite (Hl c eq_refl).
  - cbn [split_words rev]. rewrite Hc, <- app_assoc. apply IH. by destruct (rev w).
Qed.
Lemma split_whitespace_words l ws : split_whitespace l = ws ↔ words l ws.
Proof.
  split; [intros <-; by apply (split_words_sound [] l)|]. unfold split_whitespace.
  induction 1 as [blanks Hb|blanks w l ws Hb Hw Hn Hl _ IH].
  - rewrite <- (app_nil_r blanks). by rewrite split_words_blanks.
  - rewrite split_words_blanks, split_words_word by (done || by rewrite app_nil_r; intros H;
      apply (f_equal length) in H; rewrite length_rev in H; destruct w).
    by rewrite app_nil_r, rev_involutive, IH.
Qed.

Lemma strip_prefix_spec prefix l rest : strip_prefix prefix l = Some rest ↔ l = prefix ++ rest.
Proof.
  revert l. induction prefix as [|p prefix IH]; intros l; cbn; [by split; [intros [= ->]|intros ->]|].
  destruct l as [|c l]; [done|]. destruct (Ascii.eqb_spec p c) as [->|Hne]; [rewrite IH|];
    naive_solver.
Qed.

(** The versions of which the client works with. *)
Definition accepted_version (v : word) : Prop := len v ≤ 64 ∧ semantic_version v.

Lemma normalize_accepts v w : normalize_codex_version v = Some w ↔ w = v ∧ accepted_version v.
Proof.
  unfold normalize_codex_version, accepted_version. split.
  - destruct (_ || _) eqn:Hg; [done|]. rewrite !orb_false_iff, Z.ltb_ge in Hg. destruct Hg as [[_ Hlen] _].
    intros H. apply bind_Some in H as (base & Hb & H). apply bind_Some in H as (core & Hc & H).
    pose proof (parse_core_same _ _ _ H) as ->. split_and!; [done..|].
    apply (optional_part "+" (fun p => _ || _)) in Hb as (build & -> & _ & Hbuild).
    apply (optional_part "-" (fun p => negb _)) in Hc as (pre & -> & _ & Hpre).
    apply core_spec in H as (a & b & c & Ha & Hbb & Hcc & ->).
    exists a b c pre build; try done; [|..|by rewrite <- app_assoc].
    + intros p Hp. by apply prerelease_accepted, Hpre.
    + intros p Hp. by apply build_accepted, Hbuild.
  - intros (-> & Hlen & Hv). pose proof (semantic_version_ascii _ Hv) as Hasc.
    destruct Hv as [a b c pre build Ha Hb Hc Hp Hbu E].
    set (core := join "." [show_decimal a; show_decimal b; show_decimal c]) in *.
    assert (Hg : bool_decide (v = []) || (64 <? len v) || negb (forallb is_ascii v) = false).
    { rewrite !orb_false_iff, bool_decide_eq_false, Z.ltb_ge, negb_false_iff, forallb_true, <- Forall_forall.
      split_and!; [|done|done]. intros ->. symmetry in E. apply app_eq_nil in E as [E _].
      unfold core in E. rewrite join_three in E. by apply app_eq_nil in E as [_ E]. }
    rewrite Hg. apply bind_Some. exists (core ++ behind "-" pre). split.
    { apply (optional_part "+" (fun p => _ || _)). exists build. split_and!; [by rewrite <- app_assoc| |].
      - apply Forall_app. split; [by apply core_without|]. destruct pre as [p|]; constructor; [done|].
        by eapply identifiers_without, Hp.
      - intros p Hp'. by apply build_accepted, Hbu. }
    apply bind_Some. exists core. split; [|apply core_spec; by exists a, b, c].
    apply (optional_part "-" (fun p => negb _)). exists pre. split_and!; [done|by apply core_without|].
    intros p Hp'. by apply prerelease_accepted, Hp.
Qed.

Lemma normalize_text l v :
  String.string_of_list_ascii <$> normalize_codex_version l = Some v ↔
  l = str_bytes v ∧ accepted_version l.
Proof.
  rewrite fmap_Some. unfold str_bytes. split.
  - intros (w & [-> H]%normalize_accepts & ->). by rewrite String.list_ascii_of_string_of_list_ascii.
  - intros [-> H]. eexists. rewrite normalize_accepts. by rewrite String.string_of_list_ascii_of_string.
Qed.

(** C29. The versions the client accepts, and where it reads them. A version has
    at most 64 characters and the grammar of semantic versions - three numbers
    without leading zeros that fit in 32 bits, then an optional prerelease,
    then an optional build - and what is returned is the text itself. In the
    user agent of an app server it is what follows [calcifer/] in the first
    word; in the output of [codex --version], of at most 256 bytes of UTF-8, it
    is the second of exactly two words, the first of which is [codex-cli]. *)
Theorem version_grammar :
  (∀ v w, normalize_codex_version v = Some w ↔ w = v ∧ accepted_version v) ∧
  (∀ user_agent v, parse_codex_version user_agent = Some v ↔
     accepted_version (str_bytes v) ∧
     ∃ ws, words (str_bytes user_agent) ((str_bytes "calcifer/" ++ str_bytes v) :: ws)) ∧
  (∀ output v, parse_codex_version_output output = Some v ↔
     len output ≤ 256 ∧ accepted_version (str_bytes v) ∧
     ∃ text, from_utf8 output = Some text ∧ words (str_bytes text) [str_bytes "codex-cli"; str_bytes v]).
Proof.
  split; [exact normalize_accepts|]. split.
  - intros user_agent v. setoid_rewrite <- split_whitespace_words. unfold parse_codex_version.
    destruct (split_whitespace _) as [|token ws]; [naive_solver|]. rewrite bind_Some.
    setoid_rewrite bind_Some. setoid_rewrite normalize_text. setoid_rewrite strip_prefix_spec. split.
    + intros (rest & -> & version & -> & -> & Hv). split; [done|]. by exists ws.
    + intros (Hv & ws' & [= -> ->]). by eexists; split; [|eexists].
  - intros output v. setoid_rewrite <- split_whitespace_words.
    unfold parse_codex_version_output, MAX_VERSION_OUTPUT_BYTES.
    destruct (Z.ltb_spec 256 (len output)) as [|Hlen]; [naive_solver lia|]. rewrite bind_Some. split.
    + intros (text & Ht & H). destruct (split_whitespace _) as [|name [|version []]] eqn:Hw; try done.
      case_bool_decide as Hn; [|done]. apply normalize_text in H as [-> Hv]. subst name. by eauto.
    + intros (_ & Hv & text & Ht & Hw). exists text. split; [done|].
      rewrite Hw, bool_decide_eq_true_2 by done. by apply normalize_text.
Qed.
