(* ===== verification/AppServer.v ===== *)
(** * Codex app server: the client (src/providers/codex.rs)

    The one-shot conversations with a provider's app server: the handshake,
    the read of the account usage, the read of the thread inventory of a
    workspace and of one thread. A process is the script of what it will
    answer, with the clock readings of the client; every request that is
    written is recorded. [serde_json] values and the typed projections of
    [serde_json::from_value] are a parameter, the interface [JsonCrate]. *)
From Stdlib Require Import Ascii.
From S2P Require Import Prelude Interfaces Profiles UsageCache ConversationData CodexLines CodexVersions.
From S2P Require Import HandoffTransaction.

Open Scope Z_scope.

Definition THREAD_PAGE_SIZE : Z := 100.
Definition MAX_THREAD_PAGES_PER_STATE : nat := 8.
Definition INITIALIZE_REQUEST_ID : Z := 0.
Definition RATE_LIMITS_REQUEST_ID : Z := 1.
Definition CODEX_STATUS_PROTOCOL : string := "account/rateLimits/read".

(** ** Data *)

Record CodexRolloutFingerprint := mkCodexRolloutFingerprint {
  rf_device : Z;
  rf_inode : Z;
  rf_length : Z;
  rf_modified_seconds : Z;
  rf_modified_nanoseconds : Z;
  rf_changed_seconds : Z;
  rf_changed_nanoseconds : Z;
}.
#[export] Instance CodexRolloutFingerprint_eq_dec : EqDecision CodexRolloutFingerprint.
Proof. solve_decision. Defined.

Record CodexThreadMetadata := mkCodexThreadMetadata {
  tm_thread_id : string;
  tm_parent_thread_id : option string;
  tm_canonical_cwd : Path;
  tm_cli_version : string;
  tm_updated_at : Z;
  tm_recency_at : option Z;
  tm_archived : bool;
  tm_rollout_fingerprint : CodexRolloutFingerprint;
  tm_rollout_path : Path;
  tm_rollout_relative_path : Path;
}.

Record CodexThreadInventory := mkCodexThreadInventory {
  ti_codex_version : string;
  ti_threads : list CodexThreadMetadata;
  ti_complete : bool;
}.

Inductive CodexThreadLifecycle := Clean | Interrupted | UnknownCrash.

Record CodexThreadRead := mkCodexThreadRead {
  tr_codex_version : string;
  tr_metadata : CodexThreadMetadata;
  tr_lifecycle : CodexThreadLifecycle;
}.

Inductive CodexThreadError :=
| Te_UnsupportedVersion | Te_Protocol | Te_CwdMismatch | Te_Authentication | Te_Timeout
| Te_Transport | Te_Provider | Te_Spawn | Te_Missing | Te_Archived | Te_SessionSchema.

(** The only node kind of a snapshot is a regular file. *)
Record RolloutFileFingerprint := mkRolloutFileFingerprint {
  rl_relative_path : Path;
  rl_change : CodexRolloutFingerprint;
}.
Record RolloutRootSnapshot := mkRolloutRootSnapshot {
  rs_files : list RolloutFileFingerprint;
  rs_complete : bool;
}.
Record RolloutStoreSnapshot := mkRolloutStoreSnapshot {
  st_active : RolloutRootSnapshot;
  st_archived : RolloutRootSnapshot;
}.
#[export] Instance RolloutFileFingerprint_eq_dec : EqDecision RolloutFileFingerprint.
Proof. solve_decision. Defined.
#[export] Instance RolloutRootSnapshot_eq_dec : EqDecision RolloutRootSnapshot.
Proof. solve_decision. Defined.
#[export] Instance RolloutStoreSnapshot_eq_dec : EqDecision RolloutStoreSnapshot.
Proof. solve_decision. Defined.

Definition store_complete (s : RolloutStoreSnapshot) : bool :=
  rs_complete (st_active s) && rs_complete (st_archived s).

(** [Path::cmp]: the components in order. *)
Definition os_bytes (p : Path) : list ascii :=
  match p with Utf8 s => str_bytes s | NotUtf8 raw => (fun b => ascii_of_N (Z.to_N b)) <$> raw end.
Definition component_key (c : Component) : string :=
  match c with
  | RootDir => "0" | CurDir => "1" | ParentDir => "2"
  | Normal name => String.append "3" name
  end.
Fixpoint compare_keys (a b : list string) : comparison :=
  match a, b with
  | [], [] => Eq
  | [], _ :: _ => Lt
  | _ :: _, [] => Gt
  | x :: a, y :: b => match String.compare x y with Eq => compare_keys a b | c => c end
  end.
Definition path_compare (a b : Path) : comparison :=
  compare_keys (component_key <$> components (String.string_of_list_ascii (os_bytes a)))
    (component_key <$> components (String.string_of_list_ascii (os_bytes b))).

Definition matches_thread (s : RolloutStoreSnapshot) (thread : CodexThreadMetadata) : bool :=
  let files := rs_files (if tm_archived thread then st_archived s else st_active s) in
  let order := fun file => path_compare (rl_relative_path file) (tm_rollout_relative_path thread) in
  let index := bsearch_loop order files (length files) 0 (length files) in
  match files !! index with
  | Some file =>
      match order file with
      | Eq => bool_decide (rl_change file = tm_rollout_fingerprint thread)
      | _ => false
      end
  | None => false
  end.

(** ** JSON *)

Record WireInitializeResult := mkWireInitializeResult {
  wi_user_agent : string;
  wi_codex_home : string;
  wi_platform_family : string;
  wi_platform_os : string;
}.

Record WireRateLimitWindow := mkWireRateLimitWindow {
  ww_used_percent : Z;
  ww_window_duration_mins : option Z;
  ww_resets_at : option Z;
}.
Record WireCreditsSnapshot := mkWireCreditsSnapshot {
  wc_has_credits : bool;
  wc_unlimited : bool;
  wc_balance : option string;
}.
Record WireSpendControlLimitSnapshot := mkWireSpendControlLimitSnapshot {
  ws_limit : string;
  ws_used : string;
  ws_remaining_percent : Z;
  ws_resets_at : Z;
}.
Record WireRateLimitSnapshot := mkWireRateLimitSnapshot {
  wr_limit_id : option string;
  wr_limit_name : option string;
  wr_plan_type : option string;
  wr_rate_limit_reached_type : option string;
  wr_primary : option WireRateLimitWindow;
  wr_secondary : option WireRateLimitWindow;
  wr_credits : option WireCreditsSnapshot;
  wr_individual_limit : option WireSpendControlLimitSnapshot;
}.
Record WireResetCreditDetail := mkWireResetCreditDetail {
  wd_granted_at : Z;
  wd_expires_at : option Z;
  wd_reset_type : string;
  wd_status : string;
}.
Record WireResetCredits := mkWireResetCredits {
  wx_available_count : Z;
  wx_credits : option (list WireResetCreditDetail);
}.
(** The [BTreeMap] of the buckets, in the order of its keys. *)
Record WireRateLimitsResult := mkWireRateLimitsResult {
  wl_rate_limits : WireRateLimitSnapshot;
  wl_rate_limits_by_limit_id : option (list (string * WireRateLimitSnapshot));
  wl_rate_limit_reset_credits : option WireResetCredits;
}.

(** [serde_json]: parsing, access by key, the keys of an object, and the typed
    projections. *)
Class JsonCrate := {
  value : Type;
  from_str : string → option value;
  is_object : value → bool;
  get : value → string → option value;
  keys : value → list string;
  as_str : value → option string;
  as_i64 : value → option Z;
  as_u64 : value → option Z;
  as_bool : value → option bool;
  as_array : value → option (list value);
  is_null : value → bool;
  wire_initialize : value → option WireInitializeResult;
  wire_rate_limits : value → option WireRateLimitsResult;
}.

(** [value.get(name).and_then(Value::as_str)] and the like. *)
Definition get_str `{JsonCrate} (v : value) (name : string) : option string := get v name ≫= as_str.
Definition get_i64 `{JsonCrate} (v : value) (name : string) : option Z := get v name ≫= as_i64.
Definition get_bool `{JsonCrate} (v : value) (name : string) : option bool := get v name ≫= as_bool.
(** [value.as_object()]: an object is read with [get]. *)
Definition as_object `{JsonCrate} (v : value) : option value :=
  if is_object v then Some v else None.
Definition get_object `{JsonCrate} (v : value) (name : string) : option value :=
  get v name ≫= as_object.

(** A thread of [thread/list] and [thread/read]. *)
Record WireThread `{JsonCrate} := mkWireThread {
  wt_id : string;
  wt_parent_thread_id : option string;
  wt_ephemeral : bool;
  wt_updated_at : Z;
  wt_recency_at : option Z;
  wt_cwd : Path;
  wt_cli_version : string;
  wt_source : value;
  wt_path : option Path;
}.
Record WireThreadListResponse `{JsonCrate} := mkWireThreadListResponse {
  wp_data : list WireThread;
  wp_next_cursor : option string;
}.
Class JsonThreads `{JsonCrate} := {
  wire_thread_list : value → option WireThreadListResponse;
  wire_thread_read : value → option WireThread;
}.

(** ** Responses *)

(** [str::to_ascii_lowercase] and [str::contains]. *)
Definition ascii_lower (c : ascii) : ascii :=
  if byte_in 65 90 c then ascii_of_nat (nat_of_ascii c + 32) else c.
Definition is_prefix (needle l : list ascii) : bool :=
  match strip_prefix needle l with Some _ => true | None => false end.
Fixpoint contains_bytes (needle l : list ascii) : bool :=
  is_prefix needle l || match l with [] => false | _ :: l => contains_bytes needle l end.
Definition mentions (message : string) (needles : list string) : bool :=
  existsb (fun needle => contains_bytes (str_bytes needle) (ascii_lower <$> str_bytes message)) needles.

Definition AUTHENTICATION_WORDS : list string :=
  ["auth"; "credential"; "login required"; "not logged in"; "unauthorized"].

Section client.
Context {JS : JsonCrate}.

Definition classify_rpc_error (error : value) : CodexUsageError :=
  match get_i64 error "code", get_str error "message" with
  | Some code, Some message =>
      if (code =? -32601)
         || mentions message ["method not found"; "not supported"; "unsupported"; "unimplemented"]
      then UE_Unsupported
      else if mentions message AUTHENTICATION_WORDS then UE_Authentication
      else UE_Provider
  | _, _ => UE_Protocol
  end.

Definition classify_thread_rpc_error (error : value) : CodexThreadError :=
  match get_i64 error "code", get_str error "message" with
  | Some code, Some message =>
      if mentions message ["archived"] then Te_Archived
      else if mentions message ["not loaded"; "not found"; "no rollout"] then Te_Missing
      else if (code =? -32601) || mentions message ["method not found"; "not supported"; "unsupported"]
      then Te_Protocol
      else if mentions message AUTHENTICATION_WORDS then Te_Authentication
      else Te_Provider
  | _, _ => Te_Protocol
  end.

(** [decode_response] and [decode_thread_response]: a line of another request
    is passed over ([Ok None]). *)
Definition decode_envelope {E} (protocol : E) (classify : value → E) (line : string) (expected_id : Z)
    : result E (option value) :=
  envelope ← ok_or (from_str line) protocol;
  _ ← reject_if (negb (is_object envelope)) protocol;
  if negb (bool_decide (get envelope "id" ≫= as_u64 = Some expected_id)) then Ok None
  else match get envelope "result", get envelope "error" with
       | Some result, None => Ok (Some result)
       | None, Some error => Err (classify error)
       | _, _ => Err protocol
       end.
Definition decode_response : string → Z → result CodexUsageError (option value) :=
  decode_envelope UE_Protocol classify_rpc_error.
Definition decode_thread_response : string → Z → result CodexThreadError (option value) :=
  decode_envelope Te_Protocol classify_thread_rpc_error.
End client.

(** ** The process *)

(** The requests; the members that are constants of the code are left out. *)
Record ForkParams := mkForkParams {
  fk_path : string;
  fk_cwd : string;
  fk_model : string;
  fk_model_provider : string;
  fk_approval_policy : string + (bool * bool * bool * bool * bool);
  fk_sandbox : string;
}.
Inductive Request :=
| Rq_Initialize (experimental_api : bool)
| Rq_Initialized
| Rq_RateLimits
| Rq_ThreadList (id : Z) (cursor : option string) (archived : bool) (cwd : string)
| Rq_ThreadRead (id : Z) (thread_id : string)
| Rq_ThreadFork (id : Z) (params : ForkParams).

(** What one [recv_timeout] returns, with the clock read before it. *)
Inductive Answer := An_Event (e : StdoutEvent) | An_Timeout | An_Disconnected.

(** A child process: what it will answer, whether its input takes the next
    writes, and what it has been sent. *)
Record AppServerProcess := mkAppServerProcess {
  ap_answers : list (Z * Answer);
  ap_writes : list bool;
  ap_sent : list Request;
}.

(** [map_err] on a call. *)
Definition mapping {S E F A} (f : E → F) (m : stM S E A) : stM S F A := fun s =>
  let '(r, s) := m s in (map_err f r, s).

Definition send (request : Request) : stM AppServerProcess CodexUsageError () := fun p =>
  match ap_writes p with
  | true :: writes =>
      (Ok (), mkAppServerProcess (ap_answers p) writes (ap_sent p ++ [request]))
  | _ :: writes => (Err UE_Transport, mkAppServerProcess (ap_answers p) writes (ap_sent p))
  | [] => (Err UE_Transport, p)
  end.

Section receive.
Context {JS : JsonCrate} {E : Type} (timeout protocol transport : E).
Context (decode : string → result E (option value)) (deadline : Z).

Fixpoint receive_loop (answers : list (Z * Answer)) : result E value * list (Z * Answer) :=
  match answers with
  | [] => (Err transport, [])
  | (now, answer) :: rest =>
      if deadline <? now then (Err timeout, rest)
      else match answer with
      | An_Timeout => (Err timeout, rest)
      | An_Disconnected => (Err transport, rest)
      | An_Event (Line line) =>
          match decode line with
          | Err e => (Err e, rest)
          | Ok (Some result) => (Ok result, rest)
          | Ok None => receive_loop rest
          end
      | An_Event ProtocolError => (Err protocol, rest)
      | An_Event (TransportError | Eof) => (Err transport, rest)
      end
  end.

Definition receive_with : stM AppServerProcess E value := fun p =>
  let '(r, rest) := receive_loop (ap_answers p) in
  (r, mkAppServerProcess rest (ap_writes p) (ap_sent p)).
End receive.

Definition receive_result `{JsonCrate} (expected_id deadline : Z)
    : stM AppServerProcess CodexUsageError value :=
  receive_with UE_Timeout UE_Protocol UE_Transport (fun line => decode_response line expected_id)
    deadline.
Definition receive_thread_result `{JsonCrate} (expected_id deadline : Z)
    : stM AppServerProcess CodexThreadError value :=
  receive_with Te_Timeout Te_Protocol Te_Transport
    (fun line => decode_thread_response line expected_id) deadline.

(** What the system answers a client: [Instant::now() + timeout], the child
    process, [fs::canonicalize], the checks of rollout files, and the orderly
    shutdown of a child whose request is completed. *)
Record ClientEnv := mkClientEnv {
  ce_executable_absolute : bool;
  ce_deadline : option Z;
  ce_spawn : result CodexUsageError AppServerProcess;
  ce_canonicalize : Path → option Path;
  ce_is_dir : Path → bool;
  ce_rollout_path :
    Path → Path → result CodexThreadError (bool * Path * Path * CodexRolloutFingerprint);
  ce_snapshot_before : result CodexThreadError RolloutStoreSnapshot;
  ce_snapshot_after : result CodexThreadError RolloutStoreSnapshot;
  ce_open_rollout : CodexThreadMetadata → result CodexThreadError Reader;
  ce_shutdown_deadline : option Z;
  ce_shutdown_clean : bool;
}.

(** A conversation with a child: its result, and the child if there was one. *)
Definition Session (E A : Type) : Type := result E A * option AppServerProcess.
Definition in_session {E A} (spawned : result E AppServerProcess)
    (body : stM AppServerProcess E A) : Session E A :=
  match spawned with
  | Err e => (Err e, None)
  | Ok p => let '(r, p) := body p in (r, Some p)
  end.

(** ** The handshake *)

Inductive InitializeFailureReason := Malformed | UnsupportedVersion | HomeMismatch.
Record InitializeCompatibilityError := mkInitializeCompatibilityError {
  ie_kind : CodexUsageError;
  ie_codex_version : option string;
  ie_reason : InitializeFailureReason;
}.

(** A failed read, with the evidence of compatibility collected before it. *)
Record CodexUsageFailure := mkCodexUsageFailure {
  uf_kind : CodexUsageError;
  uf_codex_version : option string;
  uf_compatibility : CodexCompatibilityStatus;
}.
Definition before_gate (kind : CodexUsageError) : CodexUsageFailure :=
  mkCodexUsageFailure kind None
    match kind with
    | UE_Unsupported | UE_Protocol => Incompatible
    | UE_Authentication | UE_Timeout | UE_Transport | UE_Provider | UE_Spawn => Unverified
    end.
Definition incompatible (kind : CodexUsageError) (codex_version : option string) : CodexUsageFailure :=
  mkCodexUsageFailure kind codex_version Incompatible.
Definition after_gate (codex_version : string) (kind : CodexUsageError) : CodexUsageFailure :=
  mkCodexUsageFailure kind (Some codex_version)
    match kind with
    | UE_Authentication => Compatible
    | UE_Unsupported | UE_Protocol => Incompatible
    | UE_Timeout | UE_Transport | UE_Provider | UE_Spawn => Unverified
    end.

Definition map_thread_transport (e : CodexUsageError) : CodexThreadError :=
  match e with
  | UE_Unsupported => Te_UnsupportedVersion
  | UE_Protocol => Te_Protocol
  | UE_Authentication => Te_Authentication
  | UE_Timeout => Te_Timeout
  | UE_Transport => Te_Transport
  | UE_Provider => Te_Provider
  | UE_Spawn => Te_Spawn
  end.

(** ** The usage of an account *)

Definition window_from_wire (w : WireRateLimitWindow) : RateLimitWindow :=
  mkWindow (ww_used_percent w) (saturating_sub_u 100 (Z.min (ww_used_percent w) 100))
    (ww_window_duration_mins w) (ww_resets_at w).
Definition credits_from_wire (w : WireCreditsSnapshot) : CreditsSnapshot :=
  mkCredits (wc_has_credits w) (wc_unlimited w) (wc_balance w).
Definition spend_control_from_wire (w : WireSpendControlLimitSnapshot) : SpendControlLimitSnapshot :=
  mkSpendControl (ws_limit w) (ws_used w) (ws_remaining_percent w) (ws_resets_at w).
Definition snapshot_from_wire (w : WireRateLimitSnapshot) : RateLimitSnapshot :=
  mkSnapshot (wr_limit_id w) (wr_limit_name w) (wr_plan_type w) (wr_rate_limit_reached_type w)
    (window_from_wire <$> wr_primary w) (window_from_wire <$> wr_secondary w)
    (credits_from_wire <$> wr_credits w) (spend_control_from_wire <$> wr_individual_limit w).
Definition reset_detail_from_wire (w : WireResetCreditDetail) : ResetCreditDetail :=
  mkResetDetail (wd_granted_at w) (wd_expires_at w) (wd_reset_type w) (wd_status w).
Definition reset_credits_from_wire (w : WireResetCredits) : ResetCredits :=
  mkResetCredits (wx_available_count w) (List.map reset_detail_from_wire <$> wx_credits w).

Record CodexUsageObservation := mkCodexUsageObservation {
  uo_codex_version : string;
  uo_usage : CodexUsage;
}.

Section handshake.
Context {JS : JsonCrate} (env : ClientEnv).

Definition validate_initialize_result (v : value) (selected_codex_home : Path)
    : result InitializeCompatibilityError string :=
  wire ← ok_or (wire_initialize v) (mkInitializeCompatibilityError UE_Protocol None Malformed);
  let codex_version := parse_codex_version (wi_user_agent wire) in
  let unsupported := mkInitializeCompatibilityError UE_Unsupported codex_version HomeMismatch in
  let malformed := mkInitializeCompatibilityError UE_Protocol codex_version Malformed in
  _ ← reject_if (String.eqb (wi_platform_family wire) "" || String.eqb (wi_platform_os wire) "")
        malformed;
  _ ← reject_if (negb (is_absolute (wi_codex_home wire))) unsupported;
  reported_home ← ok_or (ce_canonicalize env (Utf8 (wi_codex_home wire))) unsupported;
  selected_codex_home ← ok_or (ce_canonicalize env selected_codex_home) unsupported;
  _ ← reject_if (negb (bool_decide (reported_home = selected_codex_home))) unsupported;
  codex_version ← ok_or codex_version unsupported;
  _ ← reject_if (negb (bool_decide (codex_version ∈ SUPPORTED_CODEX_STATUS_VERSIONS)))
        (mkInitializeCompatibilityError UE_Unsupported (Some codex_version) UnsupportedVersion);
  Ok codex_version.

(** [initialize_compatible_app_server]: the version and the deadline; [after]
    is what the caller does with the process. *)
Definition initialize_compatible_app_server {A} (codex_home : Path)
    (after : string → Z → stM AppServerProcess CodexUsageFailure A) : Session CodexUsageFailure A :=
  if negb (ce_executable_absolute env) then (Err (before_gate UE_Spawn), None) else
  match ce_deadline env with
  | None => (Err (before_gate UE_Timeout), None)
  | Some deadline =>
      in_session (map_err before_gate (ce_spawn env))
        (_ ← mapping before_gate (send (Rq_Initialize false));
         initialize_result ← mapping before_gate (receive_result INITIALIZE_REQUEST_ID deadline);
         codex_version ← lift_result
           (map_err (fun e => incompatible (ie_kind e) (ie_codex_version e))
              (validate_initialize_result initialize_result codex_home));
         after codex_version deadline)
  end.

Definition parse_rate_limits_result (v : value) : result CodexUsageError CodexUsage :=
  wire ← ok_or (wire_rate_limits v) UE_Protocol;
  Ok (mkUsage (Some (snapshot_from_wire (wl_rate_limits wire)))
        ((fun '(id, snapshot) => (id, snapshot_from_wire snapshot))
           <$> default [] (wl_rate_limits_by_limit_id wire))
        (reset_credits_from_wire <$> wl_rate_limit_reset_credits wire)).

Definition read_account_usage (codex_home : Path)
    : Session CodexUsageFailure CodexUsageObservation :=
  initialize_compatible_app_server codex_home (fun codex_version deadline =>
    _ ← mapping (after_gate codex_version) (send Rq_Initialized);
    _ ← mapping (after_gate codex_version) (send Rq_RateLimits);
    v ← mapping (after_gate codex_version) (receive_result RATE_LIMITS_REQUEST_ID deadline);
    usage ← lift_result (map_err (after_gate codex_version) (parse_rate_limits_result v));
    mret (mkCodexUsageObservation codex_version usage)).

(** The adapter it returns is the one of version 0.144.4. *)
Definition verify_codex_identity_adapter (codex_home : Path) : Session CodexUsageFailure () :=
  initialize_compatible_app_server codex_home (fun codex_version _ =>
    if String.eqb codex_version "0.144.4" then mret ()
    else throw (incompatible UE_Unsupported (Some codex_version))).

(** [thread_deadline] and [initialize_thread_client]. *)
Definition thread_deadline : result CodexThreadError Z :=
  _ ← reject_if (negb (ce_executable_absolute env)) Te_Spawn;
  ok_or (ce_deadline env) Te_Timeout.

Definition initialize_thread_client (codex_home : Path) (deadline : Z)
    : stM AppServerProcess CodexThreadError string :=
  _ ← mapping map_thread_transport (send (Rq_Initialize false));
  initialize_result ← mapping map_thread_transport (receive_result INITIALIZE_REQUEST_ID deadline);
  codex_version ← lift_result
    (map_err (fun e => match ie_reason e with
                       | UnsupportedVersion => Te_UnsupportedVersion
                       | Malformed | HomeMismatch => Te_Protocol
                       end) (validate_initialize_result initialize_result codex_home));
  _ ← mapping map_thread_transport (send Rq_Initialized);
  mret codex_version.
End handshake.

(** ** The lifecycle a rollout ends in *)

Definition MAX_ROLLOUT_BYTES : Z := 64 * 1024 * 1024.

(** [CappedReader]: an error when a file goes on behind the limit. *)
Fixpoint capped (remaining : Z) (r : Reader) : Reader :=
  match r with
  | [] => []
  | Fb_Error :: r => Fb_Error :: capped remaining r
  | Fb_Data b :: r =>
      if len b <=? remaining then Fb_Data b :: capped (remaining - len b) r
      else if remaining =? 0 then [Fb_Error]
      else [Fb_Data (take (Z.to_nat remaining) b); Fb_Error]
  end.

Section rollout.
Context {JS : JsonCrate} (env : ClientEnv).
Context (metadata : CodexThreadMetadata) (expected_cwd : Path).

Definition validate_session_meta_value (v : value) : result CodexThreadError () :=
  object ← ok_or (as_object v) Te_SessionSchema;
  _ ← reject_if (negb (bool_decide (get_str object "type" = Some "session_meta"))) Te_SessionSchema;
  payload ← ok_or (get_object object "payload") Te_SessionSchema;
  id ← ok_or (get_str payload "id") Te_SessionSchema;
  cwd ← ok_or (get_str payload "cwd") Te_SessionSchema;
  cli_version ← ok_or (get_str payload "cli_version") Te_SessionSchema;
  source ← ok_or (get_str payload "source") Te_SessionSchema;
  canonical_cwd ← ok_or (ce_canonicalize env (Utf8 cwd)) Te_SessionSchema;
  let parent_matches :=
    match tm_parent_thread_id metadata with
    | Some expected => bool_decide (get_str payload "parent_thread_id" = Some expected)
    | None => match get payload "parent_thread_id" with Some v => is_null v | None => true end
    end in
  reject_if (negb (String.eqb id (tm_thread_id metadata))
             || negb (bool_decide (canonical_cwd = expected_cwd))
             || negb (String.eqb cli_version (tm_cli_version metadata))
             || negb (String.eqb source "cli") || negb parent_matches) Te_SessionSchema.

Definition validate_session_meta_line (line : string) : result CodexThreadError () :=
  v ← ok_or (from_str line) Te_SessionSchema;
  validate_session_meta_value v.

(** What an event says of the turn that is under way. *)
Definition event_lifecycle (event_type : option string) (lifecycle : CodexThreadLifecycle)
    : CodexThreadLifecycle :=
  match event_type with
  | Some t =>
      if bool_decide (t ∈ ["task_started"; "turn_started"]) then UnknownCrash
      else if bool_decide (t ∈ ["task_complete"; "turn_complete"]) then Clean
      else if String.eqb t "turn_aborted" then Interrupted
      else lifecycle
  | None => lifecycle
  end.

(** The body of the loop over the lines behind the first. *)
Definition line_lifecycle (lifecycle : CodexThreadLifecycle) (line : string)
    : result CodexThreadError CodexThreadLifecycle :=
  v ← ok_or (from_str line) Te_SessionSchema;
  object ← ok_or (as_object v) Te_SessionSchema;
  match get_str object "type" with
  | Some t =>
      if String.eqb t "session_meta" then _ ← validate_session_meta_value v; Ok lifecycle
      else if String.eqb t "event_msg" then
        Ok (event_lifecycle (get_object object "payload" ≫= fun payload => get_str payload "type")
              lifecycle)
      else Ok lifecycle
  | None => Err Te_SessionSchema
  end.

Definition next_line (r : Reader) : result CodexThreadError (option string) * Reader :=
  let '(line, r) := read_bounded_line [] r in (map_err (fun _ => Te_SessionSchema) line, r).

(** The loop; [fuel] bounds the number of lines. *)
Fixpoint lifecycle_loop (fuel : nat) (lifecycle : CodexThreadLifecycle) (r : Reader)
    : option (result CodexThreadError CodexThreadLifecycle) :=
  match fuel with
  | O => None
  | S fuel =>
      match next_line r with
      | (Err e, _) => Some (Err e)
      | (Ok None, _) => Some (Ok lifecycle)
      | (Ok (Some line), r) =>
          match line_lifecycle lifecycle line with
          | Err e => Some (Err e)
          | Ok lifecycle => lifecycle_loop fuel lifecycle r
          end
      end
  end.

(** The lines of a file are fewer than its bytes: this fuel is enough. *)
Definition enough_fuel (r : Reader) : nat := S (length (fst (stream r))).

Definition inspect_rollout_lifecycle : result CodexThreadError CodexThreadLifecycle :=
  reader ← ce_open_rollout env metadata;
  let r := capped MAX_ROLLOUT_BYTES reader in
  match next_line r with
  | (Err e, _) => Err e
  | (Ok None, _) => Err Te_SessionSchema
  | (Ok (Some first), rest) =>
      _ ← validate_session_meta_line first;
      default (Err Te_SessionSchema) (lifecycle_loop (enough_fuel rest) Clean rest)
  end.
End rollout.

(** ** The threads of a workspace *)

Section threads.
Context {UC : UuidCrate} {JS : JsonCrate} {JT : JsonThreads} (env : ClientEnv).

Definition validate_canonical_uuid (v : string) : result CodexThreadError () :=
  parsed ← ok_or (parse_str v) Te_Protocol;
  reject_if (negb (String.eqb (uuid_to_string parsed) v)) Te_Protocol.

(** [validate_thread_projection_inner]. *)
Definition validate_thread_projection (allow_parent : bool) (wire : WireThread) (expected_cwd : Path)
    (codex_home : Path) (expected_version : string) (expected_archived : option bool)
    : result CodexThreadError CodexThreadMetadata :=
  _ ← validate_canonical_uuid (wt_id wire);
  _ ← reject_if (wt_ephemeral wire || (wt_updated_at wire <? 0)
                 || match wt_recency_at wire with Some t => t <? 0 | None => false end
                 || negb (String.eqb (wt_cli_version wire) expected_version)
                 || negb (bool_decide (as_str (wt_source wire) = Some "cli"))) Te_Protocol;
  _ ← match wt_parent_thread_id wire with
      | Some parent =>
          _ ← validate_canonical_uuid parent;
          reject_if (negb allow_parent || String.eqb parent (wt_id wire)) Te_Protocol
      | None => Ok ()
      end;
  canonical_cwd ← ok_or (ce_canonicalize env (wt_cwd wire)) Te_CwdMismatch;
  _ ← reject_if (negb (bool_decide (canonical_cwd = expected_cwd))) Te_CwdMismatch;
  rollout_path ← ok_or (wt_path wire) Te_Missing;
  '(archived, rollout_path, relative_path, fingerprint) ← ce_rollout_path env codex_home rollout_path;
  _ ← reject_if (match expected_archived with
                 | Some expected => negb (Bool.eqb expected archived)
                 | None => false
                 end) Te_Protocol;
  Ok (mkCodexThreadMetadata (wt_id wire) (wt_parent_thread_id wire) canonical_cwd
        (wt_cli_version wire) (wt_updated_at wire) (wt_recency_at wire) archived fingerprint
        rollout_path relative_path).

(** The body of the loop over the threads of a page. *)
Definition push_thread (codex_home cwd : Path) (codex_version : string) (archived : bool)
    (threads : list CodexThreadMetadata) (wire : WireThread)
    : result CodexThreadError (list CodexThreadMetadata) :=
  metadata ← validate_thread_projection false wire cwd codex_home codex_version (Some archived);
  _ ← reject_if (existsb (fun t => String.eqb (tm_thread_id t) (tm_thread_id metadata)) threads)
        Te_Protocol;
  Ok (threads ++ [metadata]).

(** What the loops carry: the next request, the threads, completeness. *)
Record Listing := mkListing {
  li_request_id : Z;
  li_threads : list CodexThreadMetadata;
  li_complete : bool;
}.

(** The loop over the pages of one state; [pages] counts those that are left. *)
Fixpoint list_pages (pages : nat) (codex_home cwd : Path) (cwd_string codex_version : string)
    (archived : bool) (deadline : Z) (cursor : option string) (seen_cursors : gset string)
    (l : Listing) : stM AppServerProcess CodexThreadError Listing :=
  match pages with
  | O => mret l
  | S pages =>
      _ ← mapping map_thread_transport
            (send (Rq_ThreadList (li_request_id l) cursor archived cwd_string));
      v ← receive_thread_result (li_request_id l) deadline;
      request_id ← lift_result (ok_or (checked_add_u u64_max (li_request_id l) 1) Te_Protocol);
      page ← lift_result (ok_or (wire_thread_list v) Te_Protocol);
      threads ← lift_result
        (fold_result (push_thread codex_home cwd codex_version archived) (li_threads l)
           (wp_data page));
      match wp_next_cursor page with
      | None => mret (mkListing request_id threads (li_complete l))
      | Some next_cursor =>
          if Nat.eqb pages 0 then mret (mkListing request_id threads false)
          else
            _ ← lift_result (reject_if (String.eqb next_cursor ""
                               || bool_decide (next_cursor ∈ seen_cursors)) Te_Protocol);
            list_pages pages codex_home cwd cwd_string codex_version archived deadline
              (Some next_cursor) ({[next_cursor]} ∪ seen_cursors)
              (mkListing request_id threads (li_complete l))
      end
  end.

Definition thread_id_order (left right : CodexThreadMetadata) : bool :=
  str_le (tm_thread_id left) (tm_thread_id right).

(** The part of [read_thread_inventory] that talks to the process. *)
Definition list_threads (codex_home cwd : Path) (cwd_string : string) (before : RolloutStoreSnapshot)
    (deadline : Z) : stM AppServerProcess CodexThreadError CodexThreadInventory :=
  codex_version ← initialize_thread_client env codex_home deadline;
  if negb (store_complete before) then mret (mkCodexThreadInventory codex_version [] false)
  else
    l ← list_pages MAX_THREAD_PAGES_PER_STATE codex_home cwd cwd_string codex_version false deadline
          None ∅ (mkListing 1 [] true);
    l ← list_pages MAX_THREAD_PAGES_PER_STATE codex_home cwd cwd_string codex_version true deadline
          None ∅ l;
    after ← lift_result (ce_snapshot_after env);
    let complete :=
      li_complete l && (store_complete after && bool_decide (before = after)
                        && forallb (matches_thread after) (li_threads l)) in
    mret (mkCodexThreadInventory codex_version (sort_by thread_id_order (li_threads l)) complete).

(** A canonical, existing directory. *)
Definition canonical_directory (canonical_cwd : Path) : result CodexThreadError Path :=
  cwd ← ok_or (ce_canonicalize env canonical_cwd) Te_Protocol;
  _ ← reject_if (negb (ce_is_dir env cwd)) Te_Protocol;
  Ok cwd.

Definition read_thread_inventory (codex_home canonical_cwd : Path)
    : Session CodexThreadError CodexThreadInventory :=
  match
    (cwd ← canonical_directory canonical_cwd;
     cwd_string ← ok_or (to_str cwd) Te_Protocol;
     before ← ce_snapshot_before env;
     deadline ← thread_deadline env;
     Ok (cwd, cwd_string, before, deadline))
  with
  | Err e => (Err e, None)
  | Ok (cwd, cwd_string, before, deadline) =>
      in_session (map_err map_thread_transport (ce_spawn env))
        (list_threads codex_home cwd cwd_string before deadline)
  end.

(** [read_thread_metadata]. *)
Definition read_thread (codex_home cwd : Path) (thread_id : string) (deadline : Z)
    : stM AppServerProcess CodexThreadError CodexThreadRead :=
  codex_version ← initialize_thread_client env codex_home deadline;
  _ ← mapping map_thread_transport (send (Rq_ThreadRead 1 thread_id));
  v ← receive_thread_result 1 deadline;
  wire ← lift_result (ok_or (wire_thread_read v) Te_Protocol);
  metadata ← lift_result (validate_thread_projection false wire cwd codex_home codex_version None);
  _ ← lift_result (reject_if (negb (String.eqb (tm_thread_id metadata) thread_id)) Te_Protocol);
  _ ← lift_result (reject_if (tm_archived metadata) Te_Archived);
  lifecycle ← lift_result (inspect_rollout_lifecycle env metadata cwd);
  mret (mkCodexThreadRead codex_version metadata lifecycle).

Definition read_thread_metadata (codex_home canonical_cwd : Path) (thread_id : string)
    : Session CodexThreadError CodexThreadRead :=
  match
    (_ ← validate_canonical_uuid thread_id;
     cwd ← canonical_directory canonical_cwd;
     deadline ← thread_deadline env;
     Ok (cwd, deadline))
  with
  | Err e => (Err e, None)
  | Ok (cwd, deadline) =>
      in_session (map_err map_thread_transport (ce_spawn env))
        (read_thread codex_home cwd thread_id deadline)
  end.
End threads.
