(* ===== verification/ThreadSettings.v ===== *)
(** * The settings of a thread (src/providers/codex/remote.rs)

    The projection of a [thread/resume] or [thread/fork] response to the
    settings a handoff has to preserve, and the parameters of the fork that
    asks for them. *)
From Stdlib Require Import Ascii.
From S2P Require Import Prelude Interfaces Profiles UsageCache ConversationData CodexLines.
From S2P Require Import HandoffTransaction AppServer.

Open Scope Z_scope.

Definition MAX_CWD_BYTES : Z := 16 * 1024.
Definition MAX_MODEL_BYTES : Z := 512.
Definition MAX_MODEL_PROVIDER_BYTES : Z := 256.
Definition MAX_POLICY_BYTES : Z := 128.
Definition MAX_REVIEWER_BYTES : Z := 128.
Definition MAX_SANDBOX_TYPE_BYTES : Z := 128.
Definition MAX_WRITABLE_ROOTS : Z := 64.

Inductive EffectiveApprovalPolicy :=
| Untrusted | OnRequest | Never
| Granular (sandbox_approval rules skill_approval request_permissions mcp_elicitations : bool).
Inductive EffectiveApprovalsReviewer := User | AutoReview.
Inductive EffectiveSandboxType := DangerFullAccess | ReadOnly | ExternalSandbox | WorkspaceWrite.
Inductive EffectiveNetworkAccess := Unspecified | Restricted | NetworkEnabled.

#[export] Instance EffectiveApprovalPolicy_eq_dec : EqDecision EffectiveApprovalPolicy.
Proof. solve_decision. Defined.
#[export] Instance EffectiveApprovalsReviewer_eq_dec : EqDecision EffectiveApprovalsReviewer.
Proof. solve_decision. Defined.
#[export] Instance EffectiveSandboxType_eq_dec : EqDecision EffectiveSandboxType.
Proof. solve_decision. Defined.
#[export] Instance EffectiveNetworkAccess_eq_dec : EqDecision EffectiveNetworkAccess.
Proof. solve_decision. Defined.

Record EffectiveThreadSettings := mkEffectiveThreadSettings {
  es_cwd : string;
  es_model : string;
  es_model_provider : string;
  es_approval_policy : EffectiveApprovalPolicy;
  es_approvals_reviewer : EffectiveApprovalsReviewer;
  es_sandbox_type : EffectiveSandboxType;
  es_sandbox_network_access : EffectiveNetworkAccess;
}.
#[export] Instance EffectiveThreadSettings_eq_dec : EqDecision EffectiveThreadSettings.
Proof. solve_decision. Defined.

(** Of [ReadinessProxyError], what the projections report. *)
Inductive SettingsError := InvalidMessage.

(** ** Text *)

Definition valid_bounded_text (value : string) (max_bytes : Z) : bool :=
  negb (String.eqb value "") && (str_len value <=? max_bytes) && negb (has_control (str_bytes value)).

Definition valid_absolute_cwd (value : string) : bool :=
  valid_bounded_text value MAX_CWD_BYTES && is_absolute value
  && forallb (fun c => negb (bool_decide (c = CurDir) || bool_decide (c = ParentDir)))
       (components value).

(** [Option::is_some] and [Option::filter]. *)
Definition is_some {A} (o : option A) : bool := match o with Some _ => true | None => false end.
Definition opt_filter {A} (p : A → bool) (o : option A) : option A :=
  match o with Some a => if p a then Some a else None | None => None end.

Section settings.
Context {JS : JsonCrate}.

Definition bounded_text (v : option value) (max_bytes : Z) : option string :=
  opt_filter (fun s => valid_bounded_text s max_bytes) (v ≫= as_str).

Definition contains_key (object : value) (name : string) : bool := is_some (get object name).

Definition has_exact_keys (object : value) (expected : list string) : bool :=
  (len (keys object) =? len expected) && forallb (contains_key object) expected.

Definition bool_network_access (v : option value) : result SettingsError EffectiveNetworkAccess :=
  match v ≫= as_bool with
  | Some false => Ok Restricted
  | Some true => Ok NetworkEnabled
  | None => Err InvalidMessage
  end.

(** ** Approval *)

Definition GRANULAR_ALLOWED : list string :=
  ["sandbox_approval"; "rules"; "skill_approval"; "request_permissions"; "mcp_elicitations"].
Definition GRANULAR_REQUIRED : list string := ["sandbox_approval"; "rules"; "mcp_elicitations"].

Definition required_bool (granular : value) (name : string) : result SettingsError bool :=
  ok_or (get granular name ≫= as_bool) InvalidMessage.
Definition optional_bool (granular : value) (name : string) : result SettingsError bool :=
  match get granular name with
  | None => Ok false
  | Some v => ok_or (as_bool v) InvalidMessage
  end.

Definition parse_approval_policy (v : value) : result SettingsError EffectiveApprovalPolicy :=
  match as_str v with
  | Some policy =>
      _ ← reject_if (negb (valid_bounded_text policy MAX_POLICY_BYTES)) InvalidMessage;
      if String.eqb policy "untrusted" then Ok Untrusted
      else if String.eqb policy "on-request" then Ok OnRequest
      else if String.eqb policy "never" then Ok Never
      else Err InvalidMessage
  | None =>
      outer ← ok_or (opt_filter (fun outer => has_exact_keys outer ["granular"]) (as_object v))
                InvalidMessage;
      granular ← ok_or (get_object outer "granular") InvalidMessage;
      _ ← reject_if ((len GRANULAR_ALLOWED <? len (keys granular))
                     || existsb (fun key => negb (bool_decide (key ∈ GRANULAR_ALLOWED))) (keys granular)
                     || existsb (fun key => negb (contains_key granular key)) GRANULAR_REQUIRED)
            InvalidMessage;
      sandbox_approval ← required_bool granular "sandbox_approval";
      rules ← required_bool granular "rules";
      skill_approval ← optional_bool granular "skill_approval";
      request_permissions ← optional_bool granular "request_permissions";
      mcp_elicitations ← required_bool granular "mcp_elicitations";
      Ok (Granular sandbox_approval rules skill_approval request_permissions mcp_elicitations)
  end.

(** ** The sandbox *)

(** [root.as_str().is_none_or(|root| !valid_absolute_cwd(root))]. *)
Definition bad_root (root : value) : bool :=
  match as_str root with Some root => negb (valid_absolute_cwd root) | None => true end.

Definition parse_workspace_write (sandbox : value)
    : result SettingsError (EffectiveSandboxType * EffectiveNetworkAccess) :=
  writable_roots ← ok_or (opt_filter (fun roots => len roots <=? MAX_WRITABLE_ROOTS)
                            (get sandbox "writableRoots" ≫= as_array)) InvalidMessage;
  _ ← reject_if (existsb bad_root writable_roots
                 || negb (is_some (get_bool sandbox "excludeTmpdirEnvVar"))
                 || negb (is_some (get_bool sandbox "excludeSlashTmp"))) InvalidMessage;
  network_access ← bool_network_access (get sandbox "networkAccess");
  Ok (WorkspaceWrite, network_access).

Definition parse_sandbox_settings (sandbox : value)
    : result SettingsError (EffectiveSandboxType * EffectiveNetworkAccess) :=
  sandbox_type ← ok_or (bounded_text (get sandbox "type") MAX_SANDBOX_TYPE_BYTES) InvalidMessage;
  if String.eqb sandbox_type "dangerFullAccess" && has_exact_keys sandbox ["type"]
  then Ok (DangerFullAccess, Unspecified)
  else if String.eqb sandbox_type "readOnly" && has_exact_keys sandbox ["type"; "networkAccess"]
  then
    network_access ← bool_network_access (get sandbox "networkAccess");
    Ok (ReadOnly, network_access)
  else if String.eqb sandbox_type "externalSandbox"
          && has_exact_keys sandbox ["type"; "networkAccess"]
  then
    match bounded_text (get sandbox "networkAccess") MAX_POLICY_BYTES with
    | Some access =>
        if String.eqb access "restricted" then Ok (ExternalSandbox, Restricted)
        else if String.eqb access "enabled" then Ok (ExternalSandbox, NetworkEnabled)
        else Err InvalidMessage
    | None => Err InvalidMessage
    end
  else if String.eqb sandbox_type "workspaceWrite"
          && has_exact_keys sandbox
               ["type"; "writableRoots"; "networkAccess"; "excludeTmpdirEnvVar"; "excludeSlashTmp"]
  then parse_workspace_write sandbox
  else Err InvalidMessage.

(** ** The settings *)

Definition SETTING_NAMES : list string :=
  ["cwd"; "model"; "modelProvider"; "approvalPolicy"; "approvalsReviewer"; "sandbox"].

Definition parse_approvals_reviewer (v : option value) : result SettingsError EffectiveApprovalsReviewer :=
  match bounded_text v MAX_REVIEWER_BYTES with
  | Some reviewer =>
      if String.eqb reviewer "user" then Ok User
      else if String.eqb reviewer "auto_review" || String.eqb reviewer "guardian_subagent"
      then Ok AutoReview
      else Err InvalidMessage
  | None => Err InvalidMessage
  end.

Definition parse_thread_settings (v : value) : result SettingsError (option EffectiveThreadSettings) :=
  match as_object v with
  | None => Ok None
  | Some v =>
      if forallb (fun name => negb (contains_key v name)) SETTING_NAMES then Ok None
      else
        _ ← reject_if (existsb (fun name => negb (contains_key v name)) SETTING_NAMES) InvalidMessage;
        sandbox ← ok_or (get_object v "sandbox") InvalidMessage;
        cwd ← ok_or (opt_filter valid_absolute_cwd (bounded_text (get v "cwd") MAX_CWD_BYTES))
                InvalidMessage;
        policy ← ok_or (get v "approvalPolicy") InvalidMessage;
        approval_policy ← parse_approval_policy policy;
        approvals_reviewer ← parse_approvals_reviewer (get v "approvalsReviewer");
        '(sandbox_type, sandbox_network_access) ← parse_sandbox_settings sandbox;
        model ← ok_or (bounded_text (get v "model") MAX_MODEL_BYTES) InvalidMessage;
        model_provider ← ok_or (bounded_text (get v "modelProvider") MAX_MODEL_PROVIDER_BYTES)
                           InvalidMessage;
        Ok (Some (mkEffectiveThreadSettings cwd model model_provider approval_policy
                    approvals_reviewer sandbox_type sandbox_network_access))
  end.
End settings.

(** [EffectiveThreadSettings::fork_params]. *)
Definition approval_param (p : EffectiveApprovalPolicy) : string + (bool * bool * bool * bool * bool) :=
  match p with
  | Untrusted => inl "untrusted"
  | OnRequest => inl "on-request"
  | Never => inl "never"
  | Granular sandbox_approval rules skill_approval request_permissions mcp_elicitations =>
      inr (sandbox_approval, rules, skill_approval, request_permissions, mcp_elicitations)
  end.
Definition sandbox_param (t : EffectiveSandboxType) : string :=
  match t with
  | DangerFullAccess => "danger-full-access"
  | ReadOnly => "read-only"
  | ExternalSandbox => "external-sandbox"
  | WorkspaceWrite => "workspace-write"
  end.
(** [Path::is_absolute]. *)
Definition path_is_absolute (p : Path) : bool :=
  match os_bytes p with c :: _ => Ascii.eqb c "/" | [] => false end.

Definition fork_params (s : EffectiveThreadSettings) (source_path : Path) : option ForkParams :=
  if negb (bool_decide (es_approvals_reviewer s = User)) || negb (path_is_absolute source_path) then None
  else
    path ← to_str source_path;
    Some (mkForkParams path (es_cwd s) (es_model s) (es_model_provider s)
            (approval_param (es_approval_policy s)) (sandbox_param (es_sandbox_type s))).

(** The parameters determine the settings but for the reviewer, which is the
    user, and the network access, which the response is compared for. *)
Lemma fork_params_inj s1 s2 path1 path2 params :
  fork_params s1 path1 = Some params → fork_params s2 path2 = Some params →
  path1 = path2 ∧ es_sandbox_type s1 = es_sandbox_type s2 ∧
  s1 = mkEffectiveThreadSettings (es_cwd s2) (es_model s2) (es_model_provider s2)
         (es_approval_policy s2) User (es_sandbox_type s2) (es_sandbox_network_access s1).
Proof.
  unfold fork_params. destruct s1 as [c1 m1 mp1 a1 r1 s1 n1], s2 as [c2 m2 mp2 a2 r2 s2 n2]; cbn.
  destruct (bool_decide_reflect (r1 = User)) as [->|], (bool_decide_reflect (r2 = User)) as [->|];
    cbn; try done.
  destruct (path_is_absolute path1), (path_is_absolute path2); try done. cbn.
  destruct path1 as [p1|], path2 as [p2|]; try done. cbn. intros [= <-] [= -> -> -> -> Ha Hs].
  assert (a1 = a2) as -> by (destruct a1, a2; simplify_eq/=; done).
  assert (s1 = s2) as -> by (destruct s1, s2; simplify_eq/=; done).
  done.
Qed.
