(* ===== verification/FailoverSystem.v ===== *)
(** * Failover: errors, and the system around it (src/providers/codex/failover.rs)

    The errors of the orchestration and the interface to what it works with:
    the clock, the hosts the private directories are on, the app servers, the
    leases of src/profiles.rs, the rollout proofs of
    src/providers/codex/rollout_handoff.rs and the supervised generations.
    The three directories are threaded explicitly; other processes may change
    them before every step of the driver and while a generation that the loop
    has started runs. *)
From S2P Require Import Prelude Interfaces CoordinatorTerminal Profiles Storage RoutingDefs.
From S2P Require Import RoutingStore UsageCache.
From S2P Require Import Selection ConversationData ConversationOps ConversationStore ConversationDisk.
From S2P Require Import HandoffTransaction CodexLines AppServer ThreadSettings.

Open Scope Z_scope.

Definition MAX_HANDOFF_STEPS : nat := 8.
Definition USAGE_EXHAUSTED_EXIT_CODE : Z := 75.

(** ** Errors *)

Inductive PoolStopKind := Ps_Exhausted | Ps_AllUnknown | Ps_Busy | Ps_NoEligible.

Definition pool_stop_code (k : PoolStopKind) : string :=
  match k with
  | Ps_Exhausted => "codex_failover_pool_exhausted"
  | Ps_AllUnknown => "codex_failover_pool_unknown"
  | Ps_Busy => "codex_failover_pool_busy"
  | Ps_NoEligible => "codex_failover_pool_no_eligible_profile"
  end.

Inductive CodexFailoverError :=
| Fo_Conversation (e : ConversationError)
| Fo_Definition (e : DefinitionError)
| Fo_Handoff
| Fo_Observation (e : ObservationError)
| Fo_PoolUnavailable (k : PoolStopKind)
| Fo_Profile (e : ProfileError)
| Fo_Protocol
| Fo_Routing (e : RoutingError)
| Fo_Selection
| Fo_Spawn
| Fo_Trigger.

(** [ExitStatus::code]: none after a signal. *)
Definition status_code (s : ExitStatus) : option Z :=
  match s with Es_Code code => Some code | Es_Signal _ => None end.
Definition exhausted_exit (s : ExitStatus) : bool :=
  bool_decide (status_code s = Some USAGE_EXHAUSTED_EXIT_CODE).

(** ** The system *)

(** The private directories: the journal, the observation cache and the
    routing registry. *)
Record Directories := mkDirectories {
  dir_conv : ConvDisk;
  dir_observations : Disk;
  dir_routing : Disk;
}.

Class FailoverSystem `{UuidCrate} `{JsonCrate} := {
  sys : Type;
  (** [SystemTime::now()] since the epoch, in seconds of an [i64]. *)
  now : sys → option Z * sys;
  (** The answers of the system during one call of a registry. *)
  journal_host : sys → Host * sys;
  resume_env : sys → ResumeEnv * sys;
  store_faults : sys → Faults * sys;
  canonical_path : Path → sys → option CanonicalPath * sys;
  (** An app server that is started in a home. *)
  client_env : Path → sys → ClientEnv * sys;
  (** What happens in the system while an answer of an app server is awaited. *)
  await_answer : sys → sys;
  (** src/profiles.rs *)
  find_by_id : string → sys → result ProfileError Profile * sys;
  lock_profile : Profile → sys → result ProfileError () * sys;
  refetch_by_id_under_lease : string → sys → result ProfileError Profile * sys;
  source_lock_for_probe : sys → result ProfileError () * sys;
  profile_home : Profile → sys → result ProfileError Path * sys;
  neutral_working_directory : sys → result ProfileError () * sys;
  VerifiedTargetReservation : Type;
  reservation_profile : VerifiedTargetReservation → Profile;
  provider_lock_for_probe : VerifiedTargetReservation → sys → result ProfileError () * sys;
  reserve_verified_codex_target :
    Profile → (Path → sys → result ProfileError () * sys) → sys →
    result ProfileError VerifiedTargetReservation * sys;
  (** src/providers/codex/rollout_handoff.rs *)
  RolloutImport : Type;
  mint_profile_rollout_handoff :
    Profile → CodexThreadRead → sys → result CodexRolloutHandoffError CodexRolloutHandoff * sys;
  begin_import : CodexRolloutHandoff → sys → result CodexRolloutHandoffError RolloutImport * sys;
  import_source_path : RolloutImport → Path;
  finish_import : RolloutImport → sys → result CodexRolloutHandoffError VerifiedSourceRollout * sys;
  validate_handoff_fork_result :
    Profile → VerifiedSourceRollout → value → sys →
    result CodexRolloutHandoffError ValidatedForkRollout * sys;
  validate_handoff_inventory_candidate :
    Profile → VerifiedSourceRollout → value → Z → Z → sys →
    result CodexRolloutHandoffError ValidatedForkRollout * sys;
  (** The supervisor: a generation that runs to its end. *)
  spawn_supervised_exact_resume : Profile → Path → string → sys → option ExitStatus * sys;
  spawn_supervised_exact_resume_with_reservation :
    VerifiedTargetReservation → Path → string → sys → option ExitStatus * sys;
  (** What other processes did to the directories in the meantime. *)
  others : Directories → sys → Directories * sys;
}.

(** What src/profiles.rs promises: a profile is found by its own identifier,
    and a reservation is one of the profile it was asked for. *)
Class FailoverSystemLaws `{FailoverSystem} : Prop := {
  find_by_id_id id s p s' : find_by_id id s = (Ok p, s') → profile_id p = id;
  reserve_id p f s r s' :
    reserve_verified_codex_target p f s = (Ok r, s') → profile_id (reservation_profile r) = profile_id p;
}.

(** ** The record of what was done *)

Inductive FailoverEvent :=
| Ev_Conversed (sent : list Request)
| Ev_Launched (profile_id thread_id : string) (status : option ExitStatus)
| Ev_Recovered (generation : Z) (profile_reference : string)
| Ev_Stopped (stop : SelectionStop)
| Ev_Switching (source target pool trust_domain reason : string).

Section world.
Context {UC : UuidCrate} {JS : JsonCrate} {FS : FailoverSystem}.

(** Everything but the journal, which the handoff driver threads itself. *)
Record Outside := mkOutside {
  out_observations : Disk;
  out_routing : Disk;
  out_sys : sys;
  out_events : list FailoverEvent;
}.

Definition with_sys (s : sys) (o : Outside) : Outside :=
  mkOutside (out_observations o) (out_routing o) s (out_events o).
Definition with_observations (d : Disk) (o : Outside) : Outside :=
  mkOutside d (out_routing o) (out_sys o) (out_events o).
Definition with_routing (d : Disk) (o : Outside) : Outside :=
  mkOutside (out_observations o) d (out_sys o) (out_events o).
Definition record_event (e : FailoverEvent) (o : Outside) : Outside :=
  mkOutside (out_observations o) (out_routing o) (out_sys o) (out_events o ++ [e]).

(** A question to the system, and a call of it that may fail. *)
Definition ask {E A} (q : sys → A * sys) : stM Outside E A := fun o =>
  let '(a, s) := q (out_sys o) in (Ok a, with_sys s o).
Definition call {F E A} (f : F → E) (q : sys → result F A * sys) : stM Outside E A := fun o =>
  let '(r, s) := q (out_sys o) in (map_err f r, with_sys s o).
Definition event {E} (e : FailoverEvent) : stM Outside E () := modify_st (record_event e).

(** The clock; failing it is [e]. *)
Definition timestamp {E} (e : E) : stM Outside E Z :=
  t ← ask now;
  lift_result (ok_or t e).

(** Calls of the observation store and of the routing store. *)
Definition on_observations {E A} (f : ObservationError → E)
    (c : Faults → stM Disk ObservationError A) : stM Outside E A :=
  fun o => let '(faults, s) := store_faults (out_sys o) in
           let '(r, d) := c faults (out_observations o) in
           (map_err f r, with_observations d (with_sys s o)).
Definition on_routing {E A} (f : RoutingError → E)
    (c : Faults → stM Disk RoutingError A) : stM Outside E A :=
  fun o => let '(faults, s) := store_faults (out_sys o) in
           let '(r, d) := c faults (out_routing o) in (map_err f r, with_routing d (with_sys s o)).

(** An app server in the given home: started, spoken to, and stopped; what it
    was sent is recorded. *)
Definition with_client {E A} (home : Path) (body : ClientEnv → Session E A) : stM Outside E A :=
  env ← ask (client_env home);
  let '(r, child) := body env in
  _ ← (match child with Some p => event (Ev_Conversed (ap_sent p)) | None => mret () end);
  lift_result r.

(** The journal and the rest. *)
Definition FWorld : Type := (ConvDisk * Outside)%type.

Definition outside {E A} (m : stM Outside E A) : stM FWorld E A := fun '(k, o) =>
  let '(r, o) := m o in (r, (k, o)).
Definition journal {E A} (f : ConversationError → E) (c : Host → cs A) : stM FWorld E A :=
  fun '(k, o) => let '(host, s) := journal_host (out_sys o) in
                 let '(r, k) := c host k in (map_err f r, (k, with_sys s o)).

(** Other processes. *)
Definition interference {E} : stM FWorld E () := fun '(k, o) =>
  let '(d, s) := others (mkDirectories k (out_observations o) (out_routing o)) (out_sys o) in
  (Ok (), (dir_conv d, mkOutside (dir_observations d) (dir_routing d) s (out_events o))).
End world.
