(* ===== verification/HandoffClient.v ===== *)
(** * Failover: the app server of a handoff
    (src/providers/codex/failover.rs, src/providers/codex.rs)

    The conversations a handoff has with an app server: the read of the source
    thread with its settings, the complete listing of the target's threads,
    and the fork of the source rollout into the target. *)
From S2P Require Import Prelude Interfaces CoordinatorTerminal Profiles Storage RoutingDefs.
From S2P Require Import RoutingStore UsageCache Selection ConversationData ConversationOps.
From S2P Require Import ConversationStore ConversationDisk HandoffTransaction CodexLines AppServer.
From S2P Require Import ThreadSettings FailoverSystem.

Open Scope Z_scope.

Record CodexHandoffThreadRead := mkCodexHandoffThreadRead {
  hr_thread : CodexThreadRead;
  hr_settings : EffectiveThreadSettings;
}.

(** [map_err(|_| CodexFailoverError::Protocol)]. *)
Definition protocol {E} (e : E) : CodexFailoverError := Fo_Protocol.

Section client.
Context {UC : UuidCrate} {JS : JsonCrate} {JT : JsonThreads} (env : ClientEnv).

(** ** The source *)

(** The part of [read_handoff_thread] that talks to the process. *)
Definition read_handoff (codex_home cwd : Path) (thread_id : string) (deadline : Z)
    : stM AppServerProcess CodexThreadError CodexHandoffThreadRead :=
  codex_version ← initialize_thread_client env codex_home deadline;
  _ ← mapping map_thread_transport (send (Rq_ThreadRead 1 thread_id));
  v ← receive_thread_result 1 deadline;
  parsed ← lift_result (map_err (fun _ => Te_Protocol) (parse_thread_settings v));
  settings ← lift_result (ok_or parsed Te_Protocol);
  wire ← lift_result (ok_or (wire_thread_read v) Te_Protocol);
  metadata ← lift_result (validate_thread_projection env true wire cwd codex_home codex_version None);
  _ ← lift_result (reject_if (negb (String.eqb (tm_thread_id metadata) thread_id)
                              || tm_archived metadata) Te_Protocol);
  lifecycle ← lift_result (inspect_rollout_lifecycle env metadata cwd);
  mret (mkCodexHandoffThreadRead (mkCodexThreadRead codex_version metadata lifecycle) settings).

Definition read_handoff_thread (codex_home canonical_cwd : Path) (thread_id : string)
    : Session CodexThreadError CodexHandoffThreadRead :=
  match
    (_ ← validate_canonical_uuid thread_id;
     cwd ← canonical_directory env canonical_cwd;
     deadline ← thread_deadline env;
     Ok (cwd, deadline))
  with
  | Err e => (Err e, None)
  | Ok (cwd, deadline) =>
      in_session (map_err map_thread_transport (ce_spawn env))
        (read_handoff codex_home cwd thread_id deadline)
  end.

(** ** The handshake *)

Definition initialize_handoff_client (codex_home : Path) (deadline : Z)
    : stM AppServerProcess CodexFailoverError () :=
  _ ← mapping protocol (send (Rq_Initialize true));
  initialize ← mapping protocol (receive_result INITIALIZE_REQUEST_ID deadline);
  version ← lift_result (map_err protocol (validate_initialize_result env initialize codex_home));
  _ ← lift_result (reject_if (negb (String.eqb version "0.144.4")) Fo_Protocol);
  mapping protocol (send Rq_Initialized).

(** [shutdown_after_completed_request_until] before the earlier of the two
    deadlines. *)
Definition shutdown_client : result CodexFailoverError () :=
  _ ← ok_or (ce_shutdown_deadline env) Fo_Protocol;
  reject_if (negb (ce_shutdown_clean env)) Fo_Protocol.

(** ** The threads of the target *)

Definition validate_inventory_entry (entry : value) (expected_cwd : string)
    : result CodexFailoverError () :=
  entry ← ok_or (as_object entry) Fo_Protocol;
  id ← ok_or (get_str entry "id") Fo_Protocol;
  _ ← map_err protocol (validate_canonical_uuid id);
  _ ← match get entry "parentThreadId" with
      | Some parent =>
          if is_null parent then Ok ()
          else
            parent ← ok_or (as_str parent) Fo_Protocol;
            _ ← map_err protocol (validate_canonical_uuid parent);
            reject_if (String.eqb parent id) Fo_Protocol
      | None => Ok ()
      end;
  reject_if (negb (is_some (get_bool entry "ephemeral"))
             || negb (is_some (get_i64 entry "updatedAt"))
             || negb (bool_decide (get_str entry "cliVersion" = Some "0.144.4"))
             || negb (bool_decide (get_str entry "source" = Some "cli"))
             || negb (bool_decide (get_str entry "cwd" = Some expected_cwd))) Fo_Protocol.

(** The body of the loop over the entries of a page. *)
Definition push_entry (cwd : string) (entries : list value) (entry : value)
    : result CodexFailoverError (list value) :=
  _ ← validate_inventory_entry entry cwd;
  id ← ok_or (get_str entry "id") Fo_Protocol;
  _ ← reject_if (existsb (fun existing => bool_decide (get_str existing "id" = Some id)) entries)
        Fo_Protocol;
  Ok (entries ++ [entry]).

(** The loop over the pages; [pages] counts those that are left. *)
Fixpoint handoff_pages (pages : nat) (request_id : Z) (cwd : string) (deadline : Z)
    (cursor : option string) (seen_cursors : gset string) (entries : list value)
    : stM AppServerProcess CodexFailoverError (list value) :=
  match pages with
  | O => mret entries
  | S pages =>
      _ ← mapping protocol (send (Rq_ThreadList request_id cursor false cwd));
      v ← mapping protocol (receive_result request_id deadline);
      object ← lift_result (ok_or (as_object v) Fo_Protocol);
      page ← lift_result (ok_or (get object "data" ≫= as_array) Fo_Protocol);
      entries ← lift_result (fold_result (push_entry cwd) entries page);
      match get object "nextCursor" with
      | None => mret entries
      | Some next =>
          if is_null next then mret entries
          else if Nat.eqb pages 0 then throw Fo_Protocol
          else
            next ← lift_result (ok_or (opt_filter (fun s => negb (String.eqb s "")) (as_str next))
                                  Fo_Protocol);
            _ ← lift_result (reject_if (bool_decide (next ∈ seen_cursors)) Fo_Protocol);
            handoff_pages pages (request_id + 1) cwd deadline (Some next) ({[next]} ∪ seen_cursors)
              entries
      end
  end.

(** The part of [read_handoff_inventory] that talks to the process. *)
Definition list_handoff_threads (target_home canonical_cwd : Path) (deadline : Z)
    : stM AppServerProcess CodexFailoverError (list value) :=
  _ ← initialize_handoff_client target_home deadline;
  canonical_cwd ← lift_result (ok_or (to_str canonical_cwd) Fo_Protocol);
  entries ← handoff_pages MAX_THREAD_PAGES_PER_STATE 1 canonical_cwd deadline None ∅ [];
  _ ← lift_result shutdown_client;
  mret entries.

Definition handoff_inventory (target_home canonical_cwd : Path)
    : Session CodexFailoverError (list value) :=
  match ce_deadline env with
  | None => (Err Fo_Protocol, None)
  | Some deadline =>
      in_session (map_err protocol (ce_spawn env))
        (list_handoff_threads target_home canonical_cwd deadline)
  end.
End client.

(** ** In the system *)

Section system.
Context {UC : UuidCrate} {JS : JsonCrate} {JT : JsonThreads} {FS : FailoverSystem}.

Definition read_handoff_inventory (target : Profile) (canonical_cwd : Path)
    : stM Outside CodexFailoverError (list value) :=
  target_home ← call Fo_Profile (profile_home target);
  with_client target_home (fun env => handoff_inventory env target_home canonical_cwd).

(** A child and the rest of the system. *)
Definition Beside : Type := (AppServerProcess * Outside)%type.
Definition on_child {E A} (m : stM AppServerProcess E A) : stM Beside E A := fun '(p, o) =>
  let '(r, p) := m p in (r, (p, o)).
(** The child is waited for; meanwhile the rest of the system goes on. *)
Definition awaiting {E A} (m : stM AppServerProcess E A) : stM Beside E A := fun '(p, o) =>
  let '(r, p) := m p in (r, (p, with_sys (await_answer (out_sys o)) o)).
Definition beside {E A} (m : stM Outside E A) : stM Beside E A := fun '(p, o) =>
  let '(r, o) := m o in (r, (p, o)).
(** A child from its start to its end; what it was sent is recorded. *)
Definition with_child {E A} (p : AppServerProcess) (m : stM Beside E A) : stM Outside E A := fun o =>
  let '(r, (p, o)) := m (p, o) in (r, record_event (Ev_Conversed (ap_sent p)) o).

(** The fork itself, once the app server of the target is up. *)
Definition fork_with (env : ClientEnv) (target : Profile) (target_home working_directory : Path)
    (source : CodexRolloutHandoff) (source_settings : EffectiveThreadSettings) (deadline : Z)
    : stM Beside CodexFailoverError (VerifiedSourceRollout * ValidatedForkRollout) :=
  _ ← awaiting (initialize_handoff_client env target_home deadline);
  import ← beside (call protocol (begin_import source));
  params ← lift_result (ok_or (fork_params source_settings (import_source_path import)) Fo_Protocol);
  _ ← lift_result (reject_if (negb (bool_decide (Some (fk_cwd params) = to_str working_directory)))
                     Fo_Protocol);
  _ ← on_child (mapping protocol (send (Rq_ThreadFork 1 params)));
  v ← awaiting (mapping protocol (receive_result 1 deadline));
  _ ← lift_result (shutdown_client env);
  verified ← beside (call protocol (finish_import import));
  parsed ← lift_result (map_err protocol (parse_thread_settings v));
  returned_settings ← lift_result (ok_or parsed Fo_Protocol);
  _ ← lift_result (reject_if (negb (bool_decide (returned_settings = source_settings))) Fo_Protocol);
  target_rollout ← beside (call protocol (validate_handoff_fork_result target verified v));
  mret (verified, target_rollout).

Definition fork_handoff_rollout (target : Profile) (working_directory : Path)
    (source : CodexRolloutHandoff) (source_settings : EffectiveThreadSettings)
    : stM Outside CodexFailoverError (VerifiedSourceRollout * ValidatedForkRollout) :=
  target_home ← call Fo_Profile (profile_home target);
  env ← ask (client_env target_home);
  deadline ← lift_result (ok_or (ce_deadline env) Fo_Protocol);
  p ← lift_result (map_err protocol (ce_spawn env));
  with_child p (fork_with env target target_home working_directory source source_settings deadline).
End system.
