(* ===== verification/Failover.v ===== *)
(** * Failover: the orchestration
    (src/providers/codex/failover.rs, src/providers/codex/selection_runtime.rs)

    One invocation runs a supervised generation, and as long as a generation
    ends in the usage-exhaustion status, revalidates the exhaustion, selects
    another profile of the enabled pool and hands the conversation over to it.
    The handoff driver and the selection run here against their production
    runtimes. *)
From S2P Require Import Prelude Interfaces CoordinatorTerminal Profiles Storage RoutingDefs.
From S2P Require Import RoutingStore UsageCache Selection ConversationData ConversationOps.
From S2P Require Import ConversationStore ConversationDisk HandoffTransaction CodexLines AppServer.
From S2P Require Import ThreadSettings FailoverSystem HandoffClient.

Open Scope Z_scope.

(** ** [Path::to_string_lossy] *)

(** The bytes of a valid sequence at the head ([inl]), or of the longest part
    that cannot be completed to one ([inr]). *)
Definition utf8_head (l : bytes) : nat + nat :=
  let cont i := match l !! i with Some b => continuation b | None => false end in
  let second lo hi := match l !! 1%nat with Some b => in_byte_range lo hi b | None => false end in
  let three ok := if negb ok then inr 1%nat else if cont 2%nat then inl 3%nat else inr 2%nat in
  let four ok :=
    if negb ok then inr 1%nat
    else if negb (cont 2%nat) then inr 2%nat
    else if cont 3%nat then inl 4%nat else inr 3%nat in
  match l with
  | [] => inr 1%nat
  | b :: _ =>
      if in_byte_range 0 127 b then inl 1%nat
      else if in_byte_range 194 223 b then if cont 1%nat then inl 2%nat else inr 1%nat
      else if b =? 224 then three (second 160 191)
      else if b =? 237 then three (second 128 159)
      else if in_byte_range 225 239 b then three (second 128 191)
      else if b =? 240 then four (second 144 191)
      else if in_byte_range 241 243 b then four (second 128 191)
      else if b =? 244 then four (second 128 143)
      else inr 1%nat
  end.
(** U+FFFD. *)
Definition REPLACEMENT : bytes := [239; 191; 189].
Fixpoint lossy (fuel : nat) (l : bytes) : bytes :=
  match fuel, l with
  | S fuel, _ :: _ =>
      match utf8_head l with
      | inl n => take n l ++ lossy fuel (drop n l)
      | inr n => REPLACEMENT ++ lossy fuel (drop n l)
      end
  | _, _ => []
  end.
Definition to_string_lossy (p : Path) : string :=
  match p with Utf8 s => s | NotUtf8 raw => string_of_bytes (lossy (length raw) raw) end.

(** ** Errors *)

Definition require_exact_head (head : HeadBinding) (profile : Profile) (thread_id : string)
    (working_directory : Path) : result CodexFailoverError () :=
  reject_if (negb (String.eqb (hb_profile_id head) (profile_id profile))
             || negb (String.eqb (hb_thread_id head) thread_id)
             || negb (String.eqb (hb_canonical_cwd head) (to_string_lossy working_directory)))
    (Fo_Conversation CE_Ambiguous).

Definition map_selection_error {R} (e : SelectionError R) : CodexFailoverError :=
  match e with
  | Policy e => Fo_Definition e
  | Runtime _ | RuntimeInvariant => Fo_Selection
  end.

(** [CodexSelectionRuntimeError]. *)
Inductive CodexSelectionRuntimeError :=
| Sr_Profile (e : ProfileError)
| Sr_Observation (e : ObservationError)
| Sr_Clock
| Sr_Handoff (e : CodexFailoverError).

(** A call whose failure is a value. *)
Definition attempt {S E F A} (m : stM S E A) : stM S F (result E A) := fun s =>
  let '(r, s) := m s in (Ok r, s).
(** [filter_map] with a fallible body. *)
Fixpoint filter_mapM {S E A B} (f : A → stM S E (option B)) (l : list A) : stM S E (list B) :=
  match l with
  | [] => mret []
  | x :: l =>
      y ← f x;
      ys ← filter_mapM f l;
      mret (match y with Some y => y :: ys | None => ys end)
  end.

Section failover.
Context {UC : UuidCrate} {SC : Sha256Crate} {JC : JsonCodec ConversationDocument}.
Context {JO : JsonCodec CacheDocument} {JR : JsonCodec Definitions}.
Context {JS : JsonCrate} {JT : JsonThreads} {FS : FailoverSystem}.

(** ** Supervised generations *)

(** A generation that runs to its end; failing to start or to wait for it is
    [Spawn]. *)
Definition spawn_supervised_generation (profile : Profile) (working_directory : Path)
    (thread_id : string) : stM Outside CodexFailoverError ExitStatus :=
  status ← ask (spawn_supervised_exact_resume profile working_directory thread_id);
  _ ← event (Ev_Launched (profile_id profile) thread_id status);
  lift_result (ok_or status Fo_Spawn).
Definition spawn_promoted_supervised_generation (reservation : VerifiedTargetReservation)
    (working_directory : Path) (thread_id : string) : stM Outside CodexFailoverError ExitStatus :=
  status ← ask (spawn_supervised_exact_resume_with_reservation reservation working_directory thread_id);
  _ ← event (Ev_Launched (profile_id (reservation_profile reservation)) thread_id status);
  lift_result (ok_or status Fo_Spawn).

(** ** [ProductionHandoffRuntime] *)

(** What a runtime is built with, and what its operations change. *)
Record HandoffConstants := mkHandoffConstants {
  hc_working_directory : Path;
  hc_target : Profile;
  hc_source_profile : Profile;
  hc_source_thread : CodexThreadRead;
  hc_source_settings : EffectiveThreadSettings;
  hc_pool_alias : string;
  hc_trust_domain_alias : string;
  hc_selection_reason : SelectionReason;
}.
Record ProductionHandoffRuntime := mkProductionHandoffRuntime {
  pr_reservation : option VerifiedTargetReservation;
  pr_source_rollout : option CodexRolloutHandoff;
  pr_verified_source : option VerifiedSourceRollout;
  pr_direct_target : option ValidatedForkRollout;
  pr_attached_status : option ExitStatus;
}.
Definition new_runtime (reservation : VerifiedTargetReservation) (rollout : CodexRolloutHandoff)
    : ProductionHandoffRuntime :=
  mkProductionHandoffRuntime (Some reservation) (Some rollout) None None None.

Definition set_reservation (r : option VerifiedTargetReservation) (s : ProductionHandoffRuntime) :=
  mkProductionHandoffRuntime r (pr_source_rollout s) (pr_verified_source s) (pr_direct_target s)
    (pr_attached_status s).
Definition set_source_rollout (r : option CodexRolloutHandoff) (s : ProductionHandoffRuntime) :=
  mkProductionHandoffRuntime (pr_reservation s) r (pr_verified_source s) (pr_direct_target s)
    (pr_attached_status s).
Definition set_verified_source (v : option VerifiedSourceRollout) (s : ProductionHandoffRuntime) :=
  mkProductionHandoffRuntime (pr_reservation s) (pr_source_rollout s) v (pr_direct_target s)
    (pr_attached_status s).
Definition set_direct_target (t : option ValidatedForkRollout) (s : ProductionHandoffRuntime) :=
  mkProductionHandoffRuntime (pr_reservation s) (pr_source_rollout s) (pr_verified_source s) t
    (pr_attached_status s).
Definition set_attached_status (x : option ExitStatus) (s : ProductionHandoffRuntime) :=
  mkProductionHandoffRuntime (pr_reservation s) (pr_source_rollout s) (pr_verified_source s)
    (pr_direct_target s) x.

Section runtime.
Context (c : HandoffConstants).

Definition RuntimeState : Type := (ProductionHandoffRuntime * Outside)%type.
Abbreviation runtimeM := (stM RuntimeState CodexFailoverError).

Definition get_runtime : runtimeM ProductionHandoffRuntime := fun '(s, o) => (Ok s, (s, o)).
Definition modify_runtime (f : ProductionHandoffRuntime → ProductionHandoffRuntime) : runtimeM () :=
  fun '(s, o) => (Ok (), (f s, o)).
Definition of_outside {A} (m : stM Outside CodexFailoverError A) : runtimeM A := fun '(s, o) =>
  let '(r, o) := m o in (r, (s, o)).

(** [provider_lease]. *)
Definition provider_lease : runtimeM () :=
  s ← get_runtime;
  reservation ← lift_result (ok_or (pr_reservation s) Fo_Handoff);
  of_outside (call Fo_Profile (provider_lock_for_probe reservation)).

(** [source.begin_import().and_then(|import| import.finish())]. *)
Definition import_source (source : CodexRolloutHandoff)
    : stM Outside CodexFailoverError VerifiedSourceRollout :=
  import ← call protocol (begin_import source);
  call protocol (finish_import import).

Definition ensure_verified_source : runtimeM VerifiedSourceRollout :=
  s ← get_runtime;
  match pr_verified_source s with
  | Some verified => mret verified
  | None =>
      _ ← modify_runtime (set_source_rollout None);
      source ← lift_result (ok_or (pr_source_rollout s) Fo_Handoff);
      verified ← of_outside (import_source source);
      _ ← modify_runtime (set_verified_source (Some verified));
      mret verified
  end.

Definition take_or_remint_source : runtimeM CodexRolloutHandoff :=
  s ← get_runtime;
  match pr_source_rollout s with
  | Some source => _ ← modify_runtime (set_source_rollout None); mret source
  | None =>
      of_outside (call protocol
        (mint_profile_rollout_handoff (hc_source_profile c) (hc_source_thread c)))
  end.

Definition production_stop_and_reap_source (t : HandoffTransition) : runtimeM () := mret ().

Definition entry_id (entry : value) : option string := get_str entry "id".

Definition production_capture_target_baseline (t : HandoffTransition) : runtimeM (list string) :=
  _ ← lift_result (reject_if (negb (String.eqb (tr_target_profile_id t) (profile_id (hc_target c))))
                     Fo_Handoff);
  _ ← provider_lease;
  inventory ← of_outside (read_handoff_inventory (hc_target c) (hc_working_directory c));
  mret (omap entry_id inventory).

Definition production_request_fork (t : HandoffTransition) : runtimeM () :=
  s ← get_runtime;
  _ ← lift_result (reject_if (negb (String.eqb (tr_target_profile_id t) (profile_id (hc_target c)))
                              || is_some (pr_direct_target s)) Fo_Handoff);
  source ← take_or_remint_source;
  _ ← provider_lease;
  forked ← of_outside (fork_handoff_rollout (hc_target c) (hc_working_directory c) source
                         (hc_source_settings c));
  _ ← modify_runtime (set_verified_source (Some (fst forked)));
  modify_runtime (set_direct_target (Some (snd forked))).

(** The closure of the [filter_map] over the inventory. *)
Definition fork_candidate (verified : VerifiedSourceRollout) (baseline : list string)
    (requested_at observed_at : Z) (candidate : value)
    : stM Outside CodexFailoverError (option (ForkCandidate HandoffTarget)) :=
  match entry_id candidate with
  | None => mret None
  | Some thread_id =>
      if bool_decide (thread_id ∈ baseline) then mret None
      else
        validated ← attempt (call protocol
          (validate_handoff_inventory_candidate (hc_target c) verified candidate requested_at
             observed_at));
        mret (Some (match validated with
                    | Ok rollout => from_validated_rollout thread_id rollout verified
                    | Err _ => mismatch thread_id
                    end))
  end.

Definition production_reconcile_target_inventory (t : HandoffTransition)
    : runtimeM (list (ForkCandidate HandoffTarget)) :=
  verified ← ensure_verified_source;
  s ← get_runtime;
  match pr_direct_target s with
  | Some target =>
      _ ← modify_runtime (set_direct_target None);
      mret [from_validated_rollout (vf_thread_id target) target verified]
  | None =>
      observed_at ← of_outside (timestamp Fo_Protocol);
      requested_at ← lift_result (ok_or (tr_fork_requested_at t) Fo_Handoff);
      _ ← provider_lease;
      inventory ← of_outside (read_handoff_inventory (hc_target c) (hc_working_directory c));
      of_outside (filter_mapM (fork_candidate verified (tr_target_baseline_thread_ids t)
                                 requested_at observed_at) inventory)
  end.

Definition production_attach_committed_target (t : HandoffTransition) : runtimeM () :=
  observed ← lift_result (ok_or (tr_observed_target t) Fo_Handoff);
  _ ← lift_result (reject_if (negb (String.eqb (tr_target_profile_id t) (profile_id (hc_target c)))
                              || negb (String.eqb (ot_canonical_cwd observed)
                                         (to_string_lossy (hc_working_directory c)))) Fo_Handoff);
  s ← get_runtime;
  _ ← modify_runtime (set_reservation None);
  reservation ← lift_result (ok_or (pr_reservation s) Fo_Handoff);
  _ ← of_outside (event (Ev_Switching (reference (hc_source_profile c)) (reference (hc_target c))
                           (hc_pool_alias c) (hc_trust_domain_alias c)
                           (selection_reason_label (hc_selection_reason c))));
  status ← of_outside (spawn_promoted_supervised_generation reservation (hc_working_directory c)
                         (ot_thread_id observed));
  modify_runtime (set_attached_status (Some status)).

#[export] Instance production_runtime : HandoffRuntime := {|
  hrt := RuntimeState;
  hrt_error := CodexFailoverError;
  stop_and_reap_source := production_stop_and_reap_source;
  capture_target_baseline := production_capture_target_baseline;
  request_fork := production_request_fork;
  reconcile_target_inventory := production_reconcile_target_inventory;
  attach_committed_target := production_attach_committed_target;
|}.

(** ** [drive_handoff] *)

Record HandoffResult := mkHandoffResult {
  hx_conversation_id : string;
  hx_generation : Z;
  hx_profile : Profile;
  hx_thread_id : string;
  hx_status : ExitStatus;
}.

Definition DriveState : Type := (ConvDisk * RuntimeState)%type.
Abbreviation driveM := (stM DriveState CodexFailoverError).

(** One step of the driver, after what other processes did. *)
Definition drive_once : driveM HandoffStep := fun '(k, (s, o)) =>
  let '(_, (k, o)) := interference (E := CodexFailoverError) (k, o) in
  let '(e, system) := resume_env (out_sys o) in
  let '(r, w) := resume_handoff_once (HR := production_runtime) e (k, (s, with_sys system o)) in
  (map_err (fun _ => Fo_Handoff) r, w).

Definition take_attached_status : driveM ExitStatus := fun '(k, (s, o)) =>
  (ok_or (pr_attached_status s) Fo_Handoff, (k, (set_attached_status None s, o))).

Fixpoint drive_loop (steps : nat) : driveM HandoffResult :=
  match steps with
  | O => throw Fo_Handoff
  | S steps =>
      step ← drive_once;
      match step with
      | Advanced _ => drive_loop steps
      | RequiresExplicitReconciliation _ => throw Fo_Handoff
      | Attached head =>
          status ← take_attached_status;
          mret (mkHandoffResult (hb_conversation_id head) (hb_generation head) (hc_target c)
                  (hb_thread_id head) status)
      end
  end.
End runtime.

Definition drive_handoff (c : HandoffConstants) (s : ProductionHandoffRuntime)
    : stM FWorld CodexFailoverError HandoffResult := fun '(k, o) =>
  let '(r, (k, (_, o))) := drive_loop c MAX_HANDOFF_STEPS (k, (s, o)) in (r, (k, o)).
End failover.
