(* ===== verification/FailoverLoop.v ===== *)
(** * Failover: selection, recovery and the loop
    (src/providers/codex/failover.rs, src/providers/codex/selection_runtime.rs)

    The guarded selection against its production runtime, whose last operation
    is the handoff; the recovery of a handoff that an earlier invocation left;
    and the loop over the generations of one invocation. *)
From S2P Require Import Prelude Interfaces CoordinatorTerminal Profiles Storage RoutingDefs.
From S2P Require Import RoutingStore UsageCache Selection ConversationData ConversationOps.
From S2P Require Import ConversationStore ConversationDisk HandoffTransaction CodexLines AppServer.
From S2P Require Import ThreadSettings FailoverSystem HandoffClient Failover.

Open Scope Z_scope.

Section failover.
Context {UC : UuidCrate} {SC : Sha256Crate} {JC : JsonCodec ConversationDocument}.
Context {JO : JsonCodec CacheDocument} {JR : JsonCodec Definitions}.
Context {JS : JsonCrate} {JT : JsonThreads} {FS : FailoverSystem}.

Abbreviation failM := (stM FWorld CodexFailoverError).

(** ** [execute_handoff] *)

Definition execute_handoff (definitions : Definitions) (working_directory : Path)
    (expected_source : HeadBinding) (source_rollout : CodexRolloutHandoff)
    (source_thread : CodexThreadRead) (source_settings : EffectiveThreadSettings)
    (selection : HandoffSelection VerifiedTargetReservation) : failM HandoffResult :=
  let source := hs_source selection in
  let target := hs_target selection in
  _ ← lift_result (reject_if
        (negb (String.eqb (profile_id source) (hb_profile_id expected_source))
         || negb (String.eqb (profile_id target)
                    (profile_id (reservation_profile (hs_reservation selection))))) Fo_Handoff);
  e ← outside (ask resume_env);
  _ ← (fun '(k, o) =>
         let '(r, k) := prepare_codex_handoff e definitions expected_source target
                          (authorized_trust_domain_id (hs_authorization selection))
                          (handoff_reason (hs_reason selection)) source_rollout k in
         (map_err (fun _ => Fo_Handoff) r, (k, o)));
  pool ← lift_result (map_err Fo_Definition
           (enabled_pool_for_source definitions (hs_pool_id selection) (profile_id source) Codex));
  drive_handoff
    (mkHandoffConstants working_directory target source source_thread source_settings
       (ep_alias pool) (ep_trust_domain_alias pool) (hs_reason selection))
    (new_runtime (hs_reservation selection) source_rollout).

(** ** [CodexSelectionRuntime] *)

(** The world, and the variables the closure of the handoff captures. *)
Record SelectionState := mkSelectionState {
  ss_world : FWorld;
  ss_source_rollout : option CodexRolloutHandoff;
  ss_source_thread : option CodexThreadRead;
  ss_attached_status : option ExitStatus;
  ss_attached_profile : option Profile;
  ss_attached_thread : option string;
}.
Definition set_world (w : FWorld) (s : SelectionState) : SelectionState :=
  mkSelectionState w (ss_source_rollout s) (ss_source_thread s) (ss_attached_status s)
    (ss_attached_profile s) (ss_attached_thread s).
Definition set_attached (x : HandoffResult) (s : SelectionState) : SelectionState :=
  mkSelectionState (ss_world s) (ss_source_rollout s) (ss_source_thread s) (Some (hx_status x))
    (Some (hx_profile x)) (Some (hx_thread_id x)).
Definition take_source (s : SelectionState) : SelectionState :=
  mkSelectionState (ss_world s) None (ss_source_thread s) (ss_attached_status s)
    (ss_attached_profile s) (ss_attached_thread s).
Definition take_thread (s : SelectionState) : SelectionState :=
  mkSelectionState (ss_world s) (ss_source_rollout s) None (ss_attached_status s)
    (ss_attached_profile s) (ss_attached_thread s).

Abbreviation selectM := (stM SelectionState CodexSelectionRuntimeError).

Definition in_world {E A} (m : stM FWorld E A) : stM SelectionState E A := fun s =>
  let '(r, w) := m (ss_world s) in (r, set_world w s).
Definition in_outside {E A} (m : stM Outside E A) : stM SelectionState E A := in_world (outside m).

(** [verify_codex_identity_adapter] as the closure of a reservation. *)
Definition adapter_check (home : Path) (s : sys) : result ProfileError () * sys :=
  let '(env, s) := client_env home s in
  let '(r, _) := verify_codex_identity_adapter env home in
  (map_err (fun _ => PE_Identity IE_Unsupported) r, s).

Definition codex_cached_usage (pid : string) : selectM (option UsageView) :=
  now ← in_outside (timestamp Sr_Clock);
  in_outside (on_observations Sr_Observation (fun faults => store_view faults default_policy pid now)).

(** The usage read of a reserved candidate, and what its outcome is recorded
    as. *)
Definition revalidate_candidate (reservation : VerifiedTargetReservation)
    : selectM (ReservationResult VerifiedTargetReservation) :=
  let current_profile := reservation_profile reservation in
  home ← in_outside (call Sr_Profile (profile_home current_profile));
  _ ← in_outside (call Sr_Profile (provider_lock_for_probe reservation));
  observed_at ← in_outside (timestamp Sr_Clock);
  read ← in_outside (attempt (with_client home (fun env => read_account_usage env home)));
  match read with
  | Ok observation =>
      usage ← in_outside (on_observations Sr_Observation (fun faults =>
                store_observe_usage faults default_policy (profile_id current_profile) IdleRead
                  (uo_codex_version observation) (uo_usage observation) observed_at));
      mret (Ready (mkCandidate current_profile usage reservation))
  | Err failure =>
      _ ← in_outside (on_observations Sr_Observation (fun faults =>
            store_observe_failure faults default_policy (profile_id current_profile) IdleRead
              (uf_codex_version failure) (uf_compatibility failure) (uf_kind failure) observed_at));
      mret Unknown
  end.

Definition codex_reserve_and_revalidate (pid : string)
    : selectM (ReservationResult VerifiedTargetReservation) :=
  profile ← in_outside (call Sr_Profile (find_by_id pid));
  reserved ← in_outside (attempt (call (fun e => e)
               (reserve_verified_codex_target profile adapter_check)));
  match reserved with
  | Ok reservation => revalidate_candidate reservation
  | Err PE_Busy => mret Busy
  | Err e => throw (Sr_Profile e)
  end.

Section selection.
Context (definitions : Definitions) (working_directory : Path) (head : HeadBinding).
Context (source_settings : EffectiveThreadSettings).

(** The closure: the rollout and the thread are taken once. *)
Definition codex_handoff (selection : HandoffSelection VerifiedTargetReservation) : selectM Z :=
  s ← get_st;
  _ ← modify_st take_source;
  rollout ← lift_result (ok_or (ss_source_rollout s) (Sr_Handoff Fo_Handoff));
  _ ← modify_st take_thread;
  thread ← lift_result (ok_or (ss_source_thread s) (Sr_Handoff Fo_Handoff));
  x ← mapping Sr_Handoff (in_world (execute_handoff definitions working_directory head rollout thread
                                      source_settings selection));
  _ ← modify_st (set_attached x);
  mret (hx_generation x).

#[export] Instance codex_selection_runtime : SelectionRuntime := {|
  rt := SelectionState;
  Reservation := VerifiedTargetReservation;
  rt_error := CodexSelectionRuntimeError;
  cached_usage := codex_cached_usage;
  reserve_and_revalidate := codex_reserve_and_revalidate;
  handoff := codex_handoff;
|}.
End selection.

(** ** One turn of the loop *)

(** What a turn starts from. *)
Record Invocation := mkInvocation {
  iv_profile : Profile;
  iv_thread_id : string;
  iv_cooldown : gset string;
  iv_completed : option ExitStatus;
}.
Inductive Progress := Finished (status : ExitStatus) | Again (next : Invocation).

(** The source of the handoff, revalidated after its generation has ended: its
    profile, its head, the trigger and the moment's pool. *)
Record Revalidated := mkRevalidated {
  rv_profile : Profile;
  rv_head : HeadBinding;
  rv_trigger : SelectionTrigger;
  rv_definitions : Definitions;
  rv_pool : EnabledPool;
  rv_home : Path;
}.

Definition trigger_of (r : result TriggerError SelectionTrigger)
    : result CodexFailoverError SelectionTrigger := map_err (fun _ => Fo_Trigger) r.

Definition read_definitions : failM Definitions := outside (on_routing Fo_Routing RoutingStore.read).

(** From the lock of the source to the refreshed pool. *)
Definition revalidate_source (working_directory : Path) (pool_id : string) (iv : Invocation)
    : failM Revalidated :=
  signal_observed_at ← outside (timestamp Fo_Protocol);
  _ ← outside (call Fo_Profile (lock_profile (iv_profile iv)));
  current ← outside (call Fo_Profile (refetch_by_id_under_lease (profile_id (iv_profile iv))));
  _ ← lift_result (reject_if (negb (bool_decide (current = iv_profile iv)))
                     (Fo_Profile PE_UnsafeState));
  cwd ← outside (ask (canonical_path working_directory));
  head ← journal Fo_Conversation (fun host => resolve_head host cwd);
  _ ← lift_result (require_exact_head head current (iv_thread_id iv) working_directory);
  _ ← outside (on_observations Fo_Observation (fun faults =>
        store_require_revalidation faults default_policy (profile_id current) signal_observed_at));
  home ← outside (call Fo_Profile (profile_home current));
  _ ← outside (call Fo_Profile neutral_working_directory);
  _ ← outside (call Fo_Profile source_lock_for_probe);
  usage ← mapping (fun _ => Fo_Trigger)
            (outside (with_client home (fun env => read_account_usage env home)));
  observed_at ← outside (timestamp Fo_Protocol);
  usage_view ← outside (on_observations Fo_Observation (fun faults =>
                 store_observe_usage faults default_policy (profile_id current) IdleRead
                   (uo_codex_version usage) (uo_usage usage) observed_at));
  trigger ← lift_result (trigger_of
              (revalidated_usage_limit (profile_id current) signal_observed_at usage_view));
  definitions ← read_definitions;
  pool ← lift_result (map_err Fo_Definition
           (enabled_pool_for_source definitions pool_id (profile_id current) Codex));
  mret (mkRevalidated current head trigger definitions pool home).

(** The source thread and its rollout; [expected] is the version of the head. *)
Definition read_source (profile : Profile) (home working_directory : Path) (thread_id expected : string)
    : stM Outside CodexFailoverError (CodexHandoffThreadRead * CodexRolloutHandoff) :=
  _ ← call Fo_Profile source_lock_for_probe;
  source_read ← mapping protocol
    (with_client home (fun env => read_handoff_thread env home working_directory thread_id));
  _ ← lift_result (reject_if
        (negb (String.eqb (tr_codex_version (hr_thread source_read)) expected)) Fo_Protocol);
  source_rollout ← call protocol (mint_profile_rollout_handoff profile (hr_thread source_read));
  mret (source_read, source_rollout).

Definition stop_kind (o : SelectionOutcome) : option (SelectionStop * PoolStopKind) :=
  match o with
  | Selected _ => None
  | Exhausted s => Some (s, Ps_Exhausted)
  | AllUnknown s => Some (s, Ps_AllUnknown)
  | AllBusy s => Some (s, Ps_Busy)
  | NoEligible s => Some (s, Ps_NoEligible)
  end.

(** One guarded pass over the pool; the state of the runtime comes back. *)
Definition select_target (working_directory : Path) (rv : Revalidated)
    (source : CodexHandoffThreadRead * CodexRolloutHandoff) (cooldown : gset string)
    : stM FWorld CodexFailoverError (SelectionOutcome * SelectionState) := fun w =>
  let runtime := codex_selection_runtime (rv_definitions rv) working_directory (rv_head rv)
                   (hr_settings (fst source)) in
  let '(r, s) := select_once (SR := runtime) (rv_definitions rv) (rv_pool rv) (rv_profile rv)
                   (rv_trigger rv) cooldown
                   (mkSelectionState w (Some (snd source)) (Some (hr_thread (fst source)))
                      None None None) in
  (map_err map_selection_error (r' ← r; Ok (r', s)), ss_world s).

(** What follows the supervised completion of a generation. *)
Definition after_completion (working_directory : Path) (pool_id : string) (iv : Invocation)
    (status : ExitStatus) : failM Progress :=
  if negb (exhausted_exit status) then mret (Finished status)
  else
    rv ← revalidate_source working_directory pool_id iv;
    source ← outside (read_source (rv_profile rv) (rv_home rv) working_directory (iv_thread_id iv)
                        (hb_codex_version (rv_head rv)));
    selected ← select_target working_directory rv source (iv_cooldown iv);
    let '(outcome, s) := selected : SelectionOutcome * SelectionState in
    match stop_kind outcome with
    | Some (stop, kind) => _ ← outside (event (Ev_Stopped stop)); throw (Fo_PoolUnavailable kind)
    | None =>
        profile ← lift_result (ok_or (ss_attached_profile s) Fo_Handoff);
        thread_id ← lift_result (ok_or (ss_attached_thread s) Fo_Handoff);
        status ← lift_result (ok_or (ss_attached_status s) Fo_Handoff);
        if negb (exhausted_exit status) then mret (Finished status)
        else mret (Again (mkInvocation profile thread_id ({[profile_id profile]} ∪ iv_cooldown iv)
                            (Some status)))
    end.

Definition failover_turn (working_directory : Path) (pool_id : string) (iv : Invocation)
    : failM Progress :=
  status ← match iv_completed iv with
           | Some status => mret status
           | None =>
               status ← attempt (outside (spawn_supervised_generation (iv_profile iv)
                                            working_directory (iv_thread_id iv)));
               _ ← interference;
               lift_result status
           end;
  after_completion working_directory pool_id iv status.

(** The loop; [fuel] bounds its turns. *)
Fixpoint failover_loop (fuel : nat) (working_directory : Path) (pool_id : string) (iv : Invocation)
    (w : FWorld) : option (result CodexFailoverError ExitStatus * FWorld) :=
  match fuel with
  | O => None
  | S fuel =>
      match failover_turn working_directory pool_id iv w with
      | (Err e, w) => Some (Err e, w)
      | (Ok (Finished status), w) => Some (Ok status, w)
      | (Ok (Again next), w) => failover_loop fuel working_directory pool_id next w
      end
  end.

(** ** Recovery *)

Definition validate_recovery_pool (pool : EnabledPool) (t : HandoffTransition)
    : result CodexFailoverError () :=
  reject_if (negb (String.eqb (ep_trust_domain_id pool) (tr_trust_domain_id t))
             || negb (existsb (fun p => String.eqb p (tr_target_profile_id t)) (ep_profile_ids pool)))
    (Fo_Definition InvalidMembership).

Definition reserve_recovery_target (target : Profile)
    : stM Outside CodexFailoverError VerifiedTargetReservation :=
  call Fo_Profile (reserve_verified_codex_target target adapter_check).

(** The checks of the transition against its head, the pool and the domain. *)
Definition check_recovery (definitions : Definitions) (working_directory : Path) (pool_id : string)
    (t : HandoffTransition) (source_head : HeadBinding) : result CodexFailoverError EnabledPool :=
  _ ← reject_if (negb (String.eqb (hb_conversation_id source_head) (tr_conversation_id t))
                 || negb (hb_generation source_head =? tr_source_generation t)
                 || negb (String.eqb (hb_profile_id source_head) (tr_source_profile_id t))
                 || negb (String.eqb (hb_canonical_cwd source_head) (tr_canonical_cwd t))
                 || negb (bool_decide (to_str working_directory = Some (tr_canonical_cwd t))))
        (Fo_Conversation CE_Ambiguous);
  pool ← map_err Fo_Definition
    (enabled_pool_for_source definitions pool_id (tr_source_profile_id t) Codex);
  _ ← validate_recovery_pool pool t;
  _ ← map_err Fo_Definition
    (authorize_handoff definitions (tr_trust_domain_id t) (tr_source_profile_id t)
       (tr_target_profile_id t) Codex);
  Ok pool.

Definition recover_handoff (definitions : Definitions) (working_directory : Path) (pool_id : string)
    (t : HandoffTransition) (source_head : HeadBinding) : failM HandoffResult :=
  pool ← lift_result (check_recovery definitions working_directory pool_id t source_head);
  source_profile ← outside (call Fo_Profile (find_by_id (tr_source_profile_id t)));
  _ ← outside (call Fo_Profile (lock_profile source_profile));
  current_source ← outside (call Fo_Profile (refetch_by_id_under_lease (profile_id source_profile)));
  _ ← lift_result (reject_if (negb (bool_decide (current_source = source_profile)))
                     (Fo_Profile PE_UnsafeState));
  _ ← outside (call Fo_Profile neutral_working_directory);
  source_home ← outside (call Fo_Profile (profile_home current_source));
  source ← outside (read_source current_source source_home working_directory
                      (hb_thread_id source_head) (hb_codex_version source_head));
  target ← outside (call Fo_Profile (find_by_id (tr_target_profile_id t)));
  reservation ← outside (reserve_recovery_target target);
  drive_handoff
    (mkHandoffConstants working_directory target current_source (hr_thread (fst source))
       (hr_settings (fst source)) (ep_alias pool) (ep_trust_domain_alias pool)
       RevalidatedUsageLimit)
    (new_runtime reservation (snd source)).

(** ** The invocation *)

(** What the loop starts from: a recovered generation, or the ready head. *)
Definition first_invocation (definitions : Definitions) (initial_profile : Profile)
    (working_directory : Path) (initial_thread_id pool_id : string) : failM Invocation :=
  context ← journal Fo_Conversation (fun host => current_handoff_context host);
  match context with
  | Some (t, source_head) =>
      cwd ← outside (ask (canonical_path working_directory));
      bound ← journal Fo_Conversation (fun host =>
                find_bound_thread host (profile_id initial_profile) initial_thread_id cwd);
      requested ← lift_result (ok_or
        (opt_filter (fun b => String.eqb (hb_conversation_id b) (tr_conversation_id t)) bound)
        (Fo_Conversation CE_Ambiguous));
      recovered ← recover_handoff definitions working_directory pool_id t source_head;
      _ ← outside (event (Ev_Recovered (hx_generation recovered) (reference (hx_profile recovered))));
      cooldown ← journal Fo_Conversation (fun host =>
                   conversation_profile_ids_from_generation host (hx_conversation_id recovered)
                     (hb_generation requested));
      mret (mkInvocation (hx_profile recovered) (hx_thread_id recovered) cooldown
              (Some (hx_status recovered)))
  | None =>
      cwd ← outside (ask (canonical_path working_directory));
      initial_head ← journal Fo_Conversation (fun host => resolve_head host cwd);
      _ ← lift_result (require_exact_head initial_head initial_profile initial_thread_id
                         working_directory);
      cooldown ← journal Fo_Conversation (fun host =>
                   conversation_profile_ids_from_generation host (hb_conversation_id initial_head)
                     (hb_generation initial_head));
      mret (mkInvocation initial_profile initial_thread_id cooldown None)
  end.

Definition prepare_invocation (initial_profile : Profile) (working_directory : Path)
    (initial_thread_id : string) (pool_provider : option Provider) (pool_reference : string)
    : failM (string * Invocation) :=
  definitions ← read_definitions;
  pool_id ← lift_result (map_err Fo_Definition
              (resolve_pool_id definitions pool_provider pool_reference));
  iv ← first_invocation definitions initial_profile working_directory initial_thread_id pool_id;
  mret (pool_id, iv).

Definition resume_supervised_with_failover (fuel : nat) (initial_profile : Profile)
    (working_directory : Path) (initial_thread_id : string) (pool_provider : option Provider)
    (pool_reference : string) (w : FWorld)
    : option (result CodexFailoverError ExitStatus * FWorld) :=
  match prepare_invocation initial_profile working_directory initial_thread_id pool_provider
          pool_reference w with
  | (Err e, w) => Some (Err e, w)
  | (Ok (pool_id, iv), w) => failover_loop fuel working_directory pool_id iv w
  end.
End failover.
