(* ===== verification/AppServerProofs.v ===== *)
(** * Codex app server: theorems about the client

    What a reply proves ([response_spec]), what an inventory of threads proves
    ([thread_inventory_sound]) and what the lifecycle of a rollout is
    ([rollout_lifecycle_spec]). *)
From Stdlib Require Import Ascii Sorting.Sorted.
From S2P Require Import Prelude Interfaces Profiles UsageCache ConversationData CodexLines CodexVersions.
From S2P Require Import HandoffTransaction AppServer.

Open Scope Z_scope.

(** ** Replies *)

Section replies.
Context {JS : JsonCrate} {E : Type} (timeout protocol transport : E).
Context (decode : string → result E (option value)) (deadline : Z).

(** A line of another request, read in time. *)
Definition passed_over (reading : Z * Answer) : Prop :=
  reading.1 ≤ deadline ∧ ∃ line, reading.2 = An_Event (Line line) ∧ decode line = Ok None.

(** What a reading that ends the wait says. *)
Inductive settles : Z * Answer → result E value → Prop :=
| Settles_late now answer : deadline < now → settles (now, answer) (Err timeout)
| Settles_timeout now : now ≤ deadline → settles (now, An_Timeout) (Err timeout)
| Settles_disconnected now : now ≤ deadline → settles (now, An_Disconnected) (Err transport)
| Settles_protocol now :
    now ≤ deadline → settles (now, An_Event ProtocolError) (Err protocol)
| Settles_transport now :
    now ≤ deadline → settles (now, An_Event TransportError) (Err transport)
| Settles_eof now : now ≤ deadline → settles (now, An_Event Eof) (Err transport)
| Settles_error now line e :
    now ≤ deadline → decode line = Err e → settles (now, An_Event (Line line)) (Err e)
| Settles_result now line v :
    now ≤ deadline → decode line = Ok (Some v) → settles (now, An_Event (Line line)) (Ok v).

Abbreviation loop := (receive_loop timeout protocol transport decode deadline).

Lemma receive_loop_spec answers r rest :
  loop answers = (r, rest) ↔
  (Forall passed_over answers ∧ r = Err transport ∧ rest = []) ∨
  ∃ skipped reading, answers = skipped ++ reading :: rest ∧
    Forall passed_over skipped ∧ settles reading r.
Proof.
  assert (Hdone : ∀ reading answers, settles reading r → rest = answers →
    (Forall passed_over (reading :: answers) ∧ r = Err transport ∧ rest = []) ∨
    ∃ skipped reading', reading :: answers = skipped ++ reading' :: rest ∧
      Forall passed_over skipped ∧ settles reading' r).
  { intros reading answers' Hs ->. right. by exists [], reading. }
  split.
  - induction answers as [|[now answer] answers IH]; cbn [receive_loop].
    { intros [= <- <-]. by left. }
    destruct (Z.ltb_spec deadline now) as [Hd|Hd].
    { intros [= <- <-]. apply Hdone; [by constructor|done]. }
    destruct answer as [[line| | |]| |];
      try (intros [= <- <-]; apply Hdone; [by constructor|done]).
    destruct (decode line) as [[v|]|e] eqn:Hl; try (intros [= <- <-]; apply Hdone; [by econstructor|done]).
    intros H. assert (passed_over (now, An_Event (Line line))) by (split; eauto).
    destruct (IH H) as [(Hf & -> & ->)|(skipped & reading & -> & Hf & Hs)].
    + left. by split_and!; [constructor| |].
    + right. eexists (_ :: skipped), reading. by split_and!; [|constructor|].
  - intros [(Hf & -> & ->)|(skipped & reading & -> & Hf & Hs)].
    + induction Hf as [|[now answer] answers [Hn (line & Ha & Hd)] Hf IH]; [done|]. cbn in *. subst answer.
      by rewrite (proj2 (Z.ltb_ge _ _)), Hd, IH.
    + induction Hf as [|[now answer] answers [Hn (line & Ha & Hd)] Hf IH]; cbn in *.
      * destruct Hs; cbn [receive_loop]; [by rewrite (proj2 (Z.ltb_lt _ _))|..];
          rewrite (proj2 (Z.ltb_ge _ _)) by done; try done; by rewrite H0.
      * subst answer. by rewrite (proj2 (Z.ltb_ge _ _)), Hd, IH.
Qed.
End replies.

Section client.
Context {JS : JsonCrate}.

(** The reply to the request [id]: an object with that id, with a result and
    without an error. *)
Definition replies (line : string) (id : Z) (v : value) : Prop :=
  ∃ envelope, from_str line = Some envelope ∧ is_object envelope = true ∧
    get envelope "id" ≫= as_u64 = Some id ∧
    get envelope "result" = Some v ∧ get envelope "error" = None.

Lemma decode_envelope_Ok {E} (protocol : E) classify line id v :
  decode_envelope protocol classify line id = Ok (Some v) ↔ replies line id v.
Proof.
  unfold decode_envelope, replies. split.
  - intros H. inv_ok. exists a. destruct (bool_decide_reflect (get a "id" ≫= as_u64 = Some id)); [|done].
    apply negb_false_iff in Hok0. cbn in H.
    destruct (get a "result"), (get a "error"); simplify_eq; by split_and!.
  - intros (envelope & -> & Ho & Hi & Hr & He). cbn. rewrite Ho. cbn.
    by rewrite (bool_decide_true _ Hi), Hr, He.
Qed.

(** Requests are appended to what was sent; replies are taken from the script. *)
Lemma send_Ok request p u p' :
  send request p = (Ok u, p') →
  ap_sent p' = ap_sent p ++ [request] ∧ ap_answers p' = ap_answers p.
Proof. unfold send. destruct (ap_writes p) as [|[] ws]; intros [=]; by subst. Qed.

Lemma mapping_Ok {S E F A} (f : E → F) (m : stM S E A) s a s' :
  mapping f m s = (Ok a, s') ↔ m s = (Ok a, s').
Proof. unfold mapping. destruct (m s) as [[]?]; cbn; naive_solver. Qed.

Lemma lift_result_Ok {S E A} (r : result E A) (s : S) a s' :
  lift_result r s = (Ok a, s') ↔ r = Ok a ∧ s' = s.
Proof. unfold lift_result. naive_solver. Qed.

(** The reply [v] to the request [id], read in time from the process [p]. *)
Definition answered (p : AppServerProcess) (deadline id : Z) (v : value) : Prop :=
  ∃ now line, (now, An_Event (Line line)) ∈ ap_answers p ∧ now ≤ deadline ∧ replies line id v.

Lemma answered_later p p' deadline id v :
  ap_answers p' `suffix_of` ap_answers p → answered p' deadline id v → answered p deadline id v.
Proof.
  intros [k Hk] (now & line & Hin & H). exists now, line. split; [|done]. rewrite Hk. apply elem_of_app. by right.
Qed.

Lemma receive_with_Ok {E} (timeout protocol transport : E) classify id deadline p v p' :
  receive_with timeout protocol transport (fun line => decode_envelope protocol classify line id)
    deadline p = (Ok v, p') →
  answered p deadline id v ∧ ap_answers p' `suffix_of` ap_answers p ∧ ap_sent p' = ap_sent p.
Proof.
  unfold receive_with. destruct (receive_loop _ _ _ _ _ _) as [r rest] eqn:H. intros [= -> <-].
  cbn. apply receive_loop_spec in H as [(_ & [=] & _)|(skipped & reading & Ha & _ & Hs)].
  inversion Hs; subst. split_and!; [|exists (skipped ++ [(now, An_Event (Line line))]); by rewrite <- app_assoc|done].
  exists now, line. split_and!; [rewrite Ha; apply elem_of_app; right; by left|done|by eapply decode_envelope_Ok].
Qed.
Lemma receive_thread_result_Ok id deadline p v p' :
  receive_thread_result id deadline p = (Ok v, p') →
  answered p deadline id v ∧ ap_answers p' `suffix_of` ap_answers p ∧ ap_sent p' = ap_sent p.
Proof. apply receive_with_Ok. Qed.
Lemma receive_result_Ok id deadline p v p' :
  receive_result id deadline p = (Ok v, p') →
  answered p deadline id v ∧ ap_answers p' `suffix_of` ap_answers p ∧ ap_sent p' = ap_sent p.
Proof. apply receive_with_Ok. Qed.

(** The handshake: the version is a supported one, reported by a server that
    works in the selected home. *)
Definition greeted (env : ClientEnv) (codex_home : Path) (v : value) (version : string) : Prop :=
  ∃ wire, wire_initialize v = Some wire ∧
    parse_codex_version (wi_user_agent wire) = Some version ∧
    version ∈ SUPPORTED_CODEX_STATUS_VERSIONS ∧ is_absolute (wi_codex_home wire) = true ∧
    ∃ home, ce_canonicalize env codex_home = Some home ∧
      ce_canonicalize env (Utf8 (wi_codex_home wire)) = Some home.

Lemma validate_initialize_result_Ok env v codex_home version :
  validate_initialize_result env v codex_home = Ok version → greeted env codex_home v version.
Proof.
  unfold validate_initialize_result. intros H. inv_ok.
  repeat match goal with H : negb _ = false |- _ => apply negb_false_iff in H end.
  apply bool_decide_eq_true_1 in Hok4. apply bool_decide_eq_true_1 in Hok6. subst.
  eexists. split_and!; try done. by eexists.
Qed.

Lemma initialize_thread_client_Ok env codex_home deadline p version p' :
  initialize_thread_client env codex_home deadline p = (Ok version, p') →
  (∃ v, answered p deadline INITIALIZE_REQUEST_ID v ∧ greeted env codex_home v version) ∧
  ap_answers p' `suffix_of` ap_answers p ∧
  ap_sent p' = ap_sent p ++ [Rq_Initialize false; Rq_Initialized].
Proof.
  unfold initialize_thread_client.
  intros (u1 & p1 & [H1s H1a]%mapping_Ok%send_Ok & H)%stM_bind_Ok.
  apply stM_bind_Ok in H as (v & p2 & (Hv & H2a & H2s)%mapping_Ok%receive_result_Ok & H).
  apply stM_bind_Ok in H as (version' & p3 & [Hi%map_err_Ok ->]%lift_result_Ok & H).
  apply stM_bind_Ok in H as (u4 & p4 & [H4s H4a]%mapping_Ok%send_Ok & [= <- <-]).
  rewrite H4s, H2s, H1s, <- app_assoc, H4a. rewrite H1a in H2a. split_and!; [|done|done].
  exists v. split; [by eapply answered_later; [rewrite H1a|]|].
  by apply validate_initialize_result_Ok.
Qed.
End client.

(** ** The threads of a workspace *)

Section threads.
Context {UC : UuidCrate} {JS : JsonCrate} {JT : JsonThreads} (env : ClientEnv).
Context (codex_home cwd : Path) (cwd_string version : string) (deadline : Z).

(** The cursors that lead from [cursor] through some pages, and the requests
    for these pages, numbered from [id]. *)
Fixpoint cursors (cursor : option string) (pages : list WireThreadListResponse)
    : list (option string) :=
  match pages with
  | [] => []
  | page :: pages => cursor :: cursors (wp_next_cursor page) pages
  end.
Fixpoint page_requests (archived : bool) (id : Z) (cursor : option string)
    (pages : list WireThreadListResponse) : list Request :=
  match pages with
  | [] => []
  | page :: pages =>
      Rq_ThreadList id cursor archived cwd_string
        :: page_requests archived (id + 1) (wp_next_cursor page) pages
  end.

(** The last page of a listing leads nowhere. *)
Definition reached_end (pages : list WireThreadListResponse) : bool :=
  match last pages with
  | Some page => match wp_next_cursor page with None => true | Some _ => false end
  | None => false
  end.

Definition projects (archived : bool) (wire : WireThread) (t : CodexThreadMetadata) : Prop :=
  validate_thread_projection env false wire cwd codex_home version (Some archived) = Ok t.

(** A page that was sent in reply to the request [id]. *)
Definition page_answered (p : AppServerProcess) (id : Z) (page : WireThreadListResponse) : Prop :=
  ∃ v, answered p deadline id v ∧ wire_thread_list v = Some page.

Definition pages_answered (p : AppServerProcess) (id : Z) (pages : list WireThreadListResponse) :=
  ∀ i page, pages !! i = Some page → page_answered p (id + Z.of_nat i) page.

(** What a listing of at most [n] pages from [cursor] did: the requests it sent,
    the pages it was answered, and the threads it took from them. *)
Definition listed (archived : bool) (n : nat) (cursor : option string) (seen : gset string)
    (l l' : Listing) (p p' : AppServerProcess) (pages : list WireThreadListResponse)
    (added : list CodexThreadMetadata) : Prop :=
  (length pages ≤ n)%nat ∧ (n ≠ O → pages ≠ []) ∧
  ap_sent p' = ap_sent p ++ page_requests archived (li_request_id l) cursor pages ∧
  ap_answers p' `suffix_of` ap_answers p ∧
  pages_answered p (li_request_id l) pages ∧
  (NoDup (tail (cursors cursor pages)) ∧
   ∀ c, c ∈ tail (cursors cursor pages) → ∃ s, c = Some s ∧ s ∉ seen) ∧
  li_threads l' = li_threads l ++ added ∧
  Forall2 (projects archived) (concat (wp_data <$> pages)) added ∧
  (NoDup (tm_thread_id <$> li_threads l) → NoDup (tm_thread_id <$> li_threads l')) ∧
  li_request_id l' = li_request_id l + Z.of_nat (length pages) ∧
  (n ≠ O → li_complete l' = li_complete l && reached_end pages).

Lemma push_threads_Ok archived wires threads threads' :
  fold_result (push_thread env codex_home cwd version archived) threads wires = Ok threads' →
  ∃ added, threads' = threads ++ added ∧ Forall2 (projects archived) wires added ∧
    (NoDup (tm_thread_id <$> threads) → NoDup (tm_thread_id <$> threads')).
Proof.
  revert threads. induction wires as [|wire wires IH]; intros threads; cbn [fold_result].
  { intros [= <-]. exists []. rewrite app_nil_r. by split_and!. }
  intros H. inv_ok. unfold push_thread in Hok. inv_ok.
  destruct (IH _ H) as (added & -> & Hf & Hn). exists (a0 :: added).
  rewrite <- app_assoc in *. split_and!; [done|by constructor|]. intros Hnd. apply Hn.
  rewrite fmap_app, NoDup_app. split_and!; [done| |apply NoDup_singleton].
  intros id Hin. apply not_elem_of_cons. split; [|apply not_elem_of_nil]. intros ->.
  apply list_elem_of_fmap in Hin as (t & Ht & Hin).
  apply not_true_iff_false in Hok1. apply Hok1, existsb_exists. exists t.
  split; [by apply list_elem_of_In|]. by rewrite <- Ht, String.eqb_refl.
Qed.

Lemma list_pages_Ok archived n cursor seen l p l' p' :
  list_pages env n codex_home cwd cwd_string version archived deadline cursor seen l p = (Ok l', p') →
  ∃ pages added, listed archived n cursor seen l l' p p' pages added.
Proof.
  revert cursor seen l p. induction n as [|n IH]; intros cursor seen l p; cbn [list_pages].
  { intros [= <- <-]. exists [], []. unfold listed. rewrite !app_nil_r. cbn.
    split_and!; try done; try lia; [constructor|by intros c ?%elem_of_nil]. }
  intros (u1 & p1 & [H1s H1a]%mapping_Ok%send_Ok & H)%stM_bind_Ok.
  apply stM_bind_Ok in H as (v & p2 & (Hv & H2a & H2s)%receive_thread_result_Ok & H).
  apply stM_bind_Ok in H as (id' & p3 & [Hid%ok_or_Ok ->]%lift_result_Ok & H).
  apply stM_bind_Ok in H as (page & p3 & [Hp%ok_or_Ok ->]%lift_result_Ok & H).
  apply stM_bind_Ok in H as (threads & p3 & [Ht ->]%lift_result_Ok & H).
  apply push_threads_Ok in Ht as (added & -> & Hf & Hn).
  unfold checked_add_u in Hid. destruct (_ <=? _); [|done]. injection Hid as <-.
  rewrite H1a in H2a.
  assert (Hpage : page_answered p (li_request_id l) page).
  { exists v. split; [|done]. eapply answered_later; [|done]. by rewrite H1a. }
  (* the pages end here *)
  assert (Hstop : ∀ complete, li_complete l && reached_end [page] = complete →
    (l', p') = (mkListing (li_request_id l + 1) (li_threads l ++ added) complete, p2) →
    ∃ pages added, listed archived (S n) cursor seen l l' p p' pages added).
  { intros complete <- [= -> ->]. exists [page], added. unfold listed. cbn [fmap list_fmap concat page_requests cursors tail li_threads li_request_id li_complete length].
    rewrite app_nil_r, H2s, H1s. split_and!; try done; try lia.
    - intros i page' Hi. apply list_lookup_singleton_Some in Hi as [-> <-]. by rewrite Z.add_0_r.
    - constructor.
    - by intros c ?%elem_of_nil. }
  destruct (wp_next_cursor page) as [next|] eqn:Hnext.
  2:{ injection H as <- <-. eapply Hstop; [|done]. unfold reached_end. cbn. rewrite Hnext.
      apply andb_true_r. }
  destruct (Nat.eqb_spec n 0) as [->|Hn0].
  { injection H as <- <-. eapply Hstop; [|done]. unfold reached_end. cbn. rewrite Hnext.
    apply andb_false_r. }
  clear Hstop. apply stM_bind_Ok in H as (u3 & p3 & [Hc%reject_if_Ok ->]%lift_result_Ok & H).
  apply orb_false_iff in Hc as [_ Hc%bool_decide_eq_false_1].
  apply IH in H as (pages & added' & Hl & Hne & Hs & Ha & Hans & [Hcn Hcs] & Hth & Hf' & Hn' & Hid & Hco).
  cbn [li_threads li_request_id li_complete] in *. specialize (Hne Hn0). specialize (Hco Hn0).
  exists (page :: pages), (added ++ added'). unfold listed.
  rewrite Hs, H2s, H1s, Hth, <- !app_assoc in *.
  cbn [fmap list_fmap concat page_requests cursors tail length]. rewrite Hnext.
  split_and!; try done; try lia.
  - etransitivity; [exact Ha|exact H2a].
  - intros [|i] page' Hi; cbn in Hi; [injection Hi as <-; by rewrite Z.add_0_r|].
    replace (li_request_id l + Z.of_nat (S i)) with (li_request_id l + 1 + Z.of_nat i) by lia.
    destruct (Hans _ _ Hi) as (v' & Hv' & Hw). exists v'. split; [|done].
    by eapply answered_later.
  - destruct pages as [|page' pages]; [done|]. cbn in *. constructor; [|done].
    intros Hin. destruct (Hcs _ Hin) as (s & [= <-] & Hns). set_solver.
  - destruct pages as [|page' pages]; [done|]. cbn in *. intros c [->|Hin]%elem_of_cons; [eauto|].
    destruct (Hcs _ Hin) as (s & -> & Hns). exists s. set_solver.
  - by apply Forall2_app.
  - intros Hnd. by apply Hn', Hn.
  - intros _. rewrite Hco. f_equal. unfold reached_end. by destruct pages.
Qed.

(** ** What an inventory proves *)

(** The thread [t] is what the server says of it in [wire], and what the
    rollout store says of its path. *)
Definition describes (archived : bool) (wire : WireThread) (t : CodexThreadMetadata) : Prop :=
  tm_thread_id t = wt_id wire ∧
  (∃ u, parse_str (wt_id wire) = Some u ∧ uuid_to_string u = wt_id wire) ∧
  wt_parent_thread_id wire = None ∧ tm_parent_thread_id t = None ∧
  wt_ephemeral wire = false ∧ as_str (wt_source wire) = Some "cli" ∧
  (tm_updated_at t = wt_updated_at wire ∧ 0 ≤ tm_updated_at t) ∧
  (tm_recency_at t = wt_recency_at wire ∧ ∀ at_, tm_recency_at t = Some at_ → 0 ≤ at_) ∧
  (tm_cli_version t = wt_cli_version wire ∧ tm_cli_version t = version) ∧
  (ce_canonicalize env (wt_cwd wire) = Some cwd ∧ tm_canonical_cwd t = cwd) ∧
  ∃ path, wt_path wire = Some path ∧
    ce_rollout_path env codex_home path
    = Ok (archived, tm_rollout_path t, tm_rollout_relative_path t, tm_rollout_fingerprint t) ∧
    tm_archived t = archived.

Lemma projects_describes archived wire t : projects archived wire t → describes archived wire t.
Proof.
  unfold projects, validate_thread_projection, describes. intros H. inv_ok.
  unfold validate_canonical_uuid in Hok. inv_ok.
  destruct a5 as [[[archived' path] relative] fingerprint]. inv_ok.
  destruct (wt_parent_thread_id wire) as [parent|]; [by inv_ok|]. cbn.
  inv_bool. simplify_eq. repeat match goal with
  | H : negb _ = false |- _ => apply negb_false_iff in H
  | H : bool_decide _ = true |- _ => apply bool_decide_eq_true_1 in H; subst
  | H : String.eqb _ _ = true |- _ => apply String.eqb_eq in H
  | H : eqb _ _ = true |- _ => apply eqb_prop in H; subst
  end.
  split_and!; try done; eauto; try lia.
  intros at_ Hat. rewrite Hat in *. lia.
Qed.
End threads.

(** A file of the snapshot has the path and the fingerprint of the thread. *)
Definition recorded (s : RolloutStoreSnapshot) (t : CodexThreadMetadata) : Prop :=
  ∃ file, file ∈ rs_files (if tm_archived t then st_archived s else st_active s) ∧
    path_compare (rl_relative_path file) (tm_rollout_relative_path t) = Eq ∧
    rl_change file = tm_rollout_fingerprint t.

Lemma matches_thread_recorded s t : matches_thread s t = true → recorded s t.
Proof.
  unfold matches_thread, recorded. set (files := rs_files _). set (i := bsearch_loop _ _ _ _ _).
  destruct (files !! i) as [file|] eqn:Hi; [|done]. destruct (path_compare _ _) eqn:Hc; try done.
  intros H%bool_decide_eq_true_1. exists file. split_and!; [by eapply list_elem_of_lookup_2|done|done].
Qed.

Section inventory.
Context {UC : UuidCrate} {JS : JsonCrate} {JT : JsonThreads} (env : ClientEnv).

(** What was exchanged for an inventory, and what it proves: [active] and
    [archived] are the pages that were received. *)
Record inventory_evidence (codex_home cwd : Path) (cwd_string : string) (deadline : Z)
    (before : RolloutStoreSnapshot) (p q : AppServerProcess) (inventory : CodexThreadInventory)
    (active archived : list WireThreadListResponse) : Prop := {
  ev_greeted : ∃ v, answered p deadline INITIALIZE_REQUEST_ID v ∧
    greeted env codex_home v (ti_codex_version inventory);
  ev_requests : ap_sent q = ap_sent p ++ [Rq_Initialize false; Rq_Initialized]
    ++ page_requests cwd_string false 1 None active
    ++ page_requests cwd_string true (1 + Z.of_nat (length active)) None archived;
  ev_bounded : (length active ≤ MAX_THREAD_PAGES_PER_STATE)%nat ∧
    (length archived ≤ MAX_THREAD_PAGES_PER_STATE)%nat;
  ev_cursors : NoDup (cursors None active) ∧ NoDup (cursors None archived);
  ev_answered : pages_answered deadline p 1 active ∧
    pages_answered deadline p (1 + Z.of_nat (length active)) archived;
  ev_threads : ∃ ta tb, ti_threads inventory ≡ₚ ta ++ tb ∧
    let version := ti_codex_version inventory in
    Forall2 (describes env codex_home cwd version false) (concat (wp_data <$> active)) ta ∧
    Forall2 (describes env codex_home cwd version true) (concat (wp_data <$> archived)) tb;
  ev_sorted : StronglySorted str_lt_rel (tm_thread_id <$> ti_threads inventory);
  ev_complete : ti_complete inventory = true →
    reached_end active = true ∧ reached_end archived = true ∧
    ce_snapshot_after env = Ok before ∧ store_complete before = true ∧
    Forall (recorded before) (ti_threads inventory);
}.

Lemma cursors_NoDup pages (seen : gset string) :
  NoDup (tail (cursors None pages)) ∧
  (∀ c, c ∈ tail (cursors None pages) → ∃ s, c = Some s ∧ s ∉ seen) → NoDup (cursors None pages).
Proof.
  intros [Hn Hs]. destruct pages as [|page pages]; cbn in *; constructor; [|done].
  intros Hin. by destruct (Hs _ Hin) as (s & [=] & _).
Qed.

Lemma sort_by_thread_id threads :
  NoDup (tm_thread_id <$> threads) →
  StronglySorted str_lt_rel (tm_thread_id <$> sort_by thread_id_order threads).
Proof.
  intros Hn. apply sorted_NoDup_strict; [|by rewrite sort_by_perm].
  assert (StronglySorted (fun x y => thread_id_order x y = true) (sort_by thread_id_order threads)) as H.
  { apply sort_by_sorted; unfold thread_id_order; [intros ???; apply str_le_trans|intros; apply str_le_total]. }
  induction H as [|t l Hs IH Hall]; constructor; [done|]. by apply Forall_fmap.
Qed.

Lemma list_threads_Ok codex_home cwd cwd_string before deadline p inventory q :
  list_threads env codex_home cwd cwd_string before deadline p = (Ok inventory, q) →
  ∃ active archived,
    inventory_evidence codex_home cwd cwd_string deadline before p q inventory active archived.
Proof.
  unfold list_threads.
  intros (version & p1 & ((v & Hv & Hg) & H1a & H1s)%initialize_thread_client_Ok & H)%stM_bind_Ok.
  destruct (store_complete before) eqn:Hbefore; cbn [negb] in H.
  2:{ injection H as <- <-. exists [], []. constructor; cbn; try done; eauto.
      - lia.
      - by split; constructor.
      - exists [], []. by split_and!.
      - constructor. }
  apply stM_bind_Ok in H as (la & p2 & (active & ta & Ha)%list_pages_Ok & H).
  apply stM_bind_Ok in H as (lb & p3 & (archived & tb & Hb)%list_pages_Ok & H).
  apply stM_bind_Ok in H as (after & p4 & [Hafter ->]%lift_result_Ok & [= <- <-]).
  destruct Ha as (Hal & _ & Has & Haa & Haw & Hac & Hat & Haf & Han & Hai & Hae).
  destruct Hb as (Hbl & _ & Hbs & Hba & Hbw & Hbc & Hbt & Hbf & Hbn & Hbi & Hbe).
  cbn [li_threads li_request_id li_complete app] in *.
  exists active, archived. constructor; cbn [ti_codex_version ti_threads ti_complete].
  - by exists v.
  - by rewrite Hbs, Has, H1s, <- !app_assoc, Hai.
  - done.
  - split; by eapply cursors_NoDup.
  - split.
    + intros i page Hi. destruct (Haw _ _ Hi) as (w & Hw & Hp). exists w. split; [|done].
      by eapply answered_later.
    + rewrite <- Hai. intros i page Hi. destruct (Hbw _ _ Hi) as (w & Hw & Hp). exists w.
      split; [|done]. eapply answered_later; [|done]. by etransitivity.
  - exists ta, tb. rewrite sort_by_perm, Hbt, Hat. split_and!; [done| |];
      (eapply Forall2_impl; [done|]; intros; by apply projects_describes).
  - apply sort_by_thread_id, Hbn, Han, NoDup_nil_2.
  - intros H. inv_bool. rewrite Hbe, Hae in * by done. cbn in *. inv_bool.
    match goal with H : before = _ |- _ => rewrite <- H in * end.
    split_and!; try done. rewrite sort_by_perm. apply Forall_forall. intros t Ht.
    apply matches_thread_recorded.
    match goal with H : forallb _ _ = true |- _ => by apply (proj1 (forallb_forall _ _) H), list_elem_of_In end.
Qed.

(** C26. An inventory of the threads of a workspace: the server was a supported
    version that works in the selected home; the requests were the handshake
    and then at most eight [thread/list] of the active and at most eight of the
    archived threads, numbered consecutively, with no cursor asked for twice;
    every page was a timely reply to its own request; the threads are those of
    these pages and no others, each with a canonical id, in the given
    workspace, of the server's version and without a parent, in strict order of
    their ids. A complete inventory moreover reached the end of both lists, and
    every thread has its rollout, with its fingerprint, in a snapshot of the
    store that was the same before and after. *)
Theorem thread_inventory_sound codex_home canonical_cwd inventory child :
  read_thread_inventory env codex_home canonical_cwd = (Ok inventory, child) →
  ∃ p q cwd cwd_string deadline before active archived,
    ce_spawn env = Ok p ∧ child = Some q ∧
    ce_canonicalize env canonical_cwd = Some cwd ∧ ce_is_dir env cwd = true ∧
    to_str cwd = Some cwd_string ∧ ce_deadline env = Some deadline ∧
    ce_snapshot_before env = Ok before ∧
    inventory_evidence codex_home cwd cwd_string deadline before p q inventory active archived.
Proof.
  unfold read_thread_inventory. destruct (_ ≫= _) as [[[[cwd cwd_string] before] deadline]|] eqn:Hpre; [|done].
  unfold canonical_directory, thread_deadline in Hpre. inv_ok. simplify_eq. unfold in_session.
  destruct (ce_spawn env) as [p|] eqn:Hp; [|done]. cbn.
  destruct (list_threads _ _ _ _ _ _ _) as [r q] eqn:Hl. intros [= -> <-].
  apply list_threads_Ok in Hl as (active & archived & Hev).
  exists p, q, cwd, cwd_string, deadline, before, active, archived.
  repeat match goal with H : negb _ = false |- _ => apply negb_false_iff in H end.
  by split_and!.
Qed.
End inventory.

(** ** The lifecycle a rollout ends in *)

(** A reader that is cut off at [n] bytes ends only where the file does. *)
Lemma stream_capped n r s :
  0 ≤ n → stream (capped n r) = (s, En_Eof) ↔ stream r = (s, En_Eof) ∧ len s ≤ n.
Proof.
  revert n s. induction r as [|[[|b0 b]|] r IH]; intros n s Hn; cbn [capped].
  - split; [intros [= <-]; unfold len; cbn; split; [done|lia]|by intros [? _]].
  - rewrite (proj2 (Z.leb_le _ _)) by (unfold len; cbn; lia).
    split; [intros [= <-]; unfold len; cbn; split; [done|lia]|by intros [? _]].
  - assert (Hstream : ∀ r, stream (Fb_Data (b0 :: b) :: r) = let '(s, e) := stream r in ((b0 :: b) ++ s, e))
      by done.
    assert (0 < len (b0 :: b)) by (unfold len; cbn; lia).
    set (buffer := b0 :: b) in *. clearbody buffer.
    assert (Hlen : ∀ s0, len (buffer ++ s0) = len buffer + len s0)
      by (intros; unfold len; rewrite length_app; lia).
    rewrite Hstream. destruct (stream r) as [s0 e0] eqn:Hr.
    assert (0 ≤ len s0) by (unfold len; lia).
    destruct (Z.leb_spec (len buffer) n) as [Hle|Hgt].
    + specialize (IH (n - len buffer)). rewrite Hstream.
      destruct (stream (capped (n - len buffer) r)) as [s1 e1]. split.
      * intros [= <- ->]. destruct (proj1 (IH s1 ltac:(lia)) eq_refl) as [[= -> ->] ?].
        split; [done|]. rewrite Hlen. lia.
      * intros [[= <- ->] Hl]. rewrite Hlen in Hl.
        by injection (proj2 (IH s0 ltac:(lia)) ltac:(split; [done|lia])) as -> ->.
    + split; [|intros [[= <- ->] Hl]; rewrite Hlen in Hl; lia].
      destruct (Z.eqb_spec n 0); [done|]. cbn.
      destruct (take (Z.to_nat n) buffer) as [|x l] eqn:Ht; [|done].
      apply (f_equal length) in Ht. rewrite length_take in Ht. unfold len in *. cbn in Ht. lia.
  - by split; [|intros [? _]].
Qed.

Section lifecycle.
Context {JS : JsonCrate} (env : ClientEnv).
Context (metadata : CodexThreadMetadata) (cwd : Path).

(** The meta record of the session of this thread. *)
Definition opens_session (v : value) : Prop :=
  is_object v = true ∧ get_str v "type" = Some "session_meta" ∧
  ∃ payload, get_object v "payload" = Some payload ∧
    get_str payload "id" = Some (tm_thread_id metadata) ∧
    get_str payload "cli_version" = Some (tm_cli_version metadata) ∧
    get_str payload "source" = Some "cli" ∧
    (∃ path, get_str payload "cwd" = Some path ∧ ce_canonicalize env (Utf8 path) = Some cwd) ∧
    match tm_parent_thread_id metadata with
    | Some parent => get_str payload "parent_thread_id" = Some parent
    | None => ∀ v, get payload "parent_thread_id" = Some v → is_null v = true
    end.

(** A line that may follow: an object with a type, and if it is another meta
    record, one of the same session. *)
Definition acceptable (line : string) : Prop :=
  ∃ v kind, from_str line = Some v ∧ is_object v = true ∧ get_str v "type" = Some kind ∧
    (kind = "session_meta" → opens_session v).

(** What a line says of the turn that is under way. *)
Definition event_marker (event : string) : option CodexThreadLifecycle :=
  if decide (event = "task_started" ∨ event = "turn_started") then Some UnknownCrash
  else if decide (event = "task_complete" ∨ event = "turn_complete") then Some Clean
  else if decide (event = "turn_aborted") then Some Interrupted
  else None.
Definition marker (line : string) : option CodexThreadLifecycle :=
  v ← from_str line;
  kind ← get_str v "type";
  if String.eqb kind "event_msg" then
    payload ← get_object v "payload";
    event ← get_str payload "type";
    event_marker event
  else None.

Lemma validate_session_meta_value_Ok v :
  validate_session_meta_value env metadata cwd v = Ok () ↔ opens_session v.
Proof.
  unfold validate_session_meta_value, opens_session, as_object. split.
  - intros H. inv_ok. destruct (is_object v) eqn:Ho; [|done]. simplify_eq.
    inv_bool. simplify_eq. split_and!; try done. eexists. split_and!; try done; [by eexists|].
    destruct (tm_parent_thread_id metadata); [by apply bool_decide_eq_true_1 in H0|].
    destruct (get a1 "parent_thread_id"); [by intros ? [= <-]|done].
  - intros (Ho & Ht & payload & Hp & Hi & Hv & Hs & (path & Hc & Hcc) & Hpar).
    rewrite Ho. cbn. rewrite (bool_decide_true _ Ht), Hp. cbn. rewrite Hi, Hc, Hv, Hs. cbn.
    rewrite Hcc. cbn. rewrite !String.eqb_refl, bool_decide_true by done. cbn.
    destruct (tm_parent_thread_id metadata); [by rewrite (bool_decide_true _ Hpar)|].
    destruct (get payload "parent_thread_id") as [v'|]; [by rewrite (Hpar v')|done].
Qed.

Lemma event_lifecycle_marker event lc :
  event_lifecycle event lc = default lc (event ≫= event_marker).
Proof.
  destruct event as [event|]; [|done]. cbn. unfold event_marker.
  repeat case_decide; repeat case_bool_decide; set_unfold; try tauto.
  - subst. done.
  - destruct (String.eqb_spec event "turn_aborted"); [done|done].
Qed.

Lemma line_lifecycle_Ok lc line lc' :
  line_lifecycle env metadata cwd lc line = Ok lc' ↔
  acceptable line ∧ lc' = default lc (marker line).
Proof.
  unfold line_lifecycle, acceptable, marker, as_object. split.
  - intros H. inv_ok. destruct (is_object a) eqn:Ho; [|done]. simplify_eq. rewrite Hok. cbn.
    destruct (get_str a0 "type") as [kind|] eqn:Hk; [|done]. cbn.
    destruct (String.eqb_spec kind "session_meta") as [->|Hm].
    + inv_ok. split; [|done]. eexists _, _. split_and!; try done. intros _.
      by apply validate_session_meta_value_Ok.
    + split; [by eexists _, _; split_and!|].
      destruct (String.eqb kind "event_msg"); [|by inv_ok]. injection H as <-.
      rewrite event_lifecycle_marker. by destruct (get_object a0 "payload").
  - intros [(v & kind & Hl & Ho & Hk & Hm) ->]. rewrite Hl. cbn. rewrite Ho. cbn. rewrite Hk. cbn.
    destruct (String.eqb_spec kind "session_meta") as [->|_].
    + by rewrite (proj2 (validate_session_meta_value_Ok v) (Hm eq_refl)).
    + destruct (String.eqb kind "event_msg"); [|done]. rewrite event_lifecycle_marker.
      by destruct (get_object v "payload").
Qed.

Lemma fold_line_lifecycle lc lines lc' :
  fold_result (line_lifecycle env metadata cwd) lc lines = Ok lc' ↔
  Forall acceptable lines ∧ lc' = default lc (last (omap marker lines)).
Proof.
  revert lc. induction lines as [|line lines IH]; intros lc; cbn [fold_result].
  - split; [by intros [= ->]|by intros [_ ->]].
  - rewrite bind_Ok. setoid_rewrite line_lifecycle_Ok. setoid_rewrite IH. rewrite Forall_cons. cbn.
    destruct (marker line) as [m|] eqn:Hm; cbn;
      [rewrite last_cons; destruct (last (omap marker lines)); cbn|]; naive_solver.
Qed.

(** The loop reads the lines of the reader to their end. *)
Lemma lifecycle_loop_Ok fuel lc r lc' :
  lifecycle_loop env metadata cwd fuel lc r = Some (Ok lc') ↔
  ∃ lines, read_stdout fuel r = (Line <$> lines) ++ [Eof] ∧
    fold_result (line_lifecycle env metadata cwd) lc lines = Ok lc'.
Proof.
  revert lc r. induction fuel as [|fuel IH]; intros lc r; cbn [lifecycle_loop read_stdout].
  { split; [done|]. intros ([] & ? & _); done. }
  unfold next_line. destruct (read_bounded_line [] r) as [[[line|]|[]] r']; cbn [map_err].
  - split.
    + destruct (line_lifecycle _ _ _ _ _) as [lc1|] eqn:Hl; [|done].
      intros (lines & Hr & Hf)%IH. exists (line :: lines). cbn. by rewrite Hr, Hl.
    + intros ([|line' lines] & [=] & Hf). subst line'. cbn in Hf. inv_ok. rewrite Hok. apply IH. eauto.
  - split; [intros [= ->]; by exists []|]. by intros ([|? ?] & [=] & [= ->]).
  - split; [done|]. by intros ([|? ?] & [=] & _).
  - split; [done|]. by intros ([|? ?] & [=] & _).
Qed.

(** The first line, and the events behind it. *)
Lemma read_stdout_cons reader line rest :
  read_bounded_line [] reader = (Ok (Some line), rest) →
  read_stdout (enough_fuel reader) reader = Line line :: read_stdout (enough_fuel rest) rest.
Proof.
  intros Hr. destruct (stream reader) as [s e] eqn:Hs.
  destruct (read_line_stream reader s e Hs) as [H1 H2]. rewrite Hr in H1, H2. cbn in H1, H2.
  specialize (H2 line eq_refl). destruct (reference_line s e) as [res s'] eqn:Hl. cbn in H1, H2. subst res.
  apply reference_line_shrinks in Hl.
  assert (read_stdout (enough_fuel rest) rest = reference_events (S (length s')) s' e) as ->.
  { unfold enough_fuel. rewrite H2. apply read_stdout_stream; [done|]. cbn. lia. }
  unfold enough_fuel. rewrite Hs. change (s, e).1 with s. cbn [read_stdout]. rewrite Hr. f_equal.
  rewrite (read_stdout_stream _ rest s' e) by (done || lia). apply reference_events_fuel; lia.
Qed.

Lemma read_stdout_Eof reader lines :
  read_stdout (enough_fuel reader) reader = (Line <$> lines) ++ [Eof] →
  (stream reader).2 = En_Eof.
Proof.
  unfold enough_fuel. destruct (stream reader) as [s e] eqn:Hs. cbn [fst snd].
  rewrite (read_stdout_stream _ _ _ _ Hs) by lia.
  destruct (reference_events_ends (S (length s)) s e ltac:(lia)) as (ls & final & -> & _ & _ & He & _).
  intros H. apply (f_equal last) in H. rewrite !last_snoc in H. injection H as ->. by apply He.
Qed.

Lemma inspect_lines lifecycle :
  inspect_rollout_lifecycle env metadata cwd = Ok lifecycle ↔
  ∃ reader first lines, ce_open_rollout env metadata = Ok reader ∧
    (let r := capped MAX_ROLLOUT_BYTES reader in
     read_stdout (enough_fuel r) r = (Line <$> first :: lines) ++ [Eof]) ∧
    validate_session_meta_line env metadata cwd first = Ok () ∧
    fold_result (line_lifecycle env metadata cwd) Clean lines = Ok lifecycle.
Proof.
  unfold inspect_rollout_lifecycle. rewrite bind_Ok. split.
  - intros (reader & Ho & H). unfold next_line in H.
    destruct (read_bounded_line _ _) as [[[first|]|] rest] eqn:Hr; try done. cbn [map_err] in H. inv_ok.
    destruct (lifecycle_loop _ _ _ _ _ _) as [res|] eqn:Hl; [|done]. cbn in H. subst res.
    apply lifecycle_loop_Ok in Hl as (lines & Hl & Hf). exists reader, first, lines.
    split_and!; try done. cbn zeta. by rewrite (read_stdout_cons _ _ _ Hr), Hl.
  - intros (reader & first & lines & Ho & Hr & Hv & Hf). exists reader. split; [done|].
    cbn zeta in Hr. set (r := capped _ _) in *. unfold next_line.
    destruct (read_bounded_line [] r) as [[[line|]|e] rest] eqn:Hl; cbn [map_err].
    + rewrite (read_stdout_cons _ _ _ Hl) in Hr.
      assert (line = first ∧ read_stdout (enough_fuel rest) rest = (Line <$> lines) ++ [Eof]) as [-> Hr']
        by (revert Hr; generalize (read_stdout (enough_fuel rest) rest); by intros ? [=]).
      rewrite Hv. cbn [mbind result_bind].
      by rewrite (proj2 (lifecycle_loop_Ok _ _ _ _) (ex_intro _ lines (conj Hr' Hf))).
    + cbn in Hr. by rewrite Hl in Hr.
    + cbn in Hr. rewrite Hl in Hr. by destruct e.
Qed.
End lifecycle.

(** C27. [inspect_rollout_lifecycle] answers exactly for a rollout file that
    reads to its end within [MAX_ROLLOUT_BYTES], however its bytes arrive, whose
    lines are a meta record of this very session and then objects with a type,
    no meta record of another session among them. The answer is what the last
    line that marks the state of a turn says, and [Clean] when none does. *)
Theorem rollout_lifecycle_spec `{JsonCrate} env metadata cwd lifecycle :
  inspect_rollout_lifecycle env metadata cwd = Ok lifecycle ↔
  ∃ reader s first lines,
    ce_open_rollout env metadata = Ok reader ∧
    stream reader = (s, En_Eof) ∧ len s ≤ MAX_ROLLOUT_BYTES ∧
    reference_events (S (length s)) s En_Eof = (Line <$> first :: lines) ++ [Eof] ∧
    (∃ v, from_str first = Some v ∧ opens_session env metadata cwd v) ∧
    Forall (acceptable env metadata cwd) lines ∧
    lifecycle = default Clean (last (omap marker lines)).
Proof.
  rewrite inspect_lines. setoid_rewrite fold_line_lifecycle.
  assert (Hmeta : ∀ first, validate_session_meta_line env metadata cwd first = Ok () ↔
    ∃ v, from_str first = Some v ∧ opens_session env metadata cwd v).
  { intros first. unfold validate_session_meta_line. rewrite bind_Ok.
    setoid_rewrite ok_or_Ok. by setoid_rewrite validate_session_meta_value_Ok. }
  setoid_rewrite Hmeta.
  assert (Hs : ∀ reader s, stream reader = (s, En_Eof) →
    read_stdout (enough_fuel reader) reader = reference_events (S (length s)) s En_Eof).
  { intros reader s Hs. unfold enough_fuel. rewrite Hs. apply read_stdout_stream; [done|cbn; lia]. }
  split.
  - intros (reader & first & lines & Ho & Hr & Hm & Ha & Hl). cbn zeta in Hr.
    pose proof (read_stdout_Eof _ _ Hr) as He.
    destruct (stream (capped MAX_ROLLOUT_BYTES reader)) as [s e] eqn:Hc. cbn in He. subst e.
    rewrite (Hs _ _ Hc) in Hr. apply stream_capped in Hc as [Hc Hlen]; [|done].
    by exists reader, s, first, lines.
  - intros (reader & s & first & lines & Ho & Hc & Hlen & Hr & Hm & Ha & Hl).
    exists reader, first, lines. split_and!; try done. cbn zeta. rewrite (Hs _ s); [done|].
    by apply stream_capped.
Qed.
