(* ===== verification/AppServerExamples.v ===== *)
(** * Codex app server: a concrete session

    A JSON crate with a few documents, a server that lists two active threads
    on two pages and no archived one, and the rollout of a thread. *)
From Stdlib Require Import Ascii Sorting.Sorted.
From S2P Require Import Prelude Interfaces Profiles UsageCache ConversationData CodexLines CodexVersions.
From S2P Require Import HandoffTransaction AppServer AppServerProofs.

Open Scope Z_scope.

Module AppServerExample.
#[warnings="-register-all"]
Inductive json :=
| JNull
| JNum (n : Z)
| JStr (s : string)
| JArr (l : list json)
| JObj (l : list (string * json)).

Definition member (v : json) (name : string) : option json :=
  match v with
  | JObj l => snd <$> find_first (fun entry => String.eqb entry.1 name) l
  | _ => None
  end.
Definition text (v : json) : option string := match v with JStr s => Some s | _ => None end.
Definition number (v : json) : option Z := match v with JNum n => Some n | _ => None end.
Definition object (v : json) : bool := match v with JObj _ => true | _ => false end.

Definition thread_a := "11111111-1111-4111-8111-111111111111".
Definition thread_b := "22222222-2222-4222-8222-222222222222".

(** The documents of the session, each with its text. *)
Definition reply (id : Z) (result : json) : json := JObj [("id", JNum id); ("result", result)].
Definition thread (id : string) (path : string) : json :=
  JObj [("id", JStr id); ("cwd", JStr "/work"); ("cliVersion", JStr "0.144.4");
        ("source", JStr "cli"); ("updatedAt", JNum 7); ("path", JStr path)].
Definition page (threads : list json) (next : list (string * json)) : json :=
  JObj (("data", JArr threads) :: next).
Definition event (kind : string) : json :=
  JObj [("type", JStr "event_msg"); ("payload", JObj [("type", JStr kind)])].
Definition documents : list (string * json) :=
  [("hello", reply 0 (JObj [("userAgent", JStr "calcifer/0.144.4 (x)"); ("codexHome", JStr "/home")]));
   ("notice", JObj [("method", JStr "warning")]);
   ("page 1", reply 1 (page [thread thread_b "b"] [("nextCursor", JStr "c")]));
   ("page 2", reply 2 (page [thread thread_a "a"] []));
   ("page 3", reply 3 (page [] []));
   ("meta", JObj [("type", JStr "session_meta");
                  ("payload", JObj [("id", JStr thread_a); ("cwd", JStr "/work");
                                    ("cli_version", JStr "0.144.4"); ("source", JStr "cli")])]);
   ("started", event "task_started"); ("aborted", event "turn_aborted"); ("said", event "agent_message")].

#[export] Instance json_crate : JsonCrate := {|
  value := json;
  from_str s := snd <$> find_first (fun entry => String.eqb entry.1 s) documents;
  is_object := object;
  get := member;
  keys v := match v with JObj l => fst <$> l | _ => [] end;
  as_str := text;
  as_i64 := number;
  as_u64 v := n ← number v; if 0 <=? n then Some n else None;
  as_bool _ := None;
  as_array v := match v with JArr l => Some l | _ => None end;
  is_null v := match v with JNull => true | _ => false end;
  wire_initialize v :=
    agent ← member v "userAgent" ≫= text;
    home ← member v "codexHome" ≫= text;
    Some (mkWireInitializeResult agent home "unix" "linux");
  wire_rate_limits _ := None;
|}.

Definition to_thread (v : json) : option (@WireThread json_crate) :=
  id ← member v "id" ≫= text;
  cwd ← member v "cwd" ≫= text;
  version ← member v "cliVersion" ≫= text;
  source ← member v "source";
  updated ← member v "updatedAt" ≫= number;
  Some (@mkWireThread json_crate id (member v "parentThreadId" ≫= text) false updated None (Utf8 cwd) version
          source (Utf8 <$> (member v "path" ≫= text))).
#[export] Instance json_threads : JsonThreads := {|
  wire_thread_list v :=
    data ← member v "data" ≫= as_array;
    threads ← mapM to_thread data;
    Some (@mkWireThreadListResponse json_crate threads (member v "nextCursor" ≫= text));
  wire_thread_read := to_thread;
|}.
#[export] Instance uuid_crate : UuidCrate := uuid_hyphenated.

Definition fingerprint (n : Z) := mkCodexRolloutFingerprint 1 n 100 5 0 5 0.
Definition store : RolloutStoreSnapshot :=
  mkRolloutStoreSnapshot
    (mkRolloutRootSnapshot
       [mkRolloutFileFingerprint (Utf8 "a") (fingerprint 1);
        mkRolloutFileFingerprint (Utf8 "b") (fingerprint 2)] true)
    (mkRolloutRootSnapshot [] true).

Definition said (now : Z) (line : string) : Z * Answer := (now, An_Event (Line line)).
Definition server : AppServerProcess :=
  mkAppServerProcess
    [said 1 "notice"; said 2 "hello"; said 3 "page 1"; said 4 "notice"; said 5 "page 2"; said 6 "page 3"]
    [true; true; true; true; true] [].

(** The bytes of some lines, each ended by a line feed. *)
Definition file (lines : list string) : bytes :=
  concat ((fun s => ((fun c => Z.of_N (N_of_ascii c)) <$> str_bytes s) ++ [10]) <$> lines).

Definition env : ClientEnv := {|
  ce_executable_absolute := true;
  ce_deadline := Some 9;
  ce_spawn := Ok server;
  ce_canonicalize := Some;
  ce_is_dir _ := true;
  ce_rollout_path _ path :=
    match path with
    | Utf8 "a" => Ok (false, Utf8 "/home/sessions/a", path, fingerprint 1)
    | Utf8 "b" => Ok (false, Utf8 "/home/sessions/b", path, fingerprint 2)
    | _ => Err Te_Missing
    end;
  ce_snapshot_before := Ok store;
  ce_snapshot_after := Ok store;
  ce_open_rollout _ :=
    Ok [Fb_Data (take 7 (file ["meta"; "started"; "said"; "aborted"]));
        Fb_Data (drop 7 (file ["meta"; "started"; "said"; "aborted"]))];
  ce_shutdown_deadline := Some 9;
  ce_shutdown_clean := true;
|}.

Definition metadata (id : string) (relative : string) (n : Z) : CodexThreadMetadata :=
  mkCodexThreadMetadata id None (Utf8 "/work") "0.144.4" 7 None false (fingerprint n)
    (Utf8 (String.append "/home/sessions/" relative)) (Utf8 relative).

(** The inventory is complete, and in the order of the ids. *)
Abbreviation inventory :=
  (mkCodexThreadInventory "0.144.4" [metadata thread_a "a" 1; metadata thread_b "b" 2] true).
Abbreviation finished :=
  (mkAppServerProcess [] []
     [Rq_Initialize false; Rq_Initialized; Rq_ThreadList 1 None false "/work";
      Rq_ThreadList 2 (Some "c") false "/work"; Rq_ThreadList 3 None true "/work"]).
Lemma inventory_read :
  read_thread_inventory env (Utf8 "/home") (Utf8 "/work") = (Ok inventory, Some finished).
Proof. vm_compute. reflexivity. Qed.

Lemma thread_inventory_sound_witness :
  ∃ p q cwd cwd_string deadline before active archived,
    ce_spawn env = Ok p ∧ Some finished = Some q ∧
    ce_canonicalize env (Utf8 "/work") = Some cwd ∧ ce_is_dir env cwd = true ∧
    to_str cwd = Some cwd_string ∧ ce_deadline env = Some deadline ∧
    ce_snapshot_before env = Ok before ∧
    inventory_evidence env (Utf8 "/home") cwd cwd_string deadline before p q inventory active archived.
Proof. exact (thread_inventory_sound env _ _ _ _ inventory_read). Defined.

(** A turn that was aborted; and a file of another session. *)
Example lifecycle_read :
  inspect_rollout_lifecycle env (metadata thread_a "a" 1) (Utf8 "/work") = Ok Interrupted.
Proof. vm_compute. reflexivity. Qed.
Example lifecycle_refused :
  inspect_rollout_lifecycle env (metadata thread_b "b" 2) (Utf8 "/work") = Err Te_SessionSchema.
Proof. vm_compute. reflexivity. Qed.
End AppServerExample.
