(* ===== verification/HandoffClientProofs.v ===== *)
(** * Failover: what the conversations with a target prove

    [handoff_inventory_complete]: a listing that is accepted is the whole of
    what the target listed, up to its last page. [fork_exact]: a fork that is
    accepted was asked for once, for the settings of the source, and answered
    with these settings; the source is verified before it and again after. *)
From S2P Require Import Prelude Interfaces CoordinatorTerminal Profiles Storage RoutingDefs.
From S2P Require Import RoutingStore UsageCache Selection ConversationData ConversationOps.
From S2P Require Import ConversationStore ConversationDisk HandoffTransaction CodexLines AppServer.
From S2P Require Import AppServerProofs ThreadSettings FailoverSystem HandoffClient.

Open Scope Z_scope.

Section client.
Context {UC : UuidCrate} {JS : JsonCrate} (env : ClientEnv).

(** ** The handshake *)

Lemma initialize_handoff_client_Ok home deadline p u p' :
  initialize_handoff_client env home deadline p = (Ok u, p') →
  (∃ v, answered p deadline INITIALIZE_REQUEST_ID v ∧ greeted env home v "0.144.4") ∧
  ap_answers p' `suffix_of` ap_answers p ∧
  ap_sent p' = ap_sent p ++ [Rq_Initialize true; Rq_Initialized].
Proof.
  unfold initialize_handoff_client.
  intros (u1 & p1 & [H1s H1a]%mapping_Ok%send_Ok & H)%stM_bind_Ok.
  apply stM_bind_Ok in H as (v & p2 & (Hv & H2a & H2s)%mapping_Ok%receive_result_Ok & H).
  apply stM_bind_Ok in H as (version & p3 & [Hi%map_err_Ok ->]%lift_result_Ok & H).
  apply stM_bind_Ok in H as (u3 & p3 & [Hg ->]%lift_result_Ok & [H4s H4a]%mapping_Ok%send_Ok).
  apply reject_if_Ok, negb_false_iff, String.eqb_eq in Hg as ->.
  rewrite H4s, H2s, H1s, <- app_assoc, H4a. rewrite H1a in H2a. split_and!; [|done|done].
  exists v. split; [by eapply answered_later; [rewrite H1a|]|]. by apply validate_initialize_result_Ok.
Qed.

(** ** The listing *)

Definition id_of (entry : value) : option string := get_str entry "id".

(** What an entry of an accepted listing is: an object about a thread of the
    working directory, under its canonical id, of the supported version. *)
Definition lists_thread (cwd : string) (entry : value) : Prop :=
  is_object entry = true ∧
  (∃ id u, id_of entry = Some id ∧ parse_str id = Some u ∧ uuid_to_string u = id) ∧
  is_Some (get_bool entry "ephemeral") ∧ is_Some (get_i64 entry "updatedAt") ∧
  get_str entry "cliVersion" = Some "0.144.4" ∧ get_str entry "source" = Some "cli" ∧
  get_str entry "cwd" = Some cwd.

Lemma is_some_spec {A} (x : option A) : is_some x = true ↔ is_Some x.
Proof. by destruct x; cbn; split. Qed.

Lemma validate_inventory_entry_Ok entry cwd :
  validate_inventory_entry entry cwd = Ok () → lists_thread cwd entry.
Proof.
  unfold validate_inventory_entry, lists_thread, as_object, id_of. intros H.
  destruct (is_object entry) eqn:Ho; [|done]. inv_ok. unfold validate_canonical_uuid in *. inv_ok.
  rewrite !orb_false_iff, !negb_false_iff, !bool_decide_eq_true in H.
  rewrite !is_some_spec in H. destruct H as [[[[? ?] ?] ?] ?]. simplify_eq.
  split_and!; try done.
  eexists _, _. split_and!; [done|done|]. by apply negb_false_iff, String.eqb_eq in Hok1.
Qed.

(** What a page holds, and where it leads. *)
Definition page_entries (v : value) : list value := default [] (get v "data" ≫= as_array).
Definition page_next (v : value) : option string :=
  next ← get v "nextCursor"; if is_null next then None else as_str next.

(** The cursors that lead from [cursor] through some pages, and the requests
    for them, numbered from [id]. *)
Fixpoint page_cursors (cursor : option string) (pages : list value) : list (option string) :=
  match pages with [] => [] | page :: pages => cursor :: page_cursors (page_next page) pages end.
Fixpoint handoff_requests (cwd : string) (id : Z) (cursor : option string) (pages : list value)
    : list Request :=
  match pages with
  | [] => []
  | page :: pages =>
      Rq_ThreadList id cursor false cwd :: handoff_requests cwd (id + 1) (page_next page) pages
  end.

Definition pages_in_reply (p : AppServerProcess) (deadline id : Z) (pages : list value) : Prop :=
  ∀ i page, pages !! i = Some page → answered p deadline (id + Z.of_nat i) page.

(** The entries of an accepted listing. *)
Definition threads_listed (cwd : string) (entries : list value) : Prop :=
  Forall (lists_thread cwd) entries ∧ NoDup (id_of <$> entries).

Lemma push_entries_Ok cwd entries page entries' :
  fold_result (push_entry cwd) entries page = Ok entries' →
  entries' = entries ++ page ∧ (threads_listed cwd entries → threads_listed cwd entries').
Proof.
  revert entries. induction page as [|entry page IH]; intros entries; cbn [fold_result].
  { intros [= <-]. by rewrite app_nil_r. }
  intros H. inv_ok. unfold push_entry in Hok. inv_ok. apply IH in H as [-> Hn].
  rewrite <- app_assoc in *. split; [done|]. intros [Hv Hnd]. apply Hn.
  apply validate_inventory_entry_Ok in Hok0. split; [apply Forall_app; split; [done|by constructor]|].
  rewrite fmap_app. apply NoDup_app. split_and!; [done| |apply NoDup_singleton].
  intros x Hin ->%list_elem_of_singleton. apply list_elem_of_fmap in Hin as (e & He & Hin).
  apply not_true_iff_false in Hok2. apply Hok2, existsb_exists. exists e.
  split; [by apply list_elem_of_In|]. apply bool_decide_eq_true. unfold id_of in He. congruence.
Qed.

(** What a listing of at most [n] pages from [cursor] did. *)
Definition pages_read (cwd : string) (deadline : Z) (n : nat) (id : Z) (cursor : option string)
    (seen : gset string) (entries entries' : list value) (p p' : AppServerProcess)
    (pages : list value) : Prop :=
  (0 < length pages ≤ n)%nat ∧
  ap_sent p' = ap_sent p ++ handoff_requests cwd id cursor pages ∧
  ap_answers p' `suffix_of` ap_answers p ∧
  pages_in_reply p deadline id pages ∧
  (∃ page, last pages = Some page ∧ page_next page = None) ∧
  (NoDup (tail (page_cursors cursor pages)) ∧
   ∀ c, c ∈ tail (page_cursors cursor pages) → ∃ s, c = Some s ∧ s ∉ seen) ∧
  entries' = entries ++ concat (page_entries <$> pages) ∧
  (threads_listed cwd entries → threads_listed cwd entries').

Lemma handoff_pages_Ok n id cwd deadline cursor seen entries p entries' p' :
  (0 < n)%nat →
  handoff_pages n id cwd deadline cursor seen entries p = (Ok entries', p') →
  ∃ pages, pages_read cwd deadline n id cursor seen entries entries' p p' pages.
Proof.
  revert id cursor seen entries p. induction n as [|n IH]; intros id cursor seen entries p Hpos; [lia|].
  clear Hpos. cbn [handoff_pages].
  intros (u1 & p1 & [H1s H1a]%mapping_Ok%send_Ok & H)%stM_bind_Ok.
  apply stM_bind_Ok in H as (v & p2 & (Hv & H2a & H2s)%mapping_Ok%receive_result_Ok & H).
  apply stM_bind_Ok in H as (object & p3 & [Ho%ok_or_Ok ->]%lift_result_Ok & H).
  unfold as_object in Ho. destruct (is_object v); [|done]. injection Ho as <-.
  apply stM_bind_Ok in H as (page & p3 & [Hp%ok_or_Ok ->]%lift_result_Ok & H).
  apply stM_bind_Ok in H as (entries1 & p3 & [Ht ->]%lift_result_Ok & H).
  apply push_entries_Ok in Ht as [-> Hn]. rewrite H1a in H2a.
  assert (Hdata : page_entries v = page) by (unfold page_entries; by rewrite Hp).
  assert (Hreply : answered p deadline id v) by (eapply answered_later; [|done]; by rewrite H1a).
  assert (Hstop : page_next v = None → (entries', p') = (entries ++ page, p2) →
    ∃ pages, pages_read cwd deadline (S n) id cursor seen entries entries' p p' pages).
  { intros Hnext [= -> ->]. exists [v]. unfold pages_read.
    cbn [fmap list_fmap concat handoff_requests page_cursors tail length last].
    rewrite app_nil_r, H2s, H1s, Hdata. split_and!; try done; try lia.
    - intros i page' Hi. apply list_lookup_singleton_Some in Hi as [-> <-]. by rewrite Z.add_0_r.
    - by exists v.
    - constructor.
    - by intros c ?%elem_of_nil. }
  destruct (get v "nextCursor") as [next|] eqn:Hg.
  2:{ injection H as <- <-. apply Hstop; [|done]. unfold page_next. by rewrite Hg. }
  destruct (is_null next) eqn:Hnull.
  { injection H as <- <-. apply Hstop; [|done]. unfold page_next. rewrite Hg. cbn. by rewrite Hnull. }
  clear Hstop. destruct (Nat.eqb_spec n 0) as [->|Hn0]; [done|].
  apply stM_bind_Ok in H as (next' & p3 & [Hx%ok_or_Ok ->]%lift_result_Ok & H).
  apply stM_bind_Ok in H as (u3 & p3 & [Hc%reject_if_Ok%bool_decide_eq_false_1 ->]%lift_result_Ok & H).
  assert (Hnext : page_next v = Some next').
  { unfold page_next. rewrite Hg. cbn. rewrite Hnull. destruct (as_str next) as [s|]; [|done]. cbn in Hx.
    by destruct (negb _). }
  apply IH in H as (pages & Hl & Hs & Ha & Hans & Hend & [Hcn Hcs] & -> & Hn'); [|lia].
  exists (v :: pages). unfold pages_read.
  rewrite Hs, H2s, H1s, <- !app_assoc in *.
  cbn [fmap list_fmap concat handoff_requests page_cursors tail length]. rewrite Hnext, Hdata.
  split_and!; try done; try lia.
  - etransitivity; [exact Ha|exact H2a].
  - intros [|i] page' Hi; cbn in Hi; [injection Hi as <-; by rewrite Z.add_0_r|].
    replace (id + Z.of_nat (S i)) with (id + 1 + Z.of_nat i) by lia.
    eapply answered_later; [exact H2a|by apply Hans].
  - destruct pages; [cbn in Hl; lia|done].
  - destruct pages as [|page' pages]; [done|]. cbn in *. constructor; [|done].
    intros Hin. destruct (Hcs _ Hin) as (s & [= <-] & Hns). set_solver.
  - destruct pages as [|page' pages]; [cbn in Hl; lia|]. cbn in *. intros c [->|Hin]%elem_of_cons; [eauto|].
    destruct (Hcs _ Hin) as (s & -> & Hns). exists s. set_solver.
  - intros Hnd. by apply Hn', Hn.
Qed.

(** What the listing of a target proves: [pages] are what was received. *)
Record listing_evidence (home : Path) (cwd : string) (deadline : Z) (p q : AppServerProcess)
    (entries pages : list value) : Prop := {
  le_greeted : ∃ v, answered p deadline INITIALIZE_REQUEST_ID v ∧ greeted env home v "0.144.4";
  le_requests : ap_sent q =
    ap_sent p ++ [Rq_Initialize true; Rq_Initialized] ++ handoff_requests cwd 1 None pages;
  le_answers : pages_in_reply p deadline 1 pages;
  le_pages : (0 < length pages ≤ MAX_THREAD_PAGES_PER_STATE)%nat;
  le_end : ∃ page, last pages = Some page ∧ page_next page = None;
  le_cursors : NoDup (page_cursors None pages);
  le_entries : entries = concat (page_entries <$> pages);
  le_threads : threads_listed cwd entries;
  le_stopped : ce_shutdown_clean env = true ∧ is_Some (ce_shutdown_deadline env);
}.

Lemma shutdown_client_Ok u :
  shutdown_client env = Ok u → ce_shutdown_clean env = true ∧ is_Some (ce_shutdown_deadline env).
Proof.
  unfold shutdown_client. intros H. destruct (ce_shutdown_deadline env) as [d|]; [|done]. cbn in H.
  apply reject_if_Ok, negb_false_iff in H. by split.
Qed.

Lemma list_handoff_threads_Ok home canonical_cwd deadline p entries q :
  list_handoff_threads env home canonical_cwd deadline p = (Ok entries, q) →
  ∃ cwd pages, to_str canonical_cwd = Some cwd ∧ listing_evidence home cwd deadline p q entries pages.
Proof.
  unfold list_handoff_threads.
  intros (u1 & p1 & (Hg & Ha & Hs)%initialize_handoff_client_Ok & H)%stM_bind_Ok.
  apply stM_bind_Ok in H as (cwd & p2 & [Hcwd%ok_or_Ok ->]%lift_result_Ok & H).
  apply stM_bind_Ok in H as (entries1 & p2 & Hp & H).
  apply stM_bind_Ok in H as (u2 & p3 & [Hd ->]%lift_result_Ok & H). injection H as -> ->.
  apply handoff_pages_Ok in Hp as (pages & Hl & Hps & Hpa & Hans & Hend & [Hn Hc] & He & Ht); [|unfold MAX_THREAD_PAGES_PER_STATE; lia].
  exists cwd, pages. split; [done|]. destruct u2. split; try done.
  - by rewrite Hps, Hs, <- app_assoc.
  - intros i page Hi. eapply answered_later; [exact Ha|by apply Hans].
  - destruct pages as [|page pages]; [constructor|]. cbn in *. constructor; [|done].
    intros Hin. by destruct (Hc _ Hin) as (s & [=] & _).
  - apply Ht. split; constructor.
  - by eapply shutdown_client_Ok.
Qed.

(** C33. A listing of the target that is accepted is complete and exact: the
    server was the supported one, for this home; every page was asked for with
    the cursor of the one before, under ascending numbers from 1, and answered
    in time; no cursor occurs twice; the last of at most eight pages leads
    nowhere; the entries are those of all pages in their order, every one a
    thread of this working directory under a canonical id that no other entry
    has; and the process was stopped in order. *)
Theorem handoff_inventory_complete home canonical_cwd entries child :
  handoff_inventory env home canonical_cwd = (Ok entries, child) →
  ∃ p q deadline cwd pages, ce_spawn env = Ok p ∧ child = Some q ∧ ce_deadline env = Some deadline ∧
    to_str canonical_cwd = Some cwd ∧ listing_evidence home cwd deadline p q entries pages.
Proof.
  unfold handoff_inventory, in_session. destruct (ce_deadline env) as [deadline|]; [|done].
  destruct (ce_spawn env) as [p|]; [|done]. cbn [map_err].
  destruct (list_handoff_threads env home canonical_cwd deadline p) as [r q] eqn:H.
  intros [= -> <-]. apply list_handoff_threads_Ok in H as (cwd & pages & ? & ?).
  by exists p, q, deadline, cwd, pages.
Qed.
End client.

(** ** The fork *)

Section fork.
Context {UC : UuidCrate} {JS : JsonCrate} {FS : FailoverSystem}.

(** What a fork proves: the conversation with the process [p], which ends as
    [q], and the calls of the rollout proofs around it, between the states [s]
    and [s'] of the system: the source is read once the server has greeted, it
    is verified once the answer to the fork was awaited, and the new rollout
    after that. *)
Record fork_evidence (env : ClientEnv) (target : Profile) (home cwd : Path)
    (source : CodexRolloutHandoff) (settings : EffectiveThreadSettings) (deadline : Z)
    (p q : AppServerProcess) (s s' : sys) (verified : VerifiedSourceRollout)
    (rollout : ValidatedForkRollout) (import : RolloutImport) (params : ForkParams) (v : value)
    : Prop := {
  fe_greeted : ∃ v, answered p deadline INITIALIZE_REQUEST_ID v ∧ greeted env home v "0.144.4";
  fe_requests : ap_sent q =
    ap_sent p ++ [Rq_Initialize true; Rq_Initialized; Rq_ThreadFork 1 params];
  fe_answered : answered p deadline 1 v;
  fe_params : fork_params settings (import_source_path import) = Some params;
  fe_cwd : to_str cwd = Some (fk_cwd params);
  fe_settings : parse_thread_settings v = Ok (Some settings);
  fe_calls : ∃ s1 s2,
    begin_import source (await_answer s) = (Ok import, s1) ∧
    finish_import import (await_answer s1) = (Ok verified, s2) ∧
    validate_handoff_fork_result target verified v s2 = (Ok rollout, s');
  fe_stopped : ce_shutdown_clean env = true ∧ is_Some (ce_shutdown_deadline env);
}.

Lemma on_child_Ok {E A} (m : stM AppServerProcess E A) p o a p' o' :
  on_child m (p, o) = (Ok a, (p', o')) → m p = (Ok a, p') ∧ o' = o.
Proof. unfold on_child. destruct (m p). by intros [= -> -> ->]. Qed.
Lemma awaiting_Ok {E A} (m : stM AppServerProcess E A) p o a p' o' :
  awaiting m (p, o) = (Ok a, (p', o')) →
  m p = (Ok a, p') ∧ o' = with_sys (await_answer (out_sys o)) o.
Proof. unfold awaiting. destruct (m p). by intros [= -> -> <-]. Qed.
Lemma beside_call_Ok {F E A} (f : F → E) (c : sys → result F A * sys) p o a p' o' :
  beside (call f c) (p, o) = (Ok a, (p', o')) →
  p' = p ∧ out_events o' = out_events o ∧ c (out_sys o) = (Ok a, out_sys o').
Proof.
  unfold beside, call. destruct (c (out_sys o)) as [[b|e] s'] eqn:Hc; cbn [map_err]; intros [=]; by subst.
Qed.

Lemma fork_with_Ok env target home cwd source settings deadline p o verified rollout q o' :
  fork_with env target home cwd source settings deadline (p, o) = (Ok (verified, rollout), (q, o')) →
  out_events o' = out_events o ∧
  ∃ import params v, fork_evidence env target home cwd source settings deadline p q
    (out_sys o) (out_sys o') verified rollout import params v.
Proof.
  unfold fork_with. intros H.
  apply stM_bind_Ok in H as (? & [p1 o1] & [(Hg & Ha & Hs)%initialize_handoff_client_Ok ->]%awaiting_Ok & H).
  apply stM_bind_Ok in H as (import & [p2 o2] & (-> & Ho2 & Hi)%beside_call_Ok & H).
  apply stM_bind_Ok in H as (params & [p2 o3] & [Hp%ok_or_Ok [= -> ->]]%lift_result_Ok & H).
  apply stM_bind_Ok in H as (? & [p2 o3] & [Hc%reject_if_Ok [= -> ->]]%lift_result_Ok & H).
  apply stM_bind_Ok in H as (? & [p2 o3] & [[H2s H2a]%mapping_Ok%send_Ok ->]%on_child_Ok & H).
  apply stM_bind_Ok in H as (v & [p3 o3] & [(Hv & H3a & H3s)%mapping_Ok%receive_result_Ok ->]%awaiting_Ok & H).
  apply stM_bind_Ok in H as (? & [p4 o4] & [Hd [= -> ->]]%lift_result_Ok & H).
  apply stM_bind_Ok in H as (verified' & [p4 o4] & (-> & Ho4 & Hf)%beside_call_Ok & H).
  apply stM_bind_Ok in H as (parsed & [p5 o5] & [Hps%map_err_Ok [= -> ->]]%lift_result_Ok & H).
  apply stM_bind_Ok in H as (returned & [p5 o5] & [Hr%ok_or_Ok [= -> ->]]%lift_result_Ok & H).
  apply stM_bind_Ok in H as (? & [p5 o5] & [He%reject_if_Ok [= -> ->]]%lift_result_Ok & H).
  apply stM_bind_Ok in H as (rollout' & [p5 o5] & (-> & Ho5 & Hval)%beside_call_Ok & H).
  injection H as -> -> -> ->. apply negb_false_iff, bool_decide_eq_true_1 in Hc, He. subst parsed returned.
  split; [cbn in *; congruence|]. exists import, params, v. split; try done.
  - by rewrite H3s, H2s, Hs, <- app_assoc.
  - eapply answered_later; [|exact Hv]. by rewrite H2a.
  - by exists (out_sys o2), (out_sys o4).
  - by eapply shutdown_client_Ok.
Qed.

(** C32. A fork that is accepted was requested exactly once, of the supported
    server of the target's home, from the rollout of the source, which was
    verified before the request, with the settings of the source and its
    working directory, whose approvals the user reviews; the answer came in
    time and names exactly the settings of the source. Of the calls on the
    system, in their order: the home and the server of the target, the first
    verification of the source once the server has greeted, the second one of
    the same source in the state the system is in after the answer to the fork
    was awaited, and then the validation of the new rollout against it. *)
Theorem fork_exact target cwd source settings o verified rollout o' :
  fork_handoff_rollout target cwd source settings o = (Ok (verified, rollout), o') →
  ∃ home env deadline p q import params v s1 s2,
    profile_home target (out_sys o) = (Ok home, s1) ∧ client_env home s1 = (env, s2) ∧
    ce_deadline env = Some deadline ∧ ce_spawn env = Ok p ∧
    out_events o' = out_events o ++ [Ev_Conversed (ap_sent q)] ∧
    fork_evidence env target home cwd source settings deadline p q s2 (out_sys o')
      verified rollout import params v ∧
    params = mkForkParams (fk_path params) (es_cwd settings) (es_model settings)
      (es_model_provider settings) (approval_param (es_approval_policy settings))
      (sandbox_param (es_sandbox_type settings)) ∧
    to_str (import_source_path import) = Some (fk_path params) ∧
    es_approvals_reviewer settings = User.
Proof.
  unfold fork_handoff_rollout. intros H.
  apply stM_bind_Ok in H as (home & o1 & H1 & H). apply stM_bind_Ok in H as (env & o2 & H2 & H).
  apply stM_bind_Ok in H as (deadline & o3 & [Hd%ok_or_Ok ->]%lift_result_Ok & H).
  apply stM_bind_Ok in H as (p & o3 & [Hsp%map_err_Ok ->]%lift_result_Ok & H).
  unfold with_child in H. destruct (fork_with _ _ _ _ _ _ _ _) as [r [q o3]] eqn:Hf.
  injection H as -> <-. apply fork_with_Ok in Hf as [Ho (import & params & v & He)].
  unfold call in H1. destruct (profile_home _ _) as [[home'|?] s1] eqn:Hh; [|done].
  injection H1 as -> <-. unfold ask in H2. cbn [out_sys with_sys] in H2.
  destruct (client_env _ _) as [env' s2] eqn:Hc. injection H2 as -> <-.
  assert (fork_params settings (import_source_path import) = Some params) as Hp by apply He.
  exists home, env, deadline, p, q, import, params, v, s1, s2. split_and!; try done.
  - cbn. by rewrite Ho.
  - unfold fork_params in Hp. destruct (_ || _); [done|]. destruct (to_str _); [|done]. by injection Hp as <-.
  - unfold fork_params in Hp. destruct (_ || _); [done|]. destruct (to_str _); [|done]. by injection Hp as <-.
  - unfold fork_params in Hp.
    destruct (bool_decide_reflect (es_approvals_reviewer settings = User)); done.
Qed.
End fork.
