(* ===== verification/FailoverStored.v ===== *)
(** * Failover: what the journal holds between the steps

    The reads of the journal as functions of the document its file holds, and
    the document a handoff that has been attached leaves there: its ready head
    is the target's generation, the last of its conversation. *)
From S2P Require Import Prelude Interfaces CoordinatorTerminal Profiles Storage RoutingDefs.
From S2P Require Import RoutingStore UsageCache Selection ConversationData ConversationOps.
From S2P Require Import ConversationStore ConversationProofs ConversationSpec ConversationSteps ConversationHandoff ConversationTheorems ConversationDisk.
From S2P Require Import HandoffTransaction CodexLines AppServer AppServerProofs ThreadSettings.
From S2P Require Import FailoverSystem HandoffClient Failover FailoverLoop.

Open Scope Z_scope.

Section stored.
Context {UC : UuidCrate} {SC : Sha256Crate} {JC : JsonCodec ConversationDocument}.

(** What a read of the journal is applied to. *)
Definition stored (k : ConvDisk) : option ConversationDocument :=
  match registry_file k with
  | None => Some default_document
  | Some b => from_slice (read_limited MAX_REGISTRY_BYTES b)
  end.

Lemma load_stored host k d k' : ConversationStore.load host k = (Ok d, k') → stored k = Some d.
Proof.
  unfold ConversationStore.load, stored. intros H.
  apply stM_bind_Ok in H as (file & k1 & [-> ->]%read_private_Ok & H). cbn [file_of] in H.
  destruct (registry_file k) as [b|]; cbn [fmap option_fmap option_map] in H; [|by injection H as <- _].
  apply stM_bind_Ok in H as (? & ? & _ & H).
  apply stM_bind_Ok in H as (d1 & k2 & [Hd%ok_or_Ok ->]%lift_result_Ok & H). rewrite Hd.
  repeat (apply stM_bind_Ok in H as (? & ? & _ & H)). by injection H as -> _.
Qed.

Lemma entry_harmless host :
  harmless (verify_private_directory host) ∧ harmless (open_lock host).
Proof.
  unfold verify_private_directory, open_lock, verify_private_regular_file.
  split; repeat first
    [ apply harmless_ret | apply harmless_get | apply harmless_sys | apply harmless_lift
    | (apply harmless_modify; done) | (apply harmless_bind; [|intros]) | case_match ].
Qed.

Lemma read_stored {A} host (f : ConversationDocument → result ConversationError A) k a k' :
  ConversationStore.read host f k = (Ok a, k') →
  same_files k k' ∧ ∃ d, stored k = Some d ∧ f d = Ok a.
Proof.
  intros H. split; [exact (read_harmless host f k _ _ H)|].
  unfold ConversationStore.read in H. apply stM_bind_Ok in H as (k0 & ? & [= <- <-] & H).
  destruct (conv_root k); [|done].
  apply stM_bind_Ok in H as (u0 & k1 & H0 & H). apply stM_bind_Ok in H as (u1 & k2 & H1 & H).
  apply stM_bind_Ok in H as (u2 & k3 & H2 & H). apply stM_bind_Ok in H as (d & k4 & Hl & H).
  exists d. split; [|by injection H]. apply load_stored in Hl.
  assert (same_files k k3) as [Hs _].
  { etrans; [|etrans].
    - eapply (proj1 (entry_harmless host)). exact H0.
    - eapply (proj2 (entry_harmless host)). exact H1.
    - eapply (harmless_sys host). exact H2. }
  revert Hl. unfold stored. by rewrite Hs.
Qed.

(** The generation the ready head is bound to is one of those from itself on. *)
Lemma head_in_lineage d cwd head ids :
  resolve_head_document d cwd = Ok head →
  profile_ids_from_generation_read (hb_conversation_id head) (hb_generation head) d = Ok ids →
  hb_profile_id head ∈ ids.
Proof.
  unfold resolve_head_document, profile_ids_from_generation_read. intros H Hids. inv_ok. simplify_eq.
  cbn in *. unfold find_conversation in Hok7, Hok.
  destruct (find_first_Some _ _ _ Hok7) as [_ Hid%String.eqb_eq]. rewrite Hid, Hok7 in Hok.
  injection Hok as <-. apply find_first_Some in Hok8 as [Hin Hg%Z.eqb_eq].
  apply elem_of_list_to_set, list_elem_of_fmap_2, list_elem_of_In, filter_In.
  split; [by apply list_elem_of_In|]. apply Z.leb_le. lia.
Qed.

End stored.

Section reads.
Context {UC : UuidCrate} {SC : Sha256Crate} {JC : JsonCodec ConversationDocument}.
Context {JS : JsonCrate} {FS : FailoverSystem}.

Lemma journal_read_Ok {E A B} (f : ConversationError → E) (x : result ConversationError B)
    (g : B → ConversationDocument → result ConversationError A) k o a k' o' :
  journal f (fun host => b ← lift_result x; ConversationStore.read host (g b)) (k, o) = (Ok a, (k', o')) →
  stored k' = stored k ∧ ∃ b d, x = Ok b ∧ stored k = Some d ∧ g b d = Ok a.
Proof.
  unfold journal. destruct (journal_host _) as [host y].
  destruct ((lift_result x ≫= (fun b => ConversationStore.read host (g b))) k) as [[a'|e] k1] eqn:Hc; cbn [map_err]; intros [=]; subst.
  apply stM_bind_Ok in Hc as (b & k2 & [-> ->]%lift_result_Ok & Hc).
  apply read_stored in Hc as [[Hs _] (d & Hd & Hg)]. unfold stored at 1. rewrite Hs. split; [done|].
  by exists b, d.
Qed.
End reads.

(** ** What an attached handoff leaves *)

Section attached.
Context {UC : UuidCrate} {SC : Sha256Crate} {JC : JsonCodec ConversationDocument}.
Context {JL : JsonRoundTrip ConversationDocument document_in_range}.

Lemma load_valid host k d k' :
  ConversationStore.load host k = (Ok d, k') →
  stored k = Some d ∧ document_in_range d ∧ wf_document d ∧ same_files k k'.
Proof using JL.
  intros H. pose proof (load_stored _ _ _ _ H) as Hs. pose proof (load_harmless _ _ _ _ H) as Hf.
  unfold ConversationStore.load in H. apply stM_bind_Ok in H as (file & k1 & [-> ->]%read_private_Ok & H).
  unfold stored in *. cbn [file_of] in H.
  destruct (registry_file k) as [b|] eqn:Hb; cbn [fmap option_fmap option_map] in H.
  - inv_tx. inv_ok. split_and!; [done| |by apply document_spec|done].
    eapply from_slice_in_range. exact Hs.
  - injection Hs as <-.
    pose proof (unused_recoverable (mkConvDisk true true None None None) (conj eq_refl eq_refl)) as Hr.
    split_and!; [done|exact (recoverable_range _ _ Hr)|exact (rec_valid _ _ Hr)|done].
Qed.

Lemma locked_valid host k d k' :
  locked host k = (Ok d, k') →
  stored k = Some d ∧ document_in_range d ∧ wf_document d ∧ same_files k k'.
Proof using JL.
  intros H. pose proof (locked_harmless _ _ _ _ H) as Hf. unfold locked in H.
  apply stM_bind_Ok in H as (u0 & k1 & H0 & H). apply stM_bind_Ok in H as (u1 & k2 & H1 & H).
  apply stM_bind_Ok in H as (u2 & k3 & H2 & Hl). apply load_valid in Hl as (Hs & Hr & Hd & _).
  assert (same_files k k3) as [Hk _].
  { etrans; [|etrans].
    - eapply (proj1 (entry_harmless host)). exact H0.
    - eapply (proj2 (entry_harmless host)). exact H1.
    - eapply (harmless_sys host). exact H2. }
  split_and!; try done. revert Hs. unfold stored. by rewrite Hk.
Qed.

(** What a save that succeeds stores is read back. *)
Lemma save_stored host d k k' :
  document_in_range d → save host d k = (Ok (), k') → stored k' = Some d ∧ wf_document d.
Proof using JL.
  intros Hr H. unfold save in H. inv_tx. inv_ok.
  match goal with P : publish _ _ _ _ = _ |- _ =>
    apply publish_effect in P as [[_ [Hreg _]]|(? & [=] & _)] end.
  destruct (io_fails host _).
  { unfold confirm_uncertain_commit in H. by destruct (load _ _). }
  inv_tx.
  split; [|by apply document_spec]. unfold stored. rewrite Hreg.
  rewrite read_limited_id by (by apply Z.ltb_ge).
  by apply (from_slice_to_vec (in_range := document_in_range)).
Qed.

(** The last generation of [head]'s conversation is bound to a profile. *)
Definition bound_to (profile : string) (head : HeadBinding) (d : ConversationDocument) : Prop :=
  ∃ c g, find_conversation (hb_conversation_id head) d = Some c ∧ wf_conversation (is_v1 d) c ∧
    find_generation (cv_active_generation c) c = Some g ∧ cg_profile_id g = profile.

(** In a valid document the committed target is the ready head. *)
Lemma committed_head d t head :
  wf_document d → cd_active_transition d = Some t → tr_phase t = Hp_CommittedUnattached →
  resolve_head_document (set_transition None d) (tr_canonical_cwd t) = Ok head →
  bound_to (tr_target_profile_id t) head d.
Proof using Type.
  intros Hd Ht Hp Hh. destruct (wf_document_transition _ _ Hd Ht) as (_ & _ & c & g & h & []).
  assert (Hw : wf_conversation (is_v1 d) c) by by eapply found_wf; [apply wf_document_contents|].
  rewrite (wv_provider _ _ Hw) in wp_head.
  unfold resolve_head_document in Hh. cbn in Hh. inv_ok. simplify_eq.
  unfold find_conversation in wp_conversation. rewrite wp_conversation in Hok4. injection Hok4 as <-.
  unfold validate_committed, expected_active in *. rewrite bool_decide_eq_true_2 in * by done.
  inv_ok. simplify_eq.
  match goal with E : _ || _ = false |- _ => rewrite !orb_false_iff, !negb_false_iff in E;
    destruct E as [[[[[[?%String.eqb_eq _] _] _] _] _] _] end.
  exists c, a5. cbn. unfold find_conversation.
  destruct (find_first_Some _ _ _ wp_conversation) as [_ ->%String.eqb_eq]. by rewrite wp_active.
Qed.

(** Finishing the attachment stores the document without the transition. *)
Lemma finish_stored host id k t d head k' :
  stored k = Some d → cd_active_transition d = Some t →
  finish_handoff_attachment host id k = (Ok head, k') →
  ∃ d', stored k' = Some d' ∧ wf_document d' ∧ bound_to (tr_target_profile_id t) head d'.
Proof using JL.
  intros Hs Ht H. unfold finish_handoff_attachment, transact_v2 in H.
  apply stM_bind_Ok in H as (? & ? & [_ ->]%lift_result_Ok & H).
  apply stM_bind_Ok in H as (d1 & k1 & (Hs' & Hr & Hd & _)%locked_valid & H).
  rewrite Hs in Hs'. injection Hs' as <-.
  assert (Hv : cd_schema_version d =? SCHEMA_VERSION_V1 = false)
    by by destruct (wf_document_transition _ _ Hd Ht) as [? _].
  unfold migrate in H. rewrite Hv in H.
  apply stM_bind_Ok in H as (? & ? & [[= <-] ->]%lift_result_Ok & H).
  apply stM_bind_Ok in H as ([v d2] & ? & [Hf%run_tx_Ok ->]%lift_result_Ok & H).
  apply stM_bind_Ok in H as (d3 & ? & [[-> Hle]%next_revision_Ok ->]%lift_result_Ok & H).
  apply stM_bind_Ok in H as (? & ? & [_ ->]%lift_result_Ok & H).
  apply stM_bind_Ok in H as (? & ? & [= _ <-] & H).
  apply stM_bind_Ok in H as ([] & k2 & Hsave & H). injection H as <- <-. cbn [fst snd] in *.
  unfold finish_handoff_attachment_tx in Hf. inv_tx.
  apply exact_transition_Ok in Hok1. rewrite Ht in Hok1. injection Hok1 as <-.
  apply reject_if_Ok, negb_bool_decide_false in Hok0.
  apply save_stored in Hsave as [Hst Hwf].
  - eexists. split_and!; [exact Hst|exact Hwf|]. by apply (committed_head d t).
  - destruct Hr. split; try done. cbn in *. unfold in_u64 in *. lia.
Qed.
End attached.

(** ** The driver *)

Section driver.
Context {UC : UuidCrate} {SC : Sha256Crate} {JC : JsonCodec ConversationDocument}.
Context {JL : JsonRoundTrip ConversationDocument document_in_range}.
Context {JS : JsonCrate} {FS : FailoverSystem} (c : HandoffConstants).

Lemma on_journal_Ok {HR : HandoffRuntime} {A} (m : cs A) k s a w :
  on_journal m (k, s) = (Ok a, w) → ∃ k', m k = (Ok a, k') ∧ w = (k', s).
Proof.
  unfold on_journal. destruct (m k) as [[a'|e] k']; [|done]. intros [= <- <-]. by exists k'.
Qed.
Lemma on_runtime_Ok {HR : HandoffRuntime} {A} (op : hrt → result hrt_error A * hrt) k s a w :
  on_runtime op (k, s) = (Ok a, w) → ∃ s', op s = (Ok a, s') ∧ w = (k, s').
Proof.
  unfold on_runtime. destruct (op s) as [[a'|e] s']; [|done]. intros [= <- <-]. by exists s'.
Qed.

(** The attached transition is one to the target of the runtime. *)
Lemma attach_target t s u s' :
  production_attach_committed_target c t s = (Ok u, s') →
  tr_target_profile_id t = profile_id (hc_target c).
Proof.
  unfold production_attach_committed_target. intros H.
  apply stM_bind_Ok in H as (? & ? & _ & H).
  apply stM_bind_Ok in H as (? & ? & [Hx _]%lift_result_Ok & _).
  apply reject_if_Ok, orb_false_iff in Hx as [Hx _].
  by apply negb_false_iff, String.eqb_eq in Hx.
Qed.

(** What the document holds after the step that attached the target. *)
Definition left_by (x : HeadBinding) (k : ConvDisk) : Prop :=
  ∃ d, stored k = Some d ∧ bound_to (profile_id (hc_target c)) x d.

Lemma resume_with_attached e t action k s head w d :
  stored k = Some d → cd_active_transition d = Some t →
  resume_with (HR := production_runtime c) e t action (k, s) = (Ok (Attached head), w) →
  left_by head w.1.
Proof using JL.
  intros Hs Ht. destruct action; cbn [resume_with]; intros H.
  1-5: by unfold reconcile_fork in H;
    repeat (apply stM_bind_Ok in H as (? & ? & _ & H)); repeat case_match;
    repeat (apply stM_bind_Ok in H as (? & ? & _ & H)).
  apply stM_bind_Ok in H as (u & w1 & (s1 & Hat & ->)%on_runtime_Ok & H).
  apply stM_bind_Ok in H as (hd & w2 & (k2 & Hfin & ->)%on_journal_Ok & H). injection H as <- <-.
  apply attach_target in Hat.
  destruct (finish_stored _ _ _ _ _ _ _ Hs Ht Hfin) as (d' & Hs' & _ & Hb).
  exists d'. by rewrite <- Hat.
Qed.

Lemma resume_attached e k s head w :
  resume_handoff_once (HR := production_runtime c) e (k, s) = (Ok (Attached head), w) →
  left_by head w.1.
Proof using JL.
  unfold resume_handoff_once. intros H.
  apply stM_bind_Ok in H as (u & w1 & (k1 & _ & ->)%on_journal_Ok & H).
  apply stM_bind_Ok in H as (o & w2 & (k2 & Hr & ->)%on_journal_Ok & H).
  apply stM_bind_Ok in H as (t & ? & [->%ok_or_Ok ->]%lift_result_Ok & H).
  apply stM_bind_Ok in H as (action & ? & [_ ->]%lift_result_Ok & H).
  apply read_stored in Hr as [[Hf _] (d & Hd & Hr)]. injection Hr as Hr.
  eapply resume_with_attached; [|exact Hr|exact H]. unfold stored in *. by rewrite Hf.
Qed.

(** What a handoff that succeeded left, of its result. *)
Definition handed_over_to (x : HandoffResult) (k : ConvDisk) : Prop :=
  hx_profile x = hc_target c ∧
  ∃ h, hb_conversation_id h = hx_conversation_id x ∧ left_by h k.

Lemma drive_once_attached k s o head w :
  drive_once c (k, (s, o)) = (Ok (Attached head), w) → left_by head w.1.
Proof using JL.
  unfold drive_once. destruct (interference _) as [u [k1 o1]]. destruct (resume_env _) as [e sy].
  destruct (resume_handoff_once _ _) as [r w1] eqn:Hr. intros [= Hx <-].
  apply map_err_Ok in Hx as ->. by eapply resume_attached.
Qed.

Lemma drive_loop_left n k s o x w : drive_loop c n (k, (s, o)) = (Ok x, w) → handed_over_to x w.1.
Proof using JL.
  revert k s o. induction n as [|n IH]; intros k s o H; [done|]. cbn [drive_loop] in H.
  apply stM_bind_Ok in H as (step & [k1 [s1 o1]] & Hs & H). destruct step as [p|reason|head]; [by eapply IH|done|].
  apply drive_once_attached in Hs. unfold take_attached_status in H.
  apply stM_bind_Ok in H as (status & w2 & [= _ <-] & H). injection H as <- <-.
  split; [done|]. by exists head.
Qed.

Lemma drive_handoff_left r k o x k' o' :
  drive_handoff c r (k, o) = (Ok x, (k', o')) → handed_over_to x k'.
Proof using JL.
  unfold drive_handoff. destruct (drive_loop _ _ _) as [y [k1 [s1 o1]]] eqn:Hd.
  intros [= -> -> _]. by apply drive_loop_left in Hd.
Qed.
End driver.

(** A profile bound to the last generation is among those from any one on. *)
Lemma bound_in_lineage {UC : UuidCrate} d h profile first ids :
  bound_to profile h d → profile_ids_from_generation_read (hb_conversation_id h) first d = Ok ids →
  profile ∈ ids.
Proof.
  intros (c & g & Hc & Hw & Hg & <-) H. unfold profile_ids_from_generation_read in H. inv_ok.
  rewrite Hc in Hok. injection Hok as <-.
  unfold find_generation in Hg. apply find_first_Some in Hg as [Hin Hn%Z.eqb_eq].
  apply elem_of_list_to_set, list_elem_of_fmap_2, list_elem_of_In, filter_In.
  split; [by apply list_elem_of_In|]. apply Z.leb_le.
  apply negb_false_iff, existsb_exists in Hok0 as (g0 & Hg0 & Hf%Z.eqb_eq).
  apply list_elem_of_In, list_elem_of_lookup in Hg0 as [i Hi].
  pose proof (wv_numbered _ _ Hw _ _ Hi). pose proof (wv_active _ _ Hw).
  apply lookup_lt_Some in Hi. unfold len in *. lia.
Qed.
