(* ===== verification/FailoverProofs.v ===== *)
(** * Failover: theorems

    [failover_once_each]: which generations an invocation launches, in which
    order, and what each of them ended in. [failover_terminates]: the
    invocation ends. *)
From S2P Require Import Prelude Interfaces CoordinatorTerminal Profiles Storage RoutingDefs.
From S2P Require Import RoutingStore UsageCache Selection ConversationData ConversationOps.
From S2P Require Import ConversationStore ConversationSteps ConversationDisk HandoffTransaction CodexLines AppServer.
From S2P Require Import AppServerProofs ThreadSettings FailoverSystem HandoffClient Failover FailoverLoop FailoverStored.

Open Scope Z_scope.

(** ** A selection, by what its runtime preserves *)

Section selection.
Context {UC : UuidCrate} {SR : SelectionRuntime}.
Context (definitions : Definitions) (pool : EnabledPool) (source : Profile).
Context (trigger : SelectionTrigger) (cooldown : gset string).

(** A target the kernel may hand off to: another member of the pool outside
    the cooldown, which the runtime has just reserved. *)
Definition eligible (sel : HandoffSelection Reservation) : Prop :=
  let id := profile_id (hs_target sel) in
  id ∈ ep_profile_ids pool ∧ id ∉ cooldown ∧ id ≠ profile_id source ∧ hs_source sel = source ∧
  ∃ s cand s', reserve_and_revalidate id s = (Ok (Ready cand), s').

Context (I : rt → Prop) (J : HandoffSelection Reservation → rt → Prop) (K : rt → Prop).
Context (I_cached : ∀ pid s, I s → I (cached_usage pid s).2).
Context (I_reserve : ∀ pid s, I s → I (reserve_and_revalidate pid s).2).
Context (I_handoff : ∀ sel s, I s → eligible sel →
  match handoff sel s with (Ok _, s') => J sel s' | (Err _, s') => K s' end).
Context (I_K : ∀ s, I s → K s).

Definition concluded (res : result (SelectionError rt_error) SelectionOutcome) (s : rt) : Prop :=
  match res with
  | Ok (Selected _) => ∃ sel, eligible sel ∧ J sel s
  | Ok _ => I s
  | Err _ => K s
  end.

Lemma select_turn_rule pid stop s res s' :
  pid ∈ ep_profile_ids pool → pid ≠ profile_id source → I s →
  select_turn definitions pool source trigger cooldown pid stop s = (res, s') →
  match res with
  | Ok (Continue _) => I s'
  | Ok (Return o) => concluded (Ok o) s'
  | Err e => concluded (Err e) s'
  end.
Proof using I_cached I_reserve I_handoff I_K.
  intros Hin Hne Hi. unfold select_turn, consider_candidate, runtime_call. run_st.
  case_bool_decide as Hcd; [by intros [= <- <-]|].
  destruct (authorize_handoff _ _ _ _ _) as [auth|e]; cbn [map_err]; [|intros [= <- <-]; by apply I_K].
  pose proof (I_cached pid s Hi) as Hc. destruct (cached_usage pid s) as [[cached|e] s1]; cbn [map_err];
    [|intros [= <- <-]; by apply I_K]. cbn in Hc.
  destruct (is_fresh_exhaustion_cached cached); [by intros [= <- <-]|].
  pose proof (I_reserve pid s1 Hc) as Hr. destruct (reserve_and_revalidate pid s1) as [[res1|e] s2] eqn:Hres;
    cbn [map_err]; [|intros [= <- <-]; by apply I_K]. cbn in Hr.
  destruct res1 as [cand| |]; [|by intros [= <- <-]..].
  destruct (reject_if _ _) as [[]|] eqn:Hrej; [|intros [= <- <-]; by apply I_K].
  apply reject_if_Ok, orb_false_iff in Hrej as [Hid%negb_false_iff%String.eqb_eq _].
  destruct (_ && _).
  - match goal with |- context [handoff ?x s2] => set (sel := x) end.
    assert (eligible sel) as He.
    { unfold eligible. cbn. rewrite Hid. split_and!; try done. by exists s1, cand, s2. }
    pose proof (I_handoff sel s2 Hr He) as Hh. destruct (handoff sel s2) as [[g|e] s3]; cbn [map_err];
      intros [= <- <-]; [by exists sel|done].
  - destruct (is_fresh_authoritative_exhaustion _); by intros [= <- <-].
Qed.

Lemma select_loop_rule offsets i visited stop s res s' :
  profile_id source ∈ visited → I s →
  select_loop definitions pool source trigger cooldown offsets i visited stop s = (res, s') →
  concluded res s'.
Proof using I_cached I_reserve I_handoff I_K.
  revert visited stop s. induction offsets as [|offset offsets IH]; intros visited stop s Hv Hi;
    cbn [select_loop].
  { intros [= <- <-]. cbn. unfold conclude. by repeat case_match. }
  cbv [mbind stM_bind lift_result].
  destruct (ep_profile_ids pool !! _) as [pid|] eqn:Hl; cbn [ok_or]; [|intros [= <- <-]; by apply I_K].
  destruct (reject_if _ _) as [[]|] eqn:Hrej; [|intros [= <- <-]; by apply I_K].
  apply reject_if_Ok, bool_decide_eq_false in Hrej.
  destruct (select_turn _ _ _ _ _ _ _ _) as [[turn|e] s1] eqn:Ht;
    (apply select_turn_rule in Ht; [|by eapply list_elem_of_lookup_2|by intros -> |done]).
  - destruct turn as [stop'|o]; [|by intros [= <- <-]]. apply IH; [set_solver|done].
  - by intros [= <- <-].
Qed.

Lemma select_once_rule s res s' :
  I s → select_once definitions pool source trigger cooldown s = (res, s') → concluded res s'.
Proof using I_cached I_reserve I_handoff I_K.
  intros Hi. unfold select_once. cbv [mbind stM_bind lift_result].
  destruct (enabled_pool_for_source _ _ _ _) as [p|]; cbn [map_err]; [|intros [= <- <-]; by apply I_K].
  destruct (reject_if _ _); [|intros [= <- <-]; by apply I_K].
  destruct (position _ _) as [i|]; cbn [ok_or]; [|intros [= <- <-]; by apply I_K].
  apply select_loop_rule; [set_solver|done].
Qed.
End selection.

Section failover.
Context {UC : UuidCrate} {SC : Sha256Crate} {JC : JsonCodec ConversationDocument}.
Context {JO : JsonCodec CacheDocument} {JR : JsonCodec Definitions}.
Context {JS : JsonCrate} {JT : JsonThreads} {FS : FailoverSystem}.

(** ** Launches *)

(** A launch: the profile, and the status its generation ended in. *)
Definition launch_of (e : FailoverEvent) : option (string * option ExitStatus) :=
  match e with Ev_Launched profile _ status => Some (profile, status) | _ => None end.
Definition launches (o : Outside) : list (string * option ExitStatus) := omap launch_of (out_events o).

Lemma launches_record e o :
  launches (record_event e o) = launches o ++ match launch_of e with Some x => [x] | None => [] end.
Proof. unfold launches. cbn. by rewrite omap_app. Qed.

(** ** Computations that launch nothing *)

Definition calm {S E A} (out : S → Outside) (m : stM S E A) : Prop :=
  ∀ s, launches (out (m s).2) = launches (out s).

Section calm.
Context {S E : Type} (out : S → Outside).

Lemma calm_bind {A B} (m : stM S E A) (k : A → stM S E B) :
  calm out m → (∀ a, calm out (k a)) → calm out (m ≫= k).
Proof.
  intros Hm Hk s. specialize (Hm s). cbv [mbind stM_bind]. destruct (m s) as [[a|e] s']; [|done].
  cbn in Hm. rewrite <- Hm. apply Hk.
Qed.
Lemma calm_ret {A} (a : A) : calm out (mret a : stM S E A).
Proof. done. Qed.
Lemma calm_throw {A} (e : E) : calm out (throw e : stM S E A).
Proof. done. Qed.
Lemma calm_lift {A} (r : result E A) : calm out (lift_result r).
Proof. done. Qed.
Lemma calm_get : calm out (get_st : stM S E S).
Proof. done. Qed.
Lemma calm_mapping {F A} (f : E → F) (m : stM S E A) : calm out m → calm out (mapping f m).
Proof. intros H s. specialize (H s). unfold mapping. by destruct (m s). Qed.
Lemma calm_attempt {F A} (m : stM S E A) : calm out m → calm out (attempt m : stM S F _).
Proof. intros H s. specialize (H s). unfold attempt. by destruct (m s). Qed.
Lemma calm_filter_mapM {A B} (f : A → stM S E (option B)) l :
  (∀ a, calm out (f a)) → calm out (filter_mapM f l).
Proof.
  intros Hf. induction l as [|a l IH]; cbn; [apply calm_ret|].
  apply calm_bind; [done|]. intros. apply calm_bind; [done|]. intros. apply calm_ret.
Qed.
End calm.

Abbreviation still := (calm (fun o : Outside => o)).

Lemma still_ask {E A} (q : sys → A * sys) : still (ask q : stM Outside E A).
Proof. intros o. unfold ask. by destruct (q _). Qed.
Lemma still_call {F E A} (f : F → E) (q : sys → result F A * sys) : still (call f q).
Proof. intros o. unfold call. by destruct (q _). Qed.
Lemma still_event {E} (e : FailoverEvent) : launch_of e = None → still (event e : stM Outside E ()).
Proof. intros He o. change (launches (record_event e o) = launches o).
  by rewrite launches_record, He, app_nil_r. Qed.
Lemma still_timestamp {E} (e : E) : still (timestamp e).
Proof. apply calm_bind; [apply still_ask|]. intros. apply calm_lift. Qed.
Lemma still_on_observations {E A} (f : ObservationError → E) c : still (on_observations (A := A) f c).
Proof. intros o. unfold on_observations. destruct (store_faults _). by destruct (c _ _). Qed.
Lemma still_on_routing {E A} (f : RoutingError → E) c : still (on_routing (A := A) f c).
Proof. intros o. unfold on_routing. destruct (store_faults _). by destruct (c _ _). Qed.
Lemma still_with_client {E A} home (body : ClientEnv → Session E A) : still (with_client home body).
Proof.
  apply calm_bind; [apply still_ask|]. intros env. destruct (body env) as [r child].
  apply calm_bind; [|intros; apply calm_lift]. destruct child; [by apply still_event|apply calm_ret].
Qed.

Lemma still_with_child {E A} p (m : stM Beside E A) :
  calm snd m → still (with_child p m).
Proof.
  intros H o. specialize (H (p, o)). unfold with_child. destruct (m (p, o)) as [r [p' o']].
  change (launches (record_event (Ev_Conversed (ap_sent p')) o') = launches o).
  by rewrite launches_record, app_nil_r.
Qed.
Lemma calm_on_child {E A} (m : stM AppServerProcess E A) : calm snd (on_child m).
Proof. intros [p o]. unfold on_child. by destruct (m p). Qed.
Lemma calm_awaiting {E A} (m : stM AppServerProcess E A) : calm snd (awaiting m).
Proof. intros [p o]. unfold awaiting. by destruct (m p). Qed.
Lemma calm_beside {E A} (m : stM Outside E A) : still m → calm snd (beside m).
Proof. intros H [p o]. specialize (H o). unfold beside. by destruct (m o). Qed.
Lemma calm_outside {E A} (m : stM Outside E A) : still m → calm snd (outside m).
Proof. intros H [p o]. specialize (H o). unfold outside. by destruct (m o). Qed.
Lemma calm_journal {E A} (f : ConversationError → E) (c : Host → cs A) : calm snd (journal f c).
Proof. intros [k o]. unfold journal. destruct (journal_host _). by destruct (c _ _). Qed.
Lemma calm_interference {E} : calm snd (interference : stM FWorld E ()).
Proof. intros [k o]. unfold interference. by destruct (others _ _). Qed.
Lemma calm_of_outside {A} (m : stM Outside CodexFailoverError A) : still m → calm snd (of_outside m).
Proof. intros H [s o]. specialize (H o). unfold of_outside. by destruct (m o). Qed.

(** Decomposes a program of such steps. *)
Ltac calm :=
  repeat first
    [ apply calm_ret | apply calm_throw | apply calm_lift | apply calm_get | apply still_ask
    | apply still_call | apply still_timestamp | apply still_on_observations
    | apply still_on_routing | apply still_with_client | (apply still_event; done)
    | apply still_with_child | apply calm_on_child | apply calm_awaiting | apply calm_beside | apply calm_outside
    | apply calm_journal | apply calm_interference | apply calm_of_outside
    | apply calm_mapping | apply calm_attempt | (apply calm_filter_mapM; intros)
    | (apply calm_bind; [|intros]) | case_match ].

Lemma still_read_handoff_inventory target cwd : still (read_handoff_inventory target cwd).
Proof. unfold read_handoff_inventory. calm. Qed.
Lemma still_fork_handoff_rollout target cwd source settings :
  still (fork_handoff_rollout target cwd source settings).
Proof. unfold fork_handoff_rollout, fork_with. calm. Qed.
Lemma still_import_source source : still (import_source source).
Proof. unfold import_source. calm. Qed.
Lemma still_read_source profile home cwd thread_id expected :
  still (read_source profile home cwd thread_id expected).
Proof. unfold read_source. calm. Qed.

(** ** The runtime of a handoff *)

(** The reservation is there and its generation was not launched, or it was
    taken for the launch of exactly this generation. *)
Definition runtime_inv (r : VerifiedTargetReservation) (before : list (string * option ExitStatus))
    (s : RuntimeState) : Prop :=
  (pr_reservation s.1 = Some r ∧ pr_attached_status s.1 = None ∧ launches s.2 = before) ∨
  (pr_reservation s.1 = None ∧
   launches s.2 = before ++ [(profile_id (reservation_profile r), pr_attached_status s.1)]).

(** An operation that neither launches nor touches the reservation and the
    status. *)
Definition spares {A} (m : stM RuntimeState CodexFailoverError A) : Prop :=
  ∀ s, launches (m s).2.2 = launches s.2 ∧
    pr_reservation (m s).2.1 = pr_reservation s.1 ∧
    pr_attached_status (m s).2.1 = pr_attached_status s.1.

Lemma spares_bind {A B} (m : stM RuntimeState CodexFailoverError A) (k : A → stM RuntimeState _ B) :
  spares m → (∀ a, spares (k a)) → spares (m ≫= k).
Proof.
  intros Hm Hk s. specialize (Hm s). cbv [mbind stM_bind]. destruct (m s) as [[a|e] s']; [|done].
  cbn in Hm. destruct Hm as (<- & <- & <-). apply Hk.
Qed.
Lemma spares_ret {A} (a : A) : spares (mret a).
Proof. done. Qed.
Lemma spares_lift {A} (r : result CodexFailoverError A) : spares (lift_result r).
Proof. done. Qed.
Lemma spares_get : spares get_runtime.
Proof. by intros []. Qed.
Lemma spares_modify f :
  (∀ s, pr_reservation (f s) = pr_reservation s ∧ pr_attached_status (f s) = pr_attached_status s) →
  spares (modify_runtime f).
Proof. intros H [s o]. by destruct (H s). Qed.
Lemma spares_of_outside {A} (m : stM Outside CodexFailoverError A) : still m → spares (of_outside m).
Proof. intros H [s o]. specialize (H o). unfold of_outside. by destruct (m o). Qed.

Ltac spares :=
  repeat first
    [ apply spares_ret | apply spares_lift | apply spares_get | (apply spares_modify; done)
    | apply spares_of_outside
    | (apply spares_bind; [|intros]) | apply still_read_handoff_inventory
    | apply still_fork_handoff_rollout | apply still_import_source | case_match | progress calm ].

(** Whatever its operations preserve, a step of the driver preserves. *)
Lemma resume_preserves {HR : HandoffRuntime} (I : hrt → Prop) e w :
  (∀ t s, I s → I (stop_and_reap_source t s).2) →
  (∀ t s, I s → I (capture_target_baseline t s).2) →
  (∀ t s, I s → I (request_fork t s).2) →
  (∀ t s, I s → I (reconcile_target_inventory t s).2) →
  (∀ t s, I s → I (attach_committed_target t s).2) →
  I w.2 → I (resume_handoff_once e w).2.2.
Proof.
  intros H1 H2 H3 H4 H5.
  set (P := fun w : World => I w.2).
  assert (Hb : ∀ A B (m : stM World _ A) (k : A → stM World (HandoffExecutionError hrt_error) B),
    (∀ w, P w → P (m w).2) → (∀ a w, P w → P (k a w).2) → ∀ w, P w → P ((m ≫= k) w).2).
  { intros A B m k Hm Hk w0 Hw. cbv [mbind stM_bind]. specialize (Hm w0 Hw).
    destruct (m w0) as [[a|]?]; [by apply Hk|done]. }
  assert (Hj : ∀ A (call : cs A) w, P w → P (on_journal call w).2).
  { intros A call [k s] Hw. unfold on_journal. by destruct (call k). }
  assert (Hr : ∀ A (call : hrt → result _ A * hrt),
    (∀ s, I s → I (call s).2) → ∀ w, P w → P (on_runtime call w).2).
  { intros A call Hc [k s] Hw. unfold on_runtime, P in *. cbn in Hw. specialize (Hc s Hw).
    by destruct (call s). }
  assert (Hl : ∀ A (x : result (HandoffExecutionError hrt_error) A) w, P w → P (lift_result x w).2)
    by done.
  unfold resume_handoff_once. change (P w → P (resume_handoff_once e w).2). revert w.
  apply Hb; [apply Hj|]. intros _. apply Hb; [apply Hj|]. intros current.
  apply Hb; [apply Hl|]. intros t. apply Hb; [apply Hl|]. intros action.
  unfold resume_with, reconcile_fork.
  repeat (case_match || (apply Hb; [|intros ?]) || apply Hj || (apply Hr; by auto) || apply Hl || exact (fun _ H => H)).
Qed.
Section runtime.
Context (c : HandoffConstants).

Lemma spares_provider_lease : spares provider_lease.
Proof. unfold provider_lease. spares. Qed.
Lemma spares_ensure_verified_source : spares ensure_verified_source.
Proof. unfold ensure_verified_source. spares. Qed.
Lemma spares_take_or_remint_source : spares (take_or_remint_source c).
Proof. unfold take_or_remint_source. spares. Qed.
Lemma spares_capture t : spares (production_capture_target_baseline c t).
Proof. unfold production_capture_target_baseline. spares; apply spares_provider_lease. Qed.
Lemma spares_request_fork t : spares (production_request_fork c t).
Proof.
  unfold production_request_fork.
  spares; first [apply spares_provider_lease|apply spares_take_or_remint_source].
Qed.
Lemma spares_reconcile t : spares (production_reconcile_target_inventory c t).
Proof.
  unfold production_reconcile_target_inventory, fork_candidate.
  spares; first [apply spares_provider_lease|apply spares_ensure_verified_source].
Qed.

Lemma spares_inv {A} (m : stM RuntimeState CodexFailoverError A) r before s :
  spares m → runtime_inv r before s → runtime_inv r before (m s).2.
Proof. intros H. unfold runtime_inv. destruct (H s) as (-> & -> & ->). done. Qed.

(** Spawning records the launch, whatever came of it. *)
Lemma spawn_promoted_launches reservation cwd thread_id o :
  ∃ status, launches (spawn_promoted_supervised_generation reservation cwd thread_id o).2
    = launches o ++ [(profile_id (reservation_profile reservation), status)] ∧
    (spawn_promoted_supervised_generation reservation cwd thread_id o).1 = ok_or status Fo_Spawn.
Proof.
  unfold spawn_promoted_supervised_generation, ask. run_st.
  destruct (spawn_supervised_exact_resume_with_reservation _ _ _ _) as [status sy]. exists status.
  split; [|done].
  match goal with |- launches ?x.2 = _ => change (launches (record_event
    (Ev_Launched (profile_id (reservation_profile reservation)) thread_id status) (with_sys sy o)) =
    launches o ++ [(profile_id (reservation_profile reservation), status)]) end.
  by rewrite launches_record.
Qed.

Lemma attach_inv r before t s :
  runtime_inv r before s → runtime_inv r before (production_attach_committed_target c t s).2.
Proof.
  intros H. unfold production_attach_committed_target. run_st. destruct s as [s o].
  destruct (ok_or (tr_observed_target t) _) as [observed|]; [|done].
  destruct (reject_if _ _); [|done]. cbn [get_runtime modify_runtime].
  destruct H as [(Hr & Ha & Hl)|(Hr & Hl)]; cbn [fst snd] in Hr, Hl; rewrite Hr; cbn [ok_or];
    [|right; by cbn].
  cbn [fst] in Ha. unfold of_outside. cbn [event modify_st].
  set (e := Ev_Switching _ _ _ _ _). unfold event, modify_st.
  destruct (spawn_promoted_launches r (hc_working_directory c) (ot_thread_id observed)
              (record_event e o)) as (status & Hl' & Hres).
  destruct (spawn_promoted_supervised_generation _ _ _ _) as [res o'].
  cbn [fst snd] in Hl', Hres. rewrite launches_record in Hl'. cbn [launch_of e] in Hl'.
  rewrite app_nil_r, Hl in Hl'. subst res.
  destruct status as [status|]; cbn [ok_or modify_runtime]; right; (split; [done|]).
  - done.
  - cbn. by rewrite Ha.
Qed.

Lemma resume_inv r before e (k : ConvDisk) (s : RuntimeState) :
  runtime_inv r before s →
  runtime_inv r before (resume_handoff_once (HR := production_runtime c) e (k, s)).2.2.
Proof.
  apply (resume_preserves (HR := production_runtime c) (runtime_inv r before) e (k, s)); intros t s'.
  - done.
  - apply spares_inv, spares_capture.
  - apply spares_inv, spares_request_fork.
  - apply spares_inv, spares_reconcile.
  - apply attach_inv.
Qed.


(** What a handoff launches: nothing, or the generation of its reservation,
    once; on success, with the status it returns. *)
Definition handed_off (r : VerifiedTargetReservation) (before after : list (string * option ExitStatus))
    (status : option ExitStatus) : Prop :=
  match status with
  | Some st => after = before ++ [(profile_id (reservation_profile r), Some st)]
  | None => after = before ∨ ∃ st, after = before ++ [(profile_id (reservation_profile r), st)]
  end.

Lemma drive_once_inv r before k s o res k' s' o' :
  drive_once c (k, (s, o)) = (res, (k', (s', o'))) →
  runtime_inv r before (s, o) → runtime_inv r before (s', o').
Proof.
  unfold drive_once. intros H Hi.
  pose proof (calm_interference (E := CodexFailoverError) (k, o)) as Hq.
  destruct (interference (k, o)) as [u [k1 o1]]. cbn in Hq.
  destruct (resume_env (out_sys o1)) as [e sy].
  pose proof (resume_inv r before e k1 (s, with_sys sy o1)) as Hr.
  destruct (resume_handoff_once _ _) as [res' w]. injection H as _ ->. apply Hr.
  unfold runtime_inv in *. cbn in *. by rewrite <- Hq in Hi.
Qed.

Lemma drive_loop_spec r before n k s o res k' s' o' :
  runtime_inv r before (s, o) → drive_loop c n (k, (s, o)) = (res, (k', (s', o'))) →
  match res with
  | Ok x => handed_off r before (launches o') (Some (hx_status x)) ∧ hx_profile x = hc_target c
  | Err _ => handed_off r before (launches o') None
  end.
Proof.
  assert (Hnone : ∀ s o, runtime_inv r before (s, o) → handed_off r before (launches o) None).
  { intros s1 o1 [(_ & _ & H)|(_ & H)]; cbn in *; [by left|right; by eexists]. }
  revert k s o. induction n as [|n IH]; intros k s o Hi; cbn [drive_loop].
  { intros [= <- _ _ <-]. by eapply Hnone. }
  cbv [mbind stM_bind]. destruct (drive_once c (k, (s, o))) as [[step|e] [k1 [s1 o1]]] eqn:Ho;
    apply (drive_once_inv r before) in Ho; try done.
  2:{ intros [= <- _ _ <-]. by eapply Hnone. }
  destruct step as [p|reason|head].
  - by apply IH.
  - intros [= <- _ _ <-]. by eapply Hnone.
  - unfold take_attached_status. destruct (pr_attached_status s1) as [status|] eqn:Hst; cbn [ok_or].
    + intros [= <- _ _ <-]. split; [|done]. destruct Ho as [(_ & Ha & _)|(_ & Hl)]; cbn in *; [congruence|].
      by rewrite Hl, Hst.
    + intros [= <- _ _ <-]. by eapply Hnone.
Qed.

Lemma drive_handoff_spec r rollout k o res k' o' :
  drive_handoff c (new_runtime r rollout) (k, o) = (res, (k', o')) →
  match res with
  | Ok x => handed_off r (launches o) (launches o') (Some (hx_status x)) ∧ hx_profile x = hc_target c
  | Err _ => handed_off r (launches o) (launches o') None
  end.
Proof.
  unfold drive_handoff.
  destruct (drive_loop c _ _) as [res1 [k1 [s1 o1]]] eqn:Hd. intros [= <- _ <-].
  eapply drive_loop_spec; [|done]. by left.
Qed.
End runtime.

Lemma execute_handoff_spec definitions cwd head rollout thread settings sel k o res k' o' :
  execute_handoff definitions cwd head rollout thread settings sel (k, o) = (res, (k', o')) →
  match res with
  | Ok x =>
      launches o' = launches o ++ [(profile_id (hs_target sel), Some (hx_status x))] ∧
      hx_profile x = hs_target sel
  | Err _ =>
      launches o' = launches o ∨
      ∃ st, launches o' = launches o ++ [(profile_id (hs_target sel), st)]
  end.
Proof.
  unfold execute_handoff. run_st.
  destruct (reject_if _ _) as [[]|] eqn:Hg; [|intros [= <- _ <-]; by left].
  apply reject_if_Ok, orb_false_iff in Hg as [_ Hid%negb_false_iff%String.eqb_eq].
  unfold outside, ask. destruct (resume_env (out_sys o)) as [e sy]. cbn beta iota.
  destruct (prepare_codex_handoff _ _ _ _ _ _ _ _) as [[t|] k1]; cbn [map_err]; [|intros [= <- _ <-]; by left].
  destruct (enabled_pool_for_source _ _ _ _) as [pool|]; cbn [map_err]; [|intros [= <- _ <-]; by left].
  intros H%drive_handoff_spec. rewrite Hid. change (launches (with_sys sy o)) with (launches o) in H.
  by destruct res.
Qed.

(** ** The selection of a target *)

Definition selection_out (s : SelectionState) : Outside := (ss_world s).2.

Lemma calm_in_outside {E A} (m : stM Outside E A) : still m → calm selection_out (in_outside m).
Proof.
  intros H s. unfold in_outside, in_world, outside, selection_out. destruct (ss_world s) as [k o].
  specialize (H o). by destruct (m o).
Qed.

Lemma calm_cached_usage pid : calm selection_out (codex_cached_usage pid).
Proof. unfold codex_cached_usage. repeat first [apply calm_in_outside | progress calm]. Qed.
Lemma calm_reserve pid : calm selection_out (codex_reserve_and_revalidate pid).
Proof.
  unfold codex_reserve_and_revalidate, revalidate_candidate.
  repeat first [apply calm_in_outside | progress calm].
Qed.

(** A reservation is one of the registered profile it was asked for. *)
Lemma reserved_found pid s cand s' :
  codex_reserve_and_revalidate pid s = (Ok (Ready cand), s') →
  ∃ y p y', find_by_id pid y = (Ok p, y').
Proof.
  unfold codex_reserve_and_revalidate.
  intros (p & s1 & H & _)%stM_bind_Ok. unfold in_outside, in_world, outside, call in H.
  destruct (ss_world s) as [k o]. destruct (find_by_id pid (out_sys o)) as [[p'|e] y'] eqn:Hf; [|done].
  by exists (out_sys o), p', y'.
Qed.

Section target.
Context (cwd : Path) (rv : Revalidated) (source : CodexHandoffThreadRead * CodexRolloutHandoff).
Context (cooldown : gset string).

#[local] Instance target_runtime : SelectionRuntime :=
  codex_selection_runtime (rv_definitions rv) cwd (rv_head rv) (hr_settings (fst source)).

(** A profile that may be launched now. *)
Definition fresh_target (id : string) : Prop :=
  id ∈ ep_profile_ids (rv_pool rv) ∧ id ∉ cooldown ∧ id ≠ profile_id (rv_profile rv) ∧
  ∃ y p y', find_by_id id y = (Ok p, y').

Lemma eligible_fresh sel :
  eligible (rv_pool rv) (rv_profile rv) cooldown sel → fresh_target (profile_id (hs_target sel)).
Proof.
  intros (H1 & H2 & H3 & _ & s & cand & s' & H4). split_and!; try done.
  exact (reserved_found _ _ _ _ H4).
Qed.

Lemma codex_handoff_spec sel s r s' :
  codex_handoff (rv_definitions rv) cwd (rv_head rv) (hr_settings (fst source)) sel s = (r, s') →
  match r with
  | Ok _ => ∃ st thread_id,
      launches (selection_out s') = launches (selection_out s) ++ [(profile_id (hs_target sel), Some st)] ∧
      ss_attached_status s' = Some st ∧ ss_attached_profile s' = Some (hs_target sel) ∧
      ss_attached_thread s' = Some thread_id
  | Err _ =>
      launches (selection_out s') = launches (selection_out s) ∨
      ∃ st, launches (selection_out s') = launches (selection_out s) ++ [(profile_id (hs_target sel), st)]
  end.
Proof.
  unfold codex_handoff, mapping, in_world. run_st.
  destruct (ss_source_rollout s) as [rollout|]; cbn [ok_or]; [|intros [= <- <-]; by left].
  destruct (ss_source_thread s) as [thread|]; cbn [ok_or]; [|intros [= <- <-]; by left].
  cbn [take_thread take_source ss_world]. unfold selection_out. destruct (ss_world s) as [k o].
  destruct (execute_handoff _ _ _ _ _ _ _ _) as [x [k' o']] eqn:Hx. apply execute_handoff_spec in Hx.
  destruct x as [x|e]; cbn [map_err]; intros [= <- <-]; cbn in *.
  - destruct Hx as [-> Hp]. exists (hx_status x), (hx_thread_id x). by rewrite Hp.
  - done.
Qed.

Lemma select_target_spec k o r k' o' :
  select_target cwd rv source cooldown (k, o) = (r, (k', o')) →
  match r with
  | Ok (Selected _, s) => ∃ p st thread_id, fresh_target (profile_id p) ∧
      launches o' = launches o ++ [(profile_id p, Some st)] ∧
      ss_attached_status s = Some st ∧ ss_attached_profile s = Some p ∧
      ss_attached_thread s = Some thread_id
  | Ok _ => launches o' = launches o
  | Err _ => launches o' = launches o ∨
      ∃ id st, fresh_target id ∧ launches o' = launches o ++ [(id, st)]
  end.
Proof.
  unfold select_target.
  set (start := mkSelectionState (k, o) _ _ _ _ _).
  destruct (select_once _ _ _ _ _ _) as [res s] eqn:Hs. intros [= <- Hw].
  set (L := launches o).
  apply (select_once_rule (SR := target_runtime) _ _ _ _ _
    (fun s : SelectionState => launches (selection_out s) = L)
    (fun sel (s : SelectionState) => ∃ st thread_id, launches (selection_out s) = L ++ [(profile_id (hs_target sel), Some st)] ∧
      ss_attached_status s = Some st ∧ ss_attached_profile s = Some (hs_target sel) ∧
      ss_attached_thread s = Some thread_id)
    (fun s : SelectionState => launches (selection_out s) = L ∨
      ∃ id st, fresh_target id ∧ launches (selection_out s) = L ++ [(id, st)])) in Hs; [| | | | |done].
  - assert (launches (selection_out s) = launches o') as Ho by (unfold selection_out; by rewrite Hw).
    destruct res as [[n|stop|stop|stop|stop]|e]; cbn in *; rewrite Ho in Hs; try done.
    destruct Hs as (sel & He & st & thread_id & H1 & H2 & H3 & H4).
    exists (hs_target sel), st, thread_id. split_and!; try done. by apply eligible_fresh.
  - intros pid s1 <-. apply calm_cached_usage.
  - intros pid s1 <-. apply calm_reserve.
  - intros sel s1 H1 He. destruct (handoff sel s1) as [[g|e] s2] eqn:Hh; apply codex_handoff_spec in Hh;
      rewrite H1 in Hh; [done|]. destruct Hh as [Hh|(st & Hh)]; [by left|right].
    exists (profile_id (hs_target sel)), st. split; [|done]. by apply eligible_fresh.
  - intros s1 H1. by left.
Qed.
End target.

(** ** One turn *)

Abbreviation run := (string * option ExitStatus)%type.

Definition registered (id : string) : Prop := ∃ y p y', find_by_id id y = (Ok p, y').
Definition ended_exhausted (x : run) : Prop := ∃ st, x.2 = Some st ∧ exhausted_exit st = true.

(** A profile a turn may hand over to. *)
Definition successor (iv : Invocation) (id : string) : Prop :=
  id ∉ iv_cooldown iv ∧ id ≠ profile_id (iv_profile iv) ∧ registered id.

Lemma calm_read_definitions : calm snd read_definitions.
Proof. unfold read_definitions. calm. Qed.

Lemma calm_revalidate_source cwd pool_id iv : calm snd (revalidate_source cwd pool_id iv).
Proof. unfold revalidate_source. repeat first [apply calm_read_definitions | progress calm]. Qed.

Lemma revalidated_profile cwd pool_id iv w rv w' :
  revalidate_source cwd pool_id iv w = (Ok rv, w') → rv_profile rv = iv_profile iv.
Proof.
  unfold revalidate_source. intros H.
  do 3 (apply stM_bind_Ok in H as (? & ? & _ & H)).
  apply stM_bind_Ok in H as (? & ? & [Hc ->]%lift_result_Ok & H).
  apply reject_if_Ok, negb_false_iff, bool_decide_eq_true_1 in Hc as <-.
  repeat (apply stM_bind_Ok in H as (? & ? & _ & H)). by injection H as <- _.
Qed.

Lemma after_completion_spec cwd pool_id iv status k o r k' o' :
  after_completion cwd pool_id iv status (k, o) = (r, (k', o')) →
  match r with
  | Ok (Finished st) =>
      (st = status ∧ exhausted_exit status = false ∧ launches o' = launches o) ∨
      (exhausted_exit status = true ∧ exhausted_exit st = false ∧
       ∃ id, successor iv id ∧ launches o' = launches o ++ [(id, Some st)])
  | Ok (Again next) =>
      exhausted_exit status = true ∧ ∃ st, exhausted_exit st = true ∧
        let id := profile_id (iv_profile next) in
        successor iv id ∧ launches o' = launches o ++ [(id, Some st)] ∧
        iv_completed next = Some st ∧ iv_cooldown next = {[id]} ∪ iv_cooldown iv
  | Err _ =>
      exhausted_exit status = true ∧
      (launches o' = launches o ∨
       ∃ id st, successor iv id ∧ launches o' = launches o ++ [(id, st)])
  end.
Proof.
  unfold after_completion. destruct (exhausted_exit status) eqn:Hst; cbn [negb].
  2:{ intros [= <- _ <-]. by left. }
  cbv [mbind stM_bind].
  pose proof (calm_revalidate_source cwd pool_id iv (k, o)) as Hq1.
  destruct (revalidate_source _ _ _ _) as [[rv|e] [k1 o1]] eqn:Hrv; cbn [snd] in Hq1.
  2:{ intros [= <- _ <-]. split; [done|by left]. }
  apply revalidated_profile in Hrv.
  pose proof (calm_outside _ (still_read_source (rv_profile rv) (rv_home rv) cwd (iv_thread_id iv)
    (hb_codex_version (rv_head rv))) (k1, o1)) as Hq2.
  destruct (outside _ _) as [[source|e] [k2 o2]]; cbn [snd] in Hq2.
  2:{ intros [= <- _ <-]. split; [done|]. left. congruence. }
  destruct (select_target _ _ _ _ _) as [selected [k3 o3]] eqn:Hsel. apply select_target_spec in Hsel.
  rewrite Hq2, Hq1 in Hsel.
  assert (Hfresh : ∀ id, fresh_target rv (iv_cooldown iv) id → successor iv id).
  { intros id (_ & H1 & H2 & H3). rewrite Hrv in H2. by split_and!. }
  destruct selected as [[outcome s]|e].
  2:{ intros [= <- _ <-]. split; [done|]. destruct Hsel as [?|(id & st & Hf & Hl)]; [by left|right].
      exists id, st. split; [by apply Hfresh|done]. }
  destruct outcome as [n|stop|stop|stop|stop]; cbn [stop_kind].
  2-5: (unfold outside, event, modify_st, throw; intros [= <- _ <-]; split; [done|left];
        by rewrite launches_record, app_nil_r).
  destruct Hsel as (p & st & thread_id & Hf & Hl & -> & -> & ->). cbn [ok_or lift_result].
  destruct (exhausted_exit st) eqn:Hx; cbn [negb]; intros [= <- _ <-].
  - split; [done|]. exists st. split_and!; try done. by apply Hfresh.
  - right. split_and!; try done. exists (profile_id p). split; [by apply Hfresh|done].
Qed.

Lemma spawn_launches profile cwd thread_id o :
  ∃ status, launches (spawn_supervised_generation profile cwd thread_id o).2
    = launches o ++ [(profile_id profile, status)] ∧
    (spawn_supervised_generation profile cwd thread_id o).1 = ok_or status Fo_Spawn.
Proof.
  unfold spawn_supervised_generation, ask. run_st.
  destruct (spawn_supervised_exact_resume _ _ _ _) as [status sy]. exists status.
  split; [|done].
  match goal with |- launches ?x.2 = _ => change (launches (record_event
    (Ev_Launched (profile_id profile) thread_id status) (with_sys sy o)) =
    launches o ++ [(profile_id profile, status)]) end.
  by rewrite launches_record.
Qed.

(** A turn is the completion of its generation, launched first if it has not
    run yet. *)
Lemma failover_turn_cases cwd pool_id iv k o r k' o' :
  failover_turn cwd pool_id iv (k, o) = (r, (k', o')) →
  (iv_completed iv = None ∧ (∃ e, r = Err e) ∧
   launches o' = launches o ++ [(profile_id (iv_profile iv), None)]) ∨
  ∃ status k1 o1, after_completion cwd pool_id iv status (k1, o1) = (r, (k', o')) ∧
    (iv_completed iv = Some status ∧ launches o1 = launches o ∨
     iv_completed iv = None ∧ launches o1 = launches o ++ [(profile_id (iv_profile iv), Some status)]).
Proof.
  unfold failover_turn. destruct (iv_completed iv) as [status|].
  { cbv [mbind stM_bind mret stM_ret]. intros H. right. exists status, k, o. split; [done|by left]. }
  cbv [mbind stM_bind]. unfold attempt, outside.
  destruct (spawn_launches (iv_profile iv) cwd (iv_thread_id iv) o) as (status & Hl & Hr).
  destruct (spawn_supervised_generation _ _ _ _) as [res o1]. cbn [fst snd] in Hl, Hr.
  pose proof (calm_interference (E := CodexFailoverError) (k, o1)) as Hq.
  destruct (interference (k, o1)) as [u [k2 o2]] eqn:Hi. cbn [snd] in Hq. rewrite Hl in Hq.
  assert (u = Ok ()) as ->.
  { revert Hi. unfold interference. destruct (others _ _). by intros [= <- _ _]. }
  subst res. destruct status as [status|]; cbn [ok_or lift_result].
  - intros H. right. exists status, k2, o2. split; [done|by right].
  - intros [= <- _ <-]. left. split_and!; [done|by eexists|done].
Qed.

(** ** The loop *)

(** The generations of an invocation, in the order they ran: every one but the
    last ended exhausted, no profile runs a second time and none that the
    cooldown already holds takes over, and a result is the status of the last. *)
Record relay (cooldown : gset string) (runs : list run) (r : result CodexFailoverError ExitStatus)
    : Prop := {
  rl_once : NoDup (tail runs).*1;
  rl_cooldown : ∀ id, id ∈ (tail runs).*1 → id ∉ cooldown;
  rl_registered : ∀ id, id ∈ (tail runs).*1 → registered id;
  rl_apart : ∀ x y rest, runs = x :: y :: rest → x.1 ≠ y.1;
  rl_exhausted : ∀ x y before rest, runs = before ++ x :: y :: rest → ended_exhausted x;
  rl_result : ∀ st, r = Ok st →
    exhausted_exit st = false ∧ ∃ before id, runs = before ++ [(id, Some st)];
}.

(** The runs of an invocation that has already completed its first generation
    start with that one. *)
Definition all_runs (iv : Invocation) (runs : list run) : list run :=
  match iv_completed iv with
  | Some st => (profile_id (iv_profile iv), Some st) :: runs
  | None => runs
  end.

Lemma relay_one cooldown x (r : result CodexFailoverError ExitStatus) :
  (∀ st, r = Ok st → exhausted_exit st = false ∧ x.2 = Some st) → relay cooldown [x] r.
Proof.
  intros Hr. split; cbn.
  - constructor.
  - by intros id ?%elem_of_nil.
  - by intros id ?%elem_of_nil.
  - intros ? ? ? [=].
  - intros y z before rest H. apply (f_equal length) in H. rewrite length_app in H. cbn in H. lia.
  - intros st Hst. destruct (Hr st Hst) as [Hx He]. split; [done|]. exists [], x.1. cbn.
    by rewrite <- He; destruct x.
Qed.

Lemma relay_cons cooldown x y rest (r : result CodexFailoverError ExitStatus) :
  ended_exhausted x → x.1 ≠ y.1 → y.1 ∉ cooldown → registered y.1 →
  relay ({[y.1]} ∪ cooldown) (y :: rest) r → relay cooldown (x :: y :: rest) r.
Proof.
  intros Hx Hne Hc Hreg []. cbn in *. split; cbn.
  - constructor; [|done]. intros Hin. destruct (rl_cooldown0 _ Hin). set_solver.
  - intros id [->|Hin]%elem_of_cons; [done|]. pose proof (rl_cooldown0 _ Hin). set_solver.
  - intros id [->|Hin]%elem_of_cons; [done|]. by apply rl_registered0.
  - by intros ? ? ? [= <- <- _].
  - intros a b [|c before] rest' H; cbn in H; [by injection H as <- _ _|].
    injection H as _ H. by eapply rl_exhausted0.
  - intros st Hst. destruct (rl_result0 st Hst) as [? (before & id & H)]. split; [done|].
    exists (x :: before), id. cbn. by rewrite H.
Qed.

Lemma relay_two cooldown x y (r : result CodexFailoverError ExitStatus) :
  ended_exhausted x → x.1 ≠ y.1 → y.1 ∉ cooldown → registered y.1 →
  (∀ st, r = Ok st → exhausted_exit st = false ∧ y.2 = Some st) → relay cooldown [x; y] r.
Proof. intros. apply relay_cons; try done. by apply relay_one. Qed.

Lemma failover_loop_relay fuel cwd pool_id iv k o r k' o' :
  failover_loop fuel cwd pool_id iv (k, o) = Some (r, (k', o')) →
  ∃ runs, launches o' = launches o ++ runs ∧ relay (iv_cooldown iv) (all_runs iv runs) r ∧
    match all_runs iv runs with x :: _ => x.1 = profile_id (iv_profile iv) | [] => False end.
Proof.
  revert iv k o. induction fuel as [|fuel IH]; intros iv k o; [done|]. cbn [failover_loop].
  destruct (failover_turn cwd pool_id iv (k, o)) as [res [k1 o1]] eqn:Ht.
  apply failover_turn_cases in Ht as [(Hc & [e ->] & Hl)|(status & k0 & o0 & Ht & Hstart)].
  { intros [= <- _ <-]. eexists. split; [done|]. unfold all_runs. rewrite Hc.
    split; [|done]. by apply relay_one. }
  (* what ran before the completion that is looked at *)
  assert (∃ runs0, launches o0 = launches o ++ runs0 ∧
    ∀ runs, all_runs iv (runs0 ++ runs) = (profile_id (iv_profile iv), Some status) :: runs)
    as (runs0 & Hl0 & Hall).
  { destruct Hstart as [[Hc Hl]|[Hc Hl]]; unfold all_runs; rewrite Hc;
      [exists []; by rewrite app_nil_r|by exists [(profile_id (iv_profile iv), Some status)]]. }
  clear Hstart. apply after_completion_spec in Ht. rewrite Hl0, <- ?app_assoc in Ht.
  assert (Hex : exhausted_exit status = true →
    ended_exhausted (profile_id (iv_profile iv), Some status)) by (intros; by exists status).
  destruct res as [[st|next]|e].
  - intros [= <- _ <-]. destruct Ht as [(-> & Hx & Hl)|(Hx & Hnx & id & (H1 & H2 & H3) & Hl)].
    + exists (runs0 ++ []). rewrite app_nil_r at 1. split; [done|]. rewrite Hall. split; [|done].
      apply relay_one. by intros ? [= <-].
    + exists (runs0 ++ [(id, Some st)]). rewrite Hall. split; [by rewrite Hl, <- app_assoc|].
      split; [|done]. apply relay_two; cbn; auto. by intros ? [= <-].
  - destruct Ht as (Hx & st & Hxs & (H1 & H2 & H3) & Hl & Hc & Hcd).
    intros (runs & Hr & Hrel & _)%IH. exists (runs0 ++ (profile_id (iv_profile next), Some st) :: runs).
    rewrite Hr, Hl, Hall, <- !app_assoc. split; [done|]. split; [|done].
    unfold all_runs in Hrel. rewrite Hc, Hcd in Hrel. apply relay_cons; cbn; auto.
  - intros [= <- _ <-]. destruct Ht as (Hx & [Hl|(id & st & (H1 & H2 & H3) & Hl)]).
    + exists (runs0 ++ []). rewrite app_nil_r at 1. split; [done|]. rewrite Hall. split; [|done].
      by apply relay_one.
    + exists (runs0 ++ [(id, st)]). rewrite Hall. split; [by rewrite Hl, <- app_assoc|].
      split; [|done]. by apply relay_two; cbn; auto.
Qed.

(** Every turn that goes on takes a registered profile out of the rest. *)
Lemma failover_loop_ends (M : gset string) fuel cwd pool_id iv k o :
  (∀ id, registered id → id ∈ M) → (size (M ∖ iv_cooldown iv) < fuel)%nat →
  failover_loop fuel cwd pool_id iv (k, o) ≠ None.
Proof.
  intros HM. revert iv k o. induction fuel as [|fuel IH]; intros iv k o Hf; [lia|].
  cbn [failover_loop]. destruct (failover_turn cwd pool_id iv (k, o)) as [res [k1 o1]] eqn:Ht.
  destruct res as [[st|next]|e]; try done.
  apply failover_turn_cases in Ht as [(_ & [e [=]] & _)|(status & k0 & o0 & Ht & _)].
  apply after_completion_spec in Ht as (_ & st & _ & (H1 & _ & H3) & _ & _ & Hc).
  apply IH. rewrite Hc. set (id := profile_id (iv_profile next)) in *.
  assert (size (M ∖ ({[id]} ∪ iv_cooldown iv)) < size (M ∖ iv_cooldown iv))%nat; [|lia].
  apply subset_size. split; [set_solver|]. intros Hsub. specialize (Hsub id). apply HM in H3. set_solver.
Qed.

(** ** The start *)

(** A calm step: the computation ends in its error, or goes on after it. *)
Lemma calm_step {A B} (m : stM FWorld CodexFailoverError A) (f : A → stM FWorld CodexFailoverError B)
    k o r k' o' :
  calm snd m → (m ≫= f) (k, o) = (r, (k', o')) →
  (∃ e, r = Err e ∧ launches o' = launches o) ∨
  ∃ a k1 o1, m (k, o) = (Ok a, (k1, o1)) ∧ f a (k1, o1) = (r, (k', o')) ∧ launches o1 = launches o.
Proof.
  intros Hm H. specialize (Hm (k, o)). cbv [mbind stM_bind] in H.
  destruct (m (k, o)) as [[a|e] [k1 o1]]; cbn [snd] in Hm; [right; by exists a, k1, o1|left].
  injection H as <- _ <-. by exists e.
Qed.

Ltac calm_step H :=
  apply calm_step in H;
    [destruct H as [(? & -> & ?Hl)|(? & ? & ? & ?Hm & H & ?Hl)]
    |by repeat first [apply still_read_source | apply calm_read_definitions | progress calm]].

(** What the recovery of a handoff launches: at most its target. *)
Lemma recover_handoff_spec `{FL : !FailoverSystemLaws} definitions cwd pool_id t head k o r k' o' :
  recover_handoff definitions cwd pool_id t head (k, o) = (r, (k', o')) →
  match r with
  | Ok x => launches o' = launches o ++ [(profile_id (hx_profile x), Some (hx_status x))]
  | Err _ => launches o' = launches o ∨ ∃ id st, launches o' = launches o ++ [(id, st)]
  end.
Proof.
  unfold recover_handoff. intros H.
  unfold reserve_recovery_target in H.
  repeat (calm_step H; [left; congruence|]). apply drive_handoff_spec in H.
  match goal with R : outside (call Fo_Profile (reserve_verified_codex_target _ _)) _ = _ |- _ =>
    unfold outside, call in R; revert R end.
  destruct (reserve_verified_codex_target _ _ _) as [[rv|e] y] eqn:Hr; [|done].
  apply reserve_id in Hr. cbn [map_err]. intros [= <- _ _].
  replace (launches o) with (launches x28) by congruence.
  destruct r as [res|]; cbn in H.
  - destruct H as [-> ->]. cbn. by rewrite Hr.
  - destruct H as [?|[st ?]]; [by left|right]. by eexists _, st.
Qed.

(** A recovered handoff left its target's generation as the last one. *)
Lemma recover_handoff_left `{JL : !JsonRoundTrip ConversationDocument document_in_range}
    definitions cwd pool_id t head k o x k' o' :
  recover_handoff definitions cwd pool_id t head (k, o) = (Ok x, (k', o')) →
  ∃ h d, hb_conversation_id h = hx_conversation_id x ∧ stored k' = Some d ∧
    bound_to (profile_id (hx_profile x)) h d.
Proof.
  unfold recover_handoff. intros H. repeat (apply stM_bind_Ok in H as (? & [? ?] & _ & H)).
  apply drive_handoff_left in H as [-> (h & Hh & d & Hd & Hb)]. by exists h, d.
Qed.

(** What the loop starts from. *)
Lemma first_invocation_spec `{FL : !FailoverSystemLaws}
    `{JL : !JsonRoundTrip ConversationDocument document_in_range} definitions profile cwd thread_id pool_id
    k o r k' o' :
  first_invocation definitions profile cwd thread_id pool_id (k, o) = (r, (k', o')) →
  match r with
  | Ok iv =>
      profile_id (iv_profile iv) ∈ iv_cooldown iv ∧
      match iv_completed iv with
      | None => iv_profile iv = profile ∧ launches o' = launches o
      | Some st => launches o' = launches o ++ [(profile_id (iv_profile iv), Some st)]
      end
  | Err _ => launches o' = launches o ∨ ∃ id st, launches o' = launches o ++ [(id, st)]
  end.
Proof.
  unfold first_invocation. intros H. calm_step H; [left; congruence|].
  destruct x as [[t head]|].
  - do 3 (calm_step H; [left; congruence|]).
    apply stM_bind_inv in H.
    replace (launches o) with (launches x9) by congruence. clear Hl Hl0 Hl1 Hl2.
    destruct H as [(a & [k2 o2] & Hr & H)|(e & Hr & ->)]; [|by apply recover_handoff_spec in Hr].
    apply recover_handoff_left in Hr as Hleft. apply recover_handoff_spec in Hr.
    do 2 (calm_step H; [right; exists (profile_id (hx_profile a)), (Some (hx_status a)); congruence|]).
    injection H as <- _ <-. cbn. split; [|congruence].
    destruct Hleft as (h & d & Hh & Hd & Hb).
    match goal with E : outside (event _) _ = (Ok _, (?k3, _)) |- _ => assert (k3 = k2) as -> by by injection E end.
    match goal with E : journal _ _ _ = (Ok ?ids, _) |- ?p ∈ ?ids =>
      destruct (journal_read_Ok _ _ _ _ _ _ _ _ E) as [_ (u & d' & _ & Hd' & Hids)] end.
    rewrite Hd in Hd'. injection Hd' as <-. rewrite <- Hh in Hids. by eapply bound_in_lineage.
  - calm_step H; [left; congruence|]. calm_step H; [left; congruence|].
    calm_step H; [left; congruence|]. calm_step H; [left; congruence|].
    injection H as <- _ <-. cbn. split; [|split; [done|congruence]].
    destruct (journal_read_Ok _ _ _ _ _ _ _ _ Hm1) as [Hs1 (u1 & d1 & _ & Hd1 & Hhead)].
    destruct (journal_read_Ok _ _ _ _ _ _ _ _ Hm3) as [_ (u2 & d2 & _ & Hd2 & Hids)].
    apply lift_result_Ok in Hm2 as [Hx Hm2]. simplify_eq.
    unfold require_exact_head in Hx. apply reject_if_Ok in Hx.
    rewrite !orb_false_iff, !negb_false_iff in Hx. destruct Hx as [[<-%String.eqb_eq _] _].
    rewrite Hs1, Hd1 in Hd2. injection Hd2 as <-. by eapply head_in_lineage.
Qed.

Lemma prepare_invocation_spec `{FL : !FailoverSystemLaws}
    `{JL : !JsonRoundTrip ConversationDocument document_in_range} profile cwd thread_id provider pool k o r k' o' :
  prepare_invocation profile cwd thread_id provider pool (k, o) = (r, (k', o')) →
  match r with
  | Ok (_, iv) =>
      profile_id (iv_profile iv) ∈ iv_cooldown iv ∧
      match iv_completed iv with
      | None => iv_profile iv = profile ∧ launches o' = launches o
      | Some st => launches o' = launches o ++ [(profile_id (iv_profile iv), Some st)]
      end
  | Err _ => launches o' = launches o ∨ ∃ id st, launches o' = launches o ++ [(id, st)]
  end.
Proof.
  unfold prepare_invocation. intros H.
  do 2 (calm_step H; [left; congruence|]).
  apply stM_bind_inv in H as [(iv & [k2 o2] & Hf & H)|(e & Hf & ->)]; apply first_invocation_spec in Hf;
    rewrite Hl0, Hl in Hf; [|done]. by injection H as <- _ <-.
Qed.

(** C30. An invocation runs its generations one after the other and no profile
    twice. Before the loop starts at most one generation was launched, the
    recovered one, and none is launched after an error there. Every generation
    but the last ended in the usage-exhaustion status before its successor was
    launched; a successor is another profile, found in the profile registry and
    outside the cooldown the invocation started with; a result is the status of
    the last generation, which is not the exhaustion status. The first
    generation is of the profile the loop starts with, which the cooldown holds
    from the beginning: the profile that was asked for when the conversation's
    head was ready, the target of the handoff when one was recovered. In both
    cases all the generations of the invocation, the recovered one included,
    are of different profiles. *)
Theorem failover_once_each `{FL : !FailoverSystemLaws}
    `{JL : !JsonRoundTrip ConversationDocument document_in_range}
    fuel profile cwd thread_id provider pool k o r k' o' :
  resume_supervised_with_failover fuel profile cwd thread_id provider pool (k, o) = Some (r, (k', o')) →
  ∃ runs, launches o' = launches o ++ runs ∧ NoDup runs.*1 ∧
    match (prepare_invocation profile cwd thread_id provider pool (k, o)).1 with
    | Err e => r = Err e ∧ (length runs ≤ 1)%nat
    | Ok (_, iv) =>
        relay (iv_cooldown iv) runs r ∧ fst <$> head runs = Some (profile_id (iv_profile iv)) ∧
        profile_id (iv_profile iv) ∈ iv_cooldown iv ∧ (iv_completed iv = None → iv_profile iv = profile)
    end.
Proof.
  unfold resume_supervised_with_failover.
  destruct (prepare_invocation _ _ _ _ _ _) as [res [k1 o1]] eqn:Hp.
  apply prepare_invocation_spec in Hp. destruct res as [[pool_id iv]|e]; cbn [fst].
  - destruct Hp as [Hc Hp]. intros (runs & Hl & Hrel & Hhd)%failover_loop_relay. exists (all_runs iv runs).
    assert (launches o' = launches o ++ all_runs iv runs) as Hall.
    { rewrite Hl. unfold all_runs. destruct (iv_completed iv); [by rewrite Hp, <- app_assoc|].
      by destruct Hp as [_ ->]. }
    split; [done|]. clear Hall Hl. destruct (all_runs iv runs) as [|x rest]; [done|]. cbn.
    split; [|split_and!; [done|by rewrite Hhd|done|]].
    + destruct Hrel as [Hnd Hcd _ _ _ _]. cbn in *. constructor; [|done].
      rewrite Hhd. intros Hin. by apply (Hcd _ Hin).
    + intros Hn. rewrite Hn in Hp. by destruct Hp.
  - intros [= <- _ <-]. destruct Hp as [Hp|(id & st & Hp)].
    + exists []. rewrite app_nil_r. split_and!; [done|constructor|done|cbn; lia].
    + exists [(id, st)]. split_and!; [done|apply NoDup_singleton|done|cbn; lia].
Qed.

(** C31. The failover ends: with a turn for every registered profile and one
    more, an invocation returns. Every turn that goes on moves a registered
    profile into the cooldown. *)
Theorem failover_terminates (M : gset string) fuel profile cwd thread_id provider pool w :
  (∀ id, registered id → id ∈ M) → (size M < fuel)%nat →
  resume_supervised_with_failover fuel profile cwd thread_id provider pool w ≠ None.
Proof.
  intros HM Hf. unfold resume_supervised_with_failover.
  destruct (prepare_invocation _ _ _ _ _ _) as [[[pool_id iv]|e] [k1 o1]]; [|done].
  apply (failover_loop_ends M); [done|]. eapply Nat.le_lt_trans; [|exact Hf].
  apply subseteq_size. set_solver.
Qed.
End failover.
