(* ===== verification/HandoffBaseline.v ===== *)
(** * Failover: the baseline of a target

    The production runtime hands the journal the ids of the target's threads in
    the order in which the target listed them, which is that of their last
    update; the journal only takes a baseline in the order of the ids. *)
From Stdlib Require Import Sorting.Sorted.
From S2P Require Import Prelude Interfaces CoordinatorTerminal Profiles Storage RoutingDefs.
From S2P Require Import RoutingStore UsageCache Selection ConversationData ConversationOps.
From S2P Require Import ConversationStore ConversationDisk ConversationProofs ConversationHandoff.
From S2P Require Import HandoffTransaction HandoffReconcile CodexLines AppServer.
From S2P Require Import ThreadSettings FailoverSystem HandoffClient HandoffClientProofs Failover.

Open Scope Z_scope.

Section baseline.
Context {UC : UuidCrate} {SC : Sha256Crate} {JC : JsonCodec ConversationDocument}.
Context {JO : JsonCodec CacheDocument} {JR : JsonCodec Definitions}.
Context {JS : JsonCrate} {JT : JsonThreads} {FS : FailoverSystem}.
Context (c : HandoffConstants).

Lemma validate_thread_baseline_sorted l :
  validate_thread_baseline l = Ok () → StronglySorted str_lt_rel l.
Proof.
  intros H. unfold validate_thread_baseline in H. inv_ok.
  apply (adjacent_Ok validate_uuid (fun p x => str_le x p)) in H as [_ H]. cbn in H.
  apply Sorted_StronglySorted; [exact str_lt_rel_trans|].
  clear Hok. induction H as [|x l' Hs IH Hh]; constructor; [done|].
  destruct Hh; constructor. by apply str_le_false.
Qed.

(** C34. A target whose threads are not listed in the order of their ids cannot
    be handed over to: once the baseline is captured, the step of the driver
    ends in an error of the journal before anything is recorded or forked, and
    the journal stays as it was. *)
Theorem unsorted_baseline_blocks_handoff e t k (s s' : RuntimeState) baseline :
  production_capture_target_baseline c t s = (Ok baseline, s') →
  ¬ StronglySorted str_lt_rel baseline →
  ∃ error, resume_with (HR := production_runtime c) e t CaptureTargetBaselineAndFork (k, s) =
    (Err (He_Journal error), (k, s')).
Proof.
  intros Hc Hs. unfold resume_with. cbv [mbind stM_bind]. unfold on_runtime at 1.
  cbn [capture_target_baseline production_runtime]. rewrite Hc. cbn [map_err].
  unfold on_journal, record_fork_intent. cbv [mbind stM_bind lift_result].
  destruct (check_fork_intent (tr_transition_id t) baseline) as [[]|error] eqn:Hf; [|by exists error].
  destruct Hs. unfold check_fork_intent in Hf. inv_ok. by apply validate_thread_baseline_sorted in Hf.
Qed.

End baseline.
