(* ===== verification/FailoverExamples.v ===== *)
(** * Failover: a concrete invocation

    The thread of [ConversationExample] runs under the first profile of the
    pool of [RoutingExample] until its usage is exhausted, is handed over to the
    second profile, and ends there. The app servers are scripts; the journal,
    the handoff driver, the selection and the projections of the app servers
    are the real definitions. *)
From Stdlib Require Import Ascii Sorting.Sorted.
From S2P Require Import Prelude Interfaces CoordinatorTerminal Profiles Storage RoutingDefs RoutingProofs.
From S2P Require Import RoutingStore UsageCache Selection ConversationData ConversationOps.
From S2P Require Import ConversationStore ConversationDisk ConversationCodec ConversationExamples.
From S2P Require Import HandoffTransaction HandoffEffects HandoffExamples CodexLines AppServer.
From S2P Require Import AppServerProofs AppServerExamples ThreadSettings FailoverSystem HandoffClient.
From S2P Require Import Failover FailoverLoop HandoffClientProofs FailoverProofs HandoffBaseline.

Open Scope Z_scope.

Module FailoverExample.
Import ConversationExample.
Abbreviation json := AppServerExample.json.
Abbreviation JNull := AppServerExample.JNull.
Abbreviation JNum := AppServerExample.JNum.
Abbreviation JStr := AppServerExample.JStr.
Abbreviation JArr := AppServerExample.JArr.
Abbreviation JObj := AppServerExample.JObj.
Abbreviation member := AppServerExample.member.
Abbreviation text := AppServerExample.text.
Abbreviation number := AppServerExample.number.
Abbreviation reply := AppServerExample.reply.
Abbreviation said := AppServerExample.said.

(** ** The documents of the app servers

    A truth value is the number 0 or 1 here. *)
Definition settings (rest : list (string * json)) : json :=
  JObj ([("cwd", JStr "/work"); ("model", JStr "m"); ("modelProvider", JStr "p");
         ("approvalPolicy", JStr "on-request"); ("approvalsReviewer", JStr "user");
         ("sandbox", JObj [("type", JStr "readOnly"); ("networkAccess", JNum 0)])] ++ rest).
Definition greeting (home : string) : json :=
  JObj [("userAgent", JStr "calcifer/0.144.4 (x)"); ("codexHome", JStr home)].
Definition entry (id : string) : json :=
  JObj [("id", JStr id); ("ephemeral", JNum 0); ("updatedAt", JNum 7);
        ("cliVersion", JStr "0.144.4"); ("source", JStr "cli"); ("cwd", JStr "/work")].
Definition documents : list (string * json) :=
  [("hello 1", reply 0 (greeting "/home1")); ("hello 2", reply 0 (greeting "/home2"));
   ("exhausted", reply 1 (JObj [("reached", JStr "rate_limit_reached")]));
   ("available", reply 1 (JObj [("used", JNum 10)]));
   ("thread", reply 1 (settings [("thread", JObj [("id", JStr (id "7"))])]));
   ("list", reply 1 (JObj [("data", JArr [entry (id "8")]); ("nextCursor", JNull)]));
   ("unsorted", reply 1 (JObj [("data", JArr [entry (id "9"); entry (id "8")])]));
   ("forked", reply 1 (settings [("thread", JObj [("id", JStr (id "9"))])]));
   ("meta", JObj [("type", JStr "session_meta");
                  ("payload", JObj [("id", JStr (id "7")); ("cwd", JStr "/work");
                                    ("cli_version", JStr "0.144.4"); ("source", JStr "cli")])])].

#[export] Instance crate : JsonCrate := {|
  value := json;
  from_str s := snd <$> find_first (fun d => String.eqb d.1 s) documents;
  is_object := AppServerExample.object;
  get := member;
  keys v := match v with AppServerExample.JObj l => fst <$> l | _ => [] end;
  as_str := text;
  as_i64 := number;
  as_u64 v := n ← number v; if 0 <=? n then Some n else None;
  as_bool v := n ← number v; Some (n =? 1);
  as_array v := match v with AppServerExample.JArr l => Some l | _ => None end;
  is_null v := match v with AppServerExample.JNull => true | _ => false end;
  wire_initialize v :=
    agent ← member v "userAgent" ≫= text;
    home ← member v "codexHome" ≫= text;
    Some (mkWireInitializeResult agent home "unix" "linux");
  wire_rate_limits v :=
    Some (mkWireRateLimitsResult
      (mkWireRateLimitSnapshot (Some "codex") None None (member v "reached" ≫= text)
         ((fun used => mkWireRateLimitWindow used (Some 300) None) <$> (member v "used" ≫= number))
         None None None) None None);
|}.
#[export] Instance threads : JsonThreads := {|
  wire_thread_list _ := None;
  wire_thread_read v :=
    id ← member v "thread" ≫= (fun t => member t "id" ≫= text);
    Some (@mkWireThread crate id None false 7 None (Utf8 "/work") "0.144.4" (JStr "cli") (Some (Utf8 "a")));
|}.

(** ** The app servers, in the order they are started

    From the tenth on, those of an invocation that recovers. *)

Definition server (lines : list string) : AppServerProcess :=
  mkAppServerProcess (said 1 <$> lines) [true; true; true] [].
Definition script (list : string) (n : nat) : AppServerProcess :=
  server match n with
  | 0%nat => ["hello 1"; "exhausted"]
  | 1%nat | 10%nat => ["hello 1"; "thread"]
  | 2%nat => ["hello 2"; "available"]
  | 3%nat | 11%nat => ["hello 2"; list]
  | _ => ["hello 2"; "forked"]
  end.
Definition client (p : AppServerProcess) : ClientEnv := {|
  ce_executable_absolute := true;
  ce_deadline := Some 9;
  ce_spawn := Ok p;
  ce_canonicalize := Some;
  ce_is_dir _ := true;
  ce_rollout_path _ _ :=
    Ok (false, Utf8 "/home1/sessions/2026/rollout-7.jsonl", Utf8 "2026/rollout-7.jsonl",
        AppServerExample.fingerprint 1);
  ce_snapshot_before := Err Te_Missing;
  ce_snapshot_after := Err Te_Missing;
  ce_open_rollout _ := Ok [Fb_Data (AppServerExample.file ["meta"])];
  ce_shutdown_deadline := Some 9;
  ce_shutdown_clean := true;
|}.

(** ** The system: a clock and the number of app servers started so far *)

Definition profile_of (pid : string) : option Profile :=
  find_first (fun p => String.eqb (profile_id p) pid)
    [mkProfile (id "1") "one" Codex 0; mkProfile (id "2") "two" Codex 0].
Definition home_of (p : Profile) : Path :=
  Utf8 (if String.eqb (profile_id p) (id "1") then "/home1" else "/home2").
Definition fingerprint (inode : Z) : CodexHandoffFingerprint :=
  mkCodexHandoffFingerprint 1 inode 120 33152 501 501 1 1700000000 0 1700000000 0 (repeat 18 32).
Definition source_rollout : CodexRolloutHandoff :=
  mkCodexRolloutHandoff (id "1") (id "7") "0.144.4" (Utf8 "/work") (Utf8 "2026/rollout-7.jsonl")
    (fingerprint 11).
Definition forked_rollout : ValidatedForkRollout :=
  mkValidatedForkRollout (id "2") (id "9") (Utf8 "/work") (Utf8 "2026/rollout-9.jsonl")
    (fingerprint 12).

Definition tick (s : Z * nat) : Z * nat := (s.1 + 1, s.2).
Definition silent {S A E} (a : A) (s : S) : result E A * S := (Ok a, s).

(** [list] is what the target lists before the fork. *)
Definition system (list : string) : FailoverSystem := {|
  sys := Z * nat;
  now s := (Some s.1, tick s);
  journal_host s := (host [], s);
  resume_env s :=
    (mkResumeEnv _ (host []) HandoffExample.lock HandoffExample.lock (Some true) Tl_Acquired
       (host []) (host []) (env "b" s.1), tick s);
  store_faults s := (no_faults, s);
  canonical_path p s := (Some (mkCanonicalPath true (to_str p)), s);
  client_env _ s := (client (script list s.2), (s.1, S s.2));
  await_answer := tick;
  find_by_id pid s := (ok_or (profile_of pid) PE_NotFound, s);
  lock_profile _ := silent ();
  refetch_by_id_under_lease pid s := (ok_or (profile_of pid) PE_NotFound, s);
  source_lock_for_probe := silent ();
  profile_home p := silent (home_of p);
  neutral_working_directory := silent ();
  VerifiedTargetReservation := Profile;
  reservation_profile p := p;
  provider_lock_for_probe _ := silent ();
  reserve_verified_codex_target p _ := silent p;
  RolloutImport := CodexRolloutHandoff;
  mint_profile_rollout_handoff _ _ := silent source_rollout;
  begin_import r := silent r;
  import_source_path _ := Utf8 "/home1/sessions/2026/rollout-7.jsonl";
  finish_import r := silent r;
  validate_handoff_fork_result _ _ _ := silent forked_rollout;
  validate_handoff_inventory_candidate _ _ _ _ _ := silent forked_rollout;
  spawn_supervised_exact_resume _ _ _ s := (Some (Es_Code 75), s);
  spawn_supervised_exact_resume_with_reservation _ _ _ s := (Some (Es_Code 0), s);
  others d s := (d, s);
|}.

(** The observation cache, here one that forgets. *)
#[export] Instance cache : JsonCodec CacheDocument :=
  {| to_vec _ := Some []; from_slice _ := Some default_cache |}.
#[export] Instance routing : JsonCodec Definitions := RoutingExample.codec_instance.

Definition registry_file : option bytes :=
  match to_json (RoutingExample.registry RoutingDefs.Enabled 4) with Ok b => Some b | Err _ => None end.
Definition start (list : string) : @FWorld _ _ (system list) :=
  (disk 1, @mkOutside _ _ (system list) (mkDisk true true None None) (mkDisk true true registry_file None)
             (200, 0%nat) []).
Definition invocation (list : string) :=
  resume_supervised_with_failover (FS := system list) 3 (mkProfile (id "1") "one" Codex 0)
    (Utf8 "/work") (id "7") (Some Codex) "main" (start list).

(** ** The invocation *)

Lemma pair_of {A B} (x : A * B) a : x.1 = a → x = (a, x.2).
Proof. by destruct x; intros [= ->]. Qed.

#[export] Instance laws list : @FailoverSystemLaws _ _ (system list).
Proof.
  split; [|by intros p f s r s' [= -> _]].
  intros pid s p s'. change ((ok_or (profile_of pid) PE_NotFound, s) = (Ok p, s') → profile_id p = pid).
  destruct (profile_of pid) as [q|] eqn:Hf; [|done]. intros [= <- _].
  by apply find_first_Some in Hf as [_ ?%String.eqb_eq].
Qed.

Abbreviation asked := (mkProfile (id "1") "one" Codex 0).
Definition final (list : string) : @FWorld _ _ (system list) :=
  default (start list) (snd <$> invocation list).
Definition succeeds (r : option (result CodexFailoverError ExitStatus * @FWorld _ _ (system "list"))) : bool :=
  match r with Some (Ok (Es_Code 0), _) => true | _ => false end.
Lemma succeeded : succeeds (invocation "list") = true.
Proof. vm_compute. reflexivity. Qed.
Lemma handed_over : invocation "list" = Some (Ok (Es_Code 0), ((final "list").1, (final "list").2)).
Proof.
  unfold final. pose proof succeeded as H. destruct (invocation "list") as [[[[[]|]|] [k o]]|]; done.
Qed.
Lemma both_ran :
  launches (FS := system "list") (final "list").2
  = [(id "1", Some (Es_Code 75)); (id "2", Some (Es_Code 0))].
Proof. vm_compute. reflexivity. Qed.
Lemma failover_once_each_witness :
  NoDup (launches (FS := system "list") (final "list").2).*1.
Proof.
  destruct (failover_once_each (FS := system "list") (FL := laws "list") (JL := codec_laws) 3 asked
    (Utf8 "/work") (id "7") (Some Codex) "main"
    (start "list").1 (start "list").2 _ _ _ handed_over) as (runs & Hl & Hnd & _).
  rewrite Hl. exact Hnd.
Defined.

Lemma registered_ids pid : registered (FS := system "list") pid → pid ∈ ({[id "1"; id "2"]} : gset string).
Proof.
  intros (y & p & y' & H). change ((ok_or (profile_of pid) PE_NotFound, y) = (Ok p, y')) in H.
  destruct (profile_of pid) as [q|] eqn:Hf; [|done].
  apply find_first_Some in Hf as [Hin <-%String.eqb_eq]. set_unfold. destruct Hin as [->|[->|[]]]; auto.
Qed.

Lemma two_ids : (size ({[id "1"; id "2"]} : gset string) < 3)%nat.
Proof. apply Nat.ltb_lt. vm_compute. reflexivity. Qed.

Lemma failover_terminates_witness : invocation "list" ≠ None.
Proof.
  exact (failover_terminates (FS := system "list") {[id "1"; id "2"]} 3 asked (Utf8 "/work") (id "7")
    (Some Codex) "main" (start "list") registered_ids two_ids).
Defined.
(** ** The conversations with the target *)

Abbreviation target := (mkProfile (id "2") "two" Codex 0).
Definition asked_of (p : AppServerProcess) (requests : list Request) : AppServerProcess :=
  mkAppServerProcess [] (drop (length requests) (ap_writes p)) requests.

Lemma listed :
  handoff_inventory (client (script "list" 3)) (Utf8 "/home2") (Utf8 "/work")
  = (Ok [entry (id "8")],
     Some (asked_of (script "list" 3)
             [Rq_Initialize true; Rq_Initialized; Rq_ThreadList 1 None false "/work"])).
Proof. vm_compute. reflexivity. Qed.

Lemma handoff_inventory_complete_witness :
  ∃ p q deadline cwd pages, listing_evidence (client (script "list" 3)) (Utf8 "/home2") cwd deadline p q
    [entry (id "8")] pages.
Proof.
  destruct (handoff_inventory_complete (client (script "list" 3)) _ _ _ _ listed)
    as (p & q & deadline & cwd & pages & _ & _ & _ & _ & H).
  exists p, q, deadline, cwd, pages. exact H.
Defined.

Definition effective : EffectiveThreadSettings :=
  mkEffectiveThreadSettings "/work" "m" "p" OnRequest User ReadOnly Restricted.
Definition before (clients : nat) : @Outside _ _ (system "list") :=
  @mkOutside _ _ (system "list") (mkDisk true true None None) (mkDisk true true None None) (200, clients) [].
Definition fork := fork_handoff_rollout (FS := system "list") target (Utf8 "/work") source_rollout effective.
Lemma forked : fork (before 4) = (Ok (source_rollout, forked_rollout), (fork (before 4)).2).
Proof. apply pair_of. vm_compute. reflexivity. Qed.

Lemma fork_exact_witness :
  ∃ home env deadline p q s import params v,
    fork_evidence (FS := system "list") env target home (Utf8 "/work") source_rollout effective deadline p q
      s (out_sys (fork (before 4)).2) source_rollout forked_rollout import params v.
Proof.
  destruct (fork_exact (FS := system "list") _ _ _ _ _ _ _ _ forked)
    as (home & env & deadline & p & q & import & params & v & s1 & s2 & _ & _ & _ & _ & _ & H & _).
  exists home, env, deadline, p, q, s2, import, params, v. exact H.
Defined.

(** ** A target that lists its threads by their last update *)

Definition constants : HandoffConstants :=
  mkHandoffConstants (Utf8 "/work") target asked
    (mkCodexThreadRead "0.144.4" (AppServerExample.metadata (id "7") "a" 1) Clean) effective "main" "team"
    RevalidatedUsageLimit.
Definition transition : HandoffTransition :=
  mkHandoffTransition (id "b") (id "a") 0 1 (id "1") (id "2") "/work" (id "d") ConfirmedUsageExhaustion
    (rollout 11 "2026/rollout-7.jsonl") Hp_SourceStopped [] 0 None None 200 200.
Definition runtime : RuntimeState (FS := system "unsorted") :=
  (new_runtime (FS := system "unsorted") target source_rollout,
   @mkOutside _ _ (system "unsorted") (mkDisk true true None None) (mkDisk true true None None) (200, 3%nat) []).
Abbreviation captured := (production_capture_target_baseline (FS := system "unsorted") constants transition runtime).
Lemma captured_unsorted : captured = (Ok [id "9"; id "8"], captured.2).
Proof. apply pair_of. vm_compute. reflexivity. Qed.
Lemma not_sorted : ¬ StronglySorted str_lt_rel [id "9"; id "8"].
Proof. intros H%strictly_sorted_strings_spec. revert H. vm_compute. discriminate. Qed.
Definition environment : ResumeEnv := (resume_env (FailoverSystem := system "unsorted") (200, 3%nat)).1.

Lemma unsorted_baseline_blocks_handoff_witness :
  ∃ error, resume_with (HR := production_runtime (FS := system "unsorted") constants) environment transition
    CaptureTargetBaselineAndFork (disk 4, runtime) = (Err (He_Journal error), (disk 4, captured.2)).
Proof.
  exact (unsorted_baseline_blocks_handoff (FS := system "unsorted") constants environment transition (disk 4)
    runtime _ _ captured_unsorted not_sorted).
Defined.

(** The whole invocation fails then, and the handoff stays where it is. *)
Definition phase_of (k : ConvDisk) : option HandoffPhase :=
  d ← match (load (host []) k).1 with Ok d => Some d | Err _ => None end;
  tr_phase <$> cd_active_transition d.
Definition phase_left (list : string) : option HandoffPhase := phase_of (final list).1.
Example unsorted_stays : phase_left "unsorted" = Some Hp_SourceStopped ∧ phase_left "list" = None.
Proof. vm_compute. by split. Qed.

(** A later invocation recovers it: the target is launched, and only it. *)
Definition interrupted : @FWorld _ _ (system "list") :=
  ((final "unsorted").1,
   @mkOutside _ _ (system "list") (mkDisk true true None None) (mkDisk true true registry_file None)
     (400, 10%nat) []).
Definition recovery :=
  resume_supervised_with_failover (FS := system "list") 3 asked (Utf8 "/work") (id "7") (Some Codex) "main"
    interrupted.
Example recovered_once :
  match recovery with
  | Some (Ok (Es_Code 0), (_, o)) =>
      launches (FS := system "list") o = [(id "2", Some (Es_Code 0))]
      ∧ existsb (fun e => match e with Ev_Recovered 1 _ => true | _ => false end) (out_events o) = true
  | _ => False
  end.
Proof. vm_compute. by split. Qed.
End FailoverExample.
