(* ===== verification/UniqueJson.v ===== *)
(** * JSON without duplicate keys (src/providers/codex/json.rs)

    The visitor behind [decode_unique_json], over the syntax tree the JSON
    parser drives it with. [unique_json_exact]: it accepts exactly the texts
    none of whose objects, at any depth, names a key twice, and changes
    nothing else. *)
From S2P Require Import Prelude Interfaces AppServer.

(** What the parser reports to a visitor: a call of [visit_*] per value, the
    items of a sequence and the entries of a map in the order of the text. *)
Inductive Raw (F : Type) :=
| RUnit
| RBool (b : bool)
| RI64 (n : Z)
| RU64 (n : Z)
| RF64 (x : F)
| RStr (s : string)
| RSeq (items : list (Raw F))
| RMap (entries : list (string * Raw F)).
Arguments RUnit {F}.
Arguments RBool {F} b.
Arguments RI64 {F} n.
Arguments RU64 {F} n.
Arguments RF64 {F} x.
Arguments RStr {F} s.
Arguments RSeq {F} items.
Arguments RMap {F} entries.

(** The parser ([serde_json::from_slice] up to the visitor) and the
    constructors of [serde_json::Value]; an object is built by the insertion of
    its entries in turn. *)
Class JsonSyntax `{JS : JsonCrate} := {
  f64 : Type;
  parse_slice : bytes → option (Raw f64);
  json_null : value;
  json_bool : bool → value;
  json_i64 : Z → value;
  json_u64 : Z → value;
  json_f64 : f64 → option value;
  json_string : string → value;
  json_array : list value → value;
  json_object : list (string * value) → value;
}.

Section visitor.
Context {JS : JsonCrate} {JX : JsonSyntax}.

(** [object.contains_key(&key)]. *)
Definition has_entry (key : string) (object : list (string * value)) : bool :=
  existsb (fun entry => String.eqb key (fst entry)) object.

Fixpoint visit (raw : Raw f64) : option value :=
  match raw with
  | RUnit => Some json_null
  | RBool b => Some (json_bool b)
  | RI64 n => Some (json_i64 n)
  | RU64 n => Some (json_u64 n)
  | RF64 x => json_f64 x
  | RStr s => Some (json_string s)
  | RSeq items =>
      (fix visit_seq (items : list (Raw f64)) (values : list value) : option value :=
         match items with
         | [] => Some (json_array values)
         | item :: items => v ← visit item; visit_seq items (values ++ [v])
         end) items []
  | RMap entries =>
      (fix visit_map (entries : list (string * Raw f64)) (object : list (string * value)) : option value :=
         match entries with
         | [] => Some (json_object object)
         | (key, item) :: entries =>
             if has_entry key object then None
             else v ← visit item; visit_map entries (object ++ [(key, v)])
         end) entries []
  end.

Definition decode_unique_json (b : bytes) : option value := parse_slice b ≫= visit.

(** ** The reference: the same tree, when no key is repeated *)

Fixpoint unique (raw : Raw f64) : Prop :=
  match raw with
  | RSeq items =>
      (fix all (items : list (Raw f64)) : Prop :=
         match items with [] => True | item :: items => unique item ∧ all items end) items
  | RMap entries =>
      NoDup (fst <$> entries) ∧
      (fix all (entries : list (string * Raw f64)) : Prop :=
         match entries with [] => True | (_, item) :: entries => unique item ∧ all entries end) entries
  | _ => True
  end.

(** The value of a tree, repeated keys or not; [None] for a number that is not
    finite. *)
Fixpoint plain (raw : Raw f64) : option value :=
  match raw with
  | RUnit => Some json_null
  | RBool b => Some (json_bool b)
  | RI64 n => Some (json_i64 n)
  | RU64 n => Some (json_u64 n)
  | RF64 x => json_f64 x
  | RStr s => Some (json_string s)
  | RSeq items => json_array <$> mapM plain items
  | RMap entries => json_object <$> mapM (fun '(key, item) => pair key <$> plain item) entries
  end.

(** Induction through the items and the entries. *)
Lemma Raw_nested_ind (P : Raw f64 → Prop) :
  P RUnit → (∀ b, P (RBool b)) → (∀ n, P (RI64 n)) → (∀ n, P (RU64 n)) → (∀ x, P (RF64 x)) →
  (∀ s, P (RStr s)) → (∀ items, Forall P items → P (RSeq items)) →
  (∀ entries, Forall (λ e, P (snd e)) entries → P (RMap entries)) → ∀ raw, P raw.
Proof.
  intros H1 H2 H3 H4 H5 H6 Hseq Hmap. fix IH 1. intros [|b|n|n|x|s|items|entries];
    [exact H1|apply H2|apply H3|apply H4|apply H5|apply H6| |].
  - apply Hseq. induction items as [|i items IHi]; constructor; [apply IH|apply IHi].
  - apply Hmap. induction entries as [|[k i] entries IHi]; constructor; [apply IH|apply IHi].
Qed.

Lemma has_entry_false key object : has_entry key object = false ↔ key ∉ fst <$> object.
Proof.
  unfold has_entry. rewrite existsb_false. rewrite list_elem_of_fmap. split.
  - intros H (e & -> & He). specialize (H e He). by rewrite String.eqb_refl in H.
  - intros H e He. apply String.eqb_neq. intros ->. apply H. by exists e.
Qed.

(** The visitor of a tree, with the entries read so far. *)
Lemma visit_items items values :
  Forall (λ raw, ∀ v, visit raw = Some v ↔ unique raw ∧ plain raw = Some v) items →
  ∀ v, (fix visit_seq (items : list (Raw f64)) (values : list value) : option value :=
          match items with
          | [] => Some (json_array values)
          | item :: items => v ← visit item; visit_seq items (values ++ [v])
          end) items values = Some v ↔
       unique (RSeq items) ∧ ∃ more, mapM plain items = Some more ∧ json_array (values ++ more) = v.
Proof.
  intros Hall. revert values. induction Hall as [|item items Hi _ IH]; intros values v.
  - split; [intros [= <-]|intros [_ (more & [= <-] & <-)]]; [|by rewrite app_nil_r].
    split; [done|]. exists []. by rewrite app_nil_r.
  - rewrite bind_Some. cbn [unique mapM]. setoid_rewrite IH. setoid_rewrite Hi. split.
    + intros (x & [Hu Hx] & Hus & more & Hm & <-). split; [done|]. exists (x :: more).
      cbn in Hm. rewrite Hx. cbn. rewrite Hm. cbn. by rewrite <- app_assoc.
    + intros [[Hu Hus] (more & Hm & <-)]. destruct (plain item) as [x|] eqn:Hx; [|done]. cbn in Hm.
      destruct (mapM plain items) as [more'|] eqn:Hm'; [|done]. injection Hm as <-.
      exists x. split; [done|]. split; [done|]. exists more'. split; [done|]. by rewrite <- app_assoc.
Qed.
Lemma visit_entries entries object :
  Forall (λ e, ∀ v, visit (snd e) = Some v ↔ unique (snd e) ∧ plain (snd e) = Some v) entries →
  NoDup (fst <$> object) →
  ∀ v, (fix visit_map (entries : list (string * Raw f64)) (object : list (string * value)) : option value :=
         match entries with
         | [] => Some (json_object object)
         | (key, item) :: entries =>
             if has_entry key object then None
             else v ← visit item; visit_map entries (object ++ [(key, v)])
         end) entries object = Some v ↔
       NoDup ((fst <$> object) ++ (fst <$> entries)) ∧ unique (RMap entries) ∧
       ∃ more, mapM (λ '(key, item), pair key <$> plain item) entries = Some more ∧ json_object (object ++ more) = v.
Proof.
  intros Hall. revert object. induction Hall as [|[key item] entries Hi _ IH]; intros object Hnd v.
  - cbn. rewrite app_nil_r. split.
    + intros [= <-]. split_and!; [done|constructor|done|]. exists []. by rewrite app_nil_r.
    + intros (_ & _ & more & [= <-] & <-). by rewrite app_nil_r.
  - destruct (has_entry key object) eqn:Hk.
    + split; [done|]. intros (Hd & _). apply Bool.not_false_iff_true in Hk as []. apply has_entry_false.
      rewrite fmap_cons, NoDup_app in Hd. intros Hin. destruct Hd as (_ & Hd & _). apply (Hd key); set_solver.
    + apply has_entry_false in Hk. rewrite bind_Some.
      assert (Hadd : ∀ x, NoDup (fst <$> object ++ [(key, x)])).
      { intros x. rewrite fmap_app, NoDup_app. cbn. split_and!; [done|set_solver|apply NoDup_singleton]. }
      assert (Hkeys : ∀ x : value, (fst <$> object ++ [(key, x)]) ++ (fst <$> entries)
                      = (fst <$> object) ++ (fst <$> (key, item) :: entries)).
      { intros x. rewrite fmap_app, <- app_assoc. done. }
      cbn [snd] in Hi. cbn [mapM unique]. split.
      * intros (x & [Hu Hx]%Hi & (Hd & [_ Hus] & more & Hm & <-)%IH); [|apply Hadd].
        rewrite Hkeys in Hd. split; [done|]. split.
        { split; [by apply NoDup_app in Hd as (_ & _ & Hd)|done]. }
        exists ((key, x) :: more). rewrite Hx. cbn. rewrite Hm. cbn. by rewrite <- app_assoc.
      * intros (Hd & (Hnd' & Hu & Hus) & more & Hm & <-).
        destruct (plain item) as [x|] eqn:Hx; [|done]. cbn in Hm.
        destruct (mapM _ entries) as [more'|] eqn:Hm'; [|done]. injection Hm as <-.
        exists x. split; [by apply Hi|]. apply IH; [apply Hadd|]. rewrite Hkeys. split; [done|]. split.
        { split; [by apply NoDup_cons in Hnd' as []|done]. }
        exists more'. split; [done|]. by rewrite <- app_assoc.
Qed.

Lemma visit_exact raw v : visit raw = Some v ↔ unique raw ∧ plain raw = Some v.
Proof.
  revert v. induction raw as [| | | | | |items IH|entries IH] using Raw_nested_ind; intros v; try (cbn; tauto).
  - etransitivity; [apply (visit_items _ [] IH)|]. cbn [plain]. rewrite fmap_Some. split.
    + intros (Hu & more & Hm & <-). eauto.
    + intros (Hu & more & Hm & ->). eauto.
  - etransitivity; [apply (visit_entries _ [] IH); constructor|]. cbn [plain]. rewrite fmap_Some. split.
    + intros (_ & Hu & more & Hm & <-). eauto.
    + intros (Hu & more & Hm & ->). split; [by destruct Hu|]. split; [done|]. eauto.
Qed.

(** A text is accepted exactly when it parses, no object in it names a key
    twice and its numbers are finite; it then means what it says. *)
Theorem unique_json_exact b v :
  decode_unique_json b = Some v ↔
  ∃ raw, parse_slice b = Some raw ∧ unique raw ∧ plain raw = Some v.
Proof. unfold decode_unique_json. rewrite bind_Some. by setoid_rewrite visit_exact. Qed.
End visitor.
