(* ===== verification/ReadinessFrames.v ===== *)
(** * The readiness relay: handshakes and frames (src/providers/codex/remote.rs)

    What the relay between the official client and its app server reads from
    the bytes it passes on in one direction: the HTTP upgrade, then WebSocket
    frames, whose text messages are handed to an inspector. The inspector of
    the messages is in [ReadinessMessages]; here it is an argument. *)
From Stdlib Require Import Ascii.
From S2P Require Import Prelude Interfaces CodexLines.

Open Scope Z_scope.

Definition MAX_HANDSHAKE_BYTES : Z := 16 * 1024.
Definition MAX_MESSAGE_BYTES : Z := 1024 * 1024.
Definition MAX_FRAME_BUFFER_BYTES : Z := MAX_MESSAGE_BYTES + 14.

(** ** Directions and errors *)

Inductive Direction := ClientToServer | ServerToClient.
#[export] Instance Direction_eq_dec : EqDecision Direction.
Proof. solve_decision. Defined.

Inductive ReadinessTransportOrigin :=
| ClientConfigure | ClientClone | ClientEof | ClientRead | ClientWrite
| UpstreamClone | UpstreamEof | UpstreamRead | UpstreamWrite
| ObservationDelivery | ObservationChannelDisconnected | LifecycleDisconnected | WorkerFinished
| HealthClientPoll | HealthClientPeek | HealthClientEof
| HealthUpstreamPoll | HealthUpstreamPeek | HealthUpstreamEof.

Definition reader_eof_origin (d : Direction) : ReadinessTransportOrigin :=
  match d with ClientToServer => ClientEof | ServerToClient => UpstreamEof end.
Definition reader_error_origin (d : Direction) : ReadinessTransportOrigin :=
  match d with ClientToServer => ClientRead | ServerToClient => UpstreamRead end.
Definition writer_error_origin (d : Direction) : ReadinessTransportOrigin :=
  match d with ClientToServer => UpstreamWrite | ServerToClient => ClientWrite end.

Inductive ReadinessProxyError :=
| Rp_InvalidArgument | Rp_Bind | Rp_Accept | Rp_Connect | Rp_HandshakeTooLarge | Rp_InvalidHandshake
| Rp_FrameTooLarge | Rp_InvalidFrame | Rp_InvalidMessage | Rp_UnexpectedSequence | Rp_TargetMismatch
| Rp_Timeout | Rp_Transport (origin : ReadinessTransportOrigin) | Rp_Worker | Rp_Cleanup.

(** ** [str] on the bytes of a text *)

Definition text_bytes (s : string) : bytes := (fun c => Z.of_N (N_of_ascii c)) <$> str_bytes s.

Fixpoint starts_with (needle l : bytes) : bool :=
  match needle, l with
  | [], _ => true
  | n :: needle, b :: l => (n =? b) && starts_with needle l
  | _ :: _, [] => false
  end.
Definition ends_with (needle l : bytes) : bool := starts_with (rev needle) (rev l).

(** [split("\r\n")] and [split(',')]; [current] is the part being read, reversed. *)
Fixpoint split_crlf (current l : bytes) : list bytes :=
  match l with
  | 13 :: 10 :: l => rev current :: split_crlf [] l
  | b :: l => split_crlf (b :: current) l
  | [] => [rev current]
  end.
Fixpoint split_at (sep : Z) (current l : bytes) : list bytes :=
  match l with
  | [] => [rev current]
  | b :: l => if b =? sep then rev current :: split_at sep [] l else split_at sep (b :: current) l
  end.
Definition split_byte_once (sep : Z) (l : bytes) : option (bytes * bytes) :=
  i ← position (Z.eqb sep) l;
  Some (take i l, drop (S i) l).

Definition lower_byte (b : Z) : Z := if in_byte_range 65 90 b then b + 32 else b.
Definition eq_ignore_ascii_case (a b : bytes) : bool :=
  bool_decide (lower_byte <$> a = lower_byte <$> b).

(** The characters of the property White_Space, as they are encoded. *)
Definition WHITE_SPACE : list bytes :=
  [[9]; [10]; [11]; [12]; [13]; [32]; [194; 133]; [194; 160]; [225; 154; 128];
   [226; 128; 128]; [226; 128; 129]; [226; 128; 130]; [226; 128; 131]; [226; 128; 132];
   [226; 128; 133]; [226; 128; 134]; [226; 128; 135]; [226; 128; 136]; [226; 128; 137];
   [226; 128; 138]; [226; 128; 168]; [226; 128; 169]; [226; 128; 175]; [226; 129; 159];
   [227; 128; 128]].
(** Drops the characters of [space] from the front, at most [fuel] of them. *)
Fixpoint trim_front (space : list bytes) (fuel : nat) (l : bytes) : bytes :=
  match fuel with
  | O => l
  | S fuel =>
      match find_first (fun c => starts_with c l) space with
      | Some c => trim_front space fuel (drop (length c) l)
      | None => l
      end
  end.
(** [trim]. *)
Definition trim (l : bytes) : bytes :=
  let l := trim_front WHITE_SPACE (length l) l in
  rev (trim_front (@rev Z <$> WHITE_SPACE) (length l) (rev l)).

(** ** The handshake *)

Definition HEADER_END : bytes := [13; 10; 13; 10].

(** [windows(4).position(..)]: the first place the blank line starts at. *)
Fixpoint find_header_end (l : bytes) : option nat :=
  if starts_with HEADER_END l then Some 4%nat
  else match l with
  | [] => None
  | _ :: l => S <$> find_header_end l
  end.

Definition valid_first_line (direction : Direction) (line : bytes) : bool :=
  match direction with
  | ClientToServer => starts_with (text_bytes "GET ") line && ends_with (text_bytes " HTTP/1.1") line
  | ServerToClient => starts_with (text_bytes "HTTP/1.1 101 ") line
  end.

(** The body of the loop over the header lines: the two flags. *)
Definition header_line (flags : bool * bool) (line : bytes)
    : result ReadinessProxyError (bool * bool) :=
  match line with
  | [] => Ok flags
  | _ =>
      '(name, value) ← ok_or (split_byte_once 58 line) Rp_InvalidHandshake;
      let has_upgrade := fst flags
        || (eq_ignore_ascii_case name (text_bytes "upgrade")
            && eq_ignore_ascii_case (trim value) (text_bytes "websocket")) in
      let has_connection_upgrade := snd flags
        || (eq_ignore_ascii_case name (text_bytes "connection")
            && existsb (fun token => eq_ignore_ascii_case (trim token) (text_bytes "upgrade"))
                 (split_at 44 [] value)) in
      Ok (has_upgrade, has_connection_upgrade)
  end.

Definition validate_handshake (l : bytes) (direction : Direction) : result ReadinessProxyError () :=
  _ ← reject_if (negb (utf8_valid l)) Rp_InvalidHandshake;
  match split_crlf [] l with
  | [] => Err Rp_InvalidHandshake
  | first_line :: lines =>
      _ ← reject_if (negb (valid_first_line direction first_line)) Rp_InvalidHandshake;
      '(has_upgrade, has_connection_upgrade) ← fold_result header_line (false, false) lines;
      reject_if (negb (has_upgrade && has_connection_upgrade)) Rp_InvalidHandshake
  end.

(** ** Frame headers *)

Record DecodedFrameHeader := mkDecodedFrameHeader {
  fh_fin : bool;
  fh_opcode : Z;
  fh_header_bytes : Z;
  fh_payload_bytes : Z;
  fh_mask : option bytes;
}.

Definition byte_at (l : bytes) (i : nat) : Z := default 0 (l !! i).
(** [u16::from_be_bytes] and [u64::from_be_bytes]. *)
Definition from_be_bytes (l : bytes) : Z := foldl (fun n b => n * 256 + b) 0 l.

(** The payload length and the length of the header without the mask; [None]
    when there are too few bytes. *)
Definition decode_length (l : bytes) : result ReadinessProxyError (option (Z * nat)) :=
  let short_length := Z.land (byte_at l 1) 127 in
  if short_length <=? 125 then Ok (Some (short_length, 2%nat))
  else if short_length =? 126 then
    if len l <? 4 then Ok None
    else
      let length := from_be_bytes (take 2 (drop 2 l)) in
      _ ← reject_if (length <? 126) Rp_InvalidFrame;
      Ok (Some (length, 4%nat))
  else
    if len l <? 10 then Ok None
    else
      _ ← reject_if (negb (Z.land (byte_at l 2) 128 =? 0)) Rp_InvalidFrame;
      let length := from_be_bytes (take 8 (drop 2 l)) in
      _ ← reject_if (length <=? u16_max) Rp_InvalidFrame;
      Ok (Some (length, 10%nat)).

Definition decode_frame_header (l : bytes) (direction : Direction)
    : result ReadinessProxyError (option DecodedFrameHeader) :=
  if len l <? 2 then Ok None
  else
    let fin := negb (Z.land (byte_at l 0) 128 =? 0) in
    _ ← reject_if (negb (Z.land (byte_at l 0) 112 =? 0)) Rp_InvalidFrame;
    let opcode := Z.land (byte_at l 0) 15 in
    let masked := negb (Z.land (byte_at l 1) 128 =? 0) in
    _ ← reject_if (negb (Bool.eqb masked (bool_decide (direction = ClientToServer)))) Rp_InvalidFrame;
    lengths ← decode_length l;
    match lengths with
    | None => Ok None
    | Some (payload_length, header_bytes) =>
        let is_control := negb (Z.land opcode 8 =? 0) in
        _ ← reject_if (MAX_MESSAGE_BYTES <? payload_length) Rp_FrameTooLarge;
        _ ← reject_if (is_control && (negb fin || (125 <? payload_length))) Rp_InvalidFrame;
        if masked then
          if len l <? Z.of_nat header_bytes + 4 then Ok None
          else Ok (Some (mkDecodedFrameHeader fin opcode (Z.of_nat header_bytes + 4) payload_length
                           (Some (take 4 (drop header_bytes l)))))
        else Ok (Some (mkDecodedFrameHeader fin opcode (Z.of_nat header_bytes) payload_length None))
    end.

(** [*byte ^= mask[index % mask.len()]]. *)
Fixpoint unmask_from (mask : bytes) (index : nat) (payload : bytes) : bytes :=
  match payload with
  | [] => []
  | b :: payload => Z.lxor b (byte_at mask (index mod 4)) :: unmask_from mask (S index) payload
  end.
Definition unmask (mask : option bytes) (payload : bytes) : bytes :=
  match mask with Some mask => unmask_from mask 0 payload | None => payload end.

(** ** The decoder *)

Record FrameDecoder := mkFrameDecoder {
  fd_direction : Direction;
  fd_buffer : bytes;
  fd_fragmented_text : option bytes;
}.
Definition new_decoder (direction : Direction) : FrameDecoder := mkFrameDecoder direction [] None.
Definition set_buffer (b : bytes) (d : FrameDecoder) : FrameDecoder :=
  mkFrameDecoder (fd_direction d) b (fd_fragmented_text d).
Definition set_fragment (f : option bytes) (d : FrameDecoder) : FrameDecoder :=
  mkFrameDecoder (fd_direction d) (fd_buffer d) f.

Section decoder.
Context {Event : Type} (inspect_message : Direction → bytes → result ReadinessProxyError (list Event)).

(** The decoder behind a step, and the events it adds. *)
Abbreviation outcome := (result ReadinessProxyError (FrameDecoder * list Event)).

Definition consume_frame (d : FrameDecoder) (fin : bool) (opcode : Z) (payload : bytes) : outcome :=
  if opcode =? 0 then
    match fd_fragmented_text d with
    | None => Err Rp_InvalidFrame
    | Some fragment =>
        _ ← reject_if (MAX_MESSAGE_BYTES <? saturating_add_u u64_max (len fragment) (len payload))
              Rp_FrameTooLarge;
        if fin then
          events ← inspect_message (fd_direction d) (fragment ++ payload);
          Ok (set_fragment None d, events)
        else Ok (set_fragment (Some (fragment ++ payload)) d, [])
    end
  else if opcode =? 1 then
    match fd_fragmented_text d with
    | Some _ => Err Rp_InvalidFrame
    | None =>
        if fin then
          events ← inspect_message (fd_direction d) payload;
          Ok (d, events)
        else Ok (set_fragment (Some payload) d, [])
    end
  else if opcode =? 8 then Err (Rp_Transport (reader_eof_origin (fd_direction d)))
  else if (opcode =? 9) || (opcode =? 10) then Ok (d, [])
  else Err Rp_InvalidFrame.

(** The checks of a header against the message in progress. *)
Definition check_frame (d : FrameDecoder) (frame : DecodedFrameHeader)
    : result ReadinessProxyError () :=
  match fd_fragmented_text d with
  | Some fragment =>
      if fh_opcode frame =? 0 then
        reject_if (MAX_MESSAGE_BYTES <? saturating_add_u u64_max (len fragment) (fh_payload_bytes frame))
          Rp_FrameTooLarge
      else reject_if (fh_opcode frame =? 1) Rp_InvalidFrame
  | None => reject_if (fh_opcode frame =? 0) Rp_InvalidFrame
  end.

(** One turn of the loop over the buffer: [None] when the next frame is not
    complete. *)
Definition next_frame (d : FrameDecoder)
    : result ReadinessProxyError (option (FrameDecoder * list Event)) :=
  header ← decode_frame_header (fd_buffer d) (fd_direction d);
  match header with
  | None => Ok None
  | Some frame =>
      _ ← check_frame d frame;
      frame_end ← ok_or (checked_add_u u64_max (fh_header_bytes frame) (fh_payload_bytes frame))
                    Rp_FrameTooLarge;
      if len (fd_buffer d) <? frame_end then Ok None
      else
        let payload := unmask (fh_mask frame)
          (drop (Z.to_nat (fh_header_bytes frame)) (take (Z.to_nat frame_end) (fd_buffer d))) in
        consumed ← consume_frame (set_buffer (drop (Z.to_nat frame_end) (fd_buffer d)) d)
                     (fh_fin frame) (fh_opcode frame) payload;
        Ok (Some consumed)
  end.

(** The loop; [fuel] bounds the number of frames. *)
Fixpoint consume_loop (fuel : nat) (d : FrameDecoder) (events : list Event) : outcome :=
  match fuel with
  | O => Ok (d, events)
  | S fuel =>
      frame ← next_frame d;
      match frame with
      | None => Ok (d, events)
      | Some (d, more) => consume_loop fuel d (events ++ more)
      end
  end.
(** A frame has at least two bytes: this fuel is enough. *)
Definition consume_buffered_frames (d : FrameDecoder) (events : list Event) : outcome :=
  consume_loop (S (length (fd_buffer d))) d events.

(** The loop of [feed]; [fuel] bounds its turns. *)
Fixpoint feed_loop (fuel : nat) (d : FrameDecoder) (l : bytes) (events : list Event) : outcome :=
  match fuel with
  | O => Ok (d, events)
  | S fuel =>
      '(d, events) ← consume_buffered_frames d events;
      match l with
      | [] => Ok (d, events)
      | _ =>
          _ ← reject_if (MAX_FRAME_BUFFER_BYTES <? len (fd_buffer d)) Rp_FrameTooLarge;
          let available := MAX_FRAME_BUFFER_BYTES - len (fd_buffer d) in
          _ ← reject_if (available =? 0) Rp_FrameTooLarge;
          let count := Z.to_nat (Z.min (len l) available) in
          feed_loop fuel (set_buffer (fd_buffer d ++ take count l) d) (drop count l) events
      end
  end.
(** Every turn but the last takes a byte: this fuel is enough. *)
Definition feed_frames (d : FrameDecoder) (l : bytes) (events : list Event) : outcome :=
  feed_loop (S (length l)) d l events.

(** ** The inspector of one direction *)

Record ProtocolInspector := mkProtocolInspector {
  pi_direction : Direction;
  pi_handshake : bytes;
  pi_handshake_complete : bool;
  pi_frames : FrameDecoder;
}.
Definition new_inspector (direction : Direction) : ProtocolInspector :=
  mkProtocolInspector direction [] false (new_decoder direction).
Definition set_frames (d : FrameDecoder) (p : ProtocolInspector) : ProtocolInspector :=
  mkProtocolInspector (pi_direction p) (pi_handshake p) (pi_handshake_complete p) d.
Definition set_handshake (l : bytes) (p : ProtocolInspector) : ProtocolInspector :=
  mkProtocolInspector (pi_direction p) l (pi_handshake_complete p) (pi_frames p).
Definition complete_handshake (p : ProtocolInspector) : ProtocolInspector :=
  mkProtocolInspector (pi_direction p) [] true (pi_frames p).

Context (handshake_event : Direction → Event).

Definition feed (p : ProtocolInspector) (l : bytes)
    : result ReadinessProxyError (ProtocolInspector * list Event) :=
  if pi_handshake_complete p then
    '(d, events) ← feed_frames (pi_frames p) l [];
    Ok (set_frames d p, events)
  else
    let available := saturating_sub_u MAX_HANDSHAKE_BYTES (len (pi_handshake p)) in
    let stored := Z.to_nat (Z.min (len l) available) in
    let handshake := pi_handshake p ++ take stored l in
    match find_header_end handshake with
    | None =>
        _ ← reject_if (negb (Z.of_nat stored =? len l) || (len handshake =? MAX_HANDSHAKE_BYTES))
              Rp_HandshakeTooLarge;
        Ok (set_handshake handshake p, [])
    | Some header_end =>
        _ ← reject_if (MAX_HANDSHAKE_BYTES <? Z.of_nat header_end) Rp_HandshakeTooLarge;
        _ ← validate_handshake (take header_end handshake) (pi_direction p);
        let remainder := drop header_end handshake in
        '(d, events) ← feed_frames (pi_frames p) remainder [handshake_event (pi_direction p)];
        '(d, events) ← feed_frames d (drop stored l) events;
        Ok (set_frames d (complete_handshake p), events)
    end.
End decoder.
