(* ===== verification/ReadinessChunks.v ===== *)
(** * The readiness relay: the inspection of a stream

    [inspection_chunking]: what is read from one direction depends on its
    bytes, not on how they arrive. [inspector_bounded]: what the inspector
    keeps. *)
From S2P Require Import Prelude Interfaces CodexLines ReadinessFrames.

Open Scope Z_scope.

#[local] Arguments consume_buffered_frames : simpl never.
#[local] Arguments ReadinessFrames.next_frame : simpl never.

(** ** Headers and their extensions *)

Lemma len_app {A} (a b : list A) : len (a ++ b) = len a + len b.
Proof. unfold len. rewrite length_app. lia. Qed.
Lemma len_nonneg {A} (l : list A) : 0 ≤ len l.
Proof. unfold len. lia. Qed.

Lemma len_app_ltb {A} (l t : list A) n : n ≤ len l → (len (l ++ t) <? n) = false.
Proof. intros H. apply Z.ltb_ge. rewrite len_app. pose proof (len_nonneg t). lia. Qed.

Lemma byte_at_app l t i : Z.of_nat i < len l → byte_at (l ++ t) i = byte_at l i.
Proof. unfold byte_at, len. intros H. f_equal. apply lookup_app_l. lia. Qed.
Lemma take_drop_app {A} n m (l t : list A) :
  Z.of_nat (n + m) <= len l → take n (drop m (l ++ t)) = take n (drop m l).
Proof.
  unfold len. intros H. rewrite drop_app_le by lia. rewrite take_app_le; [done|].
  rewrite length_drop. lia.
Qed.

(** A decision that more bytes do not change. *)
Definition settled {E A} (r r' : result E (option A)) : Prop :=
  match r with Ok None => True | _ => r' = r end.

Lemma decode_length_app l t : 2 ≤ len l → settled (decode_length l) (decode_length (l ++ t)).
Proof.
  intros Hl. unfold decode_length. rewrite byte_at_app by lia.
  destruct (_ <=? 125); [done|]. destruct (_ =? 126).
  - destruct (Z.ltb_spec (len l) 4); [done|]. rewrite len_app_ltb by lia.
    rewrite take_drop_app by lia. cbv [settled]. by destruct (reject_if _ _).
  - destruct (Z.ltb_spec (len l) 10); [done|]. rewrite len_app_ltb by lia.
    rewrite take_drop_app, byte_at_app by lia. by do 2 (destruct (reject_if _ _); cbn; try done).
Qed.

Lemma decode_length_Ok l length header :
  decode_length l = Ok (Some (length, header)) →
  0 ≤ length ∧ (header = 2 ∨ header = 4 ∨ header = 10)%nat ∧ Z.of_nat header ≤ Z.max 2 (len l).
Proof.
  unfold decode_length. intros H. 
  assert (0 ≤ Z.land (byte_at l 1) 127) by (apply Z.land_nonneg; lia).
  cbv zeta in H. destruct (_ <=? 125); [injection H as <- <-; lia|]. destruct (_ =? 126).
  - destruct (Z.ltb_spec (len l) 4); [done|]. inv_ok. simplify_eq. rewrite Z.ltb_ge in *. lia.
  - destruct (Z.ltb_spec (len l) 10); [done|]. inv_ok. simplify_eq. rewrite Z.leb_gt in *. unfold u16_max in *. lia.
Qed.

Lemma decode_frame_header_app l t direction :
  settled (decode_frame_header l direction) (decode_frame_header (l ++ t) direction).
Proof.
  unfold decode_frame_header. destruct (Z.ltb_spec (len l) 2); [done|].
  rewrite len_app_ltb by lia.
  rewrite !byte_at_app by lia. pose proof (decode_length_app l t) as Hd. unfold settled in Hd.
  destruct (decode_length l) as [[[length header]|]|] eqn:Hl;
    [rewrite Hd by lia| |rewrite Hd by lia]; cbn.
  2-3: repeat (destruct (reject_if _ _); cbn; try done).
  apply decode_length_Ok in Hl as (_ & Hh & Hle).
  destruct (Z.ltb_spec (len l) (Z.of_nat header + 4)).
  - by repeat (first [destruct (reject_if _ _)|destruct (negb (Z.land (byte_at l 1) 128 =? 0))]; cbn; try done).
  - rewrite len_app_ltb, take_drop_app by lia.
    by repeat (first [destruct (reject_if _ _)|destruct (negb (Z.land (byte_at l 1) 128 =? 0))]; cbn; try done).
Qed.

(** The bounds of a header, and of what is too short for one. *)
Lemma decode_frame_header_Ok l direction h :
  decode_frame_header l direction = Ok h →
  match h with
  | Some h => 2 ≤ fh_header_bytes h ≤ 14 ∧ fh_header_bytes h ≤ len l ∧
      0 ≤ fh_payload_bytes h ≤ MAX_MESSAGE_BYTES
  | None => len l < 14
  end.
Proof.
  unfold decode_frame_header. destruct (Z.ltb_spec (len l) 2); [intros [= <-]; lia|].
  intros H'. apply bind_Ok in H' as (_ & _ & H'). apply bind_Ok in H' as (_ & _ & H').
  destruct (decode_length l) as [[[length header]|]|] eqn:Hok1; [| |done]; cbn in H'.
  - apply decode_length_Ok in Hok1 as (H0 & Hh & Hle). inv_ok. rewrite Z.ltb_ge in *.
    destruct (negb (Z.land (byte_at l 1) 128 =? 0));
      [destruct (Z.ltb_spec (len l) (Z.of_nat header + 4))|]; injection H' as <-; cbn; lia.
  - injection H' as <-. unfold decode_length in Hok1.
    destruct (_ <=? 125); [done|]. destruct (_ =? 126).
    + destruct (Z.ltb_spec (len l) 4); [lia|]. by inv_ok.
    + destruct (Z.ltb_spec (len l) 10); [lia|]. by inv_ok.
Qed.

(** ** The decoder *)

Section decoder.
Context {Event : Type} (inspect_message : Direction → bytes → result ReadinessProxyError (list Event)).

Abbreviation next_frame := (next_frame inspect_message).
Abbreviation consume := (consume_buffered_frames inspect_message).
Abbreviation feed_frames := (feed_frames inspect_message).

Definition extend (t : bytes) (d : FrameDecoder) : FrameDecoder := set_buffer (fd_buffer d ++ t) d.

Lemma extend_nil d : extend [] d = d.
Proof. unfold extend. rewrite app_nil_r. by destruct d. Qed.
Lemma extend_app s t d : extend t (extend s d) = extend (s ++ t) d.
Proof. unfold extend. cbn. by rewrite app_assoc. Qed.

(** The state of a step carries its buffer along. *)
Definition carry (b : bytes) (r : result ReadinessProxyError (FrameDecoder * list Event)) :=
  match r with Ok (d, events) => Ok (set_buffer b d, events) | Err e => Err e end.
Lemma consume_frame_buffer b d fin opcode payload :
  consume_frame inspect_message (set_buffer b d) fin opcode payload
  = carry b (consume_frame inspect_message d fin opcode payload).
Proof.
  unfold consume_frame, carry. cbn. destruct d as [dir buf frag]; cbn.
  destruct (opcode =? 0).
  - destruct frag; [|done]. destruct (reject_if _ _); [|done]. cbn. destruct fin; [|done].
    by destruct (inspect_message _ _).
  - destruct (opcode =? 1).
    + destruct frag; [done|]. destruct fin; [|done]. by destruct (inspect_message _ _).
    + destruct (opcode =? 8); [done|]. by destruct (_ || _).
Qed.
Lemma consume_frame_keeps_buffer d fin opcode payload d' events :
  consume_frame inspect_message d fin opcode payload = Ok (d', events) → fd_buffer d' = fd_buffer d.
Proof.
  intros H. pose proof (consume_frame_buffer (fd_buffer d) d fin opcode payload) as Hb.
  replace (set_buffer (fd_buffer d) d) with d in Hb by by destruct d.
  rewrite H in Hb. cbn in Hb. injection Hb as Hb. by rewrite Hb.
Qed.

Definition carry_over (t : bytes) (r : result ReadinessProxyError (option (FrameDecoder * list Event))) :=
  match r with Ok (Some (d, events)) => Ok (Some (extend t d, events)) | r => r end.

Lemma next_frame_app d t :
  next_frame d ≠ Ok None → next_frame (extend t d) = carry_over t (next_frame d).
Proof.
  unfold ReadinessFrames.next_frame. change (fd_buffer (extend t d)) with (fd_buffer d ++ t).
  change (fd_direction (extend t d)) with (fd_direction d).
  pose proof (decode_frame_header_app (fd_buffer d) t (fd_direction d)) as Hd. unfold settled in Hd.
  destruct (decode_frame_header (fd_buffer d) (fd_direction d)) as [[h|]|e] eqn:Hh; [rewrite Hd|done|by rewrite Hd].
  apply decode_frame_header_Ok in Hh. cbn [mbind result_bind].
  change (check_frame (extend t d) h) with (check_frame d h).
  destruct (check_frame d h); [|done]. cbn. destruct (ok_or _ _) as [frame_end|] eqn:He; [|done].
  apply ok_or_Ok in He. unfold checked_add_u in He. destruct (_ <=? _); [|done]. injection He as <-.
  cbn. destruct (Z.ltb_spec (len (fd_buffer d)) (fh_header_bytes h + fh_payload_bytes h)) as [|Hle]; [done|]. intros _.
  rewrite len_app_ltb by lia.
  rewrite take_app_le, drop_app_le by (unfold len in Hle; lia).
  set (payload := unmask _ _).
  rewrite (consume_frame_buffer (_ ++ t)), (consume_frame_buffer (drop _ _)).
  change (extend t d) with (set_buffer (fd_buffer d ++ t) d). rewrite consume_frame_buffer.
  by destruct (consume_frame _ d _ _ _) as [[d1 events]|].
Qed.

(** A frame takes bytes; without one the buffer is short. *)
Lemma next_frame_shrinks d d' events :
  next_frame d = Ok (Some (d', events)) → (length (fd_buffer d') < length (fd_buffer d))%nat.
Proof.
  unfold ReadinessFrames.next_frame. intros H. inv_ok. destruct a as [h|]; [|done]. inv_ok.
  apply decode_frame_header_Ok in Hok. unfold checked_add_u in *.
  destruct (_ <=? _); [|done]. simplify_eq.
  destruct (Z.ltb_spec (len (fd_buffer d)) (fh_header_bytes h + fh_payload_bytes h)); [done|]. inv_ok. simplify_eq.
  apply consume_frame_keeps_buffer in Hok1. rewrite Hok1. cbn. rewrite length_drop. unfold len in *. lia.
Qed.
Lemma next_frame_None d : next_frame d = Ok None → len (fd_buffer d) < MAX_FRAME_BUFFER_BYTES.
Proof.
  unfold ReadinessFrames.next_frame, MAX_FRAME_BUFFER_BYTES. intros H. inv_ok. destruct a as [h|]; apply decode_frame_header_Ok in Hok.
  - inv_ok. unfold checked_add_u in *. destruct (_ <=? _); [|done]. simplify_eq.
    destruct (Z.ltb_spec (len (fd_buffer d)) (fh_header_bytes h + fh_payload_bytes h)); [lia|]. by inv_ok.
  - unfold MAX_MESSAGE_BYTES. lia.
Qed.

(** ** The loops *)

Lemma consume_loop_fuel f f' d ev :
  (length (fd_buffer d) < f)%nat → (length (fd_buffer d) < f')%nat →
  consume_loop inspect_message f d ev = consume_loop inspect_message f' d ev.
Proof.
  revert f' d ev. induction f as [|f IH]; intros [|f'] d ev H1 H2; [lia|lia|lia|].
  cbn. destruct (next_frame d) as [[[d1 more]|]|] eqn:Hn; cbn; [|done|done].
  apply next_frame_shrinks in Hn. apply IH; lia.
Qed.

Lemma consume_unfold d ev :
  consume d ev = match next_frame d with
                 | Ok (Some (d', more)) => consume d' (ev ++ more)
                 | Ok None => Ok (d, ev)
                 | Err e => Err e
                 end.
Proof.
  destruct (next_frame d) as [[[d1 more]|]|] eqn:Hn;
    [transitivity (consume_loop inspect_message (length (fd_buffer d)) d1 (ev ++ more))| |].
  2: apply next_frame_shrinks in Hn; apply consume_loop_fuel; lia.
  all: unfold consume_buffered_frames; cbn; by rewrite Hn.
Qed.

(** Induction over the frames of a buffer. *)
Lemma frames_ind (P : FrameDecoder → Prop) :
  (∀ d, (∀ d' more, next_frame d = Ok (Some (d', more)) → P d') → P d) → ∀ d, P d.
Proof.
  intros H d. remember (length (fd_buffer d)) as n eqn:Hn. revert d Hn.
  induction n as [n IH] using lt_wf_ind. intros d ->. apply H. intros d' more Hd.
  eapply IH; [|reflexivity]. by eapply next_frame_shrinks.
Qed.

Lemma consume_drained d ev d' ev' : consume d ev = Ok (d', ev') → next_frame d' = Ok None.
Proof.
  revert ev. induction d as [d IH] using frames_ind. intros ev. rewrite consume_unfold.
  destruct (next_frame d) as [[[d1 more]|]|] eqn:Hn; [by eapply IH| |done]. by intros [= <- <-].
Qed.

(** The loop works on line: what arrives later is read after what is there. *)
Lemma consume_extend t d ev :
  consume (extend t d) ev = ('(d1, ev1) ← consume d ev; consume (extend t d1) ev1).
Proof.
  revert ev. induction d as [d IH] using frames_ind. intros ev. rewrite (consume_unfold d).
  destruct (next_frame d) as [[[d1 more]|]|e] eqn:Hn; cbn; [|done|];
    rewrite consume_unfold, next_frame_app, Hn by (by rewrite Hn); cbn; [|done].
  by rewrite (IH d1 more).
Qed.

(** The events of a loop follow those it starts with. *)
Definition prefix_events {S} (ev : list Event) (r : result ReadinessProxyError (S * list Event)) :=
  match r with Ok (s, more) => Ok (s, ev ++ more) | Err e => Err e end.
Lemma consume_prefix d ev : consume d ev = prefix_events ev (consume d []).
Proof.
  revert ev. induction d as [d IH] using frames_ind. intros ev. rewrite !(consume_unfold d).
  destruct (next_frame d) as [[[d1 more]|]|e] eqn:Hn; cbn; [|by rewrite app_nil_r|done].
  rewrite (IH _ _ eq_refl (ev ++ more)). change ([] ++ more) with more. rewrite (IH _ _ eq_refl more). unfold prefix_events.
  destruct (consume d1 []) as [[? ?]|]; [|done]. by rewrite app_assoc.
Qed.

(** The buffer never blocks the loop of [feed]: it is the loop over the buffer
    with all the bytes behind it. *)
Lemma feed_loop_consume f d l ev :
  (length l < f)%nat → feed_loop inspect_message f d l ev = consume (extend l d) ev.
Proof.
  revert d l ev. induction f as [|f IH]; intros d l ev Hf; [lia|]. cbn.
  rewrite consume_extend. destruct (consume d ev) as [[d1 ev1]|] eqn:Hc; [|done]. cbn.
  apply consume_drained in Hc as Hn. destruct l as [|b l].
  - rewrite extend_nil, consume_unfold. by rewrite Hn.
  - pose proof (next_frame_None _ Hn) as Hlt. unfold reject_if.
    destruct (Z.ltb_spec MAX_FRAME_BUFFER_BYTES (len (fd_buffer d1))); [lia|].
    destruct (Z.eqb_spec (MAX_FRAME_BUFFER_BYTES - len (fd_buffer d1)) 0); [lia|]. cbn [mbind result_bind].
    set (count := Z.to_nat _). assert (1 ≤ count)%nat by (unfold count, len in *; cbn [length] in *; lia).
    rewrite IH by (rewrite length_drop; cbn [length] in *; lia).
    change (set_buffer (fd_buffer d1 ++ take count (b :: l)) d1) with (extend (take count (b :: l)) d1).
    by rewrite extend_app, take_drop.
Qed.
Lemma feed_frames_consume d l ev : feed_frames d l ev = consume (extend l d) ev.
Proof. apply feed_loop_consume. lia. Qed.
End decoder.

(** ** The inspector *)

Lemma starts_with_length needle l : starts_with needle l = true → (length needle ≤ length l)%nat.
Proof.
  revert l. induction needle as [|n needle IH]; intros [|b l]; cbn; try (done || lia).
  rewrite andb_true_iff. intros [_ H%IH]. lia.
Qed.
Lemma starts_with_app needle l t :
  (length needle ≤ length l)%nat → starts_with needle (l ++ t) = starts_with needle l.
Proof.
  revert l. induction needle as [|n needle IH]; intros [|b l]; cbn; try (done || lia).
  intros H. by rewrite IH by lia.
Qed.

Lemma find_header_end_bounds l n : find_header_end l = Some n → (4 ≤ n ≤ length l)%nat.
Proof.
  revert n. induction l as [|x l IH]; intros n; [done|]. cbn [find_header_end].
  destruct (starts_with HEADER_END (x :: l)) eqn:Hs.
  - apply starts_with_length in Hs. intros [= <-]. by cbn in *.
  - destruct (find_header_end l) as [m|]; [|done]. intros [= <-]. destruct (IH m eq_refl). cbn. lia.
Qed.
Lemma find_header_end_app a b n : find_header_end a = Some n → find_header_end (a ++ b) = Some n.
Proof.
  revert n. induction a as [|x a IH]; intros n; [done|]. cbn [find_header_end app].
  destruct (starts_with HEADER_END (x :: a)) eqn:Hs.
  - change (x :: a ++ b) with ((x :: a) ++ b).
    by rewrite starts_with_app, Hs by by apply starts_with_length.
  - destruct (find_header_end a) as [m|] eqn:Ha; [|done]. intros [= <-].
    apply find_header_end_bounds in Ha as Hm. change (x :: a ++ b) with ((x :: a) ++ b).
    rewrite starts_with_app, Hs by (cbn; lia). by rewrite (IH m).
Qed.

Section inspector.
Context {Event : Type} (inspect_message : Direction → bytes → result ReadinessProxyError (list Event)).
Context (handshake_event : Direction → Event).

Abbreviation feed := (feed inspect_message handshake_event).
Abbreviation consume := (consume_buffered_frames inspect_message).

(** The state between two reads: no header end so far and room for more, or
    no complete frame left. *)
Definition settled_inspector (p : ProtocolInspector) : Prop :=
  if pi_handshake_complete p then next_frame inspect_message (pi_frames p) = Ok None
  else find_header_end (pi_handshake p) = None ∧ len (pi_handshake p) < MAX_HANDSHAKE_BYTES.

(** What [feed] does, with the limits on what it stores left out. *)
Definition feed_spec (p : ProtocolInspector) (l : bytes)
    : result ReadinessProxyError (ProtocolInspector * list Event) :=
  if pi_handshake_complete p then
    '(d, events) ← consume (extend l (pi_frames p)) [];
    Ok (set_frames d p, events)
  else
    let all := pi_handshake p ++ l in
    match find_header_end (take (Z.to_nat MAX_HANDSHAKE_BYTES) all) with
    | None =>
        _ ← reject_if (MAX_HANDSHAKE_BYTES <=? len all) Rp_HandshakeTooLarge;
        Ok (set_handshake all p, [])
    | Some header_end =>
        _ ← validate_handshake (take header_end all) (pi_direction p);
        '(d, events) ← consume (extend (drop header_end all) (pi_frames p))
                         [handshake_event (pi_direction p)];
        Ok (set_frames d (complete_handshake p), events)
    end.

Lemma feed_feed_spec p l : settled_inspector p → feed p l = feed_spec p l.
Proof.
  unfold settled_inspector, ReadinessFrames.feed, feed_spec.
  destruct (pi_handshake_complete p); intros H; [by rewrite feed_frames_consume|].
  destruct H as [_ Hlt]. set (h := pi_handshake p) in *. unfold saturating_sub_u.
  set (stored := Z.to_nat _).
  assert (Hst : stored = Z.to_nat (Z.min (len l) (MAX_HANDSHAKE_BYTES - len h))).
  { unfold stored, len in *. lia. }
  assert (Hall : h ++ take stored l = take (Z.to_nat MAX_HANDSHAKE_BYTES) (h ++ l)).
  { rewrite take_app. rewrite (take_ge h) by (unfold len in *; lia). f_equal.
    destruct (decide (stored = length l)) as [Heq|Hne].
    - rewrite !take_ge; [done| |lia]. unfold len in *. lia.
    - f_equal. unfold len in *. lia. }
  rewrite Hall. destruct (find_header_end _) as [n|] eqn:Hn.
  - apply find_header_end_bounds in Hn as Hb. rewrite length_take in Hb. unfold reject_if at 1.
    destruct (Z.ltb_spec MAX_HANDSHAKE_BYTES (Z.of_nat n)); [lia|]. cbn [mbind result_bind].
    rewrite take_take, Nat.min_l by lia.
    destruct (validate_handshake _ _); [|done]. cbn [mbind result_bind].
    rewrite feed_frames_consume.
    rewrite <- (take_drop stored l) at 2. rewrite (app_assoc h), Hall.
    rewrite (drop_app_le (take _ _)) by (rewrite length_take; lia).
    rewrite <- extend_app.
    rewrite (consume_extend _ (drop stored l)).
    destruct (consume _ _) as [[d events]|]; [|done]. cbn [mbind result_bind]. by rewrite feed_frames_consume.
  - assert (Hb : (negb (Z.of_nat stored =? len l) || (len (take (Z.to_nat MAX_HANDSHAKE_BYTES) (h ++ l)) =? MAX_HANDSHAKE_BYTES))
              = (MAX_HANDSHAKE_BYTES <=? len (h ++ l))).
    { rewrite len_app. unfold len in *. rewrite length_take, length_app.
      apply Bool.eq_true_iff_eq. rewrite orb_true_iff, negb_true_iff, Z.eqb_neq, Z.eqb_eq, Z.leb_le. lia. }
    rewrite Hb. unfold reject_if. destruct (Z.leb_spec MAX_HANDSHAKE_BYTES (len (h ++ l))); [done|]. cbn.
    rewrite take_ge by (unfold len in *; lia). done.
Qed.

(** After a read the inspector is settled. *)
Lemma feed_settled p l p' events :
  settled_inspector p → feed p l = Ok (p', events) → settled_inspector p'.
Proof.
  intros Hp. rewrite feed_feed_spec by done. unfold feed_spec, settled_inspector in *.
  destruct (pi_handshake_complete p) eqn:Hc; intros H.
  - inv_ok. destruct a as [d ev]. inv_ok. simplify_eq. cbn. rewrite Hc. by eapply consume_drained.
  - destruct (find_header_end (take _ _)) as [n|] eqn:Hn; inv_ok.
    + destruct a0 as [d ev]. inv_ok. simplify_eq. cbn. by eapply consume_drained.
    + simplify_eq. cbn. rewrite Hc. rewrite Z.leb_gt in *. split; [|done].
      by rewrite take_ge in Hn by (unfold len in *; lia).
Qed.

(** Nothing read leaves it as it is. *)
Lemma feed_nil p : settled_inspector p → feed p [] = Ok (p, []).
Proof.
  intros Hp. rewrite feed_feed_spec by done. unfold feed_spec, settled_inspector in *.
  destruct p as [dir hs complete frames]; cbn in *. destruct complete.
  - rewrite extend_nil, consume_unfold, Hp. done.
  - destruct Hp as [Hn Hl]. rewrite app_nil_r, take_ge, Hn by (unfold len in *; lia).
    unfold reject_if. by destruct (Z.leb_spec MAX_HANDSHAKE_BYTES (len hs)); [lia|].
Qed.

(** Two reads are the read of both: frame by frame once the handshake is
    over, and before it by the place of the header's end. *)
Lemma feed_spec_app_frames p a b :
  pi_handshake_complete p = true →
  feed_spec p (a ++ b) = ('(p1, events) ← feed_spec p a; prefix_events events (feed_spec p1 b)).
Proof.
  intros Hc. unfold feed_spec. rewrite Hc. rewrite <- extend_app, consume_extend.
  destruct (consume (extend a _) []) as [[d ev]|]; [|done]. cbn. rewrite Hc, consume_prefix.
  by destruct (consume (extend b d) []) as [[? ?]|].
Qed.
Lemma take_app_found n (x t : bytes) m :
  find_header_end (take n x) = Some m → find_header_end (take n (x ++ t)) = Some m.
Proof. intros H. rewrite take_app. by apply find_header_end_app. Qed.
Lemma feed_spec_app_handshake p a b :
  pi_handshake_complete p = false →
  feed_spec p (a ++ b) = ('(p1, events) ← feed_spec p a; prefix_events events (feed_spec p1 b)).
Proof.
  intros Hc. unfold feed_spec. rewrite Hc. rewrite (app_assoc _ a b).
  set (all := pi_handshake p ++ a).
  destruct (find_header_end (take _ all)) as [n|] eqn:Hn.
  - rewrite (take_app_found _ _ _ _ Hn). apply find_header_end_bounds in Hn as [_ Hle].
    rewrite length_take in Hle. rewrite take_app_le, drop_app_le by lia.
    destruct (validate_handshake _ _); [|done]. cbn [mbind result_bind].
    rewrite <- extend_app, consume_extend.
    destruct (consume (extend (drop n all) _) _) as [[d ev]|]; [|done]. cbn. rewrite consume_prefix.
    by destruct (consume (extend b d) []) as [[? ?]|].
  - unfold reject_if. destruct (Z.leb_spec MAX_HANDSHAKE_BYTES (len all)) as [Hle|Hlt].
    + rewrite take_app_le by (unfold len in *; lia). rewrite Hn.
      pose proof (len_nonneg b). rewrite len_app. by destruct (Z.leb_spec MAX_HANDSHAKE_BYTES (len all + len b)); [|lia].
    + cbn. rewrite Hc. by destruct (match find_header_end _ with Some _ => _ | None => _ end) as [[? ?]|].
Qed.
Lemma feed_app p a b :
  settled_inspector p →
  feed p (a ++ b) = ('(p1, events) ← feed p a; prefix_events events (feed p1 b)).
Proof.
  intros Hp. pose proof (feed_settled p a) as Hset. rewrite !(feed_feed_spec p) in * by done.
  transitivity ('(p1, events) ← feed_spec p a; prefix_events events (feed_spec p1 b)).
  - destruct (pi_handshake_complete p) eqn:Hc;
      [by apply feed_spec_app_frames|by apply feed_spec_app_handshake].
  - destruct (feed_spec p a) as [[p1 events]|]; [|done]. cbn. by rewrite feed_feed_spec by eauto.
Qed.

Lemma new_inspector_settled direction : settled_inspector (new_inspector direction).
Proof. done. Qed.

(** The reads of one direction in turn, as the relay makes them. *)
Fixpoint feed_all (p : ProtocolInspector) (chunks : list bytes)
    : result ReadinessProxyError (ProtocolInspector * list Event) :=
  match chunks with
  | [] => Ok (p, [])
  | chunk :: chunks =>
      '(p, events) ← feed p chunk;
      prefix_events events (feed_all p chunks)
  end.
Lemma feed_all_concat p chunks :
  settled_inspector p → feed_all p chunks = feed p (concat chunks).
Proof.
  revert p. induction chunks as [|c chunks IH]; intros p Hp; cbn; [by rewrite feed_nil|].
  rewrite feed_app by done. destruct (feed p c) as [[p1 ev]|] eqn:Hc; [|done]. cbn.
  by rewrite IH by by eapply feed_settled.
Qed.

(** C35. What is read from one direction depends on its bytes alone: however the
    reads cut them, the events, their order, the state left and the error are
    those of one read of all the bytes. *)
Theorem inspection_chunking direction chunks :
  feed_all (new_inspector direction) chunks = feed (new_inspector direction) (concat chunks).
Proof. apply feed_all_concat, new_inspector_settled. Qed.

(** ** Bounds *)

(** A fragmented message in progress is within the limit of a whole one. *)
Definition fragment_bounded (d : FrameDecoder) : Prop :=
  ∀ f, fd_fragmented_text d = Some f → len f ≤ MAX_MESSAGE_BYTES.

Lemma len_unmask mask payload : len (unmask mask payload) = len payload.
Proof.
  destruct mask as [mask|]; [|done]. unfold len, unmask. f_equal. generalize 0%nat.
  induction payload as [|b payload IH]; intros i; cbn; [done|by rewrite IH].
Qed.

Lemma consume_frame_bounded d fin opcode payload d' events :
  fragment_bounded d → len payload ≤ MAX_MESSAGE_BYTES →
  consume_frame inspect_message d fin opcode payload = Ok (d', events) → fragment_bounded d'.
Proof.
  unfold consume_frame, fragment_bounded. intros Hd Hp H.
  destruct (opcode =? 0).
  - destruct (fd_fragmented_text d) as [f|]; [|done]. apply bind_Ok in H as ([] & Hr & H).
    apply reject_if_Ok in Hr. unfold saturating_add_u in Hr. rewrite Z.ltb_ge in Hr.
    destruct fin; inv_ok; simplify_eq; cbn; [done|]. intros ? [= <-]. rewrite len_app.
    pose proof (len_nonneg f). pose proof (len_nonneg payload). unfold u64_max, MAX_MESSAGE_BYTES in *. lia.
  - destruct (opcode =? 1).
    + destruct (fd_fragmented_text d) eqn:Hf; [done|]. destruct fin; inv_ok; simplify_eq; cbn; [by rewrite Hf|].
      by intros ? [= <-].
    + destruct (opcode =? 8); [done|]. destruct (_ || _); [|done]. by injection H as <- _.
Qed.
Lemma next_frame_bounded d d' events :
  fragment_bounded d → next_frame inspect_message d = Ok (Some (d', events)) → fragment_bounded d'.
Proof.
  intros Hd H. unfold ReadinessFrames.next_frame in H. apply bind_Ok in H as ([h|] & Hh & H); [|done].
  apply decode_frame_header_Ok in Hh. inv_ok. unfold checked_add_u in *.
  destruct (_ <=? _); [|done]. simplify_eq.
  destruct (Z.ltb_spec (len (fd_buffer d)) (fh_header_bytes h + fh_payload_bytes h)); [done|]. inv_ok. simplify_eq.
  eapply consume_frame_bounded; [|rewrite len_unmask|exact Hok0]; [done|].
  unfold len in *. rewrite length_drop, length_take. lia.
Qed.
Lemma consume_bounded d ev d' ev' :
  fragment_bounded d → consume d ev = Ok (d', ev') → fragment_bounded d'.
Proof.
  revert ev. induction d as [d IH] using (frames_ind inspect_message). intros ev Hd. rewrite consume_unfold.
  destruct (next_frame _ d) as [[[d1 more]|]|] eqn:Hn; [|by intros [= <- <-]|done].
  eapply IH; [done|]. by eapply next_frame_bounded.
Qed.

Lemma feed_keeps_fragment p l p' events :
  settled_inspector p → fragment_bounded (pi_frames p) →
  feed p l = Ok (p', events) → fragment_bounded (pi_frames p').
Proof.
  intros Hp Hd. rewrite feed_feed_spec by done. unfold feed_spec. intros H.
  destruct (pi_handshake_complete p).
  - inv_ok. destruct a as [d ev]. inv_ok. simplify_eq. refine (consume_bounded _ _ _ _ _ Hok). exact Hd.
  - destruct (find_header_end _) as [n|]; inv_ok; [|by simplify_eq].
    destruct a0 as [d ev]. inv_ok. simplify_eq. refine (consume_bounded _ _ _ _ _ Hok0). exact Hd.
Qed.

(** C36. What the inspector of one direction stores is bounded, however much is
    read and however it arrives: less than 16 KiB of the handshake and nothing
    of it once it is over, less than a longest frame, and at most 1 MiB of a
    fragmented message. *)
Theorem inspector_bounded direction chunks p events :
  feed_all (new_inspector direction) chunks = Ok (p, events) →
  len (pi_handshake p) < MAX_HANDSHAKE_BYTES
  ∧ (pi_handshake_complete p = true → pi_handshake p = [])
  ∧ len (fd_buffer (pi_frames p)) < MAX_FRAME_BUFFER_BYTES
  ∧ (∀ f, fd_fragmented_text (pi_frames p) = Some f → len f ≤ MAX_MESSAGE_BYTES).
Proof.
  rewrite feed_all_concat by apply new_inspector_settled. intros H.
  pose proof (feed_settled _ _ _ _ (new_inspector_settled direction) H) as Hp.
  assert (Hf : fragment_bounded (pi_frames p)).
  { by eapply feed_keeps_fragment; [apply new_inspector_settled| |exact H]. }
  rewrite feed_feed_spec in H by apply new_inspector_settled. unfold feed_spec in H. cbn in H.
  unfold settled_inspector in Hp. destruct (find_header_end (take _ (concat chunks))) as [n|] eqn:Hn; inv_ok.
  - destruct a0 as [d ev]. inv_ok. simplify_eq. cbn in *. split_and!; [done|done| |done].
    by eapply next_frame_None.
  - simplify_eq. cbn in *. split_and!; [tauto|done|done|done].
Qed.
End inspector.
