(* ===== verification/ReadinessMessages.v ===== *)
(** * The readiness relay: messages (src/providers/codex/remote.rs)

    What the relay makes of one text message of each direction, and what is
    expected of the thread the official client is to resume. *)
From S2P Require Import Prelude Interfaces Profiles UsageCache ConversationData HandoffTransaction AppServer UniqueJson ReadinessFrames.
From S2P Require Import ThreadSettings.

Open Scope Z_scope.

Definition MAX_THREAD_ID_BYTES : Z := 256.
Definition MAX_REQUEST_ID_BYTES : Z := 256.
Definition MAX_METHOD_BYTES : Z := 256.

Inductive ReadinessMethod := ThreadRead | ThreadResume.
#[export] Instance ReadinessMethod_eq_dec : EqDecision ReadinessMethod.
Proof. solve_decision. Defined.

Section messages.
Context {UC : UuidCrate} {JS : JsonCrate} {JX : JsonSyntax}.

Inductive ObservedEvent :=
| Handshake (direction : Direction)
| Request (id : value) (method : ReadinessMethod) (thread_id : string) (include_turns : option bool)
| Response (id : value) (has_error : bool) (thread_id forked_from_id : option string)
    (settings : option EffectiveThreadSettings)
| ProviderRequest (id : value) (method : string)
| ProviderNotification (method : string).

Definition valid_request_id (id : value) : bool :=
  match as_str id with Some id => valid_bounded_text id MAX_REQUEST_ID_BYTES | None => false end
  || is_some (as_i64 id) || is_some (as_u64 id).

Definition valid_thread_id (id : string) : bool :=
  if negb (valid_bounded_text id MAX_THREAD_ID_BYTES) then false
  else match parse_str id with
       | Some parsed => String.eqb (uuid_to_string parsed) id
       | None => false
       end.

Definition absent_or_null (v : option value) : bool :=
  match v with None => true | Some v => is_null v end.

Definition resume_uses_thread_id (params : value) : bool :=
  let history_is_absent := absent_or_null (get params "history") in
  let path_is_absent := absent_or_null (get params "path")
                        || bool_decide (get_str params "path" = Some EmptyString) in
  history_is_absent && path_is_absent.

Definition validate_jsonrpc_error_body (error : value) : result ReadinessProxyError () :=
  error ← ok_or (as_object error) Rp_InvalidMessage;
  reject_if (negb (is_some (get_i64 error "code")) || negb (is_some (get_str error "message")))
    Rp_InvalidMessage.

(** [object.get("id").is_some_and(|id| !valid_request_id(id))]. *)
Definition id_is_invalid (object : value) : bool :=
  match get object "id" with Some id => negb (valid_request_id id) | None => false end.

Definition method_text (v : value) : result ReadinessProxyError string :=
  ok_or (opt_filter (fun m => valid_bounded_text m MAX_METHOD_BYTES) (as_str v)) Rp_InvalidMessage.

(** ** From the client *)

Definition inspect_client_message (object : value) : result ReadinessProxyError (list ObservedEvent) :=
  match get object "method" with
  | None =>
      _ ← reject_if (id_is_invalid object) Rp_InvalidMessage;
      Ok []
  | Some method_name =>
      method_name ← method_text method_name;
      _ ← reject_if (id_is_invalid object) Rp_InvalidMessage;
      match (if String.eqb method_name "thread/read" then Some ThreadRead
             else if String.eqb method_name "thread/resume" then Some ThreadResume
             else None) with
      | None => Ok []
      | Some method =>
          id ← ok_or (opt_filter valid_request_id (get object "id")) Rp_InvalidMessage;
          params ← ok_or (get object "params" ≫= as_object) Rp_InvalidMessage;
          thread_id ← ok_or (opt_filter valid_thread_id (get_str params "threadId")) Rp_InvalidMessage;
          include_turns ← match get params "includeTurns" with
                          | Some v => b ← ok_or (as_bool v) Rp_InvalidMessage; Ok (Some b)
                          | None => Ok None
                          end;
          _ ← reject_if (bool_decide (method = ThreadResume) && negb (resume_uses_thread_id params))
                Rp_InvalidMessage;
          Ok [Request id method thread_id include_turns]
      end
  end.

(** ** From the server *)

(** The thread a response is about and the thread it was forked from. *)
Definition response_thread (object : value)
    : result ReadinessProxyError (option string * option string) :=
  match get object "result" ≫= (fun result => get result "thread") with
  | Some thread =>
      thread ← ok_or (as_object thread) Rp_InvalidMessage;
      thread_id ← ok_or (opt_filter valid_thread_id (get_str thread "id")) Rp_InvalidMessage;
      forked_from_id ←
        (if absent_or_null (get thread "forkedFromId") then Ok None
         else
           parent ← ok_or (opt_filter (fun parent => valid_thread_id parent
                                                     && negb (String.eqb parent thread_id))
                             (get_str thread "forkedFromId")) Rp_InvalidMessage;
           Ok (Some parent));
      Ok (Some thread_id, forked_from_id)
  | None => Ok (None, None)
  end.

(** A failure of the projection of the settings is an invalid message. *)
Definition response_settings (object : value) (thread_id : option string)
    : result ReadinessProxyError (option EffectiveThreadSettings) :=
  match get object "result" with
  | Some result =>
      if is_some thread_id
      then map_err (fun _ => Rp_InvalidMessage) (parse_thread_settings result)
      else Ok None
  | None => Ok None
  end.

Definition inspect_server_message (object : value) : result ReadinessProxyError (list ObservedEvent) :=
  match get object "method" with
  | Some method =>
      method ← method_text method;
      _ ← reject_if (contains_key object "result" || contains_key object "error") Rp_InvalidMessage;
      match get object "id" with
      | Some id => if valid_request_id id then Ok [ProviderRequest id method] else Err Rp_InvalidMessage
      | None => Ok [ProviderNotification method]
      end
  | None =>
      id ← ok_or (get object "id") Rp_InvalidMessage;
      _ ← reject_if (negb (valid_request_id id)) Rp_InvalidMessage;
      let has_result := contains_key object "result" in
      has_error ← match get object "error" with
                  | Some error => _ ← validate_jsonrpc_error_body error; Ok true
                  | None => Ok false
                  end;
      _ ← reject_if (Bool.eqb has_result has_error) Rp_InvalidMessage;
      '(thread_id, forked_from_id) ← response_thread object;
      settings ← response_settings object thread_id;
      Ok [Response id has_error thread_id forked_from_id settings]
  end.

Definition inspect_message (direction : Direction) (b : bytes)
    : result ReadinessProxyError (list ObservedEvent) :=
  message ← ok_or (decode_unique_json b) Rp_InvalidMessage;
  object ← ok_or (as_object message) Rp_InvalidMessage;
  match direction with
  | ClientToServer => inspect_client_message object
  | ServerToClient => inspect_server_message object
  end.

(** ** What is expected *)

Inductive ReadinessPolicy :=
| SyntheticFork (source_thread_id : string) (expected_settings : EffectiveThreadSettings)
| ExactResume (expected_cwd : string).
Record ReadinessExpectation := mkReadinessExpectation {
  re_thread_id : string;
  re_policy : ReadinessPolicy;
}.

Definition expected_directory (cwd : Path) : result ReadinessProxyError string :=
  ok_or (opt_filter valid_absolute_cwd (to_str cwd)) Rp_InvalidArgument.

Definition pinned_probe (thread_id source_thread_id : string) (cwd : Path) (model model_provider : string)
    : result ReadinessProxyError ReadinessExpectation :=
  cwd ← expected_directory cwd;
  _ ← reject_if (negb (valid_thread_id thread_id) || negb (valid_thread_id source_thread_id)
                 || String.eqb thread_id source_thread_id
                 || negb (valid_bounded_text model MAX_MODEL_BYTES)
                 || negb (valid_bounded_text model_provider MAX_MODEL_PROVIDER_BYTES))
        Rp_InvalidArgument;
  Ok (mkReadinessExpectation thread_id
        (SyntheticFork source_thread_id
           (mkEffectiveThreadSettings cwd model model_provider Never User ReadOnly Restricted))).

Definition exact_resume (thread_id : string) (cwd : Path) : result ReadinessProxyError ReadinessExpectation :=
  cwd ← expected_directory cwd;
  _ ← reject_if (negb (valid_thread_id thread_id)) Rp_InvalidArgument;
  Ok (mkReadinessExpectation thread_id (ExactResume cwd)).

(** ** What an observed message says *)

(** The client asks for a thread by its identifier alone. *)
Lemma client_request_says object events :
  inspect_client_message object = Ok events →
  events = [] ∨
  ∃ id method thread_id include_turns params,
    events = [Request id method thread_id include_turns]
    ∧ get object "id" = Some id ∧ valid_request_id id = true
    ∧ get object "params" = Some params ∧ get_str params "threadId" = Some thread_id
    ∧ valid_thread_id thread_id = true
    ∧ (method = ThreadResume → resume_uses_thread_id params = true).
Proof.
  unfold inspect_client_message. destruct (get object "method") as [name|]; intros H; inv_ok; [|by left].
  destruct (if String.eqb a "thread/read" then _ else _) as [method|]; [|left; by injection H].
  right. inv_ok. unfold opt_filter, as_object in *.
  destruct (get object "id") as [id|]; [|done]. destruct (valid_request_id id) eqn:Hid; [|done].
  destruct (get object "params") as [params|]; [|done]. cbn in *. destruct (is_object params); [|done].
  simplify_eq. destruct (get_str a1 "threadId") as [t|] eqn:Ht; [|done].
  destruct (valid_thread_id t) eqn:Hv; [|done]. simplify_eq.
  do 5 eexists. split_and!; try done. intros ->.
  match goal with H : bool_decide _ && _ = false |- _ => rewrite bool_decide_true in H by done end.
  by destruct (resume_uses_thread_id a1).
Qed.
End messages.
