(* ===== verification/ReadinessState.v ===== *)
(** * The readiness relay: the exchange (src/providers/codex/remote.rs)

    The observer of one relay: handshakes of both sides, then the read and the
    resume of the thread, then the read of its parent when it has one.
    [readiness_sound]: what a verdict of readiness is worth. *)
From S2P Require Import Prelude Interfaces Profiles UsageCache ConversationData HandoffTransaction AppServer UniqueJson ReadinessFrames.
From S2P Require Import ThreadSettings ReadinessMessages.

Open Scope Z_scope.

Section state.
Context {UC : UuidCrate} {JS : JsonCrate} {JX : JsonSyntax}.
(** [Value: PartialEq], on request identifiers. *)
Context `{VE : !EqDecision value}.

Inductive ReadinessPhase :=
| AwaitReadRequest
| AwaitReadResponse (id : value)
| AwaitResumeRequest
| AwaitResumeResponse (id : value)
| AwaitPostResumeReadRequest (parent_thread_id : string) (require_error : bool)
| AwaitPostResumeReadResponse (id : value) (parent_thread_id : string) (require_error : bool)
| Ready.

Record ReadinessState := mkReadinessState {
  rs_expectation : ReadinessExpectation;
  rs_client_handshake : bool;
  rs_server_handshake : bool;
  rs_phase : ReadinessPhase;
  rs_effective_settings : option EffectiveThreadSettings;
}.
Definition new_state (expectation : ReadinessExpectation) : ReadinessState :=
  mkReadinessState expectation false false AwaitReadRequest None.
Definition set_phase (phase : ReadinessPhase) (s : ReadinessState) : ReadinessState :=
  mkReadinessState (rs_expectation s) (rs_client_handshake s) (rs_server_handshake s) phase
    (rs_effective_settings s).
Definition set_settings (settings : EffectiveThreadSettings) (s : ReadinessState) : ReadinessState :=
  mkReadinessState (rs_expectation s) (rs_client_handshake s) (rs_server_handshake s) (rs_phase s)
    (Some settings).
Definition set_handshakes (client server : bool) (s : ReadinessState) : ReadinessState :=
  mkReadinessState (rs_expectation s) client server (rs_phase s) (rs_effective_settings s).

Definition is_ready (phase : ReadinessPhase) : bool := match phase with Ready => true | _ => false end.

(** ** Responses *)

Definition validate_target_response (has_error : bool) (actual_thread_id : option string)
    (expected_thread_id : string) : result ReadinessProxyError () :=
  _ ← reject_if has_error Rp_InvalidMessage;
  match actual_thread_id with
  | Some actual => reject_if (negb (String.eqb actual expected_thread_id)) Rp_TargetMismatch
  | None => Err Rp_InvalidMessage
  end.

Definition settings_match (policy : ReadinessPolicy) (actual : EffectiveThreadSettings) : bool :=
  match policy with
  | SyntheticFork _ expected_settings => bool_decide (actual = expected_settings)
  | ExactResume expected_cwd => String.eqb (es_cwd actual) expected_cwd
  end.
Definition validate_resume_settings (actual : option EffectiveThreadSettings)
    (expected : ReadinessExpectation) : result ReadinessProxyError EffectiveThreadSettings :=
  actual ← ok_or actual Rp_InvalidMessage;
  _ ← reject_if (negb (settings_match (re_policy expected) actual)) Rp_TargetMismatch;
  Ok actual.

Definition response_carries_readiness_evidence (phase : ReadinessPhase)
    (expectation : ReadinessExpectation) (thread_id forked_from_id : option string)
    (settings : option EffectiveThreadSettings) : bool :=
  if is_ready phase then false
  else if is_some settings || is_some forked_from_id
          || bool_decide (thread_id = Some (re_thread_id expectation)) then true
  else match phase with
       | AwaitPostResumeReadRequest parent_thread_id _
       | AwaitPostResumeReadResponse _ parent_thread_id _ =>
           bool_decide (thread_id = Some parent_thread_id)
       | _ => false
       end.

(** The parent to read after the resume, and whether the read has to fail. *)
Definition resume_parent (policy : ReadinessPolicy) (forked_from_id : option string)
    : result ReadinessProxyError (option (string * bool)) :=
  match policy with
  | SyntheticFork source_thread_id _ =>
      _ ← reject_if (negb (bool_decide (forked_from_id = Some source_thread_id))) Rp_TargetMismatch;
      Ok (Some (source_thread_id, true))
  | ExactResume _ => Ok ((fun parent => (parent, false)) <$> forked_from_id)
  end.

(** ** [observe] *)

Abbreviation step := (result ReadinessProxyError (ReadinessState * bool)).

Definition observe_handshake (s : ReadinessState) (direction : Direction) : step :=
  match direction with
  | ClientToServer =>
      if negb (rs_client_handshake s)
      then Ok (set_handshakes true (rs_server_handshake s) s, false)
      else Err Rp_UnexpectedSequence
  | ServerToClient =>
      if rs_client_handshake s && negb (rs_server_handshake s)
      then Ok (set_handshakes (rs_client_handshake s) true s, false)
      else Err Rp_UnexpectedSequence
  end.

Definition not_turns (include_turns : option bool) : bool := negb (bool_decide (include_turns = Some true)).

Definition observe_request (s : ReadinessState) (id : value) (method : ReadinessMethod)
    (thread_id : string) (include_turns : option bool) : step :=
  _ ← reject_if (negb (rs_server_handshake s)) Rp_UnexpectedSequence;
  let expectation := rs_expectation s in
  match rs_phase s, method with
  | AwaitReadRequest, ThreadRead =>
      _ ← reject_if (negb (String.eqb thread_id (re_thread_id expectation))) Rp_TargetMismatch;
      let include_turns_is_valid :=
        match re_policy expectation with
        | SyntheticFork _ _ => true
        | ExactResume _ => not_turns include_turns
        end in
      _ ← reject_if (negb include_turns_is_valid) Rp_UnexpectedSequence;
      Ok (set_phase (AwaitReadResponse id) s, false)
  | AwaitResumeRequest, ThreadResume =>
      _ ← reject_if (negb (String.eqb thread_id (re_thread_id expectation))) Rp_TargetMismatch;
      Ok (set_phase (AwaitResumeResponse id) s, false)
  | AwaitPostResumeReadRequest parent_thread_id require_error, ThreadRead =>
      let include_turns_is_valid :=
        match re_policy expectation with
        | SyntheticFork _ _ => negb (is_some include_turns)
        | ExactResume _ => not_turns include_turns
        end in
      _ ← reject_if (negb (String.eqb thread_id parent_thread_id) || negb include_turns_is_valid)
            Rp_TargetMismatch;
      Ok (set_phase (AwaitPostResumeReadResponse id parent_thread_id require_error) s, false)
  | _, _ => Err Rp_UnexpectedSequence
  end.

(** A response that no phase waits for. *)
Definition other_response (s : ReadinessState) (thread_id forked_from_id : option string)
    (settings : option EffectiveThreadSettings) : step :=
  _ ← reject_if (response_carries_readiness_evidence (rs_phase s) (rs_expectation s) thread_id
                   forked_from_id settings) Rp_UnexpectedSequence;
  Ok (s, is_ready (rs_phase s)).

Definition read_response (s : ReadinessState) (has_error : bool) (thread_id : option string) : step :=
  _ ← validate_target_response has_error thread_id (re_thread_id (rs_expectation s));
  Ok (set_phase AwaitResumeRequest s, false).

Definition resume_response (s : ReadinessState) (has_error : bool) (thread_id forked_from_id : option string)
    (settings : option EffectiveThreadSettings) : step :=
  _ ← validate_target_response has_error thread_id (re_thread_id (rs_expectation s));
  settings ← validate_resume_settings settings (rs_expectation s);
  let s := set_settings settings s in
  parent ← resume_parent (re_policy (rs_expectation s)) forked_from_id;
  match parent with
  | Some (parent_thread_id, require_error) =>
      Ok (set_phase (AwaitPostResumeReadRequest parent_thread_id require_error) s, false)
  | None => Ok (set_phase Ready s, true)
  end.

Definition parent_response (s : ReadinessState) (parent_thread_id : string) (require_error : bool)
    (has_error : bool) (thread_id forked_from_id : option string)
    (settings : option EffectiveThreadSettings) : step :=
  _ ← (if has_error
       then reject_if (is_some thread_id || is_some forked_from_id || is_some settings) Rp_InvalidMessage
       else
         _ ← reject_if (require_error || is_some settings) Rp_InvalidMessage;
         validate_target_response false thread_id parent_thread_id);
  Ok (set_phase Ready s, true).

Definition observe_response (s : ReadinessState) (id : value) (has_error : bool)
    (thread_id forked_from_id : option string) (settings : option EffectiveThreadSettings) : step :=
  let other := other_response s thread_id forked_from_id settings in
  match rs_phase s with
  | AwaitReadResponse expected_id =>
      if bool_decide (id = expected_id) then read_response s has_error thread_id else other
  | AwaitResumeResponse expected_id =>
      if bool_decide (id = expected_id)
      then resume_response s has_error thread_id forked_from_id settings else other
  | AwaitPostResumeReadResponse expected_id parent_thread_id require_error =>
      if bool_decide (id = expected_id)
      then parent_response s parent_thread_id require_error has_error thread_id forked_from_id settings
      else other
  | _ => other
  end.

Definition observe (s : ReadinessState) (event : ObservedEvent) : step :=
  match event with
  | Handshake direction => observe_handshake s direction
  | Request id method thread_id include_turns => observe_request s id method thread_id include_turns
  | Response id has_error thread_id forked_from_id settings =>
      observe_response s id has_error thread_id forked_from_id settings
  | ProviderRequest _ _ | ProviderNotification _ =>
      if rs_server_handshake s then Ok (s, is_ready (rs_phase s)) else Err Rp_UnexpectedSequence
  end.

(** The events of a relay in the order they are received; [true] once one of
    them made it ready. *)
Fixpoint observe_all (s : ReadinessState) (events : list ObservedEvent) : step :=
  match events with
  | [] => Ok (s, is_ready (rs_phase s))
  | event :: events => '(s, _) ← observe s event; observe_all s events
  end.

(** ** What readiness is worth *)

(** The client asked for the thread: without its turns where the policy is
    exact. *)
Definition read_request (e : ReadinessExpectation) (id : value) (event : ObservedEvent) : Prop :=
  ∃ turns, event = Request id ThreadRead (re_thread_id e) turns ∧
    match re_policy e with ExactResume _ => turns ≠ Some true | SyntheticFork _ _ => True end.

(** The read and its answer by the server: no error, and about the thread. *)
Definition thread_read (e : ReadinessExpectation) (l : list ObservedEvent) : Prop :=
  ∃ id request forked settings,
    read_request e id request
    ∧ l = [request; Response id false (Some (re_thread_id e)) forked settings].

(** The resume of the thread, answered with settings the policy accepts. *)
Definition thread_resumed (e : ReadinessExpectation) (forked : option string)
    (settings : EffectiveThreadSettings) (l : list ObservedEvent) : Prop :=
  ∃ id turns,
    l = [Request id ThreadResume (re_thread_id e) turns;
         Response id false (Some (re_thread_id e)) forked (Some settings)]
    ∧ match re_policy e with
      | SyntheticFork source expected => settings = expected ∧ forked = Some source
      | ExactResume cwd => es_cwd settings = cwd
      end.

(** The read of the parent: a fork of a synthetic probe must not find it, and
    another must find it or fail. *)
Definition parent_request (e : ReadinessExpectation) (parent : string) (id : value)
    (event : ObservedEvent) : Prop :=
  ∃ turns, event = Request id ThreadRead parent turns ∧
    match re_policy e with ExactResume _ => turns ≠ Some true | SyntheticFork _ _ => turns = None end.
Definition parent_answer (e : ReadinessExpectation) (parent : string) (id : value)
    (event : ObservedEvent) : Prop :=
  event = Response id true None None None ∨
  (∃ forked, event = Response id false (Some parent) forked None) ∧
  match re_policy e with ExactResume _ => True | SyntheticFork _ _ => False end.
Definition parent_read (e : ReadinessExpectation) (forked : option string) (l : list ObservedEvent) : Prop :=
  match forked with
  | None => l = []
  | Some parent => ∃ id request answer,
      parent_request e parent id request ∧ parent_answer e parent id answer ∧ l = [request; answer]
  end.

Definition handshakes : list ObservedEvent := [Handshake ClientToServer; Handshake ServerToClient].

(** The whole exchange: both handshakes, client first, and then each request
    before its own response. *)
Definition exchange (e : ReadinessExpectation) (settings : EffectiveThreadSettings)
    (l : list ObservedEvent) : Prop :=
  ∃ read resume parent forked,
    l = handshakes ++ read ++ resume ++ parent
    ∧ thread_read e read ∧ thread_resumed e forked settings resume ∧ parent_read e forked parent.

(** *** The invariant of the observer *)

(** The part of the exchange before a phase. *)
Definition parent_of (e : ReadinessExpectation) (parent : string) (require_error : bool) : Prop :=
  require_error = match re_policy e with SyntheticFork _ _ => true | ExactResume _ => false end.
Definition so_far (e : ReadinessExpectation) (phase : ReadinessPhase)
    (settings : option EffectiveThreadSettings) (l : list ObservedEvent) : Prop :=
  match phase with
  | AwaitReadRequest => l = []
  | AwaitReadResponse id => ∃ request, read_request e id request ∧ l = [request]
  | AwaitResumeRequest => thread_read e l
  | AwaitResumeResponse id =>
      ∃ read turns, thread_read e read ∧ l = read ++ [Request id ThreadResume (re_thread_id e) turns]
  | AwaitPostResumeReadRequest parent require_error =>
      ∃ read resume s, thread_read e read ∧ thread_resumed e (Some parent) s resume
        ∧ settings = Some s ∧ l = read ++ resume ∧ parent_of e parent require_error
  | AwaitPostResumeReadResponse id parent require_error =>
      ∃ read resume s request, thread_read e read ∧ thread_resumed e (Some parent) s resume
        ∧ settings = Some s ∧ parent_request e parent id request
        ∧ l = read ++ resume ++ [request] ∧ parent_of e parent require_error
  | Ready => ∃ s, settings = Some s ∧ exchange e s (handshakes ++ l)
  end.
Definition observed (e : ReadinessExpectation) (s : ReadinessState) (l : list ObservedEvent) : Prop :=
  rs_expectation s = e ∧
  match rs_client_handshake s, rs_server_handshake s with
  | true, true => ∃ body, l = handshakes ++ body ∧ so_far e (rs_phase s) (rs_effective_settings s) body
  | true, false => l = [Handshake ClientToServer] ∧ rs_phase s = AwaitReadRequest
  | false, false => l = [] ∧ rs_phase s = AwaitReadRequest
  | false, true => False
  end.

Lemma validate_target_response_Ok has_error actual expected :
  validate_target_response has_error actual expected = Ok () →
  has_error = false ∧ actual = Some expected.
Proof.
  unfold validate_target_response. intros H. inv_ok. destruct actual as [a|]; [|done]. inv_ok.
  by destruct (String.eqb_spec a expected) as [->|].
Qed.

(** An event that is none of the exchange changes nothing. *)
Lemma other_response_Ok s thread_id forked settings s' ready :
  other_response s thread_id forked settings = Ok (s', ready) → s' = s ∧ ready = is_ready (rs_phase s).
Proof. unfold other_response. intros H. inv_ok. by simplify_eq. Qed.

Abbreviation stepped e s' ready l event :=
  (ready = is_ready (rs_phase s') ∧ (observed e s' l ∨ observed e s' (l ++ [event]))).

Lemma observe_handshake_step e s l d s' ready :
  observed e s l → observe_handshake s d = Ok (s', ready) → stepped e s' ready l (Handshake d).
Proof.
  unfold observed. intros (He & Hs) H. destruct s as [ex c v ph st]; cbn in *. subst ex.
  destruct d; cbn in H.
  - destruct c; [done|]. destruct v; [done|]. destruct Hs as [-> ->]. injection H as <- <-. cbn. auto.
  - destruct c, v; try done. destruct Hs as [-> ->]. injection H as <- <-. cbn. split; [done|].
    right. split; [done|]. by exists [].
Qed.

(** The state after both handshakes, which every other event needs. *)
Lemma observed_body e s l :
  observed e s l → rs_server_handshake s = true ∨ rs_phase s ≠ AwaitReadRequest →
  rs_client_handshake s = true ∧ rs_server_handshake s = true ∧
  ∃ body, l = handshakes ++ body ∧ so_far e (rs_phase s) (rs_effective_settings s) body.
Proof.
  intros (_ & Hs) H. destruct (rs_client_handshake s), (rs_server_handshake s); try tauto.
  all: destruct Hs as [_ Hp], H as [?|H]; [done|by destruct (H Hp)].
Qed.
Lemma observed_phase e s l body phase event :
  observed e s l → rs_client_handshake s = true → rs_server_handshake s = true →
  l = handshakes ++ body → so_far e phase (rs_effective_settings s) (body ++ [event]) →
  observed e (set_phase phase s) (l ++ [event]).
Proof.
  intros (He & _) Hc Hv -> Hb. split; [done|]. cbn -[app]. rewrite Hc, Hv.
  exists (body ++ [event]). by rewrite app_assoc.
Qed.

Lemma observe_request_step e s l id method t turns s' ready :
  observed e s l → observe_request s id method t turns = Ok (s', ready) →
  stepped e s' ready l (Request id method t turns).
Proof.
  intros Hs H. unfold observe_request in H. apply bind_Ok in H as ([] & Hv & H).
  apply reject_if_Ok, negb_false_iff in Hv.
  destruct (observed_body _ _ _ Hs (or_introl Hv)) as (Hc & _ & body & Hl & Hb). pose proof Hs as [He _].
  destruct (rs_phase s) eqn:Hp, method; try done; inv_ok; simplify_eq; cbn [rs_phase set_phase];
    (split; [done|]); right; (eapply observed_phase; [done..|]);
    repeat match goal with
    | H : negb _ = false |- _ => apply negb_false_iff in H
    | H : _ || _ = false |- _ => apply orb_false_iff in H as [? ?]
    | H : String.eqb _ _ = true |- _ => apply String.eqb_eq in H
    end; subst; cbn in *.
  - subst body. eexists. split; [|done]. eexists. split; [done|]. unfold not_turns in *.
    destruct (re_policy _); [done|]. by case_bool_decide.
  - eauto.
  - destruct Hb as (read & resume & st & Hr & Hm & Hst & -> & Hpar). exists read, resume, st. eexists.
    split_and!; [done..| |by rewrite <- app_assoc|done]. eexists. split; [done|].
    unfold not_turns in *. destruct (re_policy _); [by destruct turns|]. by case_bool_decide.
Qed.

(** The answer to the resume: what it settles, and the parent it names. *)
Lemma resume_answer_Ok e settings forked parent id turns :
  settings_match (re_policy e) settings = true → resume_parent (re_policy e) forked = Ok parent →
  thread_resumed e forked settings
    [Request id ThreadResume (re_thread_id e) turns;
     Response id false (Some (re_thread_id e)) forked (Some settings)]
  ∧ match parent with
    | Some (p, require_error) => forked = Some p ∧ parent_of e p require_error
    | None => forked = None
    end.
Proof.
  unfold thread_resumed, parent_of, settings_match, resume_parent. intros Hm Hp.
  destruct (re_policy e) as [source expected|cwd].
  - apply bool_decide_eq_true in Hm. inv_ok. simplify_eq.
    case_bool_decide; [|done]. split; [|done]. by eexists _, _.
  - apply String.eqb_eq in Hm. injection Hp as <-. split; [by eexists _, _|]. by destruct forked.
Qed.

Lemma resume_response_step e s l id err t f st s' ready :
  observed e s l → rs_phase s = AwaitResumeResponse id →
  resume_response s err t f st = Ok (s', ready) → stepped e s' ready l (Response id err t f st).
Proof.
  intros Hs Hp H. destruct (observed_body _ _ _ Hs) as (Hc & Hv & body & Hl & Hb); [by rewrite Hp; right|].
  pose proof Hs as [He _]. rewrite Hp in Hb. destruct Hb as (read & turns & Hread & Hbody).
  destruct s as [ex c v ph stt]; cbn [rs_expectation rs_client_handshake rs_server_handshake rs_phase] in *. subst ex c v ph.
  unfold resume_response in H. apply bind_Ok in H as ([] & Hok & H).
  apply validate_target_response_Ok in Hok as [-> ->].
  apply bind_Ok in H as (settings & Hset & H). apply bind_Ok in H as (answer & Hans & H).
  unfold validate_resume_settings in Hset. apply bind_Ok in Hset as (a & ->%ok_or_Ok & Hset).
  apply bind_Ok in Hset as ([] & Hset%reject_if_Ok%negb_false_iff & [= ->]).
  cbn [rs_expectation set_settings] in *.
  destruct (resume_answer_Ok _ _ _ _ id turns Hset Hans) as [Hm Hpar].
  assert (Hl' : ∀ x, l ++ [x] = handshakes ++ read ++ [Request id ThreadResume (re_thread_id e) turns; x]).
  { intros x. subst l body. by rewrite <- !app_assoc. }
  destruct answer as [[parent require_error]|]; injection H as <- <-; (split; [done|]); right; (split; [done|]);
    (eexists; split; [apply Hl'|]); cbn [rs_phase rs_effective_settings set_phase set_settings so_far].
  - destruct Hpar as [-> Hpar]. eexists _, _, _. split_and!; try done.
  - subst f. eexists. split; [done|]. eexists _, _, [], _. rewrite app_nil_r. split_and!; try done.
Qed.

Lemma parent_response_step e s l id parent require_error err t f st s' ready :
  observed e s l → rs_phase s = AwaitPostResumeReadResponse id parent require_error →
  parent_response s parent require_error err t f st = Ok (s', ready) →
  stepped e s' ready l (Response id err t f st).
Proof.
  intros Hs Hp H. destruct (observed_body _ _ _ Hs) as (Hc & Hv & body & Hl & Hb); [by rewrite Hp; right|].
  pose proof Hs as [He _]. rewrite Hp in Hb.
  destruct Hb as (read & resume & settings & request & Hread & Hres & Hst & Hreq & Hbody & Hpar).
  unfold parent_response in H. apply bind_Ok in H as ([] & Hok & H). injection H as <- <-. split; [done|]. right.
  eapply observed_phase; [done..|]. cbn [so_far]. exists settings. split; [done|].
  eexists read, resume, [request; Response id err t f st], (Some parent).
  split; [by subst body; rewrite <- !app_assoc|]. split; [done|]. split; [done|].
  exists id, request, (Response id err t f st). split; [done|]. split; [|done].
  unfold parent_answer, parent_of in *. destruct err; inv_ok.
  - left. rewrite !orb_false_iff in Hok. destruct Hok as [[? ?] ?]. by destruct t, f, st.
  - right. rewrite orb_false_iff in Hok0. destruct Hok0 as [-> ?]. apply validate_target_response_Ok in Hok as [_ ->].
    destruct st; [done|]. split; [eauto|]. by destruct (re_policy e).
Qed.

Lemma observe_response_step e s l id err t f st s' ready :
  observed e s l → observe_response s id err t f st = Ok (s', ready) →
  stepped e s' ready l (Response id err t f st).
Proof.
  intros Hs H. unfold observe_response in H.
  assert (Hother : other_response s t f st = Ok (s', ready) → stepped e s' ready l (Response id err t f st)).
  { intros [-> ->]%other_response_Ok. auto. }
  destruct (rs_phase s) as [|id'| |id'| |id' parent req|] eqn:Hp; try by apply Hother.
  all: case_bool_decide; [subst id'|by apply Hother].
  - unfold read_response in H. apply bind_Ok in H as ([] & Hok & H). apply validate_target_response_Ok in Hok as [-> ->].
    injection H as <- <-. split; [done|]. right.
    destruct (observed_body _ _ _ Hs) as (Hc & Hv & body & Hl & Hb); [by rewrite Hp; right|].
    pose proof Hs as [He _]. rewrite Hp in Hb. destruct Hb as (request & Hreq & ->). subst e.
    eapply observed_phase; [done..|]. eexists _, _, _, _. by split.
  - by eapply resume_response_step.
  - by eapply parent_response_step.
Qed.

Lemma exchange_step e s l event s' ready :
  observed e s l → observe s event = Ok (s', ready) → stepped e s' ready l event.
Proof.
  intros Hs. destruct event as [d|id method t turns|id err t f st|id m|m]; cbn [observe].
  - by apply observe_handshake_step.
  - by apply observe_request_step.
  - by apply observe_response_step.
  - destruct (rs_server_handshake s); [|done]. intros [= <- <-]. auto.
  - destruct (rs_server_handshake s); [|done]. intros [= <- <-]. auto.
Qed.

Lemma observe_all_observed e s l events s' ready :
  observed e s l → observe_all s events = Ok (s', ready) →
  ready = is_ready (rs_phase s') ∧ ∃ main, sublist main events ∧ observed e s' (l ++ main).
Proof.
  revert s l. induction events as [|event events IH]; intros s l Hs H; cbn in H.
  - injection H as <- <-. split; [done|]. exists []. rewrite app_nil_r. split; [constructor|done].
  - apply bind_Ok in H as ([s1 r1] & H1 & H). destruct (exchange_step _ _ _ _ _ _ Hs H1) as [_ [Ho|Ho]].
    + destruct (IH _ _ Ho H) as (Hr & main & Hsub & Hm). split; [done|]. exists main.
      split; [by constructor|done].
    + destruct (IH _ _ Ho H) as (Hr & main & Hsub & Hm). split; [done|]. exists (event :: main).
      split; [by constructor|]. by rewrite <- app_assoc in Hm.
Qed.

(** A relay that reports readiness has seen, in this order and whatever else
    passed in between: the handshake of the client and then of the server; the
    client's read of the expected thread and the server's answer that it has
    it; the client's resume of it and the answer, with the settings that are
    reported, which are those the policy asks for; and, for a thread with a
    parent, the read of that parent and its answer, which for a probe's fork
    has to be an error. *)
Theorem readiness_sound e events s :
  observe_all (new_state e) events = Ok (s, true) →
  ∃ settings main,
    rs_effective_settings s = Some settings
    ∧ exchange e settings main ∧ sublist main events.
Proof.
  intros H. assert (H0 : observed e (new_state e) []) by by split.
  destruct (observe_all_observed _ _ _ _ _ _ H0 H) as (Hr & main & Hsub & Hm).
  destruct (rs_phase s) eqn:Hp; try done.
  destruct (observed_body _ _ _ Hm) as (_ & _ & body & Hl & Hb); [by rewrite Hp; right|].
  rewrite Hp in Hb. destruct Hb as (settings & Hst & He). cbn [app] in Hl. rewrite <- Hl in He. eauto.
Qed.

(** ** The exchange is enough *)

(** What the server sends of its own accord. *)
Definition is_provider (event : ObservedEvent) : bool :=
  match event with ProviderRequest _ _ | ProviderNotification _ => true | _ => false end.
Definition thread_events (events : list ObservedEvent) : list ObservedEvent :=
  List.filter (fun event => negb (is_provider event)) events.

Lemma observe_keeps_handshake s event s' ready :
  rs_server_handshake s = true → observe s event = Ok (s', ready) → rs_server_handshake s' = true.
Proof.
  intros Hv H.
  assert (Ho : ∀ t f st, other_response s t f st = Ok (s', ready) → rs_server_handshake s' = true).
  { intros t f st [-> _]%other_response_Ok. done. }
  destruct event as [d|id method t turns|id err t f st|id m|m]; cbn [observe] in H.
  - destruct d; cbn in H; [destruct (negb _)|destruct (_ && _)]; try done; by injection H as <- _.
  - unfold observe_request in H. inv_ok. destruct (rs_phase s), method; try done; inv_ok; by simplify_eq.
  - unfold observe_response in H. destruct (rs_phase s) as [|i| |i| |i p r|]; eauto.
    all: case_bool_decide; eauto.
    + unfold read_response in H. inv_ok. by simplify_eq.
    + unfold resume_response in H. inv_ok. destruct a1 as [[]|]; by simplify_eq.
    + unfold parent_response in H. inv_ok. by simplify_eq.
  - rewrite Hv in H. by injection H as <- _.
  - rewrite Hv in H. by injection H as <- _.
Qed.

Lemma observe_all_thread_events s events :
  rs_server_handshake s = true → observe_all s events = observe_all s (thread_events events).
Proof.
  revert s. induction events as [|event events IH]; intros s Hv; [done|]. cbn [thread_events List.filter].
  destruct (is_provider event) eqn:Hp; cbn [negb].
  - cbn [observe_all]. destruct event; try done; cbn [observe]; rewrite Hv; by apply IH.
  - cbn [observe_all]. destruct (observe s event) as [[s1 r]|] eqn:Ho; [|done]. cbn.
    apply IH. by eapply observe_keeps_handshake.
Qed.

Lemma not_turns_true turns : turns ≠ Some true → not_turns turns = true.
Proof. intros H. unfold not_turns. by rewrite bool_decide_false. Qed.

(** Each part of the exchange moves the observer to the next. *)
Lemma observe_read e c st read rest :
  thread_read e read →
  observe_all (mkReadinessState e c true AwaitReadRequest st) (read ++ rest)
  = observe_all (mkReadinessState e c true AwaitResumeRequest st) rest.
Proof.
  intros (id & request & forked & settings & (turns & -> & Ht) & ->). cbn.
  rewrite String.eqb_refl. cbn. assert ((match re_policy e with SyntheticFork _ _ => true | ExactResume _ => not_turns turns end) = true) as ->
    by (destruct (re_policy e); [done|by apply not_turns_true]). cbn.
  rewrite bool_decide_true by done. cbn. by rewrite String.eqb_refl.
Qed.
Lemma observe_resume e c st forked settings resume rest :
  thread_resumed e forked settings resume →
  observe_all (mkReadinessState e c true AwaitResumeRequest st) (resume ++ rest)
  = observe_all (mkReadinessState e c true
      (match forked with
       | Some parent => AwaitPostResumeReadRequest parent
                          (match re_policy e with SyntheticFork _ _ => true | ExactResume _ => false end)
       | None => Ready
       end) (Some settings)) rest.
Proof.
  intros (id & turns & -> & Hp). cbn. rewrite String.eqb_refl. cbn. rewrite bool_decide_true by done. cbn.
  rewrite String.eqb_refl. cbn.
  unfold settings_match, resume_parent. destruct (re_policy e) as [source expected|cwd].
  - destruct Hp as [-> ->]. by rewrite !bool_decide_true.
  - subst cwd. rewrite String.eqb_refl. by destruct forked.
Qed.
Lemma observe_parent e c settings forked parent :
  parent_read e forked parent →
  observe_all (mkReadinessState e c true
      (match forked with
       | Some parent => AwaitPostResumeReadRequest parent
                          (match re_policy e with SyntheticFork _ _ => true | ExactResume _ => false end)
       | None => Ready
       end) (Some settings)) parent
  = Ok (mkReadinessState e c true Ready (Some settings), true).
Proof.
  destruct forked as [p|]; [|by intros ->].
  intros (id & request & answer & (turns & -> & Ht) & Ha & ->). cbn. rewrite String.eqb_refl. cbn.
  assert ((match re_policy e with SyntheticFork _ _ => negb (is_some turns) | ExactResume _ => not_turns turns end) = true) as ->
    by (destruct (re_policy e); [by rewrite Ht|by apply not_turns_true]). cbn.
  destruct Ha as [->|[(f & ->) Hpol]]; cbn; rewrite bool_decide_true by done; cbn; [done|].
  destruct (re_policy e); [done|]. cbn. by rewrite String.eqb_refl.
Qed.

(** C40. Readiness is reached by the exchange, whatever the server requests or
    announces in between, and reported with the settings of the exchange. *)
Theorem readiness_reached e settings body events :
  exchange e settings (handshakes ++ body) → thread_events events = body →
  ∃ s, observe_all (new_state e) (handshakes ++ events) = Ok (s, true)
       ∧ rs_effective_settings s = Some settings.
Proof.
  intros (read & resume & parent & forked & Hl & Hread & Hres & Hpar) <-. cbn in Hl.
  injection Hl as Hl. exists (mkReadinessState e true true Ready (Some settings)). split; [|done].
  cbn. rewrite observe_all_thread_events by done. rewrite Hl.
  change (set_handshakes _ _ _) with (mkReadinessState e true true AwaitReadRequest None).
  by rewrite (observe_read e _ _ _ _ Hread), (observe_resume e _ _ _ _ _ _ Hres), (observe_parent e _ _ _ _ Hpar).
Qed.
End state.
