(* ===== verification/RelayControl.v ===== *)
(** * The readiness relay: the shared outcome (src/providers/codex/remote.rs)

    The lifecycle of a relay, the first origin of a transport failure and the
    selected outcome, which the copy pumps, the worker and the caller share.
    Each operation holds the lock of the selection throughout and is one step;
    [evolves] is what every one of them keeps. *)
From S2P Require Import Prelude Interfaces ReadinessFrames.

Open Scope Z_scope.

Definition RELAY_RUNNING : Z := 0.
Definition RELAY_DISCONNECTED : Z := 1.
Definition RELAY_STOPPING : Z := 2.
Definition TRANSPORT_ORIGIN_UNSET : Z := 0.

#[export] Instance ReadinessTransportOrigin_eq_dec : EqDecision ReadinessTransportOrigin.
Proof. solve_decision. Defined.
#[export] Instance ReadinessProxyError_eq_dec : EqDecision ReadinessProxyError.
Proof. solve_decision. Defined.

(** [origin as u8]. *)
Definition origin_code (o : ReadinessTransportOrigin) : Z :=
  match o with
  | ClientConfigure => 1 | ClientClone => 2 | ClientEof => 3 | ClientRead => 4 | ClientWrite => 5
  | UpstreamClone => 6 | UpstreamEof => 7 | UpstreamRead => 8 | UpstreamWrite => 9
  | ObservationDelivery => 10 | ObservationChannelDisconnected => 11 | LifecycleDisconnected => 12
  | WorkerFinished => 13 | HealthClientPoll => 14 | HealthClientPeek => 15 | HealthClientEof => 16
  | HealthUpstreamPoll => 17 | HealthUpstreamPeek => 18 | HealthUpstreamEof => 19
  end.
Definition from_code (code : Z) : option ReadinessTransportOrigin :=
  match code with
  | 1 => Some ClientConfigure | 2 => Some ClientClone | 3 => Some ClientEof | 4 => Some ClientRead
  | 5 => Some ClientWrite | 6 => Some UpstreamClone | 7 => Some UpstreamEof | 8 => Some UpstreamRead
  | 9 => Some UpstreamWrite | 10 => Some ObservationDelivery
  | 11 => Some ObservationChannelDisconnected | 12 => Some LifecycleDisconnected
  | 13 => Some WorkerFinished | 14 => Some HealthClientPoll | 15 => Some HealthClientPeek
  | 16 => Some HealthClientEof | 17 => Some HealthUpstreamPoll | 18 => Some HealthUpstreamPeek
  | 19 => Some HealthUpstreamEof
  | _ => None
  end.

Inductive RelayFailureSelection := Open | Failed (e : ReadinessProxyError) | Stopped.
Inductive ProxyRunError := RunStopped | RunFailed (e : ReadinessProxyError).
#[export] Instance RelayFailureSelection_eq_dec : EqDecision RelayFailureSelection.
Proof. solve_decision. Defined.

Record RelayControl := mkRelayControl {
  lifecycle : Z;
  first : Z;
  selection : RelayFailureSelection;
}.
Definition new_control : RelayControl := mkRelayControl RELAY_RUNNING TRANSPORT_ORIGIN_UNSET Open.
Definition set_lifecycle (l : Z) (c : RelayControl) : RelayControl :=
  mkRelayControl l (first c) (selection c).
Definition set_first (f : Z) (c : RelayControl) : RelayControl :=
  mkRelayControl (lifecycle c) f (selection c).
Definition select (s : RelayFailureSelection) (c : RelayControl) : RelayControl :=
  mkRelayControl (lifecycle c) (first c) s.

(** ** The tracker of origins *)

Definition record_origin (origin : ReadinessTransportOrigin) (c : RelayControl)
    : ReadinessTransportOrigin * RelayControl :=
  if first c =? TRANSPORT_ORIGIN_UNSET then (origin, set_first (origin_code origin) c)
  else (default origin (from_code (first c)), c).
Definition transport_error (origin : ReadinessTransportOrigin) (c : RelayControl)
    : ReadinessProxyError * RelayControl :=
  let '(origin, c) := record_origin origin c in (Rp_Transport origin, c).
Definition authoritative (error : ReadinessProxyError) (c : RelayControl)
    : ReadinessProxyError * RelayControl :=
  match error with
  | Rp_Transport origin => transport_error origin c
  | error => (default error (Rp_Transport <$> from_code (first c)), c)
  end.
(** The authoritative error of [error], selected. *)
Definition fail_with (error : ReadinessProxyError) (c : RelayControl) : ReadinessProxyError * RelayControl :=
  let '(error, c) := authoritative error c in (error, select (Failed error) c).

Definition selected_failure (c : RelayControl) : option ReadinessProxyError :=
  match selection c with Failed e => Some e | Open | Stopped => None end.
Definition preserve_selected (c : RelayControl) (error : ReadinessProxyError) : ReadinessProxyError :=
  default error (selected_failure c).

(** ** The outcomes *)

Section settings.
Context {Settings : Type}.
Abbreviation Verdict := (result ReadinessProxyError Settings).

(** [received] is what [try_recv] finds in the channel of the verdict. *)
Definition arbitrate_deadline (received : option Verdict) (c : RelayControl) : Verdict * RelayControl :=
  match selection c with
  | Failed error => (Err error, c)
  | Stopped => (Err Rp_UnexpectedSequence, c)
  | Open =>
      match default (Err Rp_Timeout) received with
      | Ok settings => (Ok settings, c)
      | Err error => let '(error, c) := fail_with error c in (Err error, c)
      end
  end.

(** [published] is the result of [publish], which only runs in the one case
    that uses it. *)
Definition publish_readiness (published : result ReadinessProxyError ()) (c : RelayControl)
    : result ProxyRunError () * RelayControl :=
  if lifecycle c =? RELAY_STOPPING then (Err RunStopped, c)
  else match selection c with
  | Failed error => (Err (RunFailed error), c)
  | Stopped => (Err RunStopped, c)
  | Open =>
      if lifecycle c =? RELAY_RUNNING then
        match published with
        | Ok _ => (Ok (), c)
        | Err error => let '(error, c) := fail_with error c in (Err (RunFailed error), c)
        end
      else let '(error, c) := fail_with Rp_Worker c in (Err (RunFailed error), c)
  end.
(** Whether [publish_readiness] runs [publish]. *)
Definition publishes (c : RelayControl) : bool :=
  bool_decide (selection c = Open) && (lifecycle c =? RELAY_RUNNING).
End settings.

Definition select_failure (error : ReadinessProxyError) (c : RelayControl) : ProxyRunError * RelayControl :=
  match selection c with
  | Open => let '(error, c) := fail_with error c in (RunFailed error, c)
  | Failed selected => (RunFailed selected, c)
  | Stopped => (RunStopped, c)
  end.

Definition fail_while_running (error : ReadinessProxyError) (c : RelayControl)
    : option ReadinessProxyError * RelayControl :=
  if lifecycle c =? RELAY_STOPPING then (None, c)
  else match selection c with
  | Failed _ | Stopped => (None, c)
  | Open =>
      if lifecycle c =? RELAY_RUNNING then
        let '(error, c) := fail_with error c in (Some error, set_lifecycle RELAY_DISCONNECTED c)
      else (None, c)
  end.
Definition disconnect (origin : ReadinessTransportOrigin) (c : RelayControl)
    : option ReadinessProxyError * RelayControl :=
  fail_while_running (Rp_Transport origin) c.

Definition classify_disconnected (origin : ReadinessTransportOrigin) (c : RelayControl)
    : ReadinessProxyError * RelayControl :=
  match selection c with
  | Failed error => (error, c)
  | Open => fail_with (Rp_Transport origin) c
  | Stopped => (Rp_UnexpectedSequence, c)
  end.

Definition stop (c : RelayControl) : Z * RelayControl :=
  let c' := if bool_decide (selection c = Open) then select Stopped c else c in
  (lifecycle c, set_lifecycle RELAY_STOPPING c').

Definition stop_with_disconnected_origin (origin : ReadinessTransportOrigin) (c : RelayControl)
    : Z * option ReadinessProxyError * RelayControl :=
  let previous := lifecycle c in
  let '(error, c) :=
    match selection c with
    | Failed error => (Some error, c)
    | Open =>
        if previous =? RELAY_DISCONNECTED
        then let '(error, c) := fail_with (Rp_Transport origin) c in (Some error, c)
        else (None, select Stopped c)
    | Stopped => (None, c)
    end in
  (previous, error, set_lifecycle RELAY_STOPPING c).

Definition transport_failure (origin : ReadinessTransportOrigin) (c : RelayControl)
    : ProxyRunError * RelayControl :=
  let '(error, c) := disconnect origin c in
  (match error with
   | Some error => RunFailed error
   | None => default RunStopped (RunFailed <$> selected_failure c)
   end, c).

Definition select_run_error (error : ProxyRunError) (c : RelayControl) : ProxyRunError * RelayControl :=
  match error with
  | RunStopped => (RunStopped, c)
  | RunFailed error => select_failure error c
  end.

(** ** What every operation keeps *)

Lemma from_code_code o : from_code (origin_code o) = Some o.
Proof. by destruct o. Qed.
Lemma origin_code_set o : origin_code o ≠ TRANSPORT_ORIGIN_UNSET.
Proof. by destruct o. Qed.

(** The first origin is recorded with the selection of its failure, and a
    relay that is disconnected has failed, one that stops has an outcome. *)
Definition consistent (c : RelayControl) : Prop :=
  (first c = TRANSPORT_ORIGIN_UNSET ∨ ∃ o, first c = origin_code o ∧ selection c = Failed (Rp_Transport o))
  ∧ (∀ o, selection c = Failed (Rp_Transport o) → first c = origin_code o)
  ∧ (lifecycle c = RELAY_RUNNING
     ∨ lifecycle c = RELAY_DISCONNECTED ∧ (∃ e, selection c = Failed e)
     ∨ lifecycle c = RELAY_STOPPING ∧ selection c ≠ Open).

(** An outcome stays, the first origin stays and the lifecycle moves forward. *)
Definition evolves (c c' : RelayControl) : Prop :=
  consistent c →
  consistent c'
  ∧ (selection c ≠ Open → selection c' = selection c)
  ∧ (first c ≠ TRANSPORT_ORIGIN_UNSET → first c' = first c)
  ∧ lifecycle c ≤ lifecycle c'.

#[export] Instance evolves_preorder : PreOrder evolves.
Proof.
  split.
  - intros c Hc. split_and!; done || lia.
  - intros c1 c2 c3 H1 H2 Hc. destruct (H1 Hc) as (A1 & A2 & A3 & A4).
    destruct (H2 A1) as (B1 & B2 & B3 & B4). split; [done|]. split; [|split; [|lia]].
    + intros H. rewrite B2; [auto|]. by rewrite A2.
    + intros H. rewrite B3; [auto|]. by rewrite A3.
Qed.

Lemma consistent_lifecycle c : consistent c → 0 ≤ lifecycle c ≤ 2.
Proof.
  unfold consistent, RELAY_RUNNING, RELAY_DISCONNECTED, RELAY_STOPPING. intros (_ & _ & H). lia.
Qed.

(** Selecting a failure while the outcome is open. *)
Lemma evolves_fail c f e :
  selection c = Open →
  (first c = TRANSPORT_ORIGIN_UNSET →
   (f = TRANSPORT_ORIGIN_UNSET ∧ ∀ o, e ≠ Rp_Transport o) ∨ ∃ o, f = origin_code o ∧ e = Rp_Transport o) →
  evolves c (mkRelayControl (lifecycle c) f (Failed e)).
Proof.
  intros Ho Hunset (Hf & _ & Hl). assert (first c = TRANSPORT_ORIGIN_UNSET) as H0.
  { destruct Hf as [H|(o & _ & H)]; [done|]. by rewrite Ho in H. }
  split; [|split; [done|split; [done|cbn; lia]]]. split; [|split]; cbn.
  - destruct (Hunset H0) as [[-> _]|(o & -> & ->)]; [by left|right; eauto].
  - intros o [= ->]. destruct (Hunset H0) as [[_ He]|(o' & -> & [= ->])]; [by destruct (He o)|done].
  - rewrite Ho in Hl. destruct Hl as [Hl|[[_ [e' He]]|[_ He]]]; [by left|done|done].
Qed.
Lemma fail_with_spec error c :
  selection c = Open →
  selection (snd (fail_with error c)) = Failed (fst (fail_with error c))
  ∧ lifecycle (snd (fail_with error c)) = lifecycle c ∧ evolves c (snd (fail_with error c)).
Proof.
  intros Ho. unfold fail_with, authoritative, transport_error, record_origin.
  assert (Hother : ∀ error', (∀ o, error' ≠ Rp_Transport o) →
    evolves c (select (Failed (default error' (Rp_Transport <$> from_code (first c)))) c)).
  { intros e' He. apply evolves_fail; [done|]. intros H. left. split; [done|]. by rewrite H. }
  destruct error; try (cbn; split; [done|]; split; [done|]; by apply Hother).
  destruct (Z.eqb_spec (first c) TRANSPORT_ORIGIN_UNSET) as [Hf|Hf]; cbn; (split; [done|]; split; [done|]).
  - apply (evolves_fail c); [done|]. right. eauto.
  - by apply evolves_fail.
Qed.

(** Each operation evolves the control. *)
Lemma evolves_stopping c : selection c ≠ Open → evolves c (set_lifecycle RELAY_STOPPING c).
Proof.
  intros Ho Hc. pose proof (consistent_lifecycle _ Hc). destruct Hc as (H1 & H2 & _).
  split; [|split; [done|split; [done|cbn; unfold RELAY_STOPPING; lia]]].
  split; [done|]. split; [done|]. by right; right.
Qed.
Lemma evolves_stopped c : selection c = Open → evolves c (select Stopped c).
Proof.
  intros Ho (H1 & H2 & H3). rewrite Ho in *. split; [|split; [done|split; [done|cbn; lia]]].
  split; [|split; [done|]].
  - destruct H1 as [H1|(o & _ & ?)]; [by left|done].
  - destruct H3 as [H3|[[_ [e ?]]|[_ ?]]]; [by left|done|done].
Qed.
Lemma evolves_disconnected c e : selection c = Failed e → lifecycle c = RELAY_RUNNING →
  evolves c (set_lifecycle RELAY_DISCONNECTED c).
Proof.
  intros Ho Hl (H1 & H2 & _). split; [|split; [done|split; [done|cbn; rewrite Hl; done]]].
  split; [done|]. split; [done|]. right; left. eauto.
Qed.

Ltac failing :=
  match goal with
  | Ho : selection ?c = Open |- context [fail_with ?error ?c] =>
      let Hs := fresh "Hsel" in let Hl := fresh "Hlife" in let He := fresh "Hev" in
      destruct (fail_with_spec error c Ho) as (Hs & Hl & He);
      destruct (fail_with error c) as [? ?]; cbn [fst snd] in *
  end.

Lemma arbitrate_deadline_evolves {S} (received : option (result _ S)) c :
  evolves c (snd (arbitrate_deadline received c)).
Proof.
  unfold arbitrate_deadline. destruct (selection c) eqn:Ho; [|done|done].
  destruct (default _ received); [done|]. by failing.
Qed.
Lemma publish_readiness_evolves published c : evolves c (snd (publish_readiness published c)).
Proof.
  unfold publish_readiness. destruct (_ =? _); [done|]. destruct (selection c) eqn:Ho; [|done|done].
  destruct (_ =? _); [destruct published; [done|]|]; by failing.
Qed.
Lemma select_failure_evolves error c : evolves c (snd (select_failure error c)).
Proof. unfold select_failure. destruct (selection c) eqn:Ho; [|done|done]. by failing. Qed.
Lemma fail_while_running_evolves error c : evolves c (snd (fail_while_running error c)).
Proof.
  unfold fail_while_running. destruct (_ =? _); [done|]. destruct (selection c) eqn:Ho; [|done|done].
  destruct (Z.eqb_spec (lifecycle c) RELAY_RUNNING) as [Hr|]; [|done]. failing. cbn.
  etransitivity; [done|]. eapply evolves_disconnected; [done|]. by rewrite Hlife.
Qed.
Lemma classify_disconnected_evolves origin c : evolves c (snd (classify_disconnected origin c)).
Proof. unfold classify_disconnected. destruct (selection c) eqn:Ho; [|done|done]. by failing. Qed.
Lemma stop_evolves c : evolves c (snd (stop c)).
Proof.
  unfold stop. cbn [snd]. case_bool_decide as Ho; [|by apply evolves_stopping].
  etransitivity; [by apply evolves_stopped|]. by apply evolves_stopping.
Qed.
Lemma stop_with_disconnected_origin_evolves origin c :
  evolves c (snd (stop_with_disconnected_origin origin c)).
Proof.
  unfold stop_with_disconnected_origin. destruct (selection c) as [|e|] eqn:Ho; cbn [snd].
  - destruct (_ =? _).
    + failing. etransitivity; [done|]. apply evolves_stopping. by rewrite Hsel.
    + etransitivity; [by apply evolves_stopped|]. by apply evolves_stopping.
  - apply evolves_stopping. by rewrite Ho.
  - apply evolves_stopping. by rewrite Ho.
Qed.
Lemma transport_failure_evolves origin c : evolves c (snd (transport_failure origin c)).
Proof.
  unfold transport_failure, disconnect. pose proof (fail_while_running_evolves (Rp_Transport origin) c).
  by destruct (fail_while_running _ c).
Qed.
Lemma select_run_error_evolves error c : evolves c (snd (select_run_error error c)).
Proof. destruct error; [done|]. apply select_failure_evolves. Qed.

Create HintDb relay discriminated.
#[export] Hint Resolve arbitrate_deadline_evolves publish_readiness_evolves select_failure_evolves
  fail_while_running_evolves classify_disconnected_evolves stop_evolves
  stop_with_disconnected_origin_evolves transport_failure_evolves select_run_error_evolves : relay.

(** ** What a failure reports *)

Lemma select_failure_answer error c e c' :
  select_failure error c = (RunFailed e, c') → selection c' = Failed e.
Proof.
  unfold select_failure. destruct (selection c) eqn:Ho; [failing|..]; intros [= <- <-]; done.
Qed.
Lemma arbitrate_deadline_answer {S} (received : option (result _ S)) c e c' :
  arbitrate_deadline received c = (Err e, c') → selection c' = Failed e ∨ selection c' = Stopped.
Proof.
  unfold arbitrate_deadline. destruct (selection c) eqn:Ho; [|intros [= <- <-]; auto..].
  destruct (default _ received); [done|]. failing. intros [= <- <-]. auto.
Qed.
Lemma preserve_selected_answer c error : selection c ≠ Open →
  selection c = Failed (preserve_selected c error) ∨ selection c = Stopped.
Proof. unfold preserve_selected, selected_failure. destruct (selection c); auto. done. Qed.
