(* ===== verification/RelaySystem.v ===== *)
(** * The readiness relay: its threads (src/providers/codex/remote.rs)

    One relay as a transition system: the two copy pumps, the worker and the
    caller that polls for readiness. Every access to what they share is a step
    of its own, so a run is any interleaving of them; the environment chooses
    what sockets, clocks and the health of the sockets answer. *)
From S2P Require Import Prelude Interfaces AppServer UniqueJson ReadinessFrames.
From S2P Require Import ThreadSettings ReadinessMessages ReadinessState RelayControl.

Open Scope Z_scope.

Definition COPY_BUFFER_BYTES : Z := 8 * 1024.
Definition EVENT_CHANNEL_CAPACITY : Z := 32.

Inductive HealthEndpoint := HealthClient | HealthUpstream.
Definition poll_origin (e : HealthEndpoint) : ReadinessTransportOrigin :=
  match e with HealthClient => HealthClientPoll | HealthUpstream => HealthUpstreamPoll end.
Definition peek_origin (e : HealthEndpoint) : ReadinessTransportOrigin :=
  match e with HealthClient => HealthClientPeek | HealthUpstream => HealthUpstreamPeek end.
Definition eof_origin (e : HealthEndpoint) : ReadinessTransportOrigin :=
  match e with HealthClient => HealthClientEof | HealthUpstream => HealthUpstreamEof end.

(** What [poll] and [recv] with [PEEK] find on a socket, interruptions aside. *)
Inductive SocketHealth := Healthy | PollFailed | HungUp | PeekedEof | PeekFailed.

Definition socket_is_connected (endpoint : HealthEndpoint) (found : SocketHealth) (c : RelayControl)
    : result ReadinessProxyError bool * RelayControl :=
  let failed origin :=
    let '(error, c) := disconnect origin c in
    (match error with Some error => Err error | None => Ok false end, c) in
  match found with
  | Healthy => (Ok true, c)
  | PollFailed => failed (poll_origin endpoint)
  | HungUp | PeekedEof => (Ok false, snd (disconnect (eof_origin endpoint) c))
  | PeekFailed => failed (peek_origin endpoint)
  end.

Section relay.
Context {UC : UuidCrate} {JS : JsonCrate} {JX : JsonSyntax} `{VE : !EqDecision value}.

Abbreviation Settings := EffectiveThreadSettings.
Abbreviation Verdict := (result ReadinessProxyError Settings).

Definition inspect (p : ProtocolInspector) (b : bytes)
    : result ReadinessProxyError (ProtocolInspector * list ObservedEvent) :=
  feed inspect_message Handshake p b.

(** ** The state *)

Inductive PumpEvent :=
| Observed (event : ObservedEvent)
| Ended (error : ReadinessProxyError)
| PumpFailed (error : ReadinessProxyError).

(** Where a pump is: not spawned; at its read; with a chunk it has read while the relay is
    inspecting; with the events of a chunk that is to be forwarded; holding the
    order lock with events to deliver; with a last event to report; returned. *)
Inductive PumpPc :=
| Unspawned
| Reading
| Inspecting (chunk : bytes)
| Forwarding (chunk : bytes) (events : list ObservedEvent)
| Delivering (events : list ObservedEvent)
| Reporting (event : PumpEvent)
| PumpDone.

(** The last four fields are history: what was read, what of it the inspector
    accepted, what was written on and the events that were delivered. *)
Record Pump := mkPump {
  pu_pc : PumpPc;
  pu_inspector : ProtocolInspector;
  pu_read : bytes;
  pu_inspected : bytes;
  pu_forwarded : bytes;
  pu_delivered : list ObservedEvent;
}.
Definition new_pump (direction : Direction) : Pump :=
  mkPump Unspawned (new_inspector direction) [] [] [] [].
Definition at_pc (pc : PumpPc) (p : Pump) : Pump :=
  mkPump pc (pu_inspector p) (pu_read p) (pu_inspected p) (pu_forwarded p) (pu_delivered p).

(** Where the worker is: [accept_client], [connect_upstream], the clones and
    the pumps, the head of its loop, the receive, the publication, the
    selection of a failure, the join of the pumps, the last selection, the
    notice of a failure, returned. *)
Inductive WorkerPc :=
| WAccept | WConnect | WSetup | WHead | WReceive
| WPublish (settings : Settings)
| WSelect (error : ReadinessProxyError)
| WJoin (outcome : ProxyRunError)
| WReport (outcome : ProxyRunError)
| WNotify (outcome : ProxyRunError)
| WDone (result : result ReadinessProxyError ()).

(** Where the caller is in [poll_ready] and [ensure_connected]. *)
Inductive CallerPc :=
| CIdle
| CEmpty
| CUndue
| CFinished
| CRecord (verdict : Verdict)
| CEnsureWorker
| CHealth (endpoint : HealthEndpoint)
| CClassify.

(** [verdict] is the channel of one place, [result] the caller's cache,
    [returned] and [connected] the history of what the calls returned,
    [delivered] of what the pumps delivered. *)
Record Relay := mkRelay {
  control : RelayControl;
  inspecting : bool;
  queue : list PumpEvent;
  receiver_open : bool;
  order : option Direction;
  client_pump : Pump;
  server_pump : Pump;
  worker : WorkerPc;
  readiness : ReadinessState;
  ready : bool;
  sent : bool;
  verdict : option Verdict;
  health : bool;
  caller : CallerPc;
  readiness_result : option Verdict;
  shutdown_error : option ReadinessProxyError;
  returned : list (result ReadinessProxyError (option Settings));
  connected : list (result ReadinessProxyError ());
  delivered : list ObservedEvent;
}.
Definition new_relay (expectation : ReadinessExpectation) : Relay :=
  mkRelay new_control true [] true None (new_pump ClientToServer) (new_pump ServerToClient)
    WAccept (new_state expectation) false false None false CIdle None None [] [] [].

(** The state with one field replaced. *)
Definition set_control (x : RelayControl) (r : Relay) : Relay :=
  mkRelay x (inspecting r) (queue r) (receiver_open r) (order r) (client_pump r)
    (server_pump r) (worker r) (readiness r) (ready r) (sent r) (verdict r) (health r)
    (caller r) (readiness_result r) (shutdown_error r) (returned r) (connected r) (delivered
    r).
Definition set_inspecting (x : bool) (r : Relay) : Relay :=
  mkRelay (control r) x (queue r) (receiver_open r) (order r) (client_pump r) (server_pump
    r) (worker r) (readiness r) (ready r) (sent r) (verdict r) (health r) (caller r)
    (readiness_result r) (shutdown_error r) (returned r) (connected r) (delivered r).
Definition set_queue (x : list PumpEvent) (r : Relay) : Relay :=
  mkRelay (control r) (inspecting r) x (receiver_open r) (order r) (client_pump r)
    (server_pump r) (worker r) (readiness r) (ready r) (sent r) (verdict r) (health r)
    (caller r) (readiness_result r) (shutdown_error r) (returned r) (connected r) (delivered
    r).
Definition set_receiver_open (x : bool) (r : Relay) : Relay :=
  mkRelay (control r) (inspecting r) (queue r) x (order r) (client_pump r) (server_pump r)
    (worker r) (readiness r) (ready r) (sent r) (verdict r) (health r) (caller r)
    (readiness_result r) (shutdown_error r) (returned r) (connected r) (delivered r).
Definition set_order (x : option Direction) (r : Relay) : Relay :=
  mkRelay (control r) (inspecting r) (queue r) (receiver_open r) x (client_pump r)
    (server_pump r) (worker r) (readiness r) (ready r) (sent r) (verdict r) (health r)
    (caller r) (readiness_result r) (shutdown_error r) (returned r) (connected r) (delivered
    r).
Definition set_client_pump (x : Pump) (r : Relay) : Relay :=
  mkRelay (control r) (inspecting r) (queue r) (receiver_open r) (order r) x (server_pump r)
    (worker r) (readiness r) (ready r) (sent r) (verdict r) (health r) (caller r)
    (readiness_result r) (shutdown_error r) (returned r) (connected r) (delivered r).
Definition set_server_pump (x : Pump) (r : Relay) : Relay :=
  mkRelay (control r) (inspecting r) (queue r) (receiver_open r) (order r) (client_pump r) x
    (worker r) (readiness r) (ready r) (sent r) (verdict r) (health r) (caller r)
    (readiness_result r) (shutdown_error r) (returned r) (connected r) (delivered r).
Definition set_worker (x : WorkerPc) (r : Relay) : Relay :=
  mkRelay (control r) (inspecting r) (queue r) (receiver_open r) (order r) (client_pump r)
    (server_pump r) x (readiness r) (ready r) (sent r) (verdict r) (health r) (caller r)
    (readiness_result r) (shutdown_error r) (returned r) (connected r) (delivered r).
Definition set_readiness (x : ReadinessState) (r : Relay) : Relay :=
  mkRelay (control r) (inspecting r) (queue r) (receiver_open r) (order r) (client_pump r)
    (server_pump r) (worker r) x (ready r) (sent r) (verdict r) (health r) (caller r)
    (readiness_result r) (shutdown_error r) (returned r) (connected r) (delivered r).
Definition set_ready (x : bool) (r : Relay) : Relay :=
  mkRelay (control r) (inspecting r) (queue r) (receiver_open r) (order r) (client_pump r)
    (server_pump r) (worker r) (readiness r) x (sent r) (verdict r) (health r) (caller r)
    (readiness_result r) (shutdown_error r) (returned r) (connected r) (delivered r).
Definition set_sent (x : bool) (r : Relay) : Relay :=
  mkRelay (control r) (inspecting r) (queue r) (receiver_open r) (order r) (client_pump r)
    (server_pump r) (worker r) (readiness r) (ready r) x (verdict r) (health r) (caller r)
    (readiness_result r) (shutdown_error r) (returned r) (connected r) (delivered r).
Definition set_verdict (x : option Verdict) (r : Relay) : Relay :=
  mkRelay (control r) (inspecting r) (queue r) (receiver_open r) (order r) (client_pump r)
    (server_pump r) (worker r) (readiness r) (ready r) (sent r) x (health r) (caller r)
    (readiness_result r) (shutdown_error r) (returned r) (connected r) (delivered r).
Definition set_health (x : bool) (r : Relay) : Relay :=
  mkRelay (control r) (inspecting r) (queue r) (receiver_open r) (order r) (client_pump r)
    (server_pump r) (worker r) (readiness r) (ready r) (sent r) (verdict r) x (caller r)
    (readiness_result r) (shutdown_error r) (returned r) (connected r) (delivered r).
Definition set_caller (x : CallerPc) (r : Relay) : Relay :=
  mkRelay (control r) (inspecting r) (queue r) (receiver_open r) (order r) (client_pump r)
    (server_pump r) (worker r) (readiness r) (ready r) (sent r) (verdict r) (health r) x
    (readiness_result r) (shutdown_error r) (returned r) (connected r) (delivered r).
Definition set_readiness_result (x : option Verdict) (r : Relay) : Relay :=
  mkRelay (control r) (inspecting r) (queue r) (receiver_open r) (order r) (client_pump r)
    (server_pump r) (worker r) (readiness r) (ready r) (sent r) (verdict r) (health r)
    (caller r) x (shutdown_error r) (returned r) (connected r) (delivered r).
Definition set_shutdown_error (x : option ReadinessProxyError) (r : Relay) : Relay :=
  mkRelay (control r) (inspecting r) (queue r) (receiver_open r) (order r) (client_pump r)
    (server_pump r) (worker r) (readiness r) (ready r) (sent r) (verdict r) (health r)
    (caller r) (readiness_result r) x (returned r) (connected r) (delivered r).
Definition set_returned (x : list (result ReadinessProxyError (option Settings))) (r : Relay) : Relay :=
  mkRelay (control r) (inspecting r) (queue r) (receiver_open r) (order r) (client_pump r)
    (server_pump r) (worker r) (readiness r) (ready r) (sent r) (verdict r) (health r)
    (caller r) (readiness_result r) (shutdown_error r) x (connected r) (delivered r).
Definition set_connected (x : list (result ReadinessProxyError ())) (r : Relay) : Relay :=
  mkRelay (control r) (inspecting r) (queue r) (receiver_open r) (order r) (client_pump r)
    (server_pump r) (worker r) (readiness r) (ready r) (sent r) (verdict r) (health r)
    (caller r) (readiness_result r) (shutdown_error r) (returned r) x (delivered r).
Definition set_delivered (x : list ObservedEvent) (r : Relay) : Relay :=
  mkRelay (control r) (inspecting r) (queue r) (receiver_open r) (order r) (client_pump r)
    (server_pump r) (worker r) (readiness r) (ready r) (sent r) (verdict r) (health r)
    (caller r) (readiness_result r) (shutdown_error r) (returned r) (connected r) x.

Definition pump_of (d : Direction) (r : Relay) : Pump :=
  match d with ClientToServer => client_pump r | ServerToClient => server_pump r end.
Definition set_pump (d : Direction) (p : Pump) (r : Relay) : Relay :=
  match d with ClientToServer => set_client_pump p r | ServerToClient => set_server_pump p r end.

(** ** The copy pumps *)

Inductive ReadInput := ReadBytes (chunk : bytes) | ReadEof | ReadInterrupted | ReadFailed.
(** [write_all]: everything, or an error after a part of it. *)
Inductive WriteResult := WroteAll | WriteFailed (part : nat).

(** The return of a pump, which drops its guard of the order. *)
Definition pump_returns (d : Direction) (r : Relay) : Relay :=
  set_order (if bool_decide (order r = Some d) then None else order r)
    (set_pump d (at_pc PumpDone (pump_of d r)) r).

(** [fail_while_running] or [disconnect], then the report of what it selected. *)
Definition pump_fails (d : Direction) (report : ReadinessProxyError → PumpEvent)
    (error : ReadinessProxyError) (r : Relay) : Relay :=
  let '(selected, c) := fail_while_running error (control r) in
  let r := set_control c r in
  match selected with
  | Some error => set_pump d (at_pc (Reporting (report error)) (pump_of d r)) r
  | None => pump_returns d r
  end.

Definition forward (chunk : bytes) (pc : PumpPc) (p : Pump) : Pump :=
  mkPump pc (pu_inspector p) (pu_read p) (pu_inspected p) (pu_forwarded p ++ chunk) (pu_delivered p).

Definition pump_read (d : Direction) (input : ReadInput) (wrote : WriteResult) (r : Relay) : option Relay :=
  let p := pump_of d r in
  match pu_pc p with
  | Reading =>
      match input with
      | ReadBytes chunk =>
          if (len chunk =? 0) || (COPY_BUFFER_BYTES <? len chunk) then None
          else
            let p := mkPump Reading (pu_inspector p) (pu_read p ++ chunk) (pu_inspected p)
                       (pu_forwarded p) (pu_delivered p) in
            let r := set_pump d p r in
            if inspecting r then Some (set_pump d (at_pc (Inspecting chunk) p) r)
            else match wrote with
            | WroteAll => Some (set_pump d (forward chunk Reading p) r)
            | WriteFailed part =>
                Some (pump_fails d PumpFailed (Rp_Transport (writer_error_origin d))
                        (set_pump d (forward (take part chunk) Reading p) r))
            end
      | ReadEof => Some (pump_fails d Ended (Rp_Transport (reader_eof_origin d)) r)
      | ReadInterrupted => Some r
      | ReadFailed => Some (pump_fails d PumpFailed (Rp_Transport (reader_error_origin d)) r)
      end
  | _ => None
  end.

Definition pump_feed (d : Direction) (r : Relay) : option Relay :=
  let p := pump_of d r in
  match pu_pc p with
  | Inspecting chunk =>
      match inspect (pu_inspector p) chunk with
      | Ok (inspector, events) =>
          Some (set_pump d (mkPump (Forwarding chunk events) inspector (pu_read p)
                              (pu_inspected p ++ chunk) (pu_forwarded p) (pu_delivered p)) r)
      | Err error => Some (pump_fails d PumpFailed error r)
      end
  | _ => None
  end.

(** The lock of the order is taken, then the chunk is written. *)
Definition pump_write (d : Direction) (wrote : WriteResult) (r : Relay) : option Relay :=
  let p := pump_of d r in
  match pu_pc p, order r with
  | Forwarding chunk events, None =>
      let r := set_order (Some d) r in
      match wrote with
      | WroteAll => Some (set_pump d (forward chunk (Delivering events) p) r)
      | WriteFailed part =>
          Some (pump_fails d PumpFailed (Rp_Transport (writer_error_origin d))
                  (set_pump d (forward (take part chunk) (Delivering events) p) r))
      end
  | _, _ => None
  end.

(** [sender.send]: [None] while the channel is full. *)
Definition send (event : PumpEvent) (r : Relay) : option Relay :=
  if len (queue r) <? EVENT_CHANNEL_CAPACITY then Some (set_queue (queue r ++ [event]) r) else None.

Definition delivers (event : ObservedEvent) (events : list ObservedEvent) (p : Pump) : Pump :=
  mkPump (Delivering events) (pu_inspector p) (pu_read p) (pu_inspected p) (pu_forwarded p)
    (pu_delivered p ++ [event]).
Definition pump_deliver (d : Direction) (r : Relay) : option Relay :=
  let p := pump_of d r in
  match pu_pc p with
  | Delivering [] => Some (set_order None (set_pump d (at_pc Reading p) r))
  | Delivering (event :: events) =>
      if receiver_open r then
        r ← send (Observed event) r;
        Some (set_delivered (delivered r ++ [event]) (set_pump d (delivers event events p) r))
      else Some (pump_fails d PumpFailed (Rp_Transport ObservationDelivery) r)
  | _ => None
  end.

Definition pump_report (d : Direction) (r : Relay) : option Relay :=
  match pu_pc (pump_of d r) with
  | Reporting event =>
      r ← (if receiver_open r then send event r else Some r);
      Some (pump_returns d r)
  | _ => None
  end.

(** ** The worker *)

Inductive AcceptInput := Accepted | ConfigureFailed | AcceptPending (due : bool) | AcceptFailed.
Inductive ConnectInput := Connected | ConnectPending (due : bool) | ConnectFailed.
(** The clones of the streams and the two spawns. *)
Inductive SetupInput :=
| SetUp | CloneFailed (of_client : bool) | ClientSpawnFailed | ServerSpawnFailed.

Definition worker_to (pc : WorkerPc) (r : Relay) : option Relay := Some (set_worker pc r).

Definition worker_accept (input : AcceptInput) (r : Relay) : option Relay :=
  match worker r with
  | WAccept =>
      if negb (lifecycle (control r) =? RELAY_RUNNING) then worker_to (WReport RunStopped) r
      else match input with
      | Accepted => worker_to WConnect r
      | ConfigureFailed =>
          let '(error, c) := transport_failure ClientConfigure (control r) in
          worker_to (WReport error) (set_control c r)
      | AcceptPending due => if due then worker_to (WReport (RunFailed Rp_Timeout)) r else Some r
      | AcceptFailed => worker_to (WReport (RunFailed Rp_Accept)) r
      end
  | _ => None
  end.

Definition worker_connect (input : ConnectInput) (r : Relay) : option Relay :=
  match worker r with
  | WConnect =>
      if negb (lifecycle (control r) =? RELAY_RUNNING) then worker_to (WReport RunStopped) r
      else match input with
      | Connected => worker_to WSetup r
      | ConnectPending due => if due then worker_to (WReport (RunFailed Rp_Timeout)) r else Some r
      | ConnectFailed => worker_to (WReport (RunFailed Rp_Connect)) r
      end
  | _ => None
  end.

Definition spawn (d : Direction) (r : Relay) : Relay := set_pump d (at_pc Reading (pump_of d r)) r.

Definition worker_setup (input : SetupInput) (r : Relay) : option Relay :=
  match worker r with
  | WSetup =>
      match input with
      | CloneFailed of_client =>
          let '(error, c) := transport_failure (if of_client then ClientClone else UpstreamClone) (control r) in
          worker_to (WReport error) (set_control c r)
      | SetUp => worker_to WHead (spawn ServerToClient (spawn ClientToServer (set_health true r)))
      | ClientSpawnFailed =>
          let '(error, c) := select_failure Rp_Worker (control r) in
          worker_to (WReport error) (set_control c (set_health true r))
      | ServerSpawnFailed =>
          let '(error, c) := select_failure Rp_Worker (control r) in
          worker_to (WJoin error)
            (set_control c (set_pump ServerToClient (at_pc PumpDone (server_pump r))
               (spawn ClientToServer (set_health true r))))
      end
  | _ => None
  end.

(** The end of the loop: inspection ends, the sockets are shut and the receiver
    is dropped with what is in it. *)
Definition leave_loop (outcome : ProxyRunError) (r : Relay) : Relay :=
  set_worker (WJoin outcome) (set_queue [] (set_receiver_open false (set_inspecting false r))).

Definition pump_done (p : Pump) : bool := match pu_pc p with PumpDone => true | _ => false end.
Definition stopping (r : Relay) : bool := lifecycle (control r) =? RELAY_STOPPING.

(** A turn of the loop, by the place the worker is at. *)
Definition worker_head (due : bool) (r : Relay) : Relay :=
  if stopping r then leave_loop RunStopped r
  else if negb (ready r) && due then set_worker (WSelect Rp_Timeout) r
  else set_worker WReceive r.

Definition worker_observes (event : ObservedEvent) (r : Relay) : Relay :=
  if ready r then set_worker WHead r
  else match observe (readiness r) event with
  | Ok (s, true) =>
      set_readiness s
        (set_worker (match rs_effective_settings s with
                     | Some settings => WPublish settings
                     | None => WSelect Rp_InvalidMessage
                     end) r)
  | Ok (s, false) => set_readiness s (set_worker WHead r)
  | Err error => set_worker (WSelect error) r
  end.

Definition worker_receive (r : Relay) : Relay :=
  match queue r with
  | event :: queue =>
      let r := set_queue queue r in
      match event with
      | Observed event => worker_observes event r
      | Ended error | PumpFailed error =>
          if stopping r then leave_loop RunStopped r else set_worker (WSelect error) r
      end
  | [] =>
      if pump_done (client_pump r) && pump_done (server_pump r) then
        if stopping r then leave_loop RunStopped r
        else
          let '(error, c) := transport_failure ObservationChannelDisconnected (control r) in
          let '(error, c) := select_run_error error c in
          leave_loop error (set_control c r)
      else set_worker WHead r
  end.

(** The receiver of the verdict lives as long as the caller, so its [send]
    succeeds. Under the lock of the selection, the end of inspection and the
    sending of the verdict are one step here. *)
Definition worker_publish (settings : Settings) (r : Relay) : Relay :=
  let r' := if publishes (control r)
            then set_inspecting false (set_sent true (set_verdict (Some (Ok settings)) r)) else r in
  let '(published, c) := publish_readiness (Ok ()) (control r) in
  let r' := set_control c r' in
  match published with
  | Ok _ => set_worker WHead (set_ready true r')
  | Err error => leave_loop error r'
  end.

Definition worker_select (error : ReadinessProxyError) (r : Relay) : Relay :=
  let '(error, c) := select_failure error (control r) in leave_loop error (set_control c r).

Definition worker_report (outcome : ProxyRunError) (r : Relay) : Relay :=
  let '(outcome, c) := select_run_error outcome (control r) in
  set_worker (WNotify outcome) (set_control c r).

(** [ReadyNotifier::failure], then [finalize_proxy_run]. *)
Definition worker_notify (outcome : ProxyRunError) (r : Relay) : Relay :=
  match outcome with
  | RunStopped => set_worker (WDone (Ok ())) r
  | RunFailed error =>
      let r := if sent r then r else set_sent true (set_verdict (Some (Err error)) r) in
      set_worker (WDone (Err error)) r
  end.

Definition worker_turn (due : bool) (r : Relay) : option Relay :=
  match worker r with
  | WHead => Some (worker_head due r)
  | WReceive => Some (worker_receive r)
  | WPublish settings => Some (worker_publish settings r)
  | WSelect error => Some (worker_select error r)
  | WJoin outcome =>
      if pump_done (client_pump r) && pump_done (server_pump r)
      then Some (set_receiver_open false (set_queue [] (set_worker (WReport outcome) r))) else None
  | WReport outcome => Some (worker_report outcome r)
  | WNotify outcome => Some (worker_notify outcome r)
  | WAccept | WConnect | WSetup | WDone _ => None
  end.

(** ** The caller *)

Definition worker_finished (r : Relay) : bool := match worker r with WDone _ => true | _ => false end.

Definition record_later (v : Verdict) (r : Relay) : Relay := set_caller (CRecord v) r.
(** What a disconnected channel of the verdict means. *)
Definition no_verdict (r : Relay) : Verdict := Err (preserve_selected (control r) Rp_Worker).
Definition take_verdict (v : Verdict) (r : Relay) : Relay := record_later v (set_verdict None r).

Definition returns (answer : result ReadinessProxyError (option Settings)) (r : Relay) : Relay :=
  set_caller CIdle (set_returned (returned r ++ [answer]) r).

Definition arbitrate (r : Relay) : Relay :=
  let received := verdict r in
  let r' := if bool_decide (selection (control r) = Open) then set_verdict None r else r in
  let '(v, c) := arbitrate_deadline received (control r) in
  record_later v (set_control c r').

(** The start of [poll_ready]. *)
Definition caller_poll (r : Relay) : option Relay :=
  match caller r with
  | CIdle =>
      match readiness_result r with
      | Some v => Some (returns (fmap Some v) r)
      | None =>
          match verdict r with
          | Some v => Some (take_verdict v r)
          | None => if worker_finished r then Some (record_later (no_verdict r) r)
                    else Some (set_caller CEmpty r)
          end
      end
  | _ => None
  end.

(** [wait_for_readiness_after_poll] at the moment it stops waiting: with an
    answer of the channel, or because there is no time left. *)
Definition caller_wait (due : bool) (r : Relay) : option Relay :=
  match caller r, readiness_result r with
  | CIdle, None =>
      if due then Some (arbitrate r)
      else match verdict r with
      | Some v => Some (take_verdict v r)
      | None => if worker_finished r then Some (record_later (no_verdict r) r) else None
      end
  | _, _ => None
  end.

(** [record_readiness]. *)
Definition record_readiness (v : Verdict) (r : Relay) : Relay :=
  let c := match v with Ok _ => control r | Err _ => snd (stop (control r)) end in
  returns (fmap Some v) (set_readiness_result (Some v) (set_control c r)).

(** The end of [ensure_connected]. *)
Definition answers (answer : result ReadinessProxyError ()) (r : Relay) : Relay :=
  set_caller CIdle (set_connected (connected r ++ [answer]) r).

Definition caller_ensure (r : Relay) : option Relay :=
  match caller r with
  | CIdle =>
      match readiness_result r with
      | Some (Ok _) =>
          if lifecycle (control r) =? RELAY_RUNNING then Some (set_caller CEnsureWorker r)
          else if lifecycle (control r) =? RELAY_DISCONNECTED then Some (set_caller CClassify r)
          else Some (answers (Err Rp_UnexpectedSequence) r)
      | _ => Some (answers (Err Rp_UnexpectedSequence) r)
      end
  | _ => None
  end.

Definition ensure_worker (r : Relay) : Relay :=
  if worker_finished r then
    let '(error, c) := disconnect WorkerFinished (control r) in
    answers (Err (default (preserve_selected c Rp_UnexpectedSequence) error)) (set_control c r)
  else if health r then set_caller (CHealth HealthClient) r
  else answers (Err (preserve_selected (control r) Rp_Worker)) r.

Definition ensure_health (endpoint : HealthEndpoint) (found : SocketHealth) (r : Relay) : Relay :=
  let '(alive, c) := socket_is_connected endpoint found (control r) in
  let r := set_control c r in
  match alive with
  | Err error => answers (Err error) r
  | Ok false => set_caller CClassify r
  | Ok true =>
      match endpoint with
      | HealthClient => set_caller (CHealth HealthUpstream) r
      | HealthUpstream => answers (Ok ()) r
      end
  end.

Definition ensure_classify (r : Relay) : Relay :=
  let '(error, c) := classify_disconnected LifecycleDisconnected (control r) in
  answers (Err error) (set_control c r).

(** The next step of a call in progress. *)
Definition caller_turn (due : bool) (found : SocketHealth) (r : Relay) : option Relay :=
  match caller r with
  | CIdle => None
  | CEmpty => Some (if due then arbitrate r else set_caller CUndue r)
  | CUndue => Some (if worker_finished r then set_caller CFinished r else returns (Ok None) r)
  | CFinished =>
      Some (match verdict r with
            | Some v => take_verdict v r
            | None => record_later (no_verdict r) r
            end)
  | CRecord v => Some (record_readiness v r)
  | CEnsureWorker => Some (ensure_worker r)
  | CHealth endpoint => Some (ensure_health endpoint found r)
  | CClassify => Some (ensure_classify r)
  end.

(** [request_stop]. *)
Definition caller_stop (r : Relay) : option Relay :=
  match caller r with
  | CIdle =>
      match readiness_result r with
      | Some (Err _) => Some (set_control (snd (stop (control r))) r)
      | _ =>
          let '(previous, error, c) :=
            stop_with_disconnected_origin LifecycleDisconnected (control r) in
          let error := if previous =? RELAY_DISCONNECTED then error else None in
          Some (set_shutdown_error (match shutdown_error r with Some e => Some e | None => error end)
                  (set_control c r))
      end
  | _ => None
  end.

(** ** Runs *)

Inductive Action :=
| PumpRead (d : Direction) (input : ReadInput) (wrote : WriteResult)
| PumpFeed (d : Direction)
| PumpWrite (d : Direction) (wrote : WriteResult)
| PumpDeliver (d : Direction)
| PumpReport (d : Direction)
| WorkerAccept (input : AcceptInput)
| WorkerConnect (input : ConnectInput)
| WorkerSetup (input : SetupInput)
| WorkerTurn (due : bool)
| CallerPoll
| CallerWait (due : bool)
| CallerEnsure
| CallerTurn (due : bool) (found : SocketHealth)
| CallerStop.

(** [None] when the action is not possible where the relay is. *)
Definition step (a : Action) (r : Relay) : option Relay :=
  match a with
  | PumpRead d input wrote => pump_read d input wrote r
  | PumpFeed d => pump_feed d r
  | PumpWrite d wrote => pump_write d wrote r
  | PumpDeliver d => pump_deliver d r
  | PumpReport d => pump_report d r
  | WorkerAccept input => worker_accept input r
  | WorkerConnect input => worker_connect input r
  | WorkerSetup input => worker_setup input r
  | WorkerTurn due => worker_turn due r
  | CallerPoll => caller_poll r
  | CallerWait due => caller_wait due r
  | CallerEnsure => caller_ensure r
  | CallerTurn due found => caller_turn due found r
  | CallerStop => caller_stop r
  end.
Fixpoint run (actions : list Action) (r : Relay) : option Relay :=
  match actions with
  | [] => Some r
  | a :: actions => step a r ≫= run actions
  end.
End relay.
