(* ===== verification/RelayProofs.v ===== *)
(** * The readiness relay: what holds of every interleaving

    [relay_single_outcome]: one outcome, which every reported failure is. The
    invariants of the outcome here also serve RelayTheorems, which states what
    holds of the bytes and of the verdict. *)
From S2P Require Import Prelude Interfaces AppServer UniqueJson ReadinessFrames ReadinessChunks.
From S2P Require Import ThreadSettings ReadinessMessages ReadinessState RelayControl RelaySystem.

Open Scope Z_scope.

Section relay.
Context {UC : UuidCrate} {JS : JsonCrate} {JX : JsonSyntax} `{VE : !EqDecision value}.

(** ** The shared outcome along a run *)

(** Turns the call of an operation on the control into its result and what it
    keeps. *)
Ltac operate :=
  match goal with
  | |- context [fail_while_running ?e ?c] =>
      let H := fresh "Hev" in pose proof (fail_while_running_evolves e c) as H;
      let E := fresh "Hop" in destruct (fail_while_running e c) as [? ?] eqn:E; cbn [snd] in H
  | |- context [transport_failure ?e ?c] =>
      let H := fresh "Hev" in pose proof (transport_failure_evolves e c) as H;
      let E := fresh "Hop" in destruct (transport_failure e c) as [? ?] eqn:E; cbn [snd] in H
  | |- context [select_failure ?e ?c] =>
      let H := fresh "Hev" in pose proof (select_failure_evolves e c) as H;
      let E := fresh "Hop" in destruct (select_failure e c) as [? ?] eqn:E; cbn [snd] in H
  | |- context [select_run_error ?e ?c] =>
      let H := fresh "Hev" in pose proof (select_run_error_evolves e c) as H;
      let E := fresh "Hop" in destruct (select_run_error e c) as [? ?] eqn:E; cbn [snd] in H
  | |- context [classify_disconnected ?e ?c] =>
      let H := fresh "Hev" in pose proof (classify_disconnected_evolves e c) as H;
      let E := fresh "Hop" in destruct (classify_disconnected e c) as [? ?] eqn:E; cbn [snd] in H
  | |- context [stop_with_disconnected_origin ?e ?c] =>
      let H := fresh "Hev" in pose proof (stop_with_disconnected_origin_evolves e c) as H;
      let E := fresh "Hop" in destruct (stop_with_disconnected_origin e c) as [[? ?] ?] eqn:E; cbn [snd] in H
  | |- context [publish_readiness ?e ?c] =>
      let H := fresh "Hev" in pose proof (publish_readiness_evolves e c) as H;
      let E := fresh "Hop" in destruct (publish_readiness e c) as [? ?] eqn:E; cbn [snd] in H
  | |- context [arbitrate_deadline ?e ?c] =>
      let H := fresh "Hev" in pose proof (arbitrate_deadline_evolves e c) as H;
      let E := fresh "Hop" in destruct (arbitrate_deadline e c) as [? ?] eqn:E; cbn [snd] in H
  end.

Lemma control_set_pump d p r : control (set_pump d p r) = control r.
Proof. by destruct d. Qed.

Lemma pump_fails_evolves d report e r : evolves (control r) (control (pump_fails d report e r)).
Proof.
  unfold pump_fails. operate. destruct o.
  - by rewrite control_set_pump.
  - unfold pump_returns. cbn. by rewrite control_set_pump.
Qed.

Lemma pump_step_evolves a r r' :
  match a with
  | PumpRead d input wrote => pump_read d input wrote r = Some r'
  | PumpFeed d => pump_feed d r = Some r'
  | PumpWrite d wrote => pump_write d wrote r = Some r'
  | PumpDeliver d => pump_deliver d r = Some r'
  | PumpReport d => pump_report d r = Some r'
  | _ => False
  end → evolves (control r) (control r').
Proof.
  destruct a as [d input wrote|d|d wrote|d|d| | | | | | | | |]; try done.
  - unfold pump_read. destruct (pu_pc _); try done. destruct input as [chunk| | |].
    + destruct (_ || _); [done|]. destruct (inspecting _); [|destruct wrote]; intros [= <-];
        rewrite ?control_set_pump; try done.
      etransitivity; [|apply pump_fails_evolves]. by rewrite !control_set_pump.
    + intros [= <-]. apply pump_fails_evolves.
    + by intros [= <-].
    + intros [= <-]. apply pump_fails_evolves.
  - unfold pump_feed. destruct (pu_pc _); try done. destruct (inspect _ _) as [[? ?]|]; intros [= <-].
    + by rewrite control_set_pump.
    + apply pump_fails_evolves.
  - unfold pump_write. destruct (pu_pc _); try done. destruct (order r); [done|]. destruct wrote; intros [= <-].
    + by rewrite control_set_pump.
    + etransitivity; [|apply pump_fails_evolves]. by rewrite control_set_pump.
  - unfold pump_deliver. destruct (pu_pc _) as [| | | |[|event events]| |]; try done.
    + intros [= <-]. cbn. by rewrite control_set_pump.
    + destruct (receiver_open r); [|intros [= <-]; apply pump_fails_evolves].
      unfold send. destruct (_ <? _); [|done]. intros [= <-]. cbn. by rewrite control_set_pump.
  - unfold pump_report. destruct (pu_pc _) as [| | | | |event|]; try done.
    destruct (receiver_open r); cbn.
    + unfold send. destruct (_ <? _); [|done]. intros [= <-]. unfold pump_returns. cbn. by rewrite control_set_pump.
    + intros [= <-]. unfold pump_returns. cbn. by rewrite control_set_pump.
Qed.

Lemma worker_step_evolves a r r' :
  match a with
  | WorkerAccept input => worker_accept input r = Some r'
  | WorkerConnect input => worker_connect input r = Some r'
  | WorkerSetup input => worker_setup input r = Some r'
  | WorkerTurn due => worker_turn due r = Some r'
  | _ => False
  end → evolves (control r) (control r').
Proof.
  destruct a as [| | | | |input|input|input|due| | | | |]; try done.
  - unfold worker_accept, worker_to. destruct (worker r); try done. destruct (negb _); [by intros [= <-]|].
    destruct input as [| |[]|]; try operate; by intros [= <-].
  - unfold worker_connect, worker_to. destruct (worker r); try done. destruct (negb _); [by intros [= <-]|].
    destruct input as [|[]|]; by intros [= <-].
  - unfold worker_setup, worker_to. destruct (worker r); try done.
    destruct input as [|[]| |]; try operate; by intros [= <-].
  - unfold worker_turn. destruct (worker r) as [| | | | |settings|error|outcome|outcome|outcome|]; try done.
    + intros [= <-]. unfold worker_head. destruct (stopping r); [done|]. by destruct (_ && _).
    + intros [= <-]. unfold worker_receive. destruct (queue r) as [|event q].
      * destruct (_ && _); [|done]. destruct (stopping r); [done|]. operate. operate. cbn. by etransitivity.
      * destruct event as [event| |]; try (by destruct (stopping _)). unfold worker_observes. cbn [ready set_queue].
        destruct (ready r); [done|]. by destruct (observe _ event) as [[? []]|].
    + intros [= <-]. unfold worker_publish. operate. by destruct r0.
    + intros [= <-]. unfold worker_select. by operate.
    + destruct (_ && _); [|done]. by intros [= <-].
    + intros [= <-]. unfold worker_report. by operate.
    + intros [= <-]. unfold worker_notify. destruct outcome; [done|]. by destruct (sent r).
Qed.

Lemma arbitrate_evolves r : evolves (control r) (control (arbitrate r)).
Proof. unfold arbitrate. by operate. Qed.
Lemma caller_step_evolves a r r' :
  match a with
  | CallerPoll => caller_poll r = Some r'
  | CallerWait due => caller_wait due r = Some r'
  | CallerEnsure => caller_ensure r = Some r'
  | CallerTurn due found => caller_turn due found r = Some r'
  | CallerStop => caller_stop r = Some r'
  | _ => False
  end → evolves (control r) (control r').
Proof.
  destruct a as [| | | | | | | | | |due| |due found|]; try done.
  - unfold caller_poll. destruct (caller r); try done. destruct (readiness_result r); [by intros [= <-]|].
    destruct (verdict r); [by intros [= <-]|]. by destruct (worker_finished r); intros [= <-].
  - unfold caller_wait. destruct (caller r); try done. destruct (readiness_result r); [done|].
    destruct due; [intros [= <-]; apply arbitrate_evolves|].
    destruct (verdict r); [by intros [= <-]|]. destruct (worker_finished r); by intros [= <-].
  - unfold caller_ensure. destruct (caller r); try done. destruct (readiness_result r) as [[]|]; try by intros [= <-].
    destruct (_ =? _); [by intros [= <-]|]. by destruct (_ =? _); intros [= <-].
  - unfold caller_turn. destruct (caller r) as [| | | |v| |endpoint|]; try done; intros [= <-].
    + destruct due; [apply arbitrate_evolves|done].
    + by destruct (worker_finished r).
    + by destruct (verdict r).
    + unfold record_readiness. destruct v; cbn; [done|]. apply stop_evolves.
    + unfold ensure_worker, disconnect. destruct (worker_finished r); [by operate|]. by destruct (health r).
    + unfold ensure_health, socket_is_connected, disconnect.
      destruct found; try operate; cbn; repeat case_match; simplify_eq; done.
    + unfold ensure_classify. by operate.
  - unfold caller_stop. destruct (caller r); try done.
    destruct (readiness_result r) as [[]|]; [operate|intros [= <-]; apply stop_evolves|operate]; by intros [= <-].
Qed.

Lemma step_evolves a r r' : step a r = Some r' → evolves (control r) (control r').
Proof.
  pose proof (pump_step_evolves a r r') as H1. pose proof (worker_step_evolves a r r') as H2.
  pose proof (caller_step_evolves a r r') as H3. destruct a; auto.
Qed.
Lemma run_invariant (P : Relay → Prop) :
  (∀ a r r', P r → step a r = Some r' → P r') →
  ∀ actions r r', P r → run actions r = Some r' → P r'.
Proof.
  intros Hstep actions. induction actions as [|a actions IH]; intros r r' Hr; cbn; [by intros [= <-]|].
  destruct (step a r) as [r1|] eqn:H1; [|done]. cbn. apply IH. by eapply Hstep.
Qed.
Lemma run_evolves actions r r' : run actions r = Some r' → evolves (control r) (control r').
Proof.
  apply (run_invariant (λ x, evolves (control r) (control x))); [|done].
  intros a r1 r2 H1 H2%step_evolves. by etransitivity.
Qed.
Lemma new_control_consistent : consistent new_control.
Proof. split; [by left|]. split; [done|by left]. Qed.

(** ** One outcome *)

(** What a failure reported to the caller is: the selected one, or, once the
    relay was stopped, that there is no other answer. *)
Definition reported (c : RelayControl) (e : ReadinessProxyError) : Prop :=
  selection c = Failed e ∨ selection c = Stopped ∧ (e = Rp_Worker ∨ e = Rp_UnexpectedSequence).
Definition answered (c : RelayControl) (e : ReadinessProxyError) : Prop :=
  selection c = Failed e ∨ e = Rp_Worker ∨ e = Rp_UnexpectedSequence.

Definition worker_outcome (c : RelayControl) (pc : WorkerPc) : Prop :=
  match pc with
  | WJoin RunStopped | WReport RunStopped | WNotify RunStopped | WDone (Ok _) => selection c ≠ Open
  | WNotify (RunFailed e) | WDone (Err e) => selection c = Failed e
  | _ => True
  end.
Definition caller_outcome (c : RelayControl) (pc : CallerPc) : Prop :=
  match pc with CRecord (Err e) => reported c e | _ => True end.
Definition verdict_outcome (c : RelayControl) (v : option (result ReadinessProxyError EffectiveThreadSettings)) : Prop :=
  ∀ e, v = Some (Err e) → selection c = Failed e.

Record outcome_ok (r : Relay) : Prop := {
  oo_control : consistent (control r);
  oo_worker : worker_outcome (control r) (worker r);
  oo_verdict : verdict_outcome (control r) (verdict r);
  oo_caller : caller_outcome (control r) (caller r);
  oo_result : ∀ e, readiness_result r = Some (Err e) → reported (control r) e;
  oo_returned : ∀ e, Err e ∈ returned r → reported (control r) e;
  oo_connected : ∀ e, Err e ∈ connected r → answered (control r) e;
}.

Lemma evolves_failed c c' e : consistent c → evolves c c' → selection c = Failed e → selection c' = Failed e.
Proof. intros Hc H Hs. destruct (H Hc) as (_ & H2 & _). by rewrite H2, Hs by by rewrite Hs. Qed.
Lemma evolves_closed c c' : consistent c → evolves c c' → selection c ≠ Open → selection c' ≠ Open.
Proof. intros Hc H Hs. destruct (H Hc) as (_ & H2 & _). by rewrite H2. Qed.
Lemma evolves_reported c c' e : consistent c → evolves c c' → reported c e → reported c' e.
Proof.
  intros Hc H [Hs|[Hs He]]; [left; by eapply evolves_failed|right]. split; [|done].
  destruct (H Hc) as (_ & H2 & _). by rewrite H2, Hs by by rewrite Hs.
Qed.
Lemma evolves_answered c c' e : consistent c → evolves c c' → answered c e → answered c' e.
Proof. intros Hc H [Hs|He]; [left; by eapply evolves_failed|by right]. Qed.

(** A step keeps the outcome when each place that holds a part of it is as it
    was or agrees with the new control. *)
Lemma outcome_step r r' :
  outcome_ok r → evolves (control r) (control r') →
  worker r' = worker r ∨ worker_outcome (control r') (worker r') →
  verdict r' = verdict r ∨ verdict_outcome (control r') (verdict r') →
  caller r' = caller r ∨ caller_outcome (control r') (caller r') →
  readiness_result r' = readiness_result r
    ∨ (∀ e, readiness_result r' = Some (Err e) → reported (control r') e) →
  (∃ x, returned r' = returned r ++ x ∧ ∀ e, Err e ∈ x → reported (control r') e) →
  (∃ x, connected r' = connected r ++ x ∧ ∀ e, Err e ∈ x → answered (control r') e) →
  outcome_ok r'.
Proof.
  intros [O1 O2 O3 O4 O5 O6 O7] He Hw Hv Hca Hr (x & Hx & Hxe) (y & Hy & Hye). split.
  - by destruct (He O1).
  - destruct Hw as [->|]; [|done]. destruct (worker r) as [| | | | | | |[]|[]|[]|[]]; cbn in *; try done;
      by eauto using evolves_failed, evolves_closed.
  - destruct Hv as [->|]; [|done]. intros e Hve. eapply evolves_failed; eauto.
  - destruct Hca as [->|]; [|done]. destruct (caller r) as [| | | |[]| | |]; cbn in *; try done.
    by eapply evolves_reported.
  - destruct Hr as [->|]; [|done]. eauto using evolves_reported.
  - intros e. rewrite Hx, elem_of_app. intros [H|H]; [|auto]. eauto using evolves_reported.
  - intros e. rewrite Hy, elem_of_app. intros [H|H]; [|auto]. eauto using evolves_answered.
Qed.
Lemma no_more {A} (l : list A) (P : ReadinessProxyError → Prop) (Q : ReadinessProxyError → A) :
  ∃ x, l = l ++ x ∧ ∀ e, Q e ∈ x → P e.
Proof. exists []. split; [by rewrite app_nil_r|]. set_solver. Qed.
Lemma one_more {A} (l : list A) a (P : ReadinessProxyError → Prop) (Q : ReadinessProxyError → A) :
  (∀ e, Q e = a → P e) → ∃ x, l ++ [a] = l ++ x ∧ ∀ e, Q e ∈ x → P e.
Proof. intros H. exists [a]. split; [done|]. intros e He%list_elem_of_singleton. auto. Qed.

(** The pumps touch none of it but the control. *)
Definition caller_side (r : Relay) :=
  (worker r, verdict r, caller r, readiness_result r, returned r, connected r).
Lemma caller_side_set_pump d p r : caller_side (set_pump d p r) = caller_side r.
Proof. by destruct d. Qed.
Lemma caller_side_pump_fails d report e r : caller_side (pump_fails d report e r) = caller_side r.
Proof.
  unfold pump_fails. destruct (fail_while_running e (control r)) as [[?|] c]; [by rewrite caller_side_set_pump|].
  unfold pump_returns. change (caller_side (set_order ?x ?y)) with (caller_side y).
  by rewrite caller_side_set_pump.
Qed.
Lemma pump_step_side a r r' :
  match a with
  | PumpRead d input wrote => pump_read d input wrote r = Some r'
  | PumpFeed d => pump_feed d r = Some r'
  | PumpWrite d wrote => pump_write d wrote r = Some r'
  | PumpDeliver d => pump_deliver d r = Some r'
  | PumpReport d => pump_report d r = Some r'
  | _ => False
  end → caller_side r' = caller_side r.
Proof.
  destruct a as [d input wrote|d|d wrote|d|d| | | | | | | | |]; try done.
  - unfold pump_read. destruct (pu_pc _); try done. destruct input as [chunk| | |].
    + destruct (_ || _); [done|]. destruct (inspecting _); [|destruct wrote]; intros [= <-];
        rewrite ?caller_side_pump_fails, ?caller_side_set_pump; done.
    + intros [= <-]. apply caller_side_pump_fails.
    + by intros [= <-].
    + intros [= <-]. apply caller_side_pump_fails.
  - unfold pump_feed. destruct (pu_pc _); try done. destruct (inspect _ _) as [[? ?]|]; intros [= <-].
    + by rewrite caller_side_set_pump.
    + apply caller_side_pump_fails.
  - unfold pump_write. destruct (pu_pc _); try done. destruct (order r); [done|]. destruct wrote; intros [= <-].
    + by rewrite caller_side_set_pump.
    + by rewrite caller_side_pump_fails, caller_side_set_pump.
  - unfold pump_deliver. destruct (pu_pc _) as [| | | |[|event events]| |]; try done.
    + intros [= <-]. apply caller_side_set_pump.
    + destruct (receiver_open r); [|intros [= <-]; apply caller_side_pump_fails].
      unfold send. destruct (_ <? _); [|done]. intros [= <-]. apply (caller_side_set_pump d _ (set_queue _ r)).
  - unfold pump_report. destruct (pu_pc _) as [| | | | |event|]; try done.
    destruct (receiver_open r); cbn.
    + unfold send. destruct (_ <? _); [|done]. intros [= <-]. apply (caller_side_set_pump d _ (set_queue _ r)).
    + intros [= <-]. apply (caller_side_set_pump d).
Qed.

Lemma select_failure_run error c o c' :
  select_failure error c = (o, c') →
  match o with RunStopped => selection c' = Stopped | RunFailed e => selection c' = Failed e end.
Proof.
  unfold select_failure. destruct (selection c) eqn:Ho; [failing|..]; intros [= <- <-]; done.
Qed.
Lemma select_run_error_run error c o c' :
  select_run_error error c = (o, c') → (error = RunStopped → selection c ≠ Open) →
  match o with RunStopped => selection c' ≠ Open | RunFailed e => selection c' = Failed e end.
Proof.
  destruct error; cbn; [intros [= <- <-]; auto|]. intros H _. apply select_failure_run in H.
  destruct o; [by rewrite H|done].
Qed.
Lemma not_running c : consistent c → lifecycle c ≠ RELAY_RUNNING → selection c ≠ Open.
Proof. intros (_ & _ & [Hr|[[_ [e He]]|[_ Ho]]]) Hn; [done|by rewrite He|done]. Qed.
Lemma transport_failure_run origin c c' :
  consistent c → transport_failure origin c = (RunStopped, c') → selection c' ≠ Open.
Proof.
  intros Hc. unfold transport_failure, disconnect, fail_while_running.
  destruct (Z.eqb_spec (lifecycle c) RELAY_STOPPING) as [Hl|Hl].
  - intros [= _ <-]. apply not_running; [done|]. by rewrite Hl.
  - unfold selected_failure. destruct (selection c) eqn:Ho.
    + destruct (Z.eqb_spec (lifecycle c) RELAY_RUNNING) as [|Hr]; [by failing|].
      intros [= _ <-]. by apply not_running.
    + rewrite Ho. by intros [=].
    + rewrite Ho. intros [= <-]. by rewrite Ho.
Qed.
Lemma stopping_closed r : consistent (control r) → stopping r = true → selection (control r) ≠ Open.
Proof.
  intros Hc H. unfold stopping in H. apply Z.eqb_eq in H. apply not_running; [done|]. by rewrite H.
Qed.

(** Proves that a step keeps the outcome, from what it changes. *)
Ltac outcome H :=
  eapply outcome_step;
    [exact H|eassumption|
     first [by left|right; cbn; try done]|
     first [by left|right; cbn; try done]|
     first [by left|right; cbn; try done]|
     first [by left|right; cbn; try done]|
     first [apply no_more|apply one_more]|
     first [apply no_more|apply one_more]].

Lemma worker_step_outcome a r r' :
  match a with
  | WorkerAccept input => worker_accept input r = Some r'
  | WorkerConnect input => worker_connect input r = Some r'
  | WorkerSetup input => worker_setup input r = Some r'
  | WorkerTurn due => worker_turn due r = Some r'
  | _ => False
  end → evolves (control r) (control r') → outcome_ok r → outcome_ok r'.
Proof.
  intros Hstep He Hr. pose proof (oo_control _ Hr) as Hc.
  destruct a as [| | | | |input|input|input|due| | | | |]; try done.
  - unfold worker_accept, worker_to in Hstep. destruct (worker r); try done.
    destruct (Z.eqb_spec (lifecycle (control r)) RELAY_RUNNING) as [Hl|Hl]; cbn [negb] in Hstep.
    + destruct input as [| |[]|]; try (simplify_eq; by outcome Hr).
      destruct (transport_failure _ _) as [o c] eqn:Ho. simplify_eq. outcome Hr.
      destruct o; [|done]. by eapply transport_failure_run.
    + simplify_eq. outcome Hr. by apply not_running.
  - unfold worker_connect, worker_to in Hstep. destruct (worker r); try done.
    destruct (Z.eqb_spec (lifecycle (control r)) RELAY_RUNNING) as [Hl|Hl]; cbn [negb] in Hstep.
    + destruct input as [|[]|]; simplify_eq; by outcome Hr.
    + simplify_eq. outcome Hr. by apply not_running.
  - unfold worker_setup, worker_to in Hstep. destruct (worker r); try done. destruct input as [|of_client| |].
    + simplify_eq. by outcome Hr.
    + destruct (transport_failure _ _) as [o c] eqn:Ho. simplify_eq. outcome Hr.
      destruct o; [|done]. by eapply transport_failure_run.
    + destruct (select_failure _ _) as [o c] eqn:Ho. simplify_eq. outcome Hr.
      apply select_failure_run in Ho. destruct o; [by rewrite Ho|done].
    + destruct (select_failure _ _) as [o c] eqn:Ho. simplify_eq. outcome Hr.
      apply select_failure_run in Ho. destruct o; [by rewrite Ho|done].
  - unfold worker_turn in Hstep. destruct (worker r) as [| | | | |settings|error|outcome|outcome|outcome|] eqn:Hw; try done;
      try (injection Hstep as <-).
    + unfold worker_head in *. destruct (stopping r) eqn:Hst; [|destruct (_ && _)]; outcome Hr.
      by apply stopping_closed.
    + unfold worker_receive in *. destruct (queue r) as [|event q].
      * destruct (_ && _); [|by outcome Hr]. destruct (stopping r) eqn:Hst.
        { outcome Hr. by apply stopping_closed. }
        destruct (transport_failure _ _) as [o c] eqn:Ho. destruct (select_run_error _ _) as [o' c'] eqn:Ho'.
        outcome Hr. destruct o'; [|done]. apply (select_run_error_run _ _ _ _ Ho').
        intros ->. by eapply transport_failure_run.
      * destruct event as [event|error|error].
        -- unfold worker_observes in *. cbn [ready set_queue readiness] in *. destruct (ready r); [by outcome Hr|].
           destruct (observe _ event) as [[s []]|]; [destruct (rs_effective_settings s)|..]; by outcome Hr.
        -- destruct (stopping _) eqn:Hst; outcome Hr. by apply (stopping_closed r).
        -- destruct (stopping _) eqn:Hst; outcome Hr. by apply (stopping_closed r).
    + unfold worker_publish in *. destruct (publish_readiness _ _) as [published c] eqn:Hp.
      assert (Hs : published = Err RunStopped → selection c ≠ Open).
      { intros ->. unfold publish_readiness in Hp.
        destruct (Z.eqb_spec (lifecycle (control r)) RELAY_STOPPING) as [Hl|Hl].
        - injection Hp as <-. apply not_running; [done|]. by rewrite Hl.
        - destruct (selection (control r)) eqn:Ho; [|done|by injection Hp as <-; rewrite Ho].
          destruct (_ =? _); [done|]. revert Hp. by failing. }
      destruct published as [|[]]; destruct (publishes _); outcome Hr; auto.
    + unfold worker_select in *. destruct (select_failure _ _) as [o c] eqn:Ho. outcome Hr.
      apply select_failure_run in Ho. destruct o; [by rewrite Ho|done].
    + destruct (_ && _); [|done]. injection Hstep as <-. pose proof (oo_worker _ Hr) as Hout. rewrite Hw in Hout.
      by outcome Hr.
    + unfold worker_report in *. destruct (select_run_error _ _) as [o c] eqn:Ho.
      pose proof (oo_worker _ Hr) as Hout. rewrite Hw in Hout. outcome Hr.
      apply select_run_error_run in Ho; [by destruct o|]. by intros ->.
    + pose proof (oo_worker _ Hr) as Hout. rewrite Hw in Hout. unfold worker_notify in *.
      destruct outcome as [|error]; [by outcome Hr|]. destruct (sent r); outcome Hr. by intros e [= <-].
Qed.

Lemma arbitrate_deadline_reported (received : option (result _ EffectiveThreadSettings)) c e c' :
  arbitrate_deadline received c = (Err e, c') → reported c' e.
Proof.
  unfold arbitrate_deadline, reported. destruct (selection c) eqn:Ho.
  - destruct (default _ received); [done|]. failing. intros [= <- <-]. auto.
  - intros [= <- <-]. auto.
  - intros [= <- <-]. auto.
Qed.
Lemma arbitrate_outcome r : outcome_ok r → outcome_ok (arbitrate r).
Proof.
  intros Hr. pose proof (arbitrate_evolves r) as He. unfold arbitrate in *.
  destruct (arbitrate_deadline _ _) as [v c] eqn:Hv. destruct (bool_decide _); outcome Hr;
    destruct v; try done; by eapply arbitrate_deadline_reported.
Qed.
Lemma no_verdict_reported r e : outcome_ok r → worker_finished r = true →
  no_verdict r = Err e → reported (control r) e.
Proof.
  intros Hr Hw. pose proof (oo_worker _ Hr) as Ho. unfold worker_finished in Hw.
  destruct (worker r) as [| | | | | | | | | |result]; try done.
  unfold no_verdict, preserve_selected, selected_failure, reported. intros [= <-].
  assert (selection (control r) ≠ Open) as Hn by (destruct result; cbn in Ho; [done|by rewrite Ho]).
  destruct (selection (control r)); auto. done.
Qed.
Lemma disconnect_answered origin c e c' :
  disconnect origin c = (Some e, c') → selection c' = Failed e.
Proof.
  unfold disconnect, fail_while_running. destruct (_ =? _); [done|]. destruct (selection c) eqn:Ho; try done.
  destruct (_ =? _); [|done]. failing. by intros [= <- <-].
Qed.
Lemma preserve_answered c e : answered c (preserve_selected c e) ∨ preserve_selected c e = e.
Proof. unfold preserve_selected, selected_failure, answered. destruct (selection c); auto. Qed.
Lemma classify_answered origin c e c' : classify_disconnected origin c = (e, c') → answered c' e.
Proof.
  unfold classify_disconnected, answered. destruct (selection c) eqn:Ho; [failing|..]; intros [= <- <-]; auto.
Qed.

Lemma caller_step_outcome a r r' :
  match a with
  | CallerPoll => caller_poll r = Some r'
  | CallerWait due => caller_wait due r = Some r'
  | CallerEnsure => caller_ensure r = Some r'
  | CallerTurn due found => caller_turn due found r = Some r'
  | CallerStop => caller_stop r = Some r'
  | _ => False
  end → evolves (control r) (control r') → (caller r = CFinished → worker_finished r = true) →
  outcome_ok r → outcome_ok r'.
Proof.
  intros Hstep He Hfin Hr. pose proof (oo_control _ Hr) as Hc.
  assert (Hno : worker_finished r = true → caller_outcome (control r) (CRecord (no_verdict r))).
  { intros Hw. cbn. destruct (no_verdict r) eqn:Hv; [done|]. by eapply no_verdict_reported. }
  assert (Htake : ∀ v, verdict r = Some v → caller_outcome (control r) (CRecord v)).
  { intros [v|e] Hv; [done|]. left. by apply (oo_verdict _ Hr). }
  destruct a as [| | | | | | | | | |due| |due found|]; try done.
  - unfold caller_poll in Hstep. destruct (caller r); try done.
    destruct (readiness_result r) as [v|] eqn:Hres.
    + simplify_eq. outcome Hr. destruct v; [done|]. intros e' [= <-]. by apply (oo_result _ Hr).
    + destruct (verdict r) as [v|] eqn:Hv; [simplify_eq; outcome Hr; by apply Htake|].
      destruct (worker_finished r) eqn:Hw; simplify_eq; [|by outcome Hr]. outcome Hr. by apply Hno.
  - unfold caller_wait in Hstep. destruct (caller r); try done. destruct (readiness_result r); [done|].
    destruct due; [simplify_eq; by apply arbitrate_outcome|].
    destruct (verdict r) as [v|] eqn:Hv; [simplify_eq; outcome Hr; by apply Htake|].
    destruct (worker_finished r) eqn:Hw; simplify_eq. outcome Hr. by apply Hno.
  - unfold caller_ensure in Hstep. destruct (caller r); try done.
    assert (Hseq : ∀ e, @Err _ () e = Err Rp_UnexpectedSequence → answered (control r) e).
    { intros e [= ->]. by right; right. }
    destruct (readiness_result r) as [[]|]; [|simplify_eq; by outcome Hr..].
    destruct (_ =? _); [simplify_eq; by outcome Hr|]. destruct (_ =? _); simplify_eq; by outcome Hr.
  - unfold caller_turn in Hstep. destruct (caller r) as [| | | |v| |endpoint|] eqn:Hca; try done; injection Hstep as <-.
    + destruct due; [by apply arbitrate_outcome|by outcome Hr].
    + by destruct (worker_finished r); outcome Hr.
    + destruct (verdict r) as [w|] eqn:Hv; outcome Hr; [by apply Htake|by apply Hno, Hfin].
    + unfold record_readiness in *. pose proof (oo_caller _ Hr) as Hv. rewrite Hca in Hv.
      destruct v as [v|e]; [by outcome Hr|].
      outcome Hr; intros e' [= <-]; by eapply evolves_reported.
    + unfold ensure_worker in *. destruct (worker_finished r).
      * destruct (disconnect _ _) as [o c] eqn:Ho. outcome Hr. intros x [= ->].
        destruct o as [y|]; cbn; [left; exact (disconnect_answered _ _ _ _ Ho)|].
        destruct (preserve_answered c Rp_UnexpectedSequence) as [?| ->]; [done|by right; right].
      * destruct (health r); outcome Hr. intros x [= ->].
        destruct (preserve_answered (control r) Rp_Worker) as [?| ->]; [done|by right; left].
    + unfold ensure_health in *. destruct (socket_is_connected _ _ _) as [alive c] eqn:Ho.
      destruct alive as [[]|failed]; [destruct endpoint| |]; outcome Hr; try done.
      intros x [= ->]. left. unfold socket_is_connected in Ho. destruct found; try done;
        destruct (disconnect _ _) as [[y|] c'] eqn:Hd; simplify_eq; exact (disconnect_answered _ _ _ _ Hd).
    + unfold ensure_classify in *. destruct (classify_disconnected _ _) as [y c] eqn:Ho. outcome Hr.
      intros x [= ->]. exact (classify_answered _ _ _ _ Ho).
  - unfold caller_stop in Hstep. destruct (caller r); try done.
    destruct (readiness_result r) as [[]|]; [|simplify_eq; by outcome Hr|];
      destruct (stop_with_disconnected_origin _ _) as [[previous error] c]; simplify_eq; by outcome Hr.
Qed.

(** What the worker leaves to the caller, and that it has not returned. *)
Definition call_side (r : Relay) := (caller r, readiness_result r, returned r).
Lemma worker_step_side a r r' :
  match a with
  | WorkerAccept input => worker_accept input r = Some r'
  | WorkerConnect input => worker_connect input r = Some r'
  | WorkerSetup input => worker_setup input r = Some r'
  | WorkerTurn due => worker_turn due r = Some r'
  | _ => False
  end → call_side r' = call_side r ∧ worker_finished r = false.
Proof.
  intros H. unfold worker_finished.
  destruct a as [| | | | |input|input|input|due| | | | |]; try done.
  - unfold worker_accept, worker_to in H. destruct (worker r); try done. split; [|done].
    destruct (negb _); [by simplify_eq|]. destruct input as [| |[]|]; [by simplify_eq| |by simplify_eq..].
    destruct (transport_failure _ _). by simplify_eq.
  - unfold worker_connect, worker_to in H. destruct (worker r); try done. split; [|done].
    destruct (negb _); [by simplify_eq|]. by destruct input as [|[]|]; simplify_eq.
  - unfold worker_setup, worker_to in H. destruct (worker r); try done. split; [|done].
    destruct input; [by simplify_eq|destruct (transport_failure _ _)|destruct (select_failure _ _)..]; by simplify_eq.
  - unfold worker_turn in H. destruct (worker r) as [| | | | |settings|error|outcome|outcome|outcome|]; try done;
      (split; [|done]); try (injection H as <-).
    + unfold worker_head. destruct (stopping r); [done|]. by destruct (_ && _).
    + unfold worker_receive. destruct (queue r) as [|[event|error|error] q].
      * destruct (_ && _); [|done]. destruct (stopping r); [done|].
        destruct (transport_failure _ _) as [o c]. by destruct (select_run_error o c).
      * unfold worker_observes. cbn [ready set_queue readiness]. destruct (ready r); [done|].
        by destruct (observe _ event) as [[? []]|].
      * by destruct (stopping _).
      * by destruct (stopping _).
    + unfold worker_publish. destruct (publish_readiness _ _) as [[|] c]; by destruct (publishes _).
    + unfold worker_select. by destruct (select_failure _ _).
    + destruct (_ && _); [|done]. by injection H as <-.
    + unfold worker_report. by destruct (select_run_error _ _).
    + unfold worker_notify. destruct outcome; [done|]. by destruct (sent r).
Qed.

(** The caller's own bookkeeping: it is only in a call that asks for the
    verdict while none is cached, it looks again only at a worker that has
    returned, and what it answered is the cached verdict or that there is none
    yet. *)
Definition asking (pc : CallerPc) : Prop :=
  match pc with CEmpty | CUndue | CFinished | CRecord _ => True | _ => False end.
Record call_ok (r : Relay) : Prop := {
  co_asking : asking (caller r) → readiness_result r = None;
  co_finished : caller r = CFinished → worker_finished r = true;
  co_returned : ∀ x, x ∈ returned r → x = Ok None ∨ ∃ v, readiness_result r = Some v ∧ x = fmap Some v;
}.

Lemma call_ok_same r r' :
  call_ok r → call_side r' = call_side r → (worker_finished r = true → worker_finished r' = true) → call_ok r'.
Proof.
  intros [H1 H2 H3] Hs Hw. injection Hs as Hc Hr Ht. split; rewrite ?Hc, ?Hr, ?Ht; auto.
Qed.
Lemma call_ok_to pc r r' :
  call_ok r → caller r' = pc → readiness_result r' = readiness_result r → returned r' = returned r →
  (asking pc → readiness_result r = None) → (pc = CFinished → worker_finished r' = true) → call_ok r'.
Proof.
  intros [H1 H2 H3] Hc Hr Ht Ha Hf. split; rewrite ?Hc, ?Hr, ?Ht; auto.
Qed.
Lemma call_ok_returns x r :
  call_ok r → (x = Ok None ∨ ∃ v, readiness_result r = Some v ∧ x = fmap Some v) → call_ok (returns x r).
Proof.
  intros [H1 H2 H3] Hx. split; cbn; [done|done|]. intros y. rewrite elem_of_app, list_elem_of_singleton.
  intros [H| ->]; [auto|done].
Qed.
Lemma arbitrate_call_ok r : call_ok r → readiness_result r = None → call_ok (arbitrate r).
Proof.
  intros Hr Hn. unfold arbitrate. destruct (arbitrate_deadline _ _) as [v c].
  case_bool_decide; by eapply (call_ok_to (CRecord v) _ _ Hr).
Qed.

Lemma step_call_ok a r r' : step a r = Some r' → call_ok r → call_ok r'.
Proof.
  intros H Hr. pose proof (pump_step_side a r r') as Hp. pose proof (worker_step_side a r r') as Hw.
  destruct a as [d input wrote|d|d wrote|d|d|input|input|input|due| |due| |due found|]; cbn in H;
    try (specialize (Hp H); injection Hp as Hwk _ Hc Hres Hret _;
         apply (call_ok_same r); [done|unfold call_side; congruence|unfold worker_finished; by rewrite Hwk]);
    try (destruct (Hw H) as [Hs Hf]; apply (call_ok_same r); [done|done|by rewrite Hf]); clear Hp Hw.
  - unfold caller_poll in H. destruct (caller r); try done. destruct (readiness_result r) as [v|] eqn:Hres.
    + simplify_eq. apply call_ok_returns; eauto.
    + destruct (verdict r) as [v|]; [simplify_eq; by eapply (call_ok_to (CRecord v) r)|].
      destruct (worker_finished r); simplify_eq; by eapply (call_ok_to _ r).
  - unfold caller_wait in H. destruct (caller r); try done. destruct (readiness_result r) eqn:Hres; [done|].
    destruct due; [simplify_eq; by apply arbitrate_call_ok|].
    destruct (verdict r) as [v|]; [simplify_eq; by eapply (call_ok_to (CRecord v) r)|].
    destruct (worker_finished r); simplify_eq; by eapply (call_ok_to _ r).
  - unfold caller_ensure in H. destruct (caller r); try done.
    destruct (readiness_result r) as [[]|]; [|simplify_eq; by eapply (call_ok_to CIdle r)..].
    destruct (_ =? _); [|destruct (_ =? _)]; simplify_eq; by eapply (call_ok_to _ r).
  - pose proof (co_asking _ Hr) as Ha. unfold caller_turn in H.
    destruct (caller r) as [| | | |v| |endpoint|] eqn:Hca; try done; injection H as <-.
    + specialize (Ha I). destruct due; [by apply arbitrate_call_ok|]. by eapply (call_ok_to CUndue r).
    + specialize (Ha I). destruct (worker_finished r) eqn:Hf; [by eapply (call_ok_to CFinished r)|].
      apply call_ok_returns; auto.
    + specialize (Ha I). destruct (verdict r); by eapply (call_ok_to (CRecord _) r).
    + specialize (Ha I). unfold record_readiness. split; cbn; [done|done|].
      intros x. rewrite elem_of_app, list_elem_of_singleton. intros [Hx| ->]; [left|right; by exists v].
      destruct (co_returned _ Hr x Hx) as [?|(w & Hw & _)]; [done|]. by rewrite Hw in Ha.
    + unfold ensure_worker. destruct (worker_finished r); [destruct (disconnect _ _)|destruct (health r)];
        by eapply (call_ok_to _ r).
    + unfold ensure_health. destruct (socket_is_connected _ _ _) as [[[]|] c]; [destruct endpoint| |];
        by eapply (call_ok_to _ r).
    + unfold ensure_classify. destruct (classify_disconnected _ _). by eapply (call_ok_to _ r).
  - unfold caller_stop in H. destruct (caller r) eqn:Hca; try done.
    destruct (readiness_result r) as [[]|]; [|simplify_eq; by apply (call_ok_same r)|];
      destruct (stop_with_disconnected_origin _ _) as [[previous error] c]; simplify_eq; by apply (call_ok_same r).
Qed.

Lemma step_outcome a r r' : step a r = Some r' → outcome_ok r ∧ call_ok r → outcome_ok r' ∧ call_ok r'.
Proof.
  intros H [Ho Hc]. split; [|by eapply step_call_ok]. pose proof (step_evolves _ _ _ H) as He.
  pose proof (pump_step_side a r r') as Hp. pose proof (worker_step_outcome a r r') as Hw.
  pose proof (caller_step_outcome a r r') as Hk. pose proof (co_finished _ Hc) as Hf.
  destruct a; cbn in H; auto;
    (specialize (Hp H); injection Hp as H1 H2 H3 H4 H5 H6; eapply outcome_step; [exact Ho|done|by left..| |];
     rewrite ?H5, ?H6; apply no_more).
Qed.
Lemma reachable_outcome e actions r :
  run actions (new_relay e) = Some r → outcome_ok r ∧ call_ok r.
Proof.
  apply (run_invariant (λ r, outcome_ok r ∧ call_ok r)); [intros a r1 r2 H Hs; by eapply step_outcome|].
  split; split; cbn; try done; try (by intros ? ?%not_elem_of_nil). apply new_control_consistent.
Qed.

(** C39. A relay has one outcome, whatever the interleaving. The first failure or
    stop that is selected stays; from then on a failure that a poll or a wait
    reports is the selected one, and after a stop it says no more than that;
    the worker ends with it; and the polls and waits, once they have an answer,
    repeat it. *)
Theorem relay_single_outcome e before after r r' :
  run before (new_relay e) = Some r → run after r = Some r' →
  (selection (control r) ≠ Open → selection (control r') = selection (control r))
  ∧ (∀ f, selection (control r) = Failed f →
       (∀ x, Err x ∈ returned r' → x = f) ∧ (∀ x, worker r' = WDone (Err x) → x = f))
  ∧ (selection (control r) = Stopped →
       ∀ x, Err x ∈ returned r' → x = Rp_Worker ∨ x = Rp_UnexpectedSequence)
  ∧ (∀ x y, x ∈ returned r' → y ∈ returned r' → x ≠ Ok None → y ≠ Ok None → x = y).
Proof.
  intros H1 H2. destruct (reachable_outcome _ _ _ H1) as [Ho Hc].
  assert (Hoc : outcome_ok r' ∧ call_ok r').
  { eapply (run_invariant (λ r, outcome_ok r ∧ call_ok r)); [|by split|exact H2].
    intros a r1 r2 H Hs. by eapply step_outcome. }
  destruct Hoc as [Ho' Hc']. pose proof (oo_control _ Ho) as Hcon.
  destruct (run_evolves _ _ _ H2 Hcon) as (_ & Hsel & _).
  assert (Hfin : ∀ x, Err x ∈ returned r' → reported (control r') x) by apply (oo_returned _ Ho').
  split; [done|]. split; [|split].
  - intros f Hf. rewrite Hf in Hsel. specialize (Hsel ltac:(done)). split.
    + intros x [Hx|[Hx _]]%Hfin; [|by rewrite Hsel in Hx]. rewrite Hsel in Hx. by injection Hx.
    + intros x Hx. pose proof (oo_worker _ Ho') as Hw. rewrite Hx in Hw. cbn in Hw. rewrite Hsel in Hw. by injection Hw.
  - intros Hs. rewrite Hs in Hsel. specialize (Hsel ltac:(done)).
    intros x [Hx|[_ Hx]]%Hfin; [by rewrite Hsel in Hx|done].
  - intros x y Hx Hy Hnx Hny.
    destruct (co_returned _ Hc' _ Hx) as [?|(v & Hv & ->)]; [done|].
    destruct (co_returned _ Hc' _ Hy) as [?|(w & Hw & ->)]; [done|]. by rewrite Hv in Hw; injection Hw as ->.
Qed.
End relay.
