(* ===== verification/RelayTheorems.v ===== *)
(** * The readiness relay: the bytes and the verdict

    [relay_transparent]: what is written on is what was read, and only what the
    inspector accepted until the exchange was observed or an outcome is
    selected. [relay_readiness_sound]: a readiness the caller is told of rests
    on the exchange, found in the bytes that were read from the two sides. *)
From S2P Require Import Prelude Interfaces AppServer UniqueJson ReadinessFrames ReadinessChunks.
From S2P Require Import ThreadSettings ReadinessMessages ReadinessState RelayControl RelaySystem RelayProofs.

Open Scope Z_scope.

(** [merges a b l]: the elements of [a] and of [b], each in order, are those of
    [l]. *)
Inductive merges {A} : list A → list A → list A → Prop :=
| merges_nil : merges [] [] []
| merges_left a b l x : merges a b l → merges (a ++ [x]) b (l ++ [x])
| merges_right a b l x : merges a b l → merges a (b ++ [x]) (l ++ [x]).

Lemma merges_left_all {A} (a b l m : list A) : merges a b l → merges (a ++ m) b (l ++ m).
Proof.
  revert a l. induction m as [|x m IH]; intros a l H; [by rewrite !app_nil_r|].
  rewrite !(cons_middle x), !app_assoc. by apply IH, merges_left.
Qed.
Lemma merges_right_all {A} (a b l m : list A) : merges a b l → merges a (b ++ m) (l ++ m).
Proof.
  revert b l. induction m as [|x m IH]; intros b l H; [by rewrite !app_nil_r|].
  rewrite !(cons_middle x), !app_assoc. by apply IH, merges_right.
Qed.
Lemma prefix_snoc {A} (m l : list A) x : m `prefix_of` l ++ [x] → m = l ++ [x] ∨ m `prefix_of` l.
Proof.
  intros [t Ht]. destruct t as [|y t _] using rev_ind; [left; by rewrite app_nil_r in Ht|right].
  rewrite app_assoc in Ht. apply app_inj_tail in Ht as [-> _]. by apply prefix_app_r.
Qed.
(** A prefix of a merge is a merge of prefixes. *)
Lemma merges_prefix {A} (a b l m : list A) :
  merges a b l → m `prefix_of` l → ∃ a' b', a' `prefix_of` a ∧ b' `prefix_of` b ∧ merges a' b' m.
Proof.
  intros H. revert m. induction H as [|a b l x H IH|a b l x H IH]; intros m Hm.
  - apply prefix_nil_inv in Hm as ->. exists [], []. split_and!; [done|done|constructor].
  - apply prefix_snoc in Hm as [->|Hm]; [exists (a ++ [x]), b; split_and!; [done|done|by constructor]|].
    destruct (IH m Hm) as (a' & b' & Ha & Hb & Hm'). exists a', b'. split_and!; [by apply prefix_app_r|done|done].
  - apply prefix_snoc in Hm as [->|Hm]; [exists a, (b ++ [x]); split_and!; [done|done|by constructor]|].
    destruct (IH m Hm) as (a' & b' & Ha & Hb & Hm'). exists a', b'. split_and!; [done|by apply prefix_app_r|done].
Qed.

Section relay.
Context {UC : UuidCrate} {JS : JsonCrate} {JX : JsonSyntax} `{VE : !EqDecision value}.

(** ** One pump *)

(** The inspector has read [pu_inspected]; the events of it that are not
    delivered are those in hand. *)
Definition inspected_events (d : Direction) (p : Pump) (events : list ObservedEvent) : Prop :=
  inspect (new_inspector d) (pu_inspected p) = Ok (pu_inspector p, events).
Record pump_base (live : bool) (d : Direction) (p : Pump) : Prop := {
  pb_events : ∃ events, inspected_events d p events ∧ pu_delivered p `prefix_of` events;
  pb_forwarded : pu_forwarded p `prefix_of` pu_read p;
  pb_inspected : pu_inspected p `prefix_of` pu_read p;
  pb_live : live = true → pu_forwarded p `prefix_of` pu_inspected p;
}.
Definition in_hand (d : Direction) (p : Pump) (events : list ObservedEvent) : Prop :=
  inspected_events d p (pu_delivered p ++ events).
Definition observed_of (event : PumpEvent) : option ObservedEvent :=
  match event with Observed event => Some event | Ended _ | PumpFailed _ => None end.
Definition pump_place (live : bool) (d : Direction) (p : Pump) : Prop :=
  match pu_pc p with
  | Unspawned => pu_read p = [] ∧ pu_forwarded p = [] ∧ pu_inspected p = [] ∧ in_hand d p []
  | Reading => pu_forwarded p = pu_read p ∧ (live = true → pu_inspected p = pu_read p) ∧ in_hand d p []
  | Inspecting chunk =>
      pu_read p = pu_forwarded p ++ chunk ∧ pu_inspected p = pu_forwarded p ∧ in_hand d p []
  | Forwarding chunk events =>
      pu_read p = pu_forwarded p ++ chunk ∧ pu_inspected p = pu_read p ∧ in_hand d p events
  | Delivering events =>
      pu_forwarded p = pu_read p ∧ pu_inspected p = pu_read p ∧ in_hand d p events
  | Reporting event => observed_of event = None
  | PumpDone => True
  end.
Definition pump_inv (live : bool) (d : Direction) (p : Pump) : Prop :=
  pump_base live d p ∧ pump_place live d p.

Definition at_end (pc : PumpPc) : Prop :=
  match pc with Reporting event => observed_of event = None | PumpDone => True | _ => False end.
Lemma pump_inv_end live d p pc :
  pump_base live d p → at_end pc →
  pump_inv live d (at_pc pc p).
Proof. intros [H1 H2 H3 H4] Hpc. split; [by split|]. by destruct pc. Qed.
(** Inspection only ever ends. *)
Lemma pump_inv_dead live d p : pump_inv live d p → pump_inv false d p.
Proof. intros [[H1 H2 H3 H4] Hp]. split; [by split|]. unfold pump_place in *. destruct (pu_pc p); naive_solver. Qed.
Lemma new_pump_inv live d : pump_inv live d (new_pump d).
Proof.
  assert (inspect (new_inspector d) [] = Ok (new_inspector d, [])) as H.
  { apply feed_nil, new_inspector_settled. }
  split; [split; try done; by exists []|]. by split_and!.
Qed.

(** Feeding one more chunk. *)
Lemma inspect_app d p chunk events inspector more :
  inspected_events d p events → inspect (pu_inspector p) chunk = Ok (inspector, more) →
  inspect (new_inspector d) (pu_inspected p ++ chunk) = Ok (inspector, events ++ more).
Proof.
  unfold inspected_events, inspect. intros H1 H2.
  rewrite feed_app by apply new_inspector_settled. rewrite H1. cbn. by rewrite H2.
Qed.

(** ** A step of a pump, seen from the rest *)

Definition other (d : Direction) : Direction :=
  match d with ClientToServer => ServerToClient | ServerToClient => ClientToServer end.
Definition rest (r : Relay) :=
  (inspecting r, receiver_open r, (worker r, readiness r, ready r, sent r),
   (verdict r, caller r, readiness_result r, returned r)).

(** [q] is what the pump of [d] put in the channel. *)
Record pump_moved (d : Direction) (q : list PumpEvent) (r r' : Relay) : Prop := {
  pm_other : pump_of (other d) r' = pump_of (other d) r;
  pm_queue : queue r' = queue r ++ q;
  pm_delivered : delivered r' = delivered r ++ omap observed_of q;
  pm_pump : pu_delivered (pump_of d r') = pu_delivered (pump_of d r) ++ omap observed_of q;
  pm_open : q ≠ [] → receiver_open r = true;
  pm_rest : rest r' = rest r;
  pm_spawned : pu_pc (pump_of d r) ≠ Unspawned;
}.

Lemma pump_of_set d p r : pump_of d (set_pump d p r) = p.
Proof. by destruct d. Qed.
Lemma pump_of_other d p r : pump_of (other d) (set_pump d p r) = pump_of (other d) r.
Proof. by destruct d. Qed.
Lemma set_pump_rest d p r :
  rest (set_pump d p r) = rest r ∧ queue (set_pump d p r) = queue r ∧ delivered (set_pump d p r) = delivered r.
Proof. by destruct d. Qed.

Lemma pump_fails_frame d report e r :
  (∀ x, observed_of (report x) = None) →
  (∃ pc, at_end pc ∧ pump_of d (pump_fails d report e r) = at_pc pc (pump_of d r))
  ∧ pump_of (other d) (pump_fails d report e r) = pump_of (other d) r
  ∧ queue (pump_fails d report e r) = queue r ∧ delivered (pump_fails d report e r) = delivered r
  ∧ rest (pump_fails d report e r) = rest r.
Proof.
  intros Hrep. unfold pump_fails. destruct (fail_while_running e (control r)) as [[x|] c];
    (split; [|by destruct d]); [exists (Reporting (report x))|exists PumpDone];
    (split; [by cbn|]); by destruct d.
Qed.

(** A pump that fails, from a state [r] that differs from [r0] in the pump. *)
Lemma pump_fails_moves d report e r r0 :
  (∀ x, observed_of (report x) = None) →
  pump_of (other d) r = pump_of (other d) r0 → queue r = queue r0 → delivered r = delivered r0 →
  rest r = rest r0 → pu_delivered (pump_of d r) = pu_delivered (pump_of d r0) →
  pu_pc (pump_of d r0) ≠ Unspawned → pump_base (inspecting r0) d (pump_of d r) →
  pump_moved d [] r0 (pump_fails d report e r) ∧ pump_inv (inspecting r0) d (pump_of d (pump_fails d report e r)).
Proof.
  intros Hrep Ho Hq Hd Hr Hdel Hsp Hb.
  destruct (pump_fails_frame d report e r Hrep) as ((pc & Hpc & Hp) & Ho' & Hq' & Hd' & Hr').
  split; [|rewrite Hp; by apply pump_inv_end].
  split; rewrite ?Hp, ?Ho', ?Hq', ?Hd', ?Hr', ?app_nil_r; done.
Qed.
(** A pump that goes on. *)
Lemma pump_sets_moves d p q r r' :
  pump_of d r' = p → pump_of (other d) r' = pump_of (other d) r → queue r' = queue r ++ q →
  delivered r' = delivered r ++ omap observed_of q → rest r' = rest r →
  pu_delivered p = pu_delivered (pump_of d r) ++ omap observed_of q → (q ≠ [] → receiver_open r = true) →
  pu_pc (pump_of d r) ≠ Unspawned → pump_inv (inspecting r) d p →
  pump_moved d q r r' ∧ pump_inv (inspecting r) d (pump_of d r').
Proof. intros <- Ho Hq Hd Hr Hdel Hopen Hsp Hinv. split; [by split|done]. Qed.

Ltac pump_goes d :=
  eapply pump_sets_moves; rewrite ?pump_of_set, ?pump_of_other, ?app_nil_r; try done; try (by destruct d).
Ltac pump_goes_to d p :=
  eapply (pump_sets_moves d p); try done; try (by destruct d);
  try (by destruct d; cbn; rewrite ?app_nil_r).

Lemma pump_base_after_read live d p chunk :
  pump_inv live d p → pu_pc p = Reading →
  pump_base live d (mkPump Reading (pu_inspector p) (pu_read p ++ chunk) (pu_inspected p)
                      (pu_forwarded p) (pu_delivered p)).
Proof.
  intros [[H1 H2 H3 H4] Hp] Hpc. split; cbn; [done|by apply prefix_app_r|by apply prefix_app_r|done].
Qed.

(** A part of the chunk that was read is written on. *)
Lemma pump_base_forward live d p pc part chunk :
  pump_base live d p → pu_read p = pu_forwarded p ++ chunk → (live = true → pu_inspected p = pu_read p) →
  pump_base live d (forward (take part chunk) pc p).
Proof.
  intros [H1 H2 H3 H4] Hr Hl.
  assert (Hw : pu_forwarded p ++ take part chunk `prefix_of` pu_read p).
  { rewrite Hr. apply prefix_app, prefix_take. }
  split; cbn; [done|done|done|]. intros Hlive. by rewrite Hl.
Qed.

Lemma pump_read_moves d input wrote r r' :
  pump_read d input wrote r = Some r' → pump_inv (inspecting r) d (pump_of d r) →
  ∃ q, pump_moved d q r r' ∧ pump_inv (inspecting r) d (pump_of d r').
Proof.
  intros H Hi. unfold pump_read in H. destruct (pu_pc (pump_of d r)) eqn:Hpc; try done.
  pose proof Hi as [Hb Hp]. unfold pump_place in Hp. rewrite Hpc in Hp. destruct Hp as (Hf & Hl & Hh).
  assert (Hsp : pu_pc (pump_of d r) ≠ Unspawned) by by rewrite Hpc.
  exists []. destruct input as [chunk| | |].
  - destruct (_ || _); [done|]. pose proof (pump_base_after_read _ _ _ chunk Hi Hpc) as Hb'.
    set (p := mkPump _ _ _ _ _ _) in *.
    assert (Hins : inspecting (set_pump d p r) = inspecting r) by by destruct d.
    rewrite Hins in H. destruct (inspecting r) eqn:Hin; [|destruct wrote]; injection H as <-.
    + rewrite <- Hin. pump_goes d. rewrite Hin. split; [by destruct Hb'; split|].
      unfold pump_place. cbn. by rewrite Hf, Hl.
    + rewrite <- Hin. pump_goes d. rewrite Hin. split; [destruct Hb'; split; cbn; try done; by rewrite Hf|].
      unfold pump_place. cbn. by rewrite Hf.
    + rewrite <- Hin. apply pump_fails_moves; rewrite ?pump_of_set, ?pump_of_other; try done; try by destruct d.
      rewrite Hin. apply pump_base_forward; [done|by cbn; rewrite Hf|done].
  - injection H as <-. by apply pump_fails_moves.
  - injection H as <-. split; [|done]. split; rewrite ?app_nil_r; done.
  - injection H as <-. by apply pump_fails_moves.
Qed.

Lemma pump_feed_moves d r r' :
  pump_feed d r = Some r' → pump_inv (inspecting r) d (pump_of d r) →
  ∃ q, pump_moved d q r r' ∧ pump_inv (inspecting r) d (pump_of d r').
Proof.
  intros H [Hb Hp]. unfold pump_feed in H. destruct (pu_pc (pump_of d r)) as [| |chunk| | | |] eqn:Hpc; try done.
  unfold pump_place in Hp. rewrite Hpc in Hp. destruct Hp as (Hf & Hl & Hh).
  assert (Hsp : pu_pc (pump_of d r) ≠ Unspawned) by by rewrite Hpc.
  exists []. destruct (inspect _ chunk) as [[inspector events]|e] eqn:Hi; injection H as <-; [|by apply pump_fails_moves].
  pose proof (inspect_app _ _ _ _ _ _ Hh Hi) as Ha. rewrite app_nil_r in Ha.
  pump_goes d. split.
  - split; cbn.
    + eexists. split; [exact Ha|]. by apply prefix_app_r.
    + rewrite Hf. by apply prefix_app_r.
    + by rewrite Hl, Hf.
    + intros _. rewrite Hl. by apply prefix_app_r.
  - unfold pump_place. cbn. split_and!; [done|by rewrite Hl, Hf|done].
Qed.

Lemma pump_write_moves d wrote r r' :
  pump_write d wrote r = Some r' → pump_inv (inspecting r) d (pump_of d r) →
  ∃ q, pump_moved d q r r' ∧ pump_inv (inspecting r) d (pump_of d r').
Proof.
  intros H [Hb Hp]. unfold pump_write in H.
  destruct (pu_pc (pump_of d r)) as [| | |chunk events| | |] eqn:Hpc; try done.
  destruct (order r); [done|]. unfold pump_place in Hp. rewrite Hpc in Hp. destruct Hp as (Hf & Hl & Hh).
  assert (Hsp : pu_pc (pump_of d r) ≠ Unspawned) by by rewrite Hpc.
  exists []. destruct wrote; injection H as <-;
    [|apply pump_fails_moves; rewrite ?pump_of_set, ?pump_of_other; try done; try (by destruct d);
      apply pump_base_forward; [done|done|by rewrite Hl]].
  pump_goes d. destruct Hb as [H1 H2 H3 H4]. split.
  - split; cbn; [done|by rewrite Hf|done|]. intros _. by rewrite Hl, Hf.
  - unfold pump_place. cbn. by rewrite Hf, Hl, Hf.
Qed.

Lemma pump_deliver_moves d r r' :
  pump_deliver d r = Some r' → pump_inv (inspecting r) d (pump_of d r) →
  ∃ q, pump_moved d q r r' ∧ pump_inv (inspecting r) d (pump_of d r').
Proof.
  intros H [Hb Hp]. unfold pump_deliver in H.
  destruct (pu_pc (pump_of d r)) as [| | | |events| |] eqn:Hpc; try done.
  unfold pump_place in Hp. rewrite Hpc in Hp. destruct Hp as (Hf & Hl & Hh).
  assert (Hsp : pu_pc (pump_of d r) ≠ Unspawned) by by rewrite Hpc.
  destruct events as [|event events].
  - injection H as <-. exists []. pump_goes_to d (at_pc Reading (pump_of d r)).
    split; [by destruct Hb; split|]. unfold pump_place. by cbn.
  - destruct (receiver_open r) eqn:Hopen; [|injection H as <-; exists []; by apply pump_fails_moves].
    unfold send in H. destruct (_ <? _); [|done]. cbn in H. injection H as <-.
    exists [Observed event]. pump_goes_to d (delivers event events (pump_of d r)). destruct Hb as [(all & H0 & H1) H2 H3 H4]. split.
    + split; cbn; try done. exists all. split; [done|]. unfold in_hand, inspected_events in Hh, H0.
      rewrite Hh in H0. injection H0 as <-. apply prefix_app. by exists events.
    + unfold pump_place, in_hand, inspected_events. cbn. by rewrite <- app_assoc.
Qed.

Lemma pump_report_moves d r r' :
  pump_report d r = Some r' → pump_inv (inspecting r) d (pump_of d r) →
  ∃ q, pump_moved d q r r' ∧ pump_inv (inspecting r) d (pump_of d r').
Proof.
  intros H [Hb Hp]. unfold pump_report in H.
  destruct (pu_pc (pump_of d r)) as [| | | | |event|] eqn:Hpc; try done.
  unfold pump_place in Hp. rewrite Hpc in Hp.
  assert (Hsp : pu_pc (pump_of d r) ≠ Unspawned) by by rewrite Hpc.
  destruct (receiver_open r) eqn:Hopen; cbn in H.
  - unfold send in H. destruct (_ <? _); [|done]. cbn in H. injection H as <-.
    exists [event]. pump_goes_to d (at_pc PumpDone (pump_of d r)); try (by destruct d; cbn; rewrite Hp, app_nil_r).
    by apply pump_inv_end.
  - injection H as <-. exists []. pump_goes_to d (at_pc PumpDone (pump_of d r)).
    by apply pump_inv_end.
Qed.

(** ** The relay *)

(** What a readiness with these settings rests on: a prefix of what the pumps
    delivered. *)
Definition proved (e : ReadinessExpectation) (r : Relay) (settings : EffectiveThreadSettings) : Prop :=
  ∃ seen s, seen `prefix_of` delivered r ∧ observe_all (new_state e) seen = Ok (s, true)
            ∧ rs_effective_settings s = Some settings.

Definition early (pc : WorkerPc) : Prop :=
  match pc with WAccept | WConnect | WSetup => True | _ => False end.
Definition in_loop (pc : WorkerPc) : Prop := match pc with WHead | WReceive => True | _ => False end.

(** While the worker is not ready, what it has observed and what waits in its
    channel is all that was delivered. *)
Definition observing (e : ReadinessExpectation) (r : Relay) : Prop :=
  ∃ seen b, delivered r = seen ++ omap observed_of (queue r)
            ∧ observe_all (new_state e) seen = Ok (readiness r, b).
Definition not_started (e : ReadinessExpectation) (r : Relay) : Prop :=
  pu_pc (client_pump r) = Unspawned ∧ pu_pc (server_pump r) = Unspawned
  ∧ queue r = [] ∧ delivered r = [] ∧ readiness r = new_state e.

Record relay_inv (e : ReadinessExpectation) (r : Relay) : Prop := {
  ri_client : pump_inv (inspecting r) ClientToServer (client_pump r);
  ri_server : pump_inv (inspecting r) ServerToClient (server_pump r);
  ri_merge : merges (pu_delivered (client_pump r)) (pu_delivered (server_pump r)) (delivered r);
  ri_early : early (worker r) → not_started e r;
  ri_loop : in_loop (worker r) → ready r = false → observing e r;
  ri_publish : ∀ st, worker r = WPublish st → proved e r st;
  ri_verdict : ∀ st, verdict r = Some (Ok st) → proved e r st;
  ri_caller : ∀ st, caller r = CRecord (Ok st) → proved e r st;
  ri_result : ∀ st, readiness_result r = Some (Ok st) → proved e r st;
  ri_returned : ∀ st, Ok (Some st) ∈ returned r → proved e r st;
}.

Lemma proved_later e r r' st : proved e r st → delivered r `prefix_of` delivered r' → proved e r' st.
Proof. intros (seen & s & H & Ho) Hp. exists seen, s. split; [by etransitivity|done]. Qed.

Lemma new_relay_inv e : relay_inv e (new_relay e).
Proof.
  split; cbn; try done; try apply new_pump_inv; try (by intros ? ?%not_elem_of_nil). constructor.
Qed.

(** A pump moves. *)
Lemma relay_inv_pump e d q r r' :
  relay_inv e r → pump_moved d q r r' → pump_inv (inspecting r) d (pump_of d r') → relay_inv e r'.
Proof.
  intros [I1 I2 I3 I4 I5 I6 I7 I8 I9 I10] [M1 M2 M3 M4 _ M6 M7] Hd.
  injection M6 as R1 R2 R3 R4 R5 R6 R7 R8 R9 R10.
  assert (Hpre : delivered r `prefix_of` delivered r') by (rewrite M3; by exists (omap observed_of q)).
  split; rewrite ?R1, ?R3, ?R4, ?R5, ?R7, ?R8, ?R9, ?R10; try (intros st Hst; eapply proved_later; eauto; fail).
  - destruct d; cbn in *; [done|by rewrite M1].
  - destruct d; cbn in *; [by rewrite M1|done].
  - rewrite M3. destruct d; cbn in *; rewrite M1, M4; [by apply merges_left_all|by apply merges_right_all].
  - intros He. destruct (I4 He) as (Hc & Hs & _). destruct d; cbn in M7; congruence.
  - intros Hl Hr. destruct (I5 Hl Hr) as (seen & b & Hseen & Ho). exists seen, b.
    rewrite M2, M3, R4, Hseen, omap_app, app_assoc. done.
Qed.

(** The caller moves. *)
Definition core (r : Relay) :=
  (inspecting r, queue r, client_pump r, server_pump r, (worker r, readiness r, ready r, delivered r)).
Lemma relay_inv_call e r r' :
  relay_inv e r → core r' = core r →
  (∀ st, verdict r' = Some (Ok st) → verdict r = Some (Ok st)) →
  (∀ st, caller r' = CRecord (Ok st) → proved e r st) →
  (∀ st, readiness_result r' = Some (Ok st) → proved e r st) →
  (∀ st, Ok (Some st) ∈ returned r' → proved e r st) → relay_inv e r'.
Proof.
  intros [I1 I2 I3 I4 I5 I6 I7 I8 I9 I10] Hc Hv Hca Hr Hret.
  injection Hc as C1 C2 C3 C4 C5 C6 C7 C8.
  assert (Hpre : ∀ st, proved e r st → proved e r' st) by (intros st H; eapply proved_later; [done|by rewrite C8]).
  split; rewrite ?C1, ?C3, ?C4, ?C5, ?C7, ?C8; eauto.
  - intros He. unfold not_started. rewrite C2, C3, C4, C6, C8. by apply I4.
  - intros Hl Hn. unfold observing. rewrite C2, C6, C8. by apply I5.
Qed.

(** The worker moves. *)
Definition around (r : Relay) := (client_pump r, server_pump r, delivered r, (caller r, readiness_result r, returned r)).
Lemma relay_inv_work e r r' :
  relay_inv e r → around r' = around r → inspecting r' = inspecting r ∨ inspecting r' = false →
  (early (worker r') → early (worker r) ∧ queue r' = queue r ∧ readiness r' = readiness r) →
  (in_loop (worker r') → ready r' = false → observing e r') →
  (∀ st, worker r' = WPublish st → proved e r st) →
  (∀ st, verdict r' = Some (Ok st) → proved e r st) → relay_inv e r'.
Proof.
  intros [I1 I2 I3 I4 I5 I6 I7 I8 I9 I10] Ha Hi He Hl Hp Hv.
  injection Ha as A1 A2 A3 A4 A5 A6.
  assert (Hpre : ∀ st, proved e r st → proved e r' st) by (intros st H; eapply proved_later; [done|by rewrite A3]).
  split; rewrite ?A1, ?A2, ?A3, ?A4, ?A5, ?A6; eauto.
  - destruct Hi as [->| ->]; [done|by eapply pump_inv_dead].
  - destruct Hi as [->| ->]; [done|by eapply pump_inv_dead].
  - intros H. destruct (He H) as (H1 & H2 & H3). unfold not_started. rewrite A1, A2, A3, H2, H3. by apply I4.
Qed.

(** Events are observed one at a time. *)
Lemma observe_all_snoc e seen s b event s' b' :
  observe_all (new_state e) seen = Ok (s, b) → observe s event = Ok (s', b') →
  observe_all (new_state e) (seen ++ [event]) = Ok (s', b').
Proof.
  intros H Ho. assert (H0 : observed e (new_state e) []) by by split.
  destruct (observe_all_observed _ _ _ _ _ _ H0 H) as (_ & main & _ & Hm).
  destruct (exchange_step _ _ _ _ _ _ Hm Ho) as [Hb _]. clear H0 Hm main.
  revert H. generalize (new_state e). induction seen as [|x seen IH]; intros s0 H; cbn in *.
  - injection H as -> _. rewrite Ho. cbn. by rewrite Hb.
  - destruct (observe s0 x) as [[s1 b1]|]; [|done]. cbn in *. by apply IH.
Qed.

Lemma spawn_inv live d p : pump_inv live d p → pu_pc p = Unspawned → pump_inv live d (at_pc Reading p).
Proof.
  intros [[H1 H2 H3 H4] Hp] Hpc. unfold pump_place in Hp. rewrite Hpc in Hp. destruct Hp as (Hr & Hf & Hi & Hh).
  split; [by split|]. unfold pump_place. cbn. rewrite Hr, Hf, Hi. done.
Qed.

(** Places where nothing is asked of the worker. *)
Definition aside (pc : WorkerPc) : Prop :=
  match pc with WSelect _ | WJoin _ | WReport _ | WNotify _ | WDone _ => True | _ => False end.
Lemma relay_inv_aside e r r' :
  relay_inv e r → around r' = around r → inspecting r' = inspecting r ∨ inspecting r' = false →
  aside (worker r') → (∀ st, verdict r' = Some (Ok st) → proved e r st) → relay_inv e r'.
Proof.
  intros Hr Ha Hi Hw Hv. apply (relay_inv_work e r); try done; by destruct (worker r').
Qed.
Lemma leave_loop_inv e r r0 outcome :
  relay_inv e r0 → around r = around r0 → (∀ st, verdict r = Some (Ok st) → proved e r0 st) →
  relay_inv e (leave_loop outcome r).
Proof. intros Hr Ha Hv. eapply relay_inv_aside; [exact Hr|done|by right|done|done]. Qed.

Lemma worker_publish_inv e settings r :
  relay_inv e r → worker r = WPublish settings → relay_inv e (worker_publish settings r).
Proof.
  intros Hr Hw. pose proof (ri_publish _ _ Hr _ Hw) as Hp. pose proof (ri_verdict _ _ Hr) as Hv.
  unfold worker_publish. destruct (publish_readiness _ _) as [[|error] c], (publishes (control r)).
  - apply (relay_inv_work e r); try done; [by right|]. by intros st [= <-].
  - apply (relay_inv_work e r); try done. by left.
  - apply (leave_loop_inv e _ r); try done. by intros st [= <-].
  - by apply (leave_loop_inv e _ r).
Qed.

Lemma worker_receive_inv e r : relay_inv e r → worker r = WReceive → relay_inv e (worker_receive r).
Proof.
  intros Hr Hw. pose proof (ri_verdict _ _ Hr) as Hv. pose proof (ri_loop _ _ Hr) as Hl. rewrite Hw in Hl.
  specialize (Hl I). unfold worker_receive. destruct (queue r) as [|event q] eqn:Hq.
  - destruct (_ && _).
    + destruct (stopping r); [by apply (leave_loop_inv e _ r)|].
      destruct (transport_failure _ _) as [o c]. destruct (select_run_error o c) as [o' c'].
      by apply (leave_loop_inv e _ r).
    + apply (relay_inv_work e r); try done. by left.
  - destruct event as [event|error|error].
    + unfold worker_observes. cbn [ready set_queue readiness]. destruct (ready r) eqn:Hrd.
      * apply (relay_inv_work e r); try done; [by left|]. intros _ Hn. cbn in Hn. congruence.
      * destruct (Hl eq_refl) as (seen & b & Hseen & Ho). rewrite Hq in Hseen. cbn in Hseen.
        destruct (observe (readiness r) event) as [[s ready']|error] eqn:Hob;
          [|apply (relay_inv_aside e r); try done; by left].
        pose proof (observe_all_snoc _ _ _ _ _ _ _ Ho Hob) as Hsnoc.
        rewrite cons_middle, app_assoc in Hseen. destruct ready'.
        -- destruct (rs_effective_settings s) as [settings|] eqn:Hs;
             [|apply (relay_inv_aside e r); try done; by left].
           apply (relay_inv_work e r); try done; [by left|]. intros st [= <-].
           exists (seen ++ [event]), s. split; [|done]. rewrite Hseen. by apply prefix_app_r.
        -- apply (relay_inv_work e r); try done; [by left|]. intros _ _. by exists (seen ++ [event]), false.
    + destruct (stopping _); [by apply (leave_loop_inv e _ r)|]. apply (relay_inv_aside e r); try done. by left.
    + destruct (stopping _); [by apply (leave_loop_inv e _ r)|]. apply (relay_inv_aside e r); try done. by left.
Qed.

Lemma worker_turn_inv e due r r' : worker_turn due r = Some r' → relay_inv e r → relay_inv e r'.
Proof.
  intros H Hr. pose proof (ri_verdict _ _ Hr) as Hv. unfold worker_turn in H.
  destruct (worker r) as [| | | | |settings|error|outcome|outcome|outcome|] eqn:Hw; try done; try (injection H as <-).
  - pose proof (ri_loop _ _ Hr) as Hl. rewrite Hw in Hl. unfold worker_head.
    destruct (stopping r); [by apply (leave_loop_inv e _ r)|]. destruct (_ && _).
    + apply (relay_inv_aside e r); try done. by left.
    + apply (relay_inv_work e r); try done. by left.
  - by apply worker_receive_inv.
  - by apply worker_publish_inv.
  - unfold worker_select. destruct (select_failure _ _). by apply (leave_loop_inv e _ r).
  - destruct (_ && _); [|done]. injection H as <-. apply (relay_inv_aside e r); try done. by left.
  - unfold worker_report. destruct (select_run_error _ _). apply (relay_inv_aside e r); try done. by left.
  - unfold worker_notify. destruct outcome; [|destruct (sent r)];
      apply (relay_inv_aside e r); try done; by left.
Qed.

Lemma worker_start_inv e a r r' :
  match a with
  | WorkerAccept input => worker_accept input r = Some r'
  | WorkerConnect input => worker_connect input r = Some r'
  | WorkerSetup input => worker_setup input r = Some r'
  | _ => False
  end → relay_inv e r → relay_inv e r'.
Proof.
  intros H Hr. pose proof (ri_verdict _ _ Hr) as Hv.
  assert (Hgo : ∀ pc, early pc → early (worker r) → relay_inv e (set_worker pc r)).
  { intros pc Hpc Hw. apply (relay_inv_work e r); try done; first [by left|by destruct pc]. }
  assert (Hend : ∀ o c h, relay_inv e (set_worker (WReport o) (set_control c (set_health h r)))).
  { intros o c h. apply (relay_inv_aside e r); try done. by left. }
  assert (Hend' : ∀ o, relay_inv e (set_worker (WReport o) r)).
  { intros o. apply (relay_inv_aside e r); try done. by left. }
  assert (Hend2 : ∀ o c, relay_inv e (set_worker (WReport o) (set_control c r))).
  { intros o c. apply (relay_inv_aside e r); try done. by left. }
  destruct a as [| | | | |input|input|input| | | | | |]; try done.
  - unfold worker_accept, worker_to in H. destruct (worker r); try done. destruct (negb _); [by simplify_eq|].
    destruct input as [| |[]|]; try (simplify_eq; auto; fail).
    + simplify_eq. by apply Hgo.
    + destruct (transport_failure _ _). by simplify_eq.
  - unfold worker_connect, worker_to in H. destruct (worker r); try done. destruct (negb _); [by simplify_eq|].
    destruct input as [|[]|]; try (simplify_eq; auto; fail). simplify_eq. by apply Hgo.
  - unfold worker_setup, worker_to in H. destruct (worker r) eqn:Hw; try done.
    assert (Hearly : not_started e r) by (apply (ri_early _ _ Hr); by rewrite Hw).
    destruct Hearly as (Hc & Hs & Hq & Hd & Hst). destruct input as [|of_client| |].
    + simplify_eq. destruct Hr as [I1 I2 I3 I4 I5 I6 I7 I8 I9 I10]. split; try done; try by apply spawn_inv.
      intros _ _. exists [], false. cbn. by rewrite Hq, Hd, Hst.
    + destruct (transport_failure _ _). by simplify_eq.
    + destruct (select_failure _ _). by simplify_eq.
    + destruct (select_failure _ _). simplify_eq. destruct Hr as [I1 I2 I3 I4 I5 I6 I7 I8 I9 I10].
      split; try done; [by apply spawn_inv|]. cbn. destruct I2 as [I2 _]. by apply pump_inv_end.
Qed.

Lemma arbitrate_inv e r : relay_inv e r → relay_inv e (arbitrate r).
Proof.
  intros Hr. pose proof Hr as [I1 I2 I3 I4 I5 I6 I7 I8 I9 I10]. unfold arbitrate.
  destruct (arbitrate_deadline _ _) as [v c] eqn:Hv.
  assert (Hca : ∀ st, v = Ok st → verdict r = Some (Ok st)).
  { intros st ->. unfold arbitrate_deadline in Hv. destruct (selection (control r)); try done.
    destruct (verdict r) as [[st'|x]|]; cbn [default from_option id] in Hv;
      [by injection Hv as ->|by destruct (fail_with x (control r))|by destruct (fail_with Rp_Timeout (control r))]. }
  apply (relay_inv_call e r); try done; try (by case_bool_decide).
  intros st [= ->]. auto.
Qed.

Lemma caller_step_inv e a r r' :
  match a with
  | CallerPoll => caller_poll r = Some r'
  | CallerWait due => caller_wait due r = Some r'
  | CallerEnsure => caller_ensure r = Some r'
  | CallerTurn due found => caller_turn due found r = Some r'
  | CallerStop => caller_stop r = Some r'
  | _ => False
  end → relay_inv e r → relay_inv e r'.
Proof.
  intros H Hr. pose proof Hr as [I1 I2 I3 I4 I5 I6 I7 I8 I9 I10].
  assert (Htake : ∀ v, verdict r = Some v → relay_inv e (take_verdict v r)).
  { intros v Hv. apply (relay_inv_call e r); try done. intros st Hst. cbn in Hst. simplify_eq. auto. }
  assert (Hnone : relay_inv e (record_later (no_verdict r) r)).
  { by apply (relay_inv_call e r). }
  assert (Hto : ∀ pc, (∀ v, pc ≠ CRecord v) → relay_inv e (set_caller pc r)).
  { intros pc Hpc. apply (relay_inv_call e r); try done. intros st Hst. cbn in Hst. by destruct (Hpc (Ok st)). }
  assert (Hans : ∀ x c, relay_inv e (answers x (set_control c r))).
  { intros x c. by apply (relay_inv_call e r). }
  assert (Hans' : ∀ x, relay_inv e (answers x r)).
  { intros x. by apply (relay_inv_call e r). }
  destruct a as [| | | | | | | | | |due| |due found|]; try done.
  - unfold caller_poll in H. destruct (caller r); try done. destruct (readiness_result r) as [v|] eqn:Hres.
    + simplify_eq. apply (relay_inv_call e r); try done; [cbn; by rewrite Hres|]. intros st. cbn.
      rewrite elem_of_app, list_elem_of_singleton. intros [Hx|Hx]; [auto|]. destruct v; [|done]. cbn in Hx. simplify_eq. auto.
    + destruct (verdict r) as [v|]; [simplify_eq; auto|]. destruct (worker_finished r); simplify_eq; auto.
  - unfold caller_wait in H. destruct (caller r); try done. destruct (readiness_result r); [done|].
    destruct due; [simplify_eq; by apply arbitrate_inv|].
    destruct (verdict r) as [v|]; [simplify_eq; auto|]. destruct (worker_finished r); simplify_eq; auto.
  - unfold caller_ensure in H. destruct (caller r); try done.
    destruct (readiness_result r) as [[]|]; [|by simplify_eq..].
    destruct (_ =? _); [|destruct (_ =? _)]; simplify_eq; auto.
  - unfold caller_turn in H. destruct (caller r) as [| | | |v| |endpoint|] eqn:Hca; try done; injection H as <-.
    + destruct due; [by apply arbitrate_inv|auto].
    + destruct (worker_finished r); [auto|]. apply (relay_inv_call e r); try done. intros st. cbn.
      rewrite elem_of_app, list_elem_of_singleton. intros [Hx|Hx]; [auto|done].
    + destruct (verdict r); auto.
    + unfold record_readiness. apply (relay_inv_call e r); try done; cbn.
      * intros st [= ->]. auto.
      * intros st. rewrite elem_of_app, list_elem_of_singleton. intros [Hx|Hx]; [auto|].
        destruct v; [|done]. cbn in Hx. simplify_eq. auto.
    + unfold ensure_worker. destruct (worker_finished r); [by destruct (disconnect _ _)|destruct (health r); auto].
    + unfold ensure_health. destruct (socket_is_connected _ _ _) as [[[]|] c]; [destruct endpoint| |]; try done;
        apply (relay_inv_call e r); try done.
    + unfold ensure_classify. by destruct (classify_disconnected _ _).
  - unfold caller_stop in H. destruct (caller r) eqn:Hca; try done.
    destruct (readiness_result r) as [[]|] eqn:Hres; [|simplify_eq|];
      try (destruct (stop_with_disconnected_origin _ _) as [[previous error] c]; simplify_eq);
      apply (relay_inv_call e r); try done; cbn; try (by rewrite Hca); by rewrite Hres.
Qed.

Lemma step_relay_inv e a r r' : relay_inv e r → step a r = Some r' → relay_inv e r'.
Proof.
  intros Hr H. pose proof (worker_start_inv e a r r') as Hw. pose proof (caller_step_inv e a r r') as Hc.
  assert (Hp : ∀ d, pump_inv (inspecting r) d (pump_of d r)) by (by intros []; destruct Hr).
  destruct a as [d input wrote|d|d wrote|d|d|input|input|input|due| |due| |due found|]; cbn in H; auto.
  - destruct (pump_read_moves _ _ _ _ _ H (Hp d)) as (q & Hm & Hi). by eapply relay_inv_pump.
  - destruct (pump_feed_moves _ _ _ H (Hp d)) as (q & Hm & Hi). by eapply relay_inv_pump.
  - destruct (pump_write_moves _ _ _ _ H (Hp d)) as (q & Hm & Hi). by eapply relay_inv_pump.
  - destruct (pump_deliver_moves _ _ _ H (Hp d)) as (q & Hm & Hi). by eapply relay_inv_pump.
  - destruct (pump_report_moves _ _ _ H (Hp d)) as (q & Hm & Hi). by eapply relay_inv_pump.
  - by eapply worker_turn_inv.
Qed.
Lemma reachable_inv e actions r : run actions (new_relay e) = Some r → relay_inv e r.
Proof. apply run_invariant; [intros a r1 r2; apply step_relay_inv|apply new_relay_inv]. Qed.

(** ** How inspection ends *)

Definition watched (r : Relay) := (inspecting r, delivered r).
Lemma arbitrate_watched r : watched (arbitrate r) = watched r.
Proof. unfold arbitrate. destruct (arbitrate_deadline _ _). by case_bool_decide. Qed.
Lemma caller_step_watched a r r' :
  match a with
  | CallerPoll => caller_poll r = Some r'
  | CallerWait due => caller_wait due r = Some r'
  | CallerEnsure => caller_ensure r = Some r'
  | CallerTurn due found => caller_turn due found r = Some r'
  | CallerStop => caller_stop r = Some r'
  | _ => False
  end → watched r' = watched r.
Proof.
  destruct a as [| | | | | | | | | |due| |due found|]; try done.
  - unfold caller_poll. intros H. repeat case_match; simplify_eq; first [done|apply arbitrate_watched].
  - unfold caller_wait. intros H. repeat case_match; simplify_eq; first [done|apply arbitrate_watched].
  - unfold caller_ensure. intros H. repeat case_match; simplify_eq; first [done|apply arbitrate_watched].
  - unfold caller_turn, ensure_worker, ensure_health, ensure_classify, record_readiness.
    intros H. repeat case_match; simplify_eq; first [done|apply arbitrate_watched].
  - unfold caller_stop. intros H. repeat case_match; simplify_eq; first [done|apply arbitrate_watched].
Qed.
(** The worker ends inspection where it publishes, and where it leaves its loop
    with an outcome that is selected. *)
Lemma worker_step_watched a r r' :
  match a with
  | WorkerAccept input => worker_accept input r = Some r'
  | WorkerConnect input => worker_connect input r = Some r'
  | WorkerSetup input => worker_setup input r = Some r'
  | WorkerTurn due => worker_turn due r = Some r'
  | _ => False
  end → outcome_ok r →
  watched r' = watched r
  ∨ delivered r' = delivered r ∧ ((∃ settings, worker r = WPublish settings) ∨ selection (control r') ≠ Open).
Proof.
  intros H Hr. pose proof (oo_control _ Hr) as Hc.
  destruct a as [| | | | |input|input|input|due| | | | |]; try done.
  - left. unfold worker_accept, worker_to in H. repeat case_match; by simplify_eq.
  - left. unfold worker_connect, worker_to in H. repeat case_match; by simplify_eq.
  - left. unfold worker_setup, worker_to in H. repeat case_match; by simplify_eq.
  - unfold worker_turn in H.
    destruct (worker r) as [| | | | |settings|error|outcome|outcome|outcome|] eqn:Hw; try done;
      try (injection H as <-).
    + unfold worker_head. destruct (stopping r) eqn:Hst; [right|left; by destruct (_ && _)].
      split; [done|]. right. by apply stopping_closed.
    + unfold worker_receive. destruct (queue r) as [|[event|error|error] q].
      * destruct (_ && _); [|by left]. destruct (stopping r) eqn:Hst.
        { right. split; [done|]. right. by apply stopping_closed. }
        destruct (transport_failure _ _) as [o c] eqn:Ho. destruct (select_run_error _ _) as [o' c'] eqn:Ho'.
        right. split; [done|]. right. apply select_run_error_run in Ho'; [destruct o'; cbn; [done|by rewrite Ho']|].
        intros ->. by eapply transport_failure_run.
      * left. unfold worker_observes. cbn [ready set_queue readiness]. destruct (ready r); [done|].
        destruct (observe _ event) as [[s []]|]; [by destruct (rs_effective_settings s)|done..].
      * destruct (stopping _) eqn:Hst; [right|by left]. split; [done|]. right. by apply (stopping_closed r).
      * destruct (stopping _) eqn:Hst; [right|by left]. split; [done|]. right. by apply (stopping_closed r).
    + right. split; [|by left; eexists]. unfold worker_publish.
      destruct (publish_readiness _ _) as [[|] c]; by destruct (publishes _).
    + unfold worker_select. destruct (select_failure _ _) as [o c] eqn:Ho. right. split; [done|]. right.
      apply select_failure_run in Ho. cbn. destruct o; by rewrite Ho.
    + destruct (_ && _); [|done]. injection H as <-. by left.
    + left. unfold worker_report. by destruct (select_run_error _ _).
    + left. unfold worker_notify. destruct outcome; [done|]. by destruct (sent r).
Qed.

(** Inspection ends with the exchange observed or an outcome selected. *)
Definition ended_well (e : ReadinessExpectation) (r : Relay) : Prop :=
  inspecting r = false → selection (control r) ≠ Open ∨ ∃ settings, proved e r settings.
Lemma ended_well_same e r r' :
  ended_well e r → outcome_ok r → evolves (control r) (control r') → inspecting r' = inspecting r →
  delivered r `prefix_of` delivered r' → ended_well e r'.
Proof.
  intros Hr Ho He Hi Hd Hn. rewrite Hi in Hn. destruct (Hr Hn) as [Hs|[settings Hp]].
  - left. eapply evolves_closed; [by apply oo_control|done..].
  - right. exists settings. by eapply proved_later.
Qed.
Lemma step_ended_well e a r r' :
  relay_inv e r → outcome_ok r → step a r = Some r' → ended_well e r → ended_well e r'.
Proof.
  intros Hr Ho H Hw. pose proof (step_evolves _ _ _ H) as Hev.
  assert (Hpump : ∀ d q, pump_moved d q r r' → ended_well e r').
  { intros d q [_ _ Hd _ _ Hrest _]. injection Hrest as Hin _. apply (ended_well_same e r); try done.
    rewrite Hd. by exists (omap observed_of q). }
  assert (Hcall : watched r' = watched r → ended_well e r').
  { intros [= Hin Hd]. apply (ended_well_same e r); try done. by rewrite Hd. }
  assert (Hwork : watched r' = watched r
    ∨ delivered r' = delivered r ∧ ((∃ st, worker r = WPublish st) ∨ selection (control r') ≠ Open) → ended_well e r').
  { intros [Hs|[Hd [[st Hst]|Hs]]]; [auto| |by intros _; left].
    intros _. right. exists st. eapply proved_later; [by apply (ri_publish _ _ Hr)|by rewrite Hd]. }
  pose proof (worker_step_watched a r r') as Hws. pose proof (caller_step_watched a r r') as Hcs.
  assert (Hp : ∀ d, pump_inv (inspecting r) d (pump_of d r)) by (by intros []; destruct Hr).
  destruct a as [d input wrote|d|d wrote|d|d|input|input|input|due| |due| |due found|]; cbn in H; auto.
  - destruct (pump_read_moves _ _ _ _ _ H (Hp d)) as (q & Hm & _). eauto.
  - destruct (pump_feed_moves _ _ _ H (Hp d)) as (q & Hm & _). eauto.
  - destruct (pump_write_moves _ _ _ _ H (Hp d)) as (q & Hm & _). eauto.
  - destruct (pump_deliver_moves _ _ _ H (Hp d)) as (q & Hm & _). eauto.
  - destruct (pump_report_moves _ _ _ H (Hp d)) as (q & Hm & _). eauto.
Qed.
Lemma reachable_ended_well e actions r : run actions (new_relay e) = Some r → ended_well e r.
Proof.
  intros H. cut (relay_inv e r ∧ (outcome_ok r ∧ call_ok r) ∧ ended_well e r); [naive_solver|]. revert H.
  apply (run_invariant (λ r, relay_inv e r ∧ (outcome_ok r ∧ call_ok r) ∧ ended_well e r)).
  - intros a r1 r2 (Hr & Ho & Hw) Hs. split; [by eapply step_relay_inv|]. split; [by eapply step_outcome|].
    by eapply step_ended_well; [|destruct Ho|..].
  - split; [apply new_relay_inv|]. split; [by eapply (reachable_outcome e [])|]. by intros ?.
Qed.

(** C38. The relay passes on what it reads: what a pump has written is a prefix of
    what it has read, all of it whenever it is about to read again. Until
    readiness it passes on nothing that the inspector of the direction has not
    accepted: as long as no failure or stop is selected and what the pumps
    delivered does not hold the exchange that the expectation asks for, inspection goes on,
    and what was written is a prefix of bytes that the inspector accepted. *)
Theorem relay_transparent e actions r d :
  run actions (new_relay e) = Some r →
  pu_forwarded (pump_of d r) `prefix_of` pu_read (pump_of d r)
  ∧ (pu_pc (pump_of d r) = Reading → pu_forwarded (pump_of d r) = pu_read (pump_of d r))
  ∧ (selection (control r) = Open → (∀ settings, ¬ proved e r settings) → inspecting r = true)
  ∧ (inspecting r = true →
       pu_forwarded (pump_of d r) `prefix_of` pu_inspected (pump_of d r)
       ∧ ∃ inspector events,
           inspect (new_inspector d) (pu_inspected (pump_of d r)) = Ok (inspector, events)).
Proof.
  intros H. pose proof (reachable_ended_well _ _ _ H) as Hend. apply reachable_inv in H.
  assert (pump_inv (inspecting r) d (pump_of d r)) as [[(events & He & _) Hf _ Hl] Hp] by by destruct d, H.
  split; [done|]. split; [|split; [|by eauto]].
  - intros Hpc. unfold pump_place in Hp. rewrite Hpc in Hp. by destruct Hp.
  - intros Hs Hn. destruct (inspecting r) eqn:Hi; [done|]. destruct (Hend Hi) as [?|[settings Hset]]; [done|].
    by destruct (Hn settings).
Qed.

(** C37. When a poll or a wait tells the caller that the relay is ready, with these
    settings, then the bytes read from the client and from the server, as far
    as they were inspected, contain the exchange that the expectation asks for,
    in this order, in what the two directions deliver together; and the
    settings are those of the server's answer. *)
Theorem relay_readiness_sound e actions r settings :
  run actions (new_relay e) = Some r → Ok (Some settings) ∈ returned r →
  ∃ client server ci si ce se ce' se' seen main,
    client `prefix_of` pu_read (client_pump r) ∧ server `prefix_of` pu_read (server_pump r)
    ∧ inspect (new_inspector ClientToServer) client = Ok (ci, ce) ∧ ce' `prefix_of` ce
    ∧ inspect (new_inspector ServerToClient) server = Ok (si, se) ∧ se' `prefix_of` se
    ∧ merges ce' se' seen ∧ sublist main seen ∧ exchange e settings main.
Proof.
  intros H%reachable_inv Hret. destruct (ri_returned _ _ H _ Hret) as (seen & s & Hpre & Hobs & Hst).
  destruct (merges_prefix _ _ _ _ (ri_merge _ _ H) Hpre) as (ce' & se' & Hce & Hse & Hm).
  destruct (ri_client _ _ H) as [[(ce & Hc & Hcd) _ Hci _] _].
  destruct (ri_server _ _ H) as [[(se & Hs & Hsd) _ Hsi _] _].
  destruct (readiness_sound _ _ _ Hobs) as (settings' & main & Hst' & Hex & Hsub).
  rewrite Hst in Hst'. injection Hst' as <-.
  exists (pu_inspected (client_pump r)), (pu_inspected (server_pump r)). do 4 eexists. exists ce', se', seen, main.
  split_and!; try done; by etransitivity.
Qed.
End relay.
