(* ===== verification/RelayExamples.v ===== *)
(** * The readiness relay: a concrete relay

    A small JSON reader, a client that resumes a thread and a server that
    answers; the run of the relay between them to readiness, and the run of one
    whose server ends early. *)
From Stdlib Require Import Ascii.
From S2P Require Import Prelude Interfaces Profiles UsageCache ConversationData CodexLines HandoffTransaction AppServer UniqueJson ReadinessFrames ReadinessChunks.
From S2P Require Import ThreadSettings ReadinessMessages ReadinessState RelayControl RelaySystem RelayProofs RelayTheorems.

Open Scope Z_scope.

Module RelayExample.
(** ** JSON: integers, literals and texts without escapes *)

#[warnings="-register-all"]
Inductive json :=
| JNull
| JBool (b : bool)
| JNum (n : Z)
| JStr (s : string)
| JArr (l : list json)
| JObj (l : list (string * json)).
#[export] Instance json_eq_dec : EqDecision json.
Proof.
  unfold EqDecision, RelDecision. fix go 1. intros x y. pose (go' := (go : EqDecision json)).
  destruct x as [|a|a|a|a|a], y as [|b|b|b|b|b]; try (right; discriminate).
  - by left.
  - destruct (decide (a = b)) as [->|H]; [by left|right; congruence].
  - destruct (decide (a = b)) as [->|H]; [by left|right; congruence].
  - destruct (decide (a = b)) as [->|H]; [by left|right; congruence].
  - destruct (@list_eq_dec json go' a b) as [->|H]; [by left|right; congruence].
  - destruct (@list_eq_dec (string * json) (@prod_eq_dec string _ json go') a b) as [->|H];
      [by left|right; congruence].
Defined.

Definition byte_char (b : Z) : ascii := ascii_of_N (Z.to_N b).
Definition byte_text (l : bytes) : string := String.string_of_list_ascii (byte_char <$> l).

Definition skip (l : bytes) : bytes := match l with 32 :: l => l | l => l end.
(** A text up to its closing quote, and a number up to what is no digit. *)
Fixpoint read_text (l : bytes) : option (bytes * bytes) :=
  match l with
  | [] => None
  | 34 :: l => Some ([], l)
  | b :: l => '(t, l) ← read_text l; Some (b :: t, l)
  end.
Fixpoint read_digits (n : Z) (l : bytes) : Z * bytes :=
  match l with
  | b :: l' => if in_byte_range 48 57 b then read_digits (n * 10 + (b - 48)) l' else (n, l)
  | [] => (n, [])
  end.
Fixpoint read (fuel : nat) (l : bytes) : option (Raw Empty_set * bytes) :=
  match fuel with
  | O => None
  | S fuel =>
      match l with
      | 34 :: l => '(t, l) ← read_text l; Some (RStr (byte_text t), l)
      | 123 :: 125 :: l => Some (RMap [], l)
      | 123 :: l => read_entries fuel l []
      | 116 :: 114 :: 117 :: 101 :: l => Some (RBool true, l)
      | 102 :: 97 :: 108 :: 115 :: 101 :: l => Some (RBool false, l)
      | 110 :: 117 :: 108 :: 108 :: l => Some (RUnit, l)
      | b :: _ => if in_byte_range 48 57 b then let '(n, l) := read_digits 0 l in Some (RI64 n, l) else None
      | [] => None
      end
  end
with read_entries (fuel : nat) (l : bytes) (entries : list (string * Raw Empty_set))
    : option (Raw Empty_set * bytes) :=
  match fuel with
  | O => None
  | S fuel =>
      match l with
      | 34 :: l =>
          '(key, l) ← read_text l;
          match l with
          | 58 :: l =>
              '(item, l) ← read fuel (skip l);
              let entries := entries ++ [(byte_text key, item)] in
              match l with
              | 44 :: l => read_entries fuel (skip l) entries
              | 125 :: l => Some (RMap entries, l)
              | _ => None
              end
          | _ => None
          end
      | _ => None
      end
  end.

Definition member (v : json) (name : string) : option json :=
  match v with
  | JObj l => snd <$> find_first (fun entry => String.eqb entry.1 name) l
  | _ => None
  end.
Definition number (v : json) : option Z := match v with JNum n => Some n | _ => None end.

#[export] Instance json_crate : JsonCrate := {|
  value := json;
  from_str _ := None;
  is_object v := match v with JObj _ => true | _ => false end;
  get := member;
  keys v := match v with JObj l => fst <$> l | _ => [] end;
  as_str v := match v with JStr s => Some s | _ => None end;
  as_i64 := number;
  as_u64 := number;
  as_bool v := match v with JBool b => Some b | _ => None end;
  as_array v := match v with JArr l => Some l | _ => None end;
  is_null v := match v with JNull => true | _ => false end;
  wire_initialize _ := None;
  wire_rate_limits _ := None;
|}.
#[export] Instance json_syntax : JsonSyntax := {|
  f64 := Empty_set;
  parse_slice l := match read (S (length l)) l with Some (raw, []) => Some raw | _ => None end;
  json_null := JNull : value;
  json_bool := JBool : bool → value;
  json_i64 := JNum : Z → value;
  json_u64 := JNum : Z → value;
  json_f64 x := match x with end;
  json_string := JStr : string → value;
  json_array := JArr : list value → value;
  json_object := JObj : list (string * value) → value;
|}.
#[export] Instance uuid_crate : UuidCrate := uuid_hyphenated.
#[export] Instance value_eq_dec : EqDecision value := json_eq_dec.

(** ** The wire *)

Definition crlf : bytes := [13; 10].
Definition client_hello : bytes :=
  text_bytes "GET / HTTP/1.1" ++ crlf ++ text_bytes "Upgrade: websocket" ++ crlf
  ++ text_bytes "Connection: Upgrade" ++ crlf ++ crlf.
Definition server_hello : bytes :=
  text_bytes "HTTP/1.1 101 Switching Protocols" ++ crlf ++ text_bytes "upgrade: WebSocket" ++ crlf
  ++ text_bytes "connection: keep-alive, Upgrade" ++ crlf ++ crlf.
Definition frame_length (mask_bit : Z) (n : Z) : bytes :=
  if n <=? 125 then [mask_bit + n] else [mask_bit + 126; n / 256; n mod 256].
(** A quote is written as an apostrophe here. *)
Definition json_text (s : string) : bytes := (fun b => if b =? 39 then 34 else b) <$> text_bytes s.
Definition client_frame (s : string) : bytes :=
  let payload := json_text s in
  129 :: frame_length 128 (len payload) ++ [1; 2; 3; 4] ++ unmask (Some [1; 2; 3; 4]) payload.
Definition server_frame (s : string) : bytes :=
  let payload := json_text s in 129 :: frame_length 0 (len payload) ++ payload.

Definition thread_a : string := "11111111-1111-4111-8111-111111111111".
Definition read_request := client_frame
  "{'id': 1, 'method': 'thread/read', 'params': {'threadId': '11111111-1111-4111-8111-111111111111'}}".
Definition read_answer := server_frame
  "{'id': 1, 'result': {'thread': {'id': '11111111-1111-4111-8111-111111111111'}}}".
Definition notice := server_frame "{'method': 'thread/status/changed'}".
Definition resume_request := client_frame
  "{'id': 2, 'method': 'thread/resume', 'params': {'threadId': '11111111-1111-4111-8111-111111111111'}}".
Definition resume_answer := server_frame
  "{'id': 2, 'result': {'thread': {'id': '11111111-1111-4111-8111-111111111111', 'forkedFromId': null}, 'cwd': '/work', 'model': 'm', 'modelProvider': 'p', 'approvalPolicy': 'on-request', 'approvalsReviewer': 'user', 'sandbox': {'type': 'readOnly', 'networkAccess': false}}}".

Definition expectation : ReadinessExpectation := mkReadinessExpectation thread_a (ExactResume "/work").
Definition settings : EffectiveThreadSettings :=
  mkEffectiveThreadSettings "/work" "m" "p" OnRequest User ReadOnly Restricted.
Lemma expectation_valid : exact_resume thread_a (Utf8 "/work") = Ok expectation.
Proof. vm_compute. reflexivity. Qed.

(** ** A run to readiness *)

(** A chunk with [n] events on its way through a pump, and [n] events through
    the worker. *)
Definition pass (d : Direction) (chunk : bytes) (n : nat) : list Action :=
  [PumpRead d (ReadBytes chunk) WroteAll; PumpFeed d; PumpWrite d WroteAll] ++ replicate (S n) (PumpDeliver d).
Definition work (n : nat) : list Action := replicate (2 * n) (WorkerTurn false).
Definition poll : list Action :=
  [CallerPoll; CallerTurn false Healthy; CallerTurn false Healthy].
Definition start : list Action := [WorkerAccept Accepted; WorkerConnect Connected; WorkerSetup SetUp].

Definition until_read : list Action :=
  start
  ++ pass ClientToServer (take 20 client_hello) 0
  ++ pass ClientToServer (drop 20 client_hello ++ take 5 read_request) 1
  ++ poll
  ++ pass ServerToClient server_hello 1 ++ work 2
  ++ pass ClientToServer (drop 5 read_request) 1 ++ work 1
  ++ pass ServerToClient (read_answer ++ notice) 2 ++ work 2.
Definition to_readiness : list Action :=
  until_read
  ++ pass ClientToServer resume_request 1
  ++ [PumpRead ServerToClient (ReadBytes resume_answer) WroteAll] ++ work 1
  ++ [PumpFeed ServerToClient; PumpWrite ServerToClient WroteAll; PumpDeliver ServerToClient; PumpDeliver ServerToClient]
  ++ work 1 ++ [WorkerTurn false; CallerPoll; CallerTurn false Healthy].

(** A run that ends in a relay of which [p] holds. *)
Definition runs_to (actions : list Action) (r : Relay) (p : Relay → bool) : bool :=
  match run actions r with Some r => p r | None => false end.
Lemma runs_to_true actions r p : runs_to actions r p = true → ∃ r', run actions r = Some r' ∧ p r' = true.
Proof. unfold runs_to. destruct (run actions r) as [r'|]; [eauto|done]. Qed.

(** The verdicts of the caller's calls, and the outcome of the worker. *)
#[local] Instance result_eq_dec {E A} `{EqDecision E, EqDecision A} : EqDecision (result E A).
Proof. solve_decision. Defined.
Definition answered_with (l : list (result ReadinessProxyError (option EffectiveThreadSettings))) (r : Relay) : bool :=
  bool_decide (returned r = l).

Lemma readiness_run : runs_to to_readiness (new_relay expectation) (answered_with [Ok None; Ok (Some settings)]) = true.
Proof. vm_compute. reflexivity. Qed.

Lemma relay_readiness_sound_witness :
  ∃ r, run to_readiness (new_relay expectation) = Some r ∧ Ok (Some settings) ∈ returned r ∧
  ∃ client server ci si ce se ce' se' seen main,
    client `prefix_of` pu_read (client_pump r) ∧ server `prefix_of` pu_read (server_pump r)
    ∧ inspect (new_inspector ClientToServer) client = Ok (ci, ce) ∧ ce' `prefix_of` ce
    ∧ inspect (new_inspector ServerToClient) server = Ok (si, se) ∧ se' `prefix_of` se
    ∧ merges ce' se' seen ∧ sublist main seen ∧ exchange expectation settings main.
Proof.
  destruct (runs_to_true _ _ _ readiness_run) as (r & Hr & Hret). apply bool_decide_eq_true in Hret.
  assert (Hin : Ok (Some settings) ∈ returned r) by (rewrite Hret; right; left).
  exists r. split; [exact Hr|]. split; [exact Hin|].
  exact (relay_readiness_sound expectation to_readiness r settings Hr Hin).
Defined.

Lemma inspecting_run :
  runs_to until_read (new_relay expectation) (fun r => inspecting r && (0 <? len (pu_forwarded (server_pump r)))) = true.
Proof. vm_compute. reflexivity. Qed.

(** Before the resume the relay inspects, and has passed bytes on. *)
Lemma relay_transparent_witness :
  ∃ r, run until_read (new_relay expectation) = Some r ∧ pu_forwarded (server_pump r) ≠ []
       ∧ pu_forwarded (server_pump r) `prefix_of` pu_inspected (server_pump r).
Proof.
  destruct (runs_to_true _ _ _ inspecting_run) as (r & Hr & Hi). apply andb_true_iff in Hi as [Hi Hf].
  exists r. split; [exact Hr|]. split; [intros He; rewrite He in Hf; discriminate Hf|].
  exact (proj1 (proj2 (proj2 (proj2 (relay_transparent expectation until_read r ServerToClient Hr))) Hi)).
Defined.

(** ** A server that ends before the resume *)

Definition until_end : list Action :=
  until_read ++ [PumpRead ServerToClient ReadEof WroteAll].
Definition after_end : list Action :=
  [PumpReport ServerToClient; PumpRead ClientToServer ReadEof WroteAll]
  ++ replicate 6 (WorkerTurn false) ++ [CallerPoll; CallerTurn false Healthy; CallerStop; CallerPoll].
Definition upstream_ended : ReadinessProxyError := Rp_Transport UpstreamEof.
Definition selected_with (s : RelayFailureSelection) (r : Relay) : bool := bool_decide (selection (control r) = s).
Lemma ended_run :
  runs_to until_end (new_relay expectation) (fun r =>
    selected_with (Failed upstream_ended) r
    && runs_to after_end r (answered_with [Ok None; Err upstream_ended; Err upstream_ended])) = true.
Proof. vm_compute. reflexivity. Qed.

Lemma relay_single_outcome_witness :
  ∃ r r', run until_end (new_relay expectation) = Some r ∧ run after_end r = Some r'
  ∧ selection (control r) = Failed upstream_ended ∧ ∀ x, Err x ∈ returned r' → x = upstream_ended.
Proof.
  destruct (runs_to_true _ _ _ ended_run) as (r & Hr & Hs). apply andb_true_iff in Hs as [Hs Ha].
  apply bool_decide_eq_true in Hs. destruct (runs_to_true _ _ _ Ha) as (r' & Hr' & _).
  exists r, r'. split; [exact Hr|]. split; [exact Hr'|]. split; [exact Hs|].
  exact (proj1 (proj1 (proj2 (relay_single_outcome expectation until_end after_end r r' Hr Hr')) _ Hs)).
Defined.

(** ** The inspection of one direction *)

Definition chunks : list bytes :=
  [take 20 client_hello; drop 20 client_hello ++ take 5 read_request; drop 5 read_request ++ take 9 resume_request].
Definition inspected : ProtocolInspector * list ObservedEvent :=
  match feed_all inspect_message Handshake (new_inspector ClientToServer) chunks with
  | Ok x => x
  | Err _ => (new_inspector ClientToServer, [])
  end.
Lemma chunks_inspected :
  feed_all inspect_message Handshake (new_inspector ClientToServer) chunks = Ok (fst inspected, snd inspected).
Proof. vm_compute. reflexivity. Qed.
Lemma inspector_bounded_witness :
  feed_all inspect_message Handshake (new_inspector ClientToServer) chunks = Ok (fst inspected, snd inspected)
  ∧ len (fd_buffer (pi_frames (fst inspected))) < MAX_FRAME_BUFFER_BYTES.
Proof.
  split; [exact chunks_inspected|].
  exact (proj1 (proj2 (proj2 (inspector_bounded inspect_message Handshake ClientToServer chunks
    (fst inspected) (snd inspected) chunks_inspected)))).
Defined.

(** ** The exchange with events of the server in between *)

Definition id (n : Z) : value := JNum n.
Definition plain_exchange : list ObservedEvent :=
  [Request (id 1) ThreadRead thread_a None; Response (id 1) false (Some thread_a) None None;
   Request (id 2) ThreadResume thread_a None; Response (id 2) false (Some thread_a) None (Some settings)].
Definition with_notices : list ObservedEvent :=
  ProviderNotification "a" :: flat_map (fun event => [event; ProviderRequest (id 9) "b"]) plain_exchange.
Lemma plain_exchange_ok : exchange expectation settings (handshakes ++ plain_exchange).
Proof.
  exists [Request (id 1) ThreadRead thread_a None; Response (id 1) false (Some thread_a) None None].
  exists [Request (id 2) ThreadResume thread_a None; Response (id 2) false (Some thread_a) None (Some settings)].
  exists [], None. split; [done|]. split; [|split; [|done]].
  - exists (id 1). eexists _, None, None. split; [|done]. by exists None.
  - by exists (id 2), None.
Qed.
Lemma readiness_reached_witness :
  exchange expectation settings (handshakes ++ plain_exchange) ∧ thread_events with_notices = plain_exchange ∧
  ∃ s, observe_all (new_state expectation) (handshakes ++ with_notices) = Ok (s, true)
       ∧ rs_effective_settings s = Some settings.
Proof.
  split; [exact plain_exchange_ok|]. split; [reflexivity|].
  exact (readiness_reached expectation settings plain_exchange with_notices plain_exchange_ok eq_refl).
Defined.
End RelayExample.
