(* ===== verification/ProfileDisk.v ===== *)
(** * The managed data root on disk (src/profiles.rs)

    The directories and files the profile registry works on, the system calls
    it makes on them and what it checks of every file before it trusts it, in
    the Linux build. A call may fail with an [io::Error], and the process may
    die at any call: a program over the disk is a [diskM], whose failure is
    either a [ProfileError], which handlers see, or the death of the process,
    which they do not. What a call that failed, or the call the process died
    in, leaves is what the next process finds.

    Names are byte strings. Paths outside the data root (its ancestors, which
    [verify_safe_creation_parent] inspects) are not modelled. A process crash is
    modelled, a power loss that undoes unsynced renames is not. *)
From Stdlib Require Import Ascii.
From S2P Require Import Prelude Interfaces ConversationData ConversationStore Profiles.

Open Scope Z_scope.

(** ** Files and directories *)

(** What [lstat] and [statx] report of an entry; [m_len] is the size of an
    entry that is not a regular file. *)
Record Meta := mkMeta {
  m_dev : Z;
  m_ino : Z;
  m_uid : Z;
  m_mode : Z;
  m_nlink : Z;
  m_len : Z;
  m_mount : Z;
}.

(** A regular file, a directory with its entries in the order of [read_dir],
    or what is neither (a symbolic link, a socket, a device). *)
Inductive Node :=
| RegularFile (m : Meta) (content : bytes)
| Directory (m : Meta) (entries : list (string * Node))
| NonFollowingLeaf (m : Meta) (symlink : bool).
Abbreviation Entries := (list (string * Node)).

Definition node_meta (n : Node) : Meta :=
  match n with RegularFile m _ | Directory m _ | NonFollowingLeaf m _ => m end.
Definition metadata_len (n : Node) : Z :=
  match n with RegularFile _ content => len content | _ => m_len (node_meta n) end.

(** The entry of that name, and the directory with one entry replaced, added
    or unlinked. *)
Definition lookup_entry (name : string) (es : Entries) : option Node :=
  snd <$> find_first (fun e => String.eqb (fst e) name) es.
Fixpoint unlink (name : string) (es : Entries) : Entries :=
  match es with
  | [] => []
  | (x, n) :: es => if String.eqb x name then es else (x, n) :: unlink name es
  end.
Fixpoint set_entry (name : string) (node : Node) (es : Entries) : Entries :=
  match es with
  | [] => [(name, node)]
  | (x, n) :: es => if String.eqb x name then (x, node) :: es else (x, n) :: set_entry name node es
  end.

(** The data root: its own entries but for [profiles], and below [profiles]
    one directory per provider, whose entries are the profiles. *)
Record DataRoot := mkDataRoot {
  dr_root : option Meta;
  dr_files : gmap string Node;
  dr_profiles : option Meta;
  dr_claude : option (Meta * gmap string Node);
  dr_codex : option (Meta * gmap string Node);
}.

Definition set_files (files : gmap string Node) (d : DataRoot) : DataRoot :=
  mkDataRoot (dr_root d) files (dr_profiles d) (dr_claude d) (dr_codex d).
Definition provider_dir (p : Provider) (d : DataRoot) : option (Meta * gmap string Node) :=
  match p with Claude => dr_claude d | Codex => dr_codex d end.
Definition set_provider_dir (p : Provider) (dir : Meta * gmap string Node) (d : DataRoot) : DataRoot :=
  match p with
  | Claude => mkDataRoot (dr_root d) (dr_files d) (dr_profiles d) (Some dir) (dr_codex d)
  | Codex => mkDataRoot (dr_root d) (dr_files d) (dr_profiles d) (dr_claude d) (Some dir)
  end.
Definition profile_entry (p : Provider) (name : string) (d : DataRoot) : option Node :=
  match provider_dir p d with Some (_, es) => es !! name | None => None end.
Definition update_profiles (p : Provider) (f : gmap string Node → gmap string Node) (d : DataRoot)
    : DataRoot :=
  match provider_dir p d with Some (m, es) => set_provider_dir p (m, f es) d | None => d end.

(** ** The host *)

(** What becomes of the n-th system call. *)
Inductive Fate := Proceeds | Fails | Dies.

(** The host: the fate of every call, what a write that fails leaves, whether
    another process holds the lock a call asks for, the identifiers and inodes
    of new files, and the user. *)
Record Host := mkHost {
  h_fate : nat → Fate;
  h_written : nat → nat;
  h_locked : nat → bool;
  h_new_v4 : nat → string;
  h_new_inode : nat → Z;
  h_uid : Z;
}.

Record World := mkWorld { w_clock : nat; w_disk : DataRoot }.
Definition tick (w : World) : World := mkWorld (S (w_clock w)) (w_disk w).
Definition on_disk (f : DataRoot → DataRoot) (w : World) : World := mkWorld (w_clock w) (f (w_disk w)).

Inductive failure := Failed (e : ProfileError) | Died.
Abbreviation diskM := (stM World failure).

Definition check {A} (r : result ProfileError A) : diskM A := lift_result (map_err Failed r).
Definition fail {A} (e : ProfileError) : diskM A := throw (Failed e).

(** [match m { Ok(a) => .., Err(error) => .. }]. *)
Definition attempt {A} (m : diskM A) : diskM (result ProfileError A) := fun w =>
  match m w with
  | (Ok a, w) => (Ok (Ok a), w)
  | (Err (Failed e), w) => (Ok (Err e), w)
  | (Err Died, w) => (Err Died, w)
  end.
(** [m.map_err(f)]. *)
Definition map_failed {A} (f : ProfileError → ProfileError) (m : diskM A) : diskM A :=
  r ← attempt m; check (map_err f r).
Definition disk : diskM DataRoot := w ← get_st; mret (w_disk w).

Section calls.
Context (h : Host).

(** A system call that changes nothing, and one with an effect. *)
Definition call (effect failed : nat → DataRoot → DataRoot) : diskM () := fun w =>
  match h_fate h (w_clock w) with
  | Proceeds => (Ok (), tick (on_disk (effect (w_clock w)) w))
  | Fails => (Err (Failed PE_Io), tick (on_disk (failed (w_clock w)) w))
  | Dies => (Err Died, tick (on_disk (failed (w_clock w)) w))
  end.
Definition unchanged (_ : nat) (d : DataRoot) : DataRoot := d.
Definition io : diskM () := call unchanged unchanged.
Definition change (f : DataRoot → DataRoot) : diskM () := call (fun _ => f) unchanged.
Definition sync_directory : diskM () := io.

(** [Uuid::new_v4()]. *)
Definition new_v4 : diskM string := w ← get_st; _ ← modify_st tick; mret (h_new_v4 h (w_clock w)).

(** ** What a private file and a private directory are *)

(** [0o077], and the mode of a regular file created with [0o600]. *)
Definition GROUP_OTHER_MODE : Z := 0x3f.
Definition PRIVATE_FILE_MODE : Z := 0x8180.

Definition private_directory_metadata_is_safe (m : Meta) : bool :=
  (m_uid m =? h_uid h) && (Z.land (m_mode m) GROUP_OTHER_MODE =? 0).
Definition private_regular_file_metadata_is_safe (n : Node) : bool :=
  match n with
  | RegularFile m _ => (m_uid m =? h_uid h) && (Z.land (m_mode m) GROUP_OTHER_MODE =? 0)
  | _ => false
  end.

(** The checks of [verify_private_regular_file],
    [verify_private_single_link_regular_file] and [verify_private_directory]
    on what [lstat] finds; an absent entry is an [io::Error]. *)
Definition private_regular (n : option Node) : result ProfileError () :=
  n ← ok_or n PE_Io;
  reject_if (negb (private_regular_file_metadata_is_safe n)) PE_UnsafeState.
Definition private_single_link_regular (n : option Node) : result ProfileError () :=
  _ ← private_regular n;
  n ← ok_or n PE_Io;
  reject_if (negb (m_nlink (node_meta n) =? 1)) PE_UnsafeState.
Definition private_directory (m : option Meta) : result ProfileError Meta :=
  m ← ok_or m PE_Io;
  _ ← reject_if (negb (private_directory_metadata_is_safe m)) PE_UnsafeState;
  Ok m.
Definition directory_meta (n : option Node) : result ProfileError (option Meta) :=
  match n with
  | None => Ok None
  | Some (Directory m _) => Ok (Some m)
  | Some _ => Err PE_UnsafeState
  end.

Definition verify_private_directory (m : option Meta) : diskM Meta :=
  _ ← io; check (private_directory m).

(** [open_verified_registry_file] and the read of at most [max + 1] bytes. *)
Definition read_verified (require_single_link : bool) (max : Z) (n : option Node) : diskM bytes :=
  _ ← io;
  _ ← check (if require_single_link then private_single_link_regular n else private_regular n);
  match n with
  | Some (RegularFile _ content) => mret (take (Z.to_nat (max + 1)) content)
  | _ => fail PE_UnsafeState
  end.

(** ** Files of the data root *)

Definition root_file (name : string) : diskM (option Node) := _ ← io; d ← disk; mret (dr_files d !! name).

(** The metadata of a file created with mode 0600 in a directory. *)
Definition new_file_meta (n : nat) (directory : Meta) : Meta :=
  mkMeta (m_dev directory) (h_new_inode h n) (h_uid h) PRIVATE_FILE_MODE 1 0 (m_mount directory).
Definition create_root_file (name : string) (n : nat) (d : DataRoot) : DataRoot :=
  match dr_root d with
  | Some root => set_files (<[name := RegularFile (new_file_meta n root) []]> (dr_files d)) d
  | None => d
  end.

Definition put_file (name : string) (n : Node) (d : DataRoot) : DataRoot :=
  set_files (<[name := n]> (dr_files d)) d.
Definition remove_file_entry (name : string) (d : DataRoot) : DataRoot :=
  set_files (delete name (dr_files d)) d.

(** [create_new_private_file]: the file must not exist. *)
Definition create_new_private_file (name : string) : diskM () :=
  d ← disk;
  match dr_files d !! name with
  | Some _ => _ ← io; fail PE_Io
  | None => call (create_root_file name) unchanged
  end.
(** [write_all]: a write that fails has written a part. *)
Definition set_content (name : string) (content : bytes) (d : DataRoot) : DataRoot :=
  match dr_files d !! name with
  | Some (RegularFile m _) => put_file name (RegularFile m content) d
  | _ => d
  end.
Definition write_all (name : string) (content : bytes) : diskM () :=
  call (fun _ => set_content name content) (fun n => set_content name (take (h_written h n) content)).
(** [fs::rename]: replaces the destination. *)
Definition rename_file (from to : string) : diskM () :=
  d ← disk;
  match dr_files d !! from with
  | None => _ ← io; fail PE_Io
  | Some n => change (fun d => put_file to n (remove_file_entry from d))
  end.
Definition remove_file (name : string) : diskM () :=
  d ← disk;
  match dr_files d !! name with
  | None => _ ← io; fail PE_Io
  | Some _ => change (remove_file_entry name)
  end.

(** [open_private_lock_file]: created when it is missing; the lock is waited
    for. *)
Definition lock_root_file (name : string) : diskM () :=
  n ← root_file name;
  match n with
  | None =>
      call (create_root_file name) unchanged
  | Some _ =>
      _ ← check (private_single_link_regular n);
      io
  end.

(** ** [atomic_write_private] *)

(** The closure that writes a temporary file and renames it into place. *)
Definition publish_temporary (verify : option Node → result ProfileError ())
    (temporary destination : string) (content : bytes) : diskM () :=
  _ ← create_new_private_file temporary;
  _ ← write_all temporary content;
  _ ← io;
  n ← root_file temporary;
  _ ← check (verify n);
  rename_file temporary destination.

(** [if let Err(error) = publication { let _ = remove_file(..); return Err(error) }]. *)
Definition or_remove (temporary : string) (publication : diskM ()) : diskM () :=
  r ← attempt publication;
  match r with
  | Ok _ => mret ()
  | Err error => _ ← attempt (remove_file temporary); fail error
  end.

Definition temporary_name (name uuid : string) : string :=
  "." +:+ name +:+ "." +:+ uuid +:+ ".tmp".
Definition commit_uncertain (uncertain error : ProfileError) : ProfileError :=
  match error with PE_Io => uncertain | _ => error end.

Definition atomic_write_private (name : string) (content : bytes) : diskM () :=
  uuid ← new_v4;
  let temporary := temporary_name name uuid in
  _ ← or_remove temporary (publish_temporary private_regular temporary name content);
  map_failed (commit_uncertain PE_RegistryCommitUncertain) sync_directory.
End calls.

(** ** Directories below a provider *)

(** A directory of the disk, by how its metadata and its entries are found and
    its entries are changed. *)
Record Place := mkPlace {
  meta_at : DataRoot → option Meta;
  entries_at : DataRoot → option Entries;
  edit : (Entries → Entries) → DataRoot → DataRoot;
}.
Definition edit_directory (f : Entries → Entries) (n : Node) : Node :=
  match n with Directory m es => Directory m (f es) | _ => n end.
Definition directory_entries (n : Node) : option Entries :=
  match n with Directory _ es => Some es | _ => None end.
Definition modify_entry (name : string) (f : Node → Node) (es : Entries) : Entries :=
  match lookup_entry name es with Some n => set_entry name (f n) es | None => es end.

(** The tree of that name of a provider, and a directory in a directory. *)
Definition tree_place (p : Provider) (name : string) : Place :=
  mkPlace (fun d => node_meta <$> profile_entry p name d)
    (fun d => profile_entry p name d ≫= directory_entries)
    (fun f => update_profiles p (alter (edit_directory f) name)).
Definition child_place (place : Place) (name : string) : Place :=
  mkPlace (fun d => es ← entries_at place d; n ← lookup_entry name es; Some (node_meta n))
    (fun d => es ← entries_at place d; n ← lookup_entry name es; directory_entries n)
    (fun f => edit place (modify_entry name (edit_directory f))).

Section places.
Context (h : Host).

(** [read_dir] and [lstat] at a place; what is not there is an [io::Error]. *)
Definition read_entries (place : Place) : diskM Entries :=
  _ ← io h; d ← disk; check (ok_or (entries_at place d) PE_Io).
Definition stat_at (place : Place) (name : string) : diskM Node :=
  es ← read_entries place; check (ok_or (lookup_entry name es) PE_Io).
(** What is found there, if anything; the directory itself may be missing. *)
Definition find_at (place : Place) (name : string) : diskM (option Node) :=
  _ ← io h;
  d ← disk;
  match meta_at place d, entries_at place d with
  | Some _, None => fail PE_Io
  | _, es => mret (es ≫= lookup_entry name)
  end.
Definition unlink_at (place : Place) (name : string) : diskM () := change h (edit place (unlink name)).

(** Files at a place: created with mode 0600 if there is none, written,
    removed, renamed to a place. *)
Definition create_file (place : Place) (name : string) (n : nat) (d : DataRoot) : DataRoot :=
  match meta_at place d with
  | Some m => edit place (set_entry name (RegularFile (new_file_meta h n m) [])) d
  | None => d
  end.
Definition create_new_at (place : Place) (name : string) : diskM () :=
  d ← disk;
  match entries_at place d with
  | Some es =>
      match lookup_entry name es with
      | Some _ => _ ← io h; fail PE_Io
      | None => call h (create_file place name) unchanged
      end
  | None => _ ← io h; fail PE_Io
  end.
Definition with_content (content : bytes) (n : Node) : Node :=
  match n with RegularFile m _ => RegularFile m content | _ => n end.
Definition write_all_at (place : Place) (name : string) (content : bytes) : diskM () :=
  call h (fun _ => edit place (modify_entry name (with_content content)))
    (fun n => edit place (modify_entry name (with_content (take (h_written h n) content)))).
Definition remove_file_at (place : Place) (name : string) : diskM () :=
  n ← stat_at place name;
  match n with Directory _ _ => fail PE_Io | _ => unlink_at place name end.
Definition rename_at (from : Place) (old : string) (to : Place) (new : string) : diskM () :=
  n ← stat_at from old;
  change h (fun d => edit to (set_entry new n) (edit from (unlink old) d)).
End places.
