(* ===== verification/RemovalTree.v ===== *)
(** * Profile trees (src/profiles.rs)

    What is checked of the directory tree of a profile before it may be
    deleted, the manifest of the tree, and its deletion entry by entry. The
    walk keeps the stack of the code; deletion works on the disk in place, so a
    call that fails or a process that dies leaves the tree deleted in part. *)
From Stdlib Require Import Ascii.
From S2P Require Import Prelude Interfaces ConversationData ConversationStore CodexLines Profiles ProfileDisk.

Open Scope Z_scope.

Definition MAX_REMOVAL_TREE_ENTRIES : Z := 100000.
Definition MAX_REMOVAL_TREE_DEPTH : Z := 128.
Definition OWNER_MARKER : string := ".calcifer-profile".

Record FileSystemIdentity := mkFileSystemIdentity { device : Z; inode : Z }.
#[export] Instance FileSystemIdentity_eq_dec : EqDecision FileSystemIdentity.
Proof. solve_decision. Defined.

Record RemovalTreeSnapshot := mkRemovalTreeSnapshot {
  sn_root : FileSystemIdentity;
  sn_entry_count : Z;
  sn_manifest_digest : string;
}.
#[export] Instance RemovalTreeSnapshot_eq_dec : EqDecision RemovalTreeSnapshot.
Proof. solve_decision. Defined.

Record RemovalRoots := mkRemovalRoots {
  rr_provider : Provider;
  rr_data_root : FileSystemIdentity;
  rr_profiles_root : FileSystemIdentity;
  rr_provider_root : FileSystemIdentity;
  rr_provider_mount : bytes;
}.

(** ** The traversal budget *)

Record RemovalTraversalBudget := mkRemovalTraversalBudget {
  remaining_entries : Z;
  consumed_entries : Z;
  max_depth : Z;
}.
Definition new_budget (max_entries max_depth : Z) : RemovalTraversalBudget :=
  mkRemovalTraversalBudget max_entries 0 max_depth.
Definition consume_entry (b : RemovalTraversalBudget) : result ProfileError RemovalTraversalBudget :=
  _ ← reject_if (remaining_entries b - 1 <? 0) PE_UnsafeState;
  consumed ← ok_or (checked_add_u u64_max (consumed_entries b) 1) PE_UnsafeState;
  Ok (mkRemovalTraversalBudget (remaining_entries b - 1) consumed (max_depth b)).
Definition child_depth (b : RemovalTraversalBudget) (parent_depth : Z) : result ProfileError Z :=
  depth ← ok_or (checked_add_u u64_max parent_depth 1) PE_UnsafeState;
  _ ← reject_if (max_depth b <? depth) PE_UnsafeState;
  Ok depth.

(** ** Modes, identities and mounts *)

(** [mode & 0o022 == 0] and [mode & 0o700 == 0o700]. *)
Definition removal_descendant_mode_is_safe (mode : Z) : bool := Z.land mode 0x12 =? 0.
Definition removal_directory_mode_is_safe (mode : Z) : bool :=
  removal_descendant_mode_is_safe mode && (Z.land mode 0x1c0 =? 0x1c0).

Fixpoint to_le_bytes (width : nat) (z : Z) : bytes :=
  match width with
  | O => []
  | S width => z mod 256 :: to_le_bytes width (z / 256)
  end.

Definition identity_of (m : Meta) : FileSystemIdentity := mkFileSystemIdentity (m_dev m) (m_ino m).
(** [removal_mount_identity_from_statx]. *)
Definition removal_mount_identity (m : Meta) : result ProfileError bytes :=
  _ ← reject_if (m_mount m =? 0) PE_UnsafeState;
  Ok (to_le_bytes 8 (m_mount m)).
Definition ensure_same_removal_mount (expected actual : bytes) : result ProfileError () :=
  reject_if (negb (bool_decide (expected = actual))) PE_UnsafeState.

Inductive RemovalEntryKind := Kind_Directory | Kind_RegularFile | Kind_NonFollowingLeaf.
#[export] Instance RemovalEntryKind_eq_dec : EqDecision RemovalEntryKind.
Proof. solve_decision. Defined.
Definition removal_entry_kind (n : Node) : RemovalEntryKind :=
  match n with
  | Directory _ _ => Kind_Directory
  | RegularFile _ _ => Kind_RegularFile
  | NonFollowingLeaf _ _ => Kind_NonFollowingLeaf
  end.
Definition is_directory (n : Node) : bool := bool_decide (removal_entry_kind n = Kind_Directory).

(** The number of entries below a directory. *)
Fixpoint node_size (n : Node) : nat :=
  match n with
  | Directory _ es => foldr (fun e total => S (node_size (snd e) + total)) 0%nat es
  | _ => 0%nat
  end.
Definition entries_size (es : Entries) : nat :=
  foldr (fun e total => S (node_size (snd e) + total)) 0%nat es.

Section tree.
Context {SC : Sha256Crate} (h : Host).

Definition private_directory_identity (m : option Meta) : result ProfileError FileSystemIdentity :=
  m ← private_directory h m; Ok (identity_of m).

(** ** The manifest *)

Definition file_type_byte (n : Node) : Z :=
  match n with
  | Directory _ _ => 1
  | RegularFile _ _ => 2
  | NonFollowingLeaf _ symlink => if symlink then 3 else 4
  end.
Definition name_bytes (s : string) : bytes := (fun c => Z.of_nat (nat_of_ascii c)) <$> str_bytes s.
Definition update_removal_manifest (manifest : bytes) (relative_path : string) (n : Node) : bytes :=
  let m := node_meta n in
  manifest ++ to_le_bytes 8 (str_len relative_path) ++ name_bytes relative_path ++ [file_type_byte n]
    ++ to_le_bytes 8 (m_dev m) ++ to_le_bytes 8 (m_ino m) ++ to_le_bytes 4 (m_uid m)
    ++ to_le_bytes 4 (m_mode m) ++ to_le_bytes 8 (m_nlink m) ++ to_le_bytes 8 (metadata_len n).
Definition MANIFEST_HEADER : bytes := name_bytes "calcifer-removal-tree-manifest-v1" ++ [0].

(** ** The walk *)

(** A directory that is still to be read: its path below the root of the
    tree, its metadata and entries, its depth. *)
Record Pending := mkPending {
  pd_path : string;
  pd_meta : Meta;
  pd_entries : Entries;
  pd_depth : Z;
}.
Definition join (directory name : string) : string :=
  if String.eqb directory "" then name else directory +:+ "/" +:+ name.

(** What is checked of a directory before it is read. *)
Definition check_directory (roots : RemovalRoots) (m : Meta) : result ProfileError () :=
  _ ← reject_if (negb (m_uid m =? h_uid h) || negb (removal_directory_mode_is_safe (m_mode m))
                 || negb (m_dev m =? device (rr_provider_root roots))) PE_UnsafeState;
  mount ← removal_mount_identity m;
  ensure_same_removal_mount (rr_provider_mount roots) mount.

(** What is checked of every entry. *)
Definition check_entry (roots : RemovalRoots) (n : Node) : result ProfileError () :=
  let m := node_meta n in
  _ ← reject_if (negb (m_uid m =? h_uid h) || negb (m_dev m =? device (rr_provider_root roots))
                 || ((match n with
                      | Directory _ _ => negb (removal_directory_mode_is_safe (m_mode m))
                      | RegularFile _ _ => negb (removal_descendant_mode_is_safe (m_mode m))
                      | NonFollowingLeaf _ _ => false
                      end)
                     || (negb (is_directory n) && negb (m_nlink m =? 1)))) PE_UnsafeState;
  match n with
  | NonFollowingLeaf _ _ => Ok ()
  | _ => mount ← removal_mount_identity m; ensure_same_removal_mount (rr_provider_mount roots) mount
  end.

Definition entry_step (roots : RemovalRoots) (b : RemovalTraversalBudget) (directory : Pending)
    (acc : bytes * list Pending) (e : string * Node) : result ProfileError (bytes * list Pending) :=
  let '(manifest, child_directories) := acc in
  let '(name, n) := e in
  let relative := join (pd_path directory) name in
  _ ← check_entry roots n;
  let manifest := update_removal_manifest manifest relative n in
  match n with
  | Directory m es =>
      depth ← child_depth b (pd_depth directory);
      Ok (manifest, child_directories ++ [mkPending relative m es depth])
  | _ => Ok (manifest, child_directories)
  end.

Definition entry_le (a b : string * Node) : bool := str_le (fst a) (fst b).

(** One turn of the loop: the directory on top of the stack. *)
Definition visit_directory (roots : RemovalRoots) (b : RemovalTraversalBudget) (manifest : bytes)
    (directory : Pending) : result ProfileError (RemovalTraversalBudget * bytes * list Pending) :=
  _ ← check_directory roots (pd_meta directory);
  b ← fold_result (fun b _ => consume_entry b) b (pd_entries directory);
  '(manifest, child_directories) ←
    fold_result (entry_step roots b directory) (manifest, []) (sort_by entry_le (pd_entries directory));
  Ok (b, manifest, child_directories).

(** [None]: out of fuel. The stack has its top first, so the child directories
    that are pushed in reverse are popped in order. *)
Fixpoint walk (fuel : nat) (roots : RemovalRoots) (b : RemovalTraversalBudget) (manifest : bytes)
    (pending : list Pending) : option (result ProfileError (RemovalTraversalBudget * bytes)) :=
  match pending, fuel with
  | [], _ => Some (Ok (b, manifest))
  | _, O => None
  | directory :: pending, S fuel =>
      match visit_directory roots b manifest directory with
      | Err e => Some (Err e)
      | Ok (b, manifest, child_directories) => walk fuel roots b manifest (child_directories ++ pending)
      end
  end.

(** The owner marker of the tree names the profile. *)
Definition check_marker (profile_id : string) (require_marker : bool) (es : Entries)
    : result ProfileError () :=
  match lookup_entry OWNER_MARKER es with
  | Some marker =>
      _ ← private_single_link_regular h (Some marker);
      match marker with
      | RegularFile _ content =>
          _ ← reject_if (negb (len content =? str_len profile_id)) PE_UnsafeState;
          value ← ok_or (from_utf8 content) PE_Io;
          reject_if (negb (String.eqb value profile_id)) PE_UnsafeState
      | _ => Err PE_UnsafeState
      end
  | None => reject_if require_marker PE_Io
  end.

(** [validate_owned_removal_tree_inner_with_limits] on what is found at the
    path of the tree, and the name of that path. *)
Definition removing (profile_id : string) : string := ".removing-" +:+ profile_id.
Definition validate_removal_tree_location {UC : UuidCrate} (name profile_id : string)
    : result ProfileError () :=
  _ ← map_err (fun _ => PE_UnsafeState) (validate_profile_id profile_id);
  reject_if (negb (String.eqb name profile_id || String.eqb name (removing profile_id))) PE_UnsafeState.

Definition validate_owned_removal_tree_inner {UC : UuidCrate} (roots : RemovalRoots) (name : string)
    (tree : option Node) (profile_id : string) (expected : option FileSystemIdentity)
    (require_marker : bool) : result ProfileError RemovalTreeSnapshot :=
  _ ← validate_removal_tree_location name profile_id;
  m ← directory_meta tree;
  identity ← private_directory_identity m;
  _ ← reject_if (negb (device identity =? device (rr_provider_root roots))
                 || match expected with
                    | Some expected => negb (bool_decide (expected = identity))
                    | None => false
                    end) PE_UnsafeState;
  match tree with
  | Some (Directory m es) =>
      mount ← removal_mount_identity m;
      _ ← ensure_same_removal_mount (rr_provider_mount roots) mount;
      let manifest := update_removal_manifest MANIFEST_HEADER "" (Directory m es) in
      '(b, manifest) ←
        default (Err PE_UnsafeState)
          (walk (S (entries_size es)) roots
             (new_budget MAX_REMOVAL_TREE_ENTRIES MAX_REMOVAL_TREE_DEPTH) manifest
             [mkPending "" m es 0]);
      _ ← check_marker profile_id require_marker es;
      Ok (mkRemovalTreeSnapshot identity (consumed_entries b) (sha256_hex manifest))
  | _ => Err PE_UnsafeState
  end.

Definition validate_owned_removal_tree {UC : UuidCrate} (roots : RemovalRoots) (name : string)
    (tree : option Node) (profile_id : string) (expected : option RemovalTreeSnapshot)
    : result ProfileError RemovalTreeSnapshot :=
  snapshot ← validate_owned_removal_tree_inner roots name tree profile_id (sn_root <$> expected) true;
  _ ← reject_if (match expected with
                 | Some expected => negb (bool_decide (expected = snapshot))
                 | None => false
                 end) PE_UnsafeState;
  Ok snapshot.

Definition validate_partial_owned_tombstone {UC : UuidCrate} (roots : RemovalRoots) (name : string)
    (tree : option Node) (profile_id : string) (expected : FileSystemIdentity)
    : result ProfileError FileSystemIdentity :=
  snapshot ← validate_owned_removal_tree_inner roots name tree profile_id (Some expected) false;
  Ok (sn_root snapshot).

(** ** Deletion *)

Definition validate_removal_stat (n : Node) (expected_kind : RemovalEntryKind) (expected_device : Z)
    : result ProfileError () :=
  let m := node_meta n in
  let actual_kind := removal_entry_kind n in
  let mode_is_safe :=
    match actual_kind with
    | Kind_Directory => removal_directory_mode_is_safe (m_mode m)
    | Kind_RegularFile => removal_descendant_mode_is_safe (m_mode m)
    | Kind_NonFollowingLeaf => true
    end in
  let link_count_is_safe := bool_decide (actual_kind = Kind_Directory) || (m_nlink m =? 1) in
  reject_if (negb (bool_decide (actual_kind = expected_kind)) || negb (m_uid m =? h_uid h)
             || negb mode_is_safe || negb link_count_is_safe || negb (m_dev m =? expected_device))
    PE_UnsafeState.
Definition validate_opened_removal_entry (expected opened : Node) (expected_kind : RemovalEntryKind)
    (expected_device : Z) : result ProfileError () :=
  _ ← reject_if (negb (bool_decide (identity_of (node_meta opened) = identity_of (node_meta expected))))
        PE_UnsafeState;
  validate_removal_stat opened expected_kind expected_device.

(** [open_removal_entry_at] at a place. *)
Definition open_removal_entry_at (place : Place) (name : string) (expected_mount : bytes) : diskM Node :=
  n ← stat_at h place name;
  _ ← check (mount ← removal_mount_identity (node_meta n); ensure_same_removal_mount expected_mount mount);
  mret n.
(** [unlinkat(.., REMOVEDIR)]: the directory must be empty. *)
Definition remove_directory_at (place : Place) (name : string) : diskM () :=
  n ← stat_at h place name;
  match n with
  | Directory _ [] => unlink_at h place name
  | _ => fail PE_Io
  end.

Definition collect_name (expected_device depth : Z)
    (acc : RemovalTraversalBudget * list (string * RemovalEntryKind * option Z)) (e : string * Node)
    : result ProfileError (RemovalTraversalBudget * list (string * RemovalEntryKind * option Z)) :=
  let '(b, names) := acc in
  let '(name, n) := e in
  b ← consume_entry b;
  let kind := removal_entry_kind n in
  _ ← validate_removal_stat n kind expected_device;
  child ← match kind with
          | Kind_Directory => depth ← child_depth b depth; Ok (Some depth)
          | _ => Ok None
          end;
  Ok (b, names ++ [(name, kind, child)]).

(** The checks of a directory before and after its entries are removed. *)
Definition reopen_directory (place : Place) (name : string) (stat : Node) (expected_device : Z)
    (expected_mount : bytes) : diskM () :=
  final_stat ← stat_at h place name;
  _ ← check (validate_opened_removal_entry stat final_stat Kind_Directory expected_device);
  opened ← open_removal_entry_at place name expected_mount;
  check (validate_opened_removal_entry stat opened Kind_Directory expected_device).

Section entries.
Context (remove_entries : Place → RemovalTraversalBudget → Z → diskM RemovalTraversalBudget).
Context (expected_device : Z) (expected_mount : bytes).

Definition remove_entry (place : Place) (b : RemovalTraversalBudget)
    (entry : string * RemovalEntryKind * option Z) : diskM RemovalTraversalBudget :=
  let '(name, kind, depth) := entry in
  stat ← stat_at h place name;
  _ ← check (validate_removal_stat stat kind expected_device);
  match kind with
  | Kind_Directory =>
      depth ← check (ok_or depth PE_UnsafeState);
      opened ← open_removal_entry_at place name expected_mount;
      _ ← check (validate_opened_removal_entry stat opened Kind_Directory expected_device);
      b ← remove_entries (child_place place name) b depth;
      _ ← reopen_directory place name stat expected_device expected_mount;
      _ ← remove_directory_at place name;
      mret b
  | Kind_RegularFile =>
      opened ← open_removal_entry_at place name expected_mount;
      _ ← check (validate_opened_removal_entry stat opened Kind_RegularFile expected_device);
      _ ← unlink_at h place name;
      mret b
  | Kind_NonFollowingLeaf =>
      _ ← unlink_at h place name;
      mret b
  end.

Fixpoint remove_names (place : Place) (b : RemovalTraversalBudget)
    (names : list (string * RemovalEntryKind * option Z)) : diskM RemovalTraversalBudget :=
  match names with
  | [] => mret b
  | entry :: names => b ← remove_entry place b entry; remove_names place b names
  end.
End entries.

(** [remove_owned_directory_entries]; the recursion is as deep as the depth
    limit allows. *)
Fixpoint remove_owned_directory_entries (fuel : nat) (expected_device : Z) (expected_mount : bytes)
    (place : Place) (b : RemovalTraversalBudget) (depth : Z) : diskM RemovalTraversalBudget :=
  match fuel with
  | O => fail PE_UnsafeState
  | S fuel =>
      es ← read_entries h place;
      '(b, names) ← check (fold_result (collect_name expected_device depth) (b, []) es);
      remove_names (remove_owned_directory_entries fuel expected_device expected_mount)
        expected_device expected_mount place b names
  end.

(** [remove_owned_directory_at_with_limits]. *)
Definition remove_owned_directory_at (p : Provider) (tree_name : string)
    (expected_provider expected_tree : FileSystemIdentity) (expected_mount : bytes)
    (max_entries max_depth : Z) : diskM () :=
  _ ← io h;
  d ← disk;
  provider ← check (ok_or (fst <$> provider_dir p d) PE_Io);
  _ ← check (reject_if (negb (bool_decide (identity_of provider = expected_provider)))
               PE_RemovalRecoveryRequired);
  _ ← check (mount ← removal_mount_identity provider; ensure_same_removal_mount expected_mount mount);
  let tree_at := _ ← io h; d ← disk; check (ok_or (profile_entry p tree_name d) PE_Io) in
  tree ← tree_at;
  _ ← check (mount ← removal_mount_identity (node_meta tree); ensure_same_removal_mount expected_mount mount);
  _ ← check (reject_if (negb (bool_decide (identity_of (node_meta tree) = expected_tree))) PE_UnsafeState);
  _ ← check (validate_removal_stat tree Kind_Directory (device expected_provider));
  _ ← remove_owned_directory_entries (S (Z.to_nat max_depth)) (device expected_provider) expected_mount
        (tree_place p tree_name) (new_budget max_entries max_depth) 0;
  final ← tree_at;
  _ ← check (validate_opened_removal_entry tree final Kind_Directory (device expected_provider));
  _ ← check (reject_if (negb (bool_decide (identity_of (node_meta final) = expected_tree))) PE_UnsafeState);
  _ ← check (mount ← removal_mount_identity (node_meta final); ensure_same_removal_mount expected_mount mount);
  match final with
  | Directory _ [] => change h (update_profiles p (delete tree_name))
  | _ => fail PE_Io
  end.
End tree.
