(* ===== verification/ProfileRegistry.v ===== *)
(** * The profile registry (src/profiles.rs)

    The registry file, which holds either the list of profiles or, while a
    profile is being removed, a barrier that carries that list; the removal
    journal; how both are decoded and validated; and the lookups and locks that
    the operations on profiles share. *)
From Stdlib Require Import Ascii.
From S2P Require Import Prelude Interfaces ConversationData ConversationStore CodexLines Profiles ProfileDisk RemovalTree.

Open Scope Z_scope.

Definition REGISTRY_FILE : string := "profiles.json".
Definition MAX_REGISTRY_BYTES : Z := 1024 * 1024.
Definition LOCK_FILE : string := "registry.lock".
Definition REMOVAL_LOCK_FILE : string := "removal.lock".
Definition REMOVAL_JOURNAL_FILE : string := "removal.json".
Definition REMOVAL_JOURNAL_SCHEMA_VERSION : Z := 1.
Definition REMOVAL_REGISTRY_BARRIER_SCHEMA_VERSION : Z := 2.
Definition MAX_REMOVAL_JOURNAL_BYTES : Z := 16 * 1024.
Definition MAX_REMOVAL_REGISTRY_BARRIER_BYTES : Z := 2 * 1024 * 1024.
Definition COORDINATOR_LOCK_FILE : string := "profile.lock".
Definition PROVIDER_LOCK_FILE : string := "provider.lock".

#[export] Instance RegistryDocument_eq_dec : EqDecision RegistryDocument.
Proof. solve_decision. Defined.

Record RemovalJournal := mkRemovalJournal {
  rj_schema_version : Z;
  rj_profile : Profile;
  rj_expected_registry_digest : string;
  rj_removed_registry_digest : string;
  rj_data_root : FileSystemIdentity;
  rj_profiles_root : FileSystemIdentity;
  rj_provider_root : FileSystemIdentity;
  rj_profile_tree : FileSystemIdentity;
  rj_profile_tree_entry_count : Z;
  rj_profile_tree_manifest_digest : string;
}.
#[export] Instance RemovalJournal_eq_dec : EqDecision RemovalJournal.
Proof. solve_decision. Defined.

Record RemovalRegistryBarrier := mkRemovalRegistryBarrier {
  rb_schema_version : Z;
  rb_removal : RemovalJournal;
  rb_expected_registry : RegistryDocument;
}.
#[export] Instance RemovalRegistryBarrier_eq_dec : EqDecision RemovalRegistryBarrier.
Proof. solve_decision. Defined.

Inductive RegistryState :=
| Stable (document : RegistryDocument)
| RemovalBarrier (barrier : RemovalRegistryBarrier).

Definition default_registry : RegistryDocument := mkRegistryDocument REGISTRY_SCHEMA_VERSION [].
Definition with_profiles (profiles : list Profile) (document : RegistryDocument) : RegistryDocument :=
  mkRegistryDocument (registry_schema_version document) profiles.

(** The [schema_version] that [RegistrySchemaHeader] reads, and
    [serde_json::to_vec] of the registry, which its digest is taken of. *)
Class RegistryHeader := {
  header_schema_version : bytes → option Z;
  to_vec_compact : RegistryDocument → option bytes;
}.

(** ** Names *)

Fixpoint strip_prefix_str (p s : string) : option string :=
  match p, s with
  | EmptyString, _ => Some s
  | String a p, String b s => if Ascii.eqb a b then strip_prefix_str p s else None
  | String _ _, EmptyString => None
  end.
Fixpoint strip_suffix_str (suffix s : string) : option string :=
  if String.eqb s suffix then Some EmptyString
  else match s with
  | EmptyString => None
  | String c s => String c <$> strip_suffix_str suffix s
  end.
(** [OsString::into_string]. *)
Definition into_string {E} (name : string) (error : E) : result E string :=
  ok_or (from_utf8 (name_bytes name)) error.

(** ** Validation *)

Definition is_lower_sha256_hex (value : string) : bool :=
  (str_len value =? 64) && str_all is_ascii_lower_hex value.

Section validation.
Context {UC : UuidCrate} {SC : Sha256Crate} {RH : RegistryHeader}.

Definition registry_digest (document : RegistryDocument) : result ProfileError string :=
  b ← ok_or (to_vec_compact document) PE_InvalidRegistry; Ok (sha256_hex b).

Definition nonzero_identity (i : FileSystemIdentity) : bool :=
  negb ((device i =? 0) || (inode i =? 0)).

Definition validate_journal (j : RemovalJournal) : result ProfileError () :=
  let required := PE_RemovalRecoveryRequired in
  _ ← reject_if (negb (rj_schema_version j =? REMOVAL_JOURNAL_SCHEMA_VERSION)) required;
  _ ← map_err (fun _ => required) (validate_profile_id (profile_id (rj_profile j)));
  _ ← map_err (fun _ => required) (validate_alias (profile_alias (rj_profile j)));
  _ ← reject_if (negb (is_lower_sha256_hex (rj_expected_registry_digest j))
                 || negb (is_lower_sha256_hex (rj_removed_registry_digest j))
                 || negb (is_lower_sha256_hex (rj_profile_tree_manifest_digest j))
                 || String.eqb (rj_expected_registry_digest j) (rj_removed_registry_digest j)
                 || (rj_profile_tree_entry_count j =? 0)
                 || (MAX_REMOVAL_TREE_ENTRIES <? rj_profile_tree_entry_count j)) required;
  _ ← reject_if (negb (forallb nonzero_identity
                   [rj_data_root j; rj_profiles_root j; rj_provider_root j; rj_profile_tree j])) required;
  reject_if (negb (device (rj_data_root j) =? device (rj_profiles_root j))
             || negb (device (rj_data_root j) =? device (rj_provider_root j))
             || negb (device (rj_data_root j) =? device (rj_profile_tree j))) required.

Definition tree_snapshot (j : RemovalJournal) : RemovalTreeSnapshot :=
  mkRemovalTreeSnapshot (rj_profile_tree j) (rj_profile_tree_entry_count j)
    (rj_profile_tree_manifest_digest j).

Definition same_id (a b : Profile) : bool := String.eqb (profile_id a) (profile_id b).
Definition target_is_absent (j : RemovalJournal) (document : RegistryDocument) : bool :=
  negb (existsb (fun p => same_id p (rj_profile j)) (registry_profiles document)).

Definition matches_expected_registry (j : RemovalJournal) (document : RegistryDocument)
    : result ProfileError bool :=
  digest ← registry_digest document;
  Ok (String.eqb digest (rj_expected_registry_digest j)
      && (len (filter (fun p => p = rj_profile j) (registry_profiles document)) =? 1)).
Definition matches_removed_registry (j : RemovalJournal) (document : RegistryDocument)
    : result ProfileError bool :=
  digest ← registry_digest document;
  Ok (String.eqb digest (rj_removed_registry_digest j) && target_is_absent j document).

Definition validate_barrier (b : RemovalRegistryBarrier) : result ProfileError () :=
  let required := PE_RemovalRecoveryRequired in
  let expected := rb_expected_registry b in
  _ ← reject_if (negb (rb_schema_version b =? REMOVAL_REGISTRY_BARRIER_SCHEMA_VERSION)) required;
  _ ← validate_journal (rb_removal b);
  _ ← map_err (fun _ => required) (validate_document expected);
  matches ← matches_expected_registry (rb_removal b) expected;
  _ ← reject_if (negb matches) required;
  let derived_removed :=
    with_profiles (filter (fun p => profile_id p ≠ profile_id (rj_profile (rb_removal b)))
                     (registry_profiles expected)) expected in
  _ ← reject_if (negb (len (registry_profiles derived_removed) + 1 =? len (registry_profiles expected)))
        required;
  matches ← matches_removed_registry (rb_removal b) derived_removed;
  reject_if (negb matches) required.

Context {JR : JsonCodec RegistryDocument} {JB : JsonCodec RemovalRegistryBarrier}.

(** [decode_registry_state] on the bytes read, which are at most one more than
    the larger limit. *)
Definition decode_registry_state (b : bytes) : result ProfileError RegistryState :=
  _ ← reject_if (MAX_REMOVAL_REGISTRY_BARRIER_BYTES <? len b) PE_InvalidRegistry;
  schema_version ← ok_or (header_schema_version b) PE_InvalidRegistry;
  if schema_version =? REGISTRY_SCHEMA_VERSION then
    _ ← reject_if (MAX_REGISTRY_BYTES <? len b) PE_InvalidRegistry;
    document ← ok_or (from_slice b) PE_InvalidRegistry;
    _ ← validate_document document;
    Ok (Stable document)
  else if schema_version =? REMOVAL_REGISTRY_BARRIER_SCHEMA_VERSION then
    barrier ← ok_or (from_slice b) PE_RemovalRecoveryRequired;
    _ ← validate_barrier barrier;
    Ok (RemovalBarrier barrier)
  else Err PE_InvalidRegistry.
End validation.

Section registry.
Context {UC : UuidCrate} {SC : Sha256Crate} {RH : RegistryHeader}.
Context {JR : JsonCodec RegistryDocument} {JB : JsonCodec RemovalRegistryBarrier}.
Context (h : Host).

(** ** The registry file *)

Definition read_registry_state : diskM RegistryState :=
  n ← root_file h REGISTRY_FILE;
  match n with
  | None => mret (Stable default_registry)
  | Some _ =>
      b ← read_verified h false MAX_REMOVAL_REGISTRY_BARRIER_BYTES n;
      check (decode_registry_state b)
  end.
Definition load : diskM RegistryDocument :=
  s ← read_registry_state;
  match s with
  | Stable document => mret document
  | RemovalBarrier _ => fail PE_RemovalRecoveryRequired
  end.
Definition read_removal_barrier : diskM (option RemovalRegistryBarrier) :=
  s ← read_registry_state;
  mret match s with Stable _ => None | RemovalBarrier barrier => Some barrier end.
Definition read_existing_registry_state : diskM RegistryState :=
  map_failed (fun _ => PE_RemovalRecoveryRequired)
    (n ← root_file h REGISTRY_FILE;
     b ← read_verified h true MAX_REMOVAL_REGISTRY_BARRIER_BYTES n;
     check (decode_registry_state b)).

Definition save (document : RegistryDocument) : diskM () :=
  _ ← check (validate_document document);
  b ← check (ok_or (to_vec document) PE_InvalidRegistry);
  _ ← check (reject_if (MAX_REGISTRY_BYTES <? len b) PE_InvalidRegistry);
  atomic_write_private h REGISTRY_FILE b.
Definition save_removal_barrier (barrier : RemovalRegistryBarrier) : diskM () :=
  _ ← check (validate_barrier barrier);
  b ← check (ok_or (to_vec barrier) PE_RemovalRecoveryRequired);
  _ ← check (reject_if (MAX_REMOVAL_REGISTRY_BARRIER_BYTES <? len b) PE_UnsafeState);
  atomic_write_private h REGISTRY_FILE b.

(** ** Lookups *)

Definition find_by_id_without_recovery (provider : Provider) (id : string) : diskM Profile :=
  document ← load;
  check (ok_or (find_first (fun p => provider_eqb (profile_provider p) provider
                                     && String.eqb (profile_id p) id) (registry_profiles document))
           PE_NotFound).
Definition find_without_recovery (provider : Provider) (alias : string) : diskM Profile :=
  document ← load;
  check (ok_or (find_first (fun p => provider_eqb (profile_provider p) provider
                                     && String.eqb (profile_alias p) alias) (registry_profiles document))
           PE_NotFound).

(** The entry of that name of what is found at a path. *)
Definition entry_in (n : option Node) (name : string) : option Node :=
  match n with Some (Directory _ es) => lookup_entry name es | _ => None end.

(** [verify_owned_profile_directory] on what is found at the path. *)
Definition owned_profile_directory (n : option Node) (id : string) : result ProfileError () :=
  m ← directory_meta n;
  _ ← private_directory h m;
  let marker := entry_in n OWNER_MARKER in
  _ ← private_single_link_regular h marker;
  match marker with
  | Some (RegularFile _ content) =>
      value ← ok_or (from_utf8 content) PE_Io;
      reject_if (negb (String.eqb value id)) PE_UnsafeState
  | _ => Err PE_UnsafeState
  end.
(** [profile_directory]: the path of a profile once every directory on it is
    private and its marker names the profile. *)
Definition profile_directory (profile : Profile) : diskM () :=
  _ ← check (validate_profile_id (profile_id profile));
  d ← disk;
  _ ← verify_private_directory h (dr_root d);
  _ ← verify_private_directory h (dr_profiles d);
  _ ← verify_private_directory h (fst <$> provider_dir (profile_provider profile) d);
  _ ← io h;
  check (owned_profile_directory (profile_entry (profile_provider profile) (profile_id profile) d)
           (profile_id profile)).

(** ** The locks of a profile *)

Definition try_lock_exclusive : diskM () := fun w =>
  if h_locked h (w_clock w) then (Err (Failed PE_Busy), tick w) else io h w.

Definition private_lock_file (create : bool) (n : option Node) : result ProfileError () :=
  match n with
  | Some _ => private_single_link_regular h n
  | None => reject_if (negb create) PE_Io
  end.
(** [open_verified_private_lock_file] and the lock: a lock that another
    process holds is reported as busy. *)
Definition lock_file_at (create : bool) (p : Provider) (directory name : string) : diskM () :=
  _ ← io h;
  d ← disk;
  let n := entry_in (profile_entry p directory d) name in
  _ ← check (private_lock_file create n);
  _ ← match n with None => call h (create_file h (tree_place p directory) name) unchanged | Some _ => io h end;
  try_lock_exclusive.

Definition lock_file_identity (n : option Node) : result ProfileError FileSystemIdentity :=
  _ ← private_single_link_regular h n;
  n ← ok_or n PE_Io;
  Ok (identity_of (node_meta n)).
Definition lock_identities (p : Provider) (directory : string)
    : diskM (FileSystemIdentity * FileSystemIdentity * FileSystemIdentity) :=
  _ ← io h;
  d ← disk;
  let n := profile_entry p directory d in
  check (m ← directory_meta n;
         directory ← private_directory_identity h m;
         coordinator ← lock_file_identity (entry_in n COORDINATOR_LOCK_FILE);
         provider ← lock_file_identity (entry_in n PROVIDER_LOCK_FILE);
         Ok (directory, coordinator, provider)).
(** [ensure_profile_lock_durability_with_sync]: both files, then their
    directory, which must still hold them. *)
Definition ensure_profile_lock_durability (p : Provider) (directory : string) : diskM () :=
  _ ← io h;
  _ ← io h;
  expected ← lock_identities p directory;
  _ ← sync_directory h;
  identities ← lock_identities p directory;
  check (reject_if (negb (bool_decide (identities = expected))) PE_UnsafeState).

Definition lock_profile (profile : Profile) : diskM () :=
  _ ← profile_directory profile;
  _ ← lock_file_at true (profile_provider profile) (profile_id profile) COORDINATOR_LOCK_FILE;
  _ ← lock_file_at true (profile_provider profile) (profile_id profile) PROVIDER_LOCK_FILE;
  ensure_profile_lock_durability (profile_provider profile) (profile_id profile).

Definition lock_exclusive : diskM () := lock_root_file h LOCK_FILE.
Definition lock_removal_exclusive : diskM () := lock_root_file h REMOVAL_LOCK_FILE.
End registry.
