(* ===== verification/ManagedHome.v ===== *)
(** * The home of a managed profile (src/profiles.rs, src/providers/claude.rs)

    What is checked of a provider's own directory before the provider runs in
    it: the configuration policy of a Codex home and the credential file of a
    Claude home; and how the output of the [claude] command line tool is
    judged. The TOML and JSON parsers are parameters. *)
From Stdlib Require Import Ascii.
From S2P Require Import Prelude Interfaces CodexLines Profiles ProfileDisk RemovalTree ProfileRegistry.

Open Scope Z_scope.

(** ** The configuration of a Codex home *)

Definition MAX_MANAGED_CODEX_CONFIG_BYTES : Z := 1024 * 1024.
Definition CODEX_0_144_4_CONFIG_KEYS : list string :=
  ["agents"; "allow_login_shell"; "analytics"; "approval_policy"; "approvals_reviewer"; "apps";
    "apps_mcp_product_sku"; "audio"; "auto_review"; "background_terminal_max_timeout";
    "chatgpt_base_url"; "check_for_update_on_startup"; "cli_auth_credentials_store";
    "compact_prompt"; "debug"; "default_permissions"; "desktop"; "developer_instructions";
    "disable_paste_burst"; "experimental_compact_prompt_file";
    "experimental_realtime_start_instructions"; "experimental_realtime_webrtc_call_base_url";
    "experimental_realtime_ws_backend_prompt"; "experimental_realtime_ws_base_url";
    "experimental_realtime_ws_model"; "experimental_realtime_ws_startup_context";
    "experimental_thread_config_endpoint"; "experimental_thread_store";
    "experimental_use_unified_exec_tool"; "features"; "feedback"; "file_opener";
    "forced_chatgpt_workspace_id"; "forced_login_method"; "ghost_snapshot";
    "hide_agent_reasoning"; "history"; "hooks"; "include_apps_instructions";
    "include_collaboration_mode_instructions"; "include_environment_context";
    "include_permissions_instructions"; "instructions"; "log_dir"; "marketplaces";
    "mcp_oauth_callback_port"; "mcp_oauth_callback_url"; "mcp_oauth_credentials_store";
    "mcp_servers"; "memories"; "model"; "model_auto_compact_token_limit";
    "model_auto_compact_token_limit_scope"; "model_catalog_json"; "model_context_window";
    "model_instructions_file"; "model_provider"; "model_providers"; "model_reasoning_effort";
    "model_reasoning_summary"; "model_supports_reasoning_summaries"; "model_verbosity";
    "notice"; "notify"; "openai_base_url"; "orchestrator"; "oss_provider"; "otel";
    "permissions"; "personality"; "plan_mode_reasoning_effort"; "plugins"; "profile";
    "profiles"; "project_doc_fallback_filenames"; "project_doc_max_bytes";
    "project_root_markers"; "projects"; "realtime"; "review_model"; "sandbox_mode";
    "sandbox_workspace_write"; "service_tier"; "shell_environment_policy";
    "show_raw_agent_reasoning"; "skills"; "sqlite_home"; "suppress_unstable_features_warning";
    "tool_output_token_limit"; "tool_suggest"; "tools"; "tui"; "web_search"; "windows"].
Definition MANAGED_CODEX_FORBIDDEN_CONFIG_KEYS : list string :=
  ["agents"; "apps_mcp_product_sku"; "chatgpt_base_url"; "debug";
    "experimental_realtime_webrtc_call_base_url"; "experimental_realtime_ws_base_url";
    "experimental_thread_config_endpoint"; "experimental_thread_store"; "features";
    "forced_chatgpt_workspace_id"; "forced_login_method"; "log_dir"; "marketplaces";
    "mcp_oauth_callback_port"; "mcp_oauth_callback_url"; "mcp_servers"; "model_catalog_json";
    "model_provider"; "model_providers"; "openai_base_url"; "oss_provider"; "plugins";
    "profile"; "profiles"; "project_root_markers"; "sqlite_home"].

(** What the code tells apart of a [toml::Value]; a table is the list of its
    entries. *)
Inductive TomlValue := Toml_String (s : string) | Toml_Table (t : list (string * TomlValue)) | Toml_Other.
Abbreviation TomlTable := (list (string * TomlValue)).
(** [toml::from_str::<toml::Table>]. *)
Class TomlCrate := { toml_from_str : string → option TomlTable }.

Definition table_get (key : string) (t : TomlTable) : option TomlValue :=
  snd <$> find_first (fun e => String.eqb (fst e) key) t.
Definition toml_as_str (v : TomlValue) : option string :=
  match v with Toml_String s => Some s | _ => None end.
Definition toml_as_table (v : TomlValue) : option TomlTable :=
  match v with Toml_Table t => Some t | _ => None end.
Definition str_in (s : string) (l : list string) : bool := existsb (String.eqb s) l.

(** [project_path] is an absolute path and its only setting is whether it is
    trusted. *)
Definition project_ok (e : string * TomlValue) : bool :=
  let '(project_path, project) := e in
  String.prefix "/" project_path
  && match toml_as_table project with
     | Some project =>
         (len project =? 1)
         && match table_get "trust_level" project ≫= toml_as_str with
            | Some level => String.eqb level "trusted" || String.eqb level "untrusted"
            | None => false
            end
     | None => false
     end.

Inductive ClaudeProfileError :=
| Cl_UnsupportedVersion | Cl_Unauthenticated | Cl_StatusSchema | Cl_Credentials | Cl_Io.
#[export] Instance ClaudeProfileError_eq_dec : EqDecision ClaudeProfileError.
Proof. solve_decision. Defined.

Section home.
Context {TC : TomlCrate} (h : Host).

Definition validate_managed_codex_config (b : bytes) : result ProfileError () :=
  let policy_error := PE_UnsafeState in
  text ← ok_or (from_utf8 b) policy_error;
  config ← ok_or (toml_from_str text) policy_error;
  _ ← for_each (fun e => reject_if (negb (str_in (fst e) CODEX_0_144_4_CONFIG_KEYS)
                                     || str_in (fst e) MANAGED_CODEX_FORBIDDEN_CONFIG_KEYS)
                          policy_error) config;
  _ ← reject_if (negb (bool_decide
        (table_get "cli_auth_credentials_store" config ≫= toml_as_str = Some "file"))) policy_error;
  _ ← reject_if (match table_get "mcp_oauth_credentials_store" config with
                 | Some store => negb (bool_decide (toml_as_str store = Some "file"))
                 | None => false
                 end) policy_error;
  match table_get "projects" config with
  | None => Ok ()
  | Some projects =>
      projects ← ok_or (toml_as_table projects) policy_error;
      for_each (fun e => reject_if (negb (project_ok e)) policy_error) projects
  end.

(** A private file that must be there: its absence violates the policy. *)
Definition required_private_file (n : option Node) : result ProfileError bytes :=
  match n with
  | None => Err PE_UnsafeState
  | Some _ =>
      _ ← private_single_link_regular h n;
      match n with
      | Some (RegularFile _ content) => Ok content
      | _ => Err PE_UnsafeState
      end
  end.
Definition verify_managed_codex_config (n : option Node) : result ProfileError () :=
  content ← required_private_file n;
  let b := take (Z.to_nat (MAX_MANAGED_CODEX_CONFIG_BYTES + 1)) content in
  _ ← reject_if (MAX_MANAGED_CODEX_CONFIG_BYTES <? len b) PE_UnsafeState;
  validate_managed_codex_config b.
Definition verify_managed_codex_home (home : option Node) : result ProfileError () :=
  m ← directory_meta home;
  _ ← private_directory h m;
  _ ← match entry_in home "agents" with Some _ => Err PE_UnsafeState | None => Ok () end;
  _ ← verify_managed_codex_config (entry_in home "config.toml");
  _ ← required_private_file (entry_in home "auth.json");
  Ok ().

(** ** The credentials of a Claude home *)

Definition MAX_CREDENTIAL_BYTES : Z := 1024 * 1024.

(** [open_validated_linux_credentials]; [0o777] and [0o600] are [0x1ff] and
    [0x180]. *)
Definition validate_linux_credentials (home : option Node) : result ClaudeProfileError () :=
  match home with
  | None => Err Cl_Io
  | Some (Directory m es) =>
      _ ← reject_if (negb (private_directory_metadata_is_safe h m)) Cl_Credentials;
      match lookup_entry ".credentials.json" es with
      | Some (RegularFile m content) =>
          reject_if (negb (m_uid m =? h_uid h) || negb (Z.land (m_mode m) 0x1ff =? 0x180)
                     || negb (m_nlink m =? 1) || (len content =? 0)
                     || (MAX_CREDENTIAL_BYTES <? len content)) Cl_Credentials
      | _ => Err Cl_Credentials
      end
  | _ => Err Cl_Credentials
  end.

(** [profile_home]: the home of a profile once the checks of its provider
    pass. *)
Definition home_of (p : Provider) (id : string) (d : DataRoot) : option Node :=
  entry_in (profile_entry p id d) "home".
Definition verify_home (p : Provider) (home : option Node) : result ProfileError () :=
  match p with
  | Claude => map_err (fun _ => PE_Claude) (validate_linux_credentials home)
  | Codex => verify_managed_codex_home home
  end.
End home.

(** ** The [claude] command *)

Definition MAX_STATUS_BYTES : Z := 16 * 1024.
Definition SUPPORTED_VERSION_OUTPUT : string := "2.1.227 (Claude Code)".
Record ClaudeAuthStatus := mkClaudeAuthStatus { auth_method : string; api_provider : string }.
Record ClaudeAuthStatusDocument := mkClaudeAuthStatusDocument {
  logged_in : bool;
  doc_auth_method : string;
  doc_api_provider : string;
}.
(** [serde_json::from_slice::<ClaudeAuthStatusDocument>]. *)
Class ClaudeStatusJson := { status_from_slice : bytes → option ClaudeAuthStatusDocument }.

Definition validate_version_output (output : bytes) : result ClaudeProfileError () :=
  reject_if (negb (bool_decide (output = name_bytes SUPPORTED_VERSION_OUTPUT ++ [10]))) Cl_UnsupportedVersion.

Definition parse_auth_status {SJ : ClaudeStatusJson} (b : bytes)
    : result ClaudeProfileError ClaudeAuthStatus :=
  _ ← reject_if ((len b =? 0) || (MAX_STATUS_BYTES <? len b)) Cl_StatusSchema;
  document ← ok_or (status_from_slice b) Cl_StatusSchema;
  _ ← reject_if (negb (logged_in document) || (str_len (doc_auth_method document) =? 0)
                 || negb (String.eqb (doc_api_provider document) "firstParty")
                 || (64 <? str_len (doc_auth_method document))
                 || negb (str_all is_ascii (doc_auth_method document)))
        (if logged_in document then Cl_StatusSchema else Cl_Unauthenticated);
  Ok (mkClaudeAuthStatus (doc_auth_method document) (doc_api_provider document)).

Definition CONFLICTING_NAMES : list string :=
  ["AWS_ACCESS_KEY_ID"; "AWS_SECRET_ACCESS_KEY"; "AWS_SESSION_TOKEN"; "AWS_PROFILE";
    "GOOGLE_APPLICATION_CREDENTIALS"; "CLOUD_ML_REGION"; "VERTEX_REGION_CLAUDE_3_5_HAIKU";
    "VERTEX_REGION_CLAUDE_3_5_SONNET"; "VERTEX_REGION_CLAUDE_3_7_SONNET";
    "VERTEX_REGION_CLAUDE_4_0_OPUS"; "VERTEX_REGION_CLAUDE_4_0_SONNET";
    "VERTEX_REGION_CLAUDE_4_1_OPUS"; "VERTEX_REGION_CLAUDE_4_5_HAIKU";
    "VERTEX_REGION_CLAUDE_4_5_OPUS"; "VERTEX_REGION_CLAUDE_4_5_SONNET"].
(** A variable of the environment that [managed_command] removes; [None] is a
    name that is not UTF-8. *)
Definition conflicts_with_managed_profile (name : option string) : bool :=
  match name with
  | None => true
  | Some name =>
      String.prefix "ANTHROPIC_" name || String.prefix "CLAUDE_" name || str_in name CONFLICTING_NAMES
  end.
Definition managed_environment (config_dir : string) (variables : list (option string * string))
    : list (option string * string) :=
  filter (fun v => conflicts_with_managed_profile (fst v) = false ∧ fst v ≠ Some "CLAUDE_CONFIG_DIR") variables
    ++ [(Some "CLAUDE_CONFIG_DIR", config_dir)].

(** [verify_profile]: the two runs of the command, each whether it succeeded
    and its output, and the home. *)
Definition verify_profile {SJ : ClaudeStatusJson} (h : Host)
    (version auth : result ClaudeProfileError (bool * bytes)) (home : option Node)
    : result ClaudeProfileError ClaudeAuthStatus :=
  '(success, output) ← version;
  _ ← reject_if (negb success) Cl_UnsupportedVersion;
  _ ← validate_version_output output;
  '(success, output) ← auth;
  _ ← reject_if (negb success) Cl_Unauthenticated;
  status ← parse_auth_status output;
  _ ← validate_linux_credentials h home;
  Ok status.
