(* ===== verification/Reauth.v ===== *)
(** * Reauthentication of a profile (src/profiles/reauth.rs)

    The provider logs in again in a staging directory; the new credential then
    replaces the old one in the home of the profile through a journal, a
    temporary file and a backup. A transaction that was cut short is finished
    or rolled back from what the journal and the digests of the three files
    say. *)
From Stdlib Require Import Ascii.
From S2P Require Import Prelude Interfaces ConversationData ConversationStore CodexLines Profiles ProfileDisk RemovalTree ProfileRegistry ManagedHome.

Open Scope Z_scope.

Definition REAUTH_JOURNAL_FILE : string := ".calcifer-reauth.json".
Definition REAUTH_JOURNAL_SCHEMA_VERSION : Z := 2.
Definition LEGACY_REAUTH_JOURNAL_SCHEMA_VERSION : Z := 1.
Definition MAX_REAUTH_JOURNAL_BYTES : Z := 16 * 1024.
Definition MAX_REAUTH_AUTH_BYTES : Z := 1024 * 1024.
Definition MAX_REAUTH_TREE_ENTRIES : Z := 10000.

Record ReauthJournal := mkReauthJournal {
  ra_schema_version : Z;
  ra_provider : Provider;
  ra_credential_name : string;
  ra_profile_id : string;
  ra_transaction_id : string;
  ra_staging_name : string;
  ra_temporary_name : string;
  ra_backup_name : string;
  ra_old_auth_digest : string;
  ra_new_auth_digest : string;
}.
#[export] Instance ReauthJournal_eq_dec : EqDecision ReauthJournal.
Proof. solve_decision. Defined.

(** Whether the JSON value is an object with the fields [provider] and
    [credential_name]; [None] is not JSON. *)
Class ReauthJson := { explicit_provider_fields : bytes → option bool }.

Definition credential_name (p : Provider) : string :=
  match p with Claude => ".credentials.json" | Codex => "auth.json" end.
Definition dot_prefix (name : string) : string := if String.prefix "." name then "" else ".".
Definition credential_temporary_name (name transaction_id : string) : string :=
  dot_prefix name +:+ name +:+ ".reauth-new-" +:+ transaction_id.
Definition credential_backup_name (name transaction_id : string) : string :=
  dot_prefix name +:+ name +:+ ".reauth-old-" +:+ transaction_id.
Definition reauth_prefix (profile_id : string) : string := ".reauth-" +:+ profile_id +:+ "-".
Definition reauth_staging_name (profile_id transaction_id : string) : string :=
  reauth_prefix profile_id +:+ transaction_id.

(** A [String::starts_with]. *)
Definition is_prefix (p s : string) : bool :=
  match strip_prefix_str p s with Some _ => true | None => false end.

(** [PendingCodexReauth]; its lease is not a value of the model. *)
Record PendingReauth := mkPendingReauth {
  pa_profile : Profile;
  pa_transaction_id : string;
}.
Definition pa_staging (r : PendingReauth) : string :=
  reauth_staging_name (profile_id (pa_profile r)) (pa_transaction_id r).

Section reauth.
Context {UC : UuidCrate} {SC : Sha256Crate} {RH : RegistryHeader} {TC : TomlCrate} {RJ : ReauthJson}.
Context {JR : JsonCodec RegistryDocument} {JB : JsonCodec RemovalRegistryBarrier}.
Context {JJ : JsonCodec ReauthJournal}.
Context (h : Host).

Definition profile_place (profile : Profile) : Place :=
  tree_place (profile_provider profile) (profile_id profile).
Definition home_place (profile : Profile) : Place := child_place (profile_place profile) "home".

(** [profile_home]. *)
Definition profile_home (profile : Profile) : diskM () :=
  _ ← profile_directory h profile;
  _ ← io h;
  d ← disk;
  check (verify_home h (profile_provider profile) (home_of (profile_provider profile) (profile_id profile) d)).

(** ** Credential files *)

Definition auth_digest (b : bytes) : string := sha256_hex b.
Definition read_private_bounded (place : Place) (name : string) (maximum : Z) : diskM bytes :=
  n ← find_at h place name;
  b ← read_verified h true maximum n;
  _ ← check (reject_if (maximum <? len b) PE_UnsafeState);
  mret b.
Definition read_private_digest (place : Place) (name : string) : diskM string :=
  b ← read_private_bounded place name MAX_REAUTH_AUTH_BYTES; mret (auth_digest b).
Definition optional_private_digest (place : Place) (name : string) : diskM (option string) :=
  n ← find_at h place name;
  match n with
  | None => mret None
  | Some _ => digest ← read_private_digest place name; mret (Some digest)
  end.
Definition remove_exact_private_file (place : Place) (name : string) (expected_digest : option string)
    : diskM () :=
  n ← find_at h place name;
  match n with
  | None => mret ()
  | Some _ =>
      _ ← check (map_err (fun _ => PE_ReauthRecoveryRequired) (private_single_link_regular h n));
      _ ← match expected_digest with
          | Some expected =>
              digest ← read_private_digest place name;
              check (reject_if (negb (String.eqb digest expected)) PE_ReauthRecoveryRequired)
          | None => mret ()
          end;
      remove_file_at h place name
  end.
Definition ensure_path_absent (place : Place) (name : string) : diskM () :=
  n ← find_at h place name;
  match n with None => mret () | Some _ => fail PE_ReauthRecoveryRequired end.

(** [write_reauth_private_file]: a file that cannot be completed is removed. *)
Definition write_reauth_private_file (place : Place) (name : string) (content : bytes) : diskM () :=
  _ ← create_new_at h place name;
  publication ← attempt
    (_ ← write_all_at h place name content;
     _ ← io h;
     n ← find_at h place name;
     check (private_single_link_regular h n));
  match publication with
  | Ok _ => mret ()
  | Err error => _ ← attempt (remove_file_at h place name); fail error
  end.

(** ** Staging directories *)

(** What is checked of the entries of one directory; its child directories. *)
Definition reauth_entry (acc : Z * list (Meta * Entries)) (e : string * Node)
    : result ProfileError (Z * list (Meta * Entries)) :=
  let '(entries, pending) := acc in
  let entries := entries + 1 in
  _ ← reject_if (MAX_REAUTH_TREE_ENTRIES <? entries) PE_ReauthRecoveryRequired;
  match snd e with
  | Directory m es => Ok (entries, (m, es) :: pending)
  | RegularFile _ _ =>
      _ ← map_err (fun _ => PE_ReauthRecoveryRequired) (private_single_link_regular h (Some (snd e)));
      Ok (entries, pending)
  | NonFollowingLeaf _ _ => Err PE_ReauthRecoveryRequired
  end.
(** The stack of the walk, its top first; [None]: out of fuel. *)
Fixpoint reauth_walk (fuel : nat) (entries : Z) (pending : list (Meta * Entries))
    : option (result ProfileError ()) :=
  match pending, fuel with
  | [], _ => Some (Ok ())
  | _, O => None
  | (m, es) :: pending, S fuel =>
      match _ ← map_err (fun _ => PE_ReauthRecoveryRequired) (private_directory h (Some m));
            fold_result reauth_entry (entries, pending) es with
      | Err e => Some (Err e)
      | Ok (entries, pending) => reauth_walk fuel entries pending
      end
  end.
Definition validate_reauth_tree (staging : option Node) (profile_id : string)
    : result ProfileError FileSystemIdentity :=
  let required := PE_ReauthRecoveryRequired in
  identity ← map_err (fun _ => required)
    (m ← directory_meta staging; private_directory_identity h m);
  let marker := entry_in staging OWNER_MARKER in
  _ ← map_err (fun _ => required) (private_single_link_regular h marker);
  _ ← reject_if (match marker with
                 | Some (RegularFile _ content) => negb (bool_decide (from_utf8 content = Some profile_id))
                 | _ => true
                 end) required;
  match staging with
  | Some (Directory m es) =>
      _ ← default (Err required) (reauth_walk (S (entries_size es)) 0 [(m, es)]);
      Ok identity
  | _ => Err required
  end.

Definition safe_remove_reauth_staging (p : Provider) (staging profile_id transaction_id : string)
    : diskM () :=
  let expected := reauth_staging_name profile_id transaction_id in
  _ ← check (reject_if (negb (String.eqb staging expected)) PE_ReauthRecoveryRequired);
  _ ← io h;
  d ← disk;
  expected_tree ← check (validate_reauth_tree (profile_entry p staging d) profile_id);
  map_failed (fun _ => PE_ReauthRecoveryRequired)
    (_ ← io h;
     let provider := fst <$> provider_dir p d in
     expected_provider ← check (private_directory_identity h provider);
     provider ← check (ok_or provider PE_Io);
     expected_mount ← check (removal_mount_identity provider);
     remove_owned_directory_at h p staging expected_provider expected_tree expected_mount
       MAX_REAUTH_TREE_ENTRIES MAX_REMOVAL_TREE_DEPTH).
Definition remove_reauth_staging_if_present (p : Provider) (staging profile_id transaction_id : string)
    : diskM () :=
  _ ← io h;
  d ← disk;
  match profile_entry p staging d with
  | None => mret ()
  | Some _ => safe_remove_reauth_staging p staging profile_id transaction_id
  end.

(** [Uuid::parse_str(id).ok().is_none_or(|uuid| uuid.to_string() != id)]. *)
Definition canonical_uuid (id : string) : bool :=
  match parse_str id with Some uuid => String.eqb (uuid_to_string uuid) id | None => false end.

Definition provider_names (p : Provider) : diskM (list string) :=
  _ ← io h;
  d ← disk;
  check (dir ← ok_or (provider_dir p d) PE_Io; Ok (fst <$> map_to_list (snd dir))).
Definition cleanup_orphan_reauth_staging (profile : Profile) : diskM () :=
  let p := profile_provider profile in
  d ← disk;
  _ ← verify_private_directory h (fst <$> provider_dir p d);
  names ← provider_names p;
  (fix cleanup (names : list string) : diskM () :=
     match names with
     | [] => sync_directory h
     | name :: names =>
         name ← check (into_string name PE_ReauthRecoveryRequired);
         match strip_prefix_str (reauth_prefix (profile_id profile)) name with
         | None => cleanup names
         | Some transaction_id =>
             _ ← check (reject_if (negb (canonical_uuid transaction_id)) PE_ReauthRecoveryRequired);
             _ ← safe_remove_reauth_staging p name (profile_id profile) transaction_id;
             cleanup names
         end
     end) names.

(** ** The journal *)

Definition reauth_journal_ok (j : ReauthJournal) (explicit : bool) : bool :=
  ((ra_schema_version j =? LEGACY_REAUTH_JOURNAL_SCHEMA_VERSION)
   || (ra_schema_version j =? REAUTH_JOURNAL_SCHEMA_VERSION))
  && negb ((ra_schema_version j =? REAUTH_JOURNAL_SCHEMA_VERSION) && negb explicit)
  && negb ((ra_schema_version j =? LEGACY_REAUTH_JOURNAL_SCHEMA_VERSION)
           && (negb (provider_eqb (ra_provider j) Codex)
               || negb (String.eqb (ra_credential_name j) "auth.json")))
  && String.eqb (ra_credential_name j) (credential_name (ra_provider j))
  && is_ok (validate_profile_id (ra_profile_id j))
  && canonical_uuid (ra_transaction_id j)
  && is_lower_sha256_hex (ra_old_auth_digest j)
  && is_lower_sha256_hex (ra_new_auth_digest j).
Definition read_reauth_journal (place : Place) : diskM ReauthJournal :=
  b ← map_failed (fun _ => PE_ReauthRecoveryRequired)
        (read_private_bounded place REAUTH_JOURNAL_FILE MAX_REAUTH_JOURNAL_BYTES);
  explicit ← check (ok_or (explicit_provider_fields b) PE_ReauthRecoveryRequired);
  journal ← check (ok_or (from_slice b) PE_ReauthRecoveryRequired);
  _ ← check (reject_if (negb (reauth_journal_ok journal explicit)) PE_ReauthRecoveryRequired);
  mret journal.
Definition validate_journal_paths (j : ReauthJournal) : result ProfileError () :=
  reject_if (negb (String.eqb (ra_staging_name j) (reauth_staging_name (ra_profile_id j) (ra_transaction_id j)))
             || negb (String.eqb (ra_temporary_name j)
                        (credential_temporary_name (ra_credential_name j) (ra_transaction_id j)))
             || negb (String.eqb (ra_backup_name j)
                        (credential_backup_name (ra_credential_name j) (ra_transaction_id j))))
    PE_ReauthRecoveryRequired.

Definition journal_temporary (transaction_id : string) : string :=
  "." +:+ REAUTH_JOURNAL_FILE +:+ "." +:+ transaction_id +:+ ".tmp".
Definition publish_reauth_journal (profile : Profile) (staging : Place) (j : ReauthJournal) : diskM () :=
  b ← check (ok_or (to_vec j) PE_ReauthRecoveryRequired);
  _ ← check (reject_if (MAX_REAUTH_JOURNAL_BYTES <? len b) PE_ReauthRecoveryRequired);
  let temporary := journal_temporary (ra_transaction_id j) in
  _ ← ensure_path_absent staging temporary;
  _ ← ensure_path_absent (profile_place profile) REAUTH_JOURNAL_FILE;
  _ ← write_reauth_private_file staging temporary b;
  renamed ← attempt (rename_at h staging temporary (profile_place profile) REAUTH_JOURNAL_FILE);
  match renamed with
  | Err error => _ ← attempt (remove_file_at h staging temporary); fail error
  | Ok _ =>
      map_failed (fun _ => PE_ReauthRecoveryRequired) (_ ← sync_directory h; sync_directory h)
  end.

(** ** Finishing and rolling back *)

Definition digest_is (digest : option string) (expected : string) : bool :=
  bool_decide (digest = Some expected).

Definition finish_committed_reauth (profile : Profile) (j : ReauthJournal) : diskM () :=
  let home := home_place profile in
  digest ← read_private_digest home (ra_credential_name j);
  _ ← check (reject_if (negb (String.eqb digest (ra_new_auth_digest j))) PE_ReauthRecoveryRequired);
  _ ← remove_exact_private_file home (ra_backup_name j) (Some (ra_old_auth_digest j));
  _ ← remove_exact_private_file home (ra_temporary_name j) (Some (ra_new_auth_digest j));
  _ ← sync_directory h;
  _ ← remove_reauth_staging_if_present (profile_provider profile) (ra_staging_name j) (ra_profile_id j)
        (ra_transaction_id j);
  _ ← sync_directory h;
  _ ← remove_exact_private_file (profile_place profile) REAUTH_JOURNAL_FILE None;
  sync_directory h.

Definition rollback_unpublished_reauth (profile : Profile) (j : ReauthJournal) : diskM () :=
  let home := home_place profile in
  digest ← read_private_digest home (ra_credential_name j);
  _ ← check (reject_if (negb (String.eqb digest (ra_old_auth_digest j))) PE_ReauthRecoveryRequired);
  _ ← remove_exact_private_file home (ra_temporary_name j) (Some (ra_new_auth_digest j));
  _ ← remove_reauth_staging_if_present (profile_provider profile) (ra_staging_name j) (ra_profile_id j)
        (ra_transaction_id j);
  _ ← sync_directory h;
  _ ← remove_exact_private_file (profile_place profile) REAUTH_JOURNAL_FILE None;
  sync_directory h.

Definition recover_journaled_reauth (profile : Profile) (j : ReauthJournal) : diskM () :=
  let home := home_place profile in
  current_digest ← optional_private_digest home (ra_credential_name j);
  temporary_digest ← optional_private_digest home (ra_temporary_name j);
  backup_digest ← optional_private_digest home (ra_backup_name j);
  _ ← check (reject_if ((bool_decide (is_Some backup_digest)
                         && negb (digest_is backup_digest (ra_old_auth_digest j)))
                        || (bool_decide (is_Some temporary_digest)
                            && negb (digest_is temporary_digest (ra_new_auth_digest j))))
               PE_ReauthRecoveryRequired);
  match current_digest with
  | Some digest =>
      if String.eqb digest (ra_new_auth_digest j) then finish_committed_reauth profile j
      else if String.eqb digest (ra_old_auth_digest j) && negb (bool_decide (is_Some backup_digest))
      then rollback_unpublished_reauth profile j
      else fail PE_ReauthRecoveryRequired
  | None =>
      if digest_is backup_digest (ra_old_auth_digest j)
         && digest_is temporary_digest (ra_new_auth_digest j)
      then
        _ ← map_failed (fun _ => PE_ReauthRecoveryRequired)
              (rename_at h home (ra_temporary_name j) home (ra_credential_name j));
        digest ← read_private_digest home (ra_credential_name j);
        _ ← check (reject_if (negb (String.eqb digest (ra_new_auth_digest j))) PE_ReauthRecoveryRequired);
        _ ← map_failed (fun _ => PE_ReauthCommitUncertain) (sync_directory h);
        finish_committed_reauth profile j
      else fail PE_ReauthRecoveryRequired
  end.

(** ** Recovery *)

Definition recover_reauth_under_lease (profile : Profile) : diskM () :=
  n ← find_at h (profile_place profile) REAUTH_JOURNAL_FILE;
  match n with
  | None => cleanup_orphan_reauth_staging profile
  | Some _ =>
      let required := PE_ReauthRecoveryRequired in
      journal ← read_reauth_journal (profile_place profile);
      _ ← check (reject_if (negb (String.eqb (ra_profile_id journal) (profile_id profile))
                            || negb (provider_eqb (ra_provider journal) (profile_provider profile))
                            || negb (String.eqb (ra_credential_name journal)
                                       (credential_name (profile_provider profile)))) required);
      _ ← io h;
      d ← disk;
      let home := home_of (profile_provider profile) (profile_id profile) d in
      _ ← check (map_err (fun _ => required) (m ← directory_meta home; private_directory h m));
      _ ← (if provider_eqb (profile_provider profile) Codex
           then check (map_err (fun _ => required) (verify_managed_codex_config h (entry_in home "config.toml")))
           else mret ());
      _ ← check (validate_journal_paths journal);
      recover_journaled_reauth profile journal
  end.

(** The profiles of one provider that a reauthentication has left something
    of: a journal, or a staging directory. *)
Fixpoint journaled_profiles (profiles : list Profile) (affected : list string) : diskM (list string) :=
  match profiles with
  | [] => mret affected
  | profile :: profiles =>
      n ← find_at h (profile_place profile) REAUTH_JOURNAL_FILE;
      journaled_profiles profiles (match n with Some _ => affected ++ [profile_id profile] | None => affected end)
  end.
Definition staging_owner (p : Provider) (document : RegistryDocument) (affected : list string) (name : string)
    : result ProfileError (list string) :=
  name ← into_string name PE_ReauthRecoveryRequired;
  if negb (is_prefix ".reauth-" name) then Ok affected
  else
    owner ← ok_or (find_first (fun q => provider_eqb (profile_provider q) p
                                        && is_prefix (reauth_prefix (profile_id q)) name)
                     (registry_profiles document)) PE_ReauthRecoveryRequired;
    Ok (if str_in (profile_id owner) affected then affected else affected ++ [profile_id owner]).
Definition affected_of_provider (p : Provider) (document : RegistryDocument) (affected : list string)
    : diskM (list string) :=
  _ ← io h;
  d ← disk;
  match provider_dir p d with
  | None => mret affected
  | Some (m, _) =>
      _ ← verify_private_directory h (Some m);
      affected ← journaled_profiles
        (filter (fun q => profile_provider q = p) (registry_profiles document)) affected;
      names ← provider_names p;
      check (fold_result (staging_owner p document) affected names)
  end.

(** [affected_ids.dedup()]. *)
Fixpoint dedup (l : list string) : list string :=
  match l with
  | [] => []
  | x :: l => match dedup l with
              | y :: _ as l' => if String.eqb x y then l' else x :: l'
              | [] => [x]
              end
  end.
Definition incomplete_reauth_scan : diskM (option (RegistryDocument * list string)) :=
  _ ← io h;
  d ← disk;
  match dr_root d with
  | None => mret None
  | Some _ =>
      document ← load h;
      _ ← io h;
      match dr_profiles d with
      | None => mret None
      | Some m =>
          _ ← verify_private_directory h (Some m);
          affected ← affected_of_provider Claude document [];
          affected ← affected_of_provider Codex document affected;
          mret (Some (document, dedup (sort_strings affected)))
      end
  end.

Fixpoint recover_affected (document : RegistryDocument) (affected : list string) : diskM () :=
  match affected with
  | [] => mret ()
  | id :: affected =>
      profile ← check (ok_or (find_first (fun q => String.eqb (profile_id q) id) (registry_profiles document))
                         PE_ReauthRecoveryRequired);
      _ ← lock_profile h profile;
      current ← find_by_id_without_recovery h (profile_provider profile) (profile_id profile);
      _ ← check (reject_if (negb (bool_decide (current = profile))) PE_ReauthRecoveryRequired);
      _ ← profile_directory h current;
      _ ← recover_reauth_under_lease current;
      recover_affected document affected
  end.
Definition recover_incomplete_reauth : diskM () :=
  scan ← incomplete_reauth_scan;
  match scan with
  | None => mret ()
  | Some (document, affected) => recover_affected document affected
  end.
Definition ensure_no_reauth_artifacts_read_only : diskM () :=
  scan ← incomplete_reauth_scan;
  match scan with
  | Some (_, _ :: _) => fail PE_ReauthRecoveryRequired
  | _ => mret ()
  end.

(** ** The commit *)

Definition candidate_name (transaction_id : string) : string :=
  ".credential-candidate-" +:+ transaction_id.

(** Up to the publication of the journal: the transaction leaves the profile
    as it is and its staging directory is removed when it is dropped. *)
Definition prepare_commit (r : PendingReauth) (name : string) : diskM (ReauthJournal * bytes) :=
  let profile := pa_profile r in
  let id := pa_transaction_id r in
  let staging := tree_place (profile_provider profile) (pa_staging r) in
  _ ← profile_home profile;
  old_bytes ← read_private_bounded (home_place profile) name MAX_REAUTH_AUTH_BYTES;
  new_bytes ← read_private_bounded (child_place staging "home") name MAX_REAUTH_AUTH_BYTES;
  let temporary_name := credential_temporary_name name id in
  let backup_name := credential_backup_name name id in
  _ ← ensure_path_absent (home_place profile) temporary_name;
  _ ← ensure_path_absent (home_place profile) backup_name;
  _ ← ensure_path_absent staging (candidate_name id);
  let journal := mkReauthJournal REAUTH_JOURNAL_SCHEMA_VERSION (profile_provider profile) name
    (profile_id profile) id (pa_staging r) temporary_name backup_name (auth_digest old_bytes)
    (auth_digest new_bytes) in
  _ ← publish_reauth_journal profile staging journal;
  mret (journal, new_bytes).

(** After it: what is left is for recovery. *)
Definition replace_credential (r : PendingReauth) (journal : ReauthJournal) (new_bytes : bytes) : diskM () :=
  let profile := pa_profile r in
  let required := fun _ : ProfileError => PE_ReauthRecoveryRequired in
  let uncertain := fun _ : ProfileError => PE_ReauthCommitUncertain in
  let staging := tree_place (profile_provider profile) (pa_staging r) in
  let home := home_place profile in
  let name := ra_credential_name journal in
  _ ← write_reauth_private_file staging (candidate_name (pa_transaction_id r)) new_bytes;
  _ ← map_failed required
        (rename_at h staging (candidate_name (pa_transaction_id r)) home (ra_temporary_name journal));
  _ ← map_failed required (sync_directory h);
  digest ← read_private_digest home (ra_temporary_name journal);
  _ ← check (reject_if (negb (String.eqb digest (ra_new_auth_digest journal))) PE_ReauthRecoveryRequired);
  digest ← read_private_digest home name;
  _ ← check (reject_if (negb (String.eqb digest (ra_old_auth_digest journal))) PE_ReauthRecoveryRequired);
  _ ← map_failed required (rename_at h home name home (ra_backup_name journal));
  _ ← map_failed required (rename_at h home (ra_temporary_name journal) home name);
  digest ← read_private_digest home name;
  _ ← check (reject_if (negb (String.eqb digest (ra_new_auth_digest journal))) PE_ReauthRecoveryRequired);
  _ ← map_failed uncertain (sync_directory h);
  map_failed uncertain (finish_committed_reauth profile journal).

Definition drop_staging (r : PendingReauth) : diskM () :=
  _ ← attempt (safe_remove_reauth_staging (profile_provider (pa_profile r)) (pa_staging r)
                 (profile_id (pa_profile r)) (pa_transaction_id r));
  mret ().
Definition commit_credential (r : PendingReauth) (name : string) : diskM Profile :=
  prepared ← attempt (prepare_commit r name);
  match prepared with
  | Err error => _ ← drop_staging r; fail error
  | Ok (journal, new_bytes) =>
      _ ← replace_credential r journal new_bytes;
      mret (pa_profile r)
  end.
Definition abort_reauth (r : PendingReauth) : diskM () :=
  removed ← attempt (safe_remove_reauth_staging (profile_provider (pa_profile r)) (pa_staging r)
                       (profile_id (pa_profile r)) (pa_transaction_id r));
  match removed with
  | Ok _ => sync_directory h
  | Err error => _ ← drop_staging r; fail error
  end.
(** [commit_claude]; the staged credentials are checked and synced first. *)
Definition commit_claude_reauth (r : PendingReauth) : diskM Profile :=
  checked ← attempt
    (_ ← check (reject_if (negb (provider_eqb (profile_provider (pa_profile r)) Claude))
                  PE_ReauthRecoveryRequired);
     _ ← io h;
     d ← disk;
     _ ← check (map_err (fun _ => PE_Claude)
                  (validate_linux_credentials h (home_of Claude (pa_staging r) d)));
     _ ← map_failed (fun _ => PE_Claude) (io h);
     map_failed (fun _ => PE_Claude) (sync_directory h));
  match checked with
  | Err error => _ ← drop_staging r; fail error
  | Ok _ => commit_credential r (credential_name Claude)
  end.
End reauth.
