(* ===== verification/ProfileRemoval.v ===== *)
(** * Removal of a profile (src/profiles.rs)

    A profile is removed in steps that each leave the disk in a state from
    which the removal can be undone or finished: the registry is replaced by a
    barrier, the journal is written, the tree of the profile is renamed to its
    tombstone, the registry without the profile is published, the tombstone is
    deleted and the journal is removed. Recovery goes back to the old registry
    as long as the barrier stands and forward once it is gone. *)
From Stdlib Require Import Ascii.
From S2P Require Import Prelude Interfaces ConversationData ConversationStore CodexLines Profiles ProfileDisk RemovalTree ProfileRegistry ManagedHome Reauth.

Open Scope Z_scope.

Definition effective_removal_journal (barrier : option RemovalRegistryBarrier)
    (sidecar : option RemovalJournal) : result ProfileError (option RemovalJournal) :=
  match barrier, sidecar with
  | Some barrier, Some sidecar =>
      if decide (rb_removal barrier = sidecar) then Ok (Some sidecar) else Err PE_RemovalRecoveryRequired
  | Some barrier, None => Ok (Some (rb_removal barrier))
  | None, Some sidecar => Ok (Some sidecar)
  | None, None => Ok None
  end.
Definition removal_commit_error (error : ProfileError) : ProfileError :=
  commit_uncertain PE_RemovalCommitUncertain error.

Section removal.
Context {UC : UuidCrate} {SC : Sha256Crate} {RH : RegistryHeader} {TC : TomlCrate} {RJ : ReauthJson}.
Context {JR : JsonCodec RegistryDocument} {JB : JsonCodec RemovalRegistryBarrier}.
Context {JM : JsonCodec RemovalJournal} {JJ : JsonCodec ReauthJournal}.
Context (h : Host).

Definition provider_meta (p : Provider) (d : DataRoot) : option Meta := fst <$> provider_dir p d.

(** ** What a removal leaves on the disk *)

Definition read_removal_journal : diskM (option RemovalJournal) :=
  n ← root_file h REMOVAL_JOURNAL_FILE;
  match n with
  | None => mret None
  | Some _ =>
      b ← map_failed (fun _ => PE_RemovalRecoveryRequired) (read_verified h true MAX_REMOVAL_JOURNAL_BYTES n);
      check (_ ← reject_if (MAX_REMOVAL_JOURNAL_BYTES <? len b) PE_RemovalRecoveryRequired;
             journal ← ok_or (from_slice b) PE_RemovalRecoveryRequired;
             _ ← validate_journal journal;
             Ok (Some journal))
  end.

Definition tombstone_step (p : Provider) (found : list (Provider * string)) (name : string)
    : result ProfileError (list (Provider * string)) :=
  name ← into_string name PE_RemovalRecoveryRequired;
  match strip_prefix_str ".removing-" name with
  | None => Ok found
  | Some id =>
      _ ← map_err (fun _ => PE_RemovalRecoveryRequired) (validate_profile_id id);
      let found := found ++ [(p, id)] in
      _ ← reject_if (1 <? len found) PE_RemovalRecoveryRequired;
      Ok found
  end.
Definition tombstones_of (p : Provider) (found : list (Provider * string)) (d : DataRoot)
    : result ProfileError (list (Provider * string)) :=
  match provider_dir p d with
  | None => Ok found
  | Some (m, es) =>
      _ ← private_directory h (Some m);
      fold_result (tombstone_step p) found (fst <$> map_to_list es)
  end.
Definition removal_tombstones : diskM (list (Provider * string)) :=
  _ ← io h;
  d ← disk;
  check (found ← tombstones_of Claude [] d; tombstones_of Codex found d).

Definition temporary_step (found : list string) (e : string * Node) : result ProfileError (list string) :=
  let required := PE_RemovalRecoveryRequired in
  name ← into_string (fst e) required;
  match strip_prefix_str ("." +:+ REMOVAL_JOURNAL_FILE +:+ ".") name ≫= strip_suffix_str ".tmp" with
  | None => Ok found
  | Some uuid =>
      _ ← map_err (fun _ => required) (validate_profile_id uuid);
      _ ← map_err (fun _ => required) (private_single_link_regular h (Some (snd e)));
      _ ← reject_if (MAX_REMOVAL_JOURNAL_BYTES <? metadata_len (snd e)) required;
      let found := found ++ [name] in
      _ ← reject_if (1 <? len found) required;
      Ok found
  end.
Definition removal_temporaries : diskM (list string) :=
  _ ← io h;
  d ← disk;
  check (fold_result temporary_step [] (map_to_list (dr_files d))).

Definition validate_removal_artifact_set (j : RemovalJournal) (tombstones : list (Provider * string))
    : result ProfileError () :=
  reject_if (existsb (fun t => negb (provider_eqb (fst t) (profile_provider (rj_profile j)))
                               || negb (String.eqb (snd t) (profile_id (rj_profile j)))) tombstones)
    PE_RemovalRecoveryRequired.

Definition ensure_no_removal_artifacts_read_only : diskM () :=
  _ ← io h;
  d ← disk;
  match dr_root d with
  | None => mret ()
  | Some _ =>
      let required := fun found : bool => check (reject_if found PE_RemovalRecoveryRequired) in
      journal ← read_removal_journal;
      _ ← required (bool_decide (is_Some journal));
      barrier ← read_removal_barrier h;
      _ ← required (bool_decide (is_Some barrier));
      tombstones ← removal_tombstones;
      _ ← required (negb (len tombstones =? 0));
      temporaries ← removal_temporaries;
      required (negb (len temporaries =? 0))
  end.
(** [lock_registry_mutation]. *)
Definition lock_registry_mutation : diskM () :=
  _ ← lock_exclusive h; ensure_no_removal_artifacts_read_only.

(** ** The directories around the tree *)

Definition removal_roots (provider : Provider) (expected : option RemovalJournal) (d : DataRoot)
    : result ProfileError RemovalRoots :=
  let mount_of := fun m => m ← ok_or m PE_UnsafeState; removal_mount_identity m in
  data_mount ← mount_of (dr_root d);
  profiles_mount ← mount_of (dr_profiles d);
  provider_mount ← mount_of (provider_meta provider d);
  _ ← ensure_same_removal_mount data_mount profiles_mount;
  _ ← ensure_same_removal_mount data_mount provider_mount;
  data_root ← private_directory_identity h (dr_root d);
  profiles_root ← private_directory_identity h (dr_profiles d);
  provider_root ← private_directory_identity h (provider_meta provider d);
  _ ← reject_if (negb (device data_root =? device profiles_root)
                 || negb (device data_root =? device provider_root)) PE_UnsafeState;
  _ ← reject_if (match expected with
                 | Some j => negb (bool_decide (data_root = rj_data_root j))
                             || negb (bool_decide (profiles_root = rj_profiles_root j))
                             || negb (bool_decide (provider_root = rj_provider_root j))
                 | None => false
                 end) PE_RemovalRecoveryRequired;
  Ok (mkRemovalRoots provider data_root profiles_root provider_root provider_mount).
Definition validate_removal_roots (provider : Provider) (expected : option RemovalJournal)
    : diskM RemovalRoots :=
  _ ← io h; d ← disk; check (removal_roots provider expected d).

(** What is found at a path of the provider, and the checks of a tree there. *)
Definition found (p : Provider) (name : string) : diskM (option Node) :=
  _ ← io h; d ← disk; mret (profile_entry p name d).
Definition path_exists (p : Provider) (name : string) : diskM bool :=
  n ← found p name; mret (bool_decide (is_Some n)).
Definition validate_tree (roots : RemovalRoots) (j : RemovalJournal) (name : string) : diskM () :=
  n ← found (profile_provider (rj_profile j)) name;
  _ ← check (validate_owned_removal_tree h roots name n (profile_id (rj_profile j)) (Some (tree_snapshot j)));
  mret ().
Definition validate_partial (roots : RemovalRoots) (j : RemovalJournal) (name : string) : diskM () :=
  n ← found (profile_provider (rj_profile j)) name;
  _ ← check (validate_partial_owned_tombstone h roots name n (profile_id (rj_profile j)) (rj_profile_tree j));
  mret ().

(** [fs::rename] of a tree beside itself; an empty directory at the
    destination would be replaced. *)
Definition rename_tree (p : Provider) (from to : string) : diskM () :=
  d ← disk;
  match profile_entry p from d, profile_entry p to d with
  | Some n, None => change h (update_profiles p (fun es => <[to := n]> (delete from es)))
  | Some (Directory m es), Some (Directory _ []) =>
      change h (update_profiles p (fun entries => <[to := Directory m es]> (delete from entries)))
  | _, _ => _ ← io h; fail PE_Io
  end.

(** ** The journal *)

Definition write_removal_journal (j : RemovalJournal) : diskM () :=
  _ ← check (validate_journal j);
  b ← check (ok_or (to_vec j) PE_RemovalRecoveryRequired);
  _ ← check (reject_if (MAX_REMOVAL_JOURNAL_BYTES <? len b) PE_RemovalRecoveryRequired);
  uuid ← new_v4 h;
  let temporary := temporary_name REMOVAL_JOURNAL_FILE uuid in
  _ ← or_remove h temporary
        (publish_temporary h (private_single_link_regular h) temporary REMOVAL_JOURNAL_FILE b);
  synced ← attempt (sync_directory h);
  match synced with
  | Ok _ => mret ()
  | Err error =>
      readback ← attempt read_removal_journal;
      if bool_decide (readback = Ok (Some j)) then fail (removal_commit_error error)
      else fail PE_RemovalRecoveryRequired
  end.

Definition remove_removal_journal (j : RemovalJournal) (temporaries : list string)
    (sidecar_required : bool) : diskM () :=
  let uncertain := fun _ : ProfileError => PE_RemovalCommitUncertain in
  current ← read_removal_journal;
  _ ← check (match current with
             | Some current => reject_if (negb (bool_decide (current = j))) PE_RemovalRecoveryRequired
             | None => reject_if sidecar_required PE_RemovalRecoveryRequired
             end);
  _ ← match temporaries with
      | [] => mret ()
      | [temporary] =>
          n ← root_file h temporary;
          _ ← check (map_err (fun _ => PE_RemovalRecoveryRequired) (private_single_link_regular h n));
          map_failed uncertain (remove_file h temporary)
      | _ => fail PE_RemovalRecoveryRequired
      end;
  _ ← match current with
      | Some _ => map_failed uncertain (remove_file h REMOVAL_JOURNAL_FILE)
      | None => mret ()
      end;
  map_failed removal_commit_error (sync_directory h).

Definition remove_stale_removal_temporary (temporaries : list string) : diskM () :=
  match temporaries with
  | [temporary] =>
      n ← root_file h temporary;
      _ ← check (map_err (fun _ => PE_RemovalRecoveryRequired) (private_single_link_regular h n));
      _ ← remove_file h temporary;
      sync_directory h
  | _ => fail PE_RemovalRecoveryRequired
  end.

(** ** After the registry without the profile is visible *)

Definition finish_visible_removal (j : RemovalJournal) : diskM () :=
  let p := profile_provider (rj_profile j) in
  let tombstone := removing (profile_id (rj_profile j)) in
  roots ← validate_removal_roots p (Some j);
  _ ← validate_partial roots j tombstone;
  _ ← map_failed removal_commit_error
        (remove_owned_directory_at h p tombstone (rj_provider_root j) (rj_profile_tree j)
           (rr_provider_mount roots) (rj_profile_tree_entry_count j) MAX_REMOVAL_TREE_DEPTH);
  _ ← validate_removal_roots p (Some j);
  _ ← map_failed removal_commit_error (sync_directory h);
  current ← read_removal_journal;
  _ ← check (reject_if (negb (bool_decide (current = Some j))) PE_RemovalRecoveryRequired);
  temporaries ← removal_temporaries;
  remove_removal_journal j temporaries true.

(** ** Recovery *)

(** [lock_removal_tree]. *)
Definition lock_removal_tree (name : string) (j : RemovalJournal) (roots : RemovalRoots) : diskM () :=
  let p := profile_provider (rj_profile j) in
  _ ← validate_tree roots j name;
  _ ← lock_file_at h false p name COORDINATOR_LOCK_FILE;
  _ ← lock_file_at h false p name PROVIDER_LOCK_FILE;
  validate_tree roots j name.

(** The lease on the tree, if the tree is whole and its locks are there. *)
Definition lease_tree (name : option string) (j : RemovalJournal) (roots : RemovalRoots) : diskM bool :=
  match name with
  | None => mret false
  | Some name =>
      valid ← attempt (validate_tree roots j name);
      if is_ok valid then
        lease ← attempt (lock_removal_tree name j roots);
        match lease with
        | Ok _ => mret true
        | Err PE_Busy => fail PE_Busy
        | Err _ => mret false
        end
      else mret false
  end.

(** The profile is back: the barrier stands and its tree is whole. *)
Definition restore_profile (j : RemovalJournal) (barrier : RemovalRegistryBarrier) (roots : RemovalRoots)
    (lease original_exists tombstone_exists : bool) (temporaries : list string) : diskM () :=
  let p := profile_provider (rj_profile j) in
  let original := profile_id (rj_profile j) in
  let tombstone := removing original in
  _ ← check (reject_if (negb lease) PE_RemovalRecoveryRequired);
  _ ← match original_exists, tombstone_exists with
      | true, false => validate_tree roots j original
      | false, true =>
          _ ← validate_tree roots j tombstone;
          _ ← rename_tree p tombstone original;
          _ ← validate_removal_roots p (Some j);
          _ ← validate_tree roots j original;
          sync_directory h
      | _, _ => fail PE_RemovalRecoveryRequired
      end;
  _ ← remove_removal_journal j temporaries false;
  save h (rb_expected_registry barrier).

(** The profile is gone from the registry. *)
Definition complete_removal (j : RemovalJournal) (roots : RemovalRoots)
    (original_exists tombstone_exists : bool) (temporaries : list string) : diskM () :=
  match original_exists, tombstone_exists with
  | false, true =>
      _ ← validate_partial roots j (removing (profile_id (rj_profile j)));
      finish_visible_removal j
  | false, false =>
      _ ← map_failed removal_commit_error (sync_directory h);
      remove_removal_journal j temporaries true
  | _, _ => fail PE_RemovalRecoveryRequired
  end.

Definition recover_without_journal (tombstones : list (Provider * string)) (temporaries : list string)
    : diskM () :=
  let required := fun found : bool => check (reject_if found PE_RemovalRecoveryRequired) in
  _ ← required (negb (len tombstones =? 0));
  match temporaries with
  | [] => mret ()
  | _ =>
      d ← disk;
      _ ← io h;
      _ ← check (private_directory_identity h (dr_root d));
      _ ← lock_removal_exclusive h;
      _ ← lock_exclusive h;
      barrier ← read_removal_barrier h;
      _ ← required (bool_decide (is_Some barrier));
      journal ← read_removal_journal;
      _ ← required (bool_decide (is_Some journal));
      tombstones ← removal_tombstones;
      temporaries ← removal_temporaries;
      _ ← required (negb (len tombstones =? 0));
      match temporaries with
      | [] => mret ()
      | _ => remove_stale_removal_temporary temporaries
      end
  end.

(** Which registry is visible: the old one behind its barrier, or the new. *)
Definition visible (first_barrier : option RemovalRegistryBarrier) (j : RemovalJournal) (s : RegistryState)
    : bool * bool :=
  match s with
  | RemovalBarrier barrier => (bool_decide (first_barrier = Some barrier), false)
  | Stable document =>
      (false, negb (bool_decide (is_Some first_barrier)) && target_is_absent j document)
  end.

Definition tree_path (original : string) (original_exists tombstone_exists : bool) : option string :=
  if original_exists then Some original
  else if tombstone_exists then Some (removing original) else None.

(** The recovery of the transaction of journal [j]. *)
Definition recover_with_journal (first_barrier : option RemovalRegistryBarrier)
    (first_journal : option RemovalJournal) (j : RemovalJournal)
    (tombstones : list (Provider * string)) : diskM () :=
  let p := profile_provider (rj_profile j) in
  let original := profile_id (rj_profile j) in
  let tombstone := removing original in
  let required := fun found : bool => check (reject_if found PE_RemovalRecoveryRequired) in
  _ ← check (validate_removal_artifact_set j tombstones);
  roots ← validate_removal_roots p (Some j);
  original_exists ← path_exists p original;
  tombstone_exists ← path_exists p tombstone;
  _ ← required (original_exists && tombstone_exists);
  lease ← lease_tree (tree_path original original_exists tombstone_exists) j roots;
  _ ← lock_removal_exclusive h;
  current_barrier ← read_removal_barrier h;
  current_journal ← read_removal_journal;
  if bool_decide (current_barrier = first_barrier) && bool_decide (current_journal = first_journal) then
    current_tombstones ← removal_tombstones;
    current_temporaries ← removal_temporaries;
    _ ← check (validate_removal_artifact_set j current_tombstones);
    roots ← validate_removal_roots p (Some j);
    original_exists ← path_exists p original;
    tombstone_exists ← path_exists p tombstone;
    _ ← required (original_exists && tombstone_exists);
    _ ← lock_exclusive h;
    registry_state ← read_existing_registry_state h;
    let '(old_visible, removed_visible) := visible first_barrier j registry_state in
    _ ← required (Bool.eqb old_visible removed_visible);
    if old_visible then
      match registry_state with
      | RemovalBarrier barrier =>
          restore_profile j barrier roots lease original_exists tombstone_exists current_temporaries
      | Stable _ => fail PE_RemovalRecoveryRequired
      end
    else complete_removal j roots original_exists tombstone_exists current_temporaries
  else
    match current_barrier, current_journal with
    | None, None =>
        tombstones ← removal_tombstones;
        temporaries ← removal_temporaries;
        required (negb ((len tombstones =? 0) && (len temporaries =? 0)))
    | _, _ => fail PE_RemovalRecoveryRequired
    end.

Definition recover_incomplete_removal_journaled : diskM () :=
  _ ← lock_removal_exclusive h;
  first_barrier ← read_removal_barrier h;
  first_journal ← read_removal_journal;
  tombstones ← removal_tombstones;
  temporaries ← removal_temporaries;
  effective ← check (effective_removal_journal first_barrier first_journal);
  _ ← check (reject_if (bool_decide (is_Some first_barrier) && negb (bool_decide (is_Some first_journal))
                        && negb (len tombstones =? 0)) PE_RemovalRecoveryRequired);
  match effective with
  | None => recover_without_journal tombstones temporaries
  | Some j => recover_with_journal first_barrier first_journal j tombstones
  end.

(** Whether a removal has left nothing; a read that fails is not nothing. *)
Definition removal_preflight : diskM bool :=
  barrier ← read_removal_barrier h;
  match barrier with
  | Some _ => mret false
  | None =>
      journal ← read_removal_journal;
      match journal with
      | Some _ => mret false
      | None =>
          tombstones ← removal_tombstones;
          if negb (len tombstones =? 0) then mret false
          else temporaries ← removal_temporaries; mret (len temporaries =? 0)
      end
  end.
Definition recover_incomplete_removal : diskM () :=
  _ ← io h;
  d ← disk;
  match dr_root d with
  | None => mret ()
  | Some m =>
      _ ← verify_private_directory h (Some m);
      preflight ← attempt removal_preflight;
      if bool_decide (preflight = Ok true) then mret () else recover_incomplete_removal_journaled
  end.

(** ** Removal *)

Definition removal_of (selected : Profile) (current removed : RegistryDocument) (roots : RemovalRoots)
    (tree : RemovalTreeSnapshot) : result ProfileError RemovalJournal :=
  expected_registry_digest ← registry_digest current;
  removed_registry_digest ← registry_digest removed;
  Ok (mkRemovalJournal REMOVAL_JOURNAL_SCHEMA_VERSION selected expected_registry_digest
        removed_registry_digest (rr_data_root roots) (rr_profiles_root roots) (rr_provider_root roots)
        (sn_root tree) (sn_entry_count tree) (sn_manifest_digest tree)).

(** Publication of the registry without the profile; whether it is visible is
    read back. *)
Definition publish_removed (j : RemovalJournal) (removed : RegistryDocument) : diskM () :=
  let readback :=
    document ← load h;
    matches ← check (matches_removed_registry j document);
    check (reject_if (negb matches) PE_RemovalRecoveryRequired) in
  publication ← attempt (save h removed);
  _ ← match publication with
      | Ok _ => mret ()
      | Err PE_RegistryCommitUncertain =>
          _ ← readback; map_failed removal_commit_error (sync_directory h)
      | Err error => fail error
      end;
  readback.

(** The steps between the barrier and the deletion of the tree. *)
Definition hide_profile (j : RemovalJournal) (roots : RemovalRoots) (removed : RegistryDocument) : diskM () :=
  let p := profile_provider (rj_profile j) in
  let original := profile_id (rj_profile j) in
  let tombstone := removing original in
  tombstone_exists ← path_exists p tombstone;
  _ ← check (reject_if tombstone_exists PE_RemovalRecoveryRequired);
  _ ← rename_tree p original tombstone;
  _ ← validate_removal_roots p (Some j);
  _ ← validate_tree roots j tombstone;
  _ ← sync_directory h;
  publish_removed j removed.

Definition remove (provider : Provider) (alias : string) (confirmed_profile_id : option string)
    : diskM Profile :=
  _ ← recover_incomplete_removal;
  _ ← recover_incomplete_reauth h;
  selected ← find_without_recovery h provider alias;
  _ ← check (reject_if (match confirmed_profile_id with
                        | Some expected_id => negb (String.eqb expected_id (profile_id selected))
                        | None => false
                        end) PE_NotFound);
  _ ← lock_profile h selected;
  _ ← lock_removal_exclusive h;
  _ ← lock_registry_mutation;
  current ← load h;
  profile_index ← check (ok_or (position (fun q => bool_decide (q = selected)) (registry_profiles current))
                           PE_NotFound);
  roots ← validate_removal_roots (profile_provider selected) None;
  n ← found (profile_provider selected) (profile_id selected);
  tree ← check (validate_owned_removal_tree h roots (profile_id selected) n (profile_id selected) None);
  let removed := with_profiles (remove_at profile_index (registry_profiles current)) current in
  j ← check (removal_of selected current removed roots tree);
  _ ← save_removal_barrier h (mkRemovalRegistryBarrier REMOVAL_REGISTRY_BARRIER_SCHEMA_VERSION j current);
  _ ← write_removal_journal j;
  _ ← hide_profile j roots removed;
  _ ← finish_visible_removal j;
  mret selected.
End removal.
