(* ===== verification/ProfileLogic.v ===== *)
(** * Programs over the disk that fail and die

    [spec] is what a program does from a disk with [P]: it returns in [Q], or
    it fails or dies in [R]. A read-only program is described by a pure
    function instead ([reads]): the result is that function's, unless a call
    was disturbed. Disturbances are those from a given tick of the clock on, so
    that one host can disturb one run and leave the next alone. At the end, the
    programs of the registry and of a removal that only read, each as a
    function of the disk. *)
From Stdlib Require Import Ascii.
From S2P Require Import Prelude Interfaces ConversationData ConversationStore CodexLines Profiles ProfileDisk RemovalTree ProfileRegistry ManagedHome Reauth ProfileRemoval.

Open Scope Z_scope.

(** From tick [c] on every call proceeds and no lock is held elsewhere. *)
Definition quiet (h : Host) (c : nat) : Prop :=
  ∀ n, (c ≤ n)%nat → h_fate h n = Proceeds ∧ h_locked h n = false.
Definition disturbed (h : Host) (c : nat) : Prop := ¬ quiet h c.

Definition spec {A} (c : nat) (P : DataRoot → Prop) (m : diskM A) (Q : A → DataRoot → Prop)
    (R : failure → DataRoot → Prop) : Prop :=
  ∀ w, (c ≤ w_clock w)%nat → P (w_disk w) →
    (c ≤ w_clock (snd (m w)))%nat ∧
    match m w with (Ok a, w') => Q a (w_disk w') | (Err e, w') => R e (w_disk w') end.

Definition reads {A} (h : Host) (c : nat) (m : diskM A) (f : DataRoot → result ProfileError A) : Prop :=
  ∀ w, (c ≤ w_clock w)%nat →
    (c ≤ w_clock (snd (m w)))%nat ∧ w_disk (snd (m w)) = w_disk w ∧
    (fst (m w) = map_err Failed (f (w_disk w)) ∨ disturbed h c ∧ ∃ e, fst (m w) = Err e).

Section logic.
Context (h : Host) (c : nat).
Implicit Types P : DataRoot → Prop.
Implicit Types R : failure → DataRoot → Prop.

(** ** Rules *)

Lemma spec_bind {A B} P (m : diskM A) (k : A → diskM B) M Q R :
  spec c P m M R → (∀ a, spec c (M a) (k a) Q R) → spec c P (m ≫= k) Q R.
Proof.
  intros Hm Hk w Hw HP. destruct (Hm w Hw HP) as [Hc H]. unfold mbind, stM_bind.
  destruct (m w) as [[a|e] w1]; [|by split]. by apply Hk.
Qed.
Lemma spec_ret {A} P (a : A) Q R : (∀ d, P d → Q a d) → spec c P (mret a) Q R.
Proof. intros H w Hw HP. split; [done|by apply H]. Qed.
Lemma spec_fail {A} P e (Q : A → DataRoot → Prop) R :
  (∀ d, P d → R (Failed e) d) → spec c P (fail e) Q R.
Proof. intros H w Hw HP. split; [done|by apply H]. Qed.
Lemma spec_check {A} P (r : result ProfileError A) Q R :
  (∀ a d, P d → r = Ok a → Q a d) → (∀ e d, P d → r = Err e → R (Failed e) d) →
  spec c P (check r) Q R.
Proof.
  intros HQ HR w Hw HP. split; [done|]. unfold check, lift_result. destruct r; cbn; eauto.
Qed.
Lemma spec_check_Ok {A} P (r : result ProfileError A) a Q R :
  r = Ok a → (∀ d, P d → Q a d) → spec c P (check r) Q R.
Proof. intros -> HQ. apply spec_check; naive_solver. Qed.
Lemma spec_disk P (Q : DataRoot → DataRoot → Prop) R :
  (∀ d, P d → Q d d) → spec c P disk Q R.
Proof. intros H w Hw HP. split; [done|by apply H]. Qed.
Lemma spec_conseq {A} P P' (m : diskM A) Q Q' R R' :
  spec c P' m Q' R' → (∀ d, P d → P' d) → (∀ a d, Q' a d → Q a d) → (∀ e d, R' e d → R e d) →
  spec c P m Q R.
Proof.
  intros H HP HQ HR w Hw Hd. destruct (H w Hw (HP _ Hd)) as [? Hm]. split; [done|].
  destruct (m w) as [[a|e] w']; eauto.
Qed.
Lemma spec_pre {A} P P' (m : diskM A) Q R : spec c P' m Q R → (∀ d, P d → P' d) → spec c P m Q R.
Proof. intros H HP. by eapply spec_conseq. Qed.
Lemma spec_exists {A X} (P : X → DataRoot → Prop) (m : diskM A) Q R :
  (∀ x, spec c (P x) m Q R) → spec c (fun d => ∃ x, P x d) m Q R.
Proof. intros H w Hw [x Hx]. by apply (H x). Qed.
Lemma spec_pure {A} (F : Prop) P (m : diskM A) Q R :
  (F → spec c P m Q R) → spec c (fun d => F ∧ P d) m Q R.
Proof. intros H w Hw [HF HP]. by apply H. Qed.
Lemma spec_or {A} P1 P2 (m : diskM A) Q R :
  spec c P1 m Q R → spec c P2 m Q R → spec c (fun d => P1 d ∨ P2 d) m Q R.
Proof. intros H1 H2 w Hw [HP|HP]; [by apply H1|by apply H2]. Qed.

Lemma spec_attempt {A} P (m : diskM A) Q R Q' R' :
  spec c P m Q' R' →
  (∀ a d, Q' a d → Q (Ok a) d) → (∀ e d, R' (Failed e) d → Q (Err e) d) →
  (∀ d, R' Died d → R Died d) → spec c P (attempt m) Q R.
Proof.
  intros H HQ HE HD w Hw HP. destruct (H w Hw HP) as [? Hm]. unfold attempt.
  destruct (m w) as [[a|[e|]] w']; split; cbn; eauto.
Qed.
Lemma spec_map_failed {A} P f (m : diskM A) Q R R' :
  spec c P m Q R' → (∀ e d, R' (Failed e) d → R (Failed (f e)) d) → (∀ d, R' Died d → R Died d) →
  spec c P (map_failed f m) Q R.
Proof.
  intros H HE HD. unfold map_failed.
  eapply spec_bind; [eapply (spec_attempt _ _
    (fun r d => match r with Ok a => Q a d | Err e => R (Failed (f e)) d end)); eauto|].
  intros [a|e]; apply spec_check; cbn; naive_solver.
Qed.

(** A call either proceeds or is disturbed. *)
Lemma spec_call P effect failed Q R :
  (∀ n d, P d → Q () (effect n d)) →
  (∀ n e d, disturbed h c → P d → e = Failed PE_Io ∨ e = Died → R e (failed n d)) →
  spec c P (call h effect failed) Q R.
Proof.
  intros HQ HR w Hw HP. unfold call.
  destruct (h_fate h (w_clock w)) eqn:Hf; cbn; (split; [unfold tick; cbn; lia|]); [by apply HQ|..];
    (apply HR; [|done|by auto]); intros Hq; destruct (Hq _ Hw); congruence.
Qed.
Lemma spec_change P f Q R :
  (∀ d, P d → Q () (f d)) →
  (∀ e d, disturbed h c → P d → e = Failed PE_Io ∨ e = Died → R e d) →
  spec c P (change h f) Q R.
Proof. intros. by apply spec_call. Qed.
Lemma spec_new_v4 P Q R : (∀ n d, (c ≤ n)%nat → P d → Q (h_new_v4 h n) d) → spec c P (new_v4 h) Q R.
Proof. intros H w Hw HP. unfold new_v4. run_st. cbn. split; [lia|by apply H]. Qed.

(** ** Programs that only read *)

Lemma reads_io : reads h c (io h) (fun _ => Ok ()).
Proof.
  intros w Hw. unfold io, call, unchanged. destruct (h_fate h (w_clock w)) eqn:Hf; cbn;
    (split; [unfold tick; cbn; lia|]); (split; [done|]); [by left|..]; right;
    (split; [intros Hq; destruct (Hq _ Hw); congruence|by eexists]).
Qed.
Lemma reads_ret {A} (a : A) : reads h c (mret a) (fun _ => Ok a).
Proof. intros w Hw. by split_and!; [..|left]. Qed.
Lemma reads_fail {A} e : reads h c (fail e : diskM A) (fun _ => Err e).
Proof. intros w Hw. by split_and!; [..|left]. Qed.
Lemma reads_check {A} (r : result ProfileError A) : reads h c (check r) (fun _ => r).
Proof. intros w Hw. by split_and!; [..|left]. Qed.
Lemma reads_disk : reads h c disk Ok.
Proof. intros w Hw. by split_and!; [..|left]. Qed.
Lemma reads_bind {A B} (m : diskM A) (k : A → diskM B) f g :
  reads h c m f → (∀ a, reads h c (k a) (g a)) → reads h c (m ≫= k) (fun d => a ← f d; g a d).
Proof.
  intros Hm Hk w Hw. destruct (Hm w Hw) as (Hc & Hd & Hr). 
  change ((m ≫= k) w) with (match m w with (Ok a, w1) => k a w1 | (Err e, w1) => (Err e, w1) end).
  destruct (m w) as [[a|e] w1]; cbn in *.
  - destruct (Hk a w1 Hc) as (Hc1 & Hd1 & Hr1). split_and!; [done|congruence|].
    destruct Hr as [Hr|[Hf [? ?]]]; [|done].
    destruct (f (w_disk w)) as [a'|]; [|done]. injection Hr as ->. rewrite <- Hd.
    destruct Hr1 as [->|?]; [by left|by right].
  - split_and!; [done..|]. destruct Hr as [Hr|[? _]]; [left|right; split; [done|by eexists]].
    destruct (f (w_disk w)); [done|]. by injection Hr as ->.
Qed.
Lemma reads_ext {A} (m : diskM A) f g : reads h c m f → (∀ d, f d = g d) → reads h c m g.
Proof. intros Hm He w Hw. rewrite <- He. by apply Hm. Qed.
Lemma reads_map_failed {A} e (m : diskM A) f :
  reads h c m f → reads h c (map_failed e m) (fun d => map_err e (f d)).
Proof.
  intros Hm w Hw. destruct (Hm w Hw) as (Hc & Hd & Hr). unfold map_failed, attempt, mbind, stM_bind.
  destruct (m w) as [[a|[x|]] w1]; cbn in *; (split_and!; [done..|]).
  - left. destruct Hr as [Hr|(_ & ? & ?)]; [|done]. destruct (f (w_disk w)); naive_solver.
  - destruct Hr as [Hr|[Hf _]]; [left|right; split; [done|by eexists]].
    destruct (f (w_disk w)); naive_solver.
  - destruct Hr as [Hr|[Hf _]]; [|right; split; [done|by eexists]]. destruct (f (w_disk w)); done.
Qed.
Lemma reads_run {A} (m : DataRoot → diskM A) f :
  (∀ d, reads h c (m d) (f d)) → reads h c (d ← disk; m d) (fun d => f d d).
Proof. intros Hm. apply (reads_bind disk m Ok f); [apply reads_disk|done]. Qed.
Lemma reads_seq {A} (k : diskM A) f : reads h c k f → reads h c (_ ← io h; k) f.
Proof. intros Hk. apply (reads_bind (io h) (fun _ => k) (fun _ => Ok ()) (fun _ => f)); [apply reads_io|done]. Qed.
Lemma reads_view {A} (f : DataRoot → result ProfileError A) :
  reads h c (_ ← io h; d ← disk; check (f d)) f.
Proof. apply reads_seq, (reads_run _ (fun d _ => f d)). intros d. apply reads_check. Qed.
Lemma reads_see {A} (f : DataRoot → A) :
  reads h c (_ ← io h; d ← disk; mret (f d)) (fun d => Ok (f d)).
Proof. apply reads_seq, (reads_run _ (fun d _ => Ok (f d))). intros d. apply reads_ret. Qed.
(** A result that was rejected or that goes on. *)
Lemma reads_check_bind {A B} (r : result ProfileError A) (k : A → diskM B) g :
  (∀ a, reads h c (k a) (g a)) → reads h c (a ← check r; k a) (fun d => a ← r; g a d).
Proof. apply (reads_bind (check r) k (fun _ => r) g), reads_check. Qed.

(** Using one in a specification. *)
Lemma spec_reads {A} P (m : diskM A) f Q R :
  reads h c m f →
  (∀ a d, P d → f d = Ok a → Q a d) →
  (∀ e d, P d → f d = Err e → R (Failed e) d) →
  (∀ e d, disturbed h c → P d → R e d) → spec c P m Q R.
Proof.
  intros Hm HQ HE HD w Hw HP. destruct (Hm w Hw) as (Hc & Hd & Hr).
  destruct (m w) as [r w'] eqn:Hmw; cbn in *. split; [done|]. rewrite Hd.
  destruct Hr as [->|[Hf [e ->]]]; [|by apply HD].
  destruct (f (w_disk w)) eqn:Hfw; cbn; eauto.
Qed.
Lemma spec_reads_attempt {A} P (m : diskM A) f (Q : result ProfileError A → DataRoot → Prop) R :
  reads h c m f →
  (∀ d, P d → Q (f d) d) → (∀ e d, disturbed h c → P d → Q (Err e) d) →
  (∀ d, disturbed h c → P d → R Died d) → spec c P (attempt m) Q R.
Proof.
  intros Hm HQ HE HD. eapply (spec_attempt _ _ _ _ (fun a d => P d ∧ f d = Ok a)
    (fun e d => (∃ x, e = Failed x ∧ P d ∧ f d = Err x) ∨ disturbed h c ∧ P d)).
  - eapply spec_reads; eauto 10.
  - intros a d [Hd Ha]. rewrite <- Ha. by apply HQ.
  - intros e d [(x & [= <-] & Hd & Hx)|[Hf Hd]]; [rewrite <- Hx; by apply HQ|by apply HE].
  - intros d [(x & ? & _)|[Hf Hd]]; [done|by apply HD].
Qed.
(** ** Running a program from one disk *)

(** A read whose value is known, and one that may have any. *)
Lemma spec_see {A B} d (m : diskM A) f a (k : A → diskM B) Q R :
  reads h c m f → f d = Ok a → (∀ e, disturbed h c → R e d) → spec c (eq d) (k a) Q R →
  spec c (eq d) (m ≫= k) Q R.
Proof.
  intros Hm Hf HR Hk. eapply spec_bind with (M := fun a' d' => a' = a ∧ d = d').
  - eapply spec_reads; [done|..]; intros ? d' *; [intros <-|intros <-|intros Hd <-; by apply HR];
      rewrite Hf; [by intros [= <-]|done].
  - intros a'. apply spec_pure. by intros ->.
Qed.
Lemma spec_look {A B} d (m : diskM A) f (k : A → diskM B) Q R :
  reads h c m f → (∀ e, R e d) → (∀ a, f d = Ok a → spec c (eq d) (k a) Q R) →
  spec c (eq d) (m ≫= k) Q R.
Proof.
  intros Hm HR Hk. eapply spec_bind with (M := fun a d' => f d = Ok a ∧ d = d').
  - eapply spec_reads; [done|..]; intros ? d' *; [by intros <-|intros <- _; apply HR|intros _ <-; apply HR].
  - intros a. apply spec_pure. intros Ha. by apply Hk.
Qed.
(** The same of a read whose error is caught. *)
Lemma spec_see_attempt {A B} d (m : diskM A) f (k : result ProfileError A → diskM B) Q R :
  reads h c m f → (∀ e, disturbed h c → R e d) → spec c (eq d) (k (f d)) Q R →
  (∀ e, disturbed h c → spec c (eq d) (k (Err e)) Q R) →
  spec c (eq d) (attempt m ≫= k) Q R.
Proof.
  intros Hm HR Hk He.
  eapply spec_bind with (M := fun r d' => (r = f d ∨ disturbed h c ∧ ∃ e, r = Err e) ∧ d = d').
  - eapply spec_reads_attempt; [done|intros d' <-; auto|intros e d' Hd <-; eauto 6|].
    intros d' Hd <-. by apply HR.
  - intros r. apply spec_pure. intros [->|[Hd [e ->]]]; [done|by apply He].
Qed.
Lemma spec_checked {A B} P (r : result ProfileError A) a (k : A → diskM B) Q R :
  r = Ok a → spec c P (k a) Q R → spec c P (check r ≫= k) Q R.
Proof.
  intros Hr Hk. eapply spec_bind with (M := fun a' d' => a' = a ∧ P d').
  - by apply (spec_check_Ok _ _ a).
  - intros a'. apply spec_pure. by intros ->.
Qed.
Lemma spec_guard {A B} P (r : result ProfileError A) (k : A → diskM B) Q R :
  (∀ e d, r = Err e → P d → R (Failed e) d) → (∀ a, r = Ok a → spec c P (k a) Q R) →
  spec c P (check r ≫= k) Q R.
Proof.
  intros HR Hk. eapply spec_bind with (M := fun a d' => r = Ok a ∧ P d').
  - apply spec_check; [by auto|]. intros e d HP He. by apply (HR e).
  - intros a. apply spec_pure, Hk.
Qed.
(** A call that changes the disk and a program from the disk it leaves. *)
Lemma spec_bind_change {B} d f (k : () → diskM B) Q R :
  (∀ e, disturbed h c → R e d) → spec c (eq (f d)) (k ()) Q R →
  spec c (eq d) (change h f ≫= k) Q R.
Proof.
  intros HR Hk. eapply spec_bind with (M := fun _ d' => f d = d'); [|by intros []].
  apply spec_change; [by intros d' <-|]. intros e d' Hd <- _. by apply HR.
Qed.
Lemma spec_weaken {A} P (m : diskM A) (Q Q' : A → DataRoot → Prop) (R R' : failure → DataRoot → Prop) :
  spec c P m Q' R' → (∀ a d, Q' a d → Q a d) → (∀ e d, R' e d → R e d) → spec c P m Q R.
Proof. intros H HQ HR. by eapply spec_conseq. Qed.
Lemma spec_each {A} P (m : diskM A) Q R :
  (∀ d, P d → spec c (eq d) m Q R) → spec c P m Q R.
Proof. intros H w Hw HP. by apply (H _ HP w). Qed.
End logic.

(** ** What the read-only programs see *)

Section reads.
Context {UC : UuidCrate} {SC : Sha256Crate} {RH : RegistryHeader} {TC : TomlCrate} {RJ : ReauthJson}.
Context {JR : JsonCodec RegistryDocument} {JB : JsonCodec RemovalRegistryBarrier}.
Context {JM : JsonCodec RemovalJournal} {JJ : JsonCodec ReauthJournal}.
Context (h : Host) (c : nat).

Definition verified (strict : bool) (max : Z) (n : option Node) : result ProfileError bytes :=
  _ ← (if strict then private_single_link_regular h n else private_regular h n);
  match n with
  | Some (RegularFile _ content) => Ok (take (Z.to_nat (max + 1)) content)
  | _ => Err PE_UnsafeState
  end.
Definition registry_of (d : DataRoot) : result ProfileError RegistryState :=
  match dr_files d !! REGISTRY_FILE with
  | None => Ok (Stable default_registry)
  | n => b ← verified false MAX_REMOVAL_REGISTRY_BARRIER_BYTES n; decode_registry_state b
  end.
Definition existing_of (d : DataRoot) : result ProfileError RegistryState :=
  map_err (fun _ => PE_RemovalRecoveryRequired)
    (b ← verified true MAX_REMOVAL_REGISTRY_BARRIER_BYTES (dr_files d !! REGISTRY_FILE);
     decode_registry_state b).
Definition stable_of (s : RegistryState) : result ProfileError RegistryDocument :=
  match s with Stable document => Ok document | RemovalBarrier _ => Err PE_RemovalRecoveryRequired end.
Definition barrier_of (s : RegistryState) : option RemovalRegistryBarrier :=
  match s with Stable _ => None | RemovalBarrier barrier => Some barrier end.
Definition journal_of (d : DataRoot) : result ProfileError (option RemovalJournal) :=
  match dr_files d !! REMOVAL_JOURNAL_FILE with
  | None => Ok None
  | n =>
      b ← map_err (fun _ => PE_RemovalRecoveryRequired) (verified true MAX_REMOVAL_JOURNAL_BYTES n);
      _ ← reject_if (MAX_REMOVAL_JOURNAL_BYTES <? len b) PE_RemovalRecoveryRequired;
      journal ← ok_or (from_slice b) PE_RemovalRecoveryRequired;
      _ ← validate_journal journal;
      Ok (Some journal)
  end.
Definition tombstones_in (d : DataRoot) : result ProfileError (list (Provider * string)) :=
  found ← tombstones_of h Claude [] d; tombstones_of h Codex found d.
Definition temporaries_in (d : DataRoot) : result ProfileError (list string) :=
  fold_result (temporary_step h) [] (map_to_list (dr_files d)).
Definition tree_at (roots : RemovalRoots) (j : RemovalJournal) (name : string) (d : DataRoot)
    : result ProfileError () :=
  _ ← validate_owned_removal_tree h roots name (profile_entry (profile_provider (rj_profile j)) name d)
        (profile_id (rj_profile j)) (Some (tree_snapshot j));
  Ok ().
Definition partial_at (roots : RemovalRoots) (j : RemovalJournal) (name : string) (d : DataRoot)
    : result ProfileError () :=
  _ ← validate_partial_owned_tombstone h roots name (profile_entry (profile_provider (rj_profile j)) name d)
        (profile_id (rj_profile j)) (rj_profile_tree j);
  Ok ().

Lemma root_file_reads name : reads h c (root_file h name) (fun d => Ok (dr_files d !! name)).
Proof. apply reads_see. Qed.
Lemma read_verified_reads strict max n :
  reads h c (read_verified h strict max n) (fun _ => verified strict max n).
Proof.
  apply reads_seq. eapply (reads_check_bind h c _ _ (fun _ _ => _)). intros [].
  destruct n as [[]|]; first [apply reads_fail|apply reads_ret].
Qed.
Lemma read_registry_reads : reads h c (read_registry_state h) registry_of.
Proof.
  eapply reads_ext.
  - eapply reads_bind; [apply root_file_reads|]. intros n.
    instantiate (1 := fun n _ => match n with
      | None => Ok (Stable default_registry)
      | n => b ← verified false MAX_REMOVAL_REGISTRY_BARRIER_BYTES n; decode_registry_state b end).
    destruct n; [|apply reads_ret]. eapply (reads_bind h c _ _ _ (fun b _ => _)); [apply read_verified_reads|].
    intros b. apply reads_check.
  - intros d. unfold registry_of. cbn [mbind result_bind]. by destruct (_ !! _).
Qed.
Lemma load_reads : reads h c (load h) (fun d => s ← registry_of d; stable_of s).
Proof.
  eapply (reads_bind h c _ _ _ (fun s _ => _)); [apply read_registry_reads|]. intros [document|barrier];
    [apply reads_ret|apply reads_fail].
Qed.
Lemma read_removal_barrier_reads :
  reads h c (read_removal_barrier h) (fun d => s ← registry_of d; Ok (barrier_of s)).
Proof.
  eapply (reads_bind h c _ _ _ (fun s _ => _)); [apply read_registry_reads|]. intros s. apply reads_ret.
Qed.
Lemma read_existing_reads : reads h c (read_existing_registry_state h) existing_of.
Proof.
  apply reads_map_failed. eapply reads_ext.
  - eapply reads_bind; [apply root_file_reads|]. intros n.
    eapply (reads_bind h c _ _ _ (fun b _ => decode_registry_state b)); [apply read_verified_reads|].
    intros b. apply reads_check.
  - done.
Qed.
Lemma read_journal_reads : reads h c (read_removal_journal h) journal_of.
Proof.
  eapply reads_ext.
  - eapply reads_bind; [apply root_file_reads|]. intros n.
    instantiate (1 := fun n _ => match n with
      | None => Ok None
      | n =>
          b ← map_err (fun _ => PE_RemovalRecoveryRequired) (verified true MAX_REMOVAL_JOURNAL_BYTES n);
          _ ← reject_if (MAX_REMOVAL_JOURNAL_BYTES <? len b) PE_RemovalRecoveryRequired;
          journal ← ok_or (from_slice b) PE_RemovalRecoveryRequired;
          _ ← validate_journal journal;
          Ok (Some journal) end).
    destruct n; [|apply reads_ret]. eapply (reads_bind h c _ _ _ (fun b _ => _)).
    + apply reads_map_failed, read_verified_reads.
    + intros b. apply reads_check.
  - intros d. unfold journal_of. cbn [mbind result_bind]. by destruct (_ !! _).
Qed.
Lemma tombstones_reads : reads h c (removal_tombstones h) tombstones_in.
Proof. apply reads_view. Qed.
Lemma temporaries_reads : reads h c (removal_temporaries h) temporaries_in.
Proof. apply reads_view. Qed.
Lemma roots_reads provider expected :
  reads h c (validate_removal_roots h provider expected) (removal_roots h provider expected).
Proof. apply reads_view. Qed.
Lemma found_reads p name : reads h c (found h p name) (fun d => Ok (profile_entry p name d)).
Proof. apply reads_see. Qed.
Lemma reads_found {B} p name (k : option Node → diskM B) g :
  (∀ n, reads h c (k n) (fun _ => g n)) →
  reads h c (n ← found h p name; k n) (fun d => g (profile_entry p name d)).
Proof. apply (reads_bind h c (found h p name) k (fun d => Ok (profile_entry p name d)) (fun n _ => g n)), found_reads. Qed.
Lemma path_exists_reads p name :
  reads h c (path_exists h p name) (fun d => Ok (bool_decide (is_Some (profile_entry p name d)))).
Proof.
  set (g := fun n : option Node => Ok (E := ProfileError) (bool_decide (is_Some n))).
  apply (reads_found p name _ g). intros n. apply reads_ret.
Qed.
Lemma validate_tree_reads roots j name : reads h c (validate_tree h roots j name) (tree_at roots j name).
Proof.
  apply (reads_found _ name _ (fun n => _ ← validate_owned_removal_tree h roots name n
    (profile_id (rj_profile j)) (Some (tree_snapshot j)); Ok ())). intros n.
  apply (reads_check_bind h c _ _ (fun _ _ => Ok ())). intros sn. apply reads_ret.
Qed.
Lemma validate_partial_reads roots j name :
  reads h c (validate_partial h roots j name) (partial_at roots j name).
Proof.
  apply (reads_found _ name _ (fun n => _ ← validate_partial_owned_tombstone h roots name n
    (profile_id (rj_profile j)) (rj_profile_tree j); Ok ())). intros n.
  apply (reads_check_bind h c _ _ (fun _ _ => Ok ())). intros sn. apply reads_ret.
Qed.
End reads.
