(* ===== verification/RemovalTreeProofs.v ===== *)
(** * Properties of profile trees

    The walk over a tree accepts it exactly when every entry is safe, whatever
    the order of the entries, and counts its entries; its fuel is enough. Safety
    and the bounds survive the removal of entries ([pruned]), which is what an
    interrupted deletion leaves. *)
From Stdlib Require Import Ascii.
From S2P Require Import Prelude Interfaces ConversationData ConversationStore CodexLines Profiles ProfileDisk RemovalTree.

Open Scope Z_scope.

(** ** What an interrupted deletion leaves of the entries of a directory *)

Inductive pruned : Entries → Entries → Prop :=
| pruned_refl es : pruned es es
| pruned_drop e es es' : pruned es es' → pruned (e :: es) es'
| pruned_keep e es es' : pruned es es' → pruned (e :: es) (e :: es')
| pruned_in x m ces ces' es es' :
    pruned ces ces' → pruned es es' → pruned ((x, Directory m ces) :: es) ((x, Directory m ces') :: es').

Lemma pruned_nil es : pruned es [].
Proof. induction es; by constructor. Qed.

Lemma pruned_trans es1 es2 es3 : pruned es1 es2 → pruned es2 es3 → pruned es1 es3.
Proof.
  intros H. revert es3; induction H as [|e es1 es2 H IH|e es1 es2 H IH|x m ces ces' es1 es2 Hc IHc H IH];
    intros es3 H3; [done|by apply pruned_drop, IH|..]; inversion H3; subst.
  - by apply pruned_keep.
  - by apply pruned_drop, IH.
  - by apply pruned_keep, IH.
  - apply pruned_in; auto.
  - by apply pruned_in.
  - by apply pruned_drop, IH.
  - apply pruned_in; auto.
  - apply pruned_in; auto.
Qed.

Lemma size_cons e es : entries_size (e :: es) = S (node_size (snd e) + entries_size es).
Proof. done. Qed.
Lemma size_directory m es : node_size (Directory m es) = entries_size es.
Proof. done. Qed.
Lemma pruned_size es es' : pruned es es' → (entries_size es' ≤ entries_size es)%nat.
Proof.
  induction 1 as [|e es es' H IH|e es es' H IH|x m ces ces' es es' Hc IHc H IH];
    rewrite ?size_cons; cbn [snd]; rewrite ?size_directory; lia.
Qed.
Lemma pruned_names es es' : pruned es es' → es'.*1 `sublist_of` es.*1.
Proof.
  induction 1; cbn [fmap list_fmap fst]; [done|by apply sublist_cons|by apply sublist_skip..].
Qed.

Lemma lookup_entry_cons x y n es :
  lookup_entry x ((y, n) :: es) = if String.eqb y x then Some n else lookup_entry x es.
Proof. unfold lookup_entry. cbn. by destruct (String.eqb y x). Qed.
Lemma lookup_entry_in x es n : lookup_entry x es = Some n → (x, n) ∈ es.
Proof.
  induction es as [|[y e] es IH]; [done|]. rewrite lookup_entry_cons.
  destruct (String.eqb_spec y x) as [->|]; [intros [= ->]; by left|]. right. by apply IH.
Qed.
Lemma lookup_entry_name x es n : lookup_entry x es = Some n → x ∈ es.*1.
Proof. intros H%lookup_entry_in. apply list_elem_of_fmap. by exists (x, n). Qed.

(** What is left under a name was there, unless it is a directory, of which
    entries may be gone. *)
Lemma pruned_lookup es es' x n' :
  pruned es es' → NoDup es.*1 → lookup_entry x es' = Some n' →
  ∃ n, lookup_entry x es = Some n ∧
    (n = n' ∨ ∃ m ces ces', n = Directory m ces ∧ n' = Directory m ces').
Proof.
  intros H. induction H as [|[y e] es es' H IH|[y e] es es' H IH|y m ces ces' es es' Hc IHc H IH];
    rewrite ?lookup_entry_cons; cbn [fmap list_fmap fst].
  - intros _ ->. eauto.
  - intros [Hy Hn]%NoDup_cons Hx. destruct (String.eqb_spec y x) as [->|Hne]; [|by apply IH].
    exfalso. apply Hy. eapply elem_of_sublist; [by eapply lookup_entry_name|by apply pruned_names].
  - intros [Hy Hn]%NoDup_cons. destruct (String.eqb_spec y x) as [->|Hne]; [|by apply IH].
    intros [= ->]. eauto.
  - intros [Hy Hn]%NoDup_cons. destruct (String.eqb_spec y x) as [->|Hne]; [|by apply IH].
    intros [= <-]. eauto 10.
Qed.

Section tree_proofs.
Context {SC : Sha256Crate} (h : Host).
Implicit Types roots : RemovalRoots.

(** ** Safe trees *)

(** Every entry passes its checks and no directory is below the limit. *)
Inductive safe roots : Z → Entries → Prop :=
| safe_nil depth : safe roots depth []
| safe_entry depth x n es :
    check_entry h roots n = Ok () → is_directory n = false → safe roots depth es →
    safe roots depth ((x, n) :: es)
| safe_directory depth x m ces es :
    check_entry h roots (Directory m ces) = Ok () → depth + 1 ≤ MAX_REMOVAL_TREE_DEPTH →
    safe roots (depth + 1) ces → safe roots depth es →
    safe roots depth ((x, Directory m ces) :: es).

Lemma check_entry_directory roots m ces ces' :
  check_entry h roots (Directory m ces) = check_entry h roots (Directory m ces').
Proof. done. Qed.

Lemma safe_pruned roots depth es es' : safe roots depth es → pruned es es' → safe roots depth es'.
Proof.
  intros Hs Hp. revert depth Hs.
  induction Hp as [|e es es' H IH|e es es' H IH|x m ces ces' es es' Hc IHc H IH]; intros depth Hs; [done|..].
  - inversion Hs; subst; by apply IH.
  - inversion Hs; subst; [apply safe_entry; auto|apply safe_directory; auto].
  - inversion Hs as [|????? Hd|]; subst; [done|]. apply safe_directory; auto.
Qed.

(** ** The budget *)

Lemma consume_entry_Ok b b' :
  consume_entry b = Ok b' →
  1 ≤ remaining_entries b ∧ remaining_entries b' = remaining_entries b - 1 ∧
  consumed_entries b' = consumed_entries b + 1 ∧ max_depth b' = max_depth b.
Proof.
  unfold consume_entry. intros H. inv_ok. inv_bool. unfold checked_add_u in *. case_match; simplify_eq.
  cbn. lia.
Qed.
Lemma consume_entry_intro b :
  1 ≤ remaining_entries b → consumed_entries b + 1 ≤ u64_max →
  consume_entry b = Ok (mkRemovalTraversalBudget (remaining_entries b - 1) (consumed_entries b + 1) (max_depth b)).
Proof.
  intros H1 H2. unfold consume_entry, checked_add_u.
  rewrite (proj2 (Z.ltb_ge _ 0)) by lia. cbn. by rewrite (proj2 (Z.leb_le _ _)).
Qed.
Definition spent (n : Z) (b b' : RemovalTraversalBudget) : Prop :=
  0 ≤ remaining_entries b' ∧
  remaining_entries b' = remaining_entries b - n ∧ consumed_entries b' = consumed_entries b + n ∧
  max_depth b' = max_depth b.
Lemma spent_trans n n' b1 b2 b3 : spent n b1 b2 → spent n' b2 b3 → spent (n + n') b1 b3.
Proof. unfold spent. intros (?&?&?&?) (?&?&?&?). split_and!; [lia|lia|lia|congruence]. Qed.

Lemma consume_all_Ok (es : Entries) b b' :
  0 ≤ remaining_entries b → fold_result (fun b (_ : string * Node) => consume_entry b) b es = Ok b' → spent (len es) b b'.
Proof.
  revert b; induction es as [|e es IH]; intros b Hb; cbn [fold_result].
  { intros [= <-]. unfold spent, len. cbn. lia. }
  intros (b1 & H1%consume_entry_Ok & H)%bind_Ok. apply IH in H; [|lia]. unfold spent, len in *. cbn [length].
  destruct H as (?&?&?&?), H1 as (?&?&?&?). split_and!; [lia|lia|lia|congruence].
Qed.
Lemma consume_all_intro (es : Entries) b :
  len es ≤ remaining_entries b → consumed_entries b + len es ≤ u64_max →
  ∃ b', fold_result (fun b (_ : string * Node) => consume_entry b) b es = Ok b' ∧ spent (len es) b b'.
Proof.
  revert b; induction es as [|e es IH]; intros b; unfold len in *; cbn [fold_result length] in *; intros H1 H2.
  { exists b. split; [done|]. unfold spent. cbn. lia. }
  rewrite consume_entry_intro by lia. cbn [mbind result_bind].
  destruct (IH (mkRemovalTraversalBudget (remaining_entries b - 1) (consumed_entries b + 1) (max_depth b)))
    as (b' & -> & Hs); cbn; [lia|lia|]. exists b'. split; [done|]. unfold spent in *. cbn in Hs. lia.
Qed.

Lemma child_depth_Ok b depth d :
  child_depth b depth = Ok d → d = depth + 1 ∧ depth + 1 ≤ max_depth b.
Proof.
  unfold child_depth, checked_add_u. intros H. inv_ok. inv_bool. case_match; simplify_eq. lia.
Qed.
Lemma child_depth_intro b depth :
  depth + 1 ≤ max_depth b → max_depth b ≤ u64_max → child_depth b depth = Ok (depth + 1).
Proof.
  intros. unfold child_depth, checked_add_u. rewrite (proj2 (Z.leb_le _ _)) by lia. cbn.
  by rewrite (proj2 (Z.ltb_ge _ _)) by lia.
Qed.

(** ** The walk *)

Definition entry_safe roots (depth : Z) (e : string * Node) : Prop :=
  check_entry h roots (snd e) = Ok () ∧
  match snd e with
  | Directory _ ces => depth + 1 ≤ MAX_REMOVAL_TREE_DEPTH ∧ safe roots (depth + 1) ces
  | _ => True
  end.
Lemma safe_Forall roots depth es : safe roots depth es ↔ Forall (entry_safe roots depth) es.
Proof.
  split.
  - induction 1 as [|depth x n es Hc Hd _ IH|depth x m ces es Hc Hd Hs _ _ IH]; constructor; try done.
    split; [done|]. by destruct n.
  - induction 1 as [|[x n] es [Hc Hn] _ IH]; [constructor|]. cbn in *.
    destruct n as [m b|m ces|m b]; [by apply safe_entry| |by apply safe_entry].
    destruct Hn. by apply safe_directory.
Qed.

Lemma check_entry_check_directory roots m ces :
  check_entry h roots (Directory m ces) = Ok () ↔ check_directory h roots m = Ok ().
Proof.
  unfold check_entry, check_directory. cbn [node_meta is_directory removal_entry_kind].
  rewrite !bind_unit_Ok, !reject_if_Ok, !orb_false_iff. cbn. naive_solver.
Qed.

Definition child_pending (path : string) (depth : Z) (e : string * Node) : list Pending :=
  match snd e with
  | Directory m ces => [mkPending (join path (fst e)) m ces (depth + 1)]
  | _ => []
  end.
Definition sizes (pending : list Pending) : nat :=
  foldr (fun p total => entries_size (pd_entries p) + total)%nat 0%nat pending.
Lemma sizes_cons p l : sizes (p :: l) = (entries_size (pd_entries p) + sizes l)%nat.
Proof. done. Qed.
Lemma sizes_app l1 l2 : sizes (l1 ++ l2) = (sizes l1 + sizes l2)%nat.
Proof.
  induction l1 as [|p l1 IH]; [done|]. change ((p :: l1) ++ l2) with (p :: (l1 ++ l2)).
  rewrite !sizes_cons, IH. lia.
Qed.
Lemma size_children path depth es :
  entries_size es = (length es + sizes (es ≫= child_pending path depth))%nat.
Proof.
  induction es as [|[x n] es IH]; [done|]. rewrite size_cons. cbn [mbind list_bind length].
  rewrite sizes_app, IH. unfold child_pending at 2. cbn [snd fst].
  destruct n; rewrite ?sizes_cons, ?size_directory; cbn [node_size pd_entries];
    change (sizes []) with 0%nat; lia.
Qed.
Lemma children_count path depth es :
  (length (es ≫= child_pending path depth) ≤ length es)%nat.
Proof.
  induction es as [|[x n] es IH]; [done|]. cbn [mbind list_bind]. rewrite length_app.
  destruct n; cbn; lia.
Qed.
#[local] Instance entries_size_perm : Proper ((≡ₚ) ==> eq) entries_size.
Proof. induction 1; rewrite ?size_cons; cbn in *; lia. Qed.

Lemma entry_steps_Ok roots b directory l manifest acc manifest' acc' :
  fold_result (entry_step h roots b directory) (manifest, acc) l = Ok (manifest', acc') →
  acc' = acc ++ (l ≫= child_pending (pd_path directory) (pd_depth directory)) ∧
  Forall (fun e => check_entry h roots (snd e) = Ok () ∧
    (is_directory (snd e) = true → pd_depth directory + 1 ≤ max_depth b)) l.
Proof.
  revert manifest acc; induction l as [|[x n] l IH]; intros manifest acc; cbn [fold_result].
  { intros [= -> ->]. by rewrite app_nil_r. }
  intros ([manifest1 acc1] & H1 & H)%bind_Ok. apply IH in H as [-> Hl]. clear IH.
  unfold entry_step in H1. apply bind_Ok in H1 as ([] & Hc & H1). cbn [mbind list_bind].
  unfold child_pending at 2. cbn [snd fst].
  destruct n as [m content|m ces|m symlink].
  - injection H1 as <- <-. split; [done|by constructor].
  - apply bind_Ok in H1 as (depth & [-> Hd]%child_depth_Ok & H1). injection H1 as <- <-.
    split; [by rewrite <- app_assoc|by constructor].
  - injection H1 as <- <-. split; [done|by constructor].
Qed.
Lemma entry_steps_intro roots b directory l manifest acc :
  max_depth b ≤ u64_max →
  Forall (fun e => check_entry h roots (snd e) = Ok () ∧
    (is_directory (snd e) = true → pd_depth directory + 1 ≤ max_depth b)) l →
  ∃ manifest', fold_result (entry_step h roots b directory) (manifest, acc) l =
    Ok (manifest', acc ++ (l ≫= child_pending (pd_path directory) (pd_depth directory))).
Proof.
  intros Hb H. revert manifest acc; induction H as [|[x n] l [Hc Hd] _ IH]; intros manifest acc.
  { exists manifest. cbn. by rewrite app_nil_r. }
  cbn [fold_result mbind list_bind].
  assert (entry_step h roots b directory (manifest, acc) (x, n) =
    Ok (update_removal_manifest manifest (join (pd_path directory) x) n,
        acc ++ child_pending (pd_path directory) (pd_depth directory) (x, n))) as ->.
  { unfold entry_step, child_pending. cbn [snd fst] in *. rewrite Hc. cbn [mbind result_bind].
    destruct n as [m content|m ces|m symlink]; rewrite ?app_nil_r; [done| |done].
    by rewrite child_depth_intro by auto. }
  cbn [mbind result_bind]. edestruct IH as [manifest' ->]. exists manifest'. by rewrite <- app_assoc.
Qed.

Definition ready roots (p : Pending) : Prop :=
  check_directory h roots (pd_meta p) = Ok () ∧ safe roots (pd_depth p) (pd_entries p).

Lemma ready_children roots path depth es :
  Forall (fun e => check_entry h roots (snd e) = Ok () ∧
    (is_directory (snd e) = true → depth + 1 ≤ MAX_REMOVAL_TREE_DEPTH)) es →
  Forall (ready roots) (es ≫= child_pending path depth) ↔ safe roots depth es.
Proof.
  rewrite safe_Forall. induction 1 as [|[x n] es [Hc Hd] _ IH]; [done|]. cbn [mbind list_bind].
  rewrite Forall_app, IH, Forall_cons. unfold entry_safe, child_pending, ready. cbn [snd fst] in *.
  destruct n as [m content|m ces|m symlink]; rewrite ?Forall_nil, ?Forall_singleton; cbn; [naive_solver| |naive_solver].
  rewrite <- (check_entry_check_directory _ _ ces). naive_solver.
Qed.

Lemma walk_sound fuel roots b manifest pending b' manifest' :
  0 ≤ remaining_entries b → max_depth b = MAX_REMOVAL_TREE_DEPTH →
  walk h fuel roots b manifest pending = Some (Ok (b', manifest')) →
  Forall (ready roots) pending ∧ spent (Z.of_nat (sizes pending)) b b'.
Proof.
  revert b manifest pending; induction fuel as [|fuel IH]; intros b manifest [|directory pending] Hb Hm; cbn [walk];
    try (intros [= <- <-]; split; [done|]; unfold spent; cbn; lia); [done|].
  destruct (visit_directory _ _ _ _ _) as [[[b1 manifest1] children]|] eqn:Hv; [|done].
  unfold visit_directory in Hv. inv_ok. destruct a1 as [manifest2 children2]. inv_ok. simplify_eq.
  destruct (entry_steps_Ok _ _ _ _ _ _ _ _ Hok1) as [-> Hall]. cbn [app] in *.
  apply consume_all_Ok in Hok0 as Hs; [|done].
  assert (max_depth b1 = MAX_REMOVAL_TREE_DEPTH) as Hm1 by (destruct Hs as (_ & _ & _ & ->); done).
  rewrite Hm1 in Hall. destruct Hs as (Hr & Hs).
  intros H. apply IH in H as [Hp Hw]; [|done..]. apply Forall_app in Hp as [Hc Hp].
  rewrite (ready_children _ _ _ _ Hall), (safe_Forall roots), (sort_by_perm entry_le), <- safe_Forall in Hc.
  rewrite sizes_app in Hw.
  pose proof (size_children (pd_path directory) (pd_depth directory)
    (sort_by entry_le (pd_entries directory))) as Hsize.
  rewrite (sort_by_perm entry_le) in Hsize at 1. rewrite length_sort_by in Hsize.
  split; [by constructor|]. unfold spent, len in *. rewrite sizes_cons. destruct Hw as (?&?&?&?), Hs as (?&?&?). split_and!; [lia|lia|lia|congruence].
Qed.

Lemma walk_complete fuel roots b manifest pending :
  max_depth b = MAX_REMOVAL_TREE_DEPTH → Forall (ready roots) pending →
  Z.of_nat (sizes pending) ≤ remaining_entries b → consumed_entries b + Z.of_nat (sizes pending) ≤ u64_max →
  (sizes pending + length pending ≤ fuel)%nat →
  ∃ b' manifest', walk h fuel roots b manifest pending = Some (Ok (b', manifest')) ∧
    spent (Z.of_nat (sizes pending)) b b'.
Proof.
  revert b manifest pending; induction fuel as [|fuel IH]; intros b manifest [|directory pending] Hm Hp Hr Hc Hf;
    try (exists b, manifest; split; [done|]; unfold spent; cbn in *; lia); [cbn in Hf; lia|].
  apply Forall_cons in Hp as [[Hd Hs] Hp]. rewrite sizes_cons in *. cbn [walk].
  pose proof (size_children (pd_path directory) (pd_depth directory)
    (sort_by entry_le (pd_entries directory))) as Hsize.
  rewrite (sort_by_perm entry_le) in Hsize at 1. rewrite length_sort_by in Hsize.
  pose proof (children_count (pd_path directory) (pd_depth directory) (sort_by entry_le (pd_entries directory))) as Hcount.
  rewrite length_sort_by in Hcount.
  destruct (consume_all_intro (pd_entries directory) b) as (b1 & Hb1 & Hs1); [unfold len in *; lia..|].
  destruct Hs1 as (? & ? & ? & Hm1).
  assert (Forall (fun e => check_entry h roots (snd e) = Ok () ∧
    (is_directory (snd e) = true → pd_depth directory + 1 ≤ MAX_REMOVAL_TREE_DEPTH))
    (sort_by entry_le (pd_entries directory))) as Hall.
  { rewrite (sort_by_perm entry_le). rewrite safe_Forall in Hs. eapply Forall_impl; [done|].
    intros [x n] [? Hn]. split; [done|]. cbn in *. destruct n; [done|by destruct Hn|done]. }
  destruct (entry_steps_intro roots b1 directory (sort_by entry_le (pd_entries directory)) manifest [])
    as [manifest1 Hsteps]; [rewrite Hm1, Hm; unfold u64_max; vm_compute; done|by rewrite Hm1, Hm|].
  unfold visit_directory. rewrite Hd. cbn [mbind result_bind]. rewrite Hb1. cbn [mbind result_bind].
  rewrite Hsteps. cbn [mbind result_bind app].
  edestruct (IH b1 manifest1) as (b2 & manifest2 & -> & Hs2).
  - congruence.
  - apply Forall_app. split; [|done]. apply ready_children; [done|].
    rewrite safe_Forall, (sort_by_perm entry_le), <- safe_Forall. done.
  - rewrite sizes_app. unfold len in *. lia.
  - rewrite sizes_app. unfold len in *. lia.
  - rewrite sizes_app, length_app. cbn [length] in Hf. unfold len in *. lia.
  - exists b2, manifest2. split; [done|]. rewrite sizes_app in Hs2. unfold spent, len in *.
    destruct Hs2 as (?&?&?&?). split_and!; [lia|lia|lia|congruence].
Qed.

(** ** Validated trees *)

Section validated.
Context {UC : UuidCrate}.

(** What both validations ask of the directory at the top and of what is
    below it. *)
Record sound_tree roots (id : string) (required : bool) (m : Meta) (es : Entries) : Prop := {
  st_private : private_directory_metadata_is_safe h m = true;
  st_device : m_dev m = device (rr_provider_root roots);
  st_ready : check_directory h roots m = Ok ();
  st_safe : safe roots 0 es;
  st_size : Z.of_nat (entries_size es) ≤ MAX_REMOVAL_TREE_ENTRIES;
  st_marker : check_marker h id required es = Ok ();
}.

Definition tree_name (id name : string) : Prop := name = id ∨ name = removing id.

Lemma validate_location name id :
  validate_removal_tree_location name id = Ok () ↔ validate_profile_id id = Ok () ∧ tree_name id name.
Proof.
  unfold validate_removal_tree_location, tree_name.
  rewrite bind_unit_Ok, map_err_Ok, reject_if_Ok, negb_false_iff, orb_true_iff, !String.eqb_eq. done.
Qed.

Lemma check_directory_mount roots m :
  check_directory h roots m = Ok () →
  (mount ← removal_mount_identity m; ensure_same_removal_mount (rr_provider_mount roots) mount) = Ok ().
Proof. unfold check_directory. by rewrite bind_unit_Ok; intros [_ ?]. Qed.

Lemma validate_inner_Ok roots name tree id expected required sn :
  validate_owned_removal_tree_inner h roots name tree id expected required = Ok sn →
  ∃ m es, tree = Some (Directory m es) ∧ validate_profile_id id = Ok () ∧ tree_name id name ∧
    sound_tree roots id required m es ∧ sn_root sn = identity_of m ∧
    sn_entry_count sn = Z.of_nat (entries_size es).
Proof.
  unfold validate_owned_removal_tree_inner. rewrite bind_unit_Ok. intros [Hl H].
  apply validate_location in Hl as [Hid Hn]. inv_ok.
  destruct tree as [[|m es|]|]; try done. cbn [directory_meta] in *. injection Hok as <-.
  unfold private_directory_identity, private_directory in *. inv_ok. injection Hok5 as <-.
  destruct (walk _ _ _ _ _ _) as [r|] eqn:Hw; [|done]. cbn in Hok3. rewrite Hok3 in Hw.
  destruct a2 as [b manifest]. inv_ok.
  apply walk_sound in Hw as [Hr Hs]; [|done..]. rewrite Forall_singleton in Hr. destruct Hr as [Hd Hsafe].
  unfold spent in Hs. rewrite sizes_cons in Hs. change (sizes []) with 0%nat in Hs.
  cbn [pd_entries remaining_entries consumed_entries new_budget pd_meta pd_depth] in *.
  exists m, es. inv_bool. split_and!; try done; [|cbn; lia]. split; try done. lia.
Qed.

Lemma validate_inner_intro roots name id expected required m es :
  validate_profile_id id = Ok () → tree_name id name → sound_tree roots id required m es →
  match expected with Some expected => expected = identity_of m | None => True end →
  ∃ sn, validate_owned_removal_tree_inner h roots name (Some (Directory m es)) id expected required = Ok sn ∧
    sn_root sn = identity_of m.
Proof.
  intros Hid Hn [Hp Hdev Hd Hs Hsize Hm] He. unfold validate_owned_removal_tree_inner.
  rewrite (proj2 (validate_location name id)) by done. cbn [mbind result_bind directory_meta].
  unfold private_directory_identity, private_directory. cbn [ok_or mbind result_bind].
  rewrite Hp. cbn [negb reject_if mbind result_bind]. change (device (identity_of m)) with (m_dev m).
  rewrite Hdev, Z.eqb_refl.
  assert (match expected with Some e => negb (bool_decide (e = identity_of m)) | None => false end = false) as Hx.
  { destruct expected as [e|]; [|done]. subst e. by rewrite bool_decide_true. }
  rewrite Hx. cbn [negb orb reject_if mbind result_bind].
  destruct (proj1 (bind_Ok _ _ _) (check_directory_mount _ _ Hd)) as (mount & -> & Hmount).
  cbn [mbind result_bind]. rewrite Hmount. cbn [mbind result_bind].
  destruct (walk_complete (S (entries_size es)) roots (new_budget MAX_REMOVAL_TREE_ENTRIES MAX_REMOVAL_TREE_DEPTH)
    (update_removal_manifest MANIFEST_HEADER "" (Directory m es)) [mkPending "" m es 0])
    as (b & manifest & -> & _).
  - done.
  - by rewrite Forall_singleton.
  - rewrite sizes_cons. change (sizes []) with 0%nat. cbn [pd_entries remaining_entries new_budget]. lia.
  - rewrite sizes_cons. change (sizes []) with 0%nat. cbn [pd_entries consumed_entries new_budget].
    unfold u64_max, MAX_REMOVAL_TREE_ENTRIES in *. lia.
  - rewrite sizes_cons. change (sizes []) with 0%nat. cbn [pd_entries length]. lia.
  - cbn [default mbind result_bind]. rewrite Hm. cbn [mbind result_bind]. by eexists.
Qed.

(** The fuel of the walk is enough. *)
Lemma walk_enough_fuel roots b manifest m es :
  walk h (S (entries_size es)) roots b manifest [mkPending "" m es 0] ≠ None.
Proof.
  assert (∀ fuel b manifest pending, (sizes pending + length pending ≤ fuel)%nat →
    walk h fuel roots b manifest pending ≠ None) as Hw.
  { clear. induction fuel as [|fuel IH]; intros b manifest [|directory pending] Hf; cbn [walk]; try done;
      rewrite ?sizes_cons in Hf; cbn [length] in Hf; [lia|].
    destruct (visit_directory _ _ _ _ _) as [[[b1 manifest1] children]|] eqn:Hv; [|done].
    unfold visit_directory in Hv. inv_ok. destruct a1 as [manifest2 children2]. inv_ok. simplify_eq.
    apply entry_steps_Ok in Hok1 as [-> _]. cbn [app].
    apply IH. rewrite sizes_app, length_app.
    pose proof (size_children (pd_path directory) (pd_depth directory)
      (sort_by entry_le (pd_entries directory))) as Hsize.
    rewrite (sort_by_perm entry_le) in Hsize at 1. rewrite length_sort_by in Hsize.
    pose proof (children_count (pd_path directory) (pd_depth directory)
      (sort_by entry_le (pd_entries directory))) as Hcount.
    rewrite length_sort_by in Hcount. lia. }
  apply Hw. rewrite sizes_cons. change (sizes []) with 0%nat. cbn [pd_entries length]. lia.
Qed.

(** A whole tree is recognised again under either name. *)
Lemma validate_tree_again roots name tree id sn name' :
  validate_owned_removal_tree h roots name tree id None = Ok sn → tree_name id name' →
  validate_owned_removal_tree h roots name' tree id (Some sn) = Ok sn.
Proof.
  unfold validate_owned_removal_tree. cbn [fmap option_fmap option_map reject_if].
  intros H Hn. apply bind_Ok in H as (sn' & H & [= <-]).
  destruct (validate_inner_Ok _ _ _ _ _ _ _ H) as (m & es & -> & Hid & Hn0 & Hst & Hroot & _).
  assert (validate_owned_removal_tree_inner h roots name' (Some (Directory m es)) id (Some (sn_root sn')) true
    = Ok sn') as ->; [|cbn [mbind result_bind]; by rewrite bool_decide_true].
  revert H. unfold validate_owned_removal_tree_inner.
  rewrite (proj2 (validate_location name id)), (proj2 (validate_location name' id)) by done.
  cbn [mbind result_bind directory_meta]. unfold private_directory_identity, private_directory.
  cbn [ok_or mbind result_bind]. rewrite (st_private _ _ _ _ _ Hst).
  cbn [negb reject_if mbind result_bind]. change (device (identity_of m)) with (m_dev m).
  rewrite (st_device _ _ _ _ _ Hst), Z.eqb_refl, Hroot. by rewrite bool_decide_true.
Qed.

Lemma validate_partial_intro roots name m es id :
  validate_profile_id id = Ok () → tree_name id name → sound_tree roots id false m es →
  validate_partial_owned_tombstone h roots name (Some (Directory m es)) id (identity_of m) = Ok (identity_of m).
Proof.
  intros Hid Hn Hs. unfold validate_partial_owned_tombstone.
  destruct (validate_inner_intro roots name id (Some (identity_of m)) false m es Hid Hn Hs eq_refl)
    as (sn & -> & Hr). cbn. by rewrite Hr.
Qed.

(** What is left of a tree that was whole can still be deleted. *)
Lemma sound_tree_pruned roots id m es es' :
  NoDup es.*1 → sound_tree roots id true m es → pruned es es' → sound_tree roots id false m es'.
Proof.
  intros Hnd [Hp Hdev Hd Hs Hsize Hm] H. split; try done.
  - by eapply safe_pruned.
  - pose proof (pruned_size _ _ H). lia.
  - revert Hm. unfold check_marker. destruct (lookup_entry OWNER_MARKER es') as [n'|] eqn:Hn'; [|done].
    destruct (pruned_lookup _ _ _ _ H Hnd Hn') as (n & -> & [->|(? & ? & ? & -> & ->)]); [done|].
    intros Hc. apply bind_Ok in Hc as (? & _ & ?). done.
Qed.

(** ** What is accepted, in terms of the entries *)

(** The node is an entry [k] levels down. *)
Inductive below : Z → Entries → Node → Prop :=
| below_here es x n : (x, n) ∈ es → below 1 es n
| below_in es x m ces k n : (x, Directory m ces) ∈ es → below k ces n → below (k + 1) es n.

Definition on_mount roots (m : Meta) : Prop :=
  m_mount m ≠ 0 ∧ to_le_bytes 8 (m_mount m) = rr_provider_mount roots.
(** Nobody but the user can put anything in its place: it is the user's, on the
    device and mount of the provider, not writable for others, and a file has
    one name only. The mount of what is never opened does not matter. *)
Definition allowed roots (n : Node) : Prop :=
  let m := node_meta n in
  m_uid m = h_uid h ∧ m_dev m = device (rr_provider_root roots) ∧
  match n with
  | Directory _ _ => Z.land (m_mode m) 0x12 = 0 ∧ Z.land (m_mode m) 0x1c0 = 0x1c0 ∧ on_mount roots m
  | RegularFile _ _ => Z.land (m_mode m) 0x12 = 0 ∧ m_nlink m = 1 ∧ on_mount roots m
  | NonFollowingLeaf _ _ => m_nlink m = 1
  end.

Lemma same_mount_Ok roots m :
  (mount ← removal_mount_identity m; ensure_same_removal_mount (rr_provider_mount roots) mount) = Ok ()
  ↔ on_mount roots m.
Proof.
  unfold removal_mount_identity, ensure_same_removal_mount, on_mount.
  destruct (Z.eqb_spec (m_mount m) 0) as [->|Hne]; [naive_solver|].
  cbn [reject_if mbind result_bind]. rewrite reject_if_Ok, negb_false_iff, bool_decide_eq_true. naive_solver.
Qed.
Lemma check_entry_allowed roots n : check_entry h roots n = Ok () ↔ allowed roots n.
Proof.
  unfold check_entry, allowed, removal_directory_mode_is_safe, removal_descendant_mode_is_safe.
  rewrite bind_unit_Ok, reject_if_Ok, !orb_false_iff, !negb_false_iff, !Z.eqb_eq.
  destruct n as [m content|m es|m symlink]; cbn [is_directory removal_entry_kind node_meta];
    rewrite ?same_mount_Ok, ?negb_false_iff, ?andb_true_iff, ?andb_false_iff, ?Z.eqb_eq; cbn;
    rewrite ?negb_false_iff, ?Z.eqb_eq; naive_solver.
Qed.

Lemma below_cons_here k x n es n' : below k es n' → below k ((x, n) :: es) n'.
Proof.
  inversion 1; subst; [eapply below_here|eapply below_in]; try done; by right.
Qed.
Lemma safe_below roots depth es :
  safe roots depth es ↔
  ∀ k n, below k es n → allowed roots n ∧ (is_directory n = true → depth + k ≤ MAX_REMOVAL_TREE_DEPTH).
Proof.
  split.
  - intros Hs k n Hb. revert depth Hs.
    induction Hb as [es x n Hin|es x m ces k n Hin Hb IH]; intros depth Hs;
      rewrite safe_Forall, Forall_forall in Hs; destruct (Hs _ Hin) as [Hc Hd]; cbn [snd] in *.
    + split; [by apply check_entry_allowed|]. destruct n; try done. by destruct Hd.
    + destruct Hd as [_ Hd]. replace (depth + (k + 1)) with (depth + 1 + k) by lia. by apply IH.
  - remember (entries_size es) as size eqn:Hsize. revert depth es Hsize.
    induction (lt_wf size) as [size _ IH]; intros depth [|[x n] es] -> H; [constructor|].
    assert (check_entry h roots n = Ok ()) as Hc.
    { apply check_entry_allowed, (H 1). apply below_here with x. by left. }
    assert (safe roots depth es) as Hs.
    { eapply IH; [|done|]; [rewrite size_cons; lia|]. intros k n' Hb. by apply H, below_cons_here. }
    destruct n as [m content|m ces|m symlink]; [by apply safe_entry| |by apply safe_entry].
    apply safe_directory; [done| | |done].
    + apply (H 1 (Directory m ces)); [apply below_here with x; by left|done].
    + eapply IH; [|done|]; [rewrite size_cons; cbn [snd]; rewrite size_directory; lia|].
      intros k n' Hb. replace (depth + 1 + k) with (depth + (k + 1)) by lia.
      apply H. apply below_in with x m ces; [by left|done].
Qed.

(** The marker is a private file with one name that holds the id. *)
Definition marked (id : string) (required : bool) (es : Entries) : Prop :=
  match lookup_entry OWNER_MARKER es with
  | None => required = false
  | Some marker => ∃ m content, marker = RegularFile m content ∧
      m_uid m = h_uid h ∧ Z.land (m_mode m) GROUP_OTHER_MODE = 0 ∧ m_nlink m = 1 ∧
      len content = str_len id ∧ from_utf8 content = Some id
  end.
Lemma check_marker_marked id required es : check_marker h id required es = Ok () ↔ marked id required es.
Proof.
  unfold check_marker, marked. destruct (lookup_entry OWNER_MARKER es) as [n|]; [|apply reject_if_Ok].
  unfold private_single_link_regular, private_regular. cbn [ok_or mbind result_bind].
  rewrite bind_unit_Ok, bind_unit_Ok, !reject_if_Ok, !negb_false_iff, Z.eqb_eq.
  destruct n as [m content| |]; cbn [private_regular_file_metadata_is_safe node_meta]; [|naive_solver..].
  rewrite andb_true_iff, !Z.eqb_eq, bind_unit_Ok, reject_if_Ok, negb_false_iff, Z.eqb_eq.
  split.
  - intros (((? & ?) & ?) & ? & (value & Hv%ok_or_Ok & He)%bind_Ok).
    rewrite reject_if_Ok, negb_false_iff, String.eqb_eq in He. subst value. eauto 10.
  - intros (? & ? & [= <- <-] & ? & ? & ? & ? & ->). cbn. by rewrite String.eqb_refl.
Qed.

(** The tree at the path of a profile or of its tombstone that is accepted. *)
Record accepted_tree roots (id : string) (required : bool) (m : Meta) (es : Entries) : Prop := {
  at_private : Z.land (m_mode m) GROUP_OTHER_MODE = 0;
  at_root : allowed roots (Directory m es);
  at_entries k n : below k es n →
    allowed roots n ∧ (is_directory n = true → k ≤ MAX_REMOVAL_TREE_DEPTH);
  at_size : Z.of_nat (entries_size es) ≤ MAX_REMOVAL_TREE_ENTRIES;
  at_marker : marked id required es;
}.
Lemma sound_tree_accepted roots id required m es :
  sound_tree roots id required m es ↔ accepted_tree roots id required m es.
Proof.
  split.
  - intros [Hp Hdev Hd Hs Hsize Hm]. split.
    + unfold private_directory_metadata_is_safe in Hp. by apply andb_true_iff in Hp as [_ ?%Z.eqb_eq].
    + by apply check_entry_allowed, check_entry_check_directory.
    + by rewrite safe_below in Hs.
    + done.
    + by apply check_marker_marked.
  - intros [Hp Hr Hs Hsize Hm]. split.
    + unfold private_directory_metadata_is_safe. apply andb_true_iff. rewrite !Z.eqb_eq. by destruct Hr.
    + by destruct Hr as (_ & ? & _).
    + by eapply check_entry_check_directory, check_entry_allowed.
    + by apply safe_below.
    + done.
    + by apply check_marker_marked.
Qed.

(** C20. Validation accepts a tree exactly when its root is a private directory
    of the expected identity, every entry at every depth is allowed, neither
    the number of entries nor the depth of a directory is over its limit, and
    the marker, which may only be missing where it is not required, names the
    profile; the walk, which works on a stack with a budget, never runs out of
    fuel. *)
Theorem tree_validation_iff roots name tree id expected required :
  is_ok (validate_owned_removal_tree_inner h roots name tree id expected required) = true ↔
  validate_profile_id id = Ok () ∧ tree_name id name ∧
  ∃ m es, tree = Some (Directory m es) ∧ accepted_tree roots id required m es ∧
    (expected = None ∨ expected = Some (identity_of m)).
Proof.
  rewrite is_ok_spec. setoid_rewrite <- sound_tree_accepted. split.
  - intros [sn Hsn]. pose proof (validate_inner_Ok _ _ _ _ _ _ _ Hsn) as (m & es & -> & Hid & Hn & Hs & Hr & _).
    split; [done|]. split; [done|]. exists m, es. split; [done|]. split; [done|].
    unfold validate_owned_removal_tree_inner in Hsn. apply bind_unit_Ok in Hsn as [_ Hsn].
    apply bind_Ok in Hsn as (? & [= <-] & Hsn). apply bind_Ok in Hsn as (i & Hi & Hsn).
    apply bind_unit_Ok in Hsn as [[_ He]%reject_if_Ok%orb_false_iff _].
    unfold private_directory_identity, private_directory in Hi. inv_ok.
    injection Hok0 as <-. destruct expected as [e|]; [right|by left]. by apply negb_bool_decide_false in He as ->.
  - intros (Hid & Hn & m & es & -> & Hs & He).
    destruct (validate_inner_intro roots name id expected required m es Hid Hn Hs) as (sn & -> & _); [|by exists sn].
    by destruct He as [->| ->].
Qed.
End validated.
End tree_proofs.
