(* ===== verification/RemovalDeletion.v ===== *)
(** * Deleting a profile tree

    A place of the disk behaves as a directory whose entries are read and
    changed ([lens]). A safe tree within the budget is deleted entry by entry;
    when a call is disturbed, what is left of it is a pruned tree. *)
From Stdlib Require Import Ascii.
From S2P Require Import Prelude Interfaces ConversationData ConversationStore CodexLines Profiles ProfileDisk ProfileLogic RemovalTree RemovalTreeProofs.

Open Scope Z_scope.

(** ** Places *)

Record lens (place : Place) : Prop := {
  lens_at f d : entries_at place (edit place f d) = f <$> entries_at place d;
  lens_meta f d : meta_at place (edit place f d) = meta_at place d;
  lens_twice f g d : edit place f (edit place g d) = edit place (fun es => f (g es)) d;
  lens_ext d es f g : entries_at place d = Some es → f es = g es → edit place f d = edit place g d;
  lens_same d es f : entries_at place d = Some es → f es = es → edit place f d = d;
  lens_none d f : entries_at place d = None → edit place f d = d;
}.

Lemma set_provider_same p d m es : provider_dir p d = Some (m, es) → set_provider_dir p (m, es) d = d.
Proof. destruct p, d; cbn; by intros ->. Qed.
Lemma provider_dir_update p f d :
  provider_dir p (update_profiles p f d) = (fun dir => (fst dir, f (snd dir))) <$> provider_dir p d.
Proof. unfold update_profiles. destruct p, d as [? ? ? [[]|] [[]|]]; done. Qed.
Lemma profile_entry_update p f d name :
  profile_entry p name (update_profiles p f d) =
  match provider_dir p d with Some (_, es) => f es !! name | None => None end.
Proof. unfold profile_entry. rewrite provider_dir_update. by destruct (provider_dir p d) as [[]|]. Qed.
Lemma update_profiles_twice p f g d :
  update_profiles p f (update_profiles p g d) = update_profiles p (fun es => f (g es)) d.
Proof. unfold update_profiles. destruct p, d as [? ? ? [[]|] [[]|]]; done. Qed.
Lemma update_profiles_ext p d m es f g :
  provider_dir p d = Some (m, es) → f es = g es → update_profiles p f d = update_profiles p g d.
Proof. unfold update_profiles. intros -> He. by rewrite He. Qed.
Lemma update_profiles_same p d m es f :
  provider_dir p d = Some (m, es) → f es = es → update_profiles p f d = d.
Proof. unfold update_profiles. intros Hd He. rewrite Hd, He. by apply set_provider_same. Qed.

Lemma tree_place_lens p name : lens (tree_place p name).
Proof.
  split; cbn.
  - intros f d. rewrite profile_entry_update. unfold profile_entry.
    destruct (provider_dir p d) as [[m es]|]; [|done]. rewrite lookup_alter, decide_True by done.
    by destruct (es !! name) as [[]|].
  - intros f d. rewrite profile_entry_update. unfold profile_entry.
    destruct (provider_dir p d) as [[m es]|]; [|done]. rewrite lookup_alter, decide_True by done.
    by destruct (es !! name) as [[]|].
  - intros f g d. rewrite update_profiles_twice. unfold update_profiles.
    destruct (provider_dir p d) as [[m es]|]; [|done]. f_equal. f_equal.
    apply map_eq. intros i. rewrite !lookup_alter.
    destruct (decide (name = i)); [|done]. rewrite decide_True by done. by destruct (es !! name) as [[]|].
  - intros d es f g H He. unfold profile_entry in H. destruct (provider_dir p d) as [[m es']|] eqn:Hd; [|done].
    eapply update_profiles_ext; [done|]. apply alter_ext. intros n Hn. rewrite Hn in H. cbn in H.
    destruct n; [done| |done]. injection H as ->. cbn. by rewrite He.
  - intros d es f H He. unfold profile_entry in H. destruct (provider_dir p d) as [[m es']|] eqn:Hd; [|done].
    eapply update_profiles_same; [done|]. apply map_eq. intros i. rewrite lookup_alter.
    case_decide as Hi; [subst i|done]. destruct (es' !! name) as [[]|]; cbn in *; simplify_eq; by rewrite He.
  - intros d f H. unfold profile_entry in H. destruct (provider_dir p d) as [[m es']|] eqn:Hd.
    + eapply update_profiles_same; [done|]. apply map_eq. intros i. rewrite lookup_alter.
      case_decide as Hi; [subst i|done]. by destruct (es' !! name) as [[]|].
    + unfold update_profiles. by rewrite Hd.
Qed.

Lemma lookup_set_entry x y n es :
  lookup_entry x (set_entry y n es) = if String.eqb y x then Some n else lookup_entry x es.
Proof.
  induction es as [|[z e] es IH]; cbn [set_entry]; rewrite !lookup_entry_cons; [done|].
  destruct (String.eqb_spec z y) as [->|Hzy]; rewrite lookup_entry_cons, ?IH.
  - by destruct (String.eqb y x).
  - destruct (String.eqb_spec z x) as [->|], (String.eqb_spec y x); congruence.
Qed.
Lemma lookup_modify_entry x f es :
  lookup_entry x (modify_entry x f es) = f <$> lookup_entry x es.
Proof.
  unfold modify_entry. destruct (lookup_entry x es) as [n|] eqn:Hn; [|done].
  by rewrite lookup_set_entry, String.eqb_refl.
Qed.
Lemma set_entry_twice x n n' es : set_entry x n (set_entry x n' es) = set_entry x n es.
Proof.
  induction es as [|[y e] es IH]; cbn [set_entry]; [by rewrite String.eqb_refl|].
  destruct (String.eqb y x) eqn:Hy; cbn [set_entry]; rewrite Hy; [done|]. by rewrite IH.
Qed.
Lemma set_entry_same x n es : lookup_entry x es = Some n → set_entry x n es = es.
Proof.
  induction es as [|[y e] es IH]; [done|]. rewrite lookup_entry_cons. cbn [set_entry].
  destruct (String.eqb y x); [by intros [= ->]|]. intros H. by rewrite IH.
Qed.

Lemma modify_entry_twice x f g es :
  modify_entry x f (modify_entry x g es) = modify_entry x (fun n => f (g n)) es.
Proof.
  unfold modify_entry at 2 3. destruct (lookup_entry x es) as [n|] eqn:Hn; unfold modify_entry.
  - by rewrite lookup_set_entry, String.eqb_refl, set_entry_twice.
  - by rewrite Hn.
Qed.
Lemma modify_entry_ext x f g es :
  (∀ n, lookup_entry x es = Some n → f n = g n) → modify_entry x f es = modify_entry x g es.
Proof. unfold modify_entry. destruct (lookup_entry x es); [|done]. intros H. by rewrite H. Qed.
Lemma modify_entry_same x f es :
  (∀ n, lookup_entry x es = Some n → f n = n) → modify_entry x f es = es.
Proof.
  unfold modify_entry. destruct (lookup_entry x es) eqn:Hx; [|done]. intros H.
  rewrite H by done. by apply set_entry_same.
Qed.
Lemma edit_directory_ext f g n :
  (∀ es, directory_entries n = Some es → f es = g es) → edit_directory f n = edit_directory g n.
Proof. destruct n; cbn; [done| |done]. intros H. by rewrite H. Qed.

Lemma child_place_lens place name : lens place → lens (child_place place name).
Proof.
  intros L. split; cbn.
  - intros f d. rewrite (lens_at _ L). destruct (entries_at place d) as [es|]; [|done]. cbn.
    rewrite lookup_modify_entry. by destruct (lookup_entry name es) as [[]|].
  - intros f d. rewrite (lens_at _ L). destruct (entries_at place d) as [es|]; [|done]. cbn.
    rewrite lookup_modify_entry. by destruct (lookup_entry name es) as [[]|].
  - intros f g d. rewrite (lens_twice _ L). destruct (entries_at place d) as [es|] eqn:Hd.
    + eapply (lens_ext _ L); [done|]. rewrite modify_entry_twice. apply modify_entry_ext. by intros [] _.
    + by rewrite !(lens_none _ L).
  - intros d ces f g H He. destruct (entries_at place d) as [es|] eqn:Hd; [|done]. cbn in H.
    eapply (lens_ext _ L); [done|]. apply modify_entry_ext. intros n Hn. rewrite Hn in H. cbn in H.
    apply edit_directory_ext. rewrite H. by intros ? [= <-].
  - intros d ces f H He. destruct (entries_at place d) as [es|] eqn:Hd; [|done]. cbn in H.
    eapply (lens_same _ L); [done|]. apply modify_entry_same. intros n Hn. rewrite Hn in H. cbn in H.
    destruct n; cbn in *; simplify_eq; by rewrite He.
  - intros d f H. destruct (entries_at place d) as [es|] eqn:Hd; [|by apply (lens_none _ L)]. cbn in H.
    eapply (lens_same _ L); [done|]. apply modify_entry_same. intros n Hn. rewrite Hn in H. cbn in H.
    by destruct n.
Qed.

(** The place with these entries. *)
Definition place_with (place : Place) (es : Entries) (d : DataRoot) : DataRoot := edit place (fun _ => es) d.

Section place_with.
Context (place : Place) (L : lens place) (d : DataRoot) (es0 : Entries).
Hypothesis Hd : entries_at place d = Some es0.

Lemma entries_place_with es : entries_at place (place_with place es d) = Some es.
Proof using L Hd. unfold place_with. by rewrite (lens_at _ L), Hd. Qed.
Lemma edit_place_with f es : edit place f (place_with place es d) = place_with place (f es) d.
Proof using L. unfold place_with. by rewrite (lens_twice _ L). Qed.
Lemma place_with_same : place_with place es0 d = d.
Proof using L Hd. by apply (lens_same _ L _ _ _ Hd). Qed.
Lemma place_with_twice es es' : place_with place es (place_with place es' d) = place_with place es d.
Proof using L. unfold place_with. by rewrite (lens_twice _ L). Qed.
Lemma child_place_with name m ces ces' es :
  lookup_entry name es = Some (Directory m ces) →
  place_with (child_place place name) ces' (place_with place es d) =
  place_with place (set_entry name (Directory m ces') es) d.
Proof using L.
  intros Hn. unfold place_with at 1. cbn. rewrite edit_place_with. f_equal.
  unfold modify_entry. by rewrite Hn.
Qed.
Lemma child_entries name m ces es :
  lookup_entry name es = Some (Directory m ces) →
  entries_at (child_place place name) (place_with place es d) = Some ces.
Proof using L Hd. intros Hn. cbn. rewrite entries_place_with. cbn. by rewrite Hn. Qed.
End place_with.

(** ** Deletion *)

Section deletion.
Context {SC : Sha256Crate} (h : Host) (c : nat) (roots : RemovalRoots).
Abbreviation expected_device := (device (rr_provider_root roots)).
Abbreviation expected_mount := (rr_provider_mount roots).

Lemma check_entry_stat n :
  check_entry h roots n = Ok () → validate_removal_stat h n (removal_entry_kind n) expected_device = Ok ().
Proof.
  unfold check_entry, validate_removal_stat. rewrite bind_unit_Ok, !reject_if_Ok. intros [H _].
  rewrite !orb_false_iff, !negb_false_iff, !Z.eqb_eq in H.
  rewrite !orb_false_iff, !negb_false_iff, orb_true_iff, !bool_decide_eq_true, !Z.eqb_eq.
  destruct H as ((Hu & Hdev) & Hmode & Hlink). split_and!; try done.
  - by destruct n; [apply negb_false_iff in Hmode|apply negb_false_iff in Hmode|].
  - destruct n; cbn in Hlink |- *; [right|by left|right]; by apply negb_false_iff, Z.eqb_eq in Hlink.
Qed.
Lemma check_entry_mount n :
  check_entry h roots n = Ok () → removal_entry_kind n ≠ Kind_NonFollowingLeaf →
  (mount ← removal_mount_identity (node_meta n); ensure_same_removal_mount expected_mount mount) = Ok ().
Proof. unfold check_entry. rewrite bind_unit_Ok. intros [_ H]. by destruct n. Qed.

(** What is collected of the entries before any is unlinked. *)
Definition names_of (depth : Z) (es : Entries) : list (string * RemovalEntryKind * option Z) :=
  (fun e => (fst e, removal_entry_kind (snd e),
             if is_directory (snd e) then Some (depth + 1) else None)) <$> es.

Lemma collect_names depth es b names :
  safe h roots depth es → max_depth b = MAX_REMOVAL_TREE_DEPTH → len es ≤ remaining_entries b →
  consumed_entries b + len es ≤ u64_max →
  ∃ b', fold_result (collect_name h expected_device depth) (b, names) es = Ok (b', names ++ names_of depth es) ∧
    spent (len es) b b'.
Proof.
  rewrite safe_Forall. intros H. revert b names.
  induction H as [|[x n] es [Hc Hn] _ IH]; intros b names Hm Hr Hb; unfold len in *; cbn [length] in *.
  { exists b. split; [cbn; by rewrite app_nil_r|]. unfold spent. cbn. lia. }
  cbn [fold_result]. set (b1 := mkRemovalTraversalBudget (remaining_entries b - 1) (consumed_entries b + 1) (max_depth b)).
  assert (collect_name h expected_device depth (b, names) (x, n) =
    Ok (b1, names ++ names_of depth [(x, n)])) as ->.
  { unfold collect_name. rewrite consume_entry_intro by lia. cbn [mbind result_bind snd fst] in *.
    rewrite check_entry_stat by done. cbn [mbind result_bind]. unfold names_of. cbn [fmap list_fmap snd fst].
    destruct n as [m content|m ces|m symlink]; try done. cbn [removal_entry_kind]. destruct Hn as [Hd _].
    rewrite child_depth_intro; [done|cbn; lia|cbn; rewrite Hm; vm_compute; done]. }
  cbn [mbind result_bind]. destruct (IH b1 (names ++ names_of depth [(x, n)])) as (b' & -> & Hs); subst b1; cbn;
    [done|lia|lia|]. exists b'. split; [by rewrite <- app_assoc|]. unfold spent in *. cbn in *.
  destruct Hs as (?&?&?&?). split_and!; [lia|lia|lia|congruence].
Qed.

(** ** Reads at a place *)

Definition stat_of (place : Place) (name : string) (d : DataRoot) : result ProfileError Node :=
  es ← ok_or (entries_at place d) PE_Io; ok_or (lookup_entry name es) PE_Io.
Lemma read_entries_reads place :
  reads h c (read_entries h place) (fun d => ok_or (entries_at place d) PE_Io).
Proof. apply reads_view. Qed.
Lemma stat_at_reads place name : reads h c (stat_at h place name) (stat_of place name).
Proof. eapply reads_bind; [apply read_entries_reads|intros es]. apply reads_check. Qed.
Lemma open_reads place name mount :
  reads h c (open_removal_entry_at h place name mount) (fun d =>
    n ← stat_of place name d;
    _ ← (m ← removal_mount_identity (node_meta n); ensure_same_removal_mount mount m);
    Ok n).
Proof.
  eapply reads_bind; [apply stat_at_reads|intros n]. eapply reads_bind; [apply reads_check|intros []].
  apply reads_ret.
Qed.

(** ** The specification *)

Definition deletes (remove_entries : Place → RemovalTraversalBudget → Z → diskM RemovalTraversalBudget)
    (limit : Z) : Prop :=
  ∀ place d es depth b,
    lens place → entries_at place d = Some es → safe h roots depth es →
    max_depth b = MAX_REMOVAL_TREE_DEPTH → limit ≤ depth ≤ MAX_REMOVAL_TREE_DEPTH →
    Z.of_nat (entries_size es) ≤ remaining_entries b →
    consumed_entries b + Z.of_nat (entries_size es) ≤ u64_max →
    spec c (eq d) (remove_entries place b depth)
      (fun b' d' => d' = place_with place [] d ∧ spent (Z.of_nat (entries_size es)) b b')
      (fun _ d' => disturbed h c ∧ ∃ es', pruned es es' ∧ d' = place_with place es' d).

(** From the state where these entries are left; failure prunes them. *)
Definition left_with (place : Place) (d : DataRoot) (es : Entries) (_ : failure) (d' : DataRoot) : Prop :=
  disturbed h c ∧ ∃ es', pruned es es' ∧ d' = place_with place es' d.

Section step.
Context (remove_entries : Place → RemovalTraversalBudget → Z → diskM RemovalTraversalBudget).
Context (place : Place) (d : DataRoot) (es0 : Entries) (L : lens place) (Hd : entries_at place d = Some es0).

Lemma stat_spec name n es (Q : Node → DataRoot → Prop) R :
  lookup_entry name es = Some n → Q n (place_with place es d) →
  (∀ e, disturbed h c → R e (place_with place es d)) →
  spec c (eq (place_with place es d)) (stat_at h place name) Q R.
Proof using L Hd.
  intros Hn HQ HR. eapply spec_reads; [apply stat_at_reads|..]; unfold stat_of.
  - intros a d' <-. rewrite (entries_place_with _ L _ _ Hd). cbn. rewrite Hn. by intros [= <-].
  - intros e d' <-. rewrite (entries_place_with _ L _ _ Hd). cbn. by rewrite Hn.
  - by intros e d' Hf <-; apply HR.
Qed.
Lemma open_spec name n es (Q : Node → DataRoot → Prop) R :
  lookup_entry name es = Some n → check_entry h roots n = Ok () →
  removal_entry_kind n ≠ Kind_NonFollowingLeaf → Q n (place_with place es d) →
  (∀ e, disturbed h c → R e (place_with place es d)) →
  spec c (eq (place_with place es d)) (open_removal_entry_at h place name expected_mount) Q R.
Proof using L Hd.
  intros Hn Hc Hk HQ HR. eapply spec_reads; [apply open_reads|..]; unfold stat_of.
  - intros a d' <-. rewrite (entries_place_with _ L _ _ Hd). cbn. rewrite Hn. cbn.
    rewrite check_entry_mount by done. by intros [= <-].
  - intros e d' <-. rewrite (entries_place_with _ L _ _ Hd). cbn. rewrite Hn. cbn.
    by rewrite check_entry_mount.
  - by intros e d' Hf <-; apply HR.
Qed.
Lemma unlink_spec x n es :
  spec c (eq (place_with place ((x, n) :: es) d)) (unlink_at h place x)
    (fun _ d' => d' = place_with place es d) (left_with place d ((x, n) :: es)).
Proof using L.
  apply spec_change.
  - intros d' <-. rewrite (edit_place_with _ L). cbn [unlink]. by rewrite String.eqb_refl.
  - intros e d' Hf <- _. split; [done|]. eexists. split; [apply pruned_refl|done].
Qed.
Lemma opened_ok n : check_entry h roots n = Ok () →
  validate_opened_removal_entry h n n (removal_entry_kind n) expected_device = Ok ().
Proof.
  intros Hc. unfold validate_opened_removal_entry. rewrite bool_decide_true by done. cbn.
  by apply check_entry_stat.
Qed.

(** The directory is opened again once it is empty, and unlinked. *)
Section emptied.
Context (x : string) (m : Meta) (ces es : Entries).
Hypothesis Hc : check_entry h roots (Directory m []) = Ok ().
Abbreviation emptied := (place_with place ((x, Directory m []) :: es) d).

Lemma left_emptied e : disturbed h c → left_with place d ((x, Directory m ces) :: es) e emptied.
Proof using.
  intros Hf. split; [done|]. exists ((x, Directory m []) :: es).
  split; [apply pruned_in; [apply pruned_nil|apply pruned_refl]|done].
Qed.
Lemma lookup_emptied : lookup_entry x ((x, Directory m []) :: es) = Some (Directory m []).
Proof using. by rewrite lookup_entry_cons, String.eqb_refl. Qed.
Lemma reopen_directory_spec :
  spec c (eq emptied) (reopen_directory h place x (Directory m ces) expected_device expected_mount)
    (fun _ d' => emptied = d') (left_with place d ((x, Directory m ces) :: es)).
Proof using L Hd Hc.
  pose proof left_emptied as Hleft. unfold reopen_directory.
  eapply spec_bind with (M := fun stat d' => stat = Directory m [] ∧ emptied = d').
  { eapply stat_spec; [apply lookup_emptied|by split|by auto]. }
  intros stat. apply spec_pure. intros ->.
  eapply spec_checked; [exact (opened_ok (Directory m []) Hc)|].
  eapply spec_bind with (M := fun opened d' => opened = Directory m [] ∧ emptied = d').
  { eapply open_spec; [apply lookup_emptied|done|done|by split|by auto]. }
  intros opened. apply spec_pure. intros ->.
  apply (spec_check_Ok _ _ _ ()); [exact (opened_ok (Directory m []) Hc)|done].
Qed.
Lemma remove_directory_spec :
  spec c (eq emptied) (remove_directory_at h place x) (fun _ d' => d' = place_with place es d)
    (left_with place d ((x, Directory m ces) :: es)).
Proof using L Hd.
  unfold remove_directory_at.
  eapply spec_bind with (M := fun stat d' => stat = Directory m [] ∧ emptied = d').
  { eapply stat_spec; [apply lookup_emptied|by split|]. intros e Hf. by apply left_emptied. }
  intros stat. apply spec_pure. intros ->. eapply spec_conseq; [apply unlink_spec|done|done|].
  intros e d' (Hf & es' & Hp & ->). split; [done|]. exists es'. split; [|done].
  eapply pruned_trans; [|done]. apply pruned_in; [apply pruned_nil|apply pruned_refl].
Qed.
End emptied.

(** One entry, the first of those that are left. *)
Section entry.
Context (limit depth : Z) (x : string) (es : Entries) (b : RemovalTraversalBudget).
Hypothesis Hrec : deletes remove_entries limit.
Hypothesis Hlim : limit ≤ depth + 1.
Hypothesis Hm : max_depth b = MAX_REMOVAL_TREE_DEPTH.
Abbreviation before_it n := (place_with place ((x, n) :: es) d).

Lemma lookup_first n : lookup_entry x ((x, n) :: es) = Some n.
Proof using. by rewrite lookup_entry_cons, String.eqb_refl. Qed.
Lemma left_first n e : disturbed h c → left_with place d ((x, n) :: es) e (before_it n).
Proof using. intros Hf. split; [done|]. eexists. split; [apply pruned_refl|done]. Qed.
(** It is looked at, opened and compared before anything is done to it. *)
Lemma opened_first n {B} (k : diskM B) Q :
  check_entry h roots n = Ok () → removal_entry_kind n ≠ Kind_NonFollowingLeaf →
  spec c (eq (before_it n)) k Q (left_with place d ((x, n) :: es)) →
  spec c (eq (before_it n))
    (opened ← open_removal_entry_at h place x expected_mount;
     _ ← check (validate_opened_removal_entry h n opened (removal_entry_kind n) expected_device); k)
    Q (left_with place d ((x, n) :: es)).
Proof using L Hd.
  intros Hc Hkind Hk. eapply spec_bind with (M := fun opened d' => opened = n ∧ before_it n = d').
  { eapply open_spec; [apply lookup_first|done|done|by split|]. intros e Hf. by apply left_first. }
  intros opened. apply spec_pure. intros ->. eapply spec_checked; [by apply opened_ok|done].
Qed.
Lemma enter_directory_spec m ces :
  depth + 1 ≤ MAX_REMOVAL_TREE_DEPTH → safe h roots (depth + 1) ces →
  Z.of_nat (entries_size ces) ≤ remaining_entries b → consumed_entries b + Z.of_nat (entries_size ces) ≤ u64_max →
  spec c (eq (before_it (Directory m ces))) (remove_entries (child_place place x) b (depth + 1))
    (fun b' d' => spent (Z.of_nat (entries_size ces)) b b' ∧ before_it (Directory m []) = d')
    (left_with place d ((x, Directory m ces) :: es)).
Proof using L Hd Hrec Hlim Hm.
  intros Hdepth Hs Hr Hb. eapply spec_conseq.
  - apply (Hrec (child_place place x) (before_it (Directory m ces)) ces (depth + 1) b);
      try done; [by apply child_place_lens|by eapply child_entries, lookup_first].
  - done.
  - intros b' d' [-> ?]. split; [done|]. rewrite (child_place_with _ L _ _ m ces) by apply lookup_first.
    cbn [set_entry]. by rewrite String.eqb_refl.
  - intros e d' (Hf & ces' & Hp & ->). split; [done|]. exists ((x, Directory m ces') :: es).
    split; [by apply pruned_in, pruned_refl|]. rewrite (child_place_with _ L _ _ m ces) by apply lookup_first.
    cbn [set_entry]. by rewrite String.eqb_refl.
Qed.

Lemma remove_entry_spec n :
  entry_safe h roots depth (x, n) → Z.of_nat (node_size n) ≤ remaining_entries b →
  consumed_entries b + Z.of_nat (node_size n) ≤ u64_max →
  spec c (eq (before_it n))
    (remove_entry h remove_entries expected_device expected_mount place b
       (x, removal_entry_kind n, if is_directory n then Some (depth + 1) else None))
    (fun b' d' => d' = place_with place es d ∧ spent (Z.of_nat (node_size n)) b b')
    (left_with place d ((x, n) :: es)).
Proof using L Hd Hrec Hlim Hm.
  intros [Hc Hn] Hr Hb. cbn [snd] in *. unfold remove_entry.
  eapply spec_bind with (M := fun stat d' => stat = n ∧ before_it n = d').
  { eapply stat_spec; [apply lookup_first|by split|]. intros e Hf. by apply left_first. }
  intros stat. apply spec_pure. intros ->. eapply spec_checked; [by apply check_entry_stat|].
  assert (spent 0 b b) as Hnone by (unfold spent; lia).
  destruct n as [m content|m ces|m symlink]; cbn [removal_entry_kind is_directory bool_decide decide].
  - apply (opened_first (RegularFile m content)); [done|done|].
    eapply spec_bind; [apply unlink_spec|]. intros []. by apply spec_ret.
  - destruct Hn as [Hdepth Hs]. rewrite size_directory in *. eapply spec_checked; [done|].
    apply (opened_first (Directory m ces)); [done|done|].
    eapply spec_bind; [by apply enter_directory_spec|]. intros b'. apply spec_pure. intros Hsp.
    rewrite check_entry_directory with (ces' := []) in Hc.
    eapply spec_bind; [by apply reopen_directory_spec|]. intros [].
    eapply spec_bind; [apply remove_directory_spec|]. intros []. by apply spec_ret.
  - eapply spec_bind; [apply unlink_spec|]. intros []. by apply spec_ret.
Qed.
End entry.

Lemma remove_names_spec limit depth es b :
  deletes remove_entries limit → limit ≤ depth + 1 → safe h roots depth es →
  max_depth b = MAX_REMOVAL_TREE_DEPTH → Z.of_nat (entries_size es) - len es ≤ remaining_entries b →
  consumed_entries b + (Z.of_nat (entries_size es) - len es) ≤ u64_max → 0 ≤ remaining_entries b →
  spec c (eq (place_with place es d))
    (remove_names h remove_entries expected_device expected_mount place b (names_of depth es))
    (fun b' d' => d' = place_with place [] d ∧ spent (Z.of_nat (entries_size es) - len es) b b')
    (left_with place d es).
Proof using L Hd.
  intros Hrec Hlim. rewrite safe_Forall. intros H. revert b.
  induction H as [|[x n] es Hs _ IH]; intros b Hm Hr Hb H0.
  { apply spec_ret. intros d' <-. split; [done|]. unfold spent, len. cbn. lia. }
  rewrite size_cons in *. unfold len in *. cbn [length snd names_of fmap list_fmap fst] in *. cbn [remove_names].
  assert (length es ≤ entries_size es)%nat as Hlen by (rewrite (size_children "" 0); lia).
  eapply spec_bind; [eapply remove_entry_spec; try done; lia|].
  intros b1. eapply spec_pre; [|intros d' Hx; exact (conj (proj2 Hx) (eq_sym (proj1 Hx)))].
  apply spec_pure. intros Hsp. pose proof Hsp as (? & ? & ? & ?).
  eapply spec_conseq; [apply (IH b1)|done|..]; [congruence|lia|lia|lia|..].
  - intros b2 d' [-> Hsp']. split; [done|]. pose proof (spent_trans _ _ _ _ _ Hsp Hsp') as Ht.
    unfold spent in *. lia.
  - intros e d' (Hf & es' & Hp & ->). split; [done|]. exists es'. split; [by apply pruned_drop|done].
Qed.
End step.

Lemma remove_owned_directory_entries_spec fuel :
  deletes (remove_owned_directory_entries h fuel expected_device expected_mount)
    (MAX_REMOVAL_TREE_DEPTH + 1 - Z.of_nat fuel).
Proof.
  induction fuel as [|fuel IH].
  { intros place d es depth b L Hd Hs Hm Hl. lia. }
  intros place d es depth b L Hd Hs Hm Hl Hr Hb. cbn [remove_owned_directory_entries].
  assert (length es ≤ entries_size es)%nat as Hlen by (rewrite (size_children "" 0); lia).
  eapply spec_bind with (M := fun es' d' => es' = es ∧ d = d').
  { eapply spec_reads; [apply read_entries_reads|..].
    - intros a d' <-. rewrite Hd. by intros [= <-].
    - intros e d' <-. by rewrite Hd.
    - intros e d' Hf <-. split; [done|]. exists es. split; [apply pruned_refl|].
      by rewrite (place_with_same _ L _ _ Hd). }
  intros es'. apply spec_pure. intros ->.
  destruct (collect_names depth es b [] Hs Hm) as (b1 & Hc & Hsp); [unfold len; lia..|].
  pose proof Hsp as (? & ? & ? & ?).
  eapply spec_bind with (M := fun r d' => r = (b1, names_of depth es) ∧ place_with place es d = d').
  { eapply spec_check_Ok; [exact Hc|]. intros d' <-. split; [done|]. apply (place_with_same _ L _ _ Hd). }
  intros r. apply spec_pure. intros ->.
  eapply spec_conseq; [eapply (remove_names_spec _ place d es L Hd _ depth es b1); try done; unfold len in *; [lia|congruence|lia..]|done|..].
  - intros b2 d' [-> Hsp2]. split; [done|]. pose proof (spent_trans _ _ _ _ _ Hsp Hsp2) as Ht.
    unfold spent in *. lia.
  - done.
Qed.

(** ** The whole tree *)

Section tree_at.
Context (p : Provider) (name : string) (d : DataRoot) (pm m : Meta) (entries : gmap string Node) (es : Entries).
Hypothesis Hp : provider_dir p d = Some (pm, entries).
Hypothesis Ht : entries !! name = Some (Directory m es).
Hypothesis Hdev : device (identity_of pm) = expected_device.
Hypothesis Hmount : check_entry h roots (Directory m es) = Ok ().
Hypothesis Hpm : (mount ← removal_mount_identity pm; ensure_same_removal_mount expected_mount mount) = Ok ().

Lemma tree_entries : entries_at (tree_place p name) d = Some es.
Proof using Hp Ht. cbn. unfold profile_entry. rewrite Hp. cbn. by rewrite Ht. Qed.
Lemma tree_with es' : profile_entry p name (place_with (tree_place p name) es' d) = Some (Directory m es').
Proof using Hp Ht.
  unfold place_with. cbn. rewrite profile_entry_update, Hp, lookup_alter, decide_True by done.
  by rewrite Ht.
Qed.

(** Opening the tree, whatever is left of it. *)
Lemma tree_spec es' (Q : Node → DataRoot → Prop) R :
  Q (Directory m es') (place_with (tree_place p name) es' d) →
  (∀ e, disturbed h c → R e (place_with (tree_place p name) es' d)) →
  spec c (eq (place_with (tree_place p name) es' d))
    (_ ← io h; d ← disk; check (ok_or (profile_entry p name d) PE_Io)) Q R.
Proof using Hp Ht.
  intros HQ HR. eapply spec_reads; [apply (reads_view h c (fun d => ok_or (profile_entry p name d) PE_Io))|..];
    intros a d' *; rewrite ?tree_with; [intros <-|intros <-|intros Hf <-; by apply HR];
    rewrite tree_with; [by intros [= <-]|done].
Qed.

Lemma remove_owned_directory_at_spec max_entries :
  safe h roots 0 es → Z.of_nat (entries_size es) ≤ max_entries ≤ u64_max →
  spec c (eq d)
    (remove_owned_directory_at h p name (identity_of pm) (identity_of m) expected_mount max_entries
       MAX_REMOVAL_TREE_DEPTH)
    (fun _ d' => d' = update_profiles p (delete name) d)
    (left_with (tree_place p name) d es).
Proof using Hp Ht Hdev Hmount Hpm.
  intros Hs Hmax. pose proof (tree_place_lens p name) as L. pose proof tree_entries as He.
  assert (d = place_with (tree_place p name) es d) as Hsame by (symmetry; by apply (place_with_same _ L)).
  assert (∀ es' e, pruned es es' → disturbed h c →
    left_with (tree_place p name) d es e (place_with (tree_place p name) es' d)) as Hleft.
  { intros es' e Hpr Hf. split; [done|]. by exists es'. }
  assert (∀ e, disturbed h c → left_with (tree_place p name) d es e d) as Hleft0.
  { intros e Hf. split; [done|]. exists es. split; [apply pruned_refl|done]. }
  unfold remove_owned_directory_at.
  eapply spec_see; [apply reads_io|done|by auto|].
  eapply (spec_see h); [apply reads_disk|done|by auto|]. rewrite Hp. cbn [fmap option_fmap option_map fst ok_or].
  eapply spec_checked; [done|]. rewrite bool_decide_true by done. eapply spec_checked; [done|].
  eapply spec_checked; [exact Hpm|].
  eapply spec_bind with (M := fun tree d' => tree = Directory m es ∧ d = d').
  { eapply spec_pre; [|intros d' <-; exact (eq_sym Hsame)].
    apply tree_spec; rewrite <- Hsame; [done|by apply Hleft0]. }
  intros tree. apply spec_pure. intros ->.
  eapply spec_checked; [exact (check_entry_mount _ Hmount ltac:(done))|].
  cbn [node_meta]. rewrite !bool_decide_true by done. eapply spec_checked; [done|].
  pose proof (check_entry_stat _ Hmount) as Hst. rewrite <- Hdev in Hst. eapply spec_checked; [exact Hst|].
  eapply spec_bind with (M := fun _ d' => place_with (tree_place p name) [] d = d').
  { rewrite Hdev. eapply spec_conseq; [eapply (remove_owned_directory_entries_spec _ (tree_place p name) d es 0);
      try done|done|by intros b d' [-> _]|done].
    - cbn. lia.
    - cbn. unfold u64_max in *. lia. }
  intros _.
  eapply spec_bind with (M := fun tree d' => tree = Directory m [] ∧ place_with (tree_place p name) [] d = d').
  { apply tree_spec; [done|]. intros e Hf. apply Hleft; [apply pruned_nil|done]. }
  intros tree. apply spec_pure. intros ->. rewrite Hdev.
  eapply spec_checked; [exact (opened_ok (Directory m []) Hmount)|].
  cbn [node_meta]. rewrite !bool_decide_true by done. eapply spec_checked; [done|].
  eapply spec_checked; [exact (check_entry_mount _ Hmount ltac:(done))|].
  apply spec_change.
  - intros d' <-. unfold place_with. cbn. rewrite update_profiles_twice.
    eapply update_profiles_ext; [done|]. apply map_eq. intros i.
    destruct (decide (i = name)) as [->|]; [by rewrite !lookup_delete_eq|].
    rewrite !lookup_delete_ne by done. by rewrite lookup_alter_ne.
  - intros e d' Hf <- _. apply Hleft; [apply pruned_nil|done].
Qed.
End tree_at.
End deletion.

Lemma update_elsewhere p name f d q other :
  (q, other) ≠ (p, name) → (∀ es, other ≠ name → f es !! other = es !! other) →
  profile_entry q other (update_profiles p f d) = profile_entry q other d.
Proof.
  intros Hne Hf. destruct (decide (q = p)) as [->|Hq].
  - rewrite profile_entry_update. unfold profile_entry. destruct (provider_dir p d) as [[pm es]|]; [|done].
    apply Hf. congruence.
  - unfold profile_entry, update_profiles. destruct (provider_dir p d) as [[pm es]|] eqn:Hp; [|done]. by destruct q, p.
Qed.
Lemma update_profiles_files p f d : dr_files (update_profiles p f d) = dr_files d.
Proof. unfold update_profiles. by destruct (provider_dir p d) as [[]|], p. Qed.

(** C19. Deleting a sound tree deletes all of it and returns, unless a call is
    disturbed: then what is left is the tree with entries missing, never with
    an entry that was not there, and no other entry or file is touched. *)
Theorem deletion_all_or_pruned {SC : Sha256Crate} h roots p name w pm m entries es id :
  provider_dir p (w_disk w) = Some (pm, entries) → entries !! name = Some (Directory m es) →
  rr_provider_root roots = identity_of pm →
  on_mount roots pm → accepted_tree h roots id false m es →
  let '(r, w') := remove_owned_directory_at h p name (identity_of pm) (identity_of m) (rr_provider_mount roots)
                    MAX_REMOVAL_TREE_ENTRIES MAX_REMOVAL_TREE_DEPTH w in
  (quiet h (w_clock w) → r = Ok ()) ∧ dr_files (w_disk w') = dr_files (w_disk w) ∧
  (∀ q other, (q, other) ≠ (p, name) → profile_entry q other (w_disk w') = profile_entry q other (w_disk w)) ∧
  match r with
  | Ok _ => profile_entry p name (w_disk w') = None
  | Err _ => ∃ es', pruned es es' ∧ profile_entry p name (w_disk w') = Some (Directory m es')
  end.
Proof.
  intros Hp Ht Hroot Hmount%same_mount_Ok Hs%sound_tree_accepted.
  destruct (remove_owned_directory_at_spec h (w_clock w) roots p name (w_disk w) pm m entries es Hp Ht) with
    (max_entries := MAX_REMOVAL_TREE_ENTRIES) (w := w) as [_ H]; try done.
  - by rewrite Hroot.
  - apply check_entry_check_directory, (st_ready _ _ _ _ _ _ Hs).
  - apply (st_safe _ _ _ _ _ _ Hs).
  - pose proof (st_size _ _ _ _ _ _ Hs). unfold MAX_REMOVAL_TREE_ENTRIES, u64_max in *. lia.
  - destruct (remove_owned_directory_at _ _ _ _ _ _ _ _ w) as [[[]|e] w'].
    + rewrite H. split_and!; [done|apply update_profiles_files| |].
      * intros q other Hne. apply (update_elsewhere p name); [done|]. intros. by rewrite lookup_delete_ne.
      * rewrite profile_entry_update, Hp. by rewrite lookup_delete_eq.
    + destruct H as (Hd & es' & Hpr & ->). split_and!; [done|apply update_profiles_files| |].
      * intros q other Hne. apply (update_elsewhere p name); [done|]. intros. by rewrite lookup_alter_ne.
      * exists es'. split; [done|]. by eapply tree_with.
Qed.
