(* ===== verification/RemovalDisk.v ===== *)
(** * The disk during a removal

    What a removal in progress can have left: which registry the registry file
    holds, the journal, a temporary file of the journal, and where the tree of
    the profile is. Everything else is as it was before the removal began. What
    the programs that only read see of such a disk is computed here. *)
From Stdlib Require Import Ascii.
From S2P Require Import Prelude Interfaces ConversationData ConversationStore CodexLines Profiles ProfileDisk ProfileLogic RemovalTree RemovalTreeProofs RemovalDeletion ProfileRegistry ManagedHome Reauth ProfileRemoval.

Open Scope Z_scope.

(** ** Names *)

Lemma strip_prefix_str_Some p s r : strip_prefix_str p s = Some r ↔ s = p +:+ r.
Proof.
  revert s; induction p as [|a p IH]; intros s; cbn; [naive_solver|]. destruct s as [|b s]; [done|].
  destruct (Ascii.eqb_spec a b) as [->|Hne].
  - rewrite IH. split; [by intros ->|by intros [= ->]].
  - split; [done|]. by intros [= ? ?].
Qed.
Lemma string_app_cons c s t : String c s +:+ t = String c (s +:+ t).
Proof. done. Qed.
Lemma strip_suffix_str_Some suffix s r : strip_suffix_str suffix s = Some r → s = r +:+ suffix.
Proof.
  revert r; induction s as [|c s IH]; intros r; cbn [strip_suffix_str].
  - destruct (String.eqb_spec "" suffix) as [<-|]; [by intros [= <-]|done].
  - destruct (String.eqb_spec (String c s) suffix) as [<-|]; [by intros [= <-]|].
    destruct (strip_suffix_str suffix s) as [r'|]; [|done]. intros [= <-]. by rewrite string_app_cons, <- (IH r').
Qed.
Lemma string_app_assoc s t u : s +:+ (t +:+ u) = (s +:+ t) +:+ u.
Proof. induction s as [|c s IH]; [done|]. by rewrite !string_app_cons, IH. Qed.
Lemma string_length_app s t : String.length (s +:+ t) = (String.length s + String.length t)%nat.
Proof. induction s as [|c s IH]; [done|]. cbn. by rewrite <- IH. Qed.
Lemma strip_suffix_str_app suffix s : strip_suffix_str suffix (s +:+ suffix) = Some s.
Proof.
  induction s as [|c s IH].
  - change ("" +:+ suffix) with suffix. destruct suffix; cbn [strip_suffix_str]; [done|]. by rewrite String.eqb_refl.
  - rewrite string_app_cons. cbn [strip_suffix_str]. destruct (String.eqb_spec (String c (s +:+ suffix)) suffix) as [He|]; [|by rewrite IH].
    apply (f_equal String.length) in He. cbn in He. rewrite string_length_app in He. lia.
Qed.

(** Names the code can turn into strings; ASCII names are. *)
Definition plain (name : string) : Prop := from_utf8 (name_bytes name) = Some name.

Lemma name_bytes_cons c s : name_bytes (String c s) = Z.of_nat (nat_of_ascii c) :: name_bytes s.
Proof. done. Qed.
Lemma name_bytes_app s t : name_bytes (s +:+ t) = name_bytes s ++ name_bytes t.
Proof. induction s as [|c s IH]; [done|]. rewrite string_app_cons, !name_bytes_cons, IH. done. Qed.
Lemma string_of_name_bytes s : string_of_bytes (name_bytes s) = s.
Proof.
  induction s as [|c s IH]; [done|]. rewrite name_bytes_cons. unfold string_of_bytes in *. cbn [fmap list_fmap String.string_of_list_ascii].
  rewrite IH. f_equal. rewrite <- nat_N_Z, N2Z.id. apply ascii_nat_embedding.
Qed.
Lemma utf8_ascii_app s l : str_all is_ascii s = true → utf8_valid (name_bytes s ++ l) = utf8_valid l.
Proof.
  induction s as [|c s IH]; [done|]. rewrite name_bytes_cons. unfold str_all in *. cbn [str_bytes String.list_ascii_of_string forallb].
  intros [Hc Hs]%andb_true_iff. cbn [app utf8_valid]. unfold is_ascii in Hc. apply Nat.leb_le in Hc.
  rewrite (proj2 (Z.leb_le _ _)) by lia. rewrite (proj2 (Z.leb_le 0 _)) by lia. by apply IH.
Qed.
Lemma plain_valid s : utf8_valid (name_bytes s) = true → plain s.
Proof. intros H. unfold plain, from_utf8. by rewrite H, string_of_name_bytes. Qed.
Lemma ascii_plain s : str_all is_ascii s = true → plain s.
Proof. intros H. apply plain_valid. rewrite <- (app_nil_r (name_bytes s)). by rewrite utf8_ascii_app. Qed.
Lemma str_all_app f s t : str_all f (s +:+ t) = str_all f s && str_all f t.
Proof.
  unfold str_all, str_bytes. induction s as [|c s IH]; [done|]. rewrite string_app_cons.
  cbn [String.list_ascii_of_string forallb]. by rewrite IH, andb_assoc.
Qed.
Lemma into_string_plain {E} name (e : E) : plain name → into_string name e = Ok name.
Proof. unfold into_string. by intros ->. Qed.

Lemma temporary_name_strip name uuid :
  strip_prefix_str ("." +:+ name +:+ ".") (temporary_name name uuid) ≫= strip_suffix_str ".tmp" = Some uuid.
Proof.
  assert (strip_prefix_str ("." +:+ name +:+ ".") (temporary_name name uuid) = Some (uuid +:+ ".tmp")) as ->.
  { apply strip_prefix_str_Some. unfold temporary_name. by rewrite !string_app_assoc. }
  cbn. apply strip_suffix_str_app.
Qed.
(** The identifier in the name of a temporary file of the journal. *)
Definition journal_temporary_uuid (name : string) : option string :=
  strip_prefix_str ("." +:+ REMOVAL_JOURNAL_FILE +:+ ".") name ≫= strip_suffix_str ".tmp".
Abbreviation registry_temporary := (temporary_name REGISTRY_FILE).
Abbreviation removal_temporary := (temporary_name REMOVAL_JOURNAL_FILE).
Lemma removal_temporary_uuid uuid : journal_temporary_uuid (removal_temporary uuid) = Some uuid.
Proof. apply temporary_name_strip. Qed.
Lemma journal_temporary_name name uuid :
  journal_temporary_uuid name = Some uuid → name = removal_temporary uuid.
Proof.
  unfold journal_temporary_uuid. destruct (strip_prefix_str _ name) as [r|] eqn:Hr; [|done].
  apply strip_prefix_str_Some in Hr as ->. intros Hs%strip_suffix_str_Some. cbn in Hs. subst r.
  unfold temporary_name. by rewrite !string_app_assoc.
Qed.
Lemma registry_temporary_uuid uuid : journal_temporary_uuid (registry_temporary uuid) = None.
Proof. done. Qed.
Lemma temporary_name_plain name uuid :
  str_all is_ascii name = true → str_all is_ascii uuid = true → plain (temporary_name name uuid).
Proof. intros Hn Hu. apply ascii_plain. unfold temporary_name. rewrite !str_all_app, Hn, Hu. done. Qed.

Lemma plain_is_valid name : plain name → utf8_valid (name_bytes name) = true.
Proof. unfold plain, from_utf8. by destruct (utf8_valid _). Qed.
Lemma removing_plain id : plain id → plain (removing id).
Proof.
  intros Hid%plain_is_valid. apply plain_valid. unfold removing. rewrite name_bytes_app.
  by rewrite utf8_ascii_app.
Qed.
Lemma removing_ne id : removing id ≠ id.
Proof. unfold removing. intros He. apply (f_equal String.length) in He. rewrite string_length_app in He. cbn in He. lia. Qed.
Lemma strip_removing id : strip_prefix_str ".removing-" (removing id) = Some id.
Proof. by apply strip_prefix_str_Some. Qed.

(** ** Scans *)

(** Names among which at most one, [removing id], is a tombstone's. *)
Definition scannable (id name : string) : Prop :=
  plain name ∧ (name = removing id ∨ strip_prefix_str ".removing-" name = None).

Section scans.
Context {UC : UuidCrate} (h : Host).

Lemma tombstone_scan p id names found :
  validate_profile_id id = Ok () → NoDup names → Forall (scannable id) names →
  (removing id ∈ names → found = []) →
  fold_result (tombstone_step p) found names =
    Ok (found ++ if bool_decide (removing id ∈ names) then [(p, id)] else []).
Proof.
  intros Hid Hnd. revert found. induction Hnd as [|name names Hn Hnd IH]; intros found Hs Hf.
  { cbn. by rewrite app_nil_r. }
  apply Forall_cons in Hs as [[Hp Hname] Hs]. cbn [fold_result]. destruct Hname as [->|Hname].
  - assert (tombstone_step p found (removing id) = Ok [(p, id)]) as ->.
    { unfold tombstone_step. rewrite into_string_plain by done. cbn [mbind result_bind].
      rewrite strip_removing, Hid, Hf by by left. done. }
    cbn [mbind result_bind]. rewrite IH; [|done|set_solver]. rewrite bool_decide_false by done.
    rewrite bool_decide_true by by left. by rewrite Hf by by left.
  - assert (tombstone_step p found name = Ok found) as ->.
    { unfold tombstone_step. rewrite into_string_plain by done. cbn [mbind result_bind]. by rewrite Hname. }
    cbn [mbind result_bind].
    assert (name ≠ removing id) as Hne by (intros ->; by rewrite strip_removing in Hname).
    rewrite IH by set_solver.
    by rewrite (bool_decide_ext (removing id ∈ name :: names) (removing id ∈ names)) by set_solver.
Qed.
(** A scan that found nothing has seen no tombstone. *)
Lemma tombstone_scan_none p found names :
  fold_result (tombstone_step p) found names = Ok [] →
  Forall (fun name => plain name ∧ strip_prefix_str ".removing-" name = None) names.
Proof.
  assert (∀ names found r, fold_result (tombstone_step p) found names = Ok r → r = [] → found = [] ∧
    Forall (fun name => plain name ∧ strip_prefix_str ".removing-" name = None) names) as Hscan.
  { clear. induction names as [|name names IH]; intros found r; cbn [fold_result]; [by intros [= ->]|].
    intros H ->. apply bind_Ok in H as (found' & Hstep & H). destruct (IH _ _ H eq_refl) as [-> Hall].
    unfold tombstone_step, into_string in Hstep. inv_ok.
    assert (plain name) as Hp.
    { apply plain_valid. unfold from_utf8 in Hok. by destruct (utf8_valid (name_bytes name)). }
    assert (a = name) as -> by (unfold plain in Hp; congruence).
    destruct (strip_prefix_str ".removing-" name) as [id|] eqn:Hid.
    - inv_ok. by destruct found.
    - injection Hstep as ->. split; [done|]. by apply Forall_cons. }
  intros H. by destruct (Hscan _ _ _ H eq_refl).
Qed.

Lemma names_NoDup (es : gmap string Node) : NoDup (map_to_list es).*1.
Proof. apply NoDup_fst_map_to_list. Qed.
Lemma elem_of_names (es : gmap string Node) name : name ∈ (map_to_list es).*1 ↔ is_Some (es !! name).
Proof.
  rewrite list_elem_of_fmap. split.
  - intros ([k n] & -> & Hk%elem_of_map_to_list). by eexists.
  - intros [n Hn]. exists (name, n). by rewrite elem_of_map_to_list.
Qed.

(** What every file must be for a scan of the data root to succeed: at most
    [t] is the identifier of a temporary of the journal. *)
Definition file_ok (t : option string) (name : string) (n : Node) : Prop :=
  plain name ∧
  match journal_temporary_uuid name with
  | None => True
  | Some uuid =>
      t = Some uuid ∧ validate_profile_id uuid = Ok () ∧ private_single_link_regular h (Some n) = Ok () ∧
      metadata_len n ≤ MAX_REMOVAL_JOURNAL_BYTES
  end.
Definition temporaries_are (t : option string) (files : gmap string Node) : Prop :=
  (∀ name n, files !! name = Some n → file_ok t name n) ∧
  match t with Some uuid => is_Some (files !! removal_temporary uuid) | None => True end.

Lemma temporary_scan_from t l found :
  NoDup l.*1 → (∀ name n, (name, n) ∈ l → file_ok t name n) →
  (∀ uuid, t = Some uuid → removal_temporary uuid ∈ l.*1 → found = []) →
  fold_result (temporary_step h) found l =
    Ok (found ++ match t with
                 | Some uuid => if bool_decide (removal_temporary uuid ∈ l.*1) then [removal_temporary uuid] else []
                 | None => []
                 end).
Proof.
  revert found. induction l as [|[name n] l IH]; intros found Hnd Hok Hf.
  { cbn. destruct t; by rewrite app_nil_r. }
  cbn [fmap list_fmap fst] in Hnd, Hf |- *. apply NoDup_cons in Hnd as [Hn Hnd]. cbn [fold_result].
  destruct (Hok name n) as [Hp Hname]; [by left|].
  destruct (journal_temporary_uuid name) as [uuid|] eqn:Huuid.
  - destruct Hname as (-> & Hid & Hpriv & Hlen). pose proof (journal_temporary_name _ _ Huuid) as Hr.
    assert (found = []) as -> by (apply (Hf uuid eq_refl); rewrite <- Hr; by left).
    assert (temporary_step h [] (name, n) = Ok [name]) as ->.
    { unfold temporary_step. cbn [fst snd]. rewrite into_string_plain by done. cbn [mbind result_bind].
      unfold journal_temporary_uuid in Huuid. rewrite Huuid, Hid, Hpriv. cbn [map_err mbind result_bind].
      by rewrite (proj2 (Z.ltb_ge MAX_REMOVAL_JOURNAL_BYTES (metadata_len n)) Hlen). }
    cbn [mbind result_bind]. rewrite IH; [|done|set_solver|].
    + rewrite <- Hr. rewrite bool_decide_false by done. by rewrite bool_decide_true by by left.
    + intros uuid' [= <-]. rewrite <- Hr. by intros ?%Hn.
  - assert (temporary_step h found (name, n) = Ok found) as ->.
    { unfold temporary_step. cbn [fst snd]. rewrite into_string_plain by done. cbn [mbind result_bind].
      unfold journal_temporary_uuid in Huuid. by rewrite Huuid. }
    cbn [mbind result_bind]. rewrite IH; [|done|set_solver|].
    + destruct t as [uuid|]; [|done].
      assert (removal_temporary uuid ≠ name) by (intros <-; by rewrite removal_temporary_uuid in Huuid).
      by rewrite (bool_decide_ext (removal_temporary uuid ∈ name :: l.*1) (removal_temporary uuid ∈ l.*1)) by set_solver.
    + intros uuid -> Hin. apply (Hf uuid eq_refl). by right.
Qed.
Lemma temporary_scan t files :
  temporaries_are t files →
  fold_result (temporary_step h) [] (map_to_list files) = Ok (removal_temporary <$> option_list t).
Proof.
  intros [Hall Ht]. rewrite (temporary_scan_from t).
  - destruct t as [uuid|]; [|done]. by rewrite bool_decide_true by by apply elem_of_names.
  - apply names_NoDup.
  - intros name n Hin%elem_of_map_to_list. by apply Hall.
  - done.
Qed.
(** A scan that found nothing has seen no temporary of the journal. *)
Lemma temporary_scan_none files :
  fold_result (temporary_step h) [] (map_to_list files) = Ok [] → temporaries_are None files.
Proof.
  assert (∀ l found r, fold_result (temporary_step h) found l = Ok r → r = [] → found = [] ∧
    ∀ name n, (name, n) ∈ l → file_ok None name n) as Hscan.
  { induction l as [|[name n] l IH]; intros found r; cbn [fold_result]; [intros [= ->]; by split; [|set_solver]|].
    intros H ->. apply bind_Ok in H as (found' & Hstep & H). destruct (IH _ _ H eq_refl) as [-> Hall].
    unfold temporary_step, into_string in Hstep. inv_ok. cbn [fst snd] in *.
    assert (plain name) as Hp.
    { apply plain_valid. unfold from_utf8 in Hok. by destruct (utf8_valid (name_bytes name)). }
    assert (a = name) as -> by (unfold plain in Hp; congruence).
    fold (journal_temporary_uuid name) in Hstep. destruct (journal_temporary_uuid name) as [uuid|] eqn:Hid.
    - inv_ok. by destruct found.
    - injection Hstep as ->. split; [done|]. intros name' n' [[= -> ->]|?]%elem_of_cons; [|by apply Hall].
      split; [done|]. by rewrite Hid. }
  intros H. destruct (Hscan _ _ _ H eq_refl) as [_ Hall]. split; [|done].
  intros name n Hn. apply Hall. by apply elem_of_map_to_list.
Qed.
End scans.

(** ** Widths of the fields, and the serialisers *)

Definition in_u64 (z : Z) : Prop := 0 ≤ z ≤ u64_max.
Definition identity_in_range (i : FileSystemIdentity) : Prop := in_u64 (device i) ∧ in_u64 (inode i).
Definition registered_in_range (p : Profile) : Prop := - 2 ^ 63 ≤ profile_created_at p < 2 ^ 63.
Definition registry_in_range (d : RegistryDocument) : Prop :=
  0 ≤ registry_schema_version d ≤ 255 ∧ Forall registered_in_range (registry_profiles d).
Definition removal_in_range (j : RemovalJournal) : Prop :=
  0 ≤ rj_schema_version j ≤ 255 ∧ registered_in_range (rj_profile j) ∧ in_u64 (rj_profile_tree_entry_count j) ∧
  Forall identity_in_range [rj_data_root j; rj_profiles_root j; rj_provider_root j; rj_profile_tree j].
Definition barrier_in_range (b : RemovalRegistryBarrier) : Prop :=
  0 ≤ rb_schema_version b ≤ 255 ∧ removal_in_range (rb_removal b) ∧ registry_in_range (rb_expected_registry b).

(** The schema version that is read of what was written. *)
Class RegistryHeaderLaws {RH : RegistryHeader} {JR : JsonCodec RegistryDocument}
    {JB : JsonCodec RemovalRegistryBarrier} : Prop := {
  header_of_document d b :
    registry_in_range d → to_vec d = Some b → header_schema_version b = Some (registry_schema_version d);
  header_of_barrier d b :
    barrier_in_range d → to_vec d = Some b → header_schema_version b = Some (rb_schema_version d);
}.

(** ** One removal *)

Definition other_provider (p : Provider) : Provider := match p with Claude => Codex | Codex => Claude end.

(** The entries of a provider with this under the name of the profile and
    that under the name of its tombstone. *)
Definition arrange (id : string) (orig tomb : option Node) (es : gmap string Node) : gmap string Node :=
  partial_alter (fun _ => tomb) (removing id) (partial_alter (fun _ => orig) id es).

Lemma arrange_id id orig tomb es : arrange id orig tomb es !! id = orig.
Proof.
  unfold arrange. rewrite lookup_partial_alter_ne by apply removing_ne. by rewrite lookup_partial_alter_eq.
Qed.
Lemma arrange_removing id orig tomb es : arrange id orig tomb es !! removing id = tomb.
Proof. unfold arrange. by rewrite lookup_partial_alter_eq. Qed.
Lemma arrange_other id orig tomb es name :
  name ≠ id → name ≠ removing id → arrange id orig tomb es !! name = es !! name.
Proof. intros. unfold arrange. by rewrite !lookup_partial_alter_ne. Qed.
Lemma arrange_ext id orig tomb es es' :
  es' !! id = orig → es' !! removing id = tomb →
  (∀ name, name ≠ id → name ≠ removing id → es' !! name = es !! name) → es' = arrange id orig tomb es.
Proof.
  intros Hi Ht Ho. apply map_eq. intros name. destruct (decide (name = id)) as [->|].
  { by rewrite arrange_id. }
  destruct (decide (name = removing id)) as [->|]; [by rewrite arrange_removing|].
  rewrite arrange_other by done. by apply Ho.
Qed.

(** Files a removal writes; the others are not its business. *)
Definition transient (name : string) : bool :=
  str_in name [REGISTRY_FILE; REMOVAL_JOURNAL_FILE; LOCK_FILE; REMOVAL_LOCK_FILE]
  || is_prefix ("." +:+ REGISTRY_FILE +:+ ".") name || is_prefix ("." +:+ REMOVAL_JOURNAL_FILE +:+ ".") name.

(** The profile, the registry with and without it, the journal, the
    directories around its tree, the tree, and the disk before. *)
Record Removal := mkRemoval {
  rm_registry : RegistryDocument;
  rm_removed : RegistryDocument;
  rm_journal : RemovalJournal;
  rm_roots : RemovalRoots;
  rm_meta : Meta;
  rm_tree : Entries;
  rm_base : DataRoot;
}.
Definition rm_profile (x : Removal) : Profile := rj_profile (rm_journal x).
Definition rm_id (x : Removal) : string := profile_id (rm_profile x).
Definition rm_provider (x : Removal) : Provider := profile_provider (rm_profile x).
Definition rm_whole (x : Removal) : Node := Directory (rm_meta x) (rm_tree x).
Definition rm_barrier (x : Removal) : RemovalRegistryBarrier :=
  mkRemovalRegistryBarrier REMOVAL_REGISTRY_BARRIER_SCHEMA_VERSION (rm_journal x) (rm_registry x).

Section state.
Context {UC : UuidCrate} {SC : Sha256Crate} {RH : RegistryHeader}.
Context {JR : JsonCodec RegistryDocument} {JB : JsonCodec RemovalRegistryBarrier} {JM : JsonCodec RemovalJournal}.
Context (h : Host).

Implicit Types files : gmap string Node.

(** The host names new files with canonical identifiers. *)
Definition canonical_uuids : Prop :=
  ∀ n, validate_profile_id (h_new_v4 h n) = Ok () ∧ str_all is_ascii (h_new_v4 h n) = true.

(** The registry file holds [s]; after a removal began it has one link. *)
Definition registry_holds (strict : bool) (s : RegistryState) files : Prop :=
  ∃ m b, files !! REGISTRY_FILE = Some (RegularFile m b) ∧
    (if strict then private_single_link_regular h (Some (RegularFile m b))
     else private_regular h (Some (RegularFile m b))) = Ok () ∧
    decode_registry_state (take (Z.to_nat (MAX_REMOVAL_REGISTRY_BARRIER_BYTES + 1)) b) = Ok s.
Definition journal_holds (j : option RemovalJournal) files : Prop :=
  match j with
  | None => files !! REMOVAL_JOURNAL_FILE = None
  | Some j =>
      ∃ m b, files !! REMOVAL_JOURNAL_FILE = Some (RegularFile m b) ∧
        private_single_link_regular h (Some (RegularFile m b)) = Ok () ∧
        len b ≤ MAX_REMOVAL_JOURNAL_BYTES ∧ from_slice b = Some j ∧ validate_journal j = Ok ()
  end.
Definition lock_ok (name : string) files : Prop :=
  match files !! name with
  | Some n => private_single_link_regular h (Some n) = Ok ()
  | None => True
  end.
(** The old registry can be published again: it fits. *)
Definition publishable (document : RegistryDocument) : Prop :=
  ∃ b, to_vec document = Some b ∧ len b ≤ MAX_REGISTRY_BYTES.
(** No file has a name the host will give to a temporary file of the registry
    from the [c]-th call on. *)
Definition fresh (c : nat) files : Prop :=
  ∀ n, (c ≤ n)%nat → files !! registry_temporary (h_new_v4 h n) = None.

(** The files of the data root; [v] promises that they are [fresh] from some
    call on. *)
Record filed (x : Removal) (v : option nat) (strict : bool) (s : RegistryState) (j : option RemovalJournal)
    (t : option string) files : Prop := {
  fl_registry : registry_holds strict s files;
  fl_journal : journal_holds j files;
  fl_temporaries : temporaries_are h t files;
  fl_lock : lock_ok LOCK_FILE files;
  fl_removal_lock : lock_ok REMOVAL_LOCK_FILE files;
  fl_kept name : transient name = false → files !! name = dr_files (rm_base x) !! name;
  fl_fresh c : v = Some c → fresh c files;
}.
(** The directories, with [orig] and [tomb] at the two places of the tree. *)
Record placed (x : Removal) (orig tomb : option Node) (d : DataRoot) : Prop := {
  pl_root : dr_root d = dr_root (rm_base x);
  pl_profiles : dr_profiles d = dr_profiles (rm_base x);
  pl_other : provider_dir (other_provider (rm_provider x)) d =
    provider_dir (other_provider (rm_provider x)) (rm_base x);
  pl_provider : provider_dir (rm_provider x) d =
    (fun dir => (fst dir, arrange (rm_id x) orig tomb (snd dir))) <$> provider_dir (rm_provider x) (rm_base x);
}.
Definition shape (x : Removal) (v : option nat) (strict : bool) (s : RegistryState) (j : option RemovalJournal)
    (t : option string) (orig tomb : option Node) (d : DataRoot) : Prop :=
  placed x orig tomb d ∧ filed x v strict s j t (dr_files d).

(** Where a removal starts: the data root is private, the profile has its
    directory, and the names in the directories of the providers are text and
    none is a tombstone's. *)
Record standing (x : Removal) : Prop := {
  st_root : ∃ m, dr_root (rm_base x) = Some m ∧ private_directory h (Some m) = Ok m;
  st_id : validate_profile_id (rm_id x) = Ok ();
  st_here : profile_entry (rm_provider x) (rm_id x) (rm_base x) = Some (rm_whole x);
  st_scan p m es : provider_dir p (rm_base x) = Some (m, es) →
    private_directory h (Some m) = Ok m ∧
    ∀ name, is_Some (es !! name) → plain name ∧ strip_prefix_str ".removing-" name = None;
}.
(** What was checked before the barrier is published. *)
Record prepared (x : Removal) : Prop := {
  pr_barrier : validate_barrier (rm_barrier x) = Ok ();
  pr_removed : matches_removed_registry (rm_journal x) (rm_removed x) = Ok true;
  pr_registry_range : registry_in_range (rm_registry x);
  pr_removed_range : registry_in_range (rm_removed x);
  pr_journal_range : removal_in_range (rm_journal x);
  pr_roots : removal_roots h (rm_provider x) (Some (rm_journal x)) (rm_base x) = Ok (rm_roots x);
  pr_tree name : tree_name (rm_id x) name →
    validate_owned_removal_tree h (rm_roots x) name (Some (rm_whole x)) (rm_id x)
      (Some (tree_snapshot (rm_journal x))) = Ok (tree_snapshot (rm_journal x));
  pr_names : NoDup (rm_tree x).*1;
  pr_coordinator : private_single_link_regular h (lookup_entry COORDINATOR_LOCK_FILE (rm_tree x)) = Ok ();
  pr_provider_lock : private_single_link_regular h (lookup_entry PROVIDER_LOCK_FILE (rm_tree x)) = Ok ();
}.
End state.

(** ** What is seen of such a disk *)

Section seen.
Context {UC : UuidCrate} {SC : Sha256Crate} {RH : RegistryHeader}.
Context {JR : JsonCodec RegistryDocument} {JB : JsonCodec RemovalRegistryBarrier} {JM : JsonCodec RemovalJournal}.
Context (h : Host) (x : Removal).
Implicit Types files : gmap string Node.

Lemma single_link_regular n : private_single_link_regular h n = Ok () → private_regular h n = Ok ().
Proof. unfold private_single_link_regular. by intros [H _]%bind_unit_Ok. Qed.

Lemma registry_of_holds strict s d :
  registry_holds h strict s (dr_files d) → registry_of h d = Ok s.
Proof.
  intros (m & b & Hf & Hp & Hd). unfold registry_of. rewrite Hf. unfold verified.
  assert (private_regular h (Some (RegularFile m b)) = Ok ()) as -> by (destruct strict; [by apply single_link_regular|done]).
  done.
Qed.
Lemma existing_of_holds s d : registry_holds h true s (dr_files d) → existing_of h d = Ok s.
Proof.
  intros (m & b & Hf & Hp & Hd). unfold existing_of. rewrite Hf. unfold verified. rewrite Hp.
  cbn [mbind result_bind]. by rewrite Hd.
Qed.
Lemma registry_holds_weaken strict s files : registry_holds h true s files → registry_holds h strict s files.
Proof.
  intros (m & b & Hf & Hp & Hd). exists m, b. split_and!; [done| |done].
  destruct strict; [done|by apply single_link_regular].
Qed.
Lemma journal_of_holds j d : journal_holds h j (dr_files d) → journal_of h d = Ok j.
Proof.
  unfold journal_holds, journal_of. destruct j as [j|]; [|by intros ->].
  intros (m & b & -> & Hp & Hl & Hj & Hv). unfold verified. rewrite Hp. cbn [mbind result_bind map_err].
  rewrite take_ge by (unfold len in *; lia).
  rewrite (proj2 (Z.ltb_ge MAX_REMOVAL_JOURNAL_BYTES (len b)) Hl). cbn [reject_if mbind result_bind].
  rewrite Hj. cbn [ok_or mbind result_bind]. by rewrite Hv.
Qed.
Lemma temporaries_in_holds t d :
  temporaries_are h t (dr_files d) → temporaries_in h d = Ok (removal_temporary <$> option_list t).
Proof. apply temporary_scan. Qed.

Context (Hst : standing h x) (Hx : prepared h x).
Abbreviation id := (rm_id x).
Abbreviation p := (rm_provider x).

Lemma barrier_parts :
  validate_journal (rm_journal x) = Ok () ∧ validate_document (rm_registry x) = Ok () ∧
  matches_expected_registry (rm_journal x) (rm_registry x) = Ok true ∧
  target_is_absent (rm_journal x) (rm_removed x) = true.
Proof using Hx.
  pose proof (pr_barrier _ _ Hx) as H. unfold validate_barrier in H. unfold rm_barrier in H.
  cbn [rb_removal rb_expected_registry rb_schema_version] in H.
  apply bind_unit_Ok in H as [_ H]. apply bind_unit_Ok in H as [Hj H]. apply bind_unit_Ok in H as [Hd%map_err_Ok H].
  apply bind_Ok in H as (matches & Hm & H). apply bind_unit_Ok in H as [->%reject_if_Ok%negb_false_iff _].
  split_and!; [done..|]. pose proof (pr_removed _ _ Hx) as Hr. unfold matches_removed_registry in Hr. inv_ok.
  by apply andb_true_iff in Hr as [_ ?].
Qed.
Lemma journal_valid : validate_journal (rm_journal x) = Ok ().
Proof using Hx. apply barrier_parts. Qed.
Lemma provider_here : ∃ m es, provider_dir p (rm_base x) = Some (m, es) ∧ es !! id = Some (rm_whole x).
Proof using Hst.
  pose proof (st_here _ _ Hst) as H. unfold profile_entry in H.
  destruct (provider_dir p (rm_base x)) as [[m es]|]; [|done]. by exists m, es.
Qed.

Section placed.
Context (orig tomb : option Node) (d : DataRoot) (Hd : placed x orig tomb d).

Lemma entry_original : profile_entry p id d = orig.
Proof using Hd Hst.
  unfold profile_entry. rewrite (pl_provider _ _ _ _ Hd). destruct provider_here as (m & es & -> & _).
  cbn. apply arrange_id.
Qed.
Lemma entry_tombstone : profile_entry p (removing id) d = tomb.
Proof using Hd Hst.
  unfold profile_entry. rewrite (pl_provider _ _ _ _ Hd). destruct provider_here as (m & es & -> & _).
  cbn. apply arrange_removing.
Qed.
Lemma provider_meta_placed q : provider_meta q d = provider_meta q (rm_base x).
Proof using Hd.
  unfold provider_meta. destruct (decide (q = p)) as [->|Hq].
  - rewrite (pl_provider _ _ _ _ Hd). by destruct (provider_dir p (rm_base x)).
  - assert (q = other_provider p) as -> by (by destruct q, p). by rewrite (pl_other _ _ _ _ Hd).
Qed.
Lemma roots_placed expected : removal_roots h p expected d = removal_roots h p expected (rm_base x).
Proof using Hd.
  unfold removal_roots. by rewrite (pl_root _ _ _ _ Hd), (pl_profiles _ _ _ _ Hd), provider_meta_placed.
Qed.

Lemma scan_provider found :
  found = [] →
  tombstones_of h p found d = Ok (if bool_decide (is_Some tomb) then [(p, id)] else []).
Proof using Hd Hst.
  intros ->. unfold tombstones_of. rewrite (pl_provider _ _ _ _ Hd).
  destruct provider_here as (m & es & Hes & Hid). rewrite Hes. cbn [fmap option_fmap option_map fst snd].
  destruct (st_scan _ _ Hst _ _ _ Hes) as [-> Hs]. cbn [mbind result_bind].
  pose proof (removing_plain _ (proj1 (Hs id (ex_intro _ _ Hid)))) as Hplain.
  rewrite (tombstone_scan p id).
  - cbn [app]. rewrite (bool_decide_ext _ (is_Some tomb)); [done|].
    rewrite elem_of_names. by rewrite arrange_removing.
  - apply (st_id _ _ Hst).
  - apply names_NoDup.
  - apply Forall_forall. intros name Hname%elem_of_names. destruct (decide (name = removing id)) as [->|Hr].
    { split; [done|by left]. }
    destruct (decide (name = id)) as [->|Hi].
    { destruct (Hs id) as [? ?]; [by eexists|]. split; [done|by right]. }
    rewrite arrange_other in Hname by done. destruct (Hs name Hname). split; [done|by right].
  - done.
Qed.
Lemma scan_other found :
  tombstones_of h (other_provider p) found d = Ok found.
Proof using Hd Hst.
  unfold tombstones_of. rewrite (pl_other _ _ _ _ Hd).
  destruct (provider_dir (other_provider p) (rm_base x)) as [[m es]|] eqn:Hes; [|done].
  destruct (st_scan _ _ Hst _ _ _ Hes) as [-> Hs]. cbn [mbind result_bind].
  assert (∀ names, (∀ name, name ∈ names → plain name ∧ strip_prefix_str ".removing-" name = None) →
    fold_result (tombstone_step (other_provider p)) found names = Ok found) as Hscan.
  { induction names as [|name names IH]; intros Hn; [done|]. cbn [fold_result].
    destruct (Hn name) as [Hp Hr]; [by left|].
    assert (tombstone_step (other_provider p) found name = Ok found) as ->.
    { unfold tombstone_step. rewrite into_string_plain by done. cbn [mbind result_bind]. by rewrite Hr. }
    cbn [mbind result_bind]. apply IH. intros. apply Hn. by right. }
  apply Hscan. intros name Hn%elem_of_names. by apply Hs.
Qed.
Lemma tombstones_placed :
  tombstones_in h d = Ok (if bool_decide (is_Some tomb) then [(p, id)] else []).
Proof using Hd Hst.
  unfold tombstones_in. pose proof scan_provider as Hp. pose proof scan_other as Ho. destruct p; cbn [other_provider] in *.
  - rewrite Hp by done. cbn [mbind result_bind]. by rewrite Ho.
  - rewrite Ho. cbn [mbind result_bind]. by rewrite Hp.
Qed.
End placed.

(** ** The tree *)

Lemma tree_sound :
  sound_tree h (rm_roots x) id true (rm_meta x) (rm_tree x) ∧
  rj_profile_tree (rm_journal x) = identity_of (rm_meta x) ∧
  rj_profile_tree_entry_count (rm_journal x) = Z.of_nat (entries_size (rm_tree x)).
Proof using Hx.
  pose proof (pr_tree _ _ Hx id (or_introl eq_refl)) as H. unfold validate_owned_removal_tree in H.
  apply bind_Ok in H as (sn & Hsn & H). apply bind_unit_Ok in H as [_ [= ->]].
  apply validate_inner_Ok in Hsn as (m & es & [= <- <-] & _ & _ & Hs & Hr & Hc). done.
Qed.
Lemma pruned_sound es : pruned (rm_tree x) es → sound_tree h (rm_roots x) id false (rm_meta x) es.
Proof using Hx. apply sound_tree_pruned; [apply (pr_names _ _ Hx)|apply tree_sound]. Qed.

Lemma tree_at_whole name d :
  tree_name id name → profile_entry p name d = Some (rm_whole x) →
  tree_at h (rm_roots x) (rm_journal x) name d = Ok ().
Proof using Hx. intros Hn Hd. unfold tree_at. fold (rm_profile x) p id. by rewrite Hd, (pr_tree _ _ Hx). Qed.
Lemma partial_at_pruned name es d :
  tree_name id name → pruned (rm_tree x) es → profile_entry p name d = Some (Directory (rm_meta x) es) →
  partial_at h (rm_roots x) (rm_journal x) name d = Ok ().
Proof using Hst Hx.
  intros Hn Hp Hd. unfold partial_at. fold (rm_profile x) p id. rewrite Hd.
  destruct tree_sound as (_ & -> & _). rewrite validate_partial_intro; [done|apply (st_id _ _ Hst)|done|].
  by apply pruned_sound.
Qed.

(** What deletion needs of the provider's directory. *)
Lemma provider_facts :
  ∃ m es, provider_dir p (rm_base x) = Some (m, es) ∧ rr_provider_root (rm_roots x) = identity_of m ∧
    rj_provider_root (rm_journal x) = identity_of m ∧
    (mount ← removal_mount_identity m; ensure_same_removal_mount (rr_provider_mount (rm_roots x)) mount) = Ok ().
Proof using Hst Hx.
  destruct provider_here as (m & es & Hp & _). exists m, es. pose proof (pr_roots _ _ Hx) as H.
  unfold removal_roots, provider_meta, private_directory_identity, private_directory in H. rewrite Hp in H.
  cbn [fmap option_fmap option_map fst] in H. inv_ok. rewrite <- H. cbn [rr_provider_root rr_provider_mount].
  inv_bool. simplify_eq. split_and!; [done..|].
  repeat match goal with H : removal_mount_identity _ = Ok _ |- _ => first [rewrite H | revert H] end.
  intros. cbn [mbind result_bind]. unfold ensure_same_removal_mount. by rewrite bool_decide_true.
Qed.
End seen.
