(* ===== verification/RemovalFresh.v ===== *)
(** * The names of the registry's temporary files

    A crash between the creation of a temporary file of the registry and its
    renaming leaves the file. As an identifier that was handed out before a
    recovery is not handed out again by it, no file has the name of a temporary
    file the recovery will create: every program of a removal and of its
    recovery preserves this, whatever becomes of its calls. *)
From S2P Require Import Prelude Interfaces ConversationData ConversationStore CodexLines Profiles ProfileDisk RemovalTree ProfileRegistry ManagedHome Reauth ProfileRemoval RemovalDisk.

Open Scope Z_scope.

Create HintDb spares.

Section names.
Context (h : Host) (bad : string → Prop) (c : nat).

(** A change of the disk that makes no file of such a name. *)
Definition adds_none (d d' : DataRoot) : Prop :=
  ∀ name, bad name → dr_files d !! name = None → dr_files d' !! name = None.

Lemma adds_same d d' : dr_files d' = dr_files d → adds_none d d'.
Proof. intros H name _. by rewrite H. Qed.
Lemma adds_create name n d : ¬ bad name → adds_none d (create_root_file h name n d).
Proof.
  intros Hf name' Hn. unfold create_root_file. destruct (dr_root d); [|done].
  cbn. rewrite lookup_insert_ne; [done|by intros <-].
Qed.
Lemma adds_rename name n from d :
  ¬ bad name → adds_none d (put_file name n (remove_file_entry from d)).
Proof.
  intros Hf name' Hn H. cbn. rewrite lookup_insert_ne by (by intros <-). by apply lookup_delete_None; right.
Qed.
Lemma adds_remove name d : adds_none d (remove_file_entry name d).
Proof. intros name' _ H. cbn. by apply lookup_delete_None; right. Qed.
Lemma adds_content name content d : adds_none d (set_content name content d).
Proof.
  intros name' _ H. unfold set_content. destruct (dr_files d !! name) as [[m b| |]|] eqn:Hn; try done.
  cbn. rewrite lookup_insert_ne; [done|congruence].
Qed.

(** ** Programs *)

(** No file has such a name, and a program keeps it so if it ends before the
    [c]-th call. *)
Definition vacant (w : World) : Prop := ∀ name, bad name → dr_files (w_disk w) !! name = None.
Definition spares {A} (m : diskM A) : Prop := ∀ w,
  (w_clock w ≤ w_clock (snd (m w)))%nat ∧
  ((w_clock (snd (m w)) ≤ c)%nat → vacant w → vacant (snd (m w))).

Lemma spares_then {A B} (m : diskM A) (k : A → diskM B) :
  spares m → (∀ a, spares (k a)) → spares (m ≫= k).
Proof.
  intros Hm Hk w. destruct (Hm w) as [Hc Hf]. cbv [mbind stM_bind].
  destruct (m w) as [[a|e] w1]; [|done]. cbn in *. destruct (Hk a w1) as [? Hf'].
  split; [lia|]. intros. apply Hf'; [done|]. apply Hf; [lia|done].
Qed.
Lemma spares_return {A} (a : A) : spares (mret a).
Proof. by intros w. Qed.
Lemma spares_check {A} (r : result ProfileError A) : spares (check r).
Proof. by intros w. Qed.
Lemma spares_fail {A} e : spares (fail (A := A) e).
Proof. by intros w. Qed.
Lemma spares_disk : spares disk.
Proof. by intros w. Qed.
Lemma spares_attempt {A} (m : diskM A) : spares m → spares (attempt m).
Proof.
  intros Hm w. specialize (Hm w). unfold attempt. by destruct (m w) as [[a|[e|]] w1].
Qed.
Lemma spares_map_failed {A} f (m : diskM A) : spares m → spares (map_failed f m).
Proof. intros Hm. apply spares_then; [by apply spares_attempt|intros; apply spares_check]. Qed.
Lemma spares_call effect failed :
  (∀ n d, adds_none d (effect n d)) → (∀ n d, adds_none d (failed n d)) → spares (call h effect failed).
Proof.
  intros He Hf w. unfold call. destruct (h_fate h (w_clock w)); cbn;
    (split; [lia|]); intros _ Hc name Hn; [apply He|apply Hf..]; auto.
Qed.
Lemma spares_io : spares (io h).
Proof. by apply spares_call; intros; apply adds_same. Qed.
Lemma spares_change f : (∀ d, adds_none d (f d)) → spares (change h f).
Proof. intros. apply spares_call; [done|]. by intros; apply adds_same. Qed.
Lemma keeps_new_v4 : spares (new_v4 h).
Proof. intros w. unfold new_v4. run_st. cbn. split; [lia|done]. Qed.
Lemma spares_try_lock : spares (try_lock_exclusive h).
Proof.
  intros w. unfold try_lock_exclusive. destruct (h_locked h _); [|by apply spares_io]. cbn. split; [lia|done].
Qed.
End names.

#[export] Hint Resolve spares_return spares_check spares_fail spares_disk spares_io spares_try_lock : spares.

(** Decomposes a program. *)
Ltac spares :=
  repeat first
    [ solve [auto with spares nocore] | (apply spares_then; [|intros]) | apply spares_attempt
    | apply spares_map_failed | case_match ].

(** ** Trees *)

(** A place whose edits leave the files of the data root alone. *)
Definition inner (place : Place) : Prop := ∀ f d, dr_files (edit place f d) = dr_files d.
Lemma update_profiles_keeps_files p f d : dr_files (update_profiles p f d) = dr_files d.
Proof. unfold update_profiles. by destruct (provider_dir p d) as [[]|], p. Qed.
Lemma inner_tree p name : inner (tree_place p name).
Proof. intros f d. apply update_profiles_keeps_files. Qed.
Lemma inner_child place name : inner place → inner (child_place place name).
Proof. intros H f d. apply H. Qed.
#[export] Hint Resolve inner_tree inner_child : spares.

Section trees.
Context (h : Host) (bad : string → Prop) (c : nat).
Abbreviation spares := (spares bad c).

Lemma spares_update p f : spares (change h (update_profiles p f)).
Proof. apply spares_change. intros d. apply adds_same, update_profiles_keeps_files. Qed.
Lemma spares_stat_at place name : spares (stat_at h place name).
Proof. unfold stat_at, read_entries. spares. Qed.
Lemma spares_find_at place name : spares (find_at h place name).
Proof. unfold find_at. spares. Qed.
#[local] Hint Resolve spares_update spares_stat_at spares_find_at : spares.
Lemma spares_unlink_at place name : inner place → spares (unlink_at h place name).
Proof. intros H. apply spares_change. intros d. apply adds_same, H. Qed.
#[local] Hint Resolve spares_unlink_at : spares.
Lemma spares_create_new_at place name : inner place → spares (create_new_at h place name).
Proof.
  intros H. unfold create_new_at. spares. apply spares_call; intros n d'; apply adds_same; [|done].
  unfold create_file. destruct (meta_at place d'); [apply H|done].
Qed.
Lemma spares_write_all_at place name b : inner place → spares (write_all_at h place name b).
Proof. intros H. apply spares_call; intros; apply adds_same, H. Qed.
Lemma spares_remove_file_at place name : inner place → spares (remove_file_at h place name).
Proof. intros H. unfold remove_file_at. spares. Qed.
Lemma spares_rename_at from old to new : inner from → inner to → spares (rename_at h from old to new).
Proof.
  intros Hf Ht. unfold rename_at. spares. apply spares_change. intros d. apply adds_same.
  rewrite Ht. apply Hf.
Qed.

Lemma spares_remove_directory_at place name : inner place → spares (remove_directory_at h place name).
Proof. intros H. unfold remove_directory_at. spares. Qed.
Lemma spares_open_at place name mount : spares (open_removal_entry_at h place name mount).
Proof. unfold open_removal_entry_at. spares. Qed.
#[local] Hint Resolve spares_remove_directory_at spares_open_at : spares.
Lemma spares_reopen place name stat device mount : spares (reopen_directory h place name stat device mount).
Proof. unfold reopen_directory. spares. Qed.
#[local] Hint Resolve spares_reopen : spares.
Lemma spares_remove_entries fuel device mount place b depth :
  inner place → spares (remove_owned_directory_entries h fuel device mount place b depth).
Proof.
  revert place b depth. induction fuel as [|fuel IH]; intros place b depth Hp; cbn; [apply spares_fail|].
  unfold read_entries. spares. clear -IH Hp.
  match goal with |- context [remove_names _ _ _ _ _ ?b ?l] => revert b; induction l as [|e l IHl]; intros b; cbn end;
    [apply spares_return|].
  apply spares_then; [|intros; apply IHl]. unfold remove_entry. spares.
Qed.
Lemma spares_remove_owned p name provider tree mount entries depth :
  spares (remove_owned_directory_at h p name provider tree mount entries depth).
Proof.
  pose proof (spares_remove_entries) as Hrec. unfold remove_owned_directory_at. spares.
Qed.
End trees.

#[export] Hint Resolve spares_update spares_stat_at spares_find_at spares_unlink_at spares_create_new_at
  spares_write_all_at spares_remove_file_at spares_rename_at spares_remove_owned : spares.

(** ** The files of the data root *)

Section files.
Context {UC : UuidCrate} {SC : Sha256Crate} {RH : RegistryHeader} {TC : TomlCrate} {RJ : ReauthJson}.
Context {JR : JsonCodec RegistryDocument} {JB : JsonCodec RemovalRegistryBarrier}.
Context {JM : JsonCodec RemovalJournal} {JJ : JsonCodec ReauthJournal}.
Context (h : Host).

Section from.
Context (bad : string → Prop) (c : nat).
Abbreviation spares := (spares bad c).

Lemma spares_root_file name : spares (root_file h name).
Proof. unfold root_file. spares. Qed.
Lemma spares_read_verified single max n : spares (read_verified h single max n).
Proof. unfold read_verified. spares. Qed.
Lemma spares_verify_directory m : spares (verify_private_directory h m).
Proof. unfold verify_private_directory. spares. Qed.
Lemma spares_remove_file name : spares (remove_file h name).
Proof. unfold remove_file. spares. apply spares_change, adds_remove. Qed.
#[local] Hint Resolve spares_root_file spares_read_verified spares_verify_directory spares_remove_file : spares.
Lemma spares_lock_root_file name : ¬ bad name → spares (lock_root_file h name).
Proof.
  intros Hn. unfold lock_root_file. spares.
  apply spares_call; intros; [by apply adds_create|by apply adds_same].
Qed.
(** A temporary file with another name, renamed to another name. *)
Lemma spares_publication verify temporary destination b :
  ¬ bad temporary → ¬ bad destination →
  spares (or_remove h temporary (publish_temporary h verify temporary destination b)).
Proof.
  intros Ht Hd. unfold or_remove, publish_temporary, create_new_private_file, write_all, rename_file. spares.
  - apply spares_call; intros; [by apply adds_create|by apply adds_same].
  - apply spares_call; intros; apply adds_content.
  - apply spares_change. intros. by apply adds_rename.
Qed.
End from.

(** The names still to come once [c] calls were made. *)
Context (c : nat).
Definition future (name : string) : Prop := ∃ n, (c ≤ n)%nat ∧ name = registry_temporary (h_new_v4 h n).

Lemma vacant_fresh w : vacant future w ↔ fresh h c (dr_files (w_disk w)).
Proof.
  split; [intros H n Hn; apply H; by exists n|]. intros H name (n & Hn & ->). by apply H.
Qed.
(** Other files have other names. *)
Lemma not_future name : is_prefix ("." +:+ REGISTRY_FILE +:+ ".") name = false → ¬ future name.
Proof. by intros Hp (n & _ & ->). Qed.

Section programs.
Context (Hdistinct : ∀ i j, (i < c ≤ j)%nat → h_new_v4 h i ≠ h_new_v4 h j).
Abbreviation spares := (spares future c).

Lemma past_name n : (n < c)%nat → ¬ future (registry_temporary (h_new_v4 h n)).
Proof using Hdistinct.
  intros Hn (k & Hk & He). apply (Hdistinct n k); [done|].
  apply (f_equal (fun name => strip_prefix_str ("." +:+ REGISTRY_FILE +:+ ".") name ≫= strip_suffix_str ".tmp")) in He.
  rewrite !temporary_name_strip in He. congruence.
Qed.

(** The registry's own temporary file has a name that is not to come. *)
Lemma spares_atomic_write b : spares (atomic_write_private h REGISTRY_FILE b).
Proof using Hdistinct.
  intros w.
  set (rest uuid := _ ← or_remove h (registry_temporary uuid)
      (publish_temporary h (private_regular h) (registry_temporary uuid) REGISTRY_FILE b);
    map_failed (commit_uncertain PE_RegistryCommitUncertain) (sync_directory h)).
  assert (∀ bad uuid, ¬ bad (registry_temporary uuid) → ¬ bad REGISTRY_FILE →
    RemovalFresh.spares bad c (rest uuid)) as Hrest.
  { intros bad uuid H1 H2. apply spares_then; [by apply spares_publication|].
    intros. apply spares_map_failed, spares_io. }
  set (uuid := h_new_v4 h (w_clock w)).
  change (atomic_write_private h REGISTRY_FILE b w) with (rest uuid (tick w)).
  destruct (Hrest (fun _ => False) uuid (fun H => H) (fun H => H) (tick w)) as [Hc _]. cbn [w_clock tick] in Hc.
  split; [lia|]. intros Hle Hcl.
  apply (Hrest future uuid); [apply past_name; lia|by apply not_future|done|exact Hcl].
Qed.

#[local] Hint Resolve spares_root_file spares_read_verified spares_verify_directory spares_remove_file
  spares_atomic_write : spares.

Lemma spares_lock name : name = LOCK_FILE ∨ name = REMOVAL_LOCK_FILE → spares (lock_root_file h name).
Proof using Type. intros Hn. apply spares_lock_root_file, not_future. by destruct Hn as [->| ->]. Qed.
Lemma spares_lock_exclusive : spares (lock_exclusive h).
Proof using Type. apply spares_lock. by left. Qed.
Lemma spares_lock_removal : spares (lock_removal_exclusive h).
Proof using Type. apply spares_lock. by right. Qed.
Lemma spares_load : spares (load h).
Proof using Type. unfold load, read_registry_state. spares. Qed.
Lemma spares_read_barrier : spares (read_removal_barrier h).
Proof using Type. unfold read_removal_barrier, read_registry_state. spares. Qed.
Lemma spares_read_existing : spares (read_existing_registry_state h).
Proof using Type. unfold read_existing_registry_state. spares. Qed.
Lemma spares_read_journal : spares (read_removal_journal h).
Proof using Type. unfold read_removal_journal. spares. Qed.
Lemma spares_tombstones : spares (removal_tombstones h).
Proof using Type. unfold removal_tombstones. spares. Qed.
Lemma spares_temporaries : spares (removal_temporaries h).
Proof using Type. unfold removal_temporaries. spares. Qed.
Lemma spares_save document : spares (save h document).
Proof using Hdistinct. unfold save. spares. Qed.
Lemma spares_save_barrier barrier : spares (save_removal_barrier h barrier).
Proof using Hdistinct. unfold save_removal_barrier. spares. Qed.
#[local] Hint Resolve spares_lock_exclusive spares_lock_removal spares_load spares_read_barrier
  spares_read_existing spares_read_journal spares_tombstones spares_temporaries spares_save spares_save_barrier : spares.

(** ** The reauthentication *)

Lemma spares_lock_file_at create p directory name : spares (lock_file_at h create p directory name).
Proof using Type.
  unfold lock_file_at. spares. apply spares_call; intros n d; apply adds_same; [|done].
  unfold create_file. destruct (meta_at _ d); [apply inner_tree|done].
Qed.
Lemma spares_profile_directory profile : spares (profile_directory h profile).
Proof using Type. unfold profile_directory. spares. Qed.
#[local] Hint Resolve spares_lock_file_at spares_profile_directory : spares.
Lemma spares_lock_profile profile : spares (lock_profile h profile).
Proof using Type. unfold lock_profile, ensure_profile_lock_durability, lock_identities, sync_directory. spares. Qed.
Lemma spares_remove_staging p staging profile_id transaction_id :
  spares (safe_remove_reauth_staging h p staging profile_id transaction_id).
Proof using Type. unfold safe_remove_reauth_staging. spares. Qed.
#[local] Hint Resolve spares_lock_profile spares_remove_staging : spares.
Lemma spares_staging_if_present p staging profile_id transaction_id :
  spares (remove_reauth_staging_if_present h p staging profile_id transaction_id).
Proof using Type. unfold remove_reauth_staging_if_present. spares. Qed.
Lemma spares_private_digest place name : spares (read_private_digest h place name).
Proof using Type. unfold read_private_digest, read_private_bounded. spares. Qed.
#[local] Hint Resolve spares_staging_if_present spares_private_digest : spares.
Lemma spares_optional_digest place name : spares (optional_private_digest h place name).
Proof using Type. unfold optional_private_digest. spares. Qed.
Lemma spares_remove_exact place name digest : inner place → spares (remove_exact_private_file h place name digest).
Proof using Type. intros Hp. unfold remove_exact_private_file. spares. Qed.
#[local] Hint Resolve spares_optional_digest spares_remove_exact : spares.
Lemma inner_profile profile : inner (profile_place profile).
Proof using Type. apply inner_tree. Qed.
Lemma inner_home profile : inner (home_place profile).
Proof using Type. apply inner_child, inner_profile. Qed.
#[local] Hint Resolve inner_profile inner_home : spares.
Lemma spares_finish_reauth profile j : spares (finish_committed_reauth h profile j).
Proof using Type. unfold finish_committed_reauth, sync_directory. spares. Qed.
Lemma spares_rollback_reauth profile j : spares (rollback_unpublished_reauth h profile j).
Proof using Type. unfold rollback_unpublished_reauth, sync_directory. spares. Qed.
#[local] Hint Resolve spares_finish_reauth spares_rollback_reauth : spares.
Lemma spares_recover_journaled profile j : spares (recover_journaled_reauth h profile j).
Proof using Type. unfold recover_journaled_reauth, sync_directory. spares. Qed.
Lemma spares_provider_names p : spares (provider_names h p).
Proof using Type. unfold provider_names. spares. Qed.
#[local] Hint Resolve spares_recover_journaled spares_provider_names : spares.
Lemma spares_cleanup profile : spares (cleanup_orphan_reauth_staging h profile).
Proof using Type.
  unfold cleanup_orphan_reauth_staging, sync_directory.
  apply spares_then; [by auto with spares|intros d]. apply spares_then; [by auto with spares|intros _].
  apply spares_then; [by auto with spares|intros names]. induction names as [|name names IH]; spares.
Qed.
#[local] Hint Resolve spares_cleanup : spares.
Lemma spares_recover_lease profile : spares (recover_reauth_under_lease h profile).
Proof using Type. unfold recover_reauth_under_lease, read_reauth_journal, read_private_bounded. spares. Qed.
#[local] Hint Resolve spares_recover_lease : spares.
Lemma spares_journaled profiles affected : spares (journaled_profiles h profiles affected).
Proof using Type. revert affected. induction profiles as [|q profiles IH]; intros affected; cbn; spares. Qed.
#[local] Hint Resolve spares_journaled : spares.
Lemma spares_scan : spares (incomplete_reauth_scan h).
Proof using Type. unfold incomplete_reauth_scan, affected_of_provider. spares. Qed.
Lemma spares_find_by_id p id : spares (find_by_id_without_recovery h p id).
Proof using Type. unfold find_by_id_without_recovery. spares. Qed.
#[local] Hint Resolve spares_scan spares_find_by_id : spares.
Lemma spares_recover_affected document affected : spares (recover_affected h document affected).
Proof using Type. induction affected as [|id affected IH]; cbn; spares. Qed.
#[local] Hint Resolve spares_recover_affected : spares.
Lemma spares_recover_reauth : spares (recover_incomplete_reauth h).
Proof using Type. unfold recover_incomplete_reauth. spares. Qed.
#[local] Hint Resolve spares_recover_reauth : spares.

(** ** The removal *)

Lemma spares_roots p expected : spares (validate_removal_roots h p expected).
Proof using Type. unfold validate_removal_roots. spares. Qed.
Lemma spares_found p name : spares (found h p name).
Proof using Type. unfold found. spares. Qed.
#[local] Hint Resolve spares_roots spares_found : spares.
Lemma spares_path_exists p name : spares (path_exists h p name).
Proof using Type. unfold path_exists. spares. Qed.
Lemma spares_validate_tree roots j name : spares (validate_tree h roots j name).
Proof using Type. unfold validate_tree. spares. Qed.
Lemma spares_validate_partial roots j name : spares (validate_partial h roots j name).
Proof using Type. unfold validate_partial. spares. Qed.
Lemma spares_rename_tree p from to : spares (rename_tree h p from to).
Proof using Type. unfold rename_tree. spares. Qed.
Lemma spares_write_journal j : spares (write_removal_journal h j).
Proof using Type.
  unfold write_removal_journal, sync_directory.
  do 3 (apply spares_then; [by auto with spares|intros]). apply spares_then; [apply keeps_new_v4|intros uuid].
  apply spares_then; [by apply spares_publication; apply not_future|intros]. spares.
Qed.
Lemma spares_remove_journal j temporaries required : spares (remove_removal_journal h j temporaries required).
Proof using Type. unfold remove_removal_journal, sync_directory. spares. Qed.
Lemma spares_remove_stale temporaries : spares (remove_stale_removal_temporary h temporaries).
Proof using Type. unfold remove_stale_removal_temporary, sync_directory. spares. Qed.
#[local] Hint Resolve spares_path_exists spares_validate_tree spares_validate_partial spares_rename_tree
  spares_write_journal spares_remove_journal spares_remove_stale : spares.
Lemma spares_finish_visible j : spares (finish_visible_removal h j).
Proof using Type. unfold finish_visible_removal, sync_directory. spares. Qed.
#[local] Hint Resolve spares_finish_visible : spares.
Lemma spares_lease name j roots : spares (lease_tree h name j roots).
Proof using Type. unfold lease_tree, lock_removal_tree. spares. Qed.
Lemma spares_restore j barrier roots lease original tombstone temporaries :
  spares (restore_profile h j barrier roots lease original tombstone temporaries).
Proof using Hdistinct. unfold restore_profile, sync_directory. spares. Qed.
Lemma spares_complete j roots original tombstone temporaries :
  spares (complete_removal h j roots original tombstone temporaries).
Proof using Type. unfold complete_removal, sync_directory. spares. Qed.
Lemma spares_without_journal tombstones temporaries : spares (recover_without_journal h tombstones temporaries).
Proof using Type. unfold recover_without_journal. spares. Qed.
#[local] Hint Resolve spares_lease spares_restore spares_complete spares_without_journal : spares.
Lemma spares_with_journal barrier journal j tombstones : spares (recover_with_journal h barrier journal j tombstones).
Proof using Hdistinct. unfold recover_with_journal. spares. Qed.
#[local] Hint Resolve spares_with_journal : spares.
Lemma spares_recover : spares (recover_incomplete_removal h).
Proof using Hdistinct.
  unfold recover_incomplete_removal, removal_preflight, recover_incomplete_removal_journaled. spares.
Qed.
#[local] Hint Resolve spares_recover : spares.
Lemma spares_hide j roots removed : spares (hide_profile h j roots removed).
Proof using Hdistinct. unfold hide_profile, publish_removed, sync_directory. spares. Qed.
#[local] Hint Resolve spares_hide : spares.
Lemma spares_remove p alias confirmed : spares (remove h p alias confirmed).
Proof using Hdistinct.
  unfold remove, find_without_recovery, lock_registry_mutation, ensure_no_removal_artifacts_read_only. spares.
Qed.
End programs.
End files.
