(* ===== verification/RemovalSteps.v ===== *)
(** * What the steps of a removal do to the disk

    Every step that writes takes a disk of one shape to a disk of another; a
    step that is disturbed leaves a disk of the one or of the other. *)
From Stdlib Require Import Ascii.
From S2P Require Import Prelude Interfaces ConversationData ConversationStore CodexLines Profiles ProfileDisk ProfileLogic RemovalTree RemovalTreeProofs RemovalDeletion ProfileRegistry ManagedHome Reauth ProfileRemoval RemovalDisk.

Open Scope Z_scope.

(** ** One file *)

Definition agree (n : string) (files files' : gmap string Node) : Prop :=
  ∀ name, name ≠ n → files' !! name = files !! name.
Lemma agree_insert n node files : agree n files (<[n := node]> files).
Proof. intros name Hn. by rewrite lookup_insert_ne. Qed.
Lemma agree_delete n files : agree n files (delete n files).
Proof. intros name Hn. by rewrite lookup_delete_ne. Qed.
#[export] Hint Resolve agree_insert agree_delete : calcifer.

Lemma set_files_twice f g d : set_files f (set_files g d) = set_files f d.
Proof. done. Qed.
Lemma provider_dir_set_files p f d : provider_dir p (set_files f d) = provider_dir p d.
Proof. by destruct p. Qed.

Section steps.
Context {UC : UuidCrate} {SC : Sha256Crate} {RH : RegistryHeader}.
Context {JR : JsonCodec RegistryDocument} {JB : JsonCodec RemovalRegistryBarrier} {JM : JsonCodec RemovalJournal}.
Context (h : Host) (c : nat) (x : Removal).
Implicit Types files : gmap string Node.

Lemma placed_set_files orig tomb f d : placed x orig tomb d → placed x orig tomb (set_files f d).
Proof. intros []. split; rewrite ?provider_dir_set_files; done. Qed.

Lemma registry_holds_agree n strict s files files' :
  agree n files files' → n ≠ REGISTRY_FILE → registry_holds h strict s files → registry_holds h strict s files'.
Proof. intros Ha Hn (m & b & Hf & H). exists m, b. by rewrite Ha. Qed.
Lemma journal_holds_agree n j files files' :
  agree n files files' → n ≠ REMOVAL_JOURNAL_FILE → journal_holds h j files → journal_holds h j files'.
Proof.
  unfold journal_holds. intros Ha Hn H. destruct j as [j|]; [|by rewrite Ha].
  destruct H as (m & b & Hf & H). exists m, b. by rewrite Ha.
Qed.
Lemma lock_ok_agree n name files files' :
  agree n files files' → n ≠ name → lock_ok h name files → lock_ok h name files'.
Proof. unfold lock_ok. intros Ha Hn. by rewrite Ha. Qed.
Lemma kept_agree n files files' :
  agree n files files' → transient n = true →
  (∀ name, transient name = false → files !! name = dr_files (rm_base x) !! name) →
  ∀ name, transient name = false → files' !! name = dr_files (rm_base x) !! name.
Proof. intros Ha Hn H name Ht. rewrite Ha; [by apply H|]. intros ->. congruence. Qed.
Lemma fresh_agree c0 n files files' :
  agree n files files' → (files' !! n = None ∨ ∀ uuid, n ≠ registry_temporary uuid) →
  fresh h c0 files → fresh h c0 files'.
Proof.
  intros Ha Hn Hf k Hk. destruct (decide (n = registry_temporary (h_new_v4 h k))) as [->|Hne].
  - destruct Hn as [Hn|Hn]; [done|]. by destruct (Hn (h_new_v4 h k)).
  - rewrite Ha by done. by apply Hf.
Qed.
(** A file that is no temporary of the journal, and one that is. *)
Lemma temporaries_agree n t files files' :
  agree n files files' → plain n → journal_temporary_uuid n = None →
  temporaries_are h t files → temporaries_are h t files'.
Proof.
  intros Ha Hp Hn [Hall Ht]. split.
  - intros name node Hname. destruct (decide (name = n)) as [->|Hne].
    + split; [done|]. by rewrite Hn.
    + rewrite Ha in Hname by done. by apply Hall.
  - destruct t as [uuid|]; [|done]. rewrite Ha; [done|].
    intros <-. by rewrite removal_temporary_uuid in Hn.
Qed.
Lemma temporaries_add uuid node files :
  temporaries_are h None files → validate_profile_id uuid = Ok () → str_all is_ascii uuid = true →
  private_single_link_regular h (Some node) = Ok () → metadata_len node ≤ MAX_REMOVAL_JOURNAL_BYTES →
  temporaries_are h (Some uuid) (<[removal_temporary uuid := node]> files).
Proof.
  intros [Hall _] Hid Ha Hp Hl. split; [|by rewrite lookup_insert_eq; eexists].
  intros name n Hn. destruct (decide (name = removal_temporary uuid)) as [->|Hne].
  - rewrite lookup_insert_eq in Hn. injection Hn as <-. split; [by apply temporary_name_plain|].
    by rewrite removal_temporary_uuid.
  - rewrite lookup_insert_ne in Hn by done. destruct (Hall name n Hn) as [? Hj]. split; [done|].
    destruct (journal_temporary_uuid name) as [u|] eqn:Hu; [|done]. by destruct Hj.
Qed.
Lemma temporaries_remove uuid files :
  temporaries_are h (Some uuid) files → temporaries_are h None (delete (removal_temporary uuid) files).
Proof.
  intros [Hall _]. split; [|done]. intros name n Hn. apply lookup_delete_Some in Hn as [Hne Hn].
  destruct (Hall name n Hn) as [? Hj]. split; [done|].
  destruct (journal_temporary_uuid name) as [u|] eqn:Hu; [|done].
  destruct Hj as [[= ->] _]. by apply journal_temporary_name in Hu as ->.
Qed.

(** ** One file of a disk of a shape *)

Lemma filed_weaken v strict s j t files :
  filed h x v true s j t files → filed h x None strict s j t files.
Proof. intros []. split; try done. by apply registry_holds_weaken. Qed.

(** A temporary file of the registry, or a lock file. *)
Lemma filed_passing n v v' strict s j t files files' :
  filed h x v strict s j t files → agree n files files' → transient n = true → plain n →
  journal_temporary_uuid n = None → n ≠ REGISTRY_FILE → n ≠ REMOVAL_JOURNAL_FILE →
  (n = LOCK_FILE ∨ n = REMOVAL_LOCK_FILE → lock_ok h n files') → (∀ c, v' = Some c → v = Some c) →
  (is_Some v' → files' !! n = None ∨ ∀ uuid, n ≠ registry_temporary uuid) →
  filed h x v' strict s j t files'.
Proof.
  intros [? ? ? ? ? ? Hf] Ha Ht Hp Hj Hr Hm Hl Hv Hn.
  split; [by eapply registry_holds_agree|by eapply journal_holds_agree|by eapply temporaries_agree|..].
  - destruct (decide (n = LOCK_FILE)) as [->|]; [apply Hl; by left|by eapply lock_ok_agree].
  - destruct (decide (n = REMOVAL_LOCK_FILE)) as [->|]; [apply Hl; by right|by eapply lock_ok_agree].
  - by eapply kept_agree.
  - intros c0 ->. eapply fresh_agree; [done|by apply Hn|]. by apply Hf, Hv.
Qed.
(** A temporary file of the journal. *)
Lemma filed_temporary uuid v strict s j t t' files files' :
  filed h x v strict s j t files → agree (removal_temporary uuid) files files' →
  temporaries_are h t' files' → filed h x v strict s j t' files'.
Proof.
  intros [? ? ? ? ? ? Hf] Ha Ht.
  split; [by eapply registry_holds_agree|by eapply journal_holds_agree|done|by eapply lock_ok_agree..| |].
  - by eapply kept_agree.
  - intros c0 Hv. eapply fresh_agree; [done| |by apply Hf]. right. by intros.
Qed.
(** The registry file, and the journal. *)
Lemma filed_registry v strict strict' s s' j t files files' :
  filed h x v strict s j t files → agree REGISTRY_FILE files files' → registry_holds h strict' s' files' →
  filed h x v strict' s' j t files'.
Proof.
  intros [? ? ? ? ? ? Hf] Ha Hr.
  split; [done|by eapply journal_holds_agree| |by eapply lock_ok_agree..| |].
  - eapply temporaries_agree; [done|by apply ascii_plain|done..].
  - by eapply kept_agree.
  - intros c0 Hv. eapply fresh_agree; [done| |by apply Hf]. right. by intros.
Qed.
Lemma filed_journal v strict s j j' t files files' :
  filed h x v strict s j t files → agree REMOVAL_JOURNAL_FILE files files' → journal_holds h j' files' →
  filed h x v strict s j' t files'.
Proof.
  intros [? ? ? ? ? ? Hf] Ha Hj.
  split; [by eapply registry_holds_agree|done| |by eapply lock_ok_agree..| |].
  - eapply temporaries_agree; [done|by apply ascii_plain|done..].
  - by eapply kept_agree.
  - intros c0 Hv. eapply fresh_agree; [done| |by apply Hf]. right. by intros.
Qed.

(** ** New files *)

Definition created (n : Node) (content : bytes) : Prop :=
  ∃ k directory, n = RegularFile (new_file_meta h k directory) content.
Lemma created_private n content : created n content → private_single_link_regular h (Some n) = Ok ().
Proof.
  intros (k & directory & ->). unfold private_single_link_regular, private_regular.
  cbn. by rewrite (Z.eqb_refl (h_uid h)).
Qed.

(** What a publication that failed leaves of its temporary file. *)
Definition leftover (temporary : string) (content : bytes) (d d' : DataRoot) : Prop :=
  ∃ o, d' = set_files (partial_alter (fun _ => o) temporary (dr_files d)) d ∧
    (o = None ∨ o = dr_files d !! temporary ∨ ∃ n k, o = Some n ∧ created n (take k content)).
Lemma leftover_same temporary content d : leftover temporary content d d.
Proof.
  exists (dr_files d !! temporary). split; [|auto]. rewrite partial_alter_self. by destruct d.
Qed.
Lemma leftover_created temporary content d n k :
  created n (take k content) → leftover temporary content d (put_file temporary n d).
Proof. intros Hn. exists (Some n). split; [done|]. right; right. by exists n, k. Qed.
Lemma leftover_removed temporary content d d' :
  leftover temporary content d d' → leftover temporary content d (remove_file_entry temporary d').
Proof.
  intros (o & -> & _). exists None. split; [|by left]. unfold remove_file_entry. cbn [dr_files set_files].
  rewrite set_files_twice. f_equal. apply map_eq. intros i. destruct (decide (i = temporary)) as [->|].
  - by rewrite lookup_delete_eq, lookup_partial_alter_eq.
  - by rewrite lookup_delete_ne, !lookup_partial_alter_ne.
Qed.

Section publication.
Context (temporary destination : string) (content : bytes) (d : DataRoot).
Hypothesis Hne : temporary ≠ destination.
Hypothesis Hroot : is_Some (dr_root d).

Definition unpublished (_ : failure) (d' : DataRoot) : Prop :=
  (is_Some (dr_files d !! temporary) ∨ disturbed h c) ∧ leftover temporary content d d'.
Definition published (_ : ()) (d' : DataRoot) : Prop :=
  dr_files d !! temporary = None ∧ ∃ n, created n content ∧ d' = put_file destination n d.

Lemma unpublished_created e n k : created n (take k content) → disturbed h c → unpublished e (put_file temporary n d).
Proof using. intros Hn Hd. split; [by right|by eapply leftover_created]. Qed.

Lemma publish_temporary_spec verify :
  (∀ n, created n content → verify (Some n) = Ok ()) →
  spec c (eq d) (publish_temporary h verify temporary destination content) published unpublished.
Proof using Hne Hroot.
  intros Hv. unfold publish_temporary. destruct Hroot as [root Hr].
  eapply spec_bind with (M := fun _ d' => dr_files d !! temporary = None ∧
    ∃ k, put_file temporary (RegularFile (new_file_meta h k root) []) d = d').
  { unfold create_new_private_file. eapply spec_see; [apply reads_disk|done|..].
    { intros e Hd. split; [by right|apply leftover_same]. }
    destruct (dr_files d !! temporary) as [n|] eqn:Ht.
    - eapply spec_see; [apply reads_io|done|intros e Hd; split; [by right|apply leftover_same]|].
      apply spec_fail. intros d' <-. split; [left; by eexists|apply leftover_same].
    - apply spec_call.
      + intros n d' <-. split; [done|]. exists n. unfold create_root_file. by rewrite Hr.
      + intros n e d' Hd <- _. split; [by right|apply leftover_same]. }
  intros []. apply spec_pure. intros Ht. apply spec_exists. intros k.
  set (m := new_file_meta h k root).
  assert (∀ b, set_content temporary b (put_file temporary (RegularFile m []) d) = put_file temporary (RegularFile m b) d) as Hset.
  { intros b. unfold set_content, put_file. cbn [dr_files set_files]. rewrite lookup_insert_eq, set_files_twice.
    by rewrite insert_insert_eq. }
  assert (∀ b, created (RegularFile m b) b) as Hm by (intros b; by exists k, root).
  assert (∀ e, disturbed h c → unpublished e (put_file temporary (RegularFile m content) d)) as Hlate.
  { intros e Hd. apply (unpublished_created _ _ (length content)); [|done]. rewrite take_ge by done. apply Hm. }
  eapply spec_bind with (M := fun _ d' => put_file temporary (RegularFile m content) d = d').
  { apply spec_call.
    - intros n d' <-. by rewrite Hset.
    - intros n e d' Hd <- _. rewrite Hset. by eapply unpublished_created. }
  intros []. eapply spec_see; [apply reads_io|done|done|].
  eapply spec_see; [apply root_file_reads|done|done|].
  assert (dr_files (put_file temporary (RegularFile m content) d) !! temporary = Some (RegularFile m content)) as Hread
    by apply lookup_insert_eq.
  rewrite Hread. eapply spec_checked; [by apply Hv|]. unfold rename_file.
  eapply spec_see; [apply reads_disk|done|done|]. rewrite Hread. apply spec_change.
  - intros d' <-. split; [done|]. exists (RegularFile m content). split; [done|].
    unfold put_file, remove_file_entry. cbn [dr_files set_files]. rewrite !set_files_twice.
    by rewrite delete_insert_id.
  - intros e d' Hd <- _. by apply Hlate.
Qed.

Lemma leftover_shrinks e d1 d2 :
  unpublished e d1 → d2 = d1 ∨ d2 = remove_file_entry temporary d1 → unpublished e d2.
Proof. intros [? ?] [->| ->]; [done|]. split; [done|by apply leftover_removed]. Qed.
Lemma or_remove_spec publication :
  spec c (eq d) publication published unpublished →
  spec c (eq d) (or_remove h temporary publication) published unpublished.
Proof.
  intros Hp. unfold or_remove.
  eapply spec_bind with (M := fun r d' => match r with Ok _ => published () d' | Err e => unpublished (Failed e) d' end).
  { eapply spec_attempt; [exact Hp|by intros []|done|done]. }
  intros [[]|e]; [by apply spec_ret|].
  apply spec_each. intros d1 H1.
  eapply spec_bind with (M := fun _ d' => d' = d1 ∨ d' = remove_file_entry temporary d1).
  - eapply (spec_attempt c _ _ _ _ (fun _ d' => d' = d1 ∨ d' = remove_file_entry temporary d1)
      (fun _ d' => d' = d1 ∨ d' = remove_file_entry temporary d1)); [|done|done|].
    + unfold remove_file. apply spec_each. intros ? <-. eapply spec_bind with (M := fun d' d'' => d1 = d' ∧ d1 = d'').
      { by apply spec_disk; intros ? <-. }
      intros d1'. apply spec_pure. intros <-. destruct (dr_files d1 !! temporary) as [n|].
      * apply spec_change; [intros ? <-; by right|intros ? ? _ <- _; by left].
      * eapply spec_bind with (M := fun _ d' => d' = d1).
        { eapply spec_reads; [apply reads_io|by intros ? ? <-|by intros ? ? <-|intros ? ? _ <-; by left]. }
        intros []. apply spec_fail. by left.
    + intros d' Hd'. by eapply leftover_shrinks.
  - intros r. apply spec_fail. intros d' Hd'. by eapply leftover_shrinks.
Qed.
End publication.

(** ** The steps on the data root *)

Context (Hst : standing h x) (Hx : prepared h x) (Huuid : canonical_uuids h).
Context {RL : RegistryHeaderLaws} {LR : JsonRoundTrip RegistryDocument registry_in_range}.
Context {LB : JsonRoundTrip RemovalRegistryBarrier barrier_in_range} {LJ : JsonRoundTrip RemovalJournal removal_in_range}.

Lemma root_here orig tomb d : placed x orig tomb d → is_Some (dr_root d).
Proof using Hst.
  intros Hd. rewrite (pl_root _ _ _ _ Hd). destruct (st_root _ _ Hst) as (m & -> & _). by eexists.
Qed.

Lemma create_root_file_put name n d : is_Some (dr_root d) →
  ∃ node, created node [] ∧ create_root_file h name n d = put_file name node d.
Proof.
  intros [root Hr]. exists (RegularFile (new_file_meta h n root) []). split; [by exists n, root|].
  unfold create_root_file. by rewrite Hr.
Qed.

Lemma lock_root_file_spec name v strict s j t orig tomb :
  name = LOCK_FILE ∨ name = REMOVAL_LOCK_FILE →
  spec c (shape h x v strict s j t orig tomb) (lock_root_file h name)
    (fun _ => shape h x v strict s j t orig tomb) (fun _ d => disturbed h c ∧ shape h x v strict s j t orig tomb d).
Proof using Hst.
  intros Hname. apply spec_each. intros d Hd. unfold lock_root_file.
  eapply spec_see; [apply root_file_reads|done|done|].
  destruct (dr_files d !! name) as [n|] eqn:Hn.
  - eapply spec_checked.
    { destruct Hd as [_ Hd]. pose proof (fl_lock _ _ _ _ _ _ _ _ Hd) as H1.
      pose proof (fl_removal_lock _ _ _ _ _ _ _ _ Hd) as H2. unfold lock_ok in *.
      destruct Hname; subst name; rewrite Hn in *; done. }
    eapply spec_reads; [apply reads_io|by intros ? ? <-|done|by intros ? ? ? <-].
  - destruct Hd as [Hp Hf]. apply spec_call.
    + intros k d' <-. destruct (create_root_file_put name k d) as (node & Hnode & ->); [by eapply root_here|].
      split; [by apply placed_set_files|]. pose proof (created_private _ _ Hnode) as Hpriv.
      assert (plain name) by (by destruct Hname; subst name; apply ascii_plain).
      assert (lock_ok h name (dr_files (put_file name node d))).
      { unfold lock_ok. cbn [dr_files put_file set_files]. by rewrite lookup_insert_eq. }
      assert (∀ uuid, name ≠ registry_temporary uuid) by (intros uuid; by destruct Hname; subst name).
      eapply (filed_passing name); [exact Hf|by apply agree_insert|..]; try done;
        try (by destruct Hname; subst name); by right.
    + intros k e d' Hdist <- _. done.
Qed.

Lemma len_take_le {A} k (l : list A) : len (take k l) ≤ len l.
Proof. unfold len. rewrite length_take. lia. Qed.

(** The registry file is replaced. *)
Lemma atomic_write_registry v strict s s' j t orig tomb b :
  len b ≤ MAX_REMOVAL_REGISTRY_BARRIER_BYTES → decode_registry_state b = Ok s' →
  spec c (shape h x v strict s j t orig tomb) (atomic_write_private h REGISTRY_FILE b)
    (fun _ => shape h x v true s' j t orig tomb)
    (fun _ d => (v = Some c → disturbed h c) ∧
       (shape h x None strict s j t orig tomb d ∨ shape h x None true s' j t orig tomb d)).
Proof using Hst Huuid.
  intros Hl Hb. apply spec_each. intros d Hd. unfold atomic_write_private.
  eapply spec_bind with (M := fun uuid d' => (∃ n, (c ≤ n)%nat ∧ uuid = h_new_v4 h n) ∧ d = d').
  { apply spec_new_v4. intros n d' Hn <-. split; [by exists n|done]. }
  intros uuid. apply spec_pure. intros (k & Hk & ->). destruct Hd as [Hp Hf].
  set (temporary := registry_temporary (h_new_v4 h k)).
  assert (∀ v' node files, (∀ c, v' = Some c → v = Some c) → created node b → filed h x v strict s j t files →
    filed h x v' true s' j t (<[REGISTRY_FILE := node]> files)) as Hnew.
  { intros v' node files Hv Hnode Hfiles. eapply filed_registry; [|by apply agree_insert|].
    - destruct Hfiles as [? ? ? ? ? ? Hfresh]. split; try done. intros c0 Ht. by apply Hfresh, Hv.
    - pose proof (created_private _ _ Hnode) as Hpriv. destruct Hnode as (n & directory & ->). eexists _, _.
      split; [apply lookup_insert_eq|]. split; [done|]. by rewrite take_ge by (unfold len in *; lia). }
  eapply spec_bind.
  { eapply spec_weaken.
    - eapply or_remove_spec, publish_temporary_spec.
      + by destruct (h_new_v4 h k).
      + by eapply root_here.
      + intros n Hn. by apply single_link_regular, (created_private _ b).
    - intros a d' H. exact H.
    - intros e d' [He Hleft]. split.
      + intros Hv. destruct He as [He|He]; [|done]. pose proof (fl_fresh _ _ _ _ _ _ _ _ Hf _ Hv k Hk) as Hfresh.
        fold temporary in Hfresh. rewrite Hfresh in He. by destruct He.
      + left. destruct Hleft as (o & -> & _). split; [by apply placed_set_files|].
        eapply (filed_passing temporary); try done.
        * intros name Hname. cbn [dr_files set_files]. by rewrite lookup_partial_alter_ne.
        * apply temporary_name_plain; [done|apply Huuid].
        * by intros [?|?].
  }
  intros [].  apply spec_each. intros d' (Hnone & node & Hnode & ->).
  eapply spec_map_failed.
  - eapply spec_reads; [apply reads_io| |done|].
    + intros [] ? <- _. split; [by apply placed_set_files|]. by apply Hnew.
    + intros e ? Hdist <-. instantiate (1 := fun _ d' => (v = Some c → disturbed h c) ∧
       (shape h x None strict s j t orig tomb d' ∨ shape h x None true s' j t orig tomb d')).
      split; [done|]. right. split; [by apply placed_set_files|]. by apply Hnew.
  - done.
  - done.
Qed.

Lemma schema_of document : validate_document document = Ok () → registry_schema_version document = REGISTRY_SCHEMA_VERSION.
Proof using. unfold validate_document. by intros [H%reject_if_Ok%negb_Zeqb_false _]%bind_unit_Ok. Qed.

Lemma decode_saved document b :
  validate_document document = Ok () → registry_in_range document → to_vec document = Some b →
  len b ≤ MAX_REGISTRY_BYTES → decode_registry_state b = Ok (Stable document).
Proof using RL LR.
  intros Hv Hr Hb Hl. unfold decode_registry_state.
  rewrite (proj2 (Z.ltb_ge MAX_REMOVAL_REGISTRY_BARRIER_BYTES (len b)))
    by (unfold MAX_REMOVAL_REGISTRY_BARRIER_BYTES, MAX_REGISTRY_BYTES in *; lia).
  cbn [reject_if mbind result_bind]. rewrite (header_of_document document) by done.
  cbn [ok_or mbind result_bind]. rewrite (schema_of _ Hv). cbn [Z.eqb Pos.eqb REGISTRY_SCHEMA_VERSION].
  rewrite (proj2 (Z.ltb_ge MAX_REGISTRY_BYTES (len b)) Hl). cbn [reject_if mbind result_bind].
  rewrite (from_slice_to_vec document b) by done. cbn [ok_or mbind result_bind]. by rewrite Hv.
Qed.
Lemma decode_saved_barrier barrier b :
  validate_barrier barrier = Ok () → barrier_in_range barrier → to_vec barrier = Some b →
  len b ≤ MAX_REMOVAL_REGISTRY_BARRIER_BYTES → decode_registry_state b = Ok (RemovalBarrier barrier).
Proof using RL LB.
  intros Hv Hr Hb Hl. unfold decode_registry_state.
  rewrite (proj2 (Z.ltb_ge MAX_REMOVAL_REGISTRY_BARRIER_BYTES (len b)) Hl).
  cbn [reject_if mbind result_bind]. rewrite (header_of_barrier barrier) by done.
  pose proof Hv as Hs. unfold validate_barrier in Hs. apply bind_unit_Ok in Hs as [Hs%reject_if_Ok%negb_Zeqb_false _].
  cbn [ok_or mbind result_bind]. rewrite Hs. cbn [Z.eqb Pos.eqb REGISTRY_SCHEMA_VERSION REMOVAL_REGISTRY_BARRIER_SCHEMA_VERSION].
  rewrite (from_slice_to_vec barrier b) by done. cbn [ok_or mbind result_bind]. by rewrite Hv.
Qed.

(** What a replacement of the registry that failed leaves. *)
Definition either (v : option nat) (strict : bool) (s s' : RegistryState) j t orig tomb (_ : failure) (d : DataRoot) : Prop :=
  (v = Some c → disturbed h c) ∧
  (shape h x None strict s j t orig tomb d ∨ shape h x None true s' j t orig tomb d).
Lemma shape_weaken v strict s j t orig tomb d :
  shape h x v strict s j t orig tomb d → shape h x None strict s j t orig tomb d.
Proof using. intros [? []]. by split; [|split]. Qed.

Lemma save_registry_spec v strict s document j t orig tomb :
  registry_in_range document →
  (v = Some c → validate_document document = Ok () ∧ publishable document) →
  spec c (shape h x v strict s j t orig tomb) (save h document)
    (fun _ d => shape h x v true (Stable document) j t orig tomb d ∧ validate_document document = Ok ())
    (either v strict s (Stable document) j t orig tomb).
Proof using Hst Huuid RL LR.
  intros Hr Hv. unfold save.
  assert (∀ {A} (r : result ProfileError A) a e d, (v = Some c → r = Ok a) → r = Err e →
    shape h x v strict s j t orig tomb d → either v strict s (Stable document) j t orig tomb (Failed e) d) as Hrej.
  { intros A r a e d HP -> Hd. split; [by intros ?%HP|left; by eapply shape_weaken]. }
  eapply spec_guard; [intros e d; apply (Hrej _ _ ()); by intros [? _]%Hv|]. intros [] Hvalid.
  eapply spec_guard; [intros e d; eapply (Hrej _ _ (default [] (to_vec document)));
    by intros [_ (b & -> & _)]%Hv|].
  intros b Hb%ok_or_Ok. eapply spec_guard; [intros e d; apply (Hrej _ _ ())|].
  { intros [_ (b' & Hb' & Hl)]%Hv. apply reject_if_Ok, Z.ltb_ge. congruence. }
  intros [] Hl%reject_if_Ok%Z.ltb_ge. eapply spec_weaken.
  - apply (atomic_write_registry v strict s (Stable document) j t orig tomb b).
    + unfold MAX_REMOVAL_REGISTRY_BARRIER_BYTES, MAX_REGISTRY_BYTES in *. lia.
    + by apply decode_saved.
  - intros a d Hd. by split.
  - done.
Qed.

Lemma save_removal_barrier_spec v strict s j t orig tomb :
  spec c (shape h x v strict s j t orig tomb) (save_removal_barrier h (rm_barrier x))
    (fun _ => shape h x v true (RemovalBarrier (rm_barrier x)) j t orig tomb)
    (fun _ d => shape h x None strict s j t orig tomb d ∨
       shape h x None true (RemovalBarrier (rm_barrier x)) j t orig tomb d).
Proof using Hst Hx Huuid RL LB.
  unfold save_removal_barrier. rewrite (pr_barrier _ _ Hx).
  assert (barrier_in_range (rm_barrier x)) as Hr.
  { split; [by vm_compute|]. split; [apply (pr_journal_range _ _ Hx)|apply (pr_registry_range _ _ Hx)]. }
  eapply spec_checked; [done|].
  eapply spec_guard; [intros e d _ Hd; left; by eapply shape_weaken|]. intros b Hb%ok_or_Ok.
  eapply spec_guard; [intros e d _ Hd; left; by eapply shape_weaken|]. intros [] Hl%reject_if_Ok%Z.ltb_ge.
  eapply spec_weaken; [apply (atomic_write_registry v strict s (RemovalBarrier (rm_barrier x)) j t orig tomb b)|done|].
  - done.
  - apply decode_saved_barrier; [apply (pr_barrier _ _ Hx)|done..].
  - by intros e d [_ Hd].
Qed.

(** ** The journal and its temporary file *)

Lemma spec_remove_file name P (Q : () → DataRoot → Prop) :
  (∀ d, P d → is_Some (dr_files d !! name)) → (∀ d, P d → Q () (remove_file_entry name d)) →
  spec c P (remove_file h name) Q (fun _ d => disturbed h c ∧ P d).
Proof using.
  intros Hn HQ. apply spec_each. intros d Hd. unfold remove_file.
  eapply spec_see; [apply reads_disk|done|done|]. destruct (Hn _ Hd) as [n Hn']. rewrite Hn'.
  apply spec_change; [intros ? <-; by apply HQ|by intros ? ? ? <-].
Qed.
Lemma remove_temporary_spec v strict s j uuid orig tomb :
  spec c (shape h x v strict s j (Some uuid) orig tomb) (remove_file h (removal_temporary uuid))
    (fun _ => shape h x v strict s j None orig tomb)
    (fun _ d => disturbed h c ∧ shape h x v strict s j (Some uuid) orig tomb d).
Proof using.
  apply spec_remove_file.
  - intros d [_ Hf]. apply (fl_temporaries _ _ _ _ _ _ _ _ Hf).
  - intros d [Hp Hf]. split; [by apply placed_set_files|].
    eapply filed_temporary; [done|by apply agree_delete|]. apply temporaries_remove, (fl_temporaries _ _ _ _ _ _ _ _ Hf).
Qed.
Lemma remove_journal_spec v strict s j t orig tomb :
  spec c (shape h x v strict s (Some j) t orig tomb) (remove_file h REMOVAL_JOURNAL_FILE)
    (fun _ => shape h x v strict s None t orig tomb)
    (fun _ d => disturbed h c ∧ shape h x v strict s (Some j) t orig tomb d).
Proof using.
  apply spec_remove_file.
  - intros d [_ Hf]. destruct (fl_journal _ _ _ _ _ _ _ _ Hf) as (m & b & -> & _). by eexists.
  - intros d [Hp Hf]. split; [by apply placed_set_files|].
    eapply filed_journal; [done|by apply agree_delete|]. apply lookup_delete_eq.
Qed.

(** The journal [j] and a temporary [t] are removed, the temporary first. *)
Definition clearing (v : option nat) (strict : bool) s (j : option RemovalJournal) t orig tomb (_ : failure) (d : DataRoot) : Prop :=
  disturbed h c ∧ ∃ j' t', (j' = j ∨ j' = None) ∧ (t' = t ∨ t' = None) ∧
    shape h x v strict s j' t' orig tomb d.
Lemma clearing_now v strict s j t orig tomb e d :
  disturbed h c → shape h x v strict s j t orig tomb d → clearing v strict s j t orig tomb e d.
Proof using. intros Hd Hs. split; [done|]. exists j, t. auto. Qed.

Lemma remove_removal_journal_spec v strict s j t orig tomb (required : bool) :
  j = Some (rm_journal x) ∨ j = None ∧ required = false →
  spec c (shape h x v strict s j t orig tomb)
    (remove_removal_journal h (rm_journal x) (removal_temporary <$> option_list t) required)
    (fun _ => shape h x v strict s None None orig tomb) (clearing v strict s j t orig tomb).
Proof using.
  intros Hj. apply spec_each. intros d Hd. unfold remove_removal_journal.
  assert (journal_of h d = Ok j) as Hjo by apply journal_of_holds, (fl_journal _ _ _ _ _ _ _ _ (proj2 Hd)).
  eapply spec_see; [apply read_journal_reads|exact Hjo|intros e Hdist; by apply clearing_now|].
  eapply spec_checked with (a := ()).
  { destruct Hj as [->|[-> ->]]; [|done]. by rewrite bool_decide_true. }
  eapply spec_bind with (M := fun _ => shape h x v strict s j None orig tomb).
  { destruct t as [uuid|]; cbn [fmap list_fmap option_list].
    - eapply spec_see; [apply root_file_reads|done|intros e Hdist; by apply clearing_now|].
      eapply spec_checked with (a := ()).
      { destruct Hd as [_ [_ _ [Hall [n Hn]] _ _ _ _]]. rewrite Hn. destruct (Hall _ _ Hn) as [_ H].
        rewrite removal_temporary_uuid in H. by destruct H as (_ & _ & -> & _). }
      eapply spec_map_failed; [eapply spec_pre; [apply remove_temporary_spec|by intros ? <-]|..].
      + intros e d' [Hdist Hs]. by apply clearing_now.
      + intros d' [Hdist Hs]. by apply clearing_now.
    - apply spec_ret. by intros ? <-. }
  intros []. clear d Hd Hjo.
  eapply spec_bind with (M := fun _ => shape h x v strict s None None orig tomb).
  { destruct j as [j|].
    - eapply spec_map_failed; [apply remove_journal_spec|..].
      + intros e d' [Hdist Hs]. split; [done|]. exists (Some j), None. auto.
      + intros d' [Hdist Hs]. split; [done|]. exists (Some j), None. auto.
    - by apply spec_ret. }
  intros [].
  eapply spec_map_failed with (R' := fun _ d => disturbed h c ∧ shape h x v strict s None None orig tomb d).
  - by eapply spec_reads; [apply reads_io|..].
  - intros e d' [Hdist Hs]. split; [done|]. exists None, None. auto.
  - intros d' [Hdist Hs]. split; [done|]. exists None, None. auto.
Qed.

(** A publication of the journal that failed leaves a temporary at most. *)
Lemma leftover_removal_temporary v strict s orig tomb uuid b d d' :
  validate_profile_id uuid = Ok () → str_all is_ascii uuid = true → len b ≤ MAX_REMOVAL_JOURNAL_BYTES →
  shape h x v strict s None None orig tomb d → leftover (removal_temporary uuid) b d d' →
  ∃ t, shape h x v strict s None t orig tomb d'.
Proof using.
  intros Hid Hascii Hl [Hp Hf] (o & -> & Ho).
  assert (agree (removal_temporary uuid) (dr_files d) (partial_alter (λ _, o) (removal_temporary uuid) (dr_files d))) as Ha.
  { intros name Hname. by rewrite lookup_partial_alter_ne. }
  pose proof (fl_temporaries _ _ _ _ _ _ _ _ Hf) as Ht.
  destruct Ho as [->|[->|(n & i & -> & Hn)]].
  - exists None. split; [by apply placed_set_files|]. eapply filed_temporary; [done|exact Ha|]. split; [|done].
    intros name n Hname. cbn [dr_files set_files] in Hname.
    destruct (decide (name = removal_temporary uuid)) as [->|Hne]; [by rewrite lookup_partial_alter_eq in Hname|].
    rewrite Ha in Hname by done. by apply Ht.
  - exists None. rewrite partial_alter_self. by split; [apply placed_set_files|].
  - exists (Some uuid). split; [by apply placed_set_files|]. eapply filed_temporary; [done|exact Ha|].
    apply temporaries_add; [exact Ht|done|done|by eapply created_private|].
    destruct Hn as (? & ? & ->). cbn [metadata_len]. pose proof (len_take_le i b). lia.
Qed.
Lemma journal_published v strict s orig tomb b node d :
  to_vec (rm_journal x) = Some b → len b ≤ MAX_REMOVAL_JOURNAL_BYTES → created node b →
  shape h x v strict s None None orig tomb d →
  shape h x v strict s (Some (rm_journal x)) None orig tomb (put_file REMOVAL_JOURNAL_FILE node d).
Proof using Hx LJ.
  intros Hb Hl Hnode [Hp Hf]. split; [by apply placed_set_files|]. eapply filed_journal; [done|by apply agree_insert|].
  pose proof (created_private _ _ Hnode) as Hpriv. destruct Hnode as (i & directory & ->). eexists _, _.
  split; [apply lookup_insert_eq|]. split_and!; try done; [|apply (journal_valid _ _ Hx)].
  apply from_slice_to_vec; [apply (pr_journal_range _ _ Hx)|done].
Qed.

(** The journal is written. *)
Definition writing v strict s orig tomb (_ : failure) (d : DataRoot) : Prop :=
  ∃ j t, (j = None ∨ j = Some (rm_journal x)) ∧ shape h x v strict s j t orig tomb d.
Lemma write_removal_journal_spec v strict s orig tomb :
  spec c (shape h x v strict s None None orig tomb) (write_removal_journal h (rm_journal x))
    (fun _ => shape h x v strict s (Some (rm_journal x)) None orig tomb) (writing v strict s orig tomb).
Proof using Hst Hx Huuid LJ.
  assert (∀ e d, shape h x v strict s None None orig tomb d → writing v strict s orig tomb e d) as Hnone.
  { intros e d Hd. exists None, None. auto. }
  unfold write_removal_journal. pose proof (journal_valid _ _ Hx) as Hvalid. rewrite Hvalid.
  eapply spec_checked; [done|].
  eapply spec_guard; [intros e d _; apply Hnone|]. intros b Hb%ok_or_Ok.
  eapply spec_guard; [intros e d _; apply Hnone|]. intros [] Hl%reject_if_Ok%Z.ltb_ge.
  apply spec_each. intros d Hd.
  eapply spec_bind with (M := fun uuid d' => (∃ n, uuid = h_new_v4 h n) ∧ d = d').
  { apply spec_new_v4. intros n d' _ <-. split; [by exists n|done]. }
  intros uuid. apply spec_pure. intros [k ->]. destruct (Huuid k) as [Hid Hascii].
  eapply spec_bind.
  { eapply spec_weaken; [eapply or_remove_spec, publish_temporary_spec|intros a d' H; exact H|].
    - by destruct (h_new_v4 h k).
    - by eapply root_here, Hd.
    - intros n Hn. by apply (created_private _ b).
    - intros e d' [_ Hleft]. destruct (leftover_removal_temporary _ _ _ _ _ _ _ _ _ Hid Hascii Hl Hd Hleft) as [t Ht].
      exists None, t. auto. }
  intros []. apply spec_each. intros d' (_ & node & Hnode & ->).
  pose proof (journal_published _ _ _ _ _ _ _ _ Hb Hl Hnode Hd) as Hnew.
  assert (∀ e, writing v strict s orig tomb e (put_file REMOVAL_JOURNAL_FILE node d)) as Hdone.
  { intros e. exists (Some (rm_journal x)), None. auto. }
  eapply spec_see_attempt; [apply reads_io|done|by apply spec_ret; intros ? <-|].
  intros e _. eapply spec_see_attempt; [apply read_journal_reads|done| |].
  - destruct (bool_decide _); apply spec_fail; by intros ? <-.
  - intros e' _. destruct (bool_decide _); apply spec_fail; by intros ? <-.
Qed.

(** ** The tree *)

Abbreviation id := (rm_id x).
Abbreviation p := (rm_provider x).

Lemma placed_update orig tomb orig' tomb' f d :
  placed x orig tomb d →
  (∀ es, es !! id = orig → es !! removing id = tomb →
     f es !! id = orig' ∧ f es !! removing id = tomb' ∧
     ∀ name, name ≠ id → name ≠ removing id → f es !! name = es !! name) →
  placed x orig' tomb' (update_profiles p f d).
Proof using.
  intros [Hr Hpr Ho Hp] Hf. assert (update_profiles p f d = match provider_dir p d with
    Some (m, es) => set_provider_dir p (m, f es) d | None => d end) as -> by done.
  rewrite Hp. destruct (provider_dir p (rm_base x)) as [[m es]|] eqn:Hb; cbn [fmap option_fmap option_map fst snd].
  - destruct (Hf (arrange id orig tomb es)) as (H1 & H2 & H3); [apply arrange_id|apply arrange_removing|].
    split; rewrite ?Hb; cbn [fmap option_fmap option_map fst snd]; try by destruct p.
    assert (arrange id orig' tomb' es = f (arrange id orig tomb es)) as ->; [|by destruct p].
    symmetry. apply arrange_ext; [done..|]. intros name Hi Ht. by rewrite H3, arrange_other.
  - split; try done. by rewrite Hb, Hp.
Qed.
Lemma rename_tree_spec v strict s j t n (back : bool) :
  let at_tombstone := shape h x v strict s j t None (Some n) in
  let at_home := shape h x v strict s j t (Some n) None in
  spec c (if back then at_tombstone else at_home)
    (if back then rename_tree h p (removing id) id else rename_tree h p id (removing id))
    (fun _ => if back then at_home else at_tombstone)
    (fun _ d => disturbed h c ∧ (if back then at_tombstone else at_home) d).
Proof using Hst.
  assert (∀ from to orig tomb orig' tomb',
    (∀ d, placed x orig tomb d → profile_entry p from d = Some n ∧ profile_entry p to d = None) →
    (∀ d, placed x orig tomb d → placed x orig' tomb' (update_profiles p (fun es => <[to := n]> (delete from es)) d)) →
    spec c (shape h x v strict s j t orig tomb) (rename_tree h p from to)
      (fun _ => shape h x v strict s j t orig' tomb') (fun _ d => disturbed h c ∧ shape h x v strict s j t orig tomb d)) as Hgen.
  { intros from to orig tomb orig' tomb' Hat Hto. apply spec_each. intros d Hd. unfold rename_tree.
    eapply spec_see; [apply reads_disk|done|done|]. destruct (Hat d (proj1 Hd)) as [-> ->].
    assert (shape h x v strict s j t orig' tomb' (update_profiles p (fun es => <[to := n]> (delete from es)) d)) as Hs.
    { destruct Hd. split; [by apply Hto|]. by rewrite update_profiles_files. }
    destruct n; (apply spec_change; [by intros ? <-|by intros ? ? ? <- _]). }
  pose proof (removing_ne id) as Hne. destruct back; apply Hgen.
  - intros d Hd. by rewrite (entry_original _ _ Hst _ _ _ Hd), (entry_tombstone _ _ Hst _ _ _ Hd).
  - intros d Hd. eapply placed_update; [done|]. intros es H1 H2. split_and!.
    + by rewrite lookup_insert_eq.
    + by rewrite lookup_insert_ne, lookup_delete_eq by done.
    + intros name Hi Ht. by rewrite lookup_insert_ne, lookup_delete_ne by done.
  - intros d Hd. by rewrite (entry_original _ _ Hst _ _ _ Hd), (entry_tombstone _ _ Hst _ _ _ Hd).
  - intros d Hd. eapply placed_update; [done|]. intros es H1 H2. split_and!.
    + by rewrite lookup_insert_ne, lookup_delete_eq by done.
    + by rewrite lookup_insert_eq.
    + intros name Hi Ht. by rewrite lookup_insert_ne, lookup_delete_ne by done.
Qed.

(** What a deletion has left of the tombstone. *)
Definition tombstone_left (o : option Node) : Prop :=
  match o with None => True | Some n => ∃ es, pruned (rm_tree x) es ∧ n = Directory (rm_meta x) es end.

Lemma delete_tombstone_spec v strict s j t n :
  tombstone_left (Some n) →
  spec c (shape h x v strict s j t None (Some n))
    (remove_owned_directory_at h p (removing id) (rj_provider_root (rm_journal x)) (rj_profile_tree (rm_journal x))
       (rr_provider_mount (rm_roots x)) (rj_profile_tree_entry_count (rm_journal x)) MAX_REMOVAL_TREE_DEPTH)
    (fun _ => shape h x v strict s j t None None)
    (fun _ d => disturbed h c ∧ ∃ n, tombstone_left (Some n) ∧ shape h x v strict s j t None (Some n) d).
Proof using Hst Hx.
  intros (es & Hes & ->). apply spec_each. intros d [Hp Hf].
  destruct (provider_facts _ _ Hst Hx) as (pm & entries & Hpd & Hroots & Hroot & Hmount).
  destruct (tree_sound _ _ Hx) as (_ & Htree & Hcount). pose proof (pruned_sound _ _ Hx _ Hes) as Hsound.
  rewrite Hroot, Htree, Hcount.
  eapply spec_weaken; [eapply (remove_owned_directory_at_spec h c (rm_roots x) p (removing id) d pm (rm_meta x)
    (arrange id None (Some (Directory (rm_meta x) es)) entries) es)|..].
  - by rewrite (pl_provider _ _ _ _ Hp), Hpd.
  - apply arrange_removing.
  - by rewrite Hroots.
  - apply check_entry_check_directory, (st_ready _ _ _ _ _ _ Hsound).
  - done.
  - apply (st_safe _ _ _ _ _ _ Hsound).
  - pose proof (pruned_size _ _ Hes). pose proof (st_size _ _ _ _ _ _ (proj1 (tree_sound _ _ Hx))).
    unfold MAX_REMOVAL_TREE_ENTRIES, u64_max in *. lia.
  - intros [] d' ->. split; [|by rewrite update_profiles_files].
    eapply placed_update; [done|]. intros es' H1 H2. split_and!.
    + by rewrite lookup_delete_ne by apply removing_ne.
    + by rewrite lookup_delete_eq.
    + intros name Hi Ht. by rewrite lookup_delete_ne by done.
  - intros e d' (Hdist & es' & Hpr & ->). split; [done|]. exists (Directory (rm_meta x) es').
    split; [exists es'; split; [by eapply pruned_trans|done]|]. split; [|cbn; by rewrite update_profiles_files].
    eapply placed_update; [done|]. intros es0 H1 H2. split_and!.
    + by rewrite lookup_alter_ne by apply removing_ne.
    + by rewrite lookup_alter_eq, H2.
    + intros name Hi Ht. by rewrite lookup_alter_ne by done.
Qed.
End steps.
