(* ===== verification/RemovalRecovery.v ===== *)
(** * Recovery of a removal

    From whatever a removal in progress has left, recovery goes back to the
    disk before the removal or on to the disk after it; a recovery that is
    disturbed leaves a disk from which the next one does. *)
From Stdlib Require Import Ascii.
From S2P Require Import Prelude Interfaces ConversationData ConversationStore CodexLines Profiles ProfileDisk ProfileLogic RemovalTree RemovalTreeProofs RemovalDeletion ProfileRegistry ManagedHome Reauth ProfileRemoval RemovalDisk RemovalSteps.

Open Scope Z_scope.

Section recovery.
Context {UC : UuidCrate} {SC : Sha256Crate} {RH : RegistryHeader} {TC : TomlCrate} {RJ : ReauthJson}.
Context {JR : JsonCodec RegistryDocument} {JB : JsonCodec RemovalRegistryBarrier}.
Context {JM : JsonCodec RemovalJournal} {JJ : JsonCodec ReauthJournal}.
Context (h : Host) (c : nat) (x : Removal).
Context (Hst : standing h x) (Hx : prepared h x) (Huuid : canonical_uuids h).
Context {RL : RegistryHeaderLaws} {LR : JsonRoundTrip RegistryDocument registry_in_range}.
Context {LB : JsonRoundTrip RemovalRegistryBarrier barrier_in_range} {LJ : JsonRoundTrip RemovalJournal removal_in_range}.

Abbreviation id := (rm_id x).
Abbreviation p := (rm_provider x).
Abbreviation journal := (rm_journal x).

(** ** What the scans of recovery see *)

Section seen.
Context (v : option nat) (strict : bool) (s : RegistryState) (j : option RemovalJournal) (t : option string).
Context (orig tomb : option Node) (d : DataRoot) (Hd : shape h x v strict s j t orig tomb d).

Definition tombstones_seen : list (Provider * string) := if bool_decide (is_Some tomb) then [(p, id)] else [].

Lemma shape_registry : registry_of h d = Ok s.
Proof using Hd. eapply registry_of_holds, (fl_registry _ _ _ _ _ _ _ _ (proj2 Hd)). Qed.
Lemma shape_barrier : (s ← registry_of h d; Ok (barrier_of s)) = Ok (barrier_of s).
Proof using Hd. by rewrite shape_registry. Qed.
Lemma shape_journal : journal_of h d = Ok j.
Proof using Hd. apply journal_of_holds, (fl_journal _ _ _ _ _ _ _ _ (proj2 Hd)). Qed.
Lemma shape_tombstones : tombstones_in h d = Ok tombstones_seen.
Proof using Hd Hst. by apply (tombstones_placed _ _ Hst orig), Hd. Qed.
Lemma shape_temporaries : temporaries_in h d = Ok (removal_temporary <$> option_list t).
Proof using Hd. apply temporaries_in_holds, (fl_temporaries _ _ _ _ _ _ _ _ (proj2 Hd)). Qed.
Lemma shape_roots : removal_roots h p (Some journal) d = Ok (rm_roots x).
Proof using Hd Hx. rewrite (roots_placed h x orig tomb) by apply Hd. apply (pr_roots _ _ Hx). Qed.
Lemma shape_original : profile_entry p id d = orig.
Proof using Hd Hst. by eapply (entry_original _ _ Hst), Hd. Qed.
Lemma shape_tombstone : profile_entry p (removing id) d = tomb.
Proof using Hd Hst. by eapply (entry_tombstone _ _ Hst), Hd. Qed.
Lemma shape_has_original : Ok (E := ProfileError) (bool_decide (is_Some (profile_entry p id d))) = Ok (bool_decide (is_Some orig)).
Proof using Hd Hst. by rewrite shape_original. Qed.
Lemma shape_has_tombstone :
  Ok (E := ProfileError) (bool_decide (is_Some (profile_entry p (removing id) d))) = Ok (bool_decide (is_Some tomb)).
Proof using Hd Hst. by rewrite shape_tombstone. Qed.
Lemma tombstones_ours : validate_removal_artifact_set journal tombstones_seen = Ok ().
Proof using.
  unfold validate_removal_artifact_set, tombstones_seen. destruct (bool_decide _); [|done]. cbn.
  by rewrite (proj2 (provider_eqb_true _ _)), String.eqb_refl.
Qed.
Lemma shape_root_private : ∃ m, dr_root d = Some m ∧ private_directory h (Some m) = Ok m.
Proof using Hd Hst. rewrite (pl_root _ _ _ _ (proj1 Hd)). apply (st_root _ _ Hst). Qed.
End seen.

(** A program goes on from a disk of that shape once a read has returned. *)
Ltac see r H := eapply spec_see; [apply r|eapply H; eassumption|try (intros ?e ?Hdist; eauto)|].

(** ** The locks of the tree *)

Lemma not_busy n e : private_lock_file h false n = Err e → e ≠ PE_Busy.
Proof using.
  unfold private_lock_file, private_single_link_regular, private_regular.
  destruct n as [n|]; cbn; [|by intros [= <-]].
  destruct (negb (private_regular_file_metadata_is_safe h n)); cbn; [by intros [= <-]|].
  destruct (negb _); cbn; by intros [= <-].
Qed.
Lemma lock_file_at_spec name lock d :
  spec c (eq d) (lock_file_at h false p name lock) (fun _ d' => d = d')
    (fun e d' => d = d' ∧ (disturbed h c ∨
       (∃ error, e = Failed error ∧ error ≠ PE_Busy) ∧
         private_lock_file h false (entry_in (profile_entry p name d) lock) ≠ Ok ())).
Proof using.
  unfold lock_file_at. eapply spec_see; [apply reads_io|done|by intros; split; auto|].
  eapply (spec_see h); [apply reads_disk|done|by intros; split; auto|].
  eapply spec_guard.
  { intros e ? He <-. split; [done|]. right. split; [|by rewrite He]. exists e. split; [done|]. by eapply not_busy. }
  intros [] Hok. destruct (entry_in _ _) as [n|]; [|done].
  eapply spec_see; [apply reads_io|done|by intros; split; auto|].
  intros w Hw Hd. unfold try_lock_exclusive. destruct (h_locked h (w_clock w)) eqn:Hl; cbn.
  - split; [lia|]. split; [done|]. left. intros Hq. destruct (Hq _ Hw). congruence.
  - destruct (reads_io h c w Hw) as (? & Hsame & Hr). destruct (io h w) as [[[]|e] w']; cbn in *.
    + split; [done|by rewrite Hsame].
    + split; [done|]. split; [by rewrite Hsame|]. left. by destruct Hr as [?|[? _]].
Qed.

(** The lease on a whole tree is taken unless a call is disturbed. *)
Section lease.
Context (name : string) (d : DataRoot) (Hname : tree_name id name).
Definition leased (lease : bool) (d' : DataRoot) : Prop :=
  d = d' ∧ (lease = true ∨ disturbed h c ∨ profile_entry p name d ≠ Some (rm_whole x)).
Definition unleased (_ : failure) (d' : DataRoot) : Prop := disturbed h c ∧ d = d'.
(** An attempt at the lease: busy only if a call is disturbed. *)
Definition tried (r : result ProfileError ()) (d' : DataRoot) : Prop :=
  (r = Ok () ∨ disturbed h c ∨ r ≠ Err PE_Busy ∧ profile_entry p name d ≠ Some (rm_whole x)) ∧ d = d'.

Lemma not_leased : disturbed h c ∨ profile_entry p name d ≠ Some (rm_whole x) →
  spec c (eq d) (mret false : diskM bool) leased unleased.
Proof using. intros H. apply spec_ret. intros ? <-. split; [done|]. destruct H; auto. Qed.
Lemma lock_there lock : lock = COORDINATOR_LOCK_FILE ∨ lock = PROVIDER_LOCK_FILE →
  profile_entry p name d = Some (rm_whole x) →
  private_lock_file h false (entry_in (profile_entry p name d) lock) = Ok ().
Proof using Hx.
  intros Hl ->. cbn [entry_in rm_whole]. unfold private_lock_file.
  assert (private_single_link_regular h (lookup_entry lock (rm_tree x)) = Ok ()) as Hp
    by (destruct Hl as [->| ->]; [apply (pr_coordinator _ _ Hx)|apply (pr_provider_lock _ _ Hx)]).
  by destruct (lookup_entry _ _).
Qed.
Lemma try_lease : tree_at h (rm_roots x) journal name d = Ok () →
  spec c (eq d) (attempt (lock_removal_tree h name journal (rm_roots x))) tried unleased.
Proof using Hx.
  intros Ht.
  set (R := fun e d' => d = d' ∧ (disturbed h c ∨
    (∃ error, e = Failed error ∧ error ≠ PE_Busy) ∧ profile_entry p name d ≠ Some (rm_whole x))).
  assert (∀ lock, lock = COORDINATOR_LOCK_FILE ∨ lock = PROVIDER_LOCK_FILE →
    spec c (eq d) (lock_file_at h false p name lock) (fun _ d' => d = d') R) as Hlock.
  { intros lock Hl. eapply spec_weaken; [apply lock_file_at_spec|done|].
    intros e d' [<- [?|[? Hp]]]; (split; [done|]); [by left|right]. split; [done|]. intros He. by apply Hp, lock_there. }
  eapply (spec_attempt c _ _ _ _ (fun _ d' => d = d') R).
  - unfold lock_removal_tree. eapply spec_see; [apply validate_tree_reads|done|by intros; split; auto|].
    eapply spec_bind; [by apply Hlock; left|]. intros []. eapply spec_bind; [by apply Hlock; right|].
    intros []. eapply spec_reads; [apply validate_tree_reads|by intros ? ? <-|intros ? ? <-; by rewrite Ht|].
    intros e ? Hdist <-. split; [done|by left].
  - intros [] ? <-. split; auto.
  - intros e ? [<- [?|[(? & [= <-] & ?) ?]]]; (split; [|done]); [auto|]. right; right. split; [congruence|done].
  - intros ? [<- [?|[(? & ? & _) _]]]; done.
Qed.

Lemma lease_tree_spec : spec c (eq d) (lease_tree h (Some name) journal (rm_roots x)) leased unleased.
Proof using Hx Hname.
  unfold lease_tree.
  eapply spec_see_attempt; [apply validate_tree_reads|done| |intros e Hd; apply not_leased; by left].
  destruct (tree_at h (rm_roots x) journal name d) as [[]|e] eqn:Ht; cbn [is_ok].
  2:{ apply not_leased. right. intros He. by rewrite (tree_at_whole _ _ Hx _ _ Hname He) in Ht. }
  eapply spec_bind; [by apply try_lease|]. intros r. apply spec_pure. intros Hr. destruct r as [[]|e].
  { apply spec_ret. intros ? <-. split; auto. }
  destruct (decide (e = PE_Busy)) as [->|Hne].
  - apply spec_fail. intros ? <-. split; [|done]. by destruct Hr as [?|[?|[? _]]].
  - assert (spec c (eq d) (mret false : diskM bool) leased unleased) as Hno by (apply not_leased; naive_solver).
    by destruct e.
Qed.
End lease.

(** ** The phases of a removal *)

Abbreviation whole := (rm_whole x).
Abbreviation barred := (RemovalBarrier (rm_barrier x)).

(** The profile is registered and its tree is in place. *)
Definition before (v : option nat) (d : DataRoot) : Prop :=
  ∃ strict, shape h x v strict (Stable (rm_registry x)) None None (Some whole) None d.
(** The barrier stands; the whole tree is in one of its two places. *)
Definition blocked (v : option nat) (d : DataRoot) : Prop :=
  ∃ j t (hidden : bool), (j = Some journal ∨ j = None ∧ hidden = false) ∧
    shape h x v true barred j t (if hidden then None else Some whole) (if hidden then Some whole else None) d.
(** The registry without the profile is published; the tombstone is whole, left
    in part or gone. *)
Definition removed (d : DataRoot) : Prop :=
  ∃ j tomb, (j = Some journal ∨ j = None ∧ tomb = None) ∧ tombstone_left x tomb ∧
    shape h x None true (Stable (rm_removed x)) j None None tomb d.
Definition gone (d : DataRoot) : Prop :=
  shape h x None true (Stable (rm_removed x)) None None None None d.

Lemma effective_ours s j :
  j = Some journal ∨ j = None ∧ s = barred → barrier_of s = None ∨ s = barred →
  effective_removal_journal (barrier_of s) j = Ok (Some journal).
Proof using.
  intros [->|[-> ->]] Hs; [|done]. destruct Hs as [->| ->]; [done|]. cbn. by rewrite decide_True.
Qed.

(** ** The deletion of the tombstone and of the journal *)

Lemma finish_visible_removal_spec n :
  tombstone_left x (Some n) →
  spec c (shape h x None true (Stable (rm_removed x)) (Some journal) None None (Some n))
    (finish_visible_removal h journal) (fun _ => gone) (fun _ d => disturbed h c ∧ removed d).
Proof using Hst Hx.
  intros Hn. apply spec_each. intros d Hd. unfold finish_visible_removal. fold (rm_profile x) p id.
  assert (∀ m d, tombstone_left x (Some m) →
    shape h x None true (Stable (rm_removed x)) (Some journal) None None (Some m) d → removed d) as Hin.
  { intros m d' Hm Hd'. exists (Some journal), (Some m). auto. }
  eapply spec_see; [apply roots_reads|by eapply shape_roots|by eauto|].
  eapply spec_see; [apply validate_partial_reads| |by eauto|].
  { destruct Hn as (es & Hes & ->). eapply (partial_at_pruned _ _ Hst Hx); [by right|exact Hes|].
    by eapply shape_tombstone. }
  eapply spec_bind.
  { eapply spec_map_failed with (R := fun _ d => disturbed h c ∧ removed d).
    - eapply spec_pre; [by apply delete_tombstone_spec|by intros ? <-].
    - intros e d' (Hdist & m & Hm & Hd'). eauto.
    - intros d' (Hdist & m & Hm & Hd'). eauto. }
  intros []. apply spec_each. clear d Hd. intros d Hd.
  assert (∀ j d, j = Some journal ∨ j = None →
    shape h x None true (Stable (rm_removed x)) j None None None d → removed d) as Hin'.
  { intros j d' Hj Hd'. exists j, None. split; [naive_solver|]. by split. }
  eapply spec_see; [apply roots_reads|by eapply shape_roots|by eauto|].
  eapply spec_bind with (M := fun _ d' => d = d').
  { eapply spec_map_failed with (R' := fun _ d' => disturbed h c ∧ d = d').
    - eapply spec_reads; [apply reads_io|by intros ? ? <-|done|by intros ? ? ? <-].
    - intros e ? [? <-]. eauto.
    - intros ? [? <-]. eauto. }
  intros [].
  eapply spec_see; [apply read_journal_reads|by eapply shape_journal|by eauto|].
  eapply spec_checked with (a := ()); [by rewrite bool_decide_true|].
  eapply spec_see; [apply temporaries_reads|by eapply shape_temporaries|by eauto|].
  eapply spec_weaken.
  - eapply spec_pre; [apply (remove_removal_journal_spec h c x None true (Stable (rm_removed x)) (Some journal) None None None true); by left|].
    by intros ? <-.
  - done.
  - intros e d' (Hdist & j' & t' & Hj & Ht & Hd'). split; [done|].
    assert (t' = None) as -> by (by destruct Ht). eauto.
Qed.

(** ** Recovery once the registry is known *)

Lemma complete_removal_spec tomb :
  tombstone_left x tomb →
  spec c (shape h x None true (Stable (rm_removed x)) (Some journal) None None tomb)
    (complete_removal h journal (rm_roots x) false (bool_decide (is_Some tomb)) [])
    (fun _ => gone) (fun _ d => disturbed h c ∧ removed d).
Proof using Hst Hx.
  intros Hn. apply spec_each. intros d Hd. unfold complete_removal. fold (rm_profile x) p id.
  assert (removed d) as Hin by (exists (Some journal), tomb; auto).
  destruct tomb as [n|].
  - rewrite bool_decide_true by by eexists.
    eapply spec_see; [apply validate_partial_reads| |by eauto|].
    { destruct Hn as (es & Hes & ->). eapply (partial_at_pruned _ _ Hst Hx); [by right|exact Hes|].
      by eapply shape_tombstone. }
    eapply spec_pre; [by apply finish_visible_removal_spec|by intros ? <-].
  - rewrite bool_decide_false by by intros [].
    eapply spec_bind with (M := fun _ d' => d = d').
    { eapply spec_map_failed with (R' := fun _ d' => disturbed h c ∧ d = d').
      - eapply spec_reads; [apply reads_io|by intros ? ? <-|done|by intros ? ? ? <-].
      - intros e ? [? <-]. eauto.
      - intros ? [? <-]. eauto. }
    intros []. eapply spec_weaken.
    + eapply spec_pre; [apply (remove_removal_journal_spec h c x None true (Stable (rm_removed x)) (Some journal) None None None true); by left|].
      by intros ? <-.
    + done.
    + intros e d' (Hdist & j' & t' & Hj & Ht & Hd'). split; [done|].
      assert (t' = None) as -> by (by destruct Ht). exists j', None. split; [naive_solver|]. by split.
Qed.

(** What a recovery of a disk behind the barrier leaves when it fails. *)
Definition halfway (v : option nat) (_ : failure) (d : DataRoot) : Prop :=
  (v = Some c → disturbed h c) ∧ (blocked None d ∨ before None d).
Lemma halfway_now v j t hidden e d :
  j = Some journal ∨ j = None ∧ hidden = false → disturbed h c →
  shape h x v true barred j t (if hidden then None else Some whole) (if hidden then Some whole else None) d →
  halfway v e d.
Proof using. intros Hj Hd Hs. split; [done|left]. exists j, t, hidden. split; [done|]. by eapply shape_weaken. Qed.

Lemma restore_profile_spec v j t (hidden lease : bool) :
  (v = Some c → publishable (rm_registry x)) → lease = true ∨ disturbed h c →
  j = Some journal ∨ j = None ∧ hidden = false →
  spec c (shape h x v true barred j t (if hidden then None else Some whole) (if hidden then Some whole else None))
    (restore_profile h journal (rm_barrier x) (rm_roots x) lease (negb hidden) hidden
       (removal_temporary <$> option_list t))
    (fun _ => before v) (halfway v).
Proof using Hst Hx Huuid RL LR.
  intros Hv Hlease Hj. apply spec_each. intros d Hd. unfold restore_profile. fold (rm_profile x) p id.
  assert (∀ e, disturbed h c → halfway v e d) as Hnow by (intros e Hdist; by eapply halfway_now).
  eapply spec_guard; [intros e ? He <-; apply Hnow; by destruct lease, Hlease|]. intros [] _.
  eapply spec_bind with (M := fun _ => shape h x v true barred j t (Some whole) None).
  { destruct hidden; cbn [negb].
    - eapply spec_see; [apply validate_tree_reads| |exact Hnow|].
      { apply (tree_at_whole _ _ Hx); [by right|by eapply shape_tombstone]. }
      eapply spec_bind.
      { eapply spec_weaken; [eapply spec_pre; [apply (rename_tree_spec h c x Hst v true barred j t whole true)|by intros ? <-]
          |intros ? ? H; exact H|]. intros e d' [Hdist Hd']. by apply (halfway_now v j t true). }
      intros []. assert (j = Some journal) as -> by (by destruct Hj as [?|[_ ?]]). clear d Hd Hnow.
      apply spec_each. intros d Hd.
      assert (∀ e, disturbed h c → halfway v e d) as Hnow.
      { intros e Hdist. apply (halfway_now v (Some journal) t false); [by left|done|exact Hd]. }
      eapply spec_see; [apply roots_reads|by eapply shape_roots|exact Hnow|].
      eapply spec_see; [apply validate_tree_reads| |exact Hnow|].
      { apply (tree_at_whole _ _ Hx); [by left|by eapply shape_original]. }
      eapply spec_reads; [apply reads_io|by intros ? ? <-|done|intros e ? Hdist <-; by apply Hnow].
    - eapply spec_reads; [apply validate_tree_reads|by intros ? ? <-| |intros e ? Hdist <-; by apply Hnow].
      intros e ? <-. rewrite (tree_at_whole _ _ Hx); [done|by left|by eapply shape_original]. }
  intros []. eapply spec_bind.
  { eapply spec_weaken; [apply (remove_removal_journal_spec h c x v true barred j t (Some whole) None false)|intros ? ? H; exact H|].
    - naive_solver.
    - intros e d' (Hdist & j' & t' & Hj' & Ht' & Hd'). apply (halfway_now v j' t' false); [naive_solver|done|exact Hd']. }
  intros []. eapply spec_weaken.
  - apply (save_registry_spec h c x Hst Huuid v true barred (rm_registry x) None None (Some whole) None).
    + apply (pr_registry_range _ _ Hx).
    + intros Hp. split; [apply (barrier_parts _ _ Hx)|by apply Hv].
  - intros a d' [Hd' _]. by exists true.
  - intros e d' [Hdist Hd']. split; [done|]. destruct Hd' as [Hd'|Hd']; [left|right; by exists true].
    exists None, None, false. auto.
Qed.

(** ** The whole recovery *)

Section with_journal.
Context (v : option nat) (strict : bool) (s : RegistryState) (j : option RemovalJournal) (t : option string) (orig tomb : option Node).
Context (Q : () → DataRoot → Prop) (R : failure → DataRoot → Prop).
Abbreviation S := (shape h x v strict s j t orig tomb).
Hypothesis Hone : orig = None ∨ tomb = None.
Hypothesis HR : ∀ e d, disturbed h c → S d → R e d.

(** Reading and locking changes nothing of the shape. *)
Lemma lock_step {A} name (k : () → diskM A) (Q' : A → DataRoot → Prop) :
  name = LOCK_FILE ∨ name = REMOVAL_LOCK_FILE → spec c S (k ()) Q' R →
  spec c S (lock_root_file h name ≫= k) Q' R.
Proof using Hst HR.
  intros Hn Hk. eapply spec_bind with (M := fun _ => S); [|by intros []].
  eapply spec_weaken; [by apply (lock_root_file_spec h c x Hst)|done|].
  intros e d [Hdist Hd]. by apply HR.
Qed.
Lemma see_step {A B} (m : diskM A) f a (k : A → diskM B) (Q' : B → DataRoot → Prop) :
  reads h c m f → (∀ d, S d → f d = Ok a) → spec c S (k a) Q' R → spec c S (m ≫= k) Q' R.
Proof using HR.
  intros Hm Hf Hk. apply spec_each. intros d Hd. eapply spec_see; [exact Hm|by apply Hf|by intros; apply HR|].
  eapply spec_pre; [exact Hk|by intros ? <-].
Qed.

Lemma see_registry {B} (k : option RemovalRegistryBarrier → diskM B) (Q' : B → DataRoot → Prop) :
  spec c S (k (barrier_of s)) Q' R → spec c S (read_removal_barrier h ≫= k) Q' R.
Proof using HR. eapply see_step; [apply read_removal_barrier_reads|]. intros d Hd. by eapply shape_barrier. Qed.
Lemma see_journal {B} (k : option RemovalJournal → diskM B) (Q' : B → DataRoot → Prop) :
  spec c S (k j) Q' R → spec c S (read_removal_journal h ≫= k) Q' R.
Proof using HR. eapply see_step; [apply read_journal_reads|]. intros d Hd. by eapply shape_journal. Qed.
Lemma see_tombstones {B} (k : list (Provider * string) → diskM B) (Q' : B → DataRoot → Prop) :
  spec c S (k (tombstones_seen tomb)) Q' R → spec c S (removal_tombstones h ≫= k) Q' R.
Proof using HR Hst. eapply see_step; [apply tombstones_reads|]. intros d Hd. by eapply shape_tombstones. Qed.
Lemma see_temporaries {B} (k : list string → diskM B) (Q' : B → DataRoot → Prop) :
  spec c S (k (removal_temporary <$> option_list t)) Q' R → spec c S (removal_temporaries h ≫= k) Q' R.
Proof using HR. eapply see_step; [apply temporaries_reads|]. intros d Hd. by eapply shape_temporaries. Qed.
Lemma see_roots {B} (k : RemovalRoots → diskM B) (Q' : B → DataRoot → Prop) :
  spec c S (k (rm_roots x)) Q' R → spec c S (validate_removal_roots h p (Some journal) ≫= k) Q' R.
Proof using HR Hst Hx. eapply see_step; [apply roots_reads|]. intros d Hd. by eapply shape_roots. Qed.
Lemma see_places {B} (k : bool → bool → diskM B) (Q' : B → DataRoot → Prop) :
  spec c S (k (bool_decide (is_Some orig)) (bool_decide (is_Some tomb))) Q' R →
  spec c S (o ← path_exists h p id; t ← path_exists h p (removing id); k o t) Q' R.
Proof using HR Hst.
  intros Hk. eapply see_step; [apply path_exists_reads|intros d Hd; by eapply shape_has_original|].
  eapply see_step; [apply path_exists_reads|intros d Hd; by eapply shape_has_tombstone|]. done.
Qed.

Lemma lease_step {B} (k : bool → diskM B) (Q' : B → DataRoot → Prop) :
  (∀ lease, lease = true ∨ disturbed h c ∨ orig ≠ Some whole ∧ tomb ≠ Some whole → spec c S (k lease) Q' R) →
  spec c S (lease_tree h (tree_path id (bool_decide (is_Some orig)) (bool_decide (is_Some tomb))) journal (rm_roots x)
    ≫= k) Q' R.
Proof using Hone HR Hst Hx.
  intros Hk. apply spec_each. intros d Hd. unfold tree_path.
  assert (∀ name n, tree_name id name → profile_entry p name d = n → orig = n ∧ tomb = None ∨ orig = None ∧ tomb = n →
    spec c (eq d) (lease_tree h (Some name) journal (rm_roots x) ≫= k) Q' R) as Hlease.
  { intros name n Hname Hn Hcase.
    eapply spec_bind with (M := fun lease d' => (lease = true ∨ disturbed h c ∨ orig ≠ Some whole ∧ tomb ≠ Some whole) ∧ d = d').
    - eapply spec_weaken; [by apply lease_tree_spec|..].
      + intros lease d' [<- Hl]. split; [|done]. destruct Hl as [?|[?|Hw]]; [auto..|]. right; right.
        rewrite Hn in Hw. destruct Hcase as [[-> ->]|[-> ->]]; by split.
      + intros e d' [Hdist <-]. by apply HR.
    - intros lease. apply spec_pure. intros Hl. eapply spec_pre; [by apply Hk|by intros ? <-]. }
  destruct orig as [n|] eqn:Ho; [|destruct tomb as [n|] eqn:Ht].
  - rewrite bool_decide_true by by eexists. destruct Hone as [?|Htomb]; [done|].
    eapply Hlease; [by left|by eapply shape_original|by left].
  - rewrite bool_decide_false by by intros []. rewrite bool_decide_true by by eexists.
    eapply Hlease; [by right|by eapply shape_tombstone|by right].
  - rewrite !bool_decide_false by by intros []. eapply spec_bind with (M := fun lease d' => lease = false ∧ d = d').
    { by apply spec_ret. }
    intros lease. apply spec_pure. intros ->. eapply spec_pre; [apply Hk|by intros ? <-]. right; right. by split.
Qed.

Definition old_visible : bool := match s with RemovalBarrier _ => true | Stable _ => false end.
Lemma recover_with_journal_spec :
  strict = true → visible (barrier_of s) journal s = (old_visible, negb old_visible) →
  (∀ lease, lease = true ∨ disturbed h c ∨ orig ≠ Some whole ∧ tomb ≠ Some whole →
     spec c S
       (match s with
        | RemovalBarrier barrier => restore_profile h journal barrier (rm_roots x) lease
            (bool_decide (is_Some orig)) (bool_decide (is_Some tomb)) (removal_temporary <$> option_list t)
        | Stable _ => complete_removal h journal (rm_roots x)
            (bool_decide (is_Some orig)) (bool_decide (is_Some tomb)) (removal_temporary <$> option_list t)
        end) Q R) →
  spec c S (recover_with_journal h (barrier_of s) j journal (tombstones_seen tomb)) Q R.
Proof using Hone HR Hst Hx.
  intros Hstrict Hvis Htail. unfold recover_with_journal. fold (rm_profile x) p id.
  eapply spec_checked; [apply tombstones_ours|]. apply see_roots. apply see_places.
  assert (bool_decide (is_Some orig) && bool_decide (is_Some tomb) = false) as Hboth.
  { destruct Hone as [->| ->]; [done|]. apply andb_false_r. }
  rewrite Hboth. eapply spec_checked; [done|]. apply lease_step. intros lease Hlease.
  apply lock_step; [by right|]. apply see_registry, see_journal.
  rewrite !bool_decide_true by done. cbn [andb].
  apply see_tombstones, see_temporaries. eapply spec_checked; [apply tombstones_ours|].
  apply see_roots, see_places. rewrite Hboth. eapply spec_checked; [done|].
  apply lock_step; [by left|].
  eapply see_step; [apply read_existing_reads|intros d Hd; rewrite Hstrict in Hd; by eapply existing_of_holds, (fl_registry _ _ _ _ _ _ _ _ (proj2 Hd))|].
  rewrite Hvis. rewrite eqb_negb2. eapply spec_checked; [done|].
  pose proof (Htail lease Hlease) as Ht. unfold old_visible. by destruct s.
Qed.

End with_journal.

Section preflight.
Context (v : option nat) (strict : bool) (s : RegistryState) (j : option RemovalJournal) (t : option string) (orig tomb : option Node).
Context (Q : () → DataRoot → Prop) (R : failure → DataRoot → Prop).
Abbreviation S := (shape h x v strict s j t orig tomb).
Hypothesis HR : ∀ e d, disturbed h c → S d → R e d.

Definition is_clean : bool :=
  negb (bool_decide (is_Some (barrier_of s))) && negb (bool_decide (is_Some j))
  && negb (bool_decide (is_Some tomb)) && negb (bool_decide (is_Some t)).
Lemma preflight_step {B} (k : result ProfileError bool → diskM B) (Q' : B → DataRoot → Prop) :
  (∀ r, r = Ok is_clean ∨ disturbed h c ∧ (∃ e, r = Err e) → spec c S (k r) Q' R) →
  spec c S (attempt (removal_preflight h) ≫= k) Q' R.
Proof using Hst HR.
  intros Hk. eapply spec_bind with (M := fun r d => (r = Ok is_clean ∨ disturbed h c ∧ ∃ e, r = Err e) ∧ S d);
    [|intros r; apply spec_pure, Hk].
  apply (spec_attempt c _ _ _ _ (fun b d => b = is_clean ∧ S d) (fun _ d => disturbed h c ∧ S d)).
  - clear Hk Q'. assert (∀ (e : failure) d, disturbed h c → S d → disturbed h c ∧ S d) as HR' by done.
    unfold removal_preflight, is_clean.
    eapply see_registry; [done|].
    destruct (barrier_of s); cbn [bool_decide decide_rel is_Some_dec negb andb]; [by apply spec_ret|].
    eapply see_journal; [done|].
    destruct j; [by apply spec_ret|].
    eapply see_tombstones; [done|]. unfold tombstones_seen.
    destruct tomb; [by apply spec_ret|].
    eapply see_temporaries; [done|].
    destruct t; by apply spec_ret.
  - intros b d [-> Hd]. by split; [left|].
  - intros e d [Hdist Hd]. split; [right; by eauto|done].
  - intros d [Hdist Hd]. by apply HR.
Qed.

(** Recovery, with the recovery that holds the lock. *)
Lemma recover_spec :
  (is_clean = true → ∀ d, S d → Q () d) →
  spec c S (recover_incomplete_removal_journaled h) Q R → spec c S (recover_incomplete_removal h) Q R.
Proof using Hst HR.
  intros Hclean Hj. unfold recover_incomplete_removal. apply spec_each. intros d Hd.
  eapply spec_see; [apply reads_io|done|by intros; apply HR|].
  eapply (spec_see h); [apply reads_disk|done|by intros; apply HR|].
  destruct (shape_root_private _ _ _ _ _ _ _ _ Hd) as (m & -> & Hm).
  eapply spec_pre with (P' := S); [|by intros ? <-]. 
  eapply spec_bind with (M := fun _ => S).
  { eapply spec_bind with (M := fun _ => S).
    - eapply spec_reads; [apply reads_io|done|done|by intros; apply HR].
    - intros []. rewrite Hm. by apply (spec_check_Ok _ _ _ m). }
  intros _. apply preflight_step. intros r Hr. case_bool_decide as Hb; [|done].
  apply spec_ret. apply Hclean. destruct Hr as [Hr|[_ [e ->]]]; [congruence|done].
Qed.
End preflight.

(** Nothing is left of a removal: recovery changes nothing. *)
Lemma recover_clean v strict s orig :
  barrier_of s = None →
  spec c (shape h x v strict s None None orig None) (recover_incomplete_removal h)
    (fun _ => shape h x v strict s None None orig None)
    (fun _ d => disturbed h c ∧ shape h x v strict s None None orig None d).
Proof using Hst.
  intros Hs. eapply recover_spec; [done|done|]. unfold recover_incomplete_removal_journaled.
  eapply lock_step; [done|by right|]. eapply see_registry; [done|]. eapply see_journal; [done|].
  eapply see_tombstones; [done|]. eapply see_temporaries; [done|]. rewrite Hs.
  eapply spec_checked; [done|]. eapply spec_checked; [done|]. unfold recover_without_journal.
  eapply spec_checked; [done|]. by apply spec_ret.
Qed.

Lemma recover_before v : spec c (before v) (recover_incomplete_removal h) (fun _ => before v) (fun _ d => disturbed h c ∧ before v d).
Proof using Hst.
  apply spec_exists. intros strict. eapply spec_weaken; [by apply recover_clean|..].
  - intros [] d Hd. by exists strict.
  - intros e d [Hdist Hd]. split; [done|]. by exists strict.
Qed.

Lemma recover_blocked v :
  (v = Some c → publishable (rm_registry x)) →
  spec c (blocked v) (recover_incomplete_removal h) (fun _ => before v) (halfway v).
Proof using Hst Hx Huuid RL LR.
  intros Hv. apply spec_exists. intros j. apply spec_exists. intros t. apply spec_exists. intros hidden.
  apply spec_pure. intros Hj.
  assert (∀ e d, disturbed h c → shape h x v true barred j t (if hidden then None else Some whole)
    (if hidden then Some whole else None) d → halfway v e d) as HR by (intros; by eapply halfway_now).
  eapply recover_spec; [exact HR|done|]. unfold recover_incomplete_removal_journaled.
  eapply lock_step; [exact HR|by right|]. eapply see_registry; [exact HR|]. eapply see_journal; [exact HR|].
  eapply see_tombstones; [exact HR|]. eapply see_temporaries; [exact HR|].
  eapply spec_checked; [apply effective_ours; [naive_solver|by right]|].
  eapply spec_checked with (a := ()).
  { destruct Hj as [->|[-> ->]]; done. }
  eapply recover_with_journal_spec; [by destruct hidden; auto|exact HR|done| |].
  - cbn. by rewrite bool_decide_true.
  - intros lease Hlease. 
    assert (bool_decide (is_Some (if hidden then None else Some whole)) = negb hidden) as -> by by destruct hidden.
    assert (bool_decide (is_Some (if hidden then Some whole else None)) = hidden) as -> by by destruct hidden.
    apply restore_profile_spec; [done| |done]. destruct Hlease as [?|[?|[? ?]]]; [by left|by right|]. by destruct hidden.
Qed.

Lemma recover_removed :
  spec c removed (recover_incomplete_removal h) (fun _ => gone) (fun _ d => disturbed h c ∧ removed d).
Proof using Hst Hx.
  apply spec_exists. intros j. apply spec_exists. intros tomb. apply spec_pure. intros Hj. apply spec_pure. intros Htomb.
  destruct (decide (j = None ∧ tomb = None)) as [[-> ->]|Hne].
  { eapply spec_weaken; [by apply recover_clean|done|]. intros e d [Hdist Hd]. split; [done|]. exists None, None. auto. }
  assert (j = Some journal) as -> by naive_solver. clear Hj Hne.
  assert (∀ (e : failure) d, disturbed h c → shape h x None true (Stable (rm_removed x)) (Some journal) None None tomb d →
    disturbed h c ∧ removed d) as HR.
  { intros e d Hdist Hd. split; [done|]. exists (Some journal), tomb. auto. }
  eapply recover_spec; [exact HR|done|]. unfold recover_incomplete_removal_journaled.
  eapply lock_step; [exact HR|by right|]. eapply see_registry; [exact HR|]. eapply see_journal; [exact HR|].
  eapply see_tombstones; [exact HR|]. eapply see_temporaries; [exact HR|].
  eapply spec_checked; [done|]. eapply spec_checked; [done|].
  eapply recover_with_journal_spec; [by left|exact HR|done| |].
  - destruct (barrier_parts _ _ Hx) as (_ & _ & _ & Habsent). cbn. by rewrite Habsent.
  - intros lease _. rewrite bool_decide_false by by intros []. by apply complete_removal_spec.
Qed.
End recovery.
