(* ===== verification/RemovalCrash.v ===== *)
(** * A removal that may be interrupted anywhere

    The removal of a profile and any number of recoveries, each of which may
    fail or die at any system call, leave one of the disks of a removal in
    progress: the profile is registered and its tree whole, or it is not
    registered and its directory is gone. *)
From Stdlib Require Import Ascii.
From S2P Require Import Prelude Interfaces ConversationData ConversationStore CodexLines Profiles ProfileDisk ProfileLogic RemovalTree RemovalTreeProofs RemovalDeletion ProfileRegistry ManagedHome Reauth ProfileRemoval RemovalDisk RemovalSteps RemovalRecovery.

Open Scope Z_scope.

(** ** No reauthentication in progress *)

Definition no_reauth (document : RegistryDocument) (d : DataRoot) : Prop :=
  (∀ q, q ∈ registry_profiles document → ∀ m es,
     profile_entry (profile_provider q) (profile_id q) d = Some (Directory m es) →
     lookup_entry REAUTH_JOURNAL_FILE es = None) ∧
  (∀ p m es name, provider_dir p d = Some (m, es) → is_Some (es !! name) → is_prefix ".reauth-" name = false).

Section crash.
Context {UC : UuidCrate} {SC : Sha256Crate} {RH : RegistryHeader} {TC : TomlCrate} {RJ : ReauthJson}.
Context {JR : JsonCodec RegistryDocument} {JB : JsonCodec RemovalRegistryBarrier}.
Context {JM : JsonCodec RemovalJournal} {JJ : JsonCodec ReauthJournal}.
Context (h : Host) (c : nat).

(** A program that changes nothing, whatever it returns. *)
Definition keeps {A} (d : DataRoot) (m : diskM A) (Q : A → Prop) : Prop :=
  spec c (eq d) m (fun a d' => Q a ∧ d = d') (fun _ d' => d = d').
Lemma keeps_reads {A} d (m : diskM A) f :
  reads h c m f → keeps d m (fun a => f d = Ok a).
Proof. intros Hm. eapply spec_reads; [exact Hm|by intros ? ? <-|done|by intros ? ? _ <-]. Qed.
Lemma kept_bind {A B} d (m : diskM A) (k : A → diskM B) M Q :
  keeps d m M → (∀ a, M a → keeps d (k a) Q) → keeps d (m ≫= k) Q.
Proof. intros Hm Hk. eapply spec_bind; [exact Hm|]. intros a. apply spec_pure. apply Hk. Qed.
Lemma kept_ret {A} d (a : A) (Q : A → Prop) : Q a → keeps d (mret a) Q.
Proof. intros HQ. apply spec_ret. by intros ? <-. Qed.
Lemma keeps_fail {A} d e (Q : A → Prop) : keeps d (fail e) Q.
Proof. apply spec_fail. by intros ? <-. Qed.
Lemma keeps_check {A} d (r : result ProfileError A) : keeps d (check r) (fun a => r = Ok a).
Proof. apply spec_check; [by intros ? ? <-|by intros ? ? <-]. Qed.
Lemma kept_io d : keeps d (io h) (fun _ => True).
Proof. eapply spec_weaken; [apply (keeps_reads d (io h) _ (reads_io h c))|naive_solver|done]. Qed.
Lemma keeps_disk d : keeps d disk (fun d' => d' = d).
Proof. apply spec_disk. by intros ? <-. Qed.
Lemma keeps_weaken {A} d (m : diskM A) (Q Q' : A → Prop) : keeps d m Q' → (∀ a, Q' a → Q a) → keeps d m Q.
Proof. intros Hm HQ. eapply spec_weaken; [exact Hm|naive_solver|done]. Qed.
Lemma keeps_seq {B} d (k : () → diskM B) Q : keeps d (k ()) Q → keeps d (io h ≫= k) Q.
Proof. intros Hk. eapply kept_bind; [apply kept_io|]. by intros []. Qed.
Lemma keeps_at {B} d (k : DataRoot → diskM B) Q : keeps d (k d) Q → keeps d (disk ≫= k) Q.
Proof. intros Hk. eapply kept_bind; [apply keeps_disk|]. by intros ? ->. Qed.

(** ** The scan for interrupted reauthentications *)

Definition find_of (place : Place) (name : string) (d : DataRoot) : result ProfileError (option Node) :=
  match meta_at place d, entries_at place d with
  | Some _, None => Err PE_Io
  | _, es => Ok (es ≫= lookup_entry name)
  end.
Lemma keeps_find d place name : keeps d (find_at h place name) (fun n => find_of place name d = Ok n).
Proof.
  apply keeps_seq, keeps_at. unfold find_of.
  destruct (meta_at place d), (entries_at place d); first [apply keeps_fail|by apply kept_ret].
Qed.
Lemma find_journal d q :
  (∀ m es, profile_entry (profile_provider q) (profile_id q) d = Some (Directory m es) →
    lookup_entry REAUTH_JOURNAL_FILE es = None) →
  ∀ n, find_of (profile_place q) REAUTH_JOURNAL_FILE d = Ok n → n = None.
Proof.
  intros Hq n. unfold find_of, profile_place. cbn [meta_at entries_at tree_place].
  destruct (profile_entry _ _ d) as [[m b|m es|m sl]|]; cbn; intros [= <-]; [|done]. by eapply Hq.
Qed.

Section reauth.
Context (document : RegistryDocument) (d : DataRoot) (Hd : no_reauth document d).

Lemma keeps_journaled profiles affected :
  profiles ⊆ registry_profiles document →
  keeps d (journaled_profiles h profiles affected) (fun r => r = affected).
Proof using Hd.
  revert affected. induction profiles as [|q profiles IH]; intros affected Hsub; cbn [journaled_profiles].
  { by apply kept_ret. }
  eapply kept_bind; [apply keeps_find|]. intros n Hn.
  assert (n = None) as -> by (eapply find_journal; [|exact Hn]; apply Hd, Hsub; by left).
  apply IH. set_solver.
Qed.
Lemma staging_owners p affected names :
  (∀ name, name ∈ names → is_prefix ".reauth-" name = false) →
  ∀ r, fold_result (staging_owner p document) affected names = Ok r → r = affected.
Proof using.
  induction names as [|name names IH]; intros Hn r; cbn [fold_result]; [by intros [= ->]|].
  intros H. apply bind_Ok in H as (affected' & Hstep & H). unfold staging_owner, into_string in Hstep. inv_ok.
  assert (a = name) as ->.
  { unfold from_utf8 in Hok. destruct (utf8_valid (name_bytes name)); [|done]. injection Hok as <-. apply string_of_name_bytes. }
  rewrite Hn in Hstep by by left. cbn [negb] in Hstep. injection Hstep as <-. apply IH; [|done].
  intros. apply Hn. by right.
Qed.
Lemma keeps_affected p affected : keeps d (affected_of_provider h p document affected) (fun r => r = affected).
Proof using Hd.
  apply keeps_seq, keeps_at. destruct (provider_dir p d) as [[m es]|] eqn:Hp; [|by apply kept_ret].
  eapply kept_bind; [apply keeps_seq, keeps_check|]. intros m' _.
  eapply kept_bind; [apply keeps_journaled|].
  { intros q Hq. by apply list_elem_of_filter in Hq as [_ ?]. }
  intros ? ->. unfold provider_names.
  eapply kept_bind; [apply keeps_seq, keeps_at, keeps_check|]. intros names Hnames. rewrite Hp in Hnames.
  cbn in Hnames. injection Hnames as <-.
  eapply keeps_weaken; [apply keeps_check|]. intros r. apply staging_owners.
  intros name Hname%elem_of_names. destruct Hd as [_ Hn]. by eapply Hn.
Qed.

Lemma keeps_recover_reauth :
  (s ← registry_of h d; stable_of s) = Ok document →
  keeps d (recover_incomplete_reauth h) (fun _ => True).
Proof using Hd.
  intros Hload. unfold recover_incomplete_reauth.
  eapply kept_bind with (M := fun scan => ∀ doc affected, scan = Some (doc, affected) → affected = []).
  2:{ intros [[doc affected]|] Hs; [|by apply kept_ret]. rewrite (Hs _ _ eq_refl). by apply kept_ret. }
  unfold incomplete_reauth_scan. apply keeps_seq, keeps_at. destruct (dr_root d); [|by apply kept_ret].
  eapply kept_bind; [apply keeps_reads, load_reads|]. intros doc Hdoc. assert (doc = document) as -> by congruence.
  apply keeps_seq. destruct (dr_profiles d); [|by apply kept_ret].
  eapply kept_bind; [apply keeps_seq, keeps_check|]. intros m' _.
  eapply kept_bind; [apply keeps_affected|]. intros ? ->.
  eapply kept_bind; [apply keeps_affected|]. intros ? ->. apply kept_ret. by intros ? ? [= <- <-].
Qed.
End reauth.

(** ** The lease of the profile *)

Section lease.
Context (q : Profile) (d : DataRoot) (m : Meta) (es : Entries).
Hypothesis Hq : profile_entry (profile_provider q) (profile_id q) d = Some (Directory m es).

Lemma keeps_lock_file name n :
  lookup_entry name es = Some n →
  keeps d (lock_file_at h true (profile_provider q) (profile_id q) name)
    (fun _ => private_single_link_regular h (Some n) = Ok ()).
Proof using Hq.
  intros Hn. apply keeps_seq, keeps_at. rewrite Hq. cbn [entry_in]. rewrite Hn.
  eapply kept_bind; [apply keeps_check|]. intros [] Hp. apply keeps_seq.
  intros w Hw Hd. unfold try_lock_exclusive. destruct (h_locked h (w_clock w)); [split; [cbn; lia|done]|].
  destruct (kept_io d w Hw Hd) as [? Hr]. destruct (io h w) as [[[]|e] w']; naive_solver.
Qed.
Lemma lock_identities_reads p directory :
  reads h c (lock_identities h p directory) (fun d => let n := profile_entry p directory d in
    m ← directory_meta n;
    directory ← private_directory_identity h m;
    coordinator ← lock_file_identity h (entry_in n COORDINATOR_LOCK_FILE);
    provider ← lock_file_identity h (entry_in n PROVIDER_LOCK_FILE);
    Ok (directory, coordinator, provider)).
Proof using. apply reads_view. Qed.
Lemma keeps_lock_profile coordinator provider :
  lookup_entry COORDINATOR_LOCK_FILE es = Some coordinator → lookup_entry PROVIDER_LOCK_FILE es = Some provider →
  keeps d (lock_profile h q) (fun _ => private_single_link_regular h (Some coordinator) = Ok () ∧
    private_single_link_regular h (Some provider) = Ok ()).
Proof using Hq.
  intros Hc Hp. unfold lock_profile. eapply kept_bind with (M := fun _ => True).
  { unfold profile_directory, verify_private_directory. eapply kept_bind; [apply keeps_check|]. intros ? _.
    apply keeps_at. do 3 (eapply kept_bind; [apply keeps_seq, keeps_check|]; intros ? _).
    apply keeps_seq. by eapply keeps_weaken; [apply keeps_check|]. }
  intros ? _. eapply kept_bind; [by apply keeps_lock_file|]. intros ? Hcp.
  eapply kept_bind; [by apply keeps_lock_file|]. intros ? Hpp.
  apply keeps_seq, keeps_seq. eapply kept_bind; [apply keeps_reads, lock_identities_reads|]. intros expected _.
  apply keeps_seq. eapply kept_bind; [apply keeps_reads, lock_identities_reads|]. intros identities _.
  by eapply keeps_weaken; [apply keeps_check|].
Qed.
End lease.

Lemma keeps_no_artifacts d : keeps d (ensure_no_removal_artifacts_read_only h) (fun _ => True).
Proof.
  apply keeps_seq, keeps_at. destruct (dr_root d); [|by apply kept_ret].
  eapply kept_bind; [apply keeps_reads, read_journal_reads|]. intros j _.
  eapply kept_bind; [apply keeps_check|]. intros ? _.
  eapply kept_bind; [apply keeps_reads, read_removal_barrier_reads|]. intros b _.
  eapply kept_bind; [apply keeps_check|]. intros ? _.
  eapply kept_bind; [apply keeps_reads, tombstones_reads|]. intros l _.
  eapply kept_bind; [apply keeps_check|]. intros ? _.
  eapply kept_bind; [apply keeps_reads, temporaries_reads|]. intros l' _.
  by eapply keeps_weaken; [apply keeps_check|].
Qed.
End crash.
