(* ===== verification/RemovalTheorems.v ===== *)
(** * Removal is safe against crashes and recovery finishes it

    [ready_for_removal] is the disk a removal of a profile is started on,
    [registered_whole] and [unregistered] what is promised of the disk after a
    history of interrupted runs, [at_rest] that nothing of a removal is left. *)
From Stdlib Require Import Ascii.
From S2P Require Import Prelude Interfaces ConversationData ConversationStore CodexLines Profiles ProfileDisk ProfileLogic RemovalTree RemovalTreeProofs RemovalDeletion ProfileRegistry ManagedHome Reauth ProfileRemoval RemovalDisk RemovalFresh RemovalSteps RemovalRecovery RemovalCrash.

Open Scope Z_scope.

(** The registry without the profile. *)
Definition without (P : Profile) (document : RegistryDocument) : RegistryDocument :=
  with_profiles (filter (fun q => profile_id q ≠ profile_id P) (registry_profiles document)) document.
Definition alias_is (p : Provider) (alias : string) (q : Profile) : bool :=
  provider_eqb (profile_provider q) p && String.eqb (profile_alias q) alias.

Lemma filter_all {A} (Q : A → Prop) `{!∀ x, Decision (Q x)} (l : list A) : (∀ x, x ∈ l → Q x) → filter Q l = l.
Proof.
  induction l as [|x l IH]; intros HQ; [done|]. cbn. rewrite decide_True by (apply HQ; by left).
  f_equal. apply IH. intros. apply HQ. by right.
Qed.
Lemma remove_at_filter {A} (f : A → string) l i y :
  NoDup (f <$> l) → l !! i = Some y → remove_at i l = filter (fun x => f x ≠ f y) l.
Proof.
  rewrite remove_at_delete. revert i. induction l as [|x l IH]; intros i Hnd Hi; [done|].
  cbn [fmap list_fmap] in Hnd. apply NoDup_cons in Hnd as [Hx Hnd]. destruct i as [|i]; cbn in Hi.
  - injection Hi as ->. cbn. rewrite decide_False by (intros Hne; by apply Hne).
    symmetry. apply filter_all. intros z Hz He. apply Hx. rewrite <- He. by apply list_elem_of_fmap_2.
  - cbn [delete list_delete]. cbn. rewrite decide_True; [by f_equal; apply IH|].
    intros He. apply Hx. rewrite He. by eapply list_elem_of_fmap_2, list_elem_of_lookup_2.
Qed.

Section theorems.
Context {UC : UuidCrate} {SC : Sha256Crate} {RH : RegistryHeader} {TC : TomlCrate} {RJ : ReauthJson}.
Context {JR : JsonCodec RegistryDocument} {JB : JsonCodec RemovalRegistryBarrier}.
Context {JM : JsonCodec RemovalJournal} {JJ : JsonCodec ReauthJournal}.
Context (h : Host).

(** No removal and no reauthentication is in progress; the tree of the profile
    has its lock files; entries of directories have distinct names, and numbers
    fit their fields. *)
Record ready_for_removal (document : RegistryDocument) (P : Profile) (m : Meta) (es : Entries) (d : DataRoot)
    : Prop := {
  rs_listed : P ∈ registry_profiles document;
  rs_registry : registry_holds h false (Stable document) (dr_files d);
  rs_journal : dr_files d !! REMOVAL_JOURNAL_FILE = None;
  rs_temporaries : temporaries_are h None (dr_files d);
  rs_lock : lock_ok h LOCK_FILE (dr_files d);
  rs_removal_lock : lock_ok h REMOVAL_LOCK_FILE (dr_files d);
  rs_root : ∃ root, dr_root d = Some root ∧ private_directory h (Some root) = Ok root;
  rs_tree : profile_entry (profile_provider P) (profile_id P) d = Some (Directory m es);
  rs_names : NoDup es.*1;
  rs_locks : is_Some (lookup_entry COORDINATOR_LOCK_FILE es) ∧ is_Some (lookup_entry PROVIDER_LOCK_FILE es);
  rs_scan p root entries : provider_dir p d = Some (root, entries) →
    private_directory h (Some root) = Ok root ∧
    ∀ name, is_Some (entries !! name) → plain name ∧ strip_prefix_str ".removing-" name = None;
  rs_reauth : no_reauth document d;
  rs_widths : identity_in_range (identity_of m) ∧
    (∀ root, dr_root d = Some root → identity_in_range (identity_of root)) ∧
    (∀ root, dr_profiles d = Some root → identity_in_range (identity_of root)) ∧
    (∀ p root entries, provider_dir p d = Some (root, entries) → identity_in_range (identity_of root));
}.

Lemma registry_holds_valid strict document files :
  registry_holds h strict (Stable document) files →
  validate_document document = Ok () ∧ ∃ b, from_slice b = Some document.
Proof using.
  intros (m & b & _ & _ & H). unfold decode_registry_state in H.
  apply bind_unit_Ok in H as [_ H]. apply bind_Ok in H as (version & _ & H).
  destruct (version =? REGISTRY_SCHEMA_VERSION).
  - apply bind_unit_Ok in H as [_ H]. apply bind_Ok in H as (document' & Hb%ok_or_Ok & H).
    apply bind_unit_Ok in H as [Hv [= ->]]. eauto.
  - destruct (version =? _); [|done]. apply bind_Ok in H as (? & _ & H). by apply bind_unit_Ok in H as [_ ?].
Qed.
Lemma validate_document_ids document P :
  validate_document document = Ok () → P ∈ registry_profiles document → validate_profile_id (profile_id P) = Ok ().
Proof using.
  unfold validate_document. intros [_ H]%bind_unit_Ok HP. apply list_elem_of_lookup in HP as [i Hi].
  rewrite for_each_prev_lookup in H.
  specialize (H i P Hi). by apply bind_unit_Ok in H as [H _].
Qed.

(** ** The steps of one removal *)

Section remove.
Context (document : RegistryDocument) (P : Profile) (m : Meta) (es : Entries) (d0 : DataRoot).
Context (Hready : ready_for_removal document P m es d0) (Huuid : canonical_uuids h).
Context {RL : RegistryHeaderLaws} {LR : JsonRoundTrip RegistryDocument registry_in_range}.
Context {LB : JsonRoundTrip RemovalRegistryBarrier barrier_in_range} {LJ : JsonRoundTrip RemovalJournal removal_in_range}.
Abbreviation tree := (Directory m es).

(** The removal of that profile; the journal is only known once the tree was
    read. *)
Definition removal_with (j : RemovalJournal) (roots : RemovalRoots) : Removal :=
  mkRemoval document (without P document) j roots m es d0.
Definition no_identity : FileSystemIdentity := mkFileSystemIdentity 0 0.
Definition unknown : Removal :=
  removal_with (mkRemovalJournal 0 P "" "" no_identity no_identity no_identity no_identity 0 "")
    (mkRemovalRoots Claude no_identity no_identity no_identity []).
(** Before the barrier. *)
Definition untouched (d : DataRoot) : Prop := shape h unknown None false (Stable document) None None (Some tree) None d.
(** A removal in progress of which the steps up to the barrier were checked. *)
Definition of_profile (x : Removal) : Prop :=
  ∃ j roots, x = removal_with j roots ∧ rj_profile j = P ∧ prepared h x.

Lemma shape_of_profile x v strict s j t orig tomb d :
  of_profile x → shape h unknown v strict s j t orig tomb d ↔ shape h x v strict s j t orig tomb d.
Proof using.
  intros (j' & roots & -> & HP & _). unfold shape.
  assert (rm_id (removal_with j' roots) = rm_id unknown) as Hid by (unfold rm_id, rm_profile; cbn; by rewrite HP).
  assert (rm_provider (removal_with j' roots) = rm_provider unknown) as Hpr by (unfold rm_provider, rm_profile; cbn; by rewrite HP).
  split; intros [[? ? Ho Hp] []]; (split; split; try done); by rewrite ?Hid, ?Hpr in *.
Qed.
Lemma document_valid : validate_document document = Ok ().
Proof using Hready. by apply (registry_holds_valid _ _ _ (rs_registry _ _ _ _ _ Hready)). Qed.
Lemma standing_any x : rm_base x = d0 → rm_profile x = P → rm_whole x = tree → standing h x.
Proof using Hready.
  intros Hb HP Hw. split.
  - rewrite Hb. apply Hready.
  - unfold rm_id. rewrite HP. eapply validate_document_ids; [apply document_valid|apply Hready].
  - unfold rm_provider, rm_id. rewrite Hb, HP, Hw. apply Hready.
  - rewrite Hb. apply Hready.
Qed.
Lemma standing_unknown : standing h unknown.
Proof using Hready. by apply standing_any. Qed.
Lemma standing_of x : of_profile x → standing h x.
Proof using Hready. intros (j & roots & -> & HP & _). by apply standing_any. Qed.

Lemma untouched_start : untouched d0.
Proof using Hready.
  destruct Hready as [? ? ? ? ? ? ? Ht ? ? Hscan ? ?]. split; split; try done.
  unfold rm_provider, rm_id, rm_profile. cbn. unfold profile_entry in Ht.
  destruct (provider_dir (profile_provider P) d0) as [[root entries]|] eqn:Hp; [|done]. cbn. f_equal. f_equal.
  apply arrange_ext; [done| |done]. destruct (Hscan _ _ _ Hp) as [_ Hn].
  destruct (entries !! removing (profile_id P)) eqn:He; [|done].
  destruct (Hn (removing (profile_id P))) as [_ Hs]; [by eexists|]. by rewrite strip_removing in Hs.
Qed.
Lemma untouched_directories d : untouched d →
  dr_root d = dr_root d0 ∧ dr_profiles d = dr_profiles d0 ∧ ∀ q, provider_dir q d = provider_dir q d0.
Proof using Hready.
  intros [Hp _]. pose proof untouched_start as [Hp0 _]. split; [apply Hp|]. split; [apply Hp|]. intros q.
  pose proof (pl_provider _ _ _ _ Hp) as H1. pose proof (pl_provider _ _ _ _ Hp0) as H2.
  pose proof (pl_other _ _ _ _ Hp) as H3. cbn in H1, H2, H3.
  destruct (decide (q = rm_provider unknown)) as [->|Hq]; [by rewrite H1, <- H2|].
  assert (q = other_provider (rm_provider unknown)) as -> by (by destruct q, (rm_provider unknown)). exact H3.
Qed.

(** What the roots are, and that they are found again with the journal. *)
Lemma roots_again p roots j d :
  removal_roots h p None d = Ok roots →
  rj_data_root j = rr_data_root roots → rj_profiles_root j = rr_profiles_root roots →
  rj_provider_root j = rr_provider_root roots → removal_roots h p (Some j) d = Ok roots.
Proof using.
  unfold removal_roots. intros H H1 H2 H3.
  repeat match goal with H : _ ≫= _ = Ok _ |- _ => apply bind_Ok in H as (? & ?Hok & H) end.
  injection H as <-. cbn in H1, H2, H3.
  repeat match goal with Hk : _ = Ok ?a |- context [_ ≫= _] => rewrite Hk; cbn [mbind result_bind]; clear Hk end.
  rewrite H1, H2, H3. by rewrite !bool_decide_true.
Qed.
Lemma roots_identities p roots d :
  removal_roots h p None d = Ok roots →
  ∃ root profiles_root provider_root, dr_root d = Some root ∧ dr_profiles d = Some profiles_root ∧
    provider_meta p d = Some provider_root ∧ rr_data_root roots = identity_of root ∧
    rr_profiles_root roots = identity_of profiles_root ∧ rr_provider_root roots = identity_of provider_root.
Proof using.
  unfold removal_roots, private_directory_identity, private_directory. intros H. inv_ok. 
  eexists _, _, _. split_and!; [eassumption..|cbn; congruence| |]; cbn; congruence.
Qed.

(** The checks up to the barrier prepare the removal. *)
Lemma checked_prepared d roots sn j :
  untouched d →
  removal_roots h (profile_provider P) None d = Ok roots →
  validate_owned_removal_tree h roots (profile_id P) (Some tree) (profile_id P) None = Ok sn →
  removal_of P document (without P document) roots sn = Ok j →
  validate_barrier (mkRemovalRegistryBarrier REMOVAL_REGISTRY_BARRIER_SCHEMA_VERSION j document) = Ok () →
  private_single_link_regular h (lookup_entry COORDINATOR_LOCK_FILE es) = Ok () →
  private_single_link_regular h (lookup_entry PROVIDER_LOCK_FILE es) = Ok () →
  of_profile (removal_with j roots).
Proof using Hready LR.
  intros Hd Hroots Hsn Hj Hb Hcl Hpl. exists j, roots. split; [done|].
  destruct (untouched_directories _ Hd) as (Hr & Hpr & Hdirs).
  assert (removal_roots h (profile_provider P) None d0 = Ok roots) as Hroots0.
  { rewrite <- Hroots. unfold removal_roots, provider_meta. by rewrite Hr, Hpr, Hdirs. }
  destruct (registry_holds_valid _ _ _ (rs_registry _ _ _ _ _ Hready)) as [Hvalid [b Hfrom]].
  pose proof (from_slice_in_range _ _ Hfrom) as [Hschema Hall].
  unfold removal_of in Hj. apply bind_Ok in Hj as (e & He & Hj). apply bind_Ok in Hj as (r & Hrd & [= Hj]).
  assert (rj_profile j = P) as HP by (by subst j). split; [done|].
  pose proof Hsn as Hinner. unfold validate_owned_removal_tree in Hinner.
  apply bind_Ok in Hinner as (sn' & Hinner & Hrest). apply bind_unit_Ok in Hrest as [_ [= ->]].
  apply validate_inner_Ok in Hinner as (m' & es' & [= <- <-] & _ & _ & Hsound & Hsnr & Hsnc).
  destruct (roots_identities _ _ _ Hroots0) as (r1 & r2 & r3 & Hr1 & Hr2 & Hr3 & Hi1 & Hi2 & Hi3).
  assert (without P document = with_profiles (filter (fun q => profile_id q ≠ profile_id (rj_profile j))
    (registry_profiles document)) document) as Hwithout by (by rewrite HP).
  split; unfold rm_provider, rm_id, rm_profile, rm_barrier, rm_whole;
    cbn [removal_with rm_journal rm_registry rm_removed rm_base rm_roots rm_meta rm_tree]; rewrite ?HP; try done.
  - rewrite Hwithout. unfold validate_barrier in Hb. cbn [rb_removal rb_expected_registry] in Hb.
    do 3 apply bind_unit_Ok in Hb as [_ Hb]. apply bind_Ok in Hb as (? & _ & Hb). do 2 apply bind_unit_Ok in Hb as [_ Hb].
    apply bind_Ok in Hb as (matches & Hm & Hb). by apply reject_if_Ok, negb_false_iff in Hb as ->.
  - split; [done|]. apply Forall_forall. intros q Hq. cbn in Hq. apply list_elem_of_filter in Hq as [_ Hq].
    by eapply Forall_forall in Hall.
  - pose proof (rs_widths _ _ _ _ _ Hready) as (Hw & Hw1 & Hw2 & Hw3).
    unfold provider_meta in Hr3. destruct (provider_dir (profile_provider P) d0) as [[root entries]|] eqn:Hpd; [|done].
    injection Hr3 as <-. subst j. split; [cbn; unfold REMOVAL_JOURNAL_SCHEMA_VERSION; lia|]. split.
    { cbn. eapply Forall_forall in Hall; [done|apply Hready]. }
    cbn. split.
    { pose proof (st_size _ _ _ _ _ _ Hsound). unfold in_u64, MAX_REMOVAL_TREE_ENTRIES, u64_max in *. lia. }
    rewrite !Forall_cons, Hi1, Hi2, Hi3, Hsnr. split_and!; eauto.
  - by subst j; apply roots_again.
  - intros name Hname. assert (tree_snapshot j = sn) as -> by (subst j; by destruct sn).
    by eapply validate_tree_again.
  - apply Hready.
Qed.

(** ** The whole removal *)

Section run.
Context (c : nat).
Definition in_progress (d : DataRoot) : Prop :=
  untouched d ∨ ∃ x, of_profile x ∧ (before h x None d ∨ blocked h x None d ∨ removed h x d).
Definition completed (d : DataRoot) : Prop := ∃ x, of_profile x ∧ gone h x d.
Abbreviation stops := (fun (_ : failure) d => in_progress d).

Lemma keep_step {A B} d (prog : diskM A) M (k : A → diskM B) Q :
  keeps c d prog M → in_progress d → (∀ a, M a → spec c (eq d) (k a) Q stops) →
  spec c (eq d) (prog ≫= k) Q stops.
Proof using.
  intros Hprog Hd Hk. eapply spec_bind with (M := fun a d' => M a ∧ d = d').
  - eapply spec_weaken; [exact Hprog|done|]. by intros e d' <-.
  - intros a. apply spec_pure. apply Hk.
Qed.
Lemma untouched_load d : untouched d → (s ← registry_of h d; stable_of s) = Ok document.
Proof using. intros Hd. by rewrite (shape_registry _ _ _ _ _ _ _ _ _ _ Hd). Qed.
Lemma keeps_selected d alias :
  untouched d → find_first (alias_is (profile_provider P) alias) (registry_profiles document) = Some P →
  keeps c d (find_without_recovery h (profile_provider P) alias) (fun q => q = P).
Proof using.
  intros Hd Hfind. eapply kept_bind; [eapply keeps_reads, load_reads|]. intros document' Hdoc.
  cbn beta in Hdoc. rewrite (untouched_load _ Hd) in Hdoc. injection Hdoc as <-.
  eapply keeps_weaken; [apply keeps_check|]. intros q. unfold alias_is in Hfind. rewrite Hfind. by intros [= <-].
Qed.
Lemma untouched_tree d : untouched d → profile_entry (profile_provider P) (profile_id P) d = Some tree.
Proof using Hready.
  intros Hd. destruct (untouched_directories _ Hd) as (_ & _ & Hdirs). unfold profile_entry. rewrite Hdirs. apply Hready.
Qed.
Lemma untouched_no_reauth d : untouched d → no_reauth document d.
Proof using Hready.
  intros Hd. destruct (untouched_directories _ Hd) as (_ & _ & Hdirs).
  destruct (rs_reauth _ _ _ _ _ Hready) as [H1 H2]. split.
  - intros q Hq m' es'. unfold profile_entry. rewrite Hdirs. by apply H1.
  - intros p m' es' name. rewrite Hdirs. by apply H2.
Qed.

(** A lock of the data root is taken and the program goes on. *)
Lemma lock_untouched {B} name (k : () → diskM B) Q :
  name = LOCK_FILE ∨ name = REMOVAL_LOCK_FILE → spec c untouched (k ()) Q stops →
  spec c untouched (lock_root_file h name ≫= k) Q stops.
Proof using Hready.
  intros Hname Hk. eapply spec_bind with (M := fun _ => untouched); [|by intros []].
  eapply spec_weaken; [by apply (lock_root_file_spec h c unknown standing_unknown)|done|].
  intros e d [_ Hd]. by left.
Qed.

Section of_x.
Context (x : Removal) (Hof : of_profile x).
Abbreviation journal := (rm_journal x).
Abbreviation S j orig tomb := (shape h x None true (RemovalBarrier (rm_barrier x)) j None orig tomb).
Lemma profile_of : prepared h x ∧ rm_profile x = P ∧ rm_whole x = tree ∧ rm_registry x = document ∧ rm_removed x = without P document.
Proof using Hof. destruct Hof as (j & roots & -> & HP & Hx). done. Qed.

Lemma blocked_at j t hidden d : j = Some journal ∨ j = None ∧ hidden = false →
  shape h x None true (RemovalBarrier (rm_barrier x)) j t (if hidden then None else Some (rm_whole x))
    (if hidden then Some (rm_whole x) else None) d → in_progress d.
Proof using Hof. intros Hj Hd. right. exists x. split; [done|]. right; left. by exists j, t, hidden. Qed.

Lemma publish_removed_spec :
  spec c (S (Some journal) None (Some (rm_whole x))) (publish_removed h journal (without P document))
    (fun _ => shape h x None true (Stable (rm_removed x)) (Some journal) None None (Some (rm_whole x))) stops.
Proof using Hof Hready Huuid RL LR.
  destruct profile_of as (Hx & HP & Hw & Hdoc & Hrm). pose proof (standing_of _ Hof) as Hst.
  assert (∀ d, S (Some journal) None (Some (rm_whole x)) d → in_progress d) as Hold.
  { intros d Hd. apply (blocked_at (Some journal) None true); [by left|done]. }
  assert (∀ d, shape h x None true (Stable (rm_removed x)) (Some journal) None None (Some (rm_whole x)) d → in_progress d) as Hnew.
  { intros d Hd. right. exists x. split; [done|]. do 2 right. exists (Some journal), (Some (rm_whole x)).
    split; [by left|]. split; [|done]. exists (rm_tree x). split; [constructor|done]. }
  set (N := shape h x None true (Stable (rm_removed x)) (Some journal) None None (Some (rm_whole x))) in *.
  set (O := S (Some journal) None (Some (rm_whole x))) in *.
  assert (spec c (fun d => O d ∨ N d) (document ← load h;
      matches ← check (matches_removed_registry journal document);
      check (reject_if (negb matches) PE_RemovalRecoveryRequired)) (fun _ => N) stops) as Hread.
  { apply spec_or; apply spec_each; intros d Hd.
    - eapply spec_bind with (M := fun _ _ => False); [|by intros ? ? ? []].
      eapply spec_reads; [apply load_reads|..].
      + intros ? ? <-. by rewrite (shape_registry _ _ _ _ _ _ _ _ _ _ Hd).
      + intros ? ? <- _. by apply Hold.
      + intros ? ? _ <-. by apply Hold.
    - eapply spec_see; [apply load_reads|cbn beta; by rewrite (shape_registry _ _ _ _ _ _ _ _ _ _ Hd)|intros; by apply Hnew|].
      eapply spec_checked; [apply (pr_removed _ _ Hx)|]. apply (spec_check_Ok _ _ _ ()); [done|by intros ? <-]. }
  unfold publish_removed.
  eapply spec_bind with (M := fun r d => match r with Ok _ => N d | Err _ => O d ∨ N d end).
  { apply (spec_attempt c _ _ _ _ (fun _ => N) (fun _ d => O d ∨ N d)).
    - rewrite <- Hrm. eapply spec_weaken; [apply (save_registry_spec h c x Hst Huuid None true)|by intros ? ? [? _]|].
      + apply (pr_removed_range _ _ Hx).
      + done.
      + by intros e d [_ Hd].
    - by intros [].
    - done.
    - intros d [?|?]; auto. }
  assert (∀ d, O d ∨ N d → in_progress d) as Hboth by (intros d [?|?]; auto).
  intros [[]|e].
  { eapply spec_bind with (M := fun _ => N); [by apply spec_ret|]. intros [].
    eapply spec_pre; [exact Hread|intros d Hd; by right]. }
  assert (spec c (fun d => O d ∨ N d) (fail e : diskM ()) (fun _ d => O d ∨ N d) stops) as Hfail by by apply spec_fail.
  eapply spec_bind with (M := fun _ d => O d ∨ N d); [|intros []; exact Hread].
  destruct e; try exact Hfail.
  eapply spec_bind with (M := fun _ => N); [exact Hread|]. intros [].
  eapply spec_map_failed with (R' := fun _ => N); [|by auto|by auto].
  eapply spec_reads; [apply reads_io|by auto|done|done].
Qed.

Lemma hide_profile_spec :
  spec c (S (Some journal) (Some (rm_whole x)) None) (hide_profile h journal (rm_roots x) (without P document))
    (fun _ => shape h x None true (Stable (rm_removed x)) (Some journal) None None (Some (rm_whole x))) stops.
Proof using Hof Hready Huuid RL LR.
  destruct profile_of as (Hx & HP & Hw & Hdoc & Hrm). pose proof (standing_of _ Hof) as Hst.
  unfold hide_profile. fold (rm_profile x) (rm_provider x) (rm_id x). apply spec_each. intros d Hd.
  assert (∀ (hidden : bool) d, S (Some journal) (if hidden then None else Some (rm_whole x)) (if hidden then Some (rm_whole x) else None) d →
    in_progress d) as Hin by (intros hidden d' Hd'; apply (blocked_at (Some journal) None hidden); [by left|exact Hd']).
  eapply spec_see; [apply path_exists_reads|by eapply (shape_has_tombstone h x Hst)|intros; by apply (Hin false)|].
  rewrite bool_decide_false by by intros [].
  eapply spec_checked; [done|].
  eapply spec_bind.
  { eapply spec_weaken; [eapply spec_pre; [apply (rename_tree_spec h c x Hst None true (RemovalBarrier (rm_barrier x)) (Some journal) None (rm_whole x) false)|by intros ? <-]
      |intros ? ? H; exact H|]. intros e d' [_ Hd']. by apply (Hin false). }
  intros []. clear d Hd. apply spec_each. intros d Hd.
  eapply spec_see; [apply roots_reads|by eapply (shape_roots h x Hx)|intros; by apply (Hin true)|].
  eapply spec_see; [apply validate_tree_reads| |intros; by apply (Hin true)|].
  { apply (tree_at_whole _ _ Hx); [by right|]. by eapply (shape_tombstone h x Hst). }
  eapply spec_see; [apply reads_io|done|intros; by apply (Hin true)|].
  eapply spec_pre; [apply publish_removed_spec|by intros ? <-].
Qed.

(** From the barrier to the end. *)
Lemma after_checks :
  spec c untouched
    (_ ← save_removal_barrier h (rm_barrier x);
     _ ← write_removal_journal h journal;
     _ ← hide_profile h journal (rm_roots x) (without P document);
     _ ← finish_visible_removal h journal;
     mret P) (fun q d => q = P ∧ completed d) stops.
Proof using Hof Hready Huuid RL LR LB LJ.
  destruct profile_of as (Hx & HP & Hw & Hdoc & Hrm). pose proof (standing_of _ Hof) as Hst.
  eapply spec_bind.
  { eapply spec_weaken; [eapply spec_pre; [apply (save_removal_barrier_spec h c x Hst Hx Huuid None false (Stable document) None None (Some (rm_whole x)) None)|]
      |intros ? ? H; exact H|].
    - intros d Hd. rewrite Hw. by apply shape_of_profile.
    - intros e d [Hd|Hd].
      + left. rewrite Hw in Hd. by apply (shape_of_profile x).
      + by apply (blocked_at None None false); [right|]. }
  intros []. eapply spec_bind.
  { eapply spec_weaken; [apply (write_removal_journal_spec h c x Hst Hx Huuid)|intros ? ? H; exact H|].
    intros e d (j & t & Hj & Hd). apply (blocked_at j t false); [destruct Hj; auto|done]. }
  intros []. eapply spec_bind; [apply hide_profile_spec|].
  intros []. eapply spec_bind.
  { eapply spec_weaken; [apply (finish_visible_removal_spec h c x Hst Hx (rm_whole x))|intros ? ? H; exact H|].
    - exists (rm_tree x). split; [constructor|done].
    - intros e d [_ Hd]. right. exists x. auto. }
  intros []. apply spec_ret. intros d Hd. split; [done|]. by exists x.
Qed.
End of_x.

Lemma remove_spec alias confirmed :
  find_first (alias_is (profile_provider P) alias) (registry_profiles document) = Some P →
  spec c untouched (remove h (profile_provider P) alias confirmed) (fun q d => q = P ∧ completed d) stops.
Proof using Hready Huuid RL LR LB LJ.
  intros Hfind. unfold remove.
  eapply spec_bind with (M := fun _ => untouched).
  { eapply spec_weaken; [by apply (recover_clean h c unknown standing_unknown)|done|]. intros e d [_ Hd]. by left. }
  intros []. apply spec_each. intros d Hd.
  eapply keep_step; [eapply keeps_recover_reauth; [by apply untouched_no_reauth|by apply untouched_load]|by left|].
  intros [] _. eapply keep_step; [by apply keeps_selected|by left|]. intros ? ->.
  eapply keep_step; [apply keeps_check|by left|]. intros [] _.
  destruct (rs_locks _ _ _ _ _ Hready) as [[lc Hlc] [lp Hlp]].
  eapply keep_step; [eapply (keeps_lock_profile h c P d m es); [by apply untouched_tree|done|done]|by left|].
  intros [] [Hcl Hpl]. rewrite <- Hlc in Hcl. rewrite <- Hlp in Hpl.
  eapply spec_pre; [|intros ? <-; exact Hd]. clear d Hd.
  apply lock_untouched; [by right|].
  eapply spec_bind with (M := fun _ => untouched).
  { apply lock_untouched; [by left|]. apply spec_each. intros d Hd.
    eapply spec_weaken; [apply keeps_no_artifacts|by intros [] ? [_ <-]|]. intros e ? <-. by left. }
  intros []. apply spec_each. intros d Hd.
  eapply keep_step; [eapply keeps_reads, load_reads|by left|]. intros current Hcur. cbn beta in Hcur.
  rewrite (untouched_load _ Hd) in Hcur. injection Hcur as <-.
  eapply keep_step; [apply keeps_check|by left|]. intros i Hi%ok_or_Ok.
  apply position_Some in Hi as (q & Hi & Hq & _). apply bool_decide_eq_true in Hq as ->.
  eapply keep_step; [eapply keeps_reads, roots_reads|by left|]. intros roots Hroots.
  eapply keep_step; [eapply keeps_reads, found_reads|by left|]. intros n Hn. cbn beta in Hn.
  rewrite (untouched_tree _ Hd) in Hn. injection Hn as <-.
  eapply keep_step; [apply keeps_check|by left|]. intros sn Hsn.
  assert (with_profiles (remove_at i (registry_profiles document)) document = without P document) as ->.
  { unfold without. by rewrite (remove_at_filter profile_id _ i P);
      [|by apply validate_document_unique, document_valid|]. }
  eapply keep_step; [apply keeps_check|by left|]. intros j Hj.
  eapply spec_pre; [|intros ? <-; exact Hd].
  destruct (validate_barrier (mkRemovalRegistryBarrier REMOVAL_REGISTRY_BARRIER_SCHEMA_VERSION j document)) as [[]|e] eqn:Hb.
  2:{ eapply spec_bind with (M := fun _ _ => False); [|by intros ? ? ? []]. unfold save_removal_barrier. rewrite Hb.
      eapply spec_bind with (M := fun _ _ => False); [|by intros ? ? ? []]. apply spec_check; [done|]. by left. }
  exact (after_checks (removal_with j roots) (checked_prepared d roots sn j Hd Hroots Hsn Hj Hb Hcl Hpl)).
Qed.

(** Recovery keeps what a removal may leave and, when nothing disturbs it, the
    removal is over. *)
Definition settled (d : DataRoot) : Prop :=
  untouched d ∨ ∃ x, of_profile x ∧ (before h x None d ∨ gone h x d).
Lemma completed_in_progress d : completed d → in_progress d.
Proof using.
  intros (x & Hx & Hd). right. exists x. split; [done|]. do 2 right. exists None, None.
  split; [by right|by split].
Qed.
Lemma settled_in_progress d : settled d → in_progress d.
Proof using.
  intros [?|(x & Hx & [?|?])]; [by left|right; exists x; auto|]. apply completed_in_progress. by exists x.
Qed.
Lemma recover_in_progress (v : option nat) :
  (v = Some c → publishable document) →
  spec c (fun d => in_progress d ∧ ∀ c, v = Some c → fresh h c (dr_files d)) (recover_incomplete_removal h)
    (fun _ => settled) (fun _ d => (v = Some c → disturbed h c) ∧ in_progress d).
Proof using Hready Huuid RL LR.
  intros Hv. apply spec_each. intros d [[Hd|(x & Hof & Hd)] Hfresh].
  { eapply spec_weaken; [eapply spec_pre; [by apply (recover_clean h c unknown standing_unknown None false (Stable document) (Some tree))|by intros ? <-]|..].
    - intros [] d' Hd'. by left.
    - intros e d' [Hdist Hd']. split; [done|by left]. }
  pose proof (standing_of _ Hof) as Hst. destruct (profile_of _ Hof) as (Hx & HP & Hw & Hdoc & Hrm).
  destruct Hd as [Hd|[Hd|Hd]].
  - eapply spec_weaken; [eapply spec_pre; [by apply (recover_before h c x Hst)|by intros ? <-]|..].
    + intros [] d' Hd'. right. exists x. auto.
    + intros e d' [Hdist Hd']. split; [done|]. right. exists x. auto.
  - eapply spec_weaken; [eapply spec_pre; [apply (recover_blocked h c x Hst Hx Huuid v); by rewrite Hdoc|]|..].
    + intros ? <-. destruct Hd as (j & t & hidden & Hj & Hp & Hf). exists j, t, hidden. split; [done|].
      split; [done|]. by destruct Hf; split.
    + intros [] d' [strict Hd']. right. exists x. split; [done|]. left. exists strict. by eapply shape_weaken.
    + intros e d' [Hdist Hd']. split; [done|]. right. exists x. split; [done|]. destruct Hd'; auto.
  - eapply spec_weaken; [eapply spec_pre; [apply (recover_removed h c x Hst Hx)|by intros ? <-]|..].
    + intros [] d' Hd'. right. exists x. auto.
    + intros e d' [Hdist Hd']. split; [done|]. right. exists x. auto.
Qed.
End run.

(** ** What is promised of the disk *)

(** The list of profiles a reader of the registry gets, from the registry or
    from the barrier. *)
Definition visible_registry (d : DataRoot) : option RegistryDocument :=
  match registry_of h d with
  | Ok (Stable document) => Some document
  | Ok (RemovalBarrier barrier) => Some (rb_expected_registry barrier)
  | Err _ => None
  end.
Abbreviation home d := (profile_entry (profile_provider P) (profile_id P) d).
Abbreviation tombstone d := (profile_entry (profile_provider P) (removing (profile_id P)) d).

(** Everything but the profile, the registry, the journal and the locks. *)
Record unaffected (d : DataRoot) : Prop := {
  un_root : dr_root d = dr_root d0;
  un_profiles : dr_profiles d = dr_profiles d0;
  un_files name : transient name = false → dr_files d !! name = dr_files d0 !! name;
  un_entries p name : p ≠ profile_provider P ∨ name ≠ profile_id P ∧ name ≠ removing (profile_id P) →
    profile_entry p name d = profile_entry p name d0;
}.
(** Registered, its whole tree in one of its two places; or not registered, and
    at most a part of the tree is left in the tombstone. *)
Definition registered_whole (d : DataRoot) : Prop :=
  visible_registry d = Some document ∧
  (home d = Some tree ∧ tombstone d = None ∨ home d = None ∧ tombstone d = Some tree).
Definition unregistered (d : DataRoot) : Prop :=
  registry_of h d = Ok (Stable (without P document)) ∧ home d = None ∧
  (tombstone d = None ∨ ∃ es', pruned es es' ∧ tombstone d = Some (Directory m es')).
(** Nothing of a removal is left. *)
Definition at_rest (d : DataRoot) : Prop :=
  journal_of h d = Ok None ∧ temporaries_in h d = Ok [] ∧ tombstone d = None.

Lemma shape_unaffected x v strict s j t orig tomb d :
  rm_base x = d0 → rm_profile x = P → shape h x v strict s j t orig tomb d → unaffected d.
Proof using Hready.
  intros Hb HP [Hp Hf]. split.
  - rewrite (pl_root _ _ _ _ Hp). by rewrite Hb.
  - rewrite (pl_profiles _ _ _ _ Hp). by rewrite Hb.
  - intros name Hn. rewrite (fl_kept _ _ _ _ _ _ _ _ Hf name Hn). by rewrite Hb.
  - intros p name Hn. unfold profile_entry. destruct (decide (p = profile_provider P)) as [->|Hne].
    + destruct Hn as [?|[? ?]]; [done|]. pose proof (pl_provider _ _ _ _ Hp) as Hpd.
      unfold rm_provider, rm_id in Hpd. rewrite HP, Hb in Hpd. rewrite Hpd.
      destruct (provider_dir (profile_provider P) d0) as [[root entries]|]; [|done]. cbn. by rewrite arrange_other.
    + pose proof (pl_other _ _ _ _ Hp) as Ho. unfold rm_provider in Ho. rewrite HP, Hb in Ho.
      assert (p = other_provider (profile_provider P)) as -> by (by destruct p, (profile_provider P)).
      by rewrite Ho.
Qed.
Lemma shape_places x v strict s j t orig tomb d :
  standing h x → rm_profile x = P → shape h x v strict s j t orig tomb d → home d = orig ∧ tombstone d = tomb.
Proof using.
  intros Hst HP Hd. pose proof (shape_original h x Hst _ _ _ _ _ _ _ _ Hd) as Ho.
  pose proof (shape_tombstone h x Hst _ _ _ _ _ _ _ _ Hd) as Ht. unfold rm_provider, rm_id in *.
  by rewrite HP in Ho, Ht.
Qed.
Lemma in_progress_outcome d : in_progress d → unaffected d ∧ (registered_whole d ∨ unregistered d).
Proof using Hready.
  intros [Hd|(x & Hof & Hd)].
  { split; [by eapply (shape_unaffected unknown)|]. left. unfold registered_whole, visible_registry.
    rewrite (shape_registry _ _ _ _ _ _ _ _ _ _ Hd). split; [done|]. left.
    by eapply (shape_places unknown); [apply standing_unknown| |exact Hd]. }
  pose proof (standing_of _ Hof) as Hst. destruct (profile_of _ Hof) as (Hx & HP & Hw & Hdoc & Hrm).
  assert (rm_base x = d0) as Hb by (by destruct Hof as (? & ? & -> & _)).
  unfold registered_whole, unregistered, visible_registry.
  destruct Hd as [[strict Hd]|[(j & t & hidden & Hj & Hd)|(j & tomb & Hj & Htomb & Hd)]];
    (split; [by eapply shape_unaffected|]); rewrite (shape_registry _ _ _ _ _ _ _ _ _ _ Hd);
    destruct (shape_places _ _ _ _ _ _ _ _ _ Hst HP Hd) as [-> ->].
  - left. rewrite Hdoc, Hw. auto.
  - left. cbn. rewrite Hdoc, Hw. split; [done|]. destruct hidden; auto.
  - right. rewrite Hrm. split; [done|]. split; [done|]. destruct tomb as [n|]; [right|by left].
    destruct Htomb as (es' & Hes' & ->). exists es'.
    assert (rm_tree x = es ∧ rm_meta x = m) as [<- <-] by (by destruct Hof as (? & ? & -> & _)). done.
Qed.
Lemma shape_at_rest x v strict s orig d :
  standing h x → rm_profile x = P → shape h x v strict s None None orig None d → at_rest d.
Proof using.
  intros Hst HP Hd. split_and!.
  - by eapply shape_journal.
  - exact (shape_temporaries _ _ _ _ _ _ _ _ _ _ Hd).
  - by eapply shape_places.
Qed.
Lemma settled_outcome d : settled d →
  at_rest d ∧ (registry_of h d = Ok (Stable document) ∧ home d = Some tree ∨
               registry_of h d = Ok (Stable (without P document)) ∧ home d = None).
Proof using Hready.
  intros [Hd|(x & Hof & Hd)].
  { split; [by eapply (shape_at_rest unknown); [apply standing_unknown| |exact Hd]|]. left.
    rewrite (shape_registry _ _ _ _ _ _ _ _ _ _ Hd). split; [done|].
    by eapply (shape_places unknown); [apply standing_unknown| |exact Hd]. }
  pose proof (standing_of _ Hof) as Hst. destruct (profile_of _ Hof) as (Hx & HP & Hw & Hdoc & Hrm).
  destruct Hd as [[strict Hd]|Hd]; (split; [by eapply shape_at_rest|]);
    rewrite (shape_registry _ _ _ _ _ _ _ _ _ _ Hd);
    destruct (shape_places _ _ _ _ _ _ _ _ _ Hst HP Hd) as [-> _].
  - left. by rewrite Hdoc, Hw.
  - right. by rewrite Hrm.
Qed.
End remove.

(** ** The theorems *)

(** The disk after a removal and [n] recoveries; the host decides what becomes
    of every call of every run. *)
Definition after_removal (p : Provider) (alias : string) (confirmed : option string) (n : nat) (w : World) : World :=
  Nat.iter n (fun w => snd (recover_incomplete_removal h w)) (snd (remove h p alias confirmed w)).

Section history.
Context (document : RegistryDocument) (P : Profile) (m : Meta) (es : Entries).
Context (alias : string) (confirmed : option string) (w : World).
Context {RL : RegistryHeaderLaws} {LR : JsonRoundTrip RegistryDocument registry_in_range}.
Context {LB : JsonRoundTrip RemovalRegistryBarrier barrier_in_range} {LJ : JsonRoundTrip RemovalJournal removal_in_range}.
Context (Hready : ready_for_removal document P m es (w_disk w)) (Huuid : canonical_uuids h).
Context (Hfind : find_first (alias_is (profile_provider P) alias) (registry_profiles document) = Some P).

Lemma history_in_progress n :
  in_progress document P m es (w_disk w) (w_disk (after_removal (profile_provider P) alias confirmed n w)).
Proof using Hready Huuid Hfind RL LR LB LJ.
  unfold after_removal. induction n as [|n IH].
  - destruct (remove_spec document P m es (w_disk w) Hready Huuid 0 alias confirmed Hfind w) as [_ H];
      [lia|by apply untouched_start|].
    destruct (remove h (profile_provider P) alias confirmed w) as [[q|e] w']; [|exact H].
    apply completed_in_progress, H.
  - rewrite Nat.iter_succ. set (w' := Nat.iter _ _ _) in *.
    destruct (recover_in_progress document P m es (w_disk w) Hready Huuid 0 None (fun H => ltac:(discriminate H)) w')
      as [_ H]; [lia|by split|].
    destruct (recover_incomplete_removal h w') as [[[]|e] w'']; [by apply settled_in_progress|by destruct H].
Qed.

(** No file has the name of a temporary file that is still to be created. *)
Lemma history_fresh n :
  let w' := after_removal (profile_provider P) alias confirmed n w in
  (∀ i j, (i < w_clock w' ≤ j)%nat → h_new_v4 h i ≠ h_new_v4 h j) →
  fresh h (w_clock w') (dr_files (w_disk w)) → fresh h (w_clock w') (dr_files (w_disk w')).
Proof using Type.
  intros w' Hdistinct Hstart. apply vacant_fresh. apply vacant_fresh in Hstart.
  assert ((w_clock w ≤ w_clock w')%nat ∧
    ∀ c, (∀ i j, (i < c ≤ j)%nat → h_new_v4 h i ≠ h_new_v4 h j) → (w_clock w' ≤ c)%nat →
      vacant (future h c) w → vacant (future h c) w') as [_ Hk].
  { clear Hdistinct Hstart. subst w'. unfold after_removal. induction n as [|n [Hc IH]].
    - split; [|intros c Hd; by apply spares_remove]. apply (spares_remove h 0). lia.
    - rewrite Nat.iter_succ. set (w1 := Nat.iter _ _ _) in *. clearbody w1.
      assert ((w_clock w1 ≤ w_clock (snd (recover_incomplete_removal h w1)))%nat) as Hle
        by (apply (spares_recover h 0); lia).
      split; [lia|]. intros c Hd Hc' Hcl. apply spares_recover; [done|done|]. apply IH; [done|lia|done]. }
  by apply Hk.
Qed.

(** C16. However often a removal of a profile and the recoveries after it fail
    or die, at whatever system call, the profile is either still in the
    registry, or in the old registry its barrier holds, with its whole tree in
    place or under the name of its tombstone, or it is not registered any more
    and at most what a deletion leaves of its tree is under that name; nothing
    else in the data root is affected. *)
Theorem removal_crash_safe n :
  let d := w_disk (after_removal (profile_provider P) alias confirmed n w) in
  unaffected P (w_disk w) d ∧ (registered_whole document P m es d ∨ unregistered document P m es d).
Proof using Hready Huuid Hfind RL LR LB LJ. apply in_progress_outcome; [done|]. apply history_in_progress. Qed.

(** C17. After any such history, whatever the crashes left, a temporary file
    of the registry included, one recovery that nothing disturbs returns, and
    the removal is over: the profile is registered and in place, or neither;
    no journal, no temporary file of it and no tombstone is left. What it
    needs: the old registry can be written again, that is, its serialisation
    fits the registry's limit; and the identifiers drawn from then on are new,
    different from those drawn before and from the temporary files the data
    root had before the removal. *)
Theorem removal_recovery_settles n :
  let w' := after_removal (profile_provider P) alias confirmed n w in
  (∀ i j, (i < w_clock w' ≤ j)%nat → h_new_v4 h i ≠ h_new_v4 h j) →
  fresh h (w_clock w') (dr_files (w_disk w)) →
  quiet h (w_clock w') → publishable document →
  ∃ w'', recover_incomplete_removal h w' = (Ok (), w'') ∧ at_rest P (w_disk w'') ∧
    (registry_of h (w_disk w'') = Ok (Stable document) ∧
       profile_entry (profile_provider P) (profile_id P) (w_disk w'') = Some (Directory m es) ∨
     registry_of h (w_disk w'') = Ok (Stable (without P document)) ∧
       profile_entry (profile_provider P) (profile_id P) (w_disk w'') = None).
Proof using Hready Huuid Hfind RL LR LB LJ.
  intros w' Hdistinct Hstart Hquiet Hpub. pose proof (history_fresh n Hdistinct Hstart) as Hfresh.
  destruct (recover_in_progress document P m es (w_disk w) Hready Huuid (w_clock w') (Some (w_clock w')) (fun _ => Hpub) w')
    as [_ H]; [lia|split; [by apply history_in_progress|by intros ? [= <-]]|].
  destruct (recover_incomplete_removal h w') as [[[]|e] w''].
  - exists w''. split; [done|]. by eapply settled_outcome.
  - destruct H as [H _]. by destruct (H eq_refl).
Qed.

(** C18. A removal that returns has removed the profile it was asked to remove:
    it is not registered, its directory is gone, and nothing of the removal is
    left. *)
Theorem remove_returns_removed q :
  fst (remove h (profile_provider P) alias confirmed w) = Ok q →
  let d := w_disk (snd (remove h (profile_provider P) alias confirmed w)) in
  q = P ∧ registry_of h d = Ok (Stable (without P document)) ∧
  profile_entry (profile_provider P) (profile_id P) d = None ∧ at_rest P d ∧ unaffected P (w_disk w) d.
Proof using Hready Huuid Hfind RL LR LB LJ.
  destruct (remove_spec document P m es (w_disk w) Hready Huuid 0 alias confirmed Hfind w) as [_ H];
    [lia|by apply untouched_start|].
  destruct (remove h (profile_provider P) alias confirmed w) as [[q'|e] w']; [|done]. cbn. intros [= <-].
  destruct H as (-> & x & Hof & Hd). pose proof (standing_of _ _ _ _ _ Hready _ Hof) as Hst.
  destruct (profile_of _ _ _ _ _ _ Hof) as (Hx & HP & Hw & Hdoc & Hrm).
  split; [done|]. rewrite (shape_registry _ _ _ _ _ _ _ _ _ _ Hd), Hrm. split; [done|].
  split; [by eapply shape_places|]. split; [by eapply shape_at_rest|].
  eapply in_progress_outcome; [done|]. apply completed_in_progress. by exists x.
Qed.
End history.
End theorems.
