(* ===== verification/RemovalExamples.v ===== *)
(** * Removal and recovery on a concrete data root

    The hypotheses of the theorems hold: the profile of a registry of two is
    removed on concrete serialisers and with hyphenated UUIDs, once with no
    disturbance and once with two processes that die and one call that fails. *)
From Stdlib Require Import Ascii.
From S2P Require Import Prelude Interfaces Profiles ConversationData ConversationStore ConversationCodec CodexLines.
From S2P Require Import ProfileDisk ProfileLogic RemovalTree RemovalTreeProofs RemovalDeletion ProfileRegistry ManagedHome Reauth ProfileRemoval RemovalDisk RemovalSteps RemovalRecovery RemovalCrash RemovalTheorems.

Open Scope Z_scope.

(** ** Concrete serialisers *)

#[export] Instance Profile_delimited : Delimited Profile.
Proof.
  refine (delimited_iso (A := string * (string * (Provider * Z)))
    (fun p => (profile_id p, (profile_alias p, (profile_provider p, profile_created_at p))))
    (fun '(i, (a, (p, t))) => mkProfile i a p t) _). by intros [].
Defined.
#[export] Instance RegistryDocument_delimited : Delimited RegistryDocument.
Proof.
  refine (delimited_iso (A := Z * list Profile)
    (fun d => (registry_schema_version d, registry_profiles d)) (fun '(v, l) => mkRegistryDocument v l) _). by intros [].
Defined.
#[export] Instance FileSystemIdentity_delimited : Delimited FileSystemIdentity.
Proof.
  refine (delimited_iso (A := Z * Z) (fun i => (device i, inode i)) (fun '(d, i) => mkFileSystemIdentity d i) _).
  by intros [].
Defined.
#[export] Instance RemovalJournal_delimited : Delimited RemovalJournal.
Proof.
  refine (delimited_iso
    (A := Z * (Profile * (string * (string * (string * (FileSystemIdentity * (FileSystemIdentity *
            (FileSystemIdentity * (FileSystemIdentity * Z)))))))))
    (fun j => (rj_schema_version j, (rj_profile j, (rj_expected_registry_digest j, (rj_removed_registry_digest j,
      (rj_profile_tree_manifest_digest j, (rj_data_root j, (rj_profiles_root j, (rj_provider_root j,
      (rj_profile_tree j, rj_profile_tree_entry_count j))))))))))
    (fun '(v, (p, (e, (r, (t, (i1, (i2, (i3, (i4, n))))))))) => mkRemovalJournal v p e r i1 i2 i3 i4 n t) _).
  by intros [].
Defined.
#[export] Instance RemovalRegistryBarrier_delimited : Delimited RemovalRegistryBarrier.
Proof.
  refine (delimited_iso (A := Z * (RemovalJournal * RegistryDocument))
    (fun b => (rb_schema_version b, (rb_removal b, rb_expected_registry b)))
    (fun '(v, (j, d)) => mkRemovalRegistryBarrier v j d) _). by intros [].
Defined.

#[export] Instance registered_in_range_dec p : Decision (registered_in_range p).
Proof. unfold registered_in_range. apply _. Defined.
#[export] Instance identity_in_range_dec i : Decision (identity_in_range i).
Proof. unfold identity_in_range, in_u64. apply _. Defined.
#[export] Instance registry_in_range_dec d : Decision (registry_in_range d).
Proof. unfold registry_in_range. apply _. Defined.
#[export] Instance removal_in_range_dec j : Decision (removal_in_range j).
Proof. unfold removal_in_range, in_u64. apply _. Defined.
#[export] Instance barrier_in_range_dec b : Decision (barrier_in_range b).
Proof. unfold barrier_in_range. apply _. Defined.

(** The whole input must be one value that is in range. *)
Definition whole_codec {D} `{Delimited D} (in_range : D → Prop) `{∀ d, Decision (in_range d)} : JsonCodec D := {|
  to_vec d := Some (put d);
  from_slice b := match get b with
                  | Some (d, []) => if decide (in_range d) then Some d else None
                  | _ => None
                  end;
|}.
Lemma whole_round_trip {D} `{Delimited D} (in_range : D → Prop) `{∀ d, Decision (in_range d)} :
  @JsonRoundTrip D (whole_codec in_range) in_range.
Proof.
  split; cbn [from_slice to_vec whole_codec].
  - intros d b Hd Hb. assert (b = put d ++ []) as -> by (rewrite app_nil_r; congruence).
    rewrite get_put. by rewrite decide_True.
  - intros b d. destruct (get b) as [[x []]|]; [|done..].
    by destruct (decide _) as [?|?]; intros [= <-].
Qed.

Module RemovalExample.
#[export] Instance uuid_instance : UuidCrate := uuid_hyphenated.
#[export] Instance sha_instance : Sha256Crate := {| digest b := foldr Z.add 0 b mod 256 :: repeat 0 31 |}.
#[export] Instance registry_codec : JsonCodec RegistryDocument := whole_codec registry_in_range.
#[export] Instance barrier_codec : JsonCodec RemovalRegistryBarrier := whole_codec barrier_in_range.
#[export] Instance removal_codec : JsonCodec RemovalJournal := whole_codec removal_in_range.
#[export] Instance reauth_codec : JsonCodec ReauthJournal := {| to_vec _ := None; from_slice _ := None |}.
#[export] Instance registry_laws : JsonRoundTrip RegistryDocument registry_in_range := whole_round_trip registry_in_range.
#[export] Instance barrier_laws : JsonRoundTrip RemovalRegistryBarrier barrier_in_range := whole_round_trip barrier_in_range.
#[export] Instance removal_laws : JsonRoundTrip RemovalJournal removal_in_range := whole_round_trip removal_in_range.
(** The schema version is the first field of both documents. *)
#[export] Instance header_instance : RegistryHeader :=
  {| header_schema_version b := fst <$> get (A := Z) b; to_vec_compact d := Some (put d) |}.
Lemma first_field (z : Z) l : fst <$> get (A := Z) (put z ++ l) = Some z.
Proof. by rewrite get_put. Qed.
#[export] Instance header_laws : RegistryHeaderLaws.
Proof. split; intros d b _ [= <-]; apply first_field. Qed.
#[export] Instance toml_instance : TomlCrate := {| toml_from_str _ := None |}.
#[export] Instance reauth_instance : ReauthJson := {| explicit_provider_fields _ := None |}.

(** ** The data root *)

Definition directory_meta_of (inode : Z) : Meta := mkMeta 1 inode 1000 0x41c0 2 4096 7.
Definition file_meta_of (inode : Z) : Meta := mkMeta 1 inode 1000 0x8180 1 0 7.
Definition P : Profile := mkProfile "30000000-0000-4000-8000-000000000001" "work" Codex 100.
Definition P' : Profile := mkProfile "30000000-0000-4000-8000-000000000002" "home" Codex 110.
Definition document : RegistryDocument := mkRegistryDocument 1 [P'; P].
Definition entries : Entries :=
  [(OWNER_MARKER, RegularFile (file_meta_of 21) (name_bytes (profile_id P)));
   ("home", Directory (directory_meta_of 22) [("auth.json", RegularFile (file_meta_of 23) [123; 125])]);
   (PROVIDER_LOCK_FILE, RegularFile (file_meta_of 24) []);
   (COORDINATOR_LOCK_FILE, RegularFile (file_meta_of 25) [])].
Definition start : DataRoot :=
  mkDataRoot (Some (directory_meta_of 10)) {[REGISTRY_FILE := RegularFile (file_meta_of 11) (put document)]}
    (Some (directory_meta_of 12)) None
    (Some (directory_meta_of 13, {[profile_id P := Directory (directory_meta_of 20) entries]})).

(** The identifier drawn at the [n]-th call; no two of the first 200 are the
    same. *)
Definition uuid_at (n : nat) : string :=
  if (n <? 200)%nat
  then "40000000-0000-4000-8000-0000000000" +:+
    String (hex_digit (Z.of_nat (n / 16))) (String (hex_digit (Z.of_nat (n mod 16))) "")
  else "50000000-0000-4000-8000-000000000000".
(** The host with these disturbances. *)
Definition host (fate : nat → Fate) : Host :=
  mkHost fate (fun _ => 3%nat) (fun _ => false) uuid_at (fun n => 100 + Z.of_nat n) 1000.
Definition calm : Host := host (fun _ => Proceeds).
(** The removal dies once the tree is hidden behind the barrier, while the new
    registry is in its temporary file; the first recovery fails, the second
    dies. *)
Definition rough (n : nat) : Fate :=
  if (n =? 72)%nat then Dies else if (n =? 90)%nat then Fails else if (n =? 130)%nat then Dies else Proceeds.
Definition w0 : World := mkWorld 0 start.

Lemma ready fate : ready_for_removal (host fate) document P (directory_meta_of 20) entries start.
Proof.
  split.
  - by vm_compute; right; left.
  - exists (file_meta_of 11), (put document). split; [done|]. split; by vm_compute.
  - done.
  - split; [|done]. intros name n Hn. cbn [dr_files start] in Hn.
    apply lookup_singleton_Some in Hn as [<- <-]. split; [by apply ascii_plain|done].
  - done.
  - done.
  - exists (directory_meta_of 10). by split.
  - done.
  - apply (bool_decide_unpack _). by vm_compute.
  - split; by eexists.
  - intros p root es. destruct p; [done|]. intros [= <- <-]. split; [done|].
    intros name [n Hn]. apply lookup_singleton_Some in Hn as [<- <-]. split; [by apply ascii_plain|done].
  - split.
    + intros q Hq m es Hes. cbn in Hq.
      rewrite elem_of_cons, elem_of_cons in Hq. destruct Hq as [->|[->|Hq]]; [done| |by apply elem_of_nil in Hq].
      vm_compute in Hes. injection Hes as <- <-. done.
    + intros p root es name. destruct p; [done|]. intros [= <- <-] [n Hn].
      by apply lookup_singleton_Some in Hn as [<- <-].
  - unfold identity_in_range, in_u64, u64_max. split; [cbn; lia|]. split; [intros ? [= <-]; cbn; lia|].
    split; [intros ? [= <-]; cbn; lia|]. intros p root es. destruct p; [done|]. intros [= <- <-]. cbn. lia.
Qed.
Definition canonical_at (n : nat) : bool :=
  is_ok (validate_profile_id (uuid_at n)) && str_all is_ascii (uuid_at n).
Lemma canonical_first : forallb canonical_at (seq 0 201) = true.
Proof. by vm_compute. Qed.
Lemma uuid_late n : (200 ≤ n)%nat → uuid_at n = uuid_at 200.
Proof. intros H. unfold uuid_at. by rewrite (proj2 (Nat.ltb_ge n 200)). Qed.
Lemma canonical fate : canonical_uuids (host fate).
Proof.
  intros n. cbn [h_new_v4 host]. assert (canonical_at n = true) as Hc.
  { pose proof canonical_first as H. rewrite forallb_forall in H.
    destruct (Nat.lt_ge_cases n 200); [apply H, in_seq; lia|]. unfold canonical_at. rewrite uuid_late by done.
    apply (H 200%nat), in_seq. lia. }
  unfold canonical_at in Hc. apply andb_true_iff in Hc as [Hv Ha]. split; [|done].
  by destruct (validate_profile_id _) as [[]|].
Qed.

(** ** The witnesses *)

Definition outcome (d : DataRoot) : Prop :=
  unaffected P start d ∧
  (registered_whole (host rough) document P (directory_meta_of 20) entries d ∨
   unregistered (host rough) document P (directory_meta_of 20) entries d).
Lemma removal_crash_safe_witness : outcome (w_disk (after_removal (host rough) (profile_provider P) "work" None 2 w0)).
Proof.
  exact (removal_crash_safe (host rough) document P (directory_meta_of 20) entries "work" None w0
    (ready rough) (canonical rough) eq_refl 2).
Defined.

Definition w2 : World := after_removal (host rough) (profile_provider P) "work" None 2 w0.
(** The second recovery has died with the tree still hidden, and the temporary
    file of the registry is still there. *)
Example rough_progress :
  fst (remove (host rough) (profile_provider P) "work" None w0) = Err Died ∧ w_clock w2 = 131%nat ∧
  bool_decide (is_Some (profile_entry (profile_provider P) (removing (profile_id P)) (w_disk w2))) = true ∧
  bool_decide (is_Some (dr_files (w_disk w2) !! registry_temporary (uuid_at 68))) = true.
Proof. by vm_compute. Qed.
Lemma calm_after_rough : quiet (host rough) (w_clock w2).
Proof.
  assert (w_clock w2 = 131%nat) as -> by apply rough_progress.
  intros n Hn. split; [|done]. cbn. unfold rough.
  by rewrite !(proj2 (Nat.eqb_neq n _)) by lia.
Qed.
Lemma distinct_first :
  forallb (fun i => forallb (fun j => negb (String.eqb (uuid_at i) (uuid_at j))) (seq 131 70)) (seq 0 131) = true.
Proof. by vm_compute. Qed.
Lemma distinct_after i j : (i < w_clock w2 ≤ j)%nat → h_new_v4 (host rough) i ≠ h_new_v4 (host rough) j.
Proof.
  assert (w_clock w2 = 131%nat) as -> by apply rough_progress. intros [Hi Hj].
  pose proof distinct_first as H. rewrite forallb_forall in H.
  specialize (H i ltac:(apply in_seq; lia)). rewrite forallb_forall in H.
  cbn [h_new_v4 host]. apply String.eqb_neq, negb_true_iff.
  destruct (Nat.lt_ge_cases j 200); [apply H, in_seq; lia|]. rewrite (uuid_late j) by done.
  apply H, in_seq. lia.
Qed.
Lemma fresh_at_start n : fresh (host rough) n (dr_files (w_disk w0)).
Proof. intros k _. cbn [w0 w_disk dr_files start]. by apply lookup_singleton_ne. Qed.
Lemma document_publishable : publishable document.
Proof. exists (put document). split; [done|by vm_compute]. Qed.
Lemma removal_recovery_settles_witness :
  ∃ w'', recover_incomplete_removal (host rough) w2 = (Ok (), w'') ∧ at_rest (host rough) P (w_disk w'') ∧
    (registry_of (host rough) (w_disk w'') = Ok (Stable document) ∧
       profile_entry (profile_provider P) (profile_id P) (w_disk w'') = Some (Directory (directory_meta_of 20) entries) ∨
     registry_of (host rough) (w_disk w'') = Ok (Stable (without P document)) ∧
       profile_entry (profile_provider P) (profile_id P) (w_disk w'') = None).
Proof.
  pose proof (removal_recovery_settles (host rough) document P (directory_meta_of 20) entries "work" None w0
    (ready rough) (canonical rough) eq_refl 2) as H.
  fold w2 in H. cbv zeta in H. exact (H distinct_after (fresh_at_start _) calm_after_rough document_publishable).
Defined.

Lemma calm_removes : fst (remove calm (profile_provider P) "work" None w0) = Ok P.
Proof. by vm_compute. Qed.
Lemma remove_returns_removed_witness :
  let d := w_disk (snd (remove calm (profile_provider P) "work" None w0)) in
  P = P ∧ registry_of calm d = Ok (Stable (without P document)) ∧
  profile_entry (profile_provider P) (profile_id P) d = None ∧ at_rest calm P d ∧ unaffected P start d.
Proof.
  exact (remove_returns_removed calm document P (directory_meta_of 20) entries "work" None w0
    (ready _) (canonical _) eq_refl P calm_removes).
Defined.

Definition roots : RemovalRoots :=
  mkRemovalRoots Codex (mkFileSystemIdentity 1 10) (mkFileSystemIdentity 1 12) (mkFileSystemIdentity 1 13)
    (to_le_bytes 8 7).
Lemma entries_accepted : accepted_tree calm roots (profile_id P) false (directory_meta_of 20) entries.
Proof.
  apply sound_tree_accepted. split; [by vm_compute|by vm_compute|by vm_compute| |by vm_compute|by vm_compute].
  repeat first [apply safe_entry; [by vm_compute|done|] | apply safe_directory; [by vm_compute|by vm_compute| |]
    | apply safe_nil].
Qed.
Lemma provider_mounted : on_mount roots (directory_meta_of 13).
Proof. by apply same_mount_Ok. Qed.
Lemma deletion_all_or_pruned_witness :
  let '(r, w') := remove_owned_directory_at calm Codex (profile_id P) (mkFileSystemIdentity 1 13)
                    (mkFileSystemIdentity 1 20) (rr_provider_mount roots)
                    MAX_REMOVAL_TREE_ENTRIES MAX_REMOVAL_TREE_DEPTH w0 in
  (quiet calm 0 → r = Ok ()) ∧ dr_files (w_disk w') = dr_files start ∧
  (∀ q other, (q, other) ≠ (Codex, profile_id P) → profile_entry q other (w_disk w') = profile_entry q other start) ∧
  match r with
  | Ok _ => profile_entry Codex (profile_id P) (w_disk w') = None
  | Err _ => ∃ es', pruned entries es' ∧
      profile_entry Codex (profile_id P) (w_disk w') = Some (Directory (directory_meta_of 20) es')
  end.
Proof.
  exact (deletion_all_or_pruned calm roots Codex (profile_id P) w0 (directory_meta_of 13) (directory_meta_of 20)
    {[profile_id P := Directory (directory_meta_of 20) entries]} entries (profile_id P)
    eq_refl eq_refl eq_refl provider_mounted entries_accepted).
Defined.
End RemovalExample.
